(* ===== verification/_CoqProject ===== *)
-Q . S2P
Prelude.v
Nodeset.v
SupCluster.v
SupClique.v
Csupd.v
Membership.v
Extent.v
Prediction.v
Storage.v
Assembly.v
SyncTag.v
Rain1.v
Rain1Status.v
Bytes.v
Checksum.v
Stream.v
BdevStream.v
Superblock.v
SbVersion.v
SbProtocol.v
Serial.v
GroupSb.v
GroupSync.v
PrReserve.v
PrUnit.v
PrTarget.v
PrLock.v
PrLockNode.v
PrLockTarget.v
PrLockProto.v
PrLockAct.v
PrLockStep.v
PrLockServe.v
PrLockRecover.v
PrLockMove.v
PrLockCoh.v
PrLockLive.v
PrLockSys.v
PrLockTurn.v
PrLockRun.v
PrLockSafe.v
PrLockPool.v
PrLockIdle.v
PrLockSched.v
PrLockThm.v
PrLockBounds.v
