(* ===== verification/Prelude.v ===== *)
(** * OpenExanodes: a verification development (root file)

    OpenExanodes turns the disks of the nodes of a cluster into shared
    volumes.  A supervisor daemon on each node ([csupd]) agrees with its peers
    on the set of nodes that are up; the virtualizer ([vrt]) cuts the disks of
    a group in chunks, assembles chunks of different failure domains (SPOFs)
    in slots and slots in volumes, and a layout ([rain1]) replicates the data
    of a slot on two of its chunks and keeps track of the replicas that missed
    writes.  Each device keeps its part of the description of the group in two
    superblocks, whose version the administration daemon ([admind]) agrees on;
    volumes are exported by an iSCSI target.  This library models these parts as executable functions and
    proves them correct.  Each definition carries the name of the C function
    it translates; a few C functions are split, the parts being named after
    the loop or the block they translate.

    ** Conventions

    - Integers are [Z]; wrap-around is written out ([u16], [u32], [u64], [i32])
      where the C type is narrower than the values that can reach it, and
      [fits w x] says that [x] is a value of an unsigned type of [w] bits.
    - A failed [EXA_ASSERT], or an access out of an array, is [None]; an error
      code is [Err e] of [result].  A theorem whose conclusion is
      [f x = Some ...] thus shows that [f] does not abort on [x].
    - Objects shared by pointers (devices) live in a store indexed by
      addresses; structures owned by one place are records.
    - [qsort] is any function that satisfies the class [Qsort]: a sorted
      permutation for a comparison that is a total preorder.  [isort_qsort] is
      an instance, used in the witnesses.
    - Loops whose bound is not structural take fuel; the fuel given by the
      caller is shown to be enough (the theorems conclude [Some]).
    - Allocation failures are inputs ([alloc : nat -> bool] or a flag).

    ** Files

    - [Prelude]: integers, errors, the option and error monads and their
      notation, tactics, the hint database [exa], lemmas on lists and loops.
    - [Nodeset] (common/lib/exa_nodeset.c): sets of nodes as arrays of 64 bit
      words refine finite sets; iteration visits each node once; text form
      and its parser round trip.
    - [SupCluster] (csupd/src/sup_view.c, sup_cluster.c): views and the table
      of nodes; the cached number of nodes seen is kept right.
    - [SupClique] (csupd/src/sup_clique.c): the greedy search of a clique that
      contains the local node: it ends, returns a clique that is maximal among
      the nodes not taken away before, and two nodes with the same information
      find the same clique.
    - [Csupd] (csupd/src/exa_csupd.c, sup_examsg.c): one supervisor: what a
      ping changes, generations accepted and committed, a turn of the loop.
    - [Membership]: a system of supervisors and a network that loses,
      duplicates and reorders pings, as a step relation; no assertion fails but
      for that of a frozen node and that of a delivery that the event manager
      does not take, generations delivered increase, commits follow acceptance,
      one coordinator per clique.
    - [Extent] (vrt/assembly/src/extent.c): lists of extents refine sets.
    - [Prediction] (vrt/assembly/src/assembly_prediction.c): the number of
      slots that chunk counts allow is exact.
    - [Storage] (vrt/virtualiseur/src/chunk.c, spof_group.c, storage.c):
      devices cut in chunks; chunks handed out never overlap.
    - [Assembly] (vrt/assembly/src/assembly_slot.c, assembly_volume.c,
      assembly_group.c): slots spread on SPOF groups; reservation, resize and
      release of volumes against the announced number of slots.
    - [SyncTag] (vrt/layout/rain1/src/lay_rain1_sync_tag.c,
      lay_rain1_desync_info.c): cyclic tags stand for unbounded dates; merge
      of dirty zone metadata.
    - [Rain1] (lay_rain1_rdev.c, lay_rain1_group.c, lay_rain1_striping.c,
      group creation in lay_rain1_module.c): placement of sectors on devices:
      replicas apart, no two sectors at the same place.
    - [Rain1Status] (lay_rain1_status.c, status in lay_rain1_module.c): the
      status of a group: a group that is not offline is readable everywhere,
      and a device that missed writes is not taken as up to date.
    - [Bytes]: byte buffers, their parts and little-endian numbers.
    - [Checksum] (common/lib/checksum.c): the incremental checksum depends on
      the bytes only, not on how they are cut in buffers.
    - [Stream] (vrt/common/src/vrt_stream.c, memory_stream.c,
      checksum_stream.c, narrowed_stream.c): streams stacked on streams; a
      class states what a stream promises to the one above it.
    - [BdevStream] (blockdevice/src/blockdevice_stream.c, blockdevice.c): the
      stream on a block device, with its cache of sectors; I/Os may fail.
    - [Superblock] (vrt/virtualiseur/src/vrt_realdev.c,
      realdev_superblock.c): the two superblocks of a device on this stack of
      streams: what is saved is read back, and a crash during a save leaves
      the previous version readable whatever sectors reached the disk.
    - [SbVersion] (admind/services/vrt/sb_version.c, vrt_utils.c): the version
      of the superblocks of a group, its text file, and one synchronisation.
    - [SbProtocol]: a cluster whose nodes synchronise, fail and come back, as
      a step relation on top of [SbVersion], with the quorum of
      admind/src/evmgr/evmgr_mship.c: when members agree on a version, and
      how they can disagree.
    - [PrReserve], [PrUnit], [PrTarget]
      (target/iscsi/src/scsi_persistent_reservations.c): persistent
      reservations of the iSCSI target: the tables and the commands, a
      specification of a unit on sets of keys and each command against it
      ([PrUnit] says where it is not the text of SPC-3), the whole target under
      commands and sessions.
    - [Serial] (the serialisation functions of vrt/assembly and of
      vrt/virtualiseur/src/storage.c): extents, slots, volumes, groups and
      storages written to a stream and read back.
    - [GroupSb] (vrt/virtualiseur/src/vrt_group.c, vrt_volume.c, the superblock
      files of the layouts): the description of a group, with padding bytes
      that the code does not clear, round trips through any stream.
    - [GroupSync] (vrt_group_sync_sb and vrt_group_read_sb of vrt_group.c):
      this description through the superblocks and the sectors of the devices:
      a group is saved as a whole or not at all, and started as it was saved.
    - [PrLock], [PrLockNode] (target/iscsi/src/pr_lock_algo.c): the distributed
      lock of the reservations; the handlers of the thread of a node, with its
      pool of elements, and what each of them returns for a consistent node when
      the pool is not empty.
    - [PrLockTarget] (scsi_pr_write_metadata and scsi_pr_read_metadata of
      target/iscsi/src/scsi_command.c): the target that the handlers call, on
      the reservations of [PrReserve]; it has the laws of [TargetLaws].
    - [PrLockProto], [PrLockAct], [PrLockStep], [PrLockServe],
      [PrLockRecover]: the same protocol without the lists of the threads: a
      token, the lock, that is a grant on its way, a command in progress or a
      release on its way, and what each handler does to it.
    - [PrLockMove]: these actions as one relation, a weight that each of them
      lowers and a load that none of them raises; [PrLockCoh]: the reservations of the nodes agree;
      [PrLockLive]: what a node waits for is on its way.
    - [PrLockSys]: the system of the nodes, their messages and the recoveries
      (admind/services/lum) as a step relation on the handlers of [PrLock];
      [PrLockTurn], [PrLockRun], [PrLockSafe]: its steps are moves of the
      protocol and keep the invariants; [PrLockPool]: a turn takes two elements
      of the pool at most, and does what it does with an endless pool or waits;
      [PrLockIdle]: the steps out of the recoveries end, and the load bounds the
      elements they take; [PrLockSched]: runs of two nodes.
    - [PrLockThm]: no assertion of a thread fails, one node at most executes a
      command, the reservations agree when the lock is free, and out of the
      recoveries every run of the threads and of the network ends, with no
      command left, when the pools have elements enough.
    - [PrLockBounds]: the elements that recoveries lose, and the 16 bits of the
      counts of memberships in the messages.

    ** Not modelled

    Concurrency inside a node, I/O on block devices and sockets are outside of
    the model: a thread that handles one message after the other is a sequence
    of turns ([Membership], [PrLockSys]), and the functions that only start
    I/Os, wait for them or move buffers (request engine, metadata flush and
    resynchronisation threads of rain1, network block device, messaging
    daemon, network of the reservation lock, real device module, operating
    system layer) are not modelled.  So are the administration daemon but for
    the versions of superblocks, the file system services, the user interface,
    monitoring, logging and the performance counters, which exchange XML, run
    commands or print text.  In the system of the reservation lock a
    recovery begins when all the nodes have handled the previous one: the
    recoveries that admind interrupts and restarts, and the last membership of a
    node that stops, are not among its runs; nor is that the target applies the
    opening and closing of sessions and the resets before it asks for the lock.
    The pool of elements of the lock can be exhausted by recoveries
    ([PrLockBounds]), after which threads wait for ever. *)

From Stdlib Require Export ZArith Ascii.
From stdpp Require Export prelude gmap list sorting strings.
From stdpp Require Import options.

#[global] Open Scope Z_scope.

(** ** Machine integers

    A C integer of width [w] is a [Z]; conversions are written out where the
    code converts or where an operation can wrap. *)
Definition u8 (x : Z) : Z := x mod 2 ^ 8.
Definition u16 (x : Z) : Z := x mod 2 ^ 16.
Definition u32 (x : Z) : Z := x mod 2 ^ 32.
Definition u64 (x : Z) : Z := x mod 2 ^ 64.

(** Conversion of an [uint32_t] to [int] (two's complement). *)
Definition i32 (x : Z) : Z :=
  let y := u32 x in if y <? 2 ^ 31 then y else y - 2 ^ 32.

(** [x] is a value of an unsigned type of [w] bits. *)
Definition fits (w x : Z) : Prop := 0 <= x < 2 ^ w.

(** Sectors (common/include/exa_constants.h). *)
Definition SECTOR_SIZE : Z := 512.
Definition SECTORS_TO_BYTES (nb_sectors : Z) : Z := nb_sectors * SECTOR_SIZE.
Definition BYTES_TO_SECTORS (nb_bytes : Z) : Z := nb_bytes / SECTOR_SIZE.

(** ** Errors

    The error codes the modelled functions return ([-EINVAL], ...), one
    constructor per code, and the two ways a C function fails in the model:
    an error code is a value [Err e] of [result]; a failed [EXA_ASSERT]
    (which aborts the daemon) is [None] of [option]. *)
Inductive exa_error :=
  | EINVAL | EEXIST | ENOENT | ENOSPC | ENOMEM | EIO | EOPNOTSUPP | ENODEV
  | EPERM | EMSGSIZE
  | EXA_ERR_INVALID_VALUE
  | VRT_ERR_NOT_ENOUGH_FREE_SC | VRT_ERR_RDEV_TOO_SMALL
  | VRT_ERR_TOO_MANY_CHUNKS | VRT_ERR_DIRTY_ZONE_TOO_SMALL
  | VRT_ERR_SB_MAGIC | VRT_ERR_SB_FORMAT | VRT_ERR_SB_CORRUPTION
  | VRT_ERR_SB_CHECKSUM | VRT_ERR_SB_NOT_FOUND | VRT_ERR_GROUP_NOT_ADMINISTRABLE
  | VRT_ERR_SB_UUID_MISMATCH | VRT_ERR_UNKNOWN_LAYOUT | VRT_ERR_NB_VOLUMES_CREATED
  | VRT_ERR_NO_RDEV_TO_READ
  | ADMIND_ERR_NODE_DOWN
  | TM_ERR_TOO_MANY_TOKENS | TM_ERR_ANOTHER_HOLDER | TM_ERR_NO_SUCH_TOKEN
  | TM_ERR_NOT_HOLDER | TM_ERR_WRONG_FILE_MAGIC
  | TM_ERR_WRONG_FILE_FORMAT_VERSION | TM_ERR_WRONG_FILE_TOKENS_NUMBER
  | OTHER_ERR (code : Z).

#[export] Instance exa_error_eq_dec : EqDecision exa_error.
Proof. solve_decision. Defined.

Inductive result (A : Type) :=
  | Ok (a : A)
  | Err (e : exa_error).
Arguments Ok {A} a.
Arguments Err {A} e.

(** [EXA_ASSERT (b)]: the computation continues only when [b] holds. *)
Definition exa_assert (b : bool) : option unit := if b then Some tt else None.

Declare Scope exa_scope.
Delimit Scope exa_scope with exa.

Notation "'assert!' b ; k" := (match exa_assert b with Some _ => k | None => None end)
  (at level 20, b at level 10, k at level 200, right associativity,
   format "'assert!'  b ;  '//' k") : exa_scope.

#[global] Open Scope exa_scope.

(** [exa_math.h]: a division by zero is an abort. *)
Definition quotient_ceil64 (a q : Z) : option Z :=
  assert! (negb (u32 q =? 0));
  Some (u64 (a + u32 q - 1) / u32 q).

(** ** Automation *)

Create HintDb exa.

(** Enter the continuation of a call that returned. Rewriting (rather than
    reducing) keeps the terms small. *)
Lemma bind_returned {A B} (a : A) (f : A → option B) : (Some a ≫= f) = f a.
Proof. done. Qed.

Lemma bind_failed {A B} (f : A → option B) : (None ≫= f) = None.
Proof. done. Qed.

Lemma bind_mono {A B} (x : option A) (f g : A → option B) r :
  (∀ a, f a = Some r → g a = Some r) → (x ≫= f) = Some r → (x ≫= g) = Some r.
Proof. destruct x; cbn; auto. Qed.

Ltac returned := rewrite bind_returned; cbv beta.

(** Turn boolean comparisons of the code into propositions. *)
Ltac bool_to_prop :=
  repeat match goal with
  | H : context [ bool_decide _ ] |- _ => progress rewrite ?bool_decide_eq_true, ?bool_decide_eq_false in H
  | H : _ && _ = true |- _ => apply andb_true_iff in H; destruct H
  | H : _ || _ = false |- _ => apply orb_false_iff in H; destruct H
  | H : negb _ = true |- _ => apply negb_true_iff in H
  | H : negb _ = false |- _ => apply negb_false_iff in H
  | H : (_ =? _) = true |- _ => apply Z.eqb_eq in H
  | H : (_ =? _) = false |- _ => apply Z.eqb_neq in H
  | H : (_ <? _) = true |- _ => apply Z.ltb_lt in H
  | H : (_ <? _) = false |- _ => apply Z.ltb_ge in H
  | H : (_ <=? _) = true |- _ => apply Z.leb_le in H
  | H : (_ <=? _) = false |- _ => apply Z.leb_gt in H
  end.

(** Case analysis on the condition of the first [if] of the goal. *)
Ltac case_if :=
  match goal with
  | |- context [ if ?b then _ else _ ] =>
      lazymatch type of b with
      | bool => let E := fresh "Hif" in destruct b eqn:E; bool_to_prop
      end
  end.

(** The same in a hypothesis. *)
Ltac case_if_in H :=
  match type of H with
  | context [ if ?b then _ else _ ] =>
      lazymatch type of b with
      | bool => let E := fresh "Hif" in destruct b eqn:E; bool_to_prop
      end
  end.

(** Remove the wrap-around of a value known to be in range. *)
Lemma u8_id x : fits 8 x → u8 x = x.
Proof. unfold fits, u8. intros. by apply Z.mod_small. Qed.

Lemma u16_id x : fits 16 x → u16 x = x.
Proof. unfold fits, u16. intros. by apply Z.mod_small. Qed.

Lemma u32_id x : fits 32 x → u32 x = x.
Proof. unfold fits, u32. intros. by apply Z.mod_small. Qed.

Lemma u64_id x : fits 64 x → u64 x = x.
Proof. unfold fits, u64. intros. by apply Z.mod_small. Qed.

Lemma u32_fits x : fits 32 (u32 x).
Proof. unfold fits, u32. apply Z.mod_pos_bound. lia. Qed.

Lemma u64_fits x : fits 64 (u64 x).
Proof. unfold fits, u64. apply Z.mod_pos_bound. lia. Qed.

Lemma i32_small x : 0 <= x < 2 ^ 31 → i32 x = x.
Proof.
  intros Hx. unfold i32, u32. rewrite Z.mod_small by lia.
  case_if; lia.
Qed.

#[export] Hint Resolve u32_fits u64_fits : exa.

(** [i32] of a difference of [uint32_t] values closer than [2^31] is the
    signed difference: the comparison functions given to [qsort] rely on it. *)
Lemma i32_sub x y :
  - 2 ^ 31 <= x - y < 2 ^ 31 → i32 (u32 (x - y)) = x - y.
Proof.
  intros H. unfold i32, u32. rewrite Z.mod_mod by lia.
  destruct (Z.leb_spec 0 (x - y)).
  - rewrite Z.mod_small by lia. case_if; lia.
  - rewrite <- (Z.mod_unique (x - y) (2 ^ 32) (-1) (x - y + 2 ^ 32)) by lia.
    case_if; lia.
Qed.

(** ** Sums *)

Definition zsum (l : list Z) : Z := foldr Z.add 0 l.

Lemma zsum_nil : zsum [] = 0.
Proof. done. Qed.

Lemma zsum_cons x l : zsum (x :: l) = x + zsum l.
Proof. done. Qed.

Lemma zsum_app l1 l2 : zsum (l1 ++ l2) = zsum l1 + zsum l2.
Proof. unfold zsum. induction l1; simpl; lia. Qed.

#[global] Instance zsum_proper : Proper (Permutation ==> (=)) zsum.
Proof. unfold zsum. induction 1; simpl; try lia; congruence. Qed.

Lemma zsum_nonneg l : Forall (λ x, 0 <= x) l → 0 <= zsum l.
Proof. unfold zsum. induction 1; simpl; lia. Qed.

Lemma zsum_map_le {A} (f g : A → Z) l :
  Forall (λ x, f x <= g x) l → zsum (map f l) <= zsum (map g l).
Proof. unfold zsum. induction 1; simpl; lia. Qed.

Lemma zsum_map_const {A} (c : Z) (l : list A) :
  zsum (map (λ _, c) l) = c * Z.of_nat (length l).
Proof. unfold zsum. induction l; simpl; lia. Qed.

#[export] Hint Rewrite zsum_nil zsum_cons zsum_app : exa.

(** ** Lists *)

Lemma StronglySorted_filter {A} (R : relation A) (P : A → Prop)
    `{∀ x, Decision (P x)} l :
  StronglySorted R l → StronglySorted R (filter P l).
Proof.
  induction 1 as [|x l Hs IH Hx]; [constructor|].
  destruct (decide (P x)); [rewrite filter_cons_True by done|by rewrite filter_cons_False].
  constructor; [done|]. apply Forall_forall. intros y [_ Hy]%list_elem_of_filter.
  rewrite Forall_forall in Hx. auto.
Qed.

Lemma StronglySorted_seqZ m n : StronglySorted Z.lt (seqZ m n).
Proof.
  destruct (Z.leb_spec n 0); [rewrite seqZ_nil by done; constructor|].
  revert m. pattern n. apply (Z_lt_induction _); [|lia]. clear n H.
  intros n IH m. destruct (Z.eq_dec n 0) as [->|]; [constructor|].
  destruct (Z.leb_spec n 0); [rewrite seqZ_nil by done; constructor|].
  rewrite seqZ_cons by lia. constructor.
  - destruct (Z.eq_dec n 1) as [->|]; [constructor|]. apply IH. lia.
  - apply Forall_forall. intros k. rewrite elem_of_seqZ. lia.
Qed.

(** ** Sorting

    The C library's [qsort] is only specified up to its contract: the result
    is a permutation of the array, sorted when the comparison function is a
    consistent order (a total preorder). Everything that calls [qsort] is
    proved for an arbitrary implementation of that contract. *)
Definition cmp_le {A} (cmp : A → A → Z) : relation A := λ x y, cmp x y <= 0.

Class Qsort := {
  qsort : ∀ {A : Type}, (A → A → Z) → list A → list A;
  qsort_perm : ∀ {A} (cmp : A → A → Z) (l : list A),
    qsort cmp l ≡ₚ l;
  qsort_sorted : ∀ {A} (cmp : A → A → Z) (l : list A),
    (∀ x y, x ∈ l → y ∈ l → cmp_le cmp x y ∨ cmp_le cmp y x) →
    (∀ x y z, x ∈ l → y ∈ l → z ∈ l →
       cmp_le cmp x y → cmp_le cmp y z → cmp_le cmp x z) →
    StronglySorted (cmp_le cmp) (qsort cmp l)
}.

(** Insertion sort implements the contract; the witnesses run with it. *)
Section isort.
Context {A : Type} (cmp : A → A → Z).

Fixpoint insert_sorted (x : A) (l : list A) : list A :=
  match l with
  | [] => [x]
  | y :: l' => if cmp x y <=? 0 then x :: y :: l' else y :: insert_sorted x l'
  end.

Definition isort (l : list A) : list A := foldr insert_sorted [] l.

Lemma insert_sorted_perm x l : insert_sorted x l ≡ₚ x :: l.
Proof.
  induction l as [|y l IH]; simpl; [done|].
  case_if; [done|]. rewrite IH. constructor.
Qed.

Lemma isort_perm l : isort l ≡ₚ l.
Proof.
  induction l as [|x l IH]; simpl; [done|].
  by rewrite insert_sorted_perm, IH.
Qed.

Lemma insert_sorted_sorted x l :
  (∀ y z, y ∈ x :: l → z ∈ x :: l → cmp_le cmp y z ∨ cmp_le cmp z y) →
  (∀ y z t, y ∈ x :: l → z ∈ x :: l → t ∈ x :: l →
     cmp_le cmp y z → cmp_le cmp z t → cmp_le cmp y t) →
  StronglySorted (cmp_le cmp) l → StronglySorted (cmp_le cmp) (insert_sorted x l).
Proof.
  induction l as [|y l IH]; intros Htot Htr Hs; simpl.
  { by repeat constructor. }
  inversion Hs as [|? ? Hsl Hyl]; subst.
  assert (Hxy : cmp_le cmp x y ∨ cmp_le cmp y x) by (apply Htot; set_solver).
  case_if.
  - constructor; [done|]. constructor; [done|].
    rewrite Forall_forall in Hyl |- *. intros z Hz.
    apply (Htr x y z); [set_solver..| |by apply Hyl]. unfold cmp_le. lia.
  - constructor.
    + apply IH; [| |done]; intros; [apply Htot|eapply Htr]; set_solver.
    + rewrite insert_sorted_perm. constructor; [|done].
      unfold cmp_le in *. destruct Hxy; [lia|done].
Qed.

Lemma isort_sorted l :
  (∀ x y, x ∈ l → y ∈ l → cmp_le cmp x y ∨ cmp_le cmp y x) →
  (∀ x y z, x ∈ l → y ∈ l → z ∈ l →
     cmp_le cmp x y → cmp_le cmp y z → cmp_le cmp x z) →
  StronglySorted (cmp_le cmp) (isort l).
Proof.
  induction l as [|x l IH]; intros Htot Htr; simpl; [constructor|].
  apply insert_sorted_sorted.
  - intros y z. rewrite isort_perm. apply Htot.
  - intros y z t. rewrite !isort_perm. apply Htr.
  - apply IH; intros; [apply Htot|eapply Htr]; set_solver.
Qed.
End isort.

Definition isort_qsort : Qsort :=
  {| qsort := @isort; qsort_perm := @isort_perm; qsort_sorted := @isort_sorted |}.
