(* ===== verification/Nodeset.v ===== *)
(** * Node sets

    Model of [common/lib/exa_nodeset.c] and [common/include/exa_nodeset.h]:
    sets of node identifiers as a two-cell bit field of [uint64_t].

    - the data ([exa_nodeset_t]) and one definition per function of the file;
    - [nodes_of], the abstract finite set a bit field stands for, and one
      refinement lemma per operation;
    - the iteration macro [exa_nodeset_foreach] and the iterator;
    - the hexadecimal representation and its round trip. *)

From S2P Require Import Prelude.
From stdpp Require Import options.

(** ** Constants of [exa_constants.h] and [exa_nodeset.h] *)

Definition EXA_MAX_NODES_NUMBER : Z := 128.
Definition EXA_NODESET_BITS_PER_CELL : Z := 64.
Definition EXA_NODESET_NB_CELLS : Z :=
  (EXA_MAX_NODES_NUMBER - 1) / EXA_NODESET_BITS_PER_CELL + 1.
Definition EXA_NODEID_LOCALHOST : Z := EXA_MAX_NODES_NUMBER + 1.
Definition EXA_NODEID_NONE : Z := EXA_MAX_NODES_NUMBER + 5.

(** [exa_nodeid_t] is an [unsigned int]; the validity macro compares its
    signed value. *)
Definition EXA_NODEID_VALID (id : Z) : bool :=
  (0 <=? i32 id) && (i32 id <? EXA_MAX_NODES_NUMBER).

(** ** Data *)

Record exa_nodeset_t := mk_nodeset { cells : list Z }.

Definition EXA_NODESET_EMPTY : exa_nodeset_t := mk_nodeset [0; 0].
Definition EXA_NODESET_FULL : exa_nodeset_t :=
  mk_nodeset [u64 (Z.lnot 0); u64 (Z.lnot 0)].

(** Array accesses [set->cells[i]]. *)
Definition get_cell (set : exa_nodeset_t) (i : Z) : Z := cells set !!! Z.to_nat i.
Definition set_cell (set : exa_nodeset_t) (i v : Z) : exa_nodeset_t :=
  mk_nodeset (<[Z.to_nat i := v]> (cells set)).

(** Cell and bit of a node. *)
Definition cell_of (node : Z) : Z := node / EXA_NODESET_BITS_PER_CELL.
Definition bit_of (node : Z) : Z := u64 (Z.shiftl 1 (node mod EXA_NODESET_BITS_PER_CELL)).

(** [for (i = 0; i < EXA_NODESET_NB_CELLS; i++)] *)
Definition cell_indices : list Z := seqZ 0 EXA_NODESET_NB_CELLS.

(** ** Operations *)

Definition exa_nodeset_reset (_ : exa_nodeset_t) : exa_nodeset_t := EXA_NODESET_EMPTY.

Definition exa_nodeset_copy (from : exa_nodeset_t) : exa_nodeset_t := from.

Definition exa_nodeset_is_empty (set : exa_nodeset_t) : bool :=
  forallb (λ i, get_cell set i =? 0) cell_indices.

Definition exa_nodeset_add (set : exa_nodeset_t) (node : Z) : option exa_nodeset_t :=
  assert! (EXA_NODEID_VALID node);
  Some (set_cell set (cell_of node) (Z.lor (get_cell set (cell_of node)) (bit_of node))).

Definition exa_nodeset_del (set : exa_nodeset_t) (node : Z) : option exa_nodeset_t :=
  assert! (EXA_NODEID_VALID node);
  Some (set_cell set (cell_of node)
          (Z.land (get_cell set (cell_of node)) (u64 (Z.lnot (bit_of node))))).

Definition exa_nodeset_contains (set : exa_nodeset_t) (node : Z) : option bool :=
  if (node =? EXA_NODEID_NONE) || (node =? EXA_NODEID_LOCALHOST) then Some false
  else
    assert! (EXA_NODEID_VALID node);
    Some (negb (Z.land (get_cell set (cell_of node)) (bit_of node) =? 0)).

Definition exa_nodeset_equals (set1 set2 : exa_nodeset_t) : bool :=
  forallb (λ i, get_cell set1 i =? get_cell set2 i) cell_indices.

Definition exa_nodeset_sum (to from : exa_nodeset_t) : exa_nodeset_t :=
  foldl (λ s i, set_cell s i (Z.lor (get_cell s i) (get_cell from i))) to cell_indices.

Definition exa_nodeset_substract (to from : exa_nodeset_t) : exa_nodeset_t :=
  foldl (λ s i, set_cell s i (Z.land (get_cell s i) (u64 (Z.lnot (get_cell from i)))))
    to cell_indices.

Definition exa_nodeset_intersect (to from : exa_nodeset_t) : exa_nodeset_t :=
  foldl (λ s i, set_cell s i (Z.land (get_cell s i) (get_cell from i))) to cell_indices.

Definition exa_nodeset_included (a b : exa_nodeset_t) : bool :=
  let set := exa_nodeset_copy a in
  let set := exa_nodeset_intersect set b in
  exa_nodeset_equals set a.

Definition exa_nodeset_disjoint (a b : exa_nodeset_t) : bool :=
  let set := exa_nodeset_copy a in
  let set := exa_nodeset_intersect set b in
  exa_nodeset_is_empty set.

(** [for (node = 0; node < EXA_MAX_NODES_NUMBER; node++)] *)
Definition all_nodes : list Z := seqZ 0 EXA_MAX_NODES_NUMBER.

Fixpoint count_loop (set : exa_nodeset_t) (nodes : list Z) (count : Z) : option Z :=
  match nodes with
  | [] => Some count
  | node :: nodes' =>
      b ← exa_nodeset_contains set node;
      count_loop set nodes' (if b : bool then count + 1 else count)
  end.

Definition exa_nodeset_count (set : exa_nodeset_t) : option Z :=
  count_loop set all_nodes 0.

(** [while (node < EXA_MAX_NODES_NUMBER && !contains (set, node)) node++];
    [fuel] bounds the number of iterations, at most [EXA_MAX_NODES_NUMBER]. *)
Fixpoint first_at_loop (fuel : nat) (set : exa_nodeset_t) (node : Z) : option Z :=
  match fuel with
  | O => Some node
  | S fuel' =>
      if node <? EXA_MAX_NODES_NUMBER then
        b ← exa_nodeset_contains set node;
        if b : bool then Some node else first_at_loop fuel' set (node + 1)
      else Some node
  end.

Definition exa_nodeset_first_at (set : exa_nodeset_t) (node : Z) : option Z :=
  assert! (EXA_NODEID_VALID node);
  first_at_loop (Z.to_nat EXA_MAX_NODES_NUMBER) set node.

Definition exa_nodeset_first (set : exa_nodeset_t) : option Z :=
  exa_nodeset_first_at set 0.

Definition exa_nodeset_iter_init (set : exa_nodeset_t) : exa_nodeset_t :=
  exa_nodeset_copy set.

(** The iterator: [None] of the inner option is the C result [false], which
    leaves the iterator unchanged. *)
Definition exa_nodeset_iter (iter : exa_nodeset_t) : option (option (Z * exa_nodeset_t)) :=
  node ← exa_nodeset_first_at iter 0;
  if EXA_MAX_NODES_NUMBER <=? node then Some None
  else iter' ← exa_nodeset_del iter node; Some (Some (node, iter')).

(** [while (exa_nodeset_iter (&iter, &node_id)) max_node_id = node_id]; the
    iterator loses a node at each turn. *)
Fixpoint num_bits_loop (fuel : nat) (iter : exa_nodeset_t) (max_node_id : Z) : option Z :=
  match fuel with
  | O => None
  | S fuel' =>
      r ← exa_nodeset_iter iter;
      match r with
      | None => Some max_node_id
      | Some (node_id, iter') => num_bits_loop fuel' iter' node_id
      end
  end.

Definition exa_nodeset_num_bits (set : exa_nodeset_t) : option Z :=
  max_node_id ← num_bits_loop (S (Z.to_nat EXA_MAX_NODES_NUMBER)) (exa_nodeset_iter_init set) 0;
  Some (max_node_id + 1).

(** The nodes visited by [exa_nodeset_foreach (set, node) body], in order. *)
Fixpoint foreach_loop (fuel : nat) (set : exa_nodeset_t) (node : Z) : option (list Z) :=
  match fuel with
  | O => Some []
  | S fuel' =>
      if node <? EXA_MAX_NODES_NUMBER then
        next ← (if node + 1 <? EXA_MAX_NODES_NUMBER
                then exa_nodeset_first_at set (node + 1) else Some (node + 1));
        rest ← foreach_loop fuel' set next;
        Some (node :: rest)
      else Some []
  end.

Definition exa_nodeset_foreach (set : exa_nodeset_t) : option (list Z) :=
  node ← exa_nodeset_first_at set 0;
  foreach_loop (Z.to_nat EXA_MAX_NODES_NUMBER) set node.

(** [exa_nodeset_single]: a set with one node, or none for localhost. *)
Definition exa_nodeset_single (set : exa_nodeset_t) (node : Z) : option exa_nodeset_t :=
  let set := exa_nodeset_reset set in
  if negb (node =? EXA_NODEID_LOCALHOST) then exa_nodeset_add set node else Some set.

(** ** Text representations

    A C string is the list of its characters, without the final ['\0']. *)

Definition EXA_NODESET_HEX_SIZE : Z := EXA_NODESET_NB_CELLS * 16.

Definition hex_chars : list ascii := String.list_ascii_of_string "0123456789abcdef"%string.

Definition hexchar (d : Z) : ascii := default "0"%char (hex_chars !! Z.to_nat d).

(** Value of a hexadecimal digit, when [c] is one of [hex_chars]. *)
Definition hexval (c : ascii) : option Z :=
  p ← list_find (λ c', c' = c) hex_chars; Some (Z.of_nat p.1).

(** [sprintf (hex, "%016" PRIx64, v)] *)
Fixpoint hex_digits (k : nat) (v : Z) : list ascii :=
  match k with
  | O => []
  | S k' => hex_digits k' (v / 16) ++ [hexchar (v mod 16)]
  end.

(** [sscanf (hex, "%016" PRIx64, &v)] on a string of hexadecimal digits: at
    most 16 of them are read. *)
Definition scan_hex (s : list ascii) : option Z :=
  foldl (λ acc c, v ← acc; d ← hexval c; Some (u64 (v * 16 + d))) (Some 0) (take 16 s).

Definition exa_nodeset_to_hex (set : exa_nodeset_t) : list ascii :=
  foldl (λ hex i, hex ++ hex_digits 16 (get_cell set i)) [] (reverse cell_indices).

(** [strspn (hex, "0123456789abcdef")] *)
Fixpoint strspn_hex (s : list ascii) : Z :=
  match s with
  | c :: s' => if bool_decide (c ∈ hex_chars) then 1 + strspn_hex s' else 0
  | [] => 0
  end.

Fixpoint from_hex_loop (indices : list Z) (set : exa_nodeset_t) (hex : list ascii)
    : result exa_nodeset_t :=
  match indices with
  | [] => Ok set
  | i :: indices' =>
      match scan_hex hex with
      | None => Err EXA_ERR_INVALID_VALUE
      | Some v => from_hex_loop indices' (set_cell set i v)
                    (drop (Z.to_nat (EXA_NODESET_BITS_PER_CELL / 4)) hex)
      end
  end.

Definition exa_nodeset_from_hex (set : exa_nodeset_t) (hex : list ascii)
    : result exa_nodeset_t :=
  if negb (Z.of_nat (length hex) =? EXA_NODESET_HEX_SIZE) then Err EXA_ERR_INVALID_VALUE
  else if negb (strspn_hex hex =? EXA_NODESET_HEX_SIZE) then Err EXA_ERR_INVALID_VALUE
  else from_hex_loop (reverse cell_indices) set hex.

(** [exa_nodeset_to_bin]: the significant bits, the highest first. *)
Fixpoint to_bin_loop (fuel : nat) (set : exa_nodeset_t) (node_id : Z) : option (list ascii) :=
  match fuel with
  | O => None
  | S fuel' =>
      b ← exa_nodeset_contains set node_id;
      let c : ascii := if b : bool then "1"%char else "0"%char in
      if node_id =? 0 then Some [c]
      else rest ← to_bin_loop fuel' set (node_id - 1); Some (c :: rest)
  end.

Definition exa_nodeset_to_bin (set : exa_nodeset_t) : option (list ascii) :=
  n ← exa_nodeset_num_bits set;
  if 0 <? n then to_bin_loop (Z.to_nat n) set (n - 1) else Some [].

(** ** The abstract set of a bit field *)

Definition nodeset_wf (s : exa_nodeset_t) : Prop :=
  length (cells s) = 2%nat ∧ Forall (fits 64) (cells s).

Definition valid_node (n : Z) : Prop := 0 <= n < EXA_MAX_NODES_NUMBER.

Definition mem (s : exa_nodeset_t) (n : Z) : bool :=
  Z.testbit (get_cell s (cell_of n)) (n mod EXA_NODESET_BITS_PER_CELL).

Definition nodes_of (s : exa_nodeset_t) : gset Z :=
  list_to_set (filter (λ n, mem s n = true) all_nodes).

Lemma elem_of_all_nodes n : n ∈ all_nodes ↔ valid_node n.
Proof. unfold all_nodes, valid_node. rewrite elem_of_seqZ. lia. Qed.

Lemma elem_of_nodes s n : n ∈ nodes_of s ↔ valid_node n ∧ mem s n = true.
Proof.
  unfold nodes_of. rewrite elem_of_list_to_set, list_elem_of_filter, elem_of_all_nodes.
  tauto.
Qed.

Lemma nodes_valid s n : n ∈ nodes_of s → valid_node n.
Proof. rewrite elem_of_nodes. tauto. Qed.

Lemma valid_nodeid n : valid_node n → EXA_NODEID_VALID n = true.
Proof.
  unfold valid_node, EXA_NODEID_VALID, EXA_MAX_NODES_NUMBER. intros.
  rewrite i32_small by lia. lia.
Qed.

Lemma nodeid_valid_inv n : fits 32 n → EXA_NODEID_VALID n = true → valid_node n.
Proof.
  unfold fits, valid_node, EXA_NODEID_VALID, EXA_MAX_NODES_NUMBER, i32. intros Hf.
  rewrite u32_id by done. case_if; lia.
Qed.

(** A well-formed bit field has exactly two cells. *)
Lemma nodeset_wf_inv s :
  nodeset_wf s → ∃ c0 c1, s = mk_nodeset [c0; c1] ∧ fits 64 c0 ∧ fits 64 c1.
Proof.
  destruct s as [l]. intros [Hl Hf]. simpl in *.
  destruct l as [|c0 [|c1 [|]]]; simplify_eq/=.
  inversion Hf as [|? ? ? Hf']; inversion Hf'; subst. eauto.
Qed.

Lemma nodeset_wf_intro c0 c1 : fits 64 c0 → fits 64 c1 → nodeset_wf (mk_nodeset [c0; c1]).
Proof. split; [done|]. simpl. by rewrite Forall_cons, Forall_singleton. Qed.

Lemma cell_of_range n : valid_node n → cell_of n = 0 ∨ cell_of n = 1.
Proof.
  unfold valid_node, cell_of, EXA_MAX_NODES_NUMBER, EXA_NODESET_BITS_PER_CELL. intros.
  assert (0 <= n / 64 < 2) by (split; [apply Z.div_pos|apply Z.div_lt_upper_bound]; lia).
  lia.
Qed.

(** *** Bits of one cell *)

Lemma fits64_lor a b : fits 64 a → fits 64 b → fits 64 (Z.lor a b).
Proof.
  unfold fits. intros [Ha1 Ha2] [Hb1 Hb2].
  assert (0 <= Z.lor a b) by (apply Z.lor_nonneg; lia).
  split; [done|]. destruct (Z.eq_dec (Z.lor a b) 0) as [->|]; [lia|].
  apply Z.log2_lt_pow2; [lia|]. rewrite Z.log2_lor by lia.
  apply Z.max_lub_lt; (destruct (Z.eq_dec a 0), (Z.eq_dec b 0); subst; simpl; try lia;
    apply Z.log2_lt_pow2; lia).
Qed.

Lemma fits64_land_l a b : fits 64 a → fits 64 (Z.land a b).
Proof.
  unfold fits. intros [Ha1 Ha2]. split; [apply Z.land_nonneg; lia|].
  rewrite <- (Z.mod_small a (2 ^ 64)) by lia.
  rewrite <- Z.land_ones by lia.
  rewrite <- Z.land_assoc, (Z.land_comm _ b), Z.land_assoc, Z.land_ones by lia.
  apply Z.mod_pos_bound. lia.
Qed.

Lemma u64_testbit x i : 0 <= i < 64 → Z.testbit (u64 x) i = Z.testbit x i.
Proof. intros. unfold u64. apply Z.mod_pow2_bits_low. lia. Qed.

Lemma bit_testbit n i :
  0 <= i < 64 → Z.testbit (bit_of n) i = (i =? n mod EXA_NODESET_BITS_PER_CELL).
Proof.
  intros Hi. unfold bit_of, EXA_NODESET_BITS_PER_CELL. rewrite u64_testbit by done.
  assert (0 <= n mod 64 < 64) by (apply Z.mod_pos_bound; lia).
  rewrite Z.shiftl_spec by lia.
  destruct (Z.eqb_spec i (n mod 64)) as [->|].
  - by rewrite Z.sub_diag.
  - destruct (Z.leb_spec (n mod 64) i).
    + apply (Z.bits_above_log2 1); simpl; lia.
    + apply Z.testbit_neg_r. lia.
Qed.

Lemma fits64_bit n : fits 64 (bit_of n).
Proof. apply u64_fits. Qed.

Lemma land_bit_nonzero c n :
  negb (Z.land c (bit_of n) =? 0) = Z.testbit c (n mod EXA_NODESET_BITS_PER_CELL).
Proof.
  pose proof (Z.mod_pos_bound n 64 ltac:(lia)) as Hm.
  destruct (Z.eqb_spec (Z.land c (bit_of n)) 0) as [E|E]; simpl.
  - assert (Hb := f_equal (λ x, Z.testbit x (n mod 64)) E). simpl in Hb.
    rewrite Z.land_spec, bit_testbit, Z.bits_0, Z.eqb_refl, andb_true_r in Hb by done.
    by rewrite <- Hb.
  - destruct (Z.testbit c (n mod EXA_NODESET_BITS_PER_CELL)) eqn:Ht; [done|].
    exfalso. apply E. apply Z.bits_inj_0. intros i.
    rewrite Z.land_spec. destruct (Z.leb_spec 0 i); [|by rewrite Z.testbit_neg_r by lia].
    destruct (Z.leb_spec 64 i).
    + pose proof (fits64_bit n) as [? ?].
      rewrite andb_comm. destruct (Z.eq_dec (bit_of n) 0) as [->|]; [by rewrite Z.bits_0|].
      rewrite (Z.bits_above_log2 (bit_of n)); [done|lia|].
      assert (Z.log2 (bit_of n) < 64) by (apply Z.log2_lt_pow2; lia). lia.
    + rewrite bit_testbit by lia.
      destruct (Z.eqb_spec i (n mod EXA_NODESET_BITS_PER_CELL)) as [->|]; [by rewrite Ht|].
      by rewrite andb_false_r.
Qed.

(** *** Refinement: one lemma per operation *)

Lemma get_cell_set s i j v :
  nodeset_wf s → (i = 0 ∨ i = 1) → (j = 0 ∨ j = 1) →
  get_cell (set_cell s i v) j = if j =? i then v else get_cell s j.
Proof.
  intros (c0 & c1 & -> & _)%nodeset_wf_inv [->| ->] [->| ->]; done.
Qed.

Lemma set_cell_wf s i v :
  nodeset_wf s → (i = 0 ∨ i = 1) → fits 64 v → nodeset_wf (set_cell s i v).
Proof.
  intros (c0 & c1 & -> & ? & ?)%nodeset_wf_inv [->| ->] ?; by apply nodeset_wf_intro.
Qed.

Lemma get_cell_fits s i : nodeset_wf s → (i = 0 ∨ i = 1) → fits 64 (get_cell s i).
Proof. intros (c0 & c1 & -> & ? & ?)%nodeset_wf_inv [->| ->]; done. Qed.

Lemma node_eq_split n m :
  valid_node n → valid_node m →
  (m =? n) = (cell_of m =? cell_of n)
             && (m mod EXA_NODESET_BITS_PER_CELL =? n mod EXA_NODESET_BITS_PER_CELL).
Proof.
  unfold valid_node, cell_of, EXA_NODESET_BITS_PER_CELL. intros.
  pose proof (Z.div_mod m 64 ltac:(lia)). pose proof (Z.div_mod n 64 ltac:(lia)).
  destruct (Z.eqb_spec m n), (Z.eqb_spec (m / 64) (n / 64)),
    (Z.eqb_spec (m mod 64) (n mod 64)); simpl; subst; done || lia.
Qed.

Lemma bit_index_range n : 0 <= n mod EXA_NODESET_BITS_PER_CELL < 64.
Proof. apply Z.mod_pos_bound. unfold EXA_NODESET_BITS_PER_CELL. lia. Qed.

#[export] Hint Resolve cell_of_range bit_index_range get_cell_fits fits64_lor
  fits64_land_l fits64_bit nodes_valid : exa.

Lemma contains_mem s n :
  valid_node n → exa_nodeset_contains s n = Some (mem s n).
Proof.
  intros Hn. unfold exa_nodeset_contains.
  replace (_ || _) with false; cycle 1.
  { unfold valid_node, EXA_NODEID_NONE, EXA_NODEID_LOCALHOST in *. lia. }
  rewrite valid_nodeid by done. simpl. by rewrite land_bit_nonzero.
Qed.

Lemma contains_spec s n :
  valid_node n → exa_nodeset_contains s n = Some (bool_decide (n ∈ nodes_of s)).
Proof.
  intros Hn. rewrite contains_mem by done. f_equal.
  destruct (mem s n) eqn:E; symmetry; [apply bool_decide_eq_true|apply bool_decide_eq_false];
    rewrite elem_of_nodes; [done|]. rewrite E. by intros [_ ?].
Qed.

Lemma add_spec s n :
  nodeset_wf s → valid_node n →
  ∃ s', exa_nodeset_add s n = Some s' ∧ nodeset_wf s' ∧ nodes_of s' = {[n]} ∪ nodes_of s.
Proof.
  intros Hs Hn. unfold exa_nodeset_add. rewrite valid_nodeid by done. simpl.
  eexists. split; [done|]. split; [apply set_cell_wf; eauto with exa|].
  apply set_eq. intros m.
  rewrite elem_of_union, elem_of_singleton, !elem_of_nodes. unfold mem.
  destruct (decide (valid_node m)) as [Hm|Hm]; [|naive_solver].
  rewrite get_cell_set by eauto with exa.
  pose proof (node_eq_split n m Hn Hm) as E.
  destruct (Z.eqb_spec (cell_of m) (cell_of n)) as [Ec|Ec]; simpl in E.
  - rewrite Z.lor_spec, bit_testbit, <- E, Ec by eauto with exa.
    rewrite orb_true_iff, Z.eqb_eq. naive_solver.
  - apply Z.eqb_neq in E. naive_solver.
Qed.

Lemma del_spec s n :
  nodeset_wf s → valid_node n →
  ∃ s', exa_nodeset_del s n = Some s' ∧ nodeset_wf s' ∧ nodes_of s' = nodes_of s ∖ {[n]}.
Proof.
  intros Hs Hn. unfold exa_nodeset_del. rewrite valid_nodeid by done. simpl.
  eexists. split; [done|]. split; [apply set_cell_wf; eauto with exa|].
  apply set_eq. intros m.
  rewrite elem_of_difference, elem_of_singleton, !elem_of_nodes. unfold mem.
  destruct (decide (valid_node m)) as [Hm|Hm]; [|naive_solver].
  rewrite get_cell_set by eauto with exa.
  pose proof (node_eq_split n m Hn Hm) as E.
  destruct (Z.eqb_spec (cell_of m) (cell_of n)) as [Ec|Ec]; simpl in E.
  - rewrite Z.land_spec, u64_testbit, Z.lnot_spec, bit_testbit, <- E, Ec
      by (pose proof (bit_index_range m); lia).
    rewrite andb_true_iff, negb_true_iff, Z.eqb_neq. naive_solver.
  - apply Z.eqb_neq in E. naive_solver.
Qed.

Lemma get_cell_0 x y : get_cell (mk_nodeset [x; y]) 0 = x.
Proof. reflexivity. Qed.

Lemma get_cell_1 x y : get_cell (mk_nodeset [x; y]) 1 = y.
Proof. reflexivity. Qed.

#[export] Hint Rewrite get_cell_0 get_cell_1 : exa.

(** A cell-wise operation, bit by bit. *)
Lemma mem_cellwise (f : Z → Z → Z) (g : bool → bool → bool) a0 a1 b0 b1 n :
  (∀ x y i, 0 <= i < 64 → Z.testbit (f x y) i = g (Z.testbit x i) (Z.testbit y i)) →
  valid_node n →
  mem (mk_nodeset [f a0 b0; f a1 b1]) n =
  g (mem (mk_nodeset [a0; a1]) n) (mem (mk_nodeset [b0; b1]) n).
Proof.
  intros Hf Hn. unfold mem.
  destruct (cell_of_range n Hn) as [->| ->]; autorewrite with exa; rewrite Hf; eauto with exa.
Qed.

Lemma sum_spec to from :
  nodeset_wf to → nodeset_wf from →
  nodeset_wf (exa_nodeset_sum to from) ∧
  nodes_of (exa_nodeset_sum to from) = nodes_of to ∪ nodes_of from.
Proof.
  intros (a0 & a1 & -> & ? & ?)%nodeset_wf_inv (b0 & b1 & -> & ? & ?)%nodeset_wf_inv.
  change (exa_nodeset_sum _ _) with (mk_nodeset [Z.lor a0 b0; Z.lor a1 b1]).
  split; [apply nodeset_wf_intro; auto with exa|]. apply set_eq. intros n.
  rewrite elem_of_union, !elem_of_nodes.
  destruct (decide (valid_node n)); [|naive_solver].
  rewrite (mem_cellwise Z.lor orb) by (done || intros; by rewrite Z.lor_spec).
  rewrite orb_true_iff. naive_solver.
Qed.

Lemma substract_spec to from :
  nodeset_wf to → nodeset_wf from →
  nodeset_wf (exa_nodeset_substract to from) ∧
  nodes_of (exa_nodeset_substract to from) = nodes_of to ∖ nodes_of from.
Proof.
  intros (a0 & a1 & -> & ? & ?)%nodeset_wf_inv (b0 & b1 & -> & ? & ?)%nodeset_wf_inv.
  set (f := λ x y, Z.land x (u64 (Z.lnot y))).
  change (exa_nodeset_substract _ _) with (mk_nodeset [f a0 b0; f a1 b1]).
  split; [apply nodeset_wf_intro; unfold f; auto with exa|]. apply set_eq. intros n.
  rewrite elem_of_difference, !elem_of_nodes.
  destruct (decide (valid_node n)); [|naive_solver].
  rewrite (mem_cellwise f (λ x y, x && negb y)); [|intros x y i Hi|done].
  - rewrite andb_true_iff, negb_true_iff, <- not_true_iff_false. naive_solver.
  - unfold f. by rewrite Z.land_spec, u64_testbit, Z.lnot_spec by lia.
Qed.

Lemma intersect_spec to from :
  nodeset_wf to → nodeset_wf from →
  nodeset_wf (exa_nodeset_intersect to from) ∧
  nodes_of (exa_nodeset_intersect to from) = nodes_of to ∩ nodes_of from.
Proof.
  intros (a0 & a1 & -> & ? & ?)%nodeset_wf_inv (b0 & b1 & -> & ? & ?)%nodeset_wf_inv.
  change (exa_nodeset_intersect _ _) with (mk_nodeset [Z.land a0 b0; Z.land a1 b1]).
  split; [apply nodeset_wf_intro; auto with exa|]. apply set_eq. intros n.
  rewrite elem_of_intersection, !elem_of_nodes.
  destruct (decide (valid_node n)); [|naive_solver].
  rewrite (mem_cellwise Z.land andb) by (done || intros; by rewrite Z.land_spec).
  rewrite andb_true_iff. naive_solver.
Qed.

Lemma empty_wf : nodeset_wf EXA_NODESET_EMPTY.
Proof. by apply nodeset_wf_intro. Qed.

Lemma nodes_of_empty : nodes_of EXA_NODESET_EMPTY = ∅.
Proof. reflexivity. Qed.

Lemma fits64_bits_eq a b :
  fits 64 a → fits 64 b →
  (∀ i, 0 <= i < 64 → Z.testbit a i = Z.testbit b i) → a = b.
Proof.
  unfold fits. intros Ha Hb H.
  rewrite <- (Z.mod_small a (2 ^ 64)), <- (Z.mod_small b (2 ^ 64)) by done.
  apply Z.bits_inj'. intros i Hi.
  destruct (Z.ltb_spec i 64).
  - rewrite !Z.mod_pow2_bits_low by lia. apply H. lia.
  - by rewrite !Z.mod_pow2_bits_high by lia.
Qed.

(** The representation is canonical: bit fields with the same nodes are equal. *)
Lemma nodes_of_inj s1 s2 :
  nodeset_wf s1 → nodeset_wf s2 → nodes_of s1 = nodes_of s2 → s1 = s2.
Proof.
  intros (a0 & a1 & -> & ? & ?)%nodeset_wf_inv (b0 & b1 & -> & ? & ?)%nodeset_wf_inv E.
  assert (Hm : ∀ n, valid_node n → mem (mk_nodeset [a0; a1]) n = mem (mk_nodeset [b0; b1]) n).
  { intros n Hn. apply eq_true_iff_eq.
    assert (n ∈ nodes_of (mk_nodeset [a0; a1]) ↔ n ∈ nodes_of (mk_nodeset [b0; b1])) as Hn'
      by (by rewrite E).
    rewrite !elem_of_nodes in Hn'. tauto. }
  unfold mem, valid_node, EXA_MAX_NODES_NUMBER, cell_of, EXA_NODESET_BITS_PER_CELL in Hm.
  f_equal. f_equal; [|f_equal].
  - apply fits64_bits_eq; [done..|]. intros i Hi. specialize (Hm i).
    rewrite Z.div_small, Z.mod_small in Hm by lia. apply Hm. lia.
  - apply fits64_bits_eq; [done..|]. intros i Hi. specialize (Hm (i + 1 * 64)).
    rewrite Z.div_add, Z.mod_add, Z.div_small, Z.mod_small in Hm by lia. apply Hm. lia.
Qed.

Lemma equals_eq s1 s2 :
  nodeset_wf s1 → nodeset_wf s2 → exa_nodeset_equals s1 s2 = true ↔ s1 = s2.
Proof.
  intros (a0 & a1 & -> & _)%nodeset_wf_inv (b0 & b1 & -> & _)%nodeset_wf_inv.
  change (exa_nodeset_equals _ _) with ((a0 =? b0) && ((a1 =? b1) && true)).
  rewrite !andb_true_iff, !Z.eqb_eq. naive_solver.
Qed.

Lemma equals_spec s1 s2 :
  nodeset_wf s1 → nodeset_wf s2 →
  exa_nodeset_equals s1 s2 = bool_decide (nodes_of s1 = nodes_of s2).
Proof.
  intros H1 H2. apply eq_true_iff_eq. rewrite equals_eq, bool_decide_eq_true by done.
  split; [by intros ->|]. by apply nodes_of_inj.
Qed.

Lemma is_empty_spec s :
  nodeset_wf s → exa_nodeset_is_empty s = bool_decide (nodes_of s = ∅).
Proof.
  intros Hs. rewrite <- nodes_of_empty, <- equals_spec by auto using empty_wf.
  apply nodeset_wf_inv in Hs as (a0 & a1 & -> & _). reflexivity.
Qed.

Lemma included_spec a b :
  nodeset_wf a → nodeset_wf b →
  exa_nodeset_included a b = bool_decide (nodes_of a ⊆ nodes_of b).
Proof.
  intros Ha Hb. destruct (intersect_spec a b) as [Hw Hi]; [done..|].
  unfold exa_nodeset_included, exa_nodeset_copy.
  rewrite equals_spec, Hi by done. apply bool_decide_ext. set_solver.
Qed.

Lemma disjoint_spec a b :
  nodeset_wf a → nodeset_wf b →
  exa_nodeset_disjoint a b = bool_decide (nodes_of a ## nodes_of b).
Proof.
  intros Ha Hb. destruct (intersect_spec a b) as [Hw Hi]; [done..|].
  unfold exa_nodeset_disjoint, exa_nodeset_copy.
  rewrite is_empty_spec, Hi by done. apply bool_decide_ext. set_solver.
Qed.

(** *** Enumeration, counting and the iterators *)

(** The nodes of a set in increasing order. *)
Definition nodes_list (s : exa_nodeset_t) : list Z :=
  filter (λ n, mem s n = true) all_nodes.

Lemma elem_of_nodes_list s n : n ∈ nodes_list s ↔ n ∈ nodes_of s.
Proof. unfold nodes_list, nodes_of. by rewrite elem_of_list_to_set. Qed.

Lemma NoDup_nodes_list s : NoDup (nodes_list s).
Proof. apply NoDup_filter, NoDup_seqZ. Qed.

Lemma length_nodes_list s : length (nodes_list s) = size (nodes_of s).
Proof. unfold nodes_of. rewrite size_list_to_set; [done|]. apply NoDup_nodes_list. Qed.

Lemma count_loop_spec s nodes c :
  Forall valid_node nodes →
  count_loop s nodes c =
  Some (c + Z.of_nat (length (filter (λ n, mem s n = true) nodes))).
Proof.
  intros Hn. revert c. induction Hn as [|n nodes Hn _ IH]; intros c; simpl.
  { f_equal. lia. }
  rewrite contains_mem by done. simpl. rewrite IH, filter_cons. f_equal.
  destruct (mem s n); simpl; lia.
Qed.

Lemma count_spec s : exa_nodeset_count s = Some (Z.of_nat (size (nodes_of s))).
Proof.
  unfold exa_nodeset_count. rewrite count_loop_spec.
  - by rewrite <- length_nodes_list.
  - apply Forall_forall. intros n. by rewrite elem_of_all_nodes.
Qed.

Lemma first_at_loop_spec fuel s n :
  0 <= n <= EXA_MAX_NODES_NUMBER → EXA_MAX_NODES_NUMBER - n <= Z.of_nat fuel →
  ∃ m, first_at_loop fuel s n = Some m ∧ n <= m <= EXA_MAX_NODES_NUMBER ∧
    (∀ k, n <= k < m → mem s k = false) ∧ (m < EXA_MAX_NODES_NUMBER → mem s m = true).
Proof.
  revert n. induction fuel as [|fuel IH]; intros n Hn Hf; simpl.
  { exists n. split_and!; try done; lia. }
  case_if; [|exists n; split_and!; try done; lia].
  rewrite contains_mem by (unfold valid_node; lia). simpl.
  destruct (mem s n) eqn:Em.
  - exists n. split_and!; try done; lia.
  - destruct (IH (n + 1)) as (m & -> & Hm & Hk & Hl); [lia..|].
    exists m. split_and!; try done; [lia..|]. intros k Hkn.
    destruct (Z.eq_dec k n) as [->|]; [done|]. apply Hk. lia.
Qed.

Lemma first_at_spec s n :
  valid_node n →
  ∃ m, exa_nodeset_first_at s n = Some m ∧ n <= m <= EXA_MAX_NODES_NUMBER ∧
    (∀ k, n <= k < m → mem s k = false) ∧ (m < EXA_MAX_NODES_NUMBER → mem s m = true).
Proof.
  intros Hn. unfold exa_nodeset_first_at. rewrite valid_nodeid by done.
  apply first_at_loop_spec; unfold valid_node, EXA_MAX_NODES_NUMBER in *; lia.
Qed.

(** The nodes of [s] from [n] on. *)
Definition nodes_from (s : exa_nodeset_t) (n : Z) : list Z :=
  filter (λ k, mem s k = true) (seqZ n (EXA_MAX_NODES_NUMBER - n)).

Lemma filter_none {A} (P : A → Prop) `{∀ x, Decision (P x)} l :
  Forall (λ x, ¬ P x) l → filter P l = [].
Proof. induction 1; [done|]. by rewrite filter_cons_False. Qed.

Lemma nodes_from_skip s n m :
  n <= m <= EXA_MAX_NODES_NUMBER → (∀ k, n <= k < m → mem s k = false) →
  nodes_from s n = nodes_from s m.
Proof.
  intros Hm Hk. unfold nodes_from.
  replace (EXA_MAX_NODES_NUMBER - n)
    with ((m - n) + (EXA_MAX_NODES_NUMBER - m)) by lia.
  rewrite seqZ_app by lia. rewrite filter_app, filter_none; simpl.
  - do 2 f_equal. lia.
  - apply Forall_forall. intros k. rewrite elem_of_seqZ. intros ?. rewrite Hk by lia. done.
Qed.

Lemma nodes_from_cons s n :
  n < EXA_MAX_NODES_NUMBER → mem s n = true → nodes_from s n = n :: nodes_from s (n + 1).
Proof.
  intros Hn Hm. unfold nodes_from. rewrite seqZ_cons by lia.
  rewrite filter_cons_True by done. do 2 f_equal. f_equal; lia.
Qed.

Lemma nodes_from_end s : nodes_from s EXA_MAX_NODES_NUMBER = [].
Proof. reflexivity. Qed.

Lemma foreach_loop_spec fuel s n :
  0 <= n <= EXA_MAX_NODES_NUMBER → EXA_MAX_NODES_NUMBER - n <= Z.of_nat fuel →
  (n < EXA_MAX_NODES_NUMBER → mem s n = true) →
  foreach_loop fuel s n = Some (nodes_from s n).
Proof.
  revert n. induction fuel as [|fuel IH]; intros n Hn Hf Hm; simpl.
  { replace n with EXA_MAX_NODES_NUMBER by lia. by rewrite nodes_from_end. }
  case_if; cycle 1.
  { replace n with EXA_MAX_NODES_NUMBER by lia. by rewrite nodes_from_end. }
  rewrite nodes_from_cons by auto. case_if.
  - destruct (first_at_spec s (n + 1)) as (m & -> & Hm' & Hk & Hl); [unfold valid_node; lia|].
    simpl. rewrite IH by (done || lia). simpl. by rewrite (nodes_from_skip s (n + 1) m).
  - simpl. rewrite IH by (done || lia). done.
Qed.

Lemma foreach_spec s : exa_nodeset_foreach s = Some (nodes_list s).
Proof.
  unfold exa_nodeset_foreach.
  destruct (first_at_spec s 0) as (m & -> & Hm & Hk & Hl); [done|]. cbn [mbind option_bind].
  rewrite foreach_loop_spec by (done || unfold EXA_MAX_NODES_NUMBER in *; lia).
  by rewrite <- (nodes_from_skip s 0 m).
Qed.

Lemma iter_spec s :
  nodeset_wf s →
  match exa_nodeset_iter s with
  | None => False
  | Some None => nodes_of s = ∅
  | Some (Some (n, s')) =>
      n ∈ nodes_of s ∧ (∀ k, k ∈ nodes_of s → n <= k) ∧
      nodeset_wf s' ∧ nodes_of s' = nodes_of s ∖ {[n]}
  end.
Proof.
  intros Hs. unfold exa_nodeset_iter.
  destruct (first_at_spec s 0) as (m & -> & Hm & Hk & Hl); [done|]. simpl.
  case_if.
  - apply set_eq. intros k. rewrite elem_of_nodes. split; [|set_solver].
    intros [Hv Hmem]. rewrite Hk in Hmem by (unfold valid_node in *; lia). done.
  - assert (Hv : valid_node m) by (unfold valid_node; lia).
    destruct (del_spec s m Hs Hv) as (s' & -> & Hw & Hd). simpl.
    split_and!; [rewrite elem_of_nodes; auto| |done..].
    intros k. rewrite elem_of_nodes. intros [Hkv Hmem].
    destruct (Z.leb_spec m k); [done|]. rewrite Hk in Hmem; [done|].
    unfold valid_node in *; lia.
Qed.

Lemma first_spec s :
  ∃ m, exa_nodeset_first s = Some m ∧
    ((nodes_of s = ∅ ∧ m = EXA_MAX_NODES_NUMBER) ∨
     (m ∈ nodes_of s ∧ ∀ k, k ∈ nodes_of s → m <= k)).
Proof.
  unfold exa_nodeset_first.
  destruct (first_at_spec s 0) as (m & -> & Hm & Hk & Hl); [done|]. exists m. split; [done|].
  assert (Hlow : ∀ k, k ∈ nodes_of s → m <= k).
  { intros k. rewrite elem_of_nodes. intros [Hv Hmem].
    destruct (Z.leb_spec m k); [done|]. rewrite Hk in Hmem; [done|unfold valid_node in *; lia]. }
  destruct (Z.ltb_spec m EXA_MAX_NODES_NUMBER).
  - right. split; [|done]. rewrite elem_of_nodes. unfold valid_node. auto with lia.
  - left. split; [|lia]. apply set_eq. intros k. split; [|set_solver].
    intros Hk'. pose proof (Hlow k Hk'). apply nodes_valid in Hk'. unfold valid_node in *. lia.
Qed.

(** *** Hexadecimal representation *)

Lemma hexval_hexchar d : 0 <= d < 16 → hexval (hexchar d) = Some d.
Proof.
  intros Hd.
  assert (Forall (λ d, hexval (hexchar d) = Some d) (seqZ 0 16)) as H.
  { repeat (constructor; [reflexivity|]). constructor. }
  rewrite Forall_forall in H. apply H. rewrite elem_of_seqZ. lia.
Qed.

Lemma hexchar_elem d : 0 <= d < 16 → hexchar d ∈ hex_chars.
Proof.
  intros Hd. unfold hexchar.
  destruct (lookup_lt_is_Some_2 hex_chars (Z.to_nat d)) as [c Hc].
  { change (length hex_chars) with 16%nat. lia. }
  rewrite Hc. by apply list_elem_of_lookup_2 in Hc.
Qed.

Lemma length_hex_digits k v : length (hex_digits k v) = k.
Proof.
  revert v. induction k as [|k IH]; intros v; simpl; [done|].
  rewrite length_app, IH. simpl. lia.
Qed.

Lemma hex_digits_elem k v c : c ∈ hex_digits k v → c ∈ hex_chars.
Proof.
  revert v. induction k as [|k IH]; intros v; simpl; [by intros ?%elem_of_nil|].
  rewrite elem_of_app, list_elem_of_singleton. intros [?| ->]; [eauto|].
  apply hexchar_elem, Z.mod_pos_bound. lia.
Qed.

Lemma scan_digits k v :
  (k <= 16)%nat →
  foldl (λ acc c, v ← acc; d ← hexval c; Some (u64 (v * 16 + d))) (Some 0) (hex_digits k v) =
  Some (v mod 16 ^ Z.of_nat k).
Proof.
  revert v. induction k as [|k IH]; intros v Hk; simpl.
  { change (16 ^ Z.of_nat 0) with 1. by rewrite Z.mod_1_r. }
  rewrite foldl_app, IH by lia. simpl.
  rewrite hexval_hexchar by (apply Z.mod_pos_bound; lia). simpl. f_equal.
  assert (0 < 16 ^ Z.of_nat k) by (apply Z.pow_pos_nonneg; lia).
  rewrite Nat2Z.inj_succ, Z.pow_succ_r, Z.rem_mul_r by lia.
  rewrite u64_id; [lia|]. unfold fits.
  pose proof (Z.mod_pos_bound (v / 16) (16 ^ Z.of_nat k) ltac:(lia)).
  pose proof (Z.mod_pos_bound v 16 ltac:(lia)).
  assert (16 ^ Z.of_nat k <= 16 ^ 15) by (apply Z.pow_le_mono_r; lia). lia.
Qed.

Lemma scan_hex_digits v s : fits 64 v → scan_hex (hex_digits 16 v ++ s) = Some v.
Proof.
  intros Hv. unfold scan_hex.
  rewrite take_app_le, take_ge by (rewrite length_hex_digits; lia).
  rewrite scan_digits by lia. f_equal. apply Z.mod_small. unfold fits in Hv. lia.
Qed.

Lemma strspn_hex_all s : (∀ c, c ∈ s → c ∈ hex_chars) → strspn_hex s = Z.of_nat (length s).
Proof.
  induction s as [|c s IH]; intros Hs; simpl; [done|].
  rewrite bool_decide_eq_true_2 by (apply Hs; set_solver).
  rewrite IH by (intros; apply Hs; set_solver). lia.
Qed.

(** ** Properties *)

(** C26: the bit-field operations implement finite sets of node identifiers.
    On well-formed bit fields and valid nodes, adding, deleting, uniting,
    subtracting and intersecting keep the bit field well formed and act on the
    abstract set [nodes_of] as the set operations; membership, emptiness,
    equality, inclusion, disjointness and counting answer the corresponding
    questions on the abstract sets. No assertion fails. *)
Theorem nodeset_refines_sets a b n :
  nodeset_wf a → nodeset_wf b → valid_node n →
  (∃ a', exa_nodeset_add a n = Some a' ∧ nodeset_wf a' ∧ nodes_of a' = {[n]} ∪ nodes_of a) ∧
  (∃ a', exa_nodeset_del a n = Some a' ∧ nodeset_wf a' ∧ nodes_of a' = nodes_of a ∖ {[n]}) ∧
  (nodeset_wf (exa_nodeset_sum a b) ∧
   nodes_of (exa_nodeset_sum a b) = nodes_of a ∪ nodes_of b) ∧
  (nodeset_wf (exa_nodeset_substract a b) ∧
   nodes_of (exa_nodeset_substract a b) = nodes_of a ∖ nodes_of b) ∧
  (nodeset_wf (exa_nodeset_intersect a b) ∧
   nodes_of (exa_nodeset_intersect a b) = nodes_of a ∩ nodes_of b) ∧
  exa_nodeset_contains a n = Some (bool_decide (n ∈ nodes_of a)) ∧
  exa_nodeset_is_empty a = bool_decide (nodes_of a = ∅) ∧
  exa_nodeset_equals a b = bool_decide (nodes_of a = nodes_of b) ∧
  exa_nodeset_included a b = bool_decide (nodes_of a ⊆ nodes_of b) ∧
  exa_nodeset_disjoint a b = bool_decide (nodes_of a ## nodes_of b) ∧
  exa_nodeset_count a = Some (Z.of_nat (size (nodes_of a))).
Proof.
  intros Ha Hb Hn.
  exact (conj (add_spec a n Ha Hn) (conj (del_spec a n Ha Hn)
    (conj (sum_spec a b Ha Hb) (conj (substract_spec a b Ha Hb)
    (conj (intersect_spec a b Ha Hb) (conj (contains_spec a n Hn)
    (conj (is_empty_spec a Ha) (conj (equals_spec a b Ha Hb)
    (conj (included_spec a b Ha Hb) (conj (disjoint_spec a b Ha Hb)
    (count_spec a))))))))))).
Qed.

Definition nodeset_example : exa_nodeset_t := mk_nodeset [2 ^ 63 + 5; 2 ^ 6].

Lemma nodeset_example_wf : nodeset_wf nodeset_example.
Proof. by apply nodeset_wf_intro. Qed.

Lemma nodeset_refines_sets_witness :
  exa_nodeset_contains nodeset_example 70 = Some true ∧
  exa_nodeset_count nodeset_example = Some 4 ∧
  nodes_of (exa_nodeset_sum nodeset_example EXA_NODESET_EMPTY) = nodes_of nodeset_example ∪ ∅.
Proof.
  destruct (nodeset_refines_sets nodeset_example EXA_NODESET_EMPTY 70)
    as (_ & _ & [_ Hsum] & _ & _ & Hc & _ & _ & _ & _ & Hn).
  - exact nodeset_example_wf.
  - exact empty_wf.
  - done.
  - split; [|split].
    + rewrite Hc. reflexivity.
    + rewrite Hn. reflexivity.
    + exact Hsum.
Defined.

(** [exa_nodeset_foreach] (and the chain of [exa_nodeset_first_at] calls it
    expands to) visits every node of the set exactly once, in increasing
    order, and nothing else. *)
Theorem foreach_enumerates s :
  ∃ l, exa_nodeset_foreach s = Some l ∧ StronglySorted Z.lt l ∧ NoDup l ∧
    ∀ n, n ∈ l ↔ n ∈ nodes_of s.
Proof.
  exists (nodes_list s). split_and!.
  - apply foreach_spec.
  - apply StronglySorted_filter, StronglySorted_seqZ.
  - apply NoDup_nodes_list.
  - apply elem_of_nodes_list.
Qed.

(** The hexadecimal text of a node set reads back as the same set, whatever
    the previous contents of the destination. *)
Theorem nodeset_hex_roundtrip s s0 :
  nodeset_wf s → nodeset_wf s0 →
  exa_nodeset_from_hex s0 (exa_nodeset_to_hex s) = Ok s.
Proof.
  intros (c0 & c1 & -> & ? & ?)%nodeset_wf_inv (d0 & d1 & -> & _)%nodeset_wf_inv.
  assert (Hi : reverse cell_indices = [1; 0]) by reflexivity.
  assert (Hh : exa_nodeset_to_hex (mk_nodeset [c0; c1]) = hex_digits 16 c1 ++ hex_digits 16 c0).
  { unfold exa_nodeset_to_hex. rewrite Hi. unfold foldl. by autorewrite with exa. }
  rewrite Hh. unfold exa_nodeset_from_hex. rewrite strspn_hex_all.
  2: { intros c. rewrite elem_of_app. intros [?|?]; by eapply hex_digits_elem. }
  rewrite length_app, !length_hex_digits, Hi.
  change (negb _) with false. cbv iota. unfold from_hex_loop at 1.
  rewrite scan_hex_digits by done.
  rewrite drop_app_length' by (by rewrite length_hex_digits).
  rewrite <- (app_nil_r (hex_digits 16 c0)), scan_hex_digits by done. reflexivity.
Qed.

Lemma nodeset_hex_roundtrip_witness :
  exa_nodeset_from_hex EXA_NODESET_FULL (exa_nodeset_to_hex nodeset_example) = Ok nodeset_example.
Proof.
  apply (nodeset_hex_roundtrip nodeset_example EXA_NODESET_FULL).
  - exact nodeset_example_wf.
  - by apply nodeset_wf_intro.
Defined.
