(* ===== verification/SupCluster.v ===== *)
(** * Views and clusters of the supervision daemon

    Model of [csupd/src/sup_view.c], [csupd/src/sup_cluster.c] and their
    headers: what one instance of the cluster supervisor knows of the nodes
    and of their views, with the invariants its operations maintain. *)

From S2P Require Import Prelude Nodeset.
From stdpp Require Import options.

(** ** Data *)

Inductive sup_state_t :=
  | SUP_STATE_UNKNOWN | SUP_STATE_CHANGE | SUP_STATE_ACCEPT | SUP_STATE_COMMIT.

#[export] Instance sup_state_eq_dec : EqDecision sup_state_t.
Proof. solve_decision. Defined.

Record sup_view_t := mk_view {
  v_state : sup_state_t;
  num_seen : Z;
  nodes_seen : exa_nodeset_t;
  clique : exa_nodeset_t;
  coord : Z;
  accepted : Z;
  committed : Z
}.

Record sup_node_t := mk_node {
  n_id : Z;
  incarnation : Z;
  view : sup_view_t;
  last_seen : Z
}.

(** [self] points into [nodes]: it is modelled by the index of the node. *)
Record sup_cluster_t := mk_cluster {
  nodes : list sup_node_t;
  known_nodes : exa_nodeset_t;
  num_nodes : Z;
  self : option Z
}.

(** Field updates. *)
Definition set_seen (v : sup_view_t) (n : Z) (s : exa_nodeset_t) : sup_view_t :=
  mk_view (v_state v) n s (clique v) (coord v) (accepted v) (committed v).
Definition set_v_state (v : sup_view_t) (s : sup_state_t) : sup_view_t :=
  mk_view s (num_seen v) (nodes_seen v) (clique v) (coord v) (accepted v) (committed v).
Definition set_clique (v : sup_view_t) (s : exa_nodeset_t) (c : Z) : sup_view_t :=
  mk_view (v_state v) (num_seen v) (nodes_seen v) s c (accepted v) (committed v).
Definition set_accepted (v : sup_view_t) (g : Z) : sup_view_t :=
  mk_view (v_state v) (num_seen v) (nodes_seen v) (clique v) (coord v) g (committed v).
Definition set_committed (v : sup_view_t) (g : Z) : sup_view_t :=
  mk_view (v_state v) (num_seen v) (nodes_seen v) (clique v) (coord v) (accepted v) g.

(** ** Views: [sup_view.c] *)

Definition sup_view_init : sup_view_t :=
  {| v_state := SUP_STATE_UNKNOWN;
     num_seen := 0;
     nodes_seen := EXA_NODESET_EMPTY;
     clique := EXA_NODESET_EMPTY;
     coord := EXA_NODEID_NONE;
     accepted := 0;
     committed := 0 |}.

Definition sup_view_add_node (v : sup_view_t) (node_id : Z) : option sup_view_t :=
  seen ← exa_nodeset_add (nodes_seen v) node_id;
  Some (set_seen v (if num_seen v <=? node_id then u32 (node_id + 1) else num_seen v) seen).

(** [while (node_id > 0 && !contains (nodes_seen, node_id)) node_id--] *)
Fixpoint del_node_loop (fuel : nat) (seen : exa_nodeset_t) (node_id : Z) : option Z :=
  match fuel with
  | O => Some node_id
  | S fuel' =>
      if 0 <? node_id then
        b ← exa_nodeset_contains seen node_id;
        if b : bool then Some node_id else del_node_loop fuel' seen (node_id - 1)
      else Some node_id
  end.

Definition sup_view_del_node (v : sup_view_t) (node_id : Z) : option sup_view_t :=
  seen ← exa_nodeset_del (nodes_seen v) node_id;
  if node_id =? u32 (num_seen v - 1) then
    last ← del_node_loop (Z.to_nat node_id) seen node_id;
    b ← exa_nodeset_contains seen last;
    Some (set_seen v (if b : bool then u32 (last + 1) else 0) seen)
  else Some (set_seen v (num_seen v) seen).

Definition sup_view_copy (src : sup_view_t) : sup_view_t := src.

Definition sup_view_equals (v1 v2 : sup_view_t) : bool :=
  (coord v1 =? coord v2) && exa_nodeset_equals (nodes_seen v1) (nodes_seen v2).

(** ** Clusters: [sup_cluster.c] *)

Definition sup_node_init : sup_node_t :=
  {| n_id := EXA_NODEID_NONE; incarnation := 0; view := sup_view_init; last_seen := 0 |}.

#[export] Instance sup_node_inhabited : Inhabited sup_node_t := populate sup_node_init.

(** The macro [sup_node_defined]. *)
Definition sup_node_defined (n : sup_node_t) : bool :=
  (n_id n <? EXA_MAX_NODES_NUMBER) && negb (n_id n =? EXA_NODEID_NONE).

Definition get_node (c : sup_cluster_t) (i : Z) : sup_node_t := nodes c !!! Z.to_nat i.

Definition set_node (c : sup_cluster_t) (i : Z) (n : sup_node_t) : sup_cluster_t :=
  mk_cluster (<[Z.to_nat i := n]> (nodes c)) (known_nodes c) (num_nodes c) (self c).

(** A pointer to a node of the cluster is its index; [Some None] is [NULL]. *)
Definition sup_cluster_node (c : sup_cluster_t) (node_id : Z) : option (option Z) :=
  assert! (node_id <? EXA_MAX_NODES_NUMBER);
  Some (if n_id (get_node c node_id) =? EXA_NODEID_NONE then None else Some node_id).

Definition sup_cluster_init : sup_cluster_t :=
  {| nodes := replicate (Z.to_nat EXA_MAX_NODES_NUMBER) sup_node_init;
     known_nodes := EXA_NODESET_EMPTY;
     num_nodes := 0;
     self := None |}.

Definition set_id (n : sup_node_t) (i : Z) : sup_node_t :=
  mk_node i (incarnation n) (view n) (last_seen n).

Definition sup_cluster_add_node (c : sup_cluster_t) (node_id : Z)
    : option (result sup_cluster_t) :=
  if EXA_MAX_NODES_NUMBER <=? node_id then Some (Err EINVAL)
  else if num_nodes c =? EXA_MAX_NODES_NUMBER then Some (Err ENOSPC)
  else if sup_node_defined (get_node c node_id) then Some (Err EEXIST)
  else
    let c := set_node c node_id (set_id sup_node_init node_id) in
    known ← exa_nodeset_add (known_nodes c) node_id;
    Some (Ok (mk_cluster (nodes c) known (u32 (num_nodes c + 1)) (self c))).

Definition sup_cluster_del_node (c : sup_cluster_t) (node_id : Z)
    : option (result sup_cluster_t) :=
  assert! (node_id <? EXA_MAX_NODES_NUMBER);
  if num_nodes c =? 0 then Some (Err ENOENT)
  else if negb (sup_node_defined (get_node c node_id)) then Some (Err ENOENT)
  else
    let c := set_node c node_id sup_node_init in
    known ← exa_nodeset_del (known_nodes c) node_id;
    Some (Ok (mk_cluster (nodes c) known (u32 (num_nodes c - 1)) (self c))).

(** ** Invariants *)

(** [num_seen] is one more than the highest node seen, [0] when none is. *)
Definition num_seen_ok (n : Z) (seen : gset Z) : Prop :=
  (seen = ∅ ∧ n = 0) ∨ (n - 1 ∈ seen ∧ ∀ k, k ∈ seen → k < n).

Definition view_wf (v : sup_view_t) : Prop :=
  nodeset_wf (nodes_seen v) ∧ nodeset_wf (clique v) ∧
  num_seen_ok (num_seen v) (nodes_of (nodes_seen v)).

Record cluster_wf (c : sup_cluster_t) : Prop := {
  cwf_length : length (nodes c) = Z.to_nat EXA_MAX_NODES_NUMBER;
  cwf_known : nodeset_wf (known_nodes c);
  cwf_num : num_nodes c = Z.of_nat (size (nodes_of (known_nodes c)));
  cwf_in : ∀ i, i ∈ nodes_of (known_nodes c) → n_id (get_node c i) = i;
  cwf_out : ∀ i, valid_node i → i ∉ nodes_of (known_nodes c) →
    n_id (get_node c i) = EXA_NODEID_NONE;
  cwf_view : ∀ i, valid_node i → view_wf (view (get_node c i))
}.

Lemma num_seen_le n seen :
  num_seen_ok n seen → (∀ k, k ∈ seen → valid_node k) → 0 <= n <= EXA_MAX_NODES_NUMBER.
Proof.
  unfold valid_node, EXA_MAX_NODES_NUMBER. intros [[_ ->]|[Hn _]] Hv; [lia|].
  specialize (Hv _ Hn). lia.
Qed.

Lemma view_init_wf : view_wf sup_view_init.
Proof. split_and!; [apply empty_wf..|]. left. done. Qed.

Lemma num_seen_add n seen i :
  valid_node i → num_seen_ok n seen →
  num_seen_ok (if n <=? i then u32 (i + 1) else n) ({[i]} ∪ seen).
Proof.
  unfold valid_node, EXA_MAX_NODES_NUMBER. intros Hi [[-> ->]|[Hn Hk]]; right.
  - replace (0 <=? i) with true by lia. rewrite u32_id by (unfold fits; lia).
    set_solver by lia.
  - case_if.
    + rewrite u32_id by (unfold fits; lia).
      replace (i + 1 - 1) with i by lia. split; [set_solver|].
      intros k. rewrite elem_of_union, elem_of_singleton. intros [->|Hk']; [lia|].
      apply Hk in Hk'. lia.
    + split; [set_solver|]. intros k. rewrite elem_of_union, elem_of_singleton.
      intros [->|Hk']; [lia|]. by apply Hk.
Qed.

Lemma sup_view_add_node_ok v i :
  view_wf v → valid_node i →
  ∃ v', sup_view_add_node v i = Some v' ∧ view_wf v' ∧
    nodes_of (nodes_seen v') = {[i]} ∪ nodes_of (nodes_seen v) ∧
    clique v' = clique v ∧ coord v' = coord v ∧ v_state v' = v_state v ∧
    accepted v' = accepted v ∧ committed v' = committed v.
Proof.
  intros (Hs & Hc & Hn) Hi. unfold sup_view_add_node.
  destruct (add_spec (nodes_seen v) i Hs Hi) as (s' & -> & Hw & Hs'). simpl.
  eexists. split; [done|]. split_and!; try done.
  split_and!; [done..|]. simpl. rewrite Hs'. by apply num_seen_add.
Qed.

Lemma del_node_loop_ok fuel seen i :
  0 <= i < EXA_MAX_NODES_NUMBER → i <= Z.of_nat fuel →
  ∃ m, del_node_loop fuel seen i = Some m ∧ 0 <= m <= i ∧
    (∀ k, m < k <= i → k ∉ nodes_of seen) ∧ (0 < m → m ∈ nodes_of seen).
Proof.
  revert i. induction fuel as [|fuel IH]; intros i Hi Hf; simpl.
  { exists i. split_and!; try done; lia. }
  case_if; [|exists i; split_and!; try done; lia].
  rewrite contains_spec by done. simpl. case_bool_decide as Hin.
  - exists i. split_and!; try done; lia.
  - destruct (IH (i - 1)) as (m & -> & Hm & Hk & Hl); [lia..|].
    exists m. split_and!; try done; [lia..|]. intros k Hki.
    destruct (Z.eq_dec k i) as [->|]; [done|]. apply Hk. lia.
Qed.

Lemma sup_view_del_node_ok v i :
  view_wf v → valid_node i →
  ∃ v', sup_view_del_node v i = Some v' ∧ view_wf v' ∧
    nodes_of (nodes_seen v') = nodes_of (nodes_seen v) ∖ {[i]} ∧
    clique v' = clique v ∧ coord v' = coord v ∧ v_state v' = v_state v ∧
    accepted v' = accepted v ∧ committed v' = committed v.
Proof.
  intros (Hs & Hc & Hn) Hi. unfold sup_view_del_node.
  destruct (del_spec (nodes_seen v) i Hs Hi) as (s' & -> & Hw & Hs').
  cbn [mbind option_bind].
  pose proof (num_seen_le _ _ Hn (nodes_valid _)) as Hb. case_if.
  - destruct (del_node_loop_ok (Z.to_nat i) s' i) as (m & -> & Hm & Hk & Hl);
      [unfold valid_node in *; lia..|]. cbn [mbind option_bind].
    rewrite contains_spec by (unfold valid_node in *; lia). cbn [mbind option_bind].
    eexists. split; [done|]. split_and!; try done. split_and!; [done..|]. simpl.
    assert (Hall : ∀ k, k ∈ nodes_of s' → k <= m).
    { intros k Hk'. destruct (Z.leb_spec k m); [done|].
      destruct (Z.leb_spec k i); [exfalso; eapply Hk; [|done]; lia|].
      exfalso. rewrite Hs' in Hk'. destruct Hn as [[He _]|[Hn Hlt]]; [set_solver|].
      assert (k < num_seen v) by (apply Hlt; set_solver).
      rewrite u32_id in Hif by (unfold fits, EXA_MAX_NODES_NUMBER in *; lia). lia. }
    case_bool_decide as Hin.
    + right. rewrite u32_id by (unfold fits, valid_node, EXA_MAX_NODES_NUMBER in *; lia).
      replace (m + 1 - 1) with m by lia. split; [done|]. intros k Hk'%Hall. lia.
    + left. split; [|done]. apply set_eq. intros k. split; [|set_solver]. intros Hk'.
      assert (m = 0) as -> by (destruct (Z.ltb_spec 0 m); [by exfalso; auto|lia]).
      assert (k = 0) as -> by (pose proof (Hall _ Hk'); apply nodes_valid in Hk';
        unfold valid_node in *; lia). done.
  - eexists. split; [done|]. split_and!; try done. split_and!; [done..|]. simpl.
    rewrite Hs'. destruct Hn as [[He Hn]|[Hn Hlt]].
    + left. split; [set_solver|done].
    + right. rewrite u32_id in Hif by (pose proof (nodes_valid _ _ Hn);
        unfold fits, valid_node, EXA_MAX_NODES_NUMBER in *; lia).
      split; [set_solver|]. intros k Hk. apply Hlt. set_solver.
Qed.

Lemma sup_view_equals_spec v1 v2 :
  view_wf v1 → view_wf v2 →
  sup_view_equals v1 v2 = true ↔ coord v1 = coord v2 ∧ nodes_seen v1 = nodes_seen v2.
Proof.
  intros (? & _) (? & _). unfold sup_view_equals.
  by rewrite andb_true_iff, Z.eqb_eq, equals_eq.
Qed.

(** *** Clusters *)

Lemma get_set_node c i j n :
  length (nodes c) = Z.to_nat EXA_MAX_NODES_NUMBER → valid_node i → valid_node j →
  get_node (set_node c i n) j = if j =? i then n else get_node c j.
Proof.
  unfold valid_node, get_node, set_node. intros Hl Hi Hj. simpl.
  destruct (Z.eqb_spec j i) as [->|Hne].
  - apply list_lookup_total_insert_eq. lia.
  - apply list_lookup_total_insert_ne. lia.
Qed.

Lemma length_set_node c i n : length (nodes (set_node c i n)) = length (nodes c).
Proof. apply length_insert. Qed.

(** The definedness test of the code is membership in [known_nodes]. *)
Lemma cluster_defined c i :
  cluster_wf c → valid_node i →
  sup_node_defined (get_node c i) = bool_decide (i ∈ nodes_of (known_nodes c)).
Proof.
  intros Hc Hi. unfold sup_node_defined. case_bool_decide as Hin.
  - rewrite (cwf_in c Hc) by done.
    unfold valid_node, EXA_NODEID_NONE, EXA_MAX_NODES_NUMBER in *. lia.
  - rewrite (cwf_out c Hc) by done. done.
Qed.

Lemma cluster_node_spec c i :
  cluster_wf c → valid_node i →
  sup_cluster_node c i =
  Some (if bool_decide (i ∈ nodes_of (known_nodes c)) then Some i else None).
Proof.
  intros Hc Hi. unfold sup_cluster_node. replace (i <? _) with true
    by (unfold valid_node in *; lia). simpl. do 2 f_equal.
  case_bool_decide as Hin.
  - rewrite (cwf_in c Hc) by done. replace (i =? _) with false; [done|].
    unfold valid_node, EXA_NODEID_NONE, EXA_MAX_NODES_NUMBER in *. lia.
  - by rewrite (cwf_out c Hc), Z.eqb_refl.
Qed.

Lemma cluster_init_wf : cluster_wf sup_cluster_init.
Proof.
  assert (Hg : ∀ i, valid_node i → get_node sup_cluster_init i = sup_node_init).
  { intros i Hi. unfold get_node, sup_cluster_init, nodes.
    apply lookup_total_replicate_2. unfold valid_node in Hi. lia. }
  split; try done.
  - apply empty_wf.
  - intros i Hi _. by rewrite Hg.
  - intros i Hi. rewrite Hg by done. apply view_init_wf.
Qed.

(** Replacing the view of a node keeps the cluster well formed. *)
Lemma set_node_wf c i n :
  cluster_wf c → i ∈ nodes_of (known_nodes c) → n_id n = i → view_wf (view n) →
  cluster_wf (set_node c i n).
Proof.
  intros Hc Hi Hid Hv. pose proof (nodes_valid _ _ Hi) as Hvi.
  split; try apply Hc.
  - rewrite length_set_node. apply Hc.
  - intros j Hj. rewrite get_set_node by (apply Hc || by eapply nodes_valid).
    case_if; [by subst|]. by apply Hc.
  - intros j Hj Hnj. rewrite get_set_node by (apply Hc || done).
    case_if; [subst; done|]. by apply Hc.
  - intros j Hj. rewrite get_set_node by (apply Hc || done).
    case_if; [done|]. by apply Hc.
Qed.

Lemma size_valid (s : gset Z) :
  (∀ k, k ∈ s → valid_node k) → Z.of_nat (size s) <= EXA_MAX_NODES_NUMBER.
Proof.
  intros Hv.
  assert (size s <= size (list_to_set all_nodes : gset Z))%nat as Hle.
  { apply subseteq_size. intros k Hk. rewrite elem_of_list_to_set, elem_of_all_nodes. auto. }
  rewrite size_list_to_set in Hle by apply NoDup_seqZ.
  change (length all_nodes) with 128%nat in Hle. unfold EXA_MAX_NODES_NUMBER. lia.
Qed.

Lemma add_node_ok c i :
  cluster_wf c → valid_node i → i ∉ nodes_of (known_nodes c) →
  ∃ c', sup_cluster_add_node c i = Some (Ok c') ∧ cluster_wf c' ∧ self c' = self c ∧
    nodes_of (known_nodes c') = {[i]} ∪ nodes_of (known_nodes c) ∧
    get_node c' i = set_id sup_node_init i ∧
    ∀ j, valid_node j → j ≠ i → get_node c' j = get_node c j.
Proof.
  intros Hc Hi Hni. unfold sup_cluster_add_node.
  pose proof (size_valid _ (nodes_valid (known_nodes c))) as Hsz.
  assert (Z.of_nat (size ({[i]} ∪ nodes_of (known_nodes c))) <= EXA_MAX_NODES_NUMBER) as Hsz'.
  { apply size_valid. intros k. rewrite elem_of_union, elem_of_singleton.
    intros [->|?%nodes_valid]; done. }
  rewrite size_union, size_singleton in Hsz' by set_solver.
  pose proof (cwf_num c Hc) as Hnum.
  replace (_ <=? i) with false by (unfold valid_node in *; lia).
  replace (num_nodes c =? _) with false by lia.
  rewrite cluster_defined, bool_decide_eq_false_2 by done. cbn [known_nodes set_node].
  destruct (add_spec (known_nodes c) i (cwf_known c Hc) Hi) as (s' & -> & Hw & Hs').
  simpl. eexists. split; [done|].
  assert (Hg : ∀ k s, get_node (mk_cluster (<[Z.to_nat i:=set_id sup_node_init i]> (nodes c)) s'
      (u32 (num_nodes c + 1)) s) k = get_node (set_node c i (set_id sup_node_init i)) k) by done.
  split; [|split_and!; [done|done| |]].
  - split; simpl.
    + rewrite length_insert. apply Hc.
    + done.
    + rewrite Hs', size_union, size_singleton by set_solver.
      rewrite u32_id by (unfold fits, EXA_MAX_NODES_NUMBER in *; lia). lia.
    + intros j. rewrite Hs', elem_of_union, elem_of_singleton, Hg. intros Hj.
      rewrite get_set_node; [|apply Hc|done|destruct Hj as [->|?%nodes_valid]; done].
      case_if; [by subst|]. destruct Hj; [done|]. by apply Hc.
    + intros j Hj Hnj. rewrite Hg, get_set_node by (apply Hc || done).
      case_if; [set_solver|]. apply Hc; [done|set_solver].
    + intros j Hj. rewrite Hg, get_set_node by (apply Hc || done).
      case_if; [apply view_init_wf|by apply Hc].
  - rewrite Hg, get_set_node, Z.eqb_refl by (apply Hc || done). done.
  - intros j Hj Hne. rewrite Hg, get_set_node by (apply Hc || done). case_if; done.
Qed.

Lemma del_node_ok c i :
  cluster_wf c → i ∈ nodes_of (known_nodes c) →
  ∃ c', sup_cluster_del_node c i = Some (Ok c') ∧ cluster_wf c' ∧ self c' = self c ∧
    nodes_of (known_nodes c') = nodes_of (known_nodes c) ∖ {[i]} ∧
    ∀ j, valid_node j → j ≠ i → get_node c' j = get_node c j.
Proof.
  intros Hc Hin. pose proof (nodes_valid _ _ Hin) as Hi. unfold sup_cluster_del_node.
  assert (size (nodes_of (known_nodes c)) ≠ 0)%nat as Hsz.
  { intros E%size_empty_inv. set_solver. }
  pose proof (size_valid _ (nodes_valid (known_nodes c))) as Hszv.
  pose proof (cwf_num c Hc) as Hnum.
  replace (i <? _) with true by (unfold valid_node in *; lia).
  replace (num_nodes c =? 0) with false by lia.
  rewrite cluster_defined, bool_decide_eq_true_2 by done. cbn [known_nodes set_node exa_assert negb].
  destruct (del_spec (known_nodes c) i (cwf_known c Hc) Hi) as (s' & -> & Hw & Hs').
  simpl. eexists. split; [done|].
  assert (Hg : ∀ k s, get_node (mk_cluster (<[Z.to_nat i:=sup_node_init]> (nodes c)) s'
      (u32 (num_nodes c - 1)) s) k = get_node (set_node c i sup_node_init) k) by done.
  split; [|split_and!; [done|done|]].
  - split; simpl.
    + rewrite length_insert. apply Hc.
    + done.
    + rewrite Hs', size_difference, size_singleton by set_solver.
      rewrite u32_id by (unfold fits, EXA_MAX_NODES_NUMBER in *; lia). lia.
    + intros j. rewrite Hs', elem_of_difference, elem_of_singleton, Hg. intros [Hj Hne].
      rewrite get_set_node by (apply Hc || by eauto with exa).
      case_if; [done|]. by apply Hc.
    + intros j Hj Hnj. rewrite Hg, get_set_node by (apply Hc || done).
      case_if; [done|]. apply Hc; [done|set_solver].
    + intros j Hj. rewrite Hg, get_set_node by (apply Hc || done).
      case_if; [apply view_init_wf|by apply Hc].
  - intros j Hj Hne. rewrite Hg, get_set_node by (apply Hc || done). case_if; done.
Qed.

(** ** Properties *)

(** Adding and removing a node to the nodes seen by a view never fails an
    assertion on a valid node, changes the seen set by exactly that node, and
    keeps [num_seen] one above the highest node seen (zero when none is),
    although the removal recomputes it with a downward scan only when the
    highest node goes. *)
Theorem view_updates_keep_num_seen v i :
  view_wf v → valid_node i →
  (∃ v', sup_view_add_node v i = Some v' ∧ view_wf v' ∧
     nodes_of (nodes_seen v') = {[i]} ∪ nodes_of (nodes_seen v)) ∧
  (∃ v', sup_view_del_node v i = Some v' ∧ view_wf v' ∧
     nodes_of (nodes_seen v') = nodes_of (nodes_seen v) ∖ {[i]}).
Proof.
  intros Hv Hi.
  destruct (sup_view_add_node_ok v i Hv Hi) as (? & ? & ? & ? & _).
  destruct (sup_view_del_node_ok v i Hv Hi) as (? & ? & ? & ? & _).
  eauto 10.
Qed.

Definition view_example : sup_view_t :=
  mk_view SUP_STATE_CHANGE 65 (mk_nodeset [5; 1]) EXA_NODESET_EMPTY 0 0 0.

Lemma view_example_wf : view_wf view_example.
Proof.
  split_and!; [by apply nodeset_wf_intro|apply empty_wf|].
  right. change (nodes_of (nodes_seen view_example)) with ({[0; 2; 64]} : gset Z).
  set_solver by lia.
Qed.

Lemma view_updates_keep_num_seen_witness :
  num_seen <$> sup_view_del_node view_example 64 = Some 3 ∧
  ∃ v', sup_view_del_node view_example 64 = Some v' ∧ view_wf v'.
Proof.
  split; [reflexivity|].
  destruct (view_updates_keep_num_seen view_example 64) as (_ & v' & H1 & H2 & _).
  - exact view_example_wf.
  - done.
  - exists v'. split; assumption.
Defined.

(** [sup_cluster_add_node] and [sup_cluster_del_node] implement insertion
    and removal in the set of known nodes. They keep the cluster well formed
    (the defined entries of the node table are the known nodes, [num_nodes]
    counts them), touch no other entry, and return [-EINVAL], [-ENOSPC],
    [-EEXIST] or [-ENOENT] exactly when the node is out of range, the cluster
    is full, the node is known, or unknown; an error changes nothing. *)
Theorem cluster_node_table c i :
  cluster_wf c → 0 <= i →
  (match sup_cluster_add_node c i with
   | None => False
   | Some (Ok c') =>
       valid_node i ∧ i ∉ nodes_of (known_nodes c) ∧ cluster_wf c' ∧
       nodes_of (known_nodes c') = {[i]} ∪ nodes_of (known_nodes c) ∧
       ∀ j, valid_node j → j ≠ i → get_node c' j = get_node c j
   | Some (Err EINVAL) => ¬ valid_node i
   | Some (Err ENOSPC) => valid_node i ∧ num_nodes c = EXA_MAX_NODES_NUMBER
   | Some (Err EEXIST) => i ∈ nodes_of (known_nodes c)
   | Some (Err _) => False
   end) ∧
  (valid_node i →
   match sup_cluster_del_node c i with
   | None => False
   | Some (Ok c') =>
       i ∈ nodes_of (known_nodes c) ∧ cluster_wf c' ∧
       nodes_of (known_nodes c') = nodes_of (known_nodes c) ∖ {[i]} ∧
       ∀ j, valid_node j → j ≠ i → get_node c' j = get_node c j
   | Some (Err e) => e = ENOENT ∧ i ∉ nodes_of (known_nodes c)
   end).
Proof.
  intros Hc Hi. split.
  - destruct (decide (valid_node i)) as [Hv|Hv]; cycle 1.
    { unfold sup_cluster_add_node. replace (_ <=? i) with true; [done|].
      unfold valid_node in Hv. lia. }
    destruct (decide (i ∈ nodes_of (known_nodes c))) as [Hin|Hin].
    + unfold sup_cluster_add_node. replace (_ <=? i) with false by (unfold valid_node in *; lia).
      case_if; [done|]. by rewrite cluster_defined, bool_decide_eq_true_2.
    + destruct (add_node_ok c i Hc Hv Hin) as (c' & -> & ? & _ & ? & _ & ?). done.
  - intros Hv. destruct (decide (i ∈ nodes_of (known_nodes c))) as [Hin|Hin].
    + destruct (del_node_ok c i Hc Hin) as (c' & -> & ? & _ & ? & ?). done.
    + unfold sup_cluster_del_node. replace (i <? _) with true by (unfold valid_node in *; lia).
      simpl. case_if; [done|]. by rewrite cluster_defined, bool_decide_eq_false_2.
Qed.

Definition cluster_example : sup_cluster_t :=
  default sup_cluster_init
    (r ← sup_cluster_add_node sup_cluster_init 3;
     match r with Ok c => Some c | Err _ => None end).

Lemma cluster_example_wf : cluster_wf cluster_example.
Proof.
  destruct (add_node_ok sup_cluster_init 3) as (c' & E & Hw & _);
    [apply cluster_init_wf|done|by apply not_elem_of_empty|].
  unfold cluster_example. rewrite E. exact Hw.
Qed.

Lemma cluster_node_table_witness :
  sup_cluster_add_node cluster_example 3 = Some (Err EEXIST) ∧
  3 ∈ nodes_of (known_nodes cluster_example).
Proof.
  split; [reflexivity|].
  destruct (cluster_node_table cluster_example 3) as [H _].
  - exact cluster_example_wf.
  - lia.
  - exact H.
Defined.

(** ** Example clusters *)

(** Add a node with the nodes it sees; set the local node. *)
Definition add_seen (c : sup_cluster_t) (id : Z) (v : sup_view_t) : sup_cluster_t :=
  match sup_cluster_add_node c id with
  | Some (Ok c') => set_node c' id (mk_node id 1 v 0)
  | _ => c
  end.

Definition with_self (c : sup_cluster_t) (s : Z) : sup_cluster_t :=
  mk_cluster (nodes c) (known_nodes c) (num_nodes c) (Some s).

Lemma add_seen_wf c id v :
  cluster_wf c → bool_decide (valid_node id) = true →
  bool_decide (id ∈ nodes_of (known_nodes c)) = false → view_wf v →
  cluster_wf (add_seen c id v).
Proof.
  intros Hc Hi%bool_decide_eq_true Hn%bool_decide_eq_false Hv. unfold add_seen.
  destruct (add_node_ok c id Hc Hi Hn) as (c' & -> & Hc' & _ & Hk & _).
  apply set_node_wf; [done| |done|done]. rewrite Hk. set_solver.
Qed.

Lemma with_self_wf c s : cluster_wf c → cluster_wf (with_self c s).
Proof. intros []. by split. Qed.

(** A view that sees the nodes of [seen]. *)
Definition seeing (seen : exa_nodeset_t) (n : Z) : sup_view_t :=
  mk_view SUP_STATE_CHANGE n seen EXA_NODESET_EMPTY EXA_NODEID_NONE 0 0.

Lemma seeing_wf c0 c1 n :
  fits 64 c0 → fits 64 c1 →
  bool_decide (n - 1 ∈ nodes_of (mk_nodeset [c0; c1]) ∧
    set_Forall (λ k, k < n) (nodes_of (mk_nodeset [c0; c1]))) = true →
  view_wf (seeing (mk_nodeset [c0; c1]) n).
Proof.
  intros H0 H1 [Hn Hall]%bool_decide_eq_true.
  split_and!; [by apply nodeset_wf_intro|apply empty_wf|]. right. split; [exact Hn|].
  intros k Hk. by apply Hall.
Qed.
