(* ===== verification/SupClique.v ===== *)
(** * The clique of a node

    Model of [csupd/src/sup_clique.c]: from the nodes each node says it sees,
    compute a set of nodes that all see each other and that contains the
    local node. The membership protocol ([Csupd]) calls it whenever a view
    changes. [qsort] is any implementation of its contract ([Qsort]). *)

From S2P Require Import Prelude Nodeset SupCluster.
From stdpp Require Import options.

(** ** Definitions *)

Section definitions.
Context `{!Qsort}.

(** Comparison of two nodes: first the number of nodes they see, then their
    identifiers. The C code asserts that both pointers are valid and
    dereferences the nodes; where that fails the value is irrelevant. *)
Definition node_mship_cmp (c : sup_cluster_t) (a b : Z) : Z :=
  default 0 (
    pa ← sup_cluster_node c a; node_a ← pa;
    pb ← sup_cluster_node c b; node_b ← pb;
    count_a ← exa_nodeset_count (nodes_seen (view (get_node c node_a)));
    count_b ← exa_nodeset_count (nodes_seen (view (get_node c node_b)));
    let diff_count := count_a - count_b in
    Some (if negb (diff_count =? 0) then diff_count else i32 (u32 (a - b)))).

(** [exa_nodeset_foreach (&cluster->known_nodes, i)] filling [sorted_nodes]. *)
Fixpoint fill_sorted (c : sup_cluster_t) (l : list Z) : option (list Z) :=
  match l with
  | [] => Some []
  | i :: l' =>
      p ← sup_cluster_node c i; node ← p;
      rest ← fill_sorted c l';
      Some (if sup_node_defined (get_node c node)
            then n_id (get_node c node) :: rest else rest)
  end.

(** One turn of the inner [for]: try to integrate a node. The state is the
    membership being built ([result]) and the nodes that cannot join it
    ([impossible]). *)
Definition clique_step (c : sup_cluster_t) (rem_nodes : exa_nodeset_t)
    (st : exa_nodeset_t * exa_nodeset_t) (id : Z)
    : option (exa_nodeset_t * exa_nodeset_t) :=
  let '(result, impossible) := st in
  in_rem ← exa_nodeset_contains rem_nodes id;
  skip ← (if negb in_rem then Some true else exa_nodeset_contains impossible id);
  if skip : bool then Some st
  else
    p ← sup_cluster_node c id; n ← p;
    let node := get_node c n in
    let tmp := exa_nodeset_copy result in
    tmp ← exa_nodeset_add tmp (n_id node);
    let unseen := exa_nodeset_copy (known_nodes c) in
    let unseen := exa_nodeset_substract unseen (nodes_seen (view node)) in
    let intersec := exa_nodeset_copy unseen in
    let intersec := exa_nodeset_intersect intersec tmp in
    if exa_nodeset_is_empty intersec then
      result ← exa_nodeset_add result (n_id node);
      Some (result, exa_nodeset_sum impossible unseen)
    else Some st.

Fixpoint clique_pass (c : sup_cluster_t) (rem_nodes : exa_nodeset_t) (sorted : list Z)
    (st : exa_nodeset_t * exa_nodeset_t) : option (exa_nodeset_t * exa_nodeset_t) :=
  match sorted with
  | [] => Some st
  | id :: sorted' =>
      st' ← clique_step c rem_nodes st id;
      clique_pass c rem_nodes sorted' st'
  end.

(** The outer [while]. [fuel] bounds the number of passes; running out of it
    and the final [EXA_ASSERT (false)] are both [None]. *)
Fixpoint clique_loop (fuel : nat) (c : sup_cluster_t) (self_id : Z) (sorted : list Z)
    (rem_nodes best : exa_nodeset_t) : option exa_nodeset_t :=
  match fuel with
  | O => None
  | S fuel' =>
      count ← exa_nodeset_count rem_nodes;
      if 0 <? count then
        st ← clique_pass c rem_nodes sorted (EXA_NODESET_EMPTY, EXA_NODESET_EMPTY);
        let result := st.1 in
        count_result ← exa_nodeset_count result;
        count_best ← exa_nodeset_count best;
        let best := if count_best <? count_result then exa_nodeset_copy result else best in
        found ← exa_nodeset_contains result self_id;
        if found : bool then Some result
        else clique_loop fuel' c self_id sorted (exa_nodeset_substract rem_nodes result) best
      else None
  end.

(** [sorted_nodes] has [num_nodes] entries and all of them are sorted: an
    entry that was not filled is read uninitialised, which has no meaning. *)
Definition sup_clique_compute (c : sup_cluster_t) : option exa_nodeset_t :=
  known ← exa_nodeset_foreach (known_nodes c);
  filled ← fill_sorted c known;
  assert! (Z.of_nat (length filled) =? num_nodes c);
  let sorted := qsort (node_mship_cmp c) filled in
  s ← self c;
  clique_loop (S (Z.to_nat EXA_MAX_NODES_NUMBER)) c (n_id (get_node c s)) sorted
    (exa_nodeset_copy (known_nodes c)) EXA_NODESET_EMPTY.
End definitions.

(** ** Specification *)

(** The nodes that [a] says it sees. *)
Definition sees (c : sup_cluster_t) (a : Z) : gset Z :=
  nodes_of (nodes_seen (view (get_node c a))).

(** Every node of [R] sees every node of [R]. *)
Definition is_clique (c : sup_cluster_t) (R : gset Z) : Prop :=
  ∀ a b, a ∈ R → b ∈ R → b ∈ sees c a.

Abbreviation known c := (nodes_of (known_nodes c)).

(** Invariant of a pass over the remaining nodes [rem]. *)
Record pass_inv (c : sup_cluster_t) (rem : exa_nodeset_t)
    (st : exa_nodeset_t * exa_nodeset_t) : Prop := {
  pi_wf_r : nodeset_wf st.1;
  pi_wf_i : nodeset_wf st.2;
  pi_rem : nodes_of st.1 ⊆ nodes_of rem;
  pi_clique : is_clique c (nodes_of st.1);
  pi_impossible : ∀ x, x ∈ nodes_of st.2 ↔
    x ∈ known c ∧ ∃ a, a ∈ nodes_of st.1 ∧ x ∉ sees c a
}.

Section pass.
Context (c : sup_cluster_t) (Hc : cluster_wf c).

Lemma view_of_wf i : valid_node i → nodeset_wf (nodes_seen (view (get_node c i))).
Proof using Hc. intros Hi. apply (cwf_view c Hc i Hi). Qed.

Lemma pass_inv_init rem : nodeset_wf rem → pass_inv c rem (EXA_NODESET_EMPTY, EXA_NODESET_EMPTY).
Proof using.
  clear Hc. intros Hr. split; simpl; rewrite ?nodes_of_empty.
  - apply empty_wf.
  - apply empty_wf.
  - set_solver.
  - intros a b Ha. set_solver.
  - intros x. set_solver.
Qed.

(** What a turn of the inner loop does: the node joins the membership, or it
    is not a remaining node, or a member and it do not see each other (or
    it does not see itself). *)
Lemma clique_step_ok rem st n :
  nodeset_wf rem → nodes_of rem ⊆ known c → n ∈ known c → pass_inv c rem st →
  ∃ st', clique_step c rem st n = Some st' ∧ pass_inv c rem st' ∧
    nodes_of st.1 ⊆ nodes_of st'.1 ∧
    (n ∈ nodes_of rem → n ∈ nodes_of st'.1 ∨ n ∉ sees c n ∨
       ∃ a, a ∈ nodes_of st'.1 ∧ (n ∉ sees c a ∨ a ∉ sees c n)).
Proof using Hc.
  destruct st as [R I]. intros Hr Hrk Hn HI.
  pose proof (nodes_valid _ _ Hn) as Hv. pose proof HI as HI0.
  destruct HI as [HwR HwI HRr HRc HI]. simpl in HwR, HwI, HRr, HRc, HI.
  unfold clique_step. rewrite (contains_spec rem n) by done. cbn [mbind option_bind].
  case_bool_decide as Hin; cbn [negb mbind option_bind]; cycle 1.
  { eexists; split_and!; [done|done|done|]. done. }
  rewrite contains_spec by done. cbn [mbind option_bind]. case_bool_decide as Himp.
  { eexists; split_and!; [done|done|done|]. intros _. right. right.
    apply HI in Himp as (_ & a & ? & ?). exists a. auto. }
  rewrite cluster_node_spec, bool_decide_eq_true_2 by done. cbn [mbind option_bind].
  rewrite (cwf_in c Hc) by done. unfold exa_nodeset_copy.
  destruct (add_spec R n HwR Hv) as (R' & HaR & HwR' & HR').
  rewrite HaR. cbn [mbind option_bind].
  destruct (substract_spec (known_nodes c) (nodes_seen (view (get_node c n))))
    as [HwU HU]; [apply Hc|by apply view_of_wf|].
  fold (sees c n) in HU.
  set (unseen := exa_nodeset_substract _ _) in *.
  destruct (intersect_spec unseen R' HwU HwR') as [HwX HX].
  rewrite is_empty_spec, HX, HU, HR' by done.
  assert (HRk : nodes_of R ⊆ known c) by set_solver.
  case_bool_decide as Hemp; cycle 1.
  { eexists; split_and!; [done|done|done|]. intros _. right. simpl.
    apply set_choose_L in Hemp as [x Hx].
    destruct (decide (x = n)) as [->|Hne]; [left; set_solver|].
    right. exists x. split; [set_solver|]. right. set_solver. }
  simpl. destruct (sum_spec I unseen HwI HwU) as [HwS HS].
  eexists; split; [done|]. split; [|split; [set_solver|intros _; left; set_solver]].
  split; simpl; rewrite ?HR'; try done.
  - set_solver.
  - intros a b Ha Hb. rewrite elem_of_union, elem_of_singleton in Ha, Hb.
    destruct Ha as [->|Ha].
    + destruct (decide (b ∈ sees c n)); [done|]. exfalso.
      assert (b ∈ (∅ : gset Z)); [|set_solver]. rewrite <- Hemp. set_solver.
    + destruct Hb as [->|Hb]; [|by apply HRc].
      destruct (decide (n ∈ sees c a)); [done|]. exfalso. apply Himp, HI. eauto.
  - intros x. rewrite HS, HU, elem_of_union, elem_of_difference, HI. split.
    + intros [(Hx & a & Ha & Hxa)|[Hx Hxn]]; (split; [done|]).
      * exists a. set_solver.
      * exists n. set_solver.
    + intros (Hx & a & Ha & Hxa). rewrite elem_of_union, elem_of_singleton in Ha.
      destruct Ha as [->|Ha]; [right|left]; eauto.
Qed.

Lemma clique_pass_ok rem l st :
  nodeset_wf rem → nodes_of rem ⊆ known c → (∀ n, n ∈ l → n ∈ known c) → pass_inv c rem st →
  ∃ st', clique_pass c rem l st = Some st' ∧ pass_inv c rem st' ∧
    nodes_of st.1 ⊆ nodes_of st'.1 ∧
    (∀ n, n ∈ l → n ∈ nodes_of rem → n ∈ nodes_of st'.1 ∨ n ∉ sees c n ∨
       ∃ a, a ∈ nodes_of st'.1 ∧ (n ∉ sees c a ∨ a ∉ sees c n)).
Proof using Hc.
  intros Hr Hrk. revert st. induction l as [|m l IH]; intros st Hl Hi; simpl.
  { eexists; split_and!; try done. set_solver. }
  destruct (clique_step_ok rem st m) as (st1 & -> & Hi1 & Hsub1 & Hm);
    [done|done|set_solver|done|]. cbn [mbind option_bind].
  destruct (IH st1) as (st2 & -> & Hi2 & Hsub2 & Hm2); [set_solver|done|].
  exists st2. split_and!; try done; [set_solver|].
  intros n Hnl Hn. apply elem_of_cons in Hnl as [->|Hnl]; [|by apply Hm2].
  destruct (Hm Hn) as [?|[?|(a & ? & ?)]]; [left; set_solver|right; by left|].
  right; right. exists a. split; [set_solver|done].
Qed.
End pass.

(** ** The loop *)

Definition mutual (c : sup_cluster_t) (a b : Z) : Prop := a ∈ sees c b ∧ b ∈ sees c a.

(** A clique among the nodes [rem] that no other node of [rem] can join. *)
Record maximal_in (c : sup_cluster_t) (rem R : gset Z) : Prop := {
  mx_sub : R ⊆ rem;
  mx_nonempty : R ≠ ∅;
  mx_clique : is_clique c R;
  mx_max : ∀ n, n ∈ rem → n ∉ R → ∃ a, a ∈ R ∧ ¬ mutual c a n
}.

(** [R] is what the outer loop finds after it has taken away [blocks]. *)
Fixpoint peeled (c : sup_cluster_t) (rem : gset Z) (blocks : list (gset Z)) (R : gset Z) : Prop :=
  match blocks with
  | [] => maximal_in c rem R
  | B :: blocks' => maximal_in c rem B ∧ peeled c (rem ∖ B) blocks' R
  end.

Lemma peeled_maximal c rem blocks R : peeled c rem blocks R → ∃ rem', rem' ⊆ rem ∧ maximal_in c rem' R.
Proof.
  revert rem. induction blocks as [|B blocks IH]; intros rem; [by exists rem|]. intros [_ (rem' & Hr & Hm)%IH].
  exists rem'. split; [set_solver|done].
Qed.

(** A node that all the others see, and that sees them, is in the first clique. *)
Lemma peeled_universal c rem blocks R s :
  peeled c rem blocks R → Forall (λ B, s ∉ B) blocks → s ∈ rem → (∀ n, n ∈ rem → mutual c s n) → maximal_in c rem R.
Proof.
  destruct blocks as [|B blocks]; [done|]. intros [HB _] [Hs _]%Forall_cons Hin Hm.
  destruct (mx_max _ _ _ HB s Hin Hs) as (a & Ha & Hna). destruct Hna, (Hm a (mx_sub _ _ _ HB a Ha)). by split.
Qed.

Section loop.
Context (c : sup_cluster_t) (Hc : cluster_wf c).
Context (Hrefl : ∀ n, n ∈ known c → n ∈ sees c n).

(** A first pass over remaining nodes always integrates one of them. *)
Lemma pass_nonempty rem l st' :
  nodeset_wf rem → nodes_of rem ⊆ known c → (∀ n, n ∈ l ↔ n ∈ known c) →
  nodes_of rem ≠ ∅ →
  clique_pass c rem l (EXA_NODESET_EMPTY, EXA_NODESET_EMPTY) = Some st' →
  nodes_of st'.1 ≠ ∅.
Proof using Hc Hrefl.
  intros Hr Hrk Hl Hne Hp.
  destruct (clique_pass_ok c Hc rem l (EXA_NODESET_EMPTY, EXA_NODESET_EMPTY))
    as (st & Hp' & _ & _ & Hm); [done|done|by intros ? ?%Hl|by apply pass_inv_init|].
  simplify_eq. apply set_choose_L in Hne as [n Hn]. intros He.
  destruct (Hm n) as [?|[Hnn|(a & ? & _)]]; [apply Hl; auto|done|set_solver| |set_solver].
  apply Hnn, Hrefl. auto.
Qed.

(** One turn of the outer loop. *)
Lemma clique_loop_S fuel i l rem best R I :
  valid_node i → nodes_of rem ≠ ∅ →
  clique_pass c rem l (EXA_NODESET_EMPTY, EXA_NODESET_EMPTY) = Some (R, I) →
  ∃ best', clique_loop (S fuel) c i l rem best =
    if bool_decide (i ∈ nodes_of R) then Some R
    else clique_loop fuel c i l (exa_nodeset_substract rem R) best'.
Proof using.
  clear Hc Hrefl. intros Hi Hne Hp. eexists. cbn [clique_loop].
  rewrite (count_spec rem). returned.
  assert (size (nodes_of rem) ≠ 0)%nat as Hsz by (intros E%size_empty_inv; set_solver).
  replace (0 <? Z.of_nat (size (nodes_of rem))) with true by lia. cbv iota.
  rewrite Hp. returned. cbn [fst].
  rewrite (count_spec R). returned. rewrite (count_spec best). returned.
  rewrite contains_spec by done. returned. reflexivity.
Qed.

Lemma clique_loop_ok fuel i l rem best :
  nodeset_wf rem → nodes_of rem ⊆ known c → (∀ n, n ∈ l ↔ n ∈ known c) →
  i ∈ nodes_of rem → (size (nodes_of rem) < fuel)%nat →
  ∃ r blocks, clique_loop fuel c i l rem best = Some r ∧
    nodeset_wf r ∧ i ∈ nodes_of r ∧ Forall (λ B, i ∉ B) blocks ∧ peeled c (nodes_of rem) blocks (nodes_of r).
Proof using Hc Hrefl.
  revert rem best. induction fuel as [|fuel IH]; intros rem best Hr Hrk Hl Hi Hf; [lia|].
  assert (Hne : nodes_of rem ≠ ∅) by set_solver.
  destruct (clique_pass_ok c Hc rem l (EXA_NODESET_EMPTY, EXA_NODESET_EMPTY))
    as ([R I] & Hp & [HwR HwI HRr HRc _] & _ & Hm);
    [done|done|by intros ? ?%Hl|by apply pass_inv_init|].
  pose proof (pass_nonempty rem l _ Hr Hrk Hl Hne Hp) as Hrn. cbn [fst snd] in *.
  destruct (clique_loop_S fuel i l rem best R I) as [best' ->]; [by eauto with exa|done|done|].
  assert (Hmax : maximal_in c (nodes_of rem) (nodes_of R)).
  { split; try done. intros n Hn HnR. destruct (Hm n) as [?|[Hnn|(a & Ha & Hna)]]; [by apply Hl; auto|done|done| |].
    - exfalso. apply Hnn, Hrefl. auto.
    - exists a. split; [done|]. intros [??]. tauto. }
  case_bool_decide as Hin; [by exists R, []|].
  destruct (substract_spec rem R Hr HwR) as [Hws Hs].
  assert (size (nodes_of rem ∖ nodes_of R) < size (nodes_of rem))%nat as Hlt.
  { apply set_choose_L in Hrn as [x Hx]. apply subset_size. set_solver. }
  destruct (IH (exa_nodeset_substract rem R) best')
    as (r & blocks & -> & Hwr & Hir & Hbl & Hpe); rewrite ?Hs; try done; [set_solver..|lia|].
  exists r, (nodes_of R :: blocks). rewrite Hs in Hpe. split_and!; try done. by constructor.
Qed.

(** The local node only decides which pass stops the loop. *)
Lemma clique_loop_self fuel i j l rem best best' r :
  nodeset_wf rem → nodes_of rem ⊆ known c → (∀ n, n ∈ l ↔ n ∈ known c) →
  i ∈ nodes_of rem → j ∈ nodes_of r → (size (nodes_of rem) < fuel)%nat →
  clique_loop fuel c i l rem best = Some r →
  clique_loop fuel c j l rem best' = Some r.
Proof using Hc Hrefl.
  revert rem best best'.
  induction fuel as [|fuel IH]; intros rem best best' Hr Hrk Hl Hi Hj Hf; [lia|].
  assert (Hne : nodes_of rem ≠ ∅) by set_solver.
  destruct (clique_pass_ok c Hc rem l (EXA_NODESET_EMPTY, EXA_NODESET_EMPTY))
    as ([R I] & Hp & [HwR HwI HRr HRc _] & _ & _);
    [done|done|by intros ? ?%Hl|by apply pass_inv_init|].
  pose proof (pass_nonempty rem l _ Hr Hrk Hl Hne Hp) as Hrn. cbn [fst snd] in *.
  destruct (clique_loop_S fuel i l rem best R I) as [best1 ->]; [by eauto with exa|done|done|].
  destruct (clique_loop_S fuel j l rem best' R I) as [best2 ->]; [by eauto with exa|done|done|].
  case_bool_decide as Hin.
  { intros [= ->]. by rewrite bool_decide_eq_true_2. }
  destruct (substract_spec rem R Hr HwR) as [Hws Hs].
  assert (size (nodes_of rem ∖ nodes_of R) < size (nodes_of rem))%nat as Hlt.
  { apply set_choose_L in Hrn as [x Hx]. apply subset_size. set_solver. }
  intros Hloop.
  edestruct (clique_loop_ok fuel i l (exa_nodeset_substract rem R))
    as (r' & bl & Hr' & _ & _ & _ & (rem' & Hsub & Hrr%mx_sub)%peeled_maximal); rewrite ?Hs; try done; [set_solver..|lia|].
  rewrite Hr' in Hloop. simplify_eq. rewrite Hs in Hsub.
  rewrite bool_decide_eq_false_2 by set_solver.
  eapply IH; rewrite ?Hs; try done; [set_solver..|lia].
Qed.
End loop.

(** ** Sorting the nodes *)

Section sorting.
Context (c : sup_cluster_t) (Hc : cluster_wf c).

Lemma fill_sorted_ok l :
  (∀ n, n ∈ l → n ∈ known c) → fill_sorted c l = Some l.
Proof using Hc.
  induction l as [|n l IH]; intros Hl; [done|]. cbn [fill_sorted].
  assert (Hn : n ∈ known c) by (apply Hl; left).
  pose proof (nodes_valid _ _ Hn) as Hv.
  rewrite cluster_node_spec, bool_decide_eq_true_2 by done. do 2 returned.
  rewrite IH by (intros; apply Hl; by right). returned.
  by rewrite cluster_defined, bool_decide_eq_true_2, (cwf_in c Hc) by done.
Qed.

(** The comparison is the lexicographic order on (nodes seen, identifier). *)
Lemma node_mship_cmp_spec a b :
  a ∈ known c → b ∈ known c →
  node_mship_cmp c a b =
    let d := Z.of_nat (size (sees c a)) - Z.of_nat (size (sees c b)) in
    if d =? 0 then a - b else d.
Proof using Hc.
  intros Ha Hb. pose proof (nodes_valid _ _ Ha) as Hva.
  pose proof (nodes_valid _ _ Hb) as Hvb. unfold node_mship_cmp.
  rewrite !cluster_node_spec, !bool_decide_eq_true_2 by done. do 4 returned.
  rewrite (count_spec (nodes_seen (view (get_node c a)))). returned.
  rewrite (count_spec (nodes_seen (view (get_node c b)))). returned. fold (sees c a) (sees c b).
  simpl. destruct (_ =? 0); simpl; [|done].
  apply i32_sub. unfold valid_node, EXA_MAX_NODES_NUMBER in *. lia.
Qed.

Abbreviation le := (cmp_le (node_mship_cmp c)).

Lemma cmp_total a b : a ∈ known c → b ∈ known c → le a b ∨ le b a.
Proof using Hc.
  intros. unfold cmp_le. rewrite !node_mship_cmp_spec by done. simpl.
  repeat case_if; lia.
Qed.

Lemma cmp_trans x y z :
  x ∈ known c → y ∈ known c → z ∈ known c → le x y → le y z → le x z.
Proof using Hc.
  intros Hx Hy Hz. unfold cmp_le. rewrite !node_mship_cmp_spec by done. simpl.
  repeat case_if; lia.
Qed.

Lemma cmp_antisym a b : a ∈ known c → b ∈ known c → le a b → le b a → a = b.
Proof using Hc.
  intros. unfold cmp_le in *. rewrite !node_mship_cmp_spec in * by done. simpl in *.
  revert H1 H2. repeat case_if; lia.
Qed.

Lemma sorted_nodes_sorted (Q : Qsort) :
  StronglySorted le (qsort (node_mship_cmp c) (nodes_list (known_nodes c))).
Proof using Hc.
  apply qsort_sorted; intros *; rewrite !elem_of_nodes_list;
    [apply cmp_total|apply cmp_trans].
Qed.

Lemma elem_of_sorted_nodes (Q : Qsort) n :
  n ∈ qsort (node_mship_cmp c) (nodes_list (known_nodes c)) ↔ n ∈ known c.
Proof using. by rewrite qsort_perm, elem_of_nodes_list. Qed.

(** The computation, once the nodes are sorted. *)
Lemma clique_compute_eq (Q : Qsort) s :
  self c = Some s → s ∈ known c →
  sup_clique_compute c =
  clique_loop (S (Z.to_nat EXA_MAX_NODES_NUMBER)) c s
    (qsort (node_mship_cmp c) (nodes_list (known_nodes c))) (known_nodes c) EXA_NODESET_EMPTY.
Proof using Hc.
  intros Hs Hin. unfold sup_clique_compute. rewrite foreach_spec. returned.
  rewrite fill_sorted_ok by (intros ?; by rewrite elem_of_nodes_list). returned.
  rewrite length_nodes_list, (cwf_num c Hc), Z.eqb_refl. unfold exa_assert.
  rewrite Hs. returned. by rewrite (cwf_in c Hc) by done.
Qed.

Lemma known_fuel : (size (known c) < S (Z.to_nat EXA_MAX_NODES_NUMBER))%nat.
Proof using. pose proof (size_valid _ (nodes_valid (known_nodes c))). lia. Qed.
End sorting.

(** Two instances of the supervisor that know the same nodes with the same
    seen sets (their other information may differ, the local node does). *)
Definition same_links (c1 c2 : sup_cluster_t) : Prop :=
  known_nodes c1 = known_nodes c2 ∧
  ∀ n, n ∈ known c1 → nodes_seen (view (get_node c1 n)) = nodes_seen (view (get_node c2 n)).

Section same_links.
Context (c1 c2 : sup_cluster_t) (H1 : cluster_wf c1) (H2 : cluster_wf c2).
Context (Hsame : same_links c1 c2).

Lemma same_links_sees n : n ∈ known c1 → sees c1 n = sees c2 n.
Proof using Hsame. intros Hn. unfold sees. by rewrite (proj2 Hsame n Hn). Qed.

Lemma same_links_step rem st n :
  n ∈ known c1 → clique_step c1 rem st n = clique_step c2 rem st n.
Proof using H1 H2 Hsame.
  intros Hn. pose proof (nodes_valid _ _ Hn) as Hv.
  assert (Hn2 : n ∈ known c2) by (by rewrite <- (proj1 Hsame)).
  unfold clique_step. destruct st as [R I].
  rewrite !cluster_node_spec, !bool_decide_eq_true_2 by done. rewrite !bind_returned.
  cbv beta. rewrite (proj2 Hsame n Hn), (proj1 Hsame), (cwf_in c1 H1), (cwf_in c2 H2) by done.
  reflexivity.
Qed.

Lemma same_links_pass rem l st :
  (∀ n, n ∈ l → n ∈ known c1) → clique_pass c1 rem l st = clique_pass c2 rem l st.
Proof using H1 H2 Hsame.
  revert st. induction l as [|n l IH]; intros st Hl; [done|]. cbn [clique_pass].
  rewrite same_links_step by (apply Hl; left).
  destruct (clique_step c2 rem st n); [|by rewrite !bind_failed]. rewrite !bind_returned. apply IH. intros. apply Hl. by right.
Qed.

Lemma same_links_loop fuel i l rem best :
  (∀ n, n ∈ l → n ∈ known c1) →
  clique_loop fuel c1 i l rem best = clique_loop fuel c2 i l rem best.
Proof using H1 H2 Hsame.
  intros Hl. revert rem best. induction fuel as [|fuel IH]; intros rem best; [done|].
  cbn [clique_loop]. rewrite same_links_pass by done.
  rewrite (count_spec rem). rewrite !bind_returned. cbv beta.
  destruct (0 <? _); [|reflexivity].
  destruct (clique_pass c2 rem l (EXA_NODESET_EMPTY, EXA_NODESET_EMPTY)) as [st|];
    [|by rewrite !bind_failed].
  rewrite !bind_returned. cbv beta zeta.
  rewrite (count_spec st.1), !bind_returned. cbv beta.
  rewrite (count_spec best), !bind_returned. cbv beta.
  destruct (exa_nodeset_contains st.1 i) as [[]|]; rewrite ?bind_returned, ?bind_failed;
    [done|apply IH|done].
Qed.

(** The sorted node list does not depend on the implementation of [qsort]. *)
Lemma same_links_sorted (Q1 Q2 : Qsort) :
  @qsort Q1 _ (node_mship_cmp c1) (nodes_list (known_nodes c1)) =
  @qsort Q2 _ (node_mship_cmp c2) (nodes_list (known_nodes c2)).
Proof using H1 H2 Hsame.
  assert (Hcmp : ∀ a b, a ∈ known c1 → b ∈ known c1 →
    node_mship_cmp c1 a b = node_mship_cmp c2 a b).
  { intros a b Ha Hb. rewrite !node_mship_cmp_spec by (done || by rewrite <- (proj1 Hsame)).
    by rewrite !same_links_sees. }
  apply (StronglySorted_unique_strong (cmp_le (node_mship_cmp c1))).
  - intros a b. rewrite !elem_of_sorted_nodes. rewrite <- (proj1 Hsame).
    intros. by apply (cmp_antisym c1).
  - by apply sorted_nodes_sorted.
  - pose proof (sorted_nodes_sorted c2 H2 Q2) as Hs2.
    assert (Hel : ∀ n, n ∈ @qsort Q2 _ (node_mship_cmp c2) (nodes_list (known_nodes c2)) →
      n ∈ known c1) by (intros n; by rewrite elem_of_sorted_nodes, (proj1 Hsame)).
    revert Hs2 Hel. generalize (@qsort Q2 _ (node_mship_cmp c2) (nodes_list (known_nodes c2))).
    induction 1 as [|x l Hs IH Hx]; intros Hel; constructor.
    + apply IH. intros. apply Hel. by right.
    + rewrite Forall_forall in Hx |- *. intros y Hy. unfold cmp_le.
      rewrite Hcmp by (apply Hel; (by left) || by right). by apply Hx.
  - rewrite !qsort_perm. by rewrite (proj1 Hsame).
Qed.
End same_links.

(** ** Properties *)

(** C14: [sup_clique_compute] terminates without failing its assertion and
    returns a clique of the local node. When every known node sees itself and
    the local node is known, the result contains the local node and is made of
    known nodes that all see each other in both directions.  It is what is left
    of the known nodes after cliques without the local node were taken away one
    after the other, and each of these cliques and the result are maximal among
    the nodes that remained: every other remaining node fails to see a member
    or to be seen by it.  In particular, when the local node and every known
    node see each other, no known node can be added to the result. *)
Theorem clique_compute_correct (Q : Qsort) c s :
  cluster_wf c → self c = Some s → s ∈ known c →
  (∀ n, n ∈ known c → n ∈ sees c n) →
  ∃ r blocks, sup_clique_compute c = Some r ∧ nodeset_wf r ∧
    s ∈ nodes_of r ∧ nodes_of r ⊆ known c ∧ is_clique c (nodes_of r) ∧
    Forall (λ B, s ∉ B) blocks ∧ peeled c (known c) blocks (nodes_of r) ∧
    ((∀ n, n ∈ known c → mutual c s n) → maximal_in c (known c) (nodes_of r)).
Proof.
  intros Hc Hs Hin Hrefl. rewrite (clique_compute_eq c Hc Q s Hs Hin).
  edestruct (clique_loop_ok c Hc Hrefl) as (r & blocks & E & Hw & Hi & Hb & Hp);
    [apply Hc|reflexivity|apply elem_of_sorted_nodes|exact Hin|apply known_fuel|].
  destruct (peeled_maximal _ _ _ _ Hp) as (rem' & Hsub & Hm). exists r, blocks.
  pose proof (mx_sub _ _ _ Hm) as Hr.
  split; [exact E|]. split; [exact Hw|]. split; [exact Hi|]. split; [by transitivity rem'|]. split; [exact (mx_clique _ _ _ Hm)|].
  split; [exact Hb|]. split; [exact Hp|]. intros Hu. exact (peeled_universal c _ blocks _ s Hp Hb Hin Hu).
Qed.

(** Nodes 0, 1 and 70 are known; 0 and 1 see each other, 70 only sees itself
    and 1, and nobody sees 70. *)
Definition clique_example (s : Z) : sup_cluster_t :=
  with_self
    (add_seen
       (add_seen (add_seen sup_cluster_init 0 (seeing (mk_nodeset [3; 0]) 2))
          1 (seeing (mk_nodeset [3; 0]) 2))
       70 (seeing (mk_nodeset [2; 64]) 71)) s.

Lemma clique_example_wf s : cluster_wf (clique_example s).
Proof.
  apply with_self_wf. repeat (apply add_seen_wf;
    [|vm_compute; reflexivity|vm_compute; reflexivity|apply seeing_wf; try done;
      vm_compute; reflexivity]).
  apply cluster_init_wf.
Qed.

Lemma clique_example_refl s n :
  n ∈ known (clique_example s) → n ∈ sees (clique_example s) n.
Proof.
  assert (H : bool_decide (set_Forall (λ n, n ∈ sees (clique_example s) n)
    (known (clique_example s))) = true) by (vm_compute; reflexivity).
  apply bool_decide_eq_true in H. apply H.
Qed.

Lemma clique_example_known s n :
  bool_decide (n ∈ known (clique_example 0)) = true → n ∈ known (clique_example s).
Proof. intros H. by apply bool_decide_eq_true in H. Qed.

Lemma clique_compute_correct_witness :
  ∃ r, @sup_clique_compute isort_qsort (clique_example 0) = Some r ∧ nodes_of r = {[0; 1]} ∧
    is_clique (clique_example 0) (nodes_of r).
Proof.
  destruct (clique_compute_correct isort_qsort (clique_example 0) 0)
    as (r & blocks & Hr & _ & _ & _ & Hcl & _).
  - apply clique_example_wf.
  - reflexivity.
  - apply clique_example_known. vm_compute. reflexivity.
  - apply clique_example_refl.
  - exists r. split; [exact Hr|]. split; [|exact Hcl].
    assert (E : @sup_clique_compute isort_qsort (clique_example 0) = Some (mk_nodeset [3; 0]))
      by (vm_compute; reflexivity).
    rewrite E in Hr. injection Hr as <-. vm_compute. reflexivity.
Defined.

(** C22: agreement on cliques. When two instances of the supervisor have the
    same information on who sees whom, and the second one is in the clique
    the first one computes, then the second one computes the same clique,
    even if their [qsort] implementations differ. *)
Theorem clique_agreement (Q1 Q2 : Qsort) c1 c2 s1 s2 r :
  cluster_wf c1 → cluster_wf c2 → same_links c1 c2 →
  self c1 = Some s1 → s1 ∈ known c1 → self c2 = Some s2 → s2 ∈ known c2 →
  (∀ n, n ∈ known c1 → n ∈ sees c1 n) →
  @sup_clique_compute Q1 c1 = Some r → s2 ∈ nodes_of r →
  @sup_clique_compute Q2 c2 = Some r.
Proof.
  intros H1 H2 Hsame Hs1 Hin1 Hs2 Hin2 Hrefl Hr Hs2r.
  rewrite (clique_compute_eq c1 H1 Q1 s1 Hs1 Hin1) in Hr.
  rewrite (clique_compute_eq c2 H2 Q2 s2 Hs2 Hin2).
  rewrite <- (same_links_sorted c1 c2 H1 H2 Hsame Q1 Q2), <- (proj1 Hsame).
  rewrite <- (same_links_loop c1 c2 H1 H2 Hsame) by (intros ?; apply elem_of_sorted_nodes).
  eapply (clique_loop_self c1 H1 Hrefl _ s1); [apply H1|reflexivity
    |apply elem_of_sorted_nodes|exact Hin1|exact Hs2r|apply known_fuel|exact Hr].
Qed.

Lemma clique_agreement_witness :
  @sup_clique_compute isort_qsort (clique_example 1) = Some (mk_nodeset [3; 0]).
Proof.
  apply (clique_agreement isort_qsort isort_qsort (clique_example 0) (clique_example 1) 0 1).
  - apply clique_example_wf.
  - apply clique_example_wf.
  - split; reflexivity.
  - reflexivity.
  - apply clique_example_known. vm_compute. reflexivity.
  - reflexivity.
  - apply clique_example_known. vm_compute. reflexivity.
  - apply clique_example_refl.
  - vm_compute. reflexivity.
  - apply (bool_decide_eq_true_1 (1 ∈ nodes_of (mk_nodeset [3; 0]))). vm_compute. reflexivity.
Defined.
