(* ===== verification/Csupd.v ===== *)
(** * The cluster supervision daemon

    Model of [csupd/src/exa_csupd.c] and of the messages it exchanges
    ([csupd/src/sup_ping.h], [csupd/src/sup_examsg.c]): the state of one
    instance of the daemon, the handlers of its main loop, the loop itself as
    a function of what it receives, and a system of several instances that
    exchange their pings over a network that can lose, duplicate, delay and
    reorder them.

    Pings are handed to the daemon by Examsg, which is outside of the model:
    a turn of the loop is given what [sup_recv_ping] returned. What the daemon
    hands to Examsg (the pings it sends and the memberships it delivers to
    Evmgr) is recorded in its state. Logging is not modelled. *)

From S2P Require Import Prelude Nodeset SupCluster SupClique.
From stdpp Require Import options.

(** ** State *)

Record sup_ping_t := mk_ping {
  sender : Z;
  p_incarnation : Z;
  p_view : sup_view_t
}.

(** The global variables of the daemon. [me] is the pointer [self] (the index
    of the local node in the table); [delivered] and [sent] are the
    memberships given to [sup_deliver] and the pings given to [sup_send_ping],
    latest first. *)
Record csupd_t := mk_csupd {
  cluster : sup_cluster_t;
  me : Z;
  self_view_changed : bool;
  other_view_changed : bool;
  accepted_clique : exa_nodeset_t;
  do_ping : bool;
  delivered : list (Z * exa_nodeset_t);
  sent : list sup_ping_t
}.

Definition set_cluster (st : csupd_t) (c : sup_cluster_t) : csupd_t :=
  mk_csupd c (me st) (self_view_changed st) (other_view_changed st) (accepted_clique st)
    (do_ping st) (delivered st) (sent st).
Definition set_changed (st : csupd_t) (b1 b2 : bool) : csupd_t :=
  mk_csupd (cluster st) (me st) b1 b2 (accepted_clique st) (do_ping st) (delivered st) (sent st).
Definition set_accepted_clique (st : csupd_t) (s : exa_nodeset_t) : csupd_t :=
  mk_csupd (cluster st) (me st) (self_view_changed st) (other_view_changed st) s
    (do_ping st) (delivered st) (sent st).
Definition set_do_ping (st : csupd_t) (b : bool) : csupd_t :=
  mk_csupd (cluster st) (me st) (self_view_changed st) (other_view_changed st)
    (accepted_clique st) b (delivered st) (sent st).

Definition node (st : csupd_t) (i : Z) : sup_node_t := get_node (cluster st) i.
Definition self_node (st : csupd_t) : sup_node_t := node st (me st).
Definition self_view (st : csupd_t) : sup_view_t := view (self_node st).

Definition set_view (n : sup_node_t) (v : sup_view_t) : sup_node_t :=
  mk_node (n_id n) (incarnation n) v (last_seen n).
Definition set_last_seen (n : sup_node_t) (t : Z) : sup_node_t :=
  mk_node (n_id n) (incarnation n) (view n) t.
Definition set_incarnation (n : sup_node_t) (i : Z) : sup_node_t :=
  mk_node (n_id n) i (view n) (last_seen n).
Definition put_node (st : csupd_t) (i : Z) (n : sup_node_t) : csupd_t :=
  set_cluster st (set_node (cluster st) i n).
Definition set_self_view (st : csupd_t) (v : sup_view_t) : csupd_t :=
  put_node st (me st) (set_view (self_node st) v).

(** ** Handlers *)

Section handlers.
Context `{!Qsort}.
(** The options of the daemon, in seconds. *)
Context (ping_period ping_timeout : Z).

Definition self_is_coord (st : csupd_t) : bool :=
  coord (self_view st) =? n_id (self_node st).

Definition self_sees (st : csupd_t) (i : Z) : option bool :=
  exa_nodeset_contains (nodes_seen (self_view st)) (n_id (node st i)).

Definition self_highest_gen (st : csupd_t) : Z :=
  Z.max (accepted (self_view st)) (committed (self_view st)).

Definition set_state (st : csupd_t) (new_state : sup_state_t) : csupd_t :=
  set_self_view st (set_v_state (self_view st) new_state).

Definition mark_alive (st : csupd_t) (i : Z) : option csupd_t :=
  let st := put_node st i (set_last_seen (node st i) 0) in
  seen ← self_sees st i;
  if negb seen then
    v ← sup_view_add_node (self_view st) (n_id (node st i));
    Some (set_changed (set_self_view st v) true (other_view_changed st))
  else Some st.

Definition mark_dead (st : csupd_t) (i : Z) : option csupd_t :=
  assert! (negb (n_id (node st i) =? n_id (self_node st)));
  let st := put_node st i (set_last_seen (node st i) ping_timeout) in
  let st := put_node st i
    (set_view (node st i) (set_v_state (view (node st i)) SUP_STATE_UNKNOWN)) in
  seen ← self_sees st i;
  if seen : bool then
    v ← sup_view_del_node (self_view st) (n_id (node st i));
    Some (set_changed (set_self_view st v) true (other_view_changed st))
  else Some st.

(** Body of the loop of [update_last_seen]. *)
Definition update_last_seen_node (st : csupd_t) (node_id : Z) : option csupd_t :=
  p ← sup_cluster_node (cluster st) node_id;
  match p with
  | None => Some st
  | Some i =>
      if i =? me st then Some st
      else
        seen ← self_sees st i;
        if seen : bool then
          let st := put_node st i
            (set_last_seen (node st i) (last_seen (node st i) + ping_period)) in
          if ping_timeout <=? last_seen (node st i) then mark_dead st i else Some st
        else Some st
  end.

(** [for (node_id = 0; node_id < self->view.num_seen; node_id++)]; the bound
    is read again at every turn. [None] when out of fuel. *)
Fixpoint update_last_seen_loop (fuel : nat) (st : csupd_t) (node_id : Z) : option csupd_t :=
  match fuel with
  | O => None
  | S fuel' =>
      if node_id <? num_seen (self_view st) then
        st ← update_last_seen_node st node_id;
        update_last_seen_loop fuel' st (node_id + 1)
      else Some st
  end.

Definition update_last_seen (st : csupd_t) : option csupd_t :=
  st ← update_last_seen_loop (S (Z.to_nat EXA_MAX_NODES_NUMBER)) st 0;
  assert! (last_seen (self_node st) =? 0);
  Some st.

(** The loop that [clique_sees_self_as_coord] and [clique_has_accepted] share:
    the nodes of the clique below [num_seen] are all seen, have the same
    clique, and satisfy [test]. *)
Fixpoint clique_all_loop (test : sup_node_t → bool) (st : csupd_t) (ids : list Z)
    : option bool :=
  match ids with
  | [] => Some true
  | node_id :: ids' =>
      in_clique ← exa_nodeset_contains (clique (self_view st)) node_id;
      if in_clique : bool then
        p ← sup_cluster_node (cluster st) node_id;
        i ← p;
        seen ← self_sees st i;
        if negb seen then Some false
        else if negb (exa_nodeset_equals (clique (view (node st i))) (clique (self_view st)))
        then Some false
        else if negb (test (node st i)) then Some false
        else clique_all_loop test st ids'
      else clique_all_loop test st ids'
  end.

Definition clique_sees_self_as_coord (st : csupd_t) : option bool :=
  clique_all_loop (λ n, coord (view n) =? coord (self_view st)) st
    (seqZ 0 (num_seen (self_view st))).

Definition clique_has_accepted (st : csupd_t) (gen : Z) : option bool :=
  clique_all_loop (λ n, accepted (view n) =? gen) st
    (seqZ 0 (num_seen (self_view st))).

Fixpoint next_gen_loop (st : csupd_t) (ids : list Z) (max_gen : Z) : option Z :=
  match ids with
  | [] => Some max_gen
  | node_id :: ids' =>
      p ← sup_cluster_node (cluster st) node_id;
      match p with
      | None => next_gen_loop st ids' max_gen
      | Some i =>
          seen ← self_sees st i;
          next_gen_loop st ids'
            (if seen : bool
             then Z.max max_gen (Z.max (accepted (view (node st i))) (committed (view (node st i))))
             else max_gen)
      end
  end.

Definition next_gen (st : csupd_t) : option Z :=
  max_gen ← next_gen_loop st (seqZ 0 (num_seen (self_view st))) 0;
  Some (u32 (max_gen + 1)).

Definition accept_clique (st : csupd_t) (gen : Z) : csupd_t :=
  let st := set_state st SUP_STATE_ACCEPT in
  let st := set_self_view st (set_accepted (self_view st) gen) in
  set_accepted_clique st (exa_nodeset_copy (clique (self_view st))).

Definition add_delivered (st : csupd_t) (gen : Z) (mship : exa_nodeset_t) : csupd_t :=
  mk_csupd (cluster st) (me st) (self_view_changed st) (other_view_changed st)
    (accepted_clique st) (do_ping st) ((gen, mship) :: delivered st) (sent st).

(** [taken]: [examsgSendNoBlock] returns the size of the message, that is, the
    mailbox of the event manager takes it. *)
Definition sup_deliver (taken : bool) (st : csupd_t) (gen : Z) (mship : exa_nodeset_t) : option csupd_t :=
  let msg := (gen, exa_nodeset_copy mship) in
  assert! taken;
  Some (add_delivered st msg.1 msg.2).

Definition commit_clique (taken : bool) (st : csupd_t) : option csupd_t :=
  seen ← self_sees st (me st);
  assert! seen;
  st ← sup_deliver taken st (accepted (self_view st)) (accepted_clique st);
  let st := set_state st SUP_STATE_COMMIT in
  Some (set_self_view st (set_committed (self_view st) (accepted (self_view st)))).

(** The commit rule of the nodes that are not coordinators. *)
Definition commit_seen (st : csupd_t) (ping : sup_ping_t) : bool :=
  exa_nodeset_equals (clique (p_view ping)) (accepted_clique st) &&
  (committed (p_view ping) =? accepted (self_view st)) &&
  (committed (self_view st) <? committed (p_view ping)).

Definition state_change_process_ping (taken : bool) (st : csupd_t) (ping : sup_ping_t) : option csupd_t :=
  match v_state (p_view ping) with
  | SUP_STATE_UNKNOWN => Some st
  | SUP_STATE_CHANGE =>
      if self_is_coord st then
        ok ← clique_sees_self_as_coord st;
        if ok : bool then
          gen ← next_gen st;
          Some (accept_clique st gen)
        else Some st
      else Some st
  | SUP_STATE_ACCEPT =>
      if negb (self_is_coord st) then
        if (sender ping =? coord (self_view st)) &&
           exa_nodeset_equals (clique (p_view ping)) (clique (self_view st)) &&
           (self_highest_gen st <? accepted (p_view ping))
        then Some (accept_clique st (accepted (p_view ping)))
        else Some st
      else Some st
  | SUP_STATE_COMMIT =>
      if negb (self_is_coord st) then
        if commit_seen st ping then commit_clique taken st else Some st
      else Some st
  end.

Definition state_accept_process_ping (taken : bool) (st : csupd_t) (ping : sup_ping_t) : option csupd_t :=
  match v_state (p_view ping) with
  | SUP_STATE_UNKNOWN => Some st
  | SUP_STATE_CHANGE => Some st
  | SUP_STATE_ACCEPT =>
      if self_is_coord st then
        if (coord (p_view ping) =? n_id (self_node st)) &&
           (accepted (p_view ping) =? accepted (self_view st))
        then
          ok ← clique_has_accepted st (accepted (self_view st));
          if ok : bool then commit_clique taken st else Some st
        else Some st
      else Some st
  | SUP_STATE_COMMIT =>
      if negb (self_is_coord st) then
        if commit_seen st ping then commit_clique taken st else Some st
      else Some st
  end.

Definition state_commit_process_ping (st : csupd_t) (ping : sup_ping_t) : option csupd_t :=
  match v_state (p_view ping) with
  | SUP_STATE_UNKNOWN => Some st
  | SUP_STATE_CHANGE => Some st
  | SUP_STATE_ACCEPT | SUP_STATE_COMMIT => Some st
  end.

Definition update_node_info (st : csupd_t) (i : Z) (ping : sup_ping_t) : option csupd_t :=
  let inca_changed := negb (p_incarnation ping =? incarnation (node st i)) in
  let view_changed := negb (sup_view_equals (p_view ping) (view (node st i))) in
  seen ← self_sees st i;
  let rebooted_too_fast := seen && inca_changed in
  let st := put_node st i (set_incarnation (node st i) (p_incarnation ping)) in
  let st := put_node st i (set_view (node st i) (sup_view_copy (p_view ping))) in
  st ← (if rebooted_too_fast : bool then mark_dead st i else mark_alive st i);
  Some (if inca_changed || view_changed then set_changed st (self_view_changed st) true else st).

(** The values of [view.state] are those of [sup_state_t], so that
    [SUP_STATE_CHECK] always holds; [op] only selects a message. *)
Definition sup_check_ping (ping : sup_ping_t) : option bool :=
  let ok := true in
  let ok := if p_incarnation ping =? 0 then false else ok in
  let ok := if decide (v_state (p_view ping) = SUP_STATE_UNKNOWN) then false else ok in
  let ok := if num_seen (p_view ping) =? 0 then false else ok in
  seen ← exa_nodeset_contains (nodes_seen (p_view ping)) (sender ping);
  Some (if negb seen then false else ok).

Definition sup_process_ping (taken : bool) (st : csupd_t) (ping : sup_ping_t) : option csupd_t :=
  ok ← sup_check_ping ping;
  assert! ok;
  p ← sup_cluster_node (cluster st) (sender ping);
  '(st, i) ← match p with
    | Some i => Some (st, i)
    | None =>
        r ← sup_cluster_add_node (cluster st) (sender ping);
        let st := match r with Ok c => set_cluster st c | Err _ => st end in
        p ← sup_cluster_node (cluster st) (sender ping);
        i ← p;
        Some (st, i)
    end;
  st ← (if negb (i =? me st) then update_node_info st i ping else Some st);
  match v_state (self_view st) with
  | SUP_STATE_UNKNOWN => None
  | SUP_STATE_CHANGE => state_change_process_ping taken st ping
  | SUP_STATE_ACCEPT => state_accept_process_ping taken st ping
  | SUP_STATE_COMMIT => state_commit_process_ping st ping
  end.

Definition sup_pre_ping (st : csupd_t) : option csupd_t :=
  st ← update_last_seen st;
  st ← (if self_view_changed st || other_view_changed st then
          new_clique ← sup_clique_compute (cluster st);
          let clique_changed := negb (exa_nodeset_equals new_clique (clique (self_view st))) in
          if clique_changed then
            let st := set_self_view st
              (set_clique (self_view st) (exa_nodeset_copy new_clique) (coord (self_view st))) in
            c ← exa_nodeset_first (clique (self_view st));
            Some (if negb (c =? coord (self_view st))
                  then set_self_view st (set_clique (self_view st) (clique (self_view st)) c)
                  else st)
          else Some st
        else Some st);
  Some (if self_view_changed st || other_view_changed st
        then set_state st SUP_STATE_CHANGE else st).

Definition sup_post_ping (st : csupd_t) : csupd_t := set_changed st false false.

Definition sup_send_ping (st : csupd_t) : option csupd_t :=
  s ← self (cluster st);
  let ping := mk_ping (n_id (node st s)) (incarnation (node st s))
                (sup_view_copy (self_view st)) in
  ok ← sup_check_ping ping;
  assert! ok;
  Some (mk_csupd (cluster st) (me st) (self_view_changed st) (other_view_changed st)
          (accepted_clique st) (do_ping st) (delivered st) (ping :: sent st)).

(** What [sup_recv_ping] finds: nothing before the timeout (which also asks
    for a ping), nothing because of an error, or a ping. *)
Inductive recv_t :=
  | RECV_TIMEOUT
  | RECV_NOTHING
  | RECV_PING (ping : sup_ping_t).

(** A turn of the main loop: [elapsed] is the number of seconds since the
    previous turn, [admind_exists] the answer of [os_daemon_exists],
    [evmgr_takes] whether the event manager takes the membership that the turn
    delivers, if it delivers one. The daemon exits with status 1 when Admind is
    dead. *)
Record turn_t := mk_turn {
  elapsed : Z;
  admind_exists : bool;
  evmgr_takes : bool;
  recv : recv_t
}.

Definition loop_turn (st : csupd_t) (t : turn_t) : option (result csupd_t) :=
  assert! (elapsed t <=? Z.quot (ping_timeout + 1) 2);
  if do_ping st && negb (admind_exists t) then Some (Err (OTHER_ERR 1))
  else
    st ← (if do_ping st then
            let st := set_do_ping st false in
            st ← sup_pre_ping st;
            st ← sup_send_ping st;
            Some (sup_post_ping st)
          else Some st);
    match recv t with
    | RECV_TIMEOUT => Some (Ok (set_do_ping st true))
    | RECV_NOTHING => Some (Ok st)
    | RECV_PING ping => st ← sup_process_ping (evmgr_takes t) st ping; Some (Ok st)
    end.

(** [init]: the part that sets up the data; [None] stands for a failure. *)
Definition init (local_id inc : Z) : option (result csupd_t) :=
  r ← sup_cluster_add_node sup_cluster_init local_id;
  match r with
  | Err e => Some (Err e)
  | Ok c =>
      p ← sup_cluster_node c local_id;
      s ← p;
      let c := mk_cluster (nodes c) (known_nodes c) (num_nodes c) (Some s) in
      let st := mk_csupd c s false false EXA_NODESET_EMPTY false [] [] in
      Some (Ok (put_node st s (set_incarnation (self_node st) inc)))
  end.

(** The beginning of [loop]. *)
Definition loop_start (st : csupd_t) : option csupd_t :=
  st ← mark_alive st (me st);
  Some (set_do_ping st true).

End handlers.

(** ** Invariants of one instance *)

Abbreviation kn st := (known (cluster st)).
Abbreviation seen_by st := (sees (cluster st)).

(** The node table is well formed and [self] points to the local node. *)
Record struct_inv (st : csupd_t) : Prop := {
  si_wf : cluster_wf (cluster st);
  si_self : self (cluster st) = Some (me st);
  si_me : me st ∈ kn st
}.

(** Every known node sees itself; the local node was just seen. *)
Record base_inv (st : csupd_t) : Prop := {
  bi_struct : struct_inv st;
  bi_sees : ∀ n, n ∈ kn st → n ∈ seen_by st n;
  bi_last : last_seen (self_node st) = 0;
  bi_inca : incarnation (self_node st) ≠ 0
}.

(** The local view: its clique is made of known nodes, contains the local node
    once it was computed, and its first node is the coordinator. *)
Record proto_inv (st : csupd_t) : Prop := {
  pr_known : nodes_of (clique (self_view st)) ⊆ kn st;
  pr_in : v_state (self_view st) ≠ SUP_STATE_UNKNOWN → me st ∈ nodes_of (clique (self_view st));
  pr_unknown : v_state (self_view st) = SUP_STATE_UNKNOWN → self_view_changed st = true;
  pr_coord : ∀ k, k ∈ nodes_of (clique (self_view st)) →
    coord (self_view st) ∈ nodes_of (clique (self_view st)) ∧ coord (self_view st) <= k;
  pr_accept : v_state (self_view st) = SUP_STATE_ACCEPT →
    accepted_clique st = clique (self_view st);
  pr_acc_wf : nodeset_wf (accepted_clique st)
}.

(** What the bookkeeping on the nodes seen leaves unchanged. *)
Definition same_proto (v v' : sup_view_t) : Prop :=
  clique v' = clique v ∧ coord v' = coord v ∧ v_state v' = v_state v ∧
  accepted v' = accepted v ∧ committed v' = committed v.

Record frame (st st' : csupd_t) : Prop := {
  fr_me : me st' = me st;
  fr_self : self (cluster st') = self (cluster st);
  fr_known : known_nodes (cluster st') = known_nodes (cluster st);
  fr_acc : accepted_clique st' = accepted_clique st;
  fr_deliv : delivered st' = delivered st;
  fr_sent : sent st' = sent st;
  fr_ping : do_ping st' = do_ping st;
  fr_view : same_proto (self_view st) (self_view st');
  fr_inca : incarnation (self_node st') = incarnation (self_node st);
  fr_last : last_seen (self_node st) = 0 → last_seen (self_node st') = 0;
  fr_seen : me st ∈ seen_by st (me st) → me st ∈ seen_by st' (me st);
  fr_changed : self_view_changed st = true → self_view_changed st' = true;
  fr_other : ∀ n, valid_node n → n ≠ me st →
    ∃ s, view (node st' n) = set_v_state (view (node st n)) s
}.

Lemma known_valid st n : n ∈ kn st → valid_node n.
Proof. apply nodes_valid. Qed.

#[export] Hint Resolve known_valid si_wf si_me bi_struct : exa.

Lemma node_put st i n j :
  struct_inv st → valid_node i → valid_node j →
  node (put_node st i n) j = if j =? i then n else node st j.
Proof. intros Hs Hi Hj. apply get_set_node; [apply Hs|done..]. Qed.

Lemma put_put st i n n' : put_node (put_node st i n) i n' = put_node st i n'.
Proof. unfold put_node, set_cluster, set_node. simpl. by rewrite list_insert_insert_eq. Qed.

Lemma struct_put st i n :
  struct_inv st → i ∈ kn st → n_id n = i → view_wf (view n) → struct_inv (put_node st i n).
Proof. intros [] ? ? ?. split; [by apply set_node_wf|done..]. Qed.

Lemma node_id st i : struct_inv st → i ∈ kn st → n_id (node st i) = i.
Proof. intros Hs Hi. by apply Hs. Qed.

Lemma node_view_wf st i : struct_inv st → valid_node i → view_wf (view (node st i)).
Proof. intros Hs Hi. by apply Hs. Qed.

#[export] Hint Resolve struct_put node_id node_view_wf : exa.

Lemma self_sees_spec st i :
  struct_inv st → i ∈ kn st →
  self_sees st i = Some (bool_decide (i ∈ seen_by st (me st))).
Proof.
  intros Hs Hi. unfold self_sees. rewrite node_id by done.
  rewrite contains_spec by eauto with exa. done.
Qed.

Lemma set_v_state_id v : set_v_state v (v_state v) = v.
Proof. by destruct v. Qed.

Lemma frame_refl st : frame st st.
Proof.
  split; try done. intros n _ _. exists (v_state (view (node st n))). by rewrite set_v_state_id.
Qed.

Lemma frame_trans st1 st2 st3 : frame st1 st2 → frame st2 st3 → frame st1 st3.
Proof.
  intros [] []. unfold same_proto in *. split; try congruence.
  - destruct_and!. split_and!; congruence.
  - auto.
  - rewrite fr_me0 in fr_seen1. auto.
  - auto.
  - intros n Hn Hne. destruct (fr_other0 n Hn Hne) as [s0 E0].
    destruct (fr_other1 n Hn) as [s1 E1]; [congruence|]. exists s1.
    rewrite E1, E0. done.
Qed.

(** Changes of one node's bookkeeping. *)
Lemma frame_put st i n :
  struct_inv st → i ∈ kn st → (∃ s, view n = set_v_state (view (node st i)) s) →
  (i = me st → view n = view (node st i) ∧ incarnation n = incarnation (node st i) ∧
     (last_seen (node st i) = 0 → last_seen n = 0)) →
  frame st (put_node st i n).
Proof.
  intros Hs Hi Hv Hme.
  assert (Hvi : valid_node i) by eauto with exa.
  assert (Hvm : valid_node (me st)) by eauto with exa.
  assert (Hself : self_node (put_node st i n) = if me st =? i then n else self_node st)
    by (by apply node_put).
  split; try done.
  - unfold self_view. rewrite Hself. case_if; [|done]. subst.
    destruct Hme as (-> & _ & _); done.
  - rewrite Hself. case_if; [|done]. subst. by destruct Hme as (_ & -> & _).
  - rewrite Hself. case_if; [|done]. subst. by destruct Hme as (_ & _ & ?).
  - unfold sees. fold (node st (me st)). fold (node (put_node st i n) (me st)).
    change (node (put_node st i n) (me st)) with (self_node (put_node st i n)).
    rewrite Hself. case_if; [|done]. subst. by destruct Hme as (-> & _ & _).
  - intros k Hk Hne. rewrite node_put by done. case_if; [by subst|].
    exists (v_state (view (node st k))). by rewrite set_v_state_id.
Qed.

Lemma self_node_set st v :
  struct_inv st → self_node (set_self_view st v) = set_view (self_node st) v.
Proof.
  intros Hs. unfold self_node, set_self_view. cbn [me put_node set_cluster].
  rewrite node_put by eauto with exa. by rewrite Z.eqb_refl.
Qed.

Lemma self_view_set st v :
  struct_inv st → self_view (set_self_view st v) = v.
Proof. intros Hs. unfold self_view. by rewrite self_node_set. Qed.

Lemma set_self_view_struct st v :
  struct_inv st → view_wf v → struct_inv (set_self_view st v).
Proof. intros Hs Hv. apply struct_put; [done|apply Hs|by apply node_id; eauto with exa|done]. Qed.

(** Changing the nodes seen by the local node. *)
Lemma frame_self_view st v :
  struct_inv st → same_proto (self_view st) v →
  (me st ∈ nodes_of (nodes_seen (self_view st)) → me st ∈ nodes_of (nodes_seen v)) →
  frame st (set_self_view st v).
Proof.
  intros Hs Hp Hm. pose proof (self_view_set st v Hs) as E.
  pose proof (self_node_set st v Hs) as Hn.
  split; try done; rewrite ?Hn; try done.
  - by rewrite E.
  - unfold sees. fold (node (set_self_view st v) (me st)).
    change (node (set_self_view st v) (me st)) with (self_node (set_self_view st v)).
    by rewrite Hn.
  - intros n Hv Hne. unfold set_self_view. rewrite node_put by eauto with exa.
    case_if; [done|]. exists (v_state (view (node st n))). by rewrite set_v_state_id.
Qed.

Lemma frame_changed st b1 b2 :
  (self_view_changed st = true → b1 = true) → frame st (set_changed st b1 b2).
Proof.
  intros Hb. split; try done. intros n _ _. exists (v_state (view (node st n))). by rewrite set_v_state_id.
Qed.

Lemma frame_base st st' : base_inv st → struct_inv st' → frame st st' → base_inv st'.
Proof.
  intros [Hs Hr Hl Hi] Hs' F. split; [done| | |].
  - intros n. rewrite (fr_known _ _ F). intros Hn.
    destruct (decide (n = me st)) as [->|Hne]; [by apply F, Hr|].
    destruct (fr_other _ _ F n) as [s E]; [by eauto with exa|done|].
    unfold sees. fold (node st' n). rewrite E. by apply (Hr n).
  - by apply F.
  - by rewrite (fr_inca _ _ F).
Qed.

Lemma frame_proto st st' : proto_inv st → frame st st' → proto_inv st'.
Proof.
  intros [Hk Hin Hu Hco Hac Hw] F. destruct (fr_view _ _ F) as (Ec & Eo & Es & _).
  split; rewrite ?Ec, ?Eo, ?Es, ?(fr_me _ _ F), ?(fr_known _ _ F), ?(fr_acc _ _ F); try done.
  intros E. by apply F, Hu.
Qed.

(** ** The bookkeeping on the nodes seen *)

Section bookkeeping.
Context (ping_period ping_timeout : Z).

Lemma mark_alive_ok st i :
  struct_inv st → i ∈ kn st →
  ∃ st', mark_alive st i = Some st' ∧ struct_inv st' ∧ frame st st' ∧
    i ∈ seen_by st' (me st) ∧ last_seen (node st' i) = 0 ∧
    (i ∈ seen_by st (me st) ∨ self_view_changed st' = true).
Proof.
  intros Hs Hi. unfold mark_alive.
  set (st1 := put_node st i _).
  assert (Hv1 : view (node st1 (me st)) = view (node st (me st))).
  { unfold st1. rewrite node_put by eauto with exa. case_if; [by subst|done]. }
  assert (Hs1 : struct_inv st1) by (apply struct_put; simpl; eauto with exa).
  assert (F1 : frame st st1).
  { apply frame_put; [done|done| |done]. exists (v_state (view (node st i))).
    by rewrite set_v_state_id. }
  assert (Hl1 : last_seen (node st1 i) = 0).
  { unfold st1. rewrite node_put, Z.eqb_refl by eauto with exa. done. }
  assert (Hsee : seen_by st1 (me st) = seen_by st (me st))
    by (unfold sees; fold (node st1 (me st)); by rewrite Hv1).
  rewrite self_sees_spec by done. returned.
  change (me st1) with (me st). rewrite Hsee. case_bool_decide as Hin; simpl.
  { exists st1. split_and!; try done; [by rewrite Hsee|by left]. }
  rewrite node_id by done.
  destruct (sup_view_add_node_ok (self_view st1) i) as (v & -> & Hw & Hn & Hp);
    [eauto with exa..|]. returned.
  eexists. split; [reflexivity|].
  assert (Hs2 : struct_inv (set_self_view st1 v)) by (by apply set_self_view_struct).
  assert (F2 : frame st1 (set_self_view st1 v)).
  { apply frame_self_view; [done|done|]. rewrite Hn. set_solver. }
  split_and!.
  - destruct Hs2. by split.
  - eapply frame_trans; [exact F1|]. eapply frame_trans; [exact F2|]. by apply frame_changed.
  - change (i ∈ nodes_of (nodes_seen (self_view (set_self_view st1 v)))).
    rewrite self_view_set, Hn by done. set_solver.
  - change (last_seen (node (set_self_view st1 v) i) = 0).
    unfold set_self_view. rewrite node_put by eauto with exa. case_if; [|done].
    by rewrite Hif in Hl1.
  - by right.
Qed.

Lemma mark_dead_ok st i :
  struct_inv st → i ∈ kn st → i ≠ me st →
  ∃ st', mark_dead ping_timeout st i = Some st' ∧ struct_inv st' ∧ frame st st'.
Proof using.
  intros Hs Hi Hne. unfold mark_dead, self_node. rewrite !node_id by eauto with exa.
  replace (i =? me st) with false by lia. cbn [negb exa_assert].
  set (st1 := put_node st i _).
  assert (Hs1 : struct_inv st1) by (apply struct_put; simpl; eauto with exa).
  assert (F1 : frame st st1).
  { apply frame_put; [done|done| |done]. exists (v_state (view (node st i))).
    by rewrite set_v_state_id. }
  set (st2 := put_node st1 i _).
  assert (Hs2 : struct_inv st2).
  { apply struct_put; [done|done|by apply (node_id st1)|].
    destruct (node_view_wf st1 i) as (? & ? & ?); [done|eauto with exa|]. by split_and!. }
  assert (F2 : frame st1 st2) by (apply frame_put; [done|done|by eexists|done]).
  rewrite self_sees_spec by done. returned.
  case_bool_decide as Hin; simpl; cycle 1.
  { exists st2. split_and!; try done. by eapply frame_trans. }
  rewrite node_id by done.
  destruct (sup_view_del_node_ok (self_view st2) i) as (v & -> & Hw & Hn & Hp);
    [eauto with exa..|]. returned.
  eexists. split; [reflexivity|].
  assert (Hs3 : struct_inv (set_self_view st2 v)) by (by apply set_self_view_struct).
  split; [destruct Hs3; by split|].
  eapply frame_trans; [exact F1|]. eapply frame_trans; [exact F2|].
  eapply frame_trans; [|by apply frame_changed].
  apply frame_self_view; [done|done|]. rewrite Hn. change (me st2) with (me st). set_solver.
Qed.

Lemma update_last_seen_node_ok st i :
  struct_inv st → valid_node i →
  ∃ st', update_last_seen_node ping_period ping_timeout st i = Some st' ∧
    struct_inv st' ∧ frame st st'.
Proof using.
  intros Hs Hi. unfold update_last_seen_node.
  rewrite cluster_node_spec by eauto with exa. returned.
  case_bool_decide as Hin; [|exists st; split_and!; [done|done|apply frame_refl]].
  case_if; [exists st; split_and!; [done|done|apply frame_refl]|].
  rewrite self_sees_spec by done. returned.
  case_bool_decide as Hsee; [|exists st; split_and!; [done|done|apply frame_refl]].
  cbv zeta. set (st1 := put_node st i _).
  assert (Hs1 : struct_inv st1) by (apply struct_put; simpl; eauto with exa).
  assert (F1 : frame st st1).
  { apply frame_put; [done|done| |done]. exists (v_state (view (node st i))).
    by rewrite set_v_state_id. }
  case_if; [|by exists st1].
  destruct (mark_dead_ok st1 i) as (st2 & -> & Hs2 & F2); [done..|].
  exists st2. split_and!; [done|done|by eapply frame_trans].
Qed.

Lemma num_seen_bound st :
  struct_inv st → 0 <= num_seen (self_view st) <= EXA_MAX_NODES_NUMBER.
Proof.
  intros Hs. destruct (node_view_wf st (me st)) as (_ & _ & Hn); [done|eauto with exa|].
  eapply num_seen_le; [exact Hn|]. apply nodes_valid.
Qed.

Lemma update_last_seen_loop_ok fuel st i :
  struct_inv st → 0 <= i <= EXA_MAX_NODES_NUMBER →
  EXA_MAX_NODES_NUMBER - i < Z.of_nat fuel →
  ∃ st', update_last_seen_loop ping_period ping_timeout fuel st i = Some st' ∧
    struct_inv st' ∧ frame st st'.
Proof using.
  revert st i. induction fuel as [|fuel IH]; intros st i Hs Hi Hf; [lia|].
  cbn [update_last_seen_loop]. pose proof (num_seen_bound st Hs).
  case_if; [|exists st; split_and!; [done|done|apply frame_refl]].
  destruct (update_last_seen_node_ok st i) as (st1 & -> & Hs1 & F1);
    [done|unfold valid_node; lia|]. returned.
  destruct (IH st1 (i + 1)) as (st2 & -> & Hs2 & F2); [done|lia..|].
  exists st2. split_and!; [done|done|by eapply frame_trans].
Qed.

Lemma update_last_seen_ok st :
  base_inv st →
  ∃ st', update_last_seen ping_period ping_timeout st = Some st' ∧ base_inv st' ∧ frame st st'.
Proof using.
  intros Hb. unfold update_last_seen.
  destruct (update_last_seen_loop_ok (S (Z.to_nat EXA_MAX_NODES_NUMBER)) st 0)
    as (st' & -> & Hs' & F); [apply Hb|done|done|]. returned.
  pose proof (frame_base st st' Hb Hs' F) as Hb'. rewrite (bi_last _ Hb').
  exists st'. done.
Qed.
End bookkeeping.

(** ** Processing a ping *)

(** A ping as the instances send them. *)
Record ping_ok (p : sup_ping_t) : Prop := {
  po_sender : valid_node (sender p);
  po_inca : p_incarnation p ≠ 0;
  po_state : v_state (p_view p) ≠ SUP_STATE_UNKNOWN;
  po_wf : view_wf (p_view p);
  po_sees : sender p ∈ nodes_of (nodes_seen (p_view p))
}.

Lemma num_seen_pos n (S : gset Z) k :
  num_seen_ok n S → k ∈ S → (∀ j, j ∈ S → valid_node j) → n ≠ 0.
Proof.
  intros [[-> _]|[Hn _]] Hk Hv; [set_solver|].
  pose proof (Hv _ Hn). unfold valid_node in *. lia.
Qed.

Lemma check_ping_ok p : ping_ok p → sup_check_ping p = Some true.
Proof.
  intros [Hs Hi Hst Hw Hsee]. unfold sup_check_ping.
  rewrite contains_spec by done. returned. rewrite bool_decide_eq_true_2 by done.
  destruct Hw as (_ & _ & Hn).
  pose proof (num_seen_pos _ _ _ Hn Hsee (nodes_valid _)) as Hpos.
  replace (num_seen (p_view p) =? 0) with false by lia.
  rewrite decide_False by done. replace (p_incarnation p =? 0) with false by lia. done.
Qed.

(** Adding an unknown sender to the table, and finding its entry. *)
Definition find_sender (st : csupd_t) (s : Z) : option (csupd_t * Z) :=
  p ← sup_cluster_node (cluster st) s;
  match p with
  | Some i => Some (st, i)
  | None =>
      r ← sup_cluster_add_node (cluster st) s;
      let st := match r with Ok c => set_cluster st c | Err _ => st end in
      p ← sup_cluster_node (cluster st) s;
      i ← p;
      Some (st, i)
  end.

(** The known nodes grow by [s]; the other nodes keep their information. *)
Record grown (s : Z) (st st' : csupd_t) : Prop := {
  gr_me : me st' = me st;
  gr_known : kn st' = {[s]} ∪ kn st;
  gr_nodes : ∀ n, n ∈ kn st → node st' n = node st n;
  gr_views : ∀ n, valid_node n → view (node st' n) = view (node st n) ∨
    view (node st' n) = sup_view_init;
  gr_acc : accepted_clique st' = accepted_clique st;
  gr_deliv : delivered st' = delivered st;
  gr_sent : sent st' = sent st;
  gr_ping : do_ping st' = do_ping st;
  gr_changed : self_view_changed st' = self_view_changed st
}.

Lemma find_sender_ok st s :
  struct_inv st → valid_node s →
  ∃ st', find_sender st s = Some (st', s) ∧ struct_inv st' ∧ grown s st st'.
Proof.
  intros Hs Hv. unfold find_sender. rewrite cluster_node_spec by eauto with exa. returned.
  case_bool_decide as Hin.
  { exists st. split_and!; [done|done|]. split; try done; [set_solver|by left]. }
  destruct (add_node_ok (cluster st) s) as (c & -> & Hc & Hself & Hk & Hn & Ho);
    [eauto with exa..|]. returned. cbv zeta.
  rewrite cluster_node_spec by done. returned.
  rewrite bool_decide_eq_true_2 by (simpl; rewrite Hk; set_solver). returned.
  eexists. split; [reflexivity|]. split; split; simpl; try done.
  - rewrite Hself. apply Hs.
  - rewrite Hk. pose proof (si_me _ Hs). set_solver.
  - intros n Hn'. apply Ho; [by eauto with exa|]. intros ->. done.
  - intros n Hn'. destruct (decide (n = s)) as [->|Hne].
    + right. unfold node. simpl. by rewrite Hn.
    + left. unfold node. simpl. by rewrite Ho.
Qed.

Section update.
Context (ping_timeout : Z).

Lemma update_node_info_ok st p :
  struct_inv st → sender p ∈ kn st → sender p ≠ me st → ping_ok p →
  (∀ n, n ∈ kn st → n ≠ sender p → n ∈ seen_by st n) →
  last_seen (self_node st) = 0 → incarnation (self_node st) ≠ 0 →
  ∃ st' l, update_node_info ping_timeout st (sender p) p = Some st' ∧ base_inv st' ∧
    frame (put_node st (sender p) (mk_node (sender p) (p_incarnation p) (p_view p) l)) st'.
Proof using.
  intros Hs Hi Hne Hp Hsee Hl Hinc. set (i := sender p) in *.
  unfold update_node_info. rewrite self_sees_spec by done. returned. cbv zeta.
  set (n1 := set_incarnation (node st i) (p_incarnation p)).
  assert (Hs1 : struct_inv (put_node st i n1)).
  { apply struct_put; simpl; eauto with exa. }
  set (st1 := put_node st i n1) in *.
  assert (En : node st1 i = n1) by (unfold st1; rewrite node_put, Z.eqb_refl by eauto with exa; done).
  set (st2 := put_node st1 i _).
  set (l := last_seen (node st i)).
  assert (E2 : st2 = put_node st i (mk_node i (p_incarnation p) (p_view p) l)).
  { unfold st2. rewrite En. unfold st1. rewrite put_put. unfold set_view, n1. simpl.
    by rewrite node_id. }
  assert (Hs2 : struct_inv st2).
  { rewrite E2. apply struct_put; [done|done|done|apply Hp]. }
  assert (Hnode : ∀ n, valid_node n → node st2 n =
    if n =? i then mk_node i (p_incarnation p) (p_view p) l else node st n).
  { intros n Hn. rewrite E2. apply node_put; [done|eauto with exa|done]. }
  assert (Hm2 : node st2 (me st) = node st (me st)).
  { rewrite Hnode by eauto with exa. case_if; [by subst|done]. }
  assert (Hb2 : base_inv st2).
  { split; [done| |unfold self_node; change (me st2) with (me st); by rewrite Hm2..].
    intros n Hn. unfold sees. fold (node st2 n). rewrite Hnode by eauto with exa.
    case_if; [subst n; apply Hp|]. apply Hsee; [exact Hn|lia]. }
  clearbody st2.
  assert (Hmark : ∃ st3, (if bool_decide (i ∈ seen_by st (me st)) &&
      negb (p_incarnation p =? incarnation (node st i))
      then mark_dead ping_timeout st2 i else mark_alive st2 i) = Some st3 ∧
      base_inv st3 ∧ frame st2 st3).
  { assert (kn st2 = kn st) as Hk2 by (by rewrite E2).
    assert (me st2 = me st) as Hme2 by (by rewrite E2).
    case_if.
    - destruct (mark_dead_ok ping_timeout st2 i) as (st3 & -> & Hs3 & F);
        [done|by rewrite Hk2|congruence|]. eauto using frame_base.
    - destruct (mark_alive_ok st2 i) as (st3 & -> & Hs3 & F & _);
        [done|by rewrite Hk2|]. eauto using frame_base. }
  destruct Hmark as (st3 & -> & Hb3 & F3). returned.
  eexists _, l. split; [reflexivity|]. rewrite <- E2.
  case_if; [|done]. split.
  - destruct Hb3 as [[] ? ? ?]. split; [by split|done..].
  - eapply frame_trans; [exact F3|]. by apply frame_changed.
Qed.
End update.

(** What the reception of a ping changes, before the state machine runs. *)
Record received (p : sup_ping_t) (st st' : csupd_t) : Prop := {
  rc_me : me st' = me st;
  rc_known : kn st' = {[sender p]} ∪ kn st;
  rc_acc : accepted_clique st' = accepted_clique st;
  rc_deliv : delivered st' = delivered st;
  rc_sent : sent st' = sent st;
  rc_ping : do_ping st' = do_ping st;
  rc_view : same_proto (self_view st) (self_view st');
  rc_changed : self_view_changed st = true → self_view_changed st' = true;
  rc_other : ∀ n, valid_node n → n ≠ me st → ∃ s,
    view (node st' n) = set_v_state (view (node st n)) s ∨
    view (node st' n) = set_v_state sup_view_init s ∨
    view (node st' n) = set_v_state (p_view p) s;
  rc_sender : sender p ≠ me st → ∃ s, view (node st' (sender p)) = set_v_state (p_view p) s
}.

Definition receive (ping_timeout : Z) (st : csupd_t) (p : sup_ping_t) : option csupd_t :=
  '(st, i) ← find_sender st (sender p);
  if negb (i =? me st) then update_node_info ping_timeout st i p else Some st.

Lemma receive_ok ping_timeout st p :
  base_inv st → ping_ok p →
  ∃ st', receive ping_timeout st p = Some st' ∧ base_inv st' ∧ received p st st'.
Proof.
  intros Hb Hp. unfold receive.
  destruct (find_sender_ok st (sender p)) as (st1 & -> & Hs1 & G); [apply Hb|apply Hp|]. returned.
  assert (Hm : me st ∈ kn st) by (apply Hb).
  assert (Hself : self_node st1 = self_node st).
  { unfold self_node. rewrite (gr_me _ _ _ G). by apply G. }
  case_if.
  - destruct (update_node_info_ok ping_timeout st1 p) as (st2 & l & -> & Hb2 & F); rewrite ?Hself;
      [done|rewrite (gr_known _ _ _ G); set_solver|done|done| |apply Hb|apply Hb|].
    { intros n. rewrite (gr_known _ _ _ G). intros Hn Hne.
      assert (Hn' : n ∈ kn st) by set_solver.
      unfold sees. fold (node st1 n). rewrite (gr_nodes _ _ _ G) by done. by apply Hb. }
    exists st2. split; [done|]. split; [done|].
    set (st1' := put_node _ _ _) in F.
    assert (Hnode : ∀ n, valid_node n → node st1' n = if n =? sender p
      then mk_node (sender p) (p_incarnation p) (p_view p) l else node st1 n).
    { intros n Hn. apply node_put; [done|apply Hp|done]. }
    assert (Hself' : self_node st1' = self_node st1).
    { unfold self_node at 1. change (me st1') with (me st1).
      rewrite Hnode by eauto with exa. case_if; [|done]. congruence. }
    split.
    + rewrite (fr_me _ _ F). apply G.
    + rewrite (fr_known _ _ F). apply G.
    + rewrite (fr_acc _ _ F). apply G.
    + rewrite (fr_deliv _ _ F). apply G.
    + rewrite (fr_sent _ _ F). apply G.
    + rewrite (fr_ping _ _ F). apply G.
    + pose proof (fr_view _ _ F) as Hv. unfold self_view in Hv at 1.
      by rewrite Hself', Hself in Hv.
    + intros Hc. apply F. simpl. by rewrite (gr_changed _ _ _ G).
    + intros n Hn Hne. destruct (fr_other _ _ F n) as [s E];
        [done|change (me st1') with (me st1); by rewrite (gr_me _ _ _ G)|]. exists s. rewrite E, Hnode by done.
      case_if; [by do 2 right|]. destruct (gr_views _ _ _ G n Hn) as [->| ->]; auto.
    + intros Hne. destruct (fr_other _ _ F (sender p)) as [s E];
        [apply Hp|change (me st1') with (me st1); by rewrite (gr_me _ _ _ G)|]. exists s.
      by rewrite E, Hnode, Z.eqb_refl by apply Hp.
  - rewrite (gr_me _ _ _ G) in Hif. exists st1. split; [done|].
    assert (Hk : kn st1 = kn st).
    { rewrite (gr_known _ _ _ G), Hif. by apply subseteq_union_1_L, singleton_subseteq_l. }
    split.
    + split; [done| |rewrite Hself; apply Hb..]. intros n. rewrite Hk. intros Hn.
      unfold sees. fold (node st1 n). rewrite (gr_nodes _ _ _ G) by done. by apply Hb.
    + split; try apply G; try done.
      * unfold self_view. by rewrite Hself.
      * intros Hc. by rewrite (gr_changed _ _ _ G).
      * intros n Hn Hne. destruct (gr_views _ _ _ G n Hn) as [E|E]; rewrite E.
        -- exists (v_state (view (node st n))). left. by rewrite set_v_state_id.
        -- eexists (v_state sup_view_init). auto.
Qed.

Lemma received_proto p st st' : proto_inv st → received p st st' → proto_inv st'.
Proof.
  intros [Hk Hin Hu Hco Hac Hw] R. destruct (rc_view _ _ _ R) as (Ec & Eo & Es & _).
  split; rewrite ?Ec, ?Eo, ?Es, ?(rc_me _ _ _ R), ?(rc_known _ _ _ R), ?(rc_acc _ _ _ R);
    try done; [set_solver|].
  intros E. by apply R, Hu.
Qed.

(** ** The state machine *)

Section state_machine.
Context (st : csupd_t) (Hb : base_inv st) (Hp : proto_inv st).

Lemma clique_all_loop_ok test ids :
  Forall valid_node ids →
  ∃ b, clique_all_loop test st ids = Some b ∧
    (b = true ↔ ∀ n, n ∈ ids → n ∈ nodes_of (clique (self_view st)) →
      n ∈ seen_by st (me st) ∧ clique (view (node st n)) = clique (self_view st) ∧
      test (node st n) = true).
Proof using Hb Hp.
  assert (Hs : struct_inv st) by apply Hb.
  assert (Hwf : ∀ n, valid_node n → nodeset_wf (clique (view (node st n)))).
  { intros n Hn. by destruct (node_view_wf st n) as (_ & ? & _). }
  induction 1 as [|n ids Hn _ IH]; cbn [clique_all_loop].
  { exists true. split; [done|]. split; [|done]. intros _ n Hn. by apply elem_of_nil in Hn. }
  destruct IH as (b & Hloop & Hbt). rewrite (contains_spec _ n) by done. returned.
  case_bool_decide as Hin; cycle 1.
  { exists b. split; [done|]. rewrite Hbt. setoid_rewrite elem_of_cons. naive_solver. }
  assert (Hk : n ∈ kn st) by (by apply Hp).
  rewrite cluster_node_spec, bool_decide_eq_true_2 by eauto with exa. do 2 returned.
  rewrite self_sees_spec by done. returned.
  assert (Hme : valid_node (me st)) by eauto with exa.
  case_bool_decide as Hsee; cbn [negb]; cycle 1.
  { exists false. split; [done|]. split; [done|]. intros H. by destruct (H n) as [? _]; [left|..]. }
  destruct (exa_nodeset_equals _ _) eqn:Eq; cbn [negb]; cycle 1.
  { exists false. split; [done|]. split; [done|]. intros H.
    destruct (H n) as (_ & E & _); [left|done|].
    assert (true = false); [|done]. rewrite <- Eq. symmetry. apply equals_eq; auto. by apply Hwf. }
  apply equals_eq in Eq; [|by apply Hwf..].
  destruct (test (node st n)) eqn:Et; cbn [negb]; cycle 1.
  { exists false. split; [done|]. split; [done|]. intros H.
    destruct (H n) as (_ & _ & E); [left|done|congruence]. }
  exists b. split; [done|]. rewrite Hbt. setoid_rewrite elem_of_cons. naive_solver.
Qed.

Lemma seqZ_valid m : m <= EXA_MAX_NODES_NUMBER → Forall valid_node (seqZ 0 m).
Proof using.
  intros Hm. apply Forall_forall. intros n. rewrite elem_of_seqZ. unfold valid_node. lia.
Qed.

Lemma clique_all_ok test :
  ∃ b, clique_all_loop test st (seqZ 0 (num_seen (self_view st))) = Some b ∧
    (b = true ↔ ∀ n, n < num_seen (self_view st) → n ∈ nodes_of (clique (self_view st)) →
      n ∈ seen_by st (me st) ∧ clique (view (node st n)) = clique (self_view st) ∧
      test (node st n) = true).
Proof using Hb Hp.
  pose proof (num_seen_bound st (bi_struct _ Hb)) as Hn.
  destruct (clique_all_loop_ok test (seqZ 0 (num_seen (self_view st)))) as (b & -> & Hbt).
  { apply seqZ_valid. lia. }
  exists b. split; [done|]. rewrite Hbt. setoid_rewrite elem_of_seqZ. split.
  - intros H n Hlt Hin. apply H; [|done]. apply nodes_valid in Hin. unfold valid_node in *. lia.
  - intros H n Hlt Hin. apply H; [lia|done].
Qed.

Lemma next_gen_loop_ok ids g :
  Forall valid_node ids →
  ∃ g', next_gen_loop st ids g = Some g' ∧ g <= g' ∧
    (∀ n, n ∈ ids → n ∈ kn st → n ∈ seen_by st (me st) →
       accepted (view (node st n)) <= g' ∧ committed (view (node st n)) <= g') ∧
    (∀ M, g <= M → (∀ n, valid_node n → accepted (view (node st n)) <= M ∧
       committed (view (node st n)) <= M) → g' <= M).
Proof using Hb.
  assert (Hs : struct_inv st) by apply Hb. intros Hids. revert g.
  induction Hids as [|n ids Hn _ IH]; intros g; cbn [next_gen_loop].
  { exists g. split_and!; [done|lia| |auto]. intros n Hn. by apply elem_of_nil in Hn. }
  rewrite cluster_node_spec by eauto with exa. returned.
  case_bool_decide as Hk; cycle 1.
  { destruct (IH g) as (g' & -> & Hle & Hall & Hm). exists g'. split_and!; try done.
    intros k [->|Hin]%elem_of_cons; [done|]. by apply Hall. }
  rewrite self_sees_spec by done. returned.
  set (g1 := if bool_decide _ then _ else _). destruct (IH g1) as (g' & -> & Hle & Hall & Hm).
  assert (g <= g1) by (unfold g1; case_bool_decide; lia).
  exists g'. split_and!; [done|lia| |].
  - intros k [->|Hin]%elem_of_cons; [|by apply Hall]. intros _ Hsee.
    unfold g1 in Hle. rewrite bool_decide_eq_true_2 in Hle by done. lia.
  - intros M Hg HM. apply Hm; [|done]. unfold g1. destruct (HM n Hn). case_bool_decide; lia.
Qed.

Lemma next_gen_ok :
  ∃ g, next_gen st = Some (u32 (g + 1)) ∧ 0 <= g ∧
    accepted (self_view st) <= g ∧ committed (self_view st) <= g ∧
    (∀ n, n ∈ kn st → n ∈ seen_by st (me st) →
       accepted (view (node st n)) <= g ∧ committed (view (node st n)) <= g) ∧
    (∀ M, 0 <= M → (∀ n, valid_node n → accepted (view (node st n)) <= M ∧
       committed (view (node st n)) <= M) → g <= M).
Proof using Hb.
  assert (Hs : struct_inv st) by apply Hb. pose proof (num_seen_bound st Hs).
  unfold next_gen.
  destruct (next_gen_loop_ok (seqZ 0 (num_seen (self_view st))) 0) as (g & -> & H0 & Hall & Hm).
  { apply seqZ_valid. lia. }
  returned. exists g. split; [done|]. split; [done|].
  assert (Hall' : ∀ n, n ∈ kn st → n ∈ seen_by st (me st) →
    accepted (view (node st n)) <= g ∧ committed (view (node st n)) <= g).
  { intros n Hn Hsee. apply Hall; [|done..]. rewrite elem_of_seqZ.
    destruct (node_view_wf st (me st)) as (_ & _ & Hok); [done|eauto with exa|].
    pose proof (known_valid _ _ Hn). unfold valid_node in *.
    destruct Hok as [[He _]|[_ Hlt]]; [unfold sees in Hsee; fold (node st (me st)) in Hsee;
      rewrite He in Hsee; by apply not_elem_of_empty in Hsee|]. specialize (Hlt _ Hsee).
    unfold self_view, self_node. lia. }
  destruct (Hall' (me st)) as [H1 H2]; [apply Hs|apply Hb; apply Hs|]. done.
Qed.
End state_machine.

(** The outcomes of the state machine on a ping. *)
Inductive ping_effect (st : csupd_t) (p : sup_ping_t) : csupd_t → Prop :=
  | eff_none : ping_effect st p st
  | eff_accept_coord g :
      v_state (self_view st) = SUP_STATE_CHANGE → self_is_coord st = true →
      clique_sees_self_as_coord st = Some true → next_gen st = Some g →
      ping_effect st p (accept_clique st g)
  | eff_accept_follow :
      v_state (self_view st) = SUP_STATE_CHANGE → self_is_coord st = false →
      v_state (p_view p) = SUP_STATE_ACCEPT →
      sender p = coord (self_view st) →
      exa_nodeset_equals (clique (p_view p)) (clique (self_view st)) = true →
      self_highest_gen st < accepted (p_view p) →
      ping_effect st p (accept_clique st (accepted (p_view p)))
  | eff_commit_coord st' :
      v_state (self_view st) = SUP_STATE_ACCEPT → self_is_coord st = true →
      v_state (p_view p) = SUP_STATE_ACCEPT →
      clique_has_accepted st (accepted (self_view st)) = Some true →
      commit_clique true st = Some st' → ping_effect st p st'
  | eff_commit_follow st' :
      v_state (self_view st) = SUP_STATE_CHANGE ∨ v_state (self_view st) = SUP_STATE_ACCEPT →
      self_is_coord st = false → v_state (p_view p) = SUP_STATE_COMMIT →
      commit_seen st p = true →
      commit_clique true st = Some st' → ping_effect st p st'.

Definition dispatch (taken : bool) (st : csupd_t) (p : sup_ping_t) : option csupd_t :=
  match v_state (self_view st) with
  | SUP_STATE_UNKNOWN => None
  | SUP_STATE_CHANGE => state_change_process_ping taken st p
  | SUP_STATE_ACCEPT => state_accept_process_ping taken st p
  | SUP_STATE_COMMIT => state_commit_process_ping st p
  end.

Lemma commit_clique_ok st : base_inv st → ∃ st', commit_clique true st = Some st'.
Proof.
  intros Hb. assert (Hs : struct_inv st) by apply Hb. unfold commit_clique.
  rewrite self_sees_spec by eauto with exa. returned.
  rewrite bool_decide_eq_true_2 by (apply Hb, Hs). eexists. reflexivity.
Qed.

Lemma dispatch_ok st p :
  base_inv st → proto_inv st → v_state (self_view st) ≠ SUP_STATE_UNKNOWN →
  ∃ st', dispatch true st p = Some st' ∧ ping_effect st p st'.
Proof.
  intros Hb Hp Hst. unfold dispatch.
  destruct (commit_clique_ok st Hb) as [stc Hc].
  destruct (v_state (self_view st)) eqn:Es; [done|..].
  - unfold state_change_process_ping. destruct (v_state (p_view p)) eqn:Ep.
    + eauto using eff_none.
    + destruct (self_is_coord st) eqn:Ec; [|eauto using eff_none].
      destruct (clique_all_ok st Hb Hp (λ n, coord (view n) =? coord (self_view st)))
        as (b & E & _). fold (clique_sees_self_as_coord st) in E. rewrite E. returned.
      destruct b; [|eauto using eff_none].
      destruct (next_gen_ok st Hb) as (g & Eg & _). rewrite Eg. returned.
      eauto using eff_accept_coord.
    + destruct (self_is_coord st) eqn:Ec; cbn [negb]; [eauto using eff_none|].
      case_if; [|eauto using eff_none]. eauto using eff_accept_follow.
    + destruct (self_is_coord st) eqn:Ec; cbn [negb]; [eauto using eff_none|].
      case_if; [|eauto using eff_none]. eauto using eff_commit_follow.
  - unfold state_accept_process_ping. destruct (v_state (p_view p)) eqn:Ep.
    + eauto using eff_none.
    + eauto using eff_none.
    + destruct (self_is_coord st) eqn:Ec; cbn [negb]; [|eauto using eff_none].
      case_if; [|eauto using eff_none].
      destruct (clique_all_ok st Hb Hp (λ n, accepted (view n) =? accepted (self_view st)))
        as (b & E & _). fold (clique_has_accepted st (accepted (self_view st))) in E.
      rewrite E. returned. destruct b; [|eauto using eff_none]. eauto using eff_commit_coord.
    + destruct (self_is_coord st) eqn:Ec; cbn [negb]; [eauto using eff_none|].
      case_if; [|eauto using eff_none]. eauto using eff_commit_follow.
  - unfold state_commit_process_ping. destruct (v_state (p_view p)); eauto using eff_none.
Qed.

(** What happens when the event manager does not take a membership is that of a
    turn where it does, or the assertion of [sup_deliver] fails. *)
Lemma dispatch_taken b st p st' : dispatch b st p = Some st' → dispatch true st p = Some st'.
Proof.
  destruct b; [done|]. assert (Hc : commit_clique false st = None).
  { unfold commit_clique. by destruct (self_sees st (me st)) as [[]|]. }
  unfold dispatch, state_change_process_ping, state_accept_process_ping. rewrite Hc.
  repeat (case_match || case_if); try done.
  destruct (clique_has_accepted st _) as [[]|]; cbn; done.
Qed.

Lemma process_ping_taken ping_timeout b st p st' :
  sup_process_ping ping_timeout b st p = Some st' → sup_process_ping ping_timeout true st p = Some st'.
Proof.
  unfold sup_process_ping. apply bind_mono. intros ok. destruct ok; [|done]. cbn [exa_assert].
  apply bind_mono. intros q. apply bind_mono. intros [st1 i]. apply bind_mono. intros st2. exact (dispatch_taken b st2 p st').
Qed.

Lemma process_ping_eq ping_timeout taken st p :
  ping_ok p →
  sup_process_ping ping_timeout taken st p = (st1 ← receive ping_timeout st p; dispatch taken st1 p).
Proof.
  intros Hp. unfold sup_process_ping, receive, find_sender. rewrite check_ping_ok by done.
  returned. cbn [exa_assert].
  destruct (sup_cluster_node (cluster st) (sender p)) as [[i|]|]; [|..|done]; rewrite ?bind_returned.
  - done.
  - destruct (sup_cluster_add_node _ _) as [r|]; [|done]. rewrite !bind_returned.
    destruct (sup_cluster_node _ (sender p)) as [[j|]|]; done.
Qed.

(** ** Preservation of the invariants by the state machine *)

Lemma set_self_set st v v' :
  struct_inv st → set_self_view (set_self_view st v) v' = set_self_view st v'.
Proof.
  intros Hs. unfold set_self_view at 1. rewrite self_node_set by done.
  change (me (set_self_view st v)) with (me st). unfold set_self_view. by rewrite put_put.
Qed.

Lemma accept_eq st g :
  struct_inv st →
  accept_clique st g =
  set_accepted_clique
    (set_self_view st (set_accepted (set_v_state (self_view st) SUP_STATE_ACCEPT) g))
    (clique (self_view st)).
Proof.
  intros Hs. unfold accept_clique, set_state, exa_nodeset_copy. cbv zeta.
  rewrite self_view_set, set_self_set by done. by rewrite self_view_set by done.
Qed.

Lemma commit_eq st st' :
  struct_inv st → commit_clique true st = Some st' →
  st' = set_self_view (add_delivered st (accepted (self_view st)) (accepted_clique st))
    (set_committed (set_v_state (self_view st) SUP_STATE_COMMIT) (accepted (self_view st))).
Proof.
  intros Hs. unfold commit_clique. destruct (self_sees st (me st)) as [b|]; [|done].
  returned. destruct b; [|done]. cbn [exa_assert sup_deliver mbind option_bind fst snd]. cbv zeta. unfold set_state, exa_nodeset_copy.
  set (st1 := add_delivered _ _ _).
  assert (Hs1 : struct_inv st1) by (destruct Hs; by split).
  rewrite self_view_set, set_self_set by done. by intros [= <-].
Qed.

(** Replacing the local view by one that sees the same nodes. *)
Lemma base_set_self st v :
  base_inv st → nodes_seen v = nodes_seen (self_view st) →
  num_seen v = num_seen (self_view st) → nodeset_wf (clique v) →
  base_inv (set_self_view st v).
Proof.
  intros [Hs Hr Hl Hi] Es En Hc.
  assert (Hv : view_wf v).
  { destruct (node_view_wf st (me st)) as (? & _ & ?); [done|eauto with exa|].
    split_and!; [by rewrite Es|done|by rewrite Es, En]. }
  pose proof (self_node_set st v Hs) as Hn.
  split; [by apply set_self_view_struct| |by rewrite Hn..].
  intros n Hk. unfold sees. fold (node (set_self_view st v) n).
  unfold set_self_view. rewrite node_put by eauto with exa.
  case_if; [subst n; simpl; rewrite Es|]; by apply Hr.
Qed.

Lemma base_same_cluster st st' :
  base_inv st → cluster st' = cluster st → me st' = me st → base_inv st'.
Proof.
  intros [[] Hr Hl Hi] Ec Em. unfold self_node, node in *.
  split; [split|..]; unfold self_node, node; rewrite ?Ec, ?Em; done.
Qed.

Lemma clique_wf st : struct_inv st → nodeset_wf (clique (self_view st)).
Proof. intros Hs. by destruct (node_view_wf st (me st)) as (_ & ? & _); eauto with exa. Qed.

#[export] Hint Resolve clique_wf : exa.

Lemma accept_inv st g :
  base_inv st → proto_inv st → v_state (self_view st) ≠ SUP_STATE_UNKNOWN →
  base_inv (accept_clique st g) ∧ proto_inv (accept_clique st g) ∧
  self_view (accept_clique st g) = set_accepted (set_v_state (self_view st) SUP_STATE_ACCEPT) g.
Proof.
  intros Hb Hp Hst. assert (Hs : struct_inv st) by apply Hb. rewrite accept_eq by done.
  set (v := set_accepted _ _). set (st1 := set_self_view st v).
  assert (E : self_view (set_accepted_clique st1 (clique (self_view st))) = v)
    by (by apply self_view_set).
  split_and!; [| |done].
  - apply (base_same_cluster st1); [|done..].
    apply base_set_self; [done..|]. simpl. eauto with exa.
  - split; rewrite ?E; simpl; [apply Hp|intros _; by apply Hp|done|apply Hp|done|eauto with exa].
Qed.

Lemma commit_inv st st' :
  base_inv st → proto_inv st → v_state (self_view st) ≠ SUP_STATE_UNKNOWN →
  commit_clique true st = Some st' →
  base_inv st' ∧ proto_inv st' ∧
  self_view st' =
    set_committed (set_v_state (self_view st) SUP_STATE_COMMIT) (accepted (self_view st)).
Proof.
  intros Hb Hp Hst Hc. assert (Hs : struct_inv st) by apply Hb.
  apply commit_eq in Hc; [|done]. subst st'.
  set (v := set_committed _ _). set (st1 := add_delivered _ _ _).
  assert (Hb1 : base_inv st1) by (by apply (base_same_cluster st)).
  assert (E : self_view (set_self_view st1 v) = v) by (apply self_view_set, Hb1).
  split_and!; [| |done].
  - apply base_set_self; [done..|]. simpl. eauto with exa.
  - split; rewrite ?E; simpl; [apply Hp|intros _; by apply Hp|done|apply Hp|done|apply Hp].
Qed.

(** Generations: every generation in the table is at most [M]; what was
    delivered has increasing generations, up to the committed one, and
    contains the local node. *)
Record gen_inv (M : Z) (st : csupd_t) : Prop := {
  gi_bound : ∀ n, valid_node n → 0 <= accepted (view (node st n)) <= M ∧
    0 <= committed (view (node st n)) <= M;
  gi_le : committed (self_view st) <= accepted (self_view st);
  gi_accept : v_state (self_view st) = SUP_STATE_ACCEPT →
    committed (self_view st) < accepted (self_view st);
  gi_in : 0 < accepted (self_view st) → me st ∈ nodes_of (accepted_clique st);
  gi_deliv : ∀ g m, (g, m) ∈ delivered st →
    0 < g <= committed (self_view st) ∧ me st ∈ nodes_of m;
  gi_sorted : StronglySorted (λ a b, b.1 < a.1) (delivered st)
}.

Lemma gen_inv_mono M M' st : gen_inv M st → M <= M' → gen_inv M' st.
Proof.
  intros [] Hle. split; try done. intros n Hn. destruct (gi_bound0 n Hn). lia.
Qed.

Lemma set_self_bound st v M :
  struct_inv st → 0 <= accepted v <= M → 0 <= committed v <= M →
  (∀ n, valid_node n → 0 <= accepted (view (node st n)) <= M ∧
    0 <= committed (view (node st n)) <= M) →
  ∀ n, valid_node n → 0 <= accepted (view (node (set_self_view st v) n)) <= M ∧
    0 <= committed (view (node (set_self_view st v) n)) <= M.
Proof.
  intros Hs Ha Hc Hall n Hn. unfold set_self_view. rewrite node_put by eauto with exa.
  case_if; [done|by apply Hall].
Qed.

Lemma self_bound M st :
  struct_inv st → gen_inv M st → 0 <= accepted (self_view st) <= M ∧
  0 <= committed (self_view st) <= M.
Proof. intros Hs Hg. apply (gi_bound _ _ Hg (me st)). eauto with exa. Qed.

Lemma accept_gen M st g :
  base_inv st → proto_inv st → v_state (self_view st) ≠ SUP_STATE_UNKNOWN → gen_inv M st →
  self_highest_gen st < g <= M + 1 → gen_inv (M + 1) (accept_clique st g).
Proof.
  intros Hb Hp Hst Hg Hlt. assert (Hs : struct_inv st) by apply Hb.
  unfold self_highest_gen in Hlt. destruct (self_bound M st Hs Hg) as [Ha Hc].
  destruct (accept_inv st g Hb Hp Hst) as (_ & _ & E).
  apply (gen_inv_mono M (M + 1)) in Hg; [|lia].
  split; rewrite ?E; rewrite ?accept_eq by done; simpl.
  - apply set_self_bound; simpl; [done|lia..|apply Hg].
  - lia.
  - lia.
  - intros _. by apply Hp.
  - intros g' m Hin. by apply Hg.
  - apply Hg.
Qed.

Lemma commit_gen M st st' :
  base_inv st → proto_inv st → v_state (self_view st) ≠ SUP_STATE_UNKNOWN → gen_inv M st →
  commit_clique true st = Some st' → committed (self_view st) < accepted (self_view st) →
  gen_inv M st' ∧ delivered st' = (accepted (self_view st), accepted_clique st) :: delivered st.
Proof.
  intros Hb Hp Hst Hg Hc Hlt. assert (Hs : struct_inv st) by apply Hb.
  destruct (self_bound M st Hs Hg) as [Ha Hcm].
  destruct (commit_inv st st' Hb Hp Hst Hc) as (_ & _ & E).
  apply commit_eq in Hc; [|done]. subst st'. split; [|done].
  split; rewrite ?E; simpl.
  - apply set_self_bound; simpl; [destruct Hs; by split|lia..|apply Hg].
  - lia.
  - done.
  - apply Hg.
  - intros g m [[= -> ->]|Hin]%elem_of_cons; [split; [lia|apply Hg; lia]|].
    destruct (gi_deliv _ _ Hg g m Hin) as [? ?]. split; [lia|done].
  - constructor; [apply Hg|]. apply Forall_forall. intros [g m] Hin. simpl.
    destruct (gi_deliv _ _ Hg g m Hin) as [? ?]. lia.
Qed.

Lemma effect_inv st p st' :
  base_inv st → proto_inv st → v_state (self_view st) ≠ SUP_STATE_UNKNOWN →
  ping_effect st p st' →
  base_inv st' ∧ proto_inv st' ∧ v_state (self_view st') ≠ SUP_STATE_UNKNOWN.
Proof.
  intros Hb Hp Hst He.
  destruct He as [|g _ _ _ _|_ _ _ _ _ _|st' _ _ _ _ Hc|st' _ _ _ _ Hc]; [done|..].
  - destruct (accept_inv st g Hb Hp Hst) as (? & ? & E). by rewrite E.
  - destruct (accept_inv st (accepted (p_view p)) Hb Hp Hst) as (? & ? & E). by rewrite E.
  - destruct (commit_inv st st' Hb Hp Hst Hc) as (? & ? & E). by rewrite E.
  - destruct (commit_inv st st' Hb Hp Hst Hc) as (? & ? & E). by rewrite E.
Qed.

Lemma effect_gen M st p st' :
  base_inv st → proto_inv st → v_state (self_view st) ≠ SUP_STATE_UNKNOWN →
  gen_inv M st → 0 <= M < 2 ^ 32 - 1 → accepted (p_view p) <= M →
  ping_effect st p st' → gen_inv (M + 1) st'.
Proof.
  intros Hb Hp Hst Hg HM Hpa He.
  destruct He as [|g _ _ _ Hn|_ _ _ _ _ Hlt|st' Hs _ _ _ Hc|st' _ _ _ Hsc Hc].
  - eapply gen_inv_mono; [done|lia].
  - destruct (next_gen_ok st Hb) as (g' & Eg & H0 & Ha & Hcm & _ & Hmax).
    assert (g' <= M) by (apply Hmax; [lia|]; intros n Hv; destruct (gi_bound _ _ Hg n Hv); lia).
    rewrite Hn in Eg. injection Eg as ->. rewrite u32_id by (unfold fits; lia).
    apply accept_gen; [done..|]. unfold self_highest_gen. lia.
  - apply accept_gen; [done..|]. lia.
  - eapply gen_inv_mono; [eapply commit_gen; try done; by apply Hg|lia].
  - unfold commit_seen in Hsc. bool_to_prop.
    eapply gen_inv_mono; [eapply commit_gen; try done; lia|lia].
Qed.

(** ** Sending a ping *)

(** Changes of the local node's view that keep the generations. *)
Record same_gens (st st' : csupd_t) : Prop := {
  sg_me : me st' = me st;
  sg_acc : accepted_clique st' = accepted_clique st;
  sg_deliv : delivered st' = delivered st;
  sg_state : v_state (self_view st') = SUP_STATE_ACCEPT → v_state (self_view st) = SUP_STATE_ACCEPT;
  sg_views : ∀ n, valid_node n → accepted (view (node st' n)) = accepted (view (node st n)) ∧
    committed (view (node st' n)) = committed (view (node st n))
}.

Lemma same_gens_trans st1 st2 st3 : same_gens st1 st2 → same_gens st2 st3 → same_gens st1 st3.
Proof.
  intros [] []. split; try congruence; [auto|].
  intros n Hn. destruct (sg_views0 n Hn), (sg_views1 n Hn). split; congruence.
Qed.

Lemma same_gens_refl st : same_gens st st.
Proof. by split. Qed.

Lemma same_gens_inv M st st' : struct_inv st → same_gens st st' → gen_inv M st → gen_inv M st'.
Proof.
  intros Hs [Hm Ha Hd Hst Hv] Hg.
  assert (Hself : accepted (self_view st') = accepted (self_view st) ∧
    committed (self_view st') = committed (self_view st)).
  { unfold self_view at 1 3, self_node. rewrite Hm. apply Hv. eauto with exa. }
  destruct Hself as [Ea Ec].
  split; rewrite ?Ea, ?Ec, ?Ha, ?Hd, ?Hm; try apply Hg.
  - intros n Hn. destruct (Hv n Hn) as [-> ->]. by apply Hg.
  - intros E. by apply Hg, Hst.
Qed.

Lemma frame_same_gens st st' : struct_inv st → frame st st' → same_gens st st'.
Proof.
  intros Hs F. destruct (fr_view _ _ F) as (_ & _ & Es & Ea & Ec).
  split; try apply F; [congruence|]. intros n Hn.
  destruct (decide (n = me st)) as [->|Hne].
  - rewrite <- (fr_me _ _ F) at 1 3. done.
  - destruct (fr_other _ _ F n Hn Hne) as [s ->]. done.
Qed.

Lemma same_gens_set_self st v :
  struct_inv st → accepted v = accepted (self_view st) → committed v = committed (self_view st) →
  (v_state v = SUP_STATE_ACCEPT → v_state (self_view st) = SUP_STATE_ACCEPT) →
  same_gens st (set_self_view st v).
Proof.
  intros Hs Ha Hc Hst. split; try done.
  - by rewrite self_view_set.
  - intros n Hn. unfold set_self_view. rewrite node_put by eauto with exa.
    case_if; [by subst|done].
Qed.

Section ping.
Context `{!Qsort} (ping_period ping_timeout : Z).

(** The recomputation of the clique and of the coordinator. *)
Definition recompute (st : csupd_t) : option csupd_t :=
  new_clique ← sup_clique_compute (cluster st);
  let clique_changed := negb (exa_nodeset_equals new_clique (clique (self_view st))) in
  if clique_changed then
    let st := set_self_view st
      (set_clique (self_view st) (exa_nodeset_copy new_clique) (coord (self_view st))) in
    c ← exa_nodeset_first (clique (self_view st));
    Some (if negb (c =? coord (self_view st))
          then set_self_view st (set_clique (self_view st) (clique (self_view st)) c)
          else st)
  else Some st.

Lemma recompute_ok st :
  base_inv st → proto_inv st →
  ∃ r, sup_clique_compute (cluster st) = Some r ∧ nodeset_wf r ∧ nodes_of r ⊆ kn st ∧
    me st ∈ nodes_of r ∧
    ∃ co, recompute st = Some (set_self_view st (set_clique (self_view st) r co)) ∧
      co ∈ nodes_of r ∧ (∀ k, k ∈ nodes_of r → co <= k).
Proof using.
  intros Hb Hp. assert (Hs : struct_inv st) by apply Hb.
  destruct (clique_loop_ok (cluster st) (si_wf _ Hs) (bi_sees _ Hb)
    (S (Z.to_nat EXA_MAX_NODES_NUMBER)) (me st)
    (qsort (node_mship_cmp (cluster st)) (nodes_list (known_nodes (cluster st))))
    (known_nodes (cluster st)) EXA_NODESET_EMPTY) as (r & bl & Hr & Hw & Hin & _ & (rem' & Hsub & Hmx%mx_sub)%peeled_maximal);
    [apply Hs|done|apply elem_of_sorted_nodes|apply Hs|apply known_fuel|].
  assert (Hk : nodes_of r ⊆ kn st) by (by transitivity rem').
  rewrite <- clique_compute_eq in Hr by apply Hs.
  exists r. split_and!; try done. unfold recompute. rewrite Hr. returned.
  rewrite equals_spec by eauto with exa. case_bool_decide as E; cbn [negb].
  - apply nodes_of_inj in E; [|done|eauto with exa]. subst r.
    exists (coord (self_view st)). split; [|split; [by eapply Hp|apply Hp]].
    f_equal. unfold set_self_view, put_node, set_cluster, set_node.
    rewrite list_insert_id; [by destruct st as [[]]|].
    replace (set_view _ _) with (self_node st); cycle 1.
    { unfold self_view. by destruct (self_node st) as [? ? []]. }
    apply list_lookup_lookup_total_lt. rewrite (cwf_length _ (si_wf _ Hs)).
    pose proof (known_valid _ _ (si_me _ Hs)). unfold valid_node in *. lia.
  - set (st1 := set_self_view _ _). assert (Hv1 : self_view st1 =
      set_clique (self_view st) r (coord (self_view st))) by (by apply self_view_set).
    rewrite Hv1. cbn [clique coord set_clique].
    destruct (first_spec r) as (m & -> & [[He _]|[Hm Hmin]]); [set_solver|]. returned.
    exists m. split_and!; [|done|done]. f_equal. case_if.
    + unfold st1. by rewrite set_self_set.
    + unfold st1. by rewrite Hif.
Qed.

Lemma pre_ping_eq st :
  sup_pre_ping ping_period ping_timeout st =
  (st ← update_last_seen ping_period ping_timeout st;
   st ← (if self_view_changed st || other_view_changed st then recompute st else Some st);
   Some (if self_view_changed st || other_view_changed st
         then set_state st SUP_STATE_CHANGE else st)).
Proof using. done. Qed.

(** What a turn keeps of the things it does not own. *)
Record same_env (st st' : csupd_t) : Prop := {
  se_me : me st' = me st;
  se_known : kn st' = kn st;
  se_sent : sent st' = sent st;
  se_ping : do_ping st' = do_ping st
}.

Lemma pre_ping_ok st :
  base_inv st → proto_inv st →
  ∃ st', sup_pre_ping ping_period ping_timeout st = Some st' ∧ base_inv st' ∧ proto_inv st' ∧
    v_state (self_view st') ≠ SUP_STATE_UNKNOWN ∧ same_gens st st' ∧ same_env st st' ∧
    v_state (self_view st') = (if self_view_changed st' || other_view_changed st'
      then SUP_STATE_CHANGE else v_state (self_view st)).
Proof using.
  intros Hb Hp. rewrite pre_ping_eq.
  destruct (update_last_seen_ok ping_period ping_timeout st Hb) as (st1 & -> & Hb1 & F1).
  returned. pose proof (frame_proto _ _ Hp F1) as Hp1.
  assert (Hs1 : struct_inv st1) by apply Hb1.
  assert (G1 : same_gens st st1) by (apply frame_same_gens; [apply Hb|done]).
  assert (E1 : same_env st st1) by (split; [apply F1|by rewrite (fr_known _ _ F1)|apply F1..]).
  destruct (self_view_changed st1 || other_view_changed st1) eqn:Ech; cycle 1.
  { returned. rewrite Ech. exists st1. split_and!; try done.
    - intros E. apply (pr_unknown _ Hp1) in E. by rewrite E in Ech.
    - rewrite Ech. apply F1. }
  destruct (recompute_ok st1 Hb1 Hp1) as (r & _ & Hw & Hk & Hme & co & -> & Hco & Hmin).
  returned. set (v := set_clique _ _ _). set (st2 := set_self_view st1 v).
  assert (Hb2 : base_inv st2) by (by apply base_set_self).
  assert (Hv2 : self_view st2 = v) by (by apply self_view_set).
  change (self_view_changed st2 || other_view_changed st2) with
    (self_view_changed st1 || other_view_changed st1). rewrite Ech.
  unfold set_state. rewrite Hv2. unfold st2. rewrite set_self_set by done.
  set (v' := set_v_state v SUP_STATE_CHANGE).
  assert (Hv3 : self_view (set_self_view st1 v') = v') by (by apply self_view_set).
  exists (set_self_view st1 v'). split_and!.
  - done.
  - by apply base_set_self.
  - split; rewrite ?Hv3; simpl; try done; [auto|apply Hp1].
  - by rewrite Hv3.
  - eapply same_gens_trans; [exact G1|]. by apply same_gens_set_self.
  - destruct E1. by split.
  - rewrite Hv3. change (self_view_changed _ || other_view_changed _) with
      (self_view_changed st1 || other_view_changed st1). by rewrite Ech.
Qed.

Definition self_ping (st : csupd_t) : sup_ping_t :=
  mk_ping (me st) (incarnation (self_node st)) (self_view st).

Lemma self_ping_ok st :
  base_inv st → v_state (self_view st) ≠ SUP_STATE_UNKNOWN → ping_ok (self_ping st).
Proof using.
  intros Hb Hst. assert (Hs : struct_inv st) by apply Hb. split; simpl; [eauto with exa|apply Hb|done|..].
  - apply node_view_wf; eauto with exa.
  - apply Hb, Hs.
Qed.

Definition add_sent (st : csupd_t) (p : sup_ping_t) : csupd_t :=
  mk_csupd (cluster st) (me st) (self_view_changed st) (other_view_changed st)
    (accepted_clique st) (do_ping st) (delivered st) (p :: sent st).

Lemma send_ping_ok st :
  base_inv st → v_state (self_view st) ≠ SUP_STATE_UNKNOWN →
  sup_send_ping st = Some (add_sent st (self_ping st)).
Proof using.
  intros Hb Hst. assert (Hs : struct_inv st) by apply Hb. unfold sup_send_ping.
  rewrite (si_self _ Hs). returned. cbv zeta.
  replace (mk_ping _ _ _) with (self_ping st); cycle 1.
  { unfold self_ping, sup_view_copy. f_equal. symmetry. apply node_id; [done|apply Hs]. }
  by rewrite check_ping_ok by (by apply self_ping_ok).
Qed.

(** ** A turn of the main loop *)

(** The invariant of an instance between two turns. *)
Record daemon_inv (st : csupd_t) : Prop := {
  dv_base : base_inv st;
  dv_proto : proto_inv st;
  dv_due : v_state (self_view st) = SUP_STATE_UNKNOWN → do_ping st = true;
  dv_sent : ∀ p, p ∈ sent st → ping_ok p ∧ sender p = me st
}.

(** The part of a turn before the reception. *)
Definition emit (st : csupd_t) : option csupd_t :=
  if do_ping st then
    let st := set_do_ping st false in
    st ← sup_pre_ping ping_period ping_timeout st;
    st ← sup_send_ping st;
    Some (sup_post_ping st)
  else Some st.

Lemma proto_same_cluster st st' :
  proto_inv st → cluster st' = cluster st → me st' = me st →
  accepted_clique st' = accepted_clique st →
  (v_state (self_view st) = SUP_STATE_UNKNOWN → self_view_changed st' = true) → proto_inv st'.
Proof using.
  intros [] Ec Em Ea Hu. unfold self_view, self_node, node in *.
  split; unfold self_view, self_node, node; rewrite ?Ec, ?Em, ?Ea; done.
Qed.

Lemma emit_ok st :
  daemon_inv st →
  ∃ st', emit st = Some st' ∧ daemon_inv st' ∧
    v_state (self_view st') ≠ SUP_STATE_UNKNOWN ∧ same_gens st st' ∧
    me st' = me st ∧ kn st' = kn st ∧
    sent st' = if do_ping st then self_ping st' :: sent st else sent st.
Proof using.
  intros [Hb Hp Hd Hsent]. unfold emit. destruct (do_ping st) eqn:Ed; cycle 1.
  { exists st. split_and!; try done; [split; [done|done|by intros E%Hd|done]|].
    by intros E%Hd. }
  cbv zeta. set (st0 := set_do_ping st false).
  assert (Hb0 : base_inv st0) by (by apply (base_same_cluster st)).
  assert (Hp0 : proto_inv st0) by (eapply (proto_same_cluster st); try done; apply Hp).
  destruct (pre_ping_ok st0 Hb0 Hp0) as (st1 & -> & Hb1 & Hp1 & Hst1 & G1 & E1 & _). returned.
  rewrite send_ping_ok by done. returned.
  eexists. split; [reflexivity|].
  set (st2 := sup_post_ping _).
  split; [split; try done|].
  - by apply (base_same_cluster st1).
  - by apply (proto_same_cluster st1).
  - intros p. cbn [sent sup_post_ping add_sent set_changed st2]. rewrite (se_sent _ _ E1).
    intros [->|Hin]%elem_of_cons; [split; [by apply self_ping_ok|done]|].
    change (me st2) with (me st1). rewrite (se_me _ _ E1). by apply Hsent.
  - split_and!; [done| | | |].
    + eapply (same_gens_trans st st0); [by split|].
      eapply (same_gens_trans st0 st1); [done|by split].
    + apply E1.
    + apply E1.
    + cbn [sent sup_post_ping add_sent set_changed st2]. by rewrite (se_sent _ _ E1).
Qed.

Definition ping_gens (M : Z) (p : sup_ping_t) : Prop :=
  0 <= accepted (p_view p) <= M ∧ 0 <= committed (p_view p) <= M.

Lemma received_gen M p st st' :
  struct_inv st → 0 <= M → ping_gens M p → received p st st' → gen_inv M st → gen_inv M st'.
Proof using.
  intros Hs HM [Hpa Hpc] R Hg. destruct (rc_view _ _ _ R) as (_ & _ & Es & Ea & Ec).
  split; rewrite ?Es, ?Ea, ?Ec, ?(rc_acc _ _ _ R), ?(rc_deliv _ _ _ R), ?(rc_me _ _ _ R);
    try apply Hg.
  intros n Hn. destruct (decide (n = me st)) as [->|Hne].
  - rewrite <- (rc_me _ _ _ R). fold (self_node st') (self_view st'). rewrite Ea, Ec.
    by apply self_bound.
  - destruct (rc_other _ _ _ R n Hn Hne) as [s [->|[->| ->]]]; simpl; [by apply Hg|lia|lia].
Qed.

(** The conditions on the environment: the machine is not frozen for more
    than half the timeout, and what is received is a valid ping. *)
Record turn_ok (t : turn_t) : Prop := {
  to_elapsed : elapsed t <= Z.quot (ping_timeout + 1) 2;
  to_taken : evmgr_takes t = true;
  to_ping : ∀ p, recv t = RECV_PING p → ping_ok p
}.

Lemma loop_turn_eq st t :
  turn_ok t →
  loop_turn ping_period ping_timeout st t =
  if do_ping st && negb (admind_exists t) then Some (Err (OTHER_ERR 1))
  else st ← emit st;
    match recv t with
    | RECV_TIMEOUT => Some (Ok (set_do_ping st true))
    | RECV_NOTHING => Some (Ok st)
    | RECV_PING ping => st ← sup_process_ping ping_timeout true st ping; Some (Ok st)
    end.
Proof using.
  intros [He Ht _]. unfold loop_turn. rewrite Ht. by replace (elapsed t <=? _) with true by lia.
Qed.

Lemma effect_env st p st' :
  base_inv st → ping_effect st p st' →
  me st' = me st ∧ kn st' = kn st ∧ sent st' = sent st ∧ do_ping st' = do_ping st.
Proof using.
  intros Hb He. assert (Hs : struct_inv st) by apply Hb.
  destruct He as [|g _ _ _ _|_ _ _ _ _ _|st' _ _ _ _ Hc|st' _ _ _ _ Hc];
    rewrite ?accept_eq by done; try done; by rewrite (commit_eq _ _ Hs Hc).
Qed.

Lemma process_ping_ok st p :
  daemon_inv st → ping_ok p → v_state (self_view st) ≠ SUP_STATE_UNKNOWN →
  ∃ st1 st', sup_process_ping ping_timeout true st p = Some st' ∧
    base_inv st1 ∧ proto_inv st1 ∧ received p st st1 ∧ ping_effect st1 p st' ∧ daemon_inv st' ∧
    me st' = me st ∧ sent st' = sent st ∧
    v_state (self_view st1) ≠ SUP_STATE_UNKNOWN.
Proof using.
  intros [Hb Hp Hd Hsent] Hpok Hst. rewrite process_ping_eq by done.
  destruct (receive_ok ping_timeout st p Hb Hpok) as (st1 & -> & Hb1 & R). returned.
  pose proof (received_proto _ _ _ Hp R) as Hp1.
  assert (Hst1 : v_state (self_view st1) ≠ SUP_STATE_UNKNOWN).
  { by destruct (rc_view _ _ _ R) as (_ & _ & -> & _). }
  destruct (dispatch_ok st1 p Hb1 Hp1 Hst1) as (st2 & -> & He).
  destruct (effect_inv st1 p st2 Hb1 Hp1 Hst1 He) as (Hb2 & Hp2 & Hst2).
  destruct (effect_env st1 p st2 Hb1 He) as (Em & _ & Es & _).
  rewrite (rc_me _ _ _ R) in Em. rewrite (rc_sent _ _ _ R) in Es.
  exists st1, st2. split_and!; try done.
  split; try done. by rewrite Em, Es.
Qed.

Lemma daemon_do_ping st b :
  daemon_inv st → v_state (self_view st) ≠ SUP_STATE_UNKNOWN → daemon_inv (set_do_ping st b).
Proof using.
  intros [] Hst. split; try done; [by apply (base_same_cluster st)|].
  apply (proto_same_cluster st); try done.
Qed.

(** A turn never fails an assertion. *)
Lemma loop_turn_taken st t r :
  loop_turn ping_period ping_timeout st t = Some r →
  loop_turn ping_period ping_timeout st (mk_turn (elapsed t) (admind_exists t) true (recv t)) = Some r.
Proof using.
  unfold loop_turn. cbn [elapsed admind_exists evmgr_takes recv]. destruct (elapsed t <=? _); [|done]. cbn [exa_assert].
  case_if; [done|]. apply bind_mono. intros st1. destruct (recv t) as [| |p]; [done..|].
  destruct (sup_process_ping ping_timeout (evmgr_takes t) st1 p) as [st2|] eqn:E; [|done]. by rewrite (process_ping_taken _ _ _ _ _ E).
Qed.

Lemma loop_turn_ok st t :
  daemon_inv st → turn_ok t →
  (loop_turn ping_period ping_timeout st t = Some (Err (OTHER_ERR 1)) ∧
     do_ping st = true ∧ admind_exists t = false) ∨
  ∃ st', loop_turn ping_period ping_timeout st t = Some (Ok st') ∧ daemon_inv st' ∧
    v_state (self_view st') ≠ SUP_STATE_UNKNOWN ∧ me st' = me st ∧
    (∀ M, gen_inv M st → 0 <= M < 2 ^ 32 - 1 → (∀ p, recv t = RECV_PING p → ping_gens M p) →
       gen_inv (M + 1) st').
Proof using.
  intros Hd Ht. rewrite loop_turn_eq by done.
  destruct (do_ping st && negb (admind_exists t)) eqn:Ead; [left; by bool_to_prop|right].
  destruct (emit_ok st Hd) as (st1 & -> & Hd1 & Hst1 & G1 & Em1 & _ & _). returned.
  assert (Hs : struct_inv st) by apply Hd.
  destruct (recv t) as [| |p] eqn:Er.
  - eexists. split; [done|]. split; [by apply daemon_do_ping|]. split; [done|]. split; [done|].
    intros M Hg HM _. eapply gen_inv_mono; [|instantiate (1 := M); lia].
    eapply (same_gens_inv M st); [done| |done]. eapply same_gens_trans; [exact G1|]. by split.
  - exists st1. split_and!; try done. intros M Hg HM _.
    eapply gen_inv_mono; [by eapply same_gens_inv|lia].
  - destruct (process_ping_ok st1 p) as (st2 & st3 & -> & Hb2 & Hp2 & R & He & Hd3 & Em3 & _ & Hst2);
      [done|by apply Ht|done|]. returned.
    exists st3. split_and!; [done|done| |congruence|].
    + by apply (effect_inv st2 p st3).
    + intros M Hg HM Hpg. specialize (Hpg p eq_refl).
      eapply (effect_gen M st2 p); try done; [|apply Hpg].
      eapply (received_gen M p st1); [apply Hd1|lia|done|done|]. by eapply same_gens_inv.
Qed.

(** Starting an instance. *)
Definition start (local_id inc : Z) : option (result csupd_t) :=
  r ← init local_id inc;
  match r with
  | Err e => Some (Err e)
  | Ok st => st ← loop_start st; Some (Ok st)
  end.

Lemma init_ok i inc :
  valid_node i →
  ∃ st, init i inc = Some (Ok st) ∧ struct_inv st ∧ kn st = {[i]} ∧ me st = i ∧
    (∀ n, valid_node n → view (node st n) = sup_view_init) ∧
    incarnation (self_node st) = inc ∧ accepted_clique st = EXA_NODESET_EMPTY ∧
    delivered st = [] ∧ sent st = [].
Proof using.
  intros Hi. unfold init.
  destruct (add_node_ok sup_cluster_init i cluster_init_wf Hi) as
    (c & -> & Hc & _ & Hk & Hn & Ho); [by apply not_elem_of_empty|].
  returned. change (known_nodes sup_cluster_init) with EXA_NODESET_EMPTY in Hk.
  rewrite nodes_of_empty, union_empty_r_L in Hk.
  rewrite cluster_node_spec by done. returned.
  rewrite bool_decide_eq_true_2 by (rewrite Hk; set_solver). returned. cbv zeta.
  set (st0 := mk_csupd _ _ _ _ _ _ _ _).
  assert (Hin : i ∈ kn st0) by (simpl; rewrite Hk; set_solver).
  assert (Hs0 : struct_inv st0) by (split; [by apply with_self_wf|done|done]).
  eexists. split; [reflexivity|]. split_and!; try done.
  - apply struct_put; [done|done|by apply (node_id st0)|by apply node_view_wf].
  - intros n Hv. rewrite node_put by done. case_if.
    + change (view (get_node c i) = sup_view_init). by rewrite Hn.
    + change (view (get_node c n) = sup_view_init). rewrite Ho by done.
      unfold get_node, sup_cluster_init, nodes. rewrite lookup_total_replicate_2; [done|]. unfold valid_node in Hv. lia.
  - change (self_node (put_node st0 i (set_incarnation (self_node st0) inc)))
      with (node (put_node st0 i (set_incarnation (self_node st0) inc)) i).
    by rewrite node_put, Z.eqb_refl.
Qed.

Lemma start_ok i inc :
  valid_node i → inc ≠ 0 →
  ∃ st, start i inc = Some (Ok st) ∧ daemon_inv st ∧ gen_inv 0 st ∧ me st = i ∧
    delivered st = [] ∧ sent st = [].
Proof using.
  intros Hi Hinc. unfold start.
  destruct (init_ok i inc Hi) as (st1 & -> & Hs1 & Hk & Hm & Hview & Hi1 & Hacc & Hdel & Hsent).
  returned. unfold loop_start. rewrite Hm.
  destruct (mark_alive_ok st1 i Hs1) as (st2 & -> & Hs2 & F & Hsee & Hl & Hch);
    [rewrite Hk; set_solver|]. do 2 returned.
  eexists. split; [reflexivity|].
  destruct (fr_view _ _ F) as (Ecl & Eco & Est & Ea & Ecm).
  assert (Hv1 : self_view st1 = sup_view_init) by (apply Hview; by rewrite Hm).
  rewrite Hv1 in *.
  assert (Hme : me st2 = i) by (by rewrite (fr_me _ _ F)).
  assert (Hk2 : kn st2 = {[i]}) by (by rewrite (fr_known _ _ F)).
  assert (Hch2 : self_view_changed st2 = true).
  { destruct Hch as [Hch|?]; [|done]. exfalso. revert Hch.
    unfold sees. rewrite Hm. fold (node st1 i). rewrite Hview by done. apply not_elem_of_empty. }
  assert (Hb2 : base_inv st2).
  { split; [done| |unfold self_node; by rewrite Hme|by rewrite (fr_inca _ _ F), Hi1].
    intros n. rewrite Hk2. intros ->%elem_of_singleton. by rewrite <- Hm at 2. }
  assert (Hgen : ∀ n, valid_node n → accepted (view (node st2 n)) = 0 ∧
    committed (view (node st2 n)) = 0).
  { intros n Hn. destruct (sg_views st1 st2 (frame_same_gens _ _ Hs1 F) n Hn) as [-> ->].
    by rewrite Hview. }
  split_and!; [split| |done|by rewrite <- Hdel, <- (fr_deliv _ _ F)|by rewrite <- Hsent, <- (fr_sent _ _ F)].
  - by apply (base_same_cluster st2).
  - apply (proto_same_cluster st2); try done.
    split; rewrite ?Ecl, ?Est; try done. rewrite (fr_acc _ _ F), Hacc. apply empty_wf.
  - done.
  - intros p Hp. cbn in Hp. rewrite (fr_sent _ _ F), Hsent in Hp. by apply elem_of_nil in Hp.
  - change (self_view (set_do_ping st2 true)) with (self_view st2).
    assert (Edl : delivered (set_do_ping st2 true) = [])
      by (by rewrite <- Hdel, <- (fr_deliv _ _ F)).
    split; change (self_view (set_do_ping st2 true)) with (self_view st2);
      rewrite ?Ea, ?Ecm, ?Est, ?Edl; simpl; try done; [|by intros ? ? ?%elem_of_nil|constructor].
    intros n Hn. change (node (set_do_ping st2 true) n) with (node st2 n).
    destruct (Hgen n Hn). lia.
Qed.
End ping.
