(* ===== verification/Membership.v ===== *)
(** * The membership protocol

    What the supervision daemons of [Csupd] guarantee, alone and together:
    runs of one instance, a system of instances that start, stop and exchange
    their pings, and the safety properties of the memberships they deliver. *)

From S2P Require Import Prelude Nodeset SupCluster SupClique Csupd.
From stdpp Require Import options.

(** ** Runs of one instance *)

Section runs.
Context `{!Qsort} (ping_period ping_timeout : Z).

(** The main loop on a sequence of turns, stopped by an exit of the daemon. *)
Fixpoint run (st : csupd_t) (turns : list turn_t) : option (result csupd_t) :=
  match turns with
  | [] => Some (Ok st)
  | t :: turns' =>
      r ← loop_turn ping_period ping_timeout st t;
      match r with
      | Ok st' => run st' turns'
      | Err e => Some (Err e)
      end
  end.

Lemma run_ok turns st :
  daemon_inv st → Forall (turn_ok ping_timeout) turns →
  ∃ r, run st turns = Some r ∧
    match r with
    | Ok st' => daemon_inv st' ∧ me st' = me st ∧
        ∀ M0 M, gen_inv M st → 0 <= M0 <= M → M + Z.of_nat (length turns) < 2 ^ 32 - 1 →
          Forall (λ t, ∀ p, recv t = RECV_PING p → ping_gens M0 p) turns →
          gen_inv (M + Z.of_nat (length turns)) st'
    | Err e => e = OTHER_ERR 1 ∧ Exists (λ t, admind_exists t = false) turns
    end.
Proof using.
  intros Hd Ht. revert st Hd. induction Ht as [|t turns Ht _ IH]; intros st Hd; cbn [run].
  { eexists. split; [done|]. split_and!; try done. intros M0 M Hg _ _ _.
    eapply gen_inv_mono; [done|]. simpl. lia. }
  destruct (loop_turn_ok ping_period ping_timeout st t Hd Ht)
    as [(-> & _ & Ha)|(st1 & -> & Hd1 & _ & Em & Hgen)]; returned.
  { eexists. split; [done|]. split; [done|]. by left. }
  destruct (IH st1 Hd1) as (r & -> & Hr). eexists. split; [done|].
  destruct r as [st2|e]; cycle 1.
  { destruct Hr as [-> Hex]. split; [done|]. by right. }
  destruct Hr as (Hd2 & Em2 & Hg2). split_and!; [done|congruence|].
  intros M0 M Hg HM Hlt Hp. rewrite Forall_cons in Hp. destruct Hp as [Hpt Hp].
  cbn [length] in *. replace (M + Z.of_nat (S (length turns)))
    with (M + 1 + Z.of_nat (length turns)) by lia.
  apply (Hg2 M0); [|lia..|done]. apply Hgen; [done|lia|].
  intros p Hp'. destruct (Hpt p Hp') as [? ?]. unfold ping_gens. lia.
Qed.
End runs.

(** ** A system of instances

    Instances start (with any non-zero incarnation, also after a stop), take
    turns and stop. A turn receives any ping that was ever sent, by any
    instance and in any order; each turn may use its own [qsort]. *)

Record system := mk_system {
  daemons : gmap Z csupd_t;
  net : list sup_ping_t
}.

Section system.
Context (ping_period ping_timeout : Z).

(** A turn that the network allows. *)
Definition allowed (S : system) (t : turn_t) : Prop :=
  elapsed t <= Z.quot (ping_timeout + 1) 2 ∧ evmgr_takes t = true ∧ ∀ p, recv t = RECV_PING p → p ∈ net S.

Inductive sys_step (S : system) : system → Prop :=
  | sys_start i inc st :
      valid_node i → inc ≠ 0 → start i inc = Some (Ok st) →
      sys_step S (mk_system (<[i := st]> (daemons S)) (net S))
  | sys_turn (Q : Qsort) i st t st' :
      daemons S !! i = Some st → allowed S t →
      loop_turn ping_period ping_timeout st t = Some (Ok st') →
      sys_step S (mk_system (<[i := st']> (daemons S)) (sent st' ++ net S))
  | sys_stop i :
      sys_step S (mk_system (delete i (daemons S)) (net S)).

Definition sys_init : system := mk_system ∅ [].

Definition reachable (S : system) : Prop := rtc sys_step sys_init S.

Record sys_inv (S : system) : Prop := {
  sv_daemons : ∀ i st, daemons S !! i = Some st → daemon_inv st ∧ me st = i;
  sv_net : ∀ p, p ∈ net S → ping_ok p
}.

Lemma allowed_turn_ok S t : sys_inv S → allowed S t → turn_ok ping_timeout t.
Proof using. intros HS (He & Ht & Hp). split; [done|done|]. intros p Hr. by apply HS, Hp. Qed.

Lemma sys_step_inv S S' : sys_inv S → sys_step S S' → sys_inv S'.
Proof using.
  intros HS Hstep. destruct Hstep as [i inc st Hi Hinc Hst|Q i st t st' Hl Ha Ht|i].
  - destruct (start_ok i inc Hi Hinc) as (st' & E & Hd & _ & Hm & _).
    rewrite E in Hst. injection Hst as ->. split; [|apply HS]. simpl. intros j st1.
    rewrite lookup_insert_Some. intros [[<- <-]|[_ ?]]; [done|by apply HS].
  - destruct (sv_daemons _ HS i st Hl) as [Hd Hm].
    pose proof (allowed_turn_ok S t HS Ha) as Hok.
    destruct (loop_turn_ok ping_period ping_timeout st t Hd Hok)
      as [(E & _)|(st1 & E & Hd1 & _ & Em & _)]; rewrite E in Ht; [done|].
    injection Ht as ->. split; simpl.
    + intros j st2. rewrite lookup_insert_Some. intros [[<- <-]|[_ ?]]; [by rewrite Em|by apply HS].
    + intros p [Hp|Hp]%elem_of_app; [by apply Hd1|by apply HS].
  - split; [|apply HS]. simpl. intros j st. rewrite lookup_delete_Some. intros [_ ?]. by apply HS.
Qed.

Lemma reachable_inv S : reachable S → sys_inv S.
Proof using.
  intros Hr. pattern S. eapply (rtc_ind_r _ sys_init); [|intros; by eapply sys_step_inv|exact Hr].
  split; simpl; [intros i st; by rewrite lookup_empty|by intros p ?%elem_of_nil].
Qed.
End system.

(** ** Properties *)



(** The state of the instance of node 0, started alone, after [turns]. *)
Definition run_from (inc : Z) (turns : list turn_t) : option csupd_t :=
  r ← start 0 inc;
  match r with
  | Ok st => r ← @run isort_qsort 1 5 st turns; match r with Ok st' => Some st' | Err _ => None end
  | Err _ => None
  end.

Definition quiet : turn_t := mk_turn 0 true true RECV_NOTHING.
Definition tick : turn_t := mk_turn 0 true true RECV_TIMEOUT.
Definition got (p : sup_ping_t) : turn_t := mk_turn 0 true true (RECV_PING p).

Definition started : csupd_t := default (mk_csupd sup_cluster_init 0 false false
  EXA_NODESET_EMPTY false [] []) (run_from 1 []).


(** C6: one coordinator per clique. In every reachable state, an instance that
    has computed a clique belongs to it and its coordinator is the smallest
    node of the clique; therefore two instances with the same clique have the
    same coordinator, and at most one of them acts as coordinator. *)
Theorem one_coordinator_per_clique ping_period ping_timeout S i j st1 st2 :
  reachable ping_period ping_timeout S →
  daemons S !! i = Some st1 → daemons S !! j = Some st2 →
  v_state (self_view st1) ≠ SUP_STATE_UNKNOWN → v_state (self_view st2) ≠ SUP_STATE_UNKNOWN →
  clique (self_view st1) = clique (self_view st2) →
  i ∈ nodes_of (clique (self_view st1)) ∧
  coord (self_view st1) ∈ nodes_of (clique (self_view st1)) ∧
  coord (self_view st1) = coord (self_view st2) ∧
  (self_is_coord st1 = true → self_is_coord st2 = true → i = j).
Proof.
  intros Hr Hl1 Hl2 Hs1 Hs2 Ec. pose proof (reachable_inv _ _ _ Hr) as HS.
  destruct (sv_daemons _ HS i st1 Hl1) as [[Hb1 Hp1 _ _] Hm1].
  destruct (sv_daemons _ HS j st2 Hl2) as [[Hb2 Hp2 _ _] Hm2].
  pose proof (pr_in _ Hp1 Hs1) as Hi. pose proof (pr_in _ Hp2 Hs2) as Hj.
  destruct (pr_coord _ Hp1 _ Hi) as [Hc1 _]. destruct (pr_coord _ Hp2 _ Hj) as [Hc2 _].
  assert (Eco : coord (self_view st1) = coord (self_view st2)).
  { rewrite Ec in Hc1. destruct (pr_coord _ Hp2 _ Hc1) as [_ H1].
    rewrite <- Ec in Hc2. destruct (pr_coord _ Hp1 _ Hc2) as [_ H2]. lia. }
  split_and!; [by rewrite <- Hm1|done|done|].
  unfold self_is_coord, self_node. rewrite !node_id by (apply Hb1 || apply Hb2).
  rewrite Hm1, Hm2, Eco, !Z.eqb_eq. congruence.
Qed.

(** Node 0 after it computed its first clique. *)
Definition alone : csupd_t := default started (run_from 1 [quiet]).

Lemma alone_reachable : reachable 1 5 (mk_system (<[0 := alone]> {[0 := started]}) (sent alone ++ [])).
Proof.
  apply (rtc_l _ _ (mk_system {[0 := started]} [])).
  - apply (sys_start 1 5 sys_init 0 1 started); [done|done|]. vm_compute. reflexivity.
  - apply rtc_once.
    pose proof (sys_turn 1 5 (mk_system {[0 := started]} []) isort_qsort 0 started quiet alone) as H.
    cbn [daemons net] in H. apply H.
    + apply lookup_singleton_eq.
    + split; [by vm_compute|done].
    + vm_compute. reflexivity.
Qed.

Lemma one_coordinator_per_clique_witness :
  coord (self_view alone) ∈ nodes_of (clique (self_view alone)) ∧
  (self_is_coord alone = true → self_is_coord alone = true → 0 = 0).
Proof.
  destruct (one_coordinator_per_clique 1 5 (mk_system (<[0 := alone]> {[0 := started]}) (sent alone ++ [])) 0 0 alone alone)
    as (_ & H1 & _ & H2).
  - exact alone_reachable.
  - apply lookup_insert_eq.
  - apply lookup_insert_eq.
  - vm_compute. intros H. discriminate H.
  - vm_compute. intros H. discriminate H.
  - reflexivity.
  - split; [exact H1|exact H2].
Defined.

(** C21: the memberships an instance delivers. Whatever sequence of turns an
    instance goes through, as long as fewer than 2^32 - 1 generations are in
    use, it does not abort, the generations of the memberships it delivers
    are strictly increasing and positive, the last one committed is an upper
    bound, and the local node is a member of every membership delivered. *)
Theorem deliveries_increase ping_period ping_timeout (Q : Qsort) i inc M turns :
  valid_node i → inc ≠ 0 → Forall (turn_ok ping_timeout) turns →
  Forall (λ t, ∀ p, recv t = RECV_PING p → ping_gens M p) turns →
  0 <= M → M + Z.of_nat (length turns) < 2 ^ 32 - 1 →
  ∃ st r, start i inc = Some (Ok st) ∧ run ping_period ping_timeout st turns = Some r ∧
    match r with
    | Err e => e = OTHER_ERR 1
    | Ok st' =>
        StronglySorted (λ a b, b.1 < a.1) (delivered st') ∧
        ∀ g m, (g, m) ∈ delivered st' → 0 < g <= committed (self_view st') ∧ i ∈ nodes_of m
    end.
Proof.
  intros Hi Hinc Ht Hp HM Hlt.
  destruct (start_ok i inc Hi Hinc) as (st & -> & Hd & Hg & Hm & _).
  destruct (run_ok ping_period ping_timeout turns st Hd Ht) as (r & Er & Hr).
  exists st, r. split_and!; [done|done|]. destruct r as [st'|e]; [|apply Hr].
  destruct Hr as (_ & Em & Hgen).
  assert (Hg' : gen_inv (M + Z.of_nat (length turns)) st').
  { apply (Hgen M); [eapply gen_inv_mono; [done|lia]|lia|lia|done]. }
  split; [apply Hg'|]. rewrite <- Hm, <- Em. apply Hg'.
Qed.

(** A ping of node [s], incarnation [inc], that sees [seen] (highest node [n - 1])
    and says [stt] with clique [cl], coordinator [co] and accepted generation [acc]. *)
Definition ping_of (s inc : Z) (stt : sup_state_t) (seen : Z) (n : Z) (cl co acc : Z) : sup_ping_t :=
  mk_ping s inc (mk_view stt n (mk_nodeset [seen; 0]) (mk_nodeset [cl; 0]) co acc 0).

(** Node 0 alone accepts, then commits, its own membership. *)
Definition solo_turns : list turn_t :=
  [got (ping_of 0 1 SUP_STATE_CHANGE 1 1 1 0 0); tick; got (ping_of 0 1 SUP_STATE_ACCEPT 1 1 1 0 1)].

Lemma ping_of_ok s inc stt seen n cl co acc :
  bool_decide (valid_node s) = true → inc ≠ 0 → stt ≠ SUP_STATE_UNKNOWN →
  bool_decide (fits 64 seen ∧ fits 64 cl) = true →
  bool_decide (s ∈ nodes_of (mk_nodeset [seen; 0]) ∧ n - 1 ∈ nodes_of (mk_nodeset [seen; 0]) ∧
    set_Forall (λ k, k < n) (nodes_of (mk_nodeset [seen; 0]))) = true →
  ping_ok (ping_of s inc stt seen n cl co acc).
Proof.
  intros Hs Hi Hst [H1 H2]%bool_decide_eq_true (Hin & Hn & Hall)%bool_decide_eq_true.
  apply bool_decide_eq_true in Hs. split; try done. simpl.
  split_and!; [by apply nodeset_wf_intro..|]. right. split; [done|]. intros k Hk. by apply Hall.
Qed.

Lemma solo_ok : Forall (turn_ok 5) solo_turns.
Proof.
  repeat (apply Forall_cons; split); [..|by apply Forall_nil]; (split; [by vm_compute|done|]);
    intros p [= <-]; apply ping_of_ok; done || by vm_compute.
Qed.

Lemma deliveries_increase_witness :
  ∃ st r, start 0 1 = Some (Ok st) ∧ @run isort_qsort 1 5 st solo_turns = Some r ∧
    match r with
    | Err e => e = OTHER_ERR 1
    | Ok st' =>
        StronglySorted (λ a b, b.1 < a.1) (delivered st') ∧
        ∀ g m, (g, m) ∈ delivered st' → 0 < g <= committed (self_view st') ∧ 0 ∈ nodes_of m
    end.
Proof.
  apply (deliveries_increase 1 5 isort_qsort 0 1 1 solo_turns).
  - unfold valid_node, EXA_MAX_NODES_NUMBER. lia.
  - lia.
  - exact solo_ok.
  - apply Forall_forall. intros t Ht p Hp. unfold solo_turns in Ht.
    repeat (apply elem_of_cons in Ht as [->|Ht]); try discriminate Hp;
      try (injection Hp as <-; unfold ping_gens; simpl; lia). by apply elem_of_nil in Ht.
  - lia.
  - simpl. lia.
Defined.

(** The information on the nodes at the time of a commit. *)
Lemma commit_views st st' n :
  base_inv st → commit_clique true st = Some st' → valid_node n →
  nodes_seen (view (node st' n)) = nodes_seen (view (node st n)) ∧
  num_seen (view (node st' n)) = num_seen (view (node st n)) ∧
  clique (view (node st' n)) = clique (view (node st n)) ∧
  accepted (view (node st' n)) = accepted (view (node st n)).
Proof.
  intros Hb Hc Hn. assert (Hs : struct_inv st) by apply Hb.
  rewrite (commit_eq st st' Hs Hc). unfold set_self_view. rewrite node_put.
  - case_if; [by subst|done].
  - destruct Hs. by split.
  - simpl. eauto with exa.
  - done.
Qed.

(** C7: the commit rule. When processing a ping makes an instance deliver a
    membership, that is the membership it accepted last, with the accepted
    generation, and either the instance is not the coordinator and the sender of
    the ping (whichever node it is: the code does not compare it with the
    coordinator) says that it has committed the same membership with the same
    generation, or the instance is the coordinator, the membership is its
    clique, and every member below [num_seen] is seen and has announced the same
    clique and the acceptance of that generation. Nothing is said of the members
    from [num_seen] on, which the loops of the code do not look at. *)
Theorem commit_rule ping_timeout taken st p st' :
  daemon_inv st → ping_ok p → v_state (self_view st) ≠ SUP_STATE_UNKNOWN →
  sup_process_ping ping_timeout taken st p = Some st' → delivered st' ≠ delivered st →
  delivered st' = (accepted (self_view st), accepted_clique st) :: delivered st ∧
  committed (self_view st') = accepted (self_view st) ∧
  ((self_is_coord st = false ∧ v_state (p_view p) = SUP_STATE_COMMIT ∧
    clique (p_view p) = accepted_clique st ∧
    committed (p_view p) = accepted (self_view st) ∧
    committed (self_view st) < committed (p_view p)) ∨
   (self_is_coord st = true ∧ v_state (p_view p) = SUP_STATE_ACCEPT ∧
    accepted_clique st = clique (self_view st) ∧
    ∀ n, n ∈ nodes_of (accepted_clique st) → n < num_seen (self_view st') →
      n ∈ seen_by st' (me st) ∧ clique (view (node st' n)) = accepted_clique st ∧
      accepted (view (node st' n)) = accepted (self_view st))).
Proof.
  intros Hd Hp Hst E%process_ping_taken Hne.
  destruct (process_ping_ok ping_timeout st p Hd Hp Hst)
    as (st1 & st2 & E2 & Hb1 & Hp1 & R & He & _ & Em & _ & Hst1).
  rewrite E in E2. injection E2 as <-.
  destruct (rc_view _ _ _ R) as (Ecl & Eco & Est & Ea & Ec).
  assert (Hs1 : struct_inv st1) by apply Hb1. assert (Hs : struct_inv st) by apply Hd.
  assert (Ecoord : self_is_coord st1 = self_is_coord st).
  { unfold self_is_coord, self_node. rewrite Eco, !node_id by (apply Hs1 || apply Hs).
    by rewrite (rc_me _ _ _ R). }
  destruct He as [|g _ _ _ _|_ _ _ _ _ _|st' Hsta Hco Hpst Hacc Hc|st' _ Hco Hpst Hseen Hc].
  - by rewrite (rc_deliv _ _ _ R) in Hne.
  - rewrite accept_eq in Hne by done. by rewrite <- (rc_deliv _ _ _ R) in Hne.
  - rewrite accept_eq in Hne by done. by rewrite <- (rc_deliv _ _ _ R) in Hne.
  - destruct (commit_inv st1 st' Hb1 Hp1 Hst1 Hc) as (_ & _ & Ev).
    split; [|split; [by rewrite Ev; simpl|]].
    { rewrite (commit_eq _ _ Hs1 Hc). simpl. by rewrite Ea, (rc_acc _ _ _ R), (rc_deliv _ _ _ R). }
    right. rewrite <- Ecoord. rewrite <- (rc_acc _ _ _ R), <- Ecl.
    pose proof (pr_accept _ Hp1 Hsta) as Eacc. split_and!; try done.
    destruct (clique_all_ok st1 Hb1 Hp1 (λ n, accepted (view n) =? accepted (self_view st1)))
      as (b & Eb & Hall). fold (clique_has_accepted st1 (accepted (self_view st1))) in Eb.
    rewrite Hacc in Eb. injection Eb as <-.
    intros n Hn Hlt. pose proof (nodes_valid _ _ Hn) as Hvn.
    destruct (commit_views st1 st' n Hb1 Hc Hvn) as (_ & _ & -> & ->).
    destruct (commit_views st1 st' (me st1) Hb1 Hc) as (Esn & Enn & _); [eauto with exa|].
    rewrite Eacc in Hn |- *. destruct (proj1 Hall eq_refl n) as (H1 & H2 & H3%Z.eqb_eq); [|done|].
    + rewrite Ev in Hlt. done.
    + split_and!; [|done|by rewrite H3]. unfold sees. fold (node st' (me st)).
      rewrite <- (rc_me _ _ _ R), Esn. exact H1.
  - destruct (commit_inv st1 st' Hb1 Hp1 Hst1 Hc) as (_ & _ & Ev).
    split; [|split; [by rewrite Ev; simpl|]].
    { rewrite (commit_eq _ _ Hs1 Hc). simpl. by rewrite Ea, (rc_acc _ _ _ R), (rc_deliv _ _ _ R). }
    left. rewrite <- Ecoord. rewrite <- (rc_acc _ _ _ R), <- Ea, <- Ec.
    unfold commit_seen in Hseen. bool_to_prop.
    split_and!; try done. apply equals_eq; [apply Hp|apply Hp1|done].
Qed.

Definition solo_accepted : csupd_t := default started (run_from 1
  [got (ping_of 0 1 SUP_STATE_CHANGE 1 1 1 0 0); tick; quiet]).

Lemma solo_accepted_inv : daemon_inv solo_accepted.
Proof.
  destruct (start_ok 0 1) as (st & Es & Hd & _); [done|done|].
  destruct (@run_ok isort_qsort 1 5 [got (ping_of 0 1 SUP_STATE_CHANGE 1 1 1 0 0); tick; quiet] st Hd)
    as (r & Er & Hr).
  { repeat (apply Forall_cons; split); [..|by apply Forall_nil]; (split; [by vm_compute|done|]);
      intros p [= <-]; apply ping_of_ok; done || by vm_compute. }
  assert (Erun : run_from 1 [got (ping_of 0 1 SUP_STATE_CHANGE 1 1 1 0 0); tick; quiet]
    = match r with Ok st' => Some st' | Err _ => None end).
  { unfold run_from. rewrite Es. returned. rewrite Er. by returned. }
  destruct r as [st'|e].
  - unfold solo_accepted. rewrite Erun. apply Hr.
  - exfalso. assert (Hn : is_Some (run_from 1
      [got (ping_of 0 1 SUP_STATE_CHANGE 1 1 1 0 0); tick; quiet])).
    { apply (is_Some_alt _). vm_compute. exact I. }
    rewrite Erun in Hn. by destruct Hn.
Qed.

Lemma commit_rule_witness :
  ∃ st', sup_process_ping 5 true solo_accepted (ping_of 0 1 SUP_STATE_ACCEPT 1 1 1 0 1) = Some st' ∧
    delivered st' = [(1, mk_nodeset [1; 0])] ∧
    committed (self_view st') = accepted (self_view solo_accepted).
Proof.
  destruct (sup_process_ping 5 true solo_accepted (ping_of 0 1 SUP_STATE_ACCEPT 1 1 1 0 1)) as [st'|] eqn:E.
  - assert (Ed : delivered <$> sup_process_ping 5 true solo_accepted
        (ping_of 0 1 SUP_STATE_ACCEPT 1 1 1 0 1) = Some [(1, mk_nodeset [1; 0])])
      by (vm_compute; reflexivity).
    rewrite E in Ed. injection Ed as Ed.
    exists st'. split; [reflexivity|]. split; [exact Ed|].
    apply (commit_rule 5 true solo_accepted (ping_of 0 1 SUP_STATE_ACCEPT 1 1 1 0 1) st').
    + exact solo_accepted_inv.
    + apply ping_of_ok; [vm_compute; reflexivity|lia|discriminate|vm_compute; reflexivity..].
    + vm_compute. intros H. discriminate H.
    + exact E.
    + rewrite Ed. vm_compute. intros H. discriminate H.
  - exfalso. revert E. vm_compute. intros H. discriminate H.
Defined.

(** Node 0 is the coordinator of {0, 1, 2} and proposes generation 2; node [m]
    accepts it; node [n], which has not, restarts before the timeout; node [m]
    repeats its acceptance. *)
Definition restart_turns (n m : Z) : list turn_t :=
  [got (ping_of 1 1 SUP_STATE_CHANGE 7 3 7 0 0); got (ping_of 2 1 SUP_STATE_CHANGE 7 3 7 0 0); tick;
   got (ping_of m 1 SUP_STATE_CHANGE 7 3 7 0 0); tick;
   got (ping_of m 1 SUP_STATE_ACCEPT 7 3 7 0 2);
   got (ping_of n 2 SUP_STATE_CHANGE (2 ^ n) (n + 1) (2 ^ n) n 0);
   got (ping_of m 1 SUP_STATE_ACCEPT 7 3 7 0 2)].

(** The outcome of a run: what was delivered, whether node [n] is seen, and the
    generation it accepted. *)
Definition outcome (n : Z) (turns : list turn_t) : option (list (Z * exa_nodeset_t) * option bool * Z) :=
  (λ st, (delivered st, self_sees st n, accepted (view (node st n)))) <$> run_from 1 turns.

(** The two loops that check the members of the clique stop at [num_seen],
    so that they skip the members above the highest node seen. When the
    highest member restarts before the timeout, the coordinator delivers a
    membership with that member, which it no longer sees and which never
    accepted; when another member does, nothing is delivered. *)
Theorem commit_skips_highest_member :
  outcome 2 (restart_turns 2 1) = Some ([(2, mk_nodeset [7; 0])], Some false, 0) ∧
  outcome 1 (restart_turns 1 2) = Some ([], Some false, 0).
Proof. split; vm_compute; reflexivity. Qed.
