(* ===== verification/Extent.v ===== *)
(** * Lists of extents

    Model of [vrt/assembly/src/extent.c] and [vrt/assembly/include/extent.h]:
    sets of 64-bit values kept as chained lists of intervals. The chunk
    allocator keeps the free chunks of every device in such a list. A chained
    list is a Rocq list (no cell is shared between two lists); a failed
    allocation aborts in the code and is not modelled. Serialisation is not
    modelled here. *)

From S2P Require Import Prelude.
From stdpp Require Import options.

(** ** Data and operations *)

Record extent_t := mk_extent { e_start : Z; e_end : Z }.

#[export] Instance extent_eq_dec : EqDecision extent_t.
Proof. solve_decision. Defined.

Fixpoint get_num_values_loop (cur : list extent_t) (count : Z) : Z :=
  match cur with
  | [] => count
  | e :: next => get_num_values_loop next (u64 (count + u64 (u64 (e_end e - e_start e) + 1)))
  end.

Definition extent_list_get_num_values (l : list extent_t) : Z := get_num_values_loop l 0.

Definition extent_list_count (l : list extent_t) : Z := u32 (Z.of_nat (length l)).

Definition extent_new (start end_ : Z) : extent_t := mk_extent start end_.

(** Merging the extent that was expanded with its neighbours. [visited] holds
    the extents before [cur], the last one ([prev]) first. *)
Definition merge_neighbours (visited : list extent_t) (cur : extent_t) (rest : list extent_t)
    : list extent_t :=
  let merge_next :=
    match rest with
    | next :: rest' =>
        if u64 (e_start next - 1) <=? e_end cur
        then rev visited ++ mk_extent (e_start cur) (e_end next) :: rest'
        else rev visited ++ cur :: rest
    | [] => rev visited ++ cur :: rest
    end in
  match visited with
  | prev :: visited' =>
      if u64 (e_start cur - 1) <=? e_end prev
      then rev visited' ++ mk_extent (e_start prev) (e_end cur) :: rest
      else merge_next
  | [] => merge_next
  end.

(** The [for] loop of [extent_list_add_value] and what follows it. *)
Fixpoint add_value_loop (visited l : list extent_t) (value : Z) : option (list extent_t) :=
  match l with
  | [] =>
      assert! (negb (bool_decide (visited = [])));
      Some (rev visited ++ [extent_new value value])
  | cur :: next =>
      if (e_start cur <=? value) && (value <=? e_end cur) then Some (rev visited ++ l)
      else if value =? u64 (e_start cur - 1) then
        Some (merge_neighbours visited (mk_extent (u64 (e_start cur - 1)) (e_end cur)) next)
      else if value =? u64 (e_end cur + 1) then
        Some (merge_neighbours visited (mk_extent (e_start cur) (u64 (e_end cur + 1))) next)
      else if (e_end cur <? value) &&
        match next with n :: _ => u64 (value + 1) <? e_start n | [] => false end
      then Some (rev visited ++ cur :: extent_new value value :: next)
      else add_value_loop (cur :: visited) next value
  end.

Definition extent_list_add_value (l : list extent_t) (value : Z) : option (list extent_t) :=
  match l with
  | [] => Some [extent_new value value]
  | first :: _ =>
      if (0 <? e_start first) && (value <? u64 (e_start first - 1))
      then Some (extent_new value value :: l)
      else add_value_loop [] l value
  end.

(** The loop of [extent_list_remove_value]. An extent that is shrunk and not
    emptied does not end the loop. *)
Fixpoint remove_value_loop (visited l : list extent_t) (value : Z) : list extent_t :=
  match l with
  | [] => rev visited
  | cur :: next =>
      if (value =? e_start cur) || (value =? e_end cur) then
        let cur' := if value =? e_start cur
                    then mk_extent (u64 (e_start cur + 1)) (e_end cur)
                    else mk_extent (e_start cur) (u64 (e_end cur - 1)) in
        if e_end cur' <? e_start cur' then rev visited ++ next
        else remove_value_loop (cur' :: visited) next value
      else if (e_start cur <? value) && (value <? e_end cur) then
        rev visited ++ mk_extent (e_start cur) (u64 (value - 1))
          :: extent_new (u64 (value + 1)) (e_end cur) :: next
      else remove_value_loop (cur :: visited) next value
  end.

Definition extent_list_remove_value (l : list extent_t) (value : Z) : list extent_t :=
  remove_value_loop [] l value.

Fixpoint extent_list_contains_value (l : list extent_t) (value : Z) : bool :=
  match l with
  | [] => false
  | cur :: next =>
      if (e_start cur <=? value) && (value <=? e_end cur) then true
      else extent_list_contains_value next value
  end.

(** The values that [extent_list_iter_for_each] visits, in order.  No extent ends
    at the last 64-bit value: the loop on such an extent would not end. *)
Definition extent_list_iter_for_each (l : list extent_t) : list Z :=
  concat (map (λ e, seqZ (e_start e) (e_end e - e_start e + 1)) l).

(** ** Well-formed lists

    Extents in increasing order, not empty, disjoint and not adjacent. The
    last 64-bit value is excluded: the code wraps around on it. *)

Definition MAX_VALUE : Z := 2 ^ 64 - 1.

Definition value_ok (v : Z) : Prop := 0 <= v < MAX_VALUE.

Fixpoint extents_from (lo : Z) (l : list extent_t) : Prop :=
  match l with
  | [] => True
  | e :: l' => lo <= e_start e <= e_end e ∧ e_end e < MAX_VALUE ∧ extents_from (e_end e + 2) l'
  end.

Definition extents_wf (l : list extent_t) : Prop := extents_from 0 l.

Abbreviation has := extent_list_contains_value.

Lemma extents_from_le lo lo' l : extents_from lo l → lo' <= lo → extents_from lo' l.
Proof. destruct l; simpl; [done|]. intros ? ?. split_and!; try lia; tauto. Qed.

Lemma has_spec l v : has l v = true ↔ ∃ e, e ∈ l ∧ e_start e <= v <= e_end e.
Proof.
  induction l as [|e l IH]; simpl.
  { split; [done|]. intros (e & He & _). by apply elem_of_nil in He. }
  destruct ((e_start e <=? v) && (v <=? e_end e)) eqn:E; bool_to_prop.
  - split; [|done]. intros _. exists e. split; [by left|lia].
  - rewrite IH. split.
    + intros (e' & He & ?). exists e'. split; [by right|done].
    + intros (e' & [->|He]%elem_of_cons & ?); [|by exists e'].
      apply andb_false_iff in E. lia.
Qed.

Lemma has_lower lo l v : extents_from lo l → v < lo → has l v = false.
Proof.
  revert lo. induction l as [|e l IH]; intros lo; simpl; [done|].
  intros (H1 & H2 & H3) Hv. replace (e_start e <=? v) with false by lia. simpl.
  eapply IH; [exact H3|]. lia.
Qed.

(** *** Reference insertion and removal *)

(** Insertion in a sorted list of intervals, as one recursive function. *)
Fixpoint ins (v : Z) (l : list extent_t) : list extent_t :=
  match l with
  | [] => [mk_extent v v]
  | e :: l' =>
      if v <? e_start e - 1 then mk_extent v v :: l
      else if v =? e_start e - 1 then mk_extent v (e_end e) :: l'
      else if v <=? e_end e then l
      else if v =? e_end e + 1 then
        match l' with
        | n :: l'' =>
            if e_start n =? v + 1 then mk_extent (e_start e) (e_end n) :: l''
            else mk_extent (e_start e) v :: l'
        | [] => [mk_extent (e_start e) v]
        end
      else e :: ins v l'
  end.

Fixpoint del (v : Z) (l : list extent_t) : list extent_t :=
  match l with
  | [] => []
  | e :: l' =>
      if v <? e_start e then l
      else if e_end e <? v then e :: del v l'
      else (if e_start e <? v then [mk_extent (e_start e) (v - 1)] else []) ++
           (if v <? e_end e then [mk_extent (v + 1) (e_end e)] else []) ++ l'
  end.

Definition num_values (l : list extent_t) : Z :=
  zsum (map (λ e, e_end e - e_start e + 1) l).

Ltac extent_cases := repeat (case_if; simpl in *); bool_to_prop; simpl in *.

Lemma ins_from lo l v :
  extents_from lo l → lo <= v → value_ok v → extents_from lo (ins v l).
Proof.
  unfold value_ok. revert lo. induction l as [|e l IH]; intros lo Hl Hv Hok; simpl in *; [lia|].
  destruct Hl as (H1 & H2 & H3). case_if; [simpl; split_and!; done || lia|].
  case_if; [simpl; split_and!; done || lia|]. case_if; [done|].
  case_if; [|simpl; split_and!; [lia..|]; apply IH; done || lia].
  destruct l as [|n l]; simpl in *; [lia|]. destruct H3 as (H3 & H4 & H5).
  case_if; simpl; split_and!; done || lia.
Qed.

(** The membership test on the head of a list, arithmetically. *)
Lemma has_cons e l v : has (e :: l) v = (e_start e <=? v) && (v <=? e_end e) || has l v.
Proof. simpl. by destruct (_ && _). Qed.

Ltac has_solve :=
  rewrite ?has_cons; simpl; apply eq_true_iff_eq;
  rewrite ?orb_true_iff, ?andb_true_iff, ?Z.leb_le, ?Z.eqb_eq; intuition lia.

Lemma ins_has lo l v x :
  extents_from lo l → has (ins v l) x = has l x || (x =? v).
Proof.
  revert lo. induction l as [|e l IH]; intros lo Hl; cbn [ins].
  { has_solve. }
  destruct Hl as (H1 & H2 & H3).
  case_if; [has_solve|]. case_if; [has_solve|]. case_if; [has_solve|].
  case_if.
  - destruct l as [|n l]; [has_solve|]. destruct H3 as (H3 & H4 & H5).
    case_if; has_solve.
  - rewrite !has_cons, (IH (e_end e + 2)) by done. by rewrite orb_assoc.
Qed.

Lemma ins_num lo l v :
  extents_from lo l → num_values (ins v l) = num_values l + (if has l v then 0 else 1).
Proof.
  unfold num_values. revert lo. induction l as [|e l IH]; intros lo Hl; cbn [ins].
  { simpl. lia. }
  destruct Hl as (H1 & H2 & H3).
  assert (Hlow : v < e_end e + 2 → has l v = false) by (by apply has_lower).
  rewrite has_cons. case_if.
  { rewrite Hlow by lia. replace (e_start e <=? v) with false by lia. simpl. lia. }
  case_if. { rewrite Hlow by lia. replace (e_start e <=? v) with false by lia. simpl. lia. }
  case_if. { replace (e_start e <=? v) with true by lia. replace (v <=? e_end e) with true by lia.
    simpl. lia. }
  replace (v <=? e_end e) with false by lia. rewrite andb_false_r. cbn [orb].
  case_if.
  - rewrite Hlow by lia. destruct l as [|n l]; simpl; [lia|]. case_if; simpl; lia.
  - cbn [map zsum foldr]. specialize (IH _ H3). unfold zsum in *. lia.
Qed.

Lemma del_from lo l v : extents_from lo l → extents_from lo (del v l).
Proof.
  revert lo. induction l as [|e l IH]; intros lo Hl; simpl in *; [done|].
  destruct Hl as (H1 & H2 & H3). case_if; [done|].
  case_if; [simpl; auto|]. repeat (case_if; simpl); try split_and!; try (done || lia);
    (eapply extents_from_le; [exact H3|lia]).
Qed.

Lemma del_has lo l v x :
  extents_from lo l → has (del v l) x = has l x && negb (x =? v).
Proof.
  revert lo. induction l as [|e l IH]; intros lo Hl; cbn [del]; [done|].
  destruct Hl as (H1 & H2 & H3).
  assert (Hlow : x = v → v <= e_end e → has l x = false)
    by (intros -> ?; eapply has_lower; [done|lia]).
  case_if.
  - destruct (Z.eqb_spec x v) as [Ex|Ex]; cbn [negb]; rewrite ?andb_true_r, ?andb_false_r; [|done].
    rewrite has_cons, Hlow by lia. lia.
  - case_if.
    + rewrite !has_cons, (IH (e_end e + 2)) by done.
      destruct (Z.eqb_spec x v) as [Ex|Ex]; cbn [negb]; rewrite ?andb_true_r, ?andb_false_r; [lia|done].
    + destruct (Z.eqb_spec x v) as [Ex|Ex]; cbn [negb]; rewrite ?andb_true_r, ?andb_false_r.
      * rewrite <- (Hlow Ex) by lia. repeat case_if; cbn [app]; has_solve.
      * repeat case_if; cbn [app]; has_solve.
Qed.

Lemma del_num lo l v :
  extents_from lo l → num_values (del v l) = num_values l - (if has l v then 1 else 0).
Proof.
  unfold num_values. revert lo. induction l as [|e l IH]; intros lo Hl; cbn [del]; [done|].
  destruct Hl as (H1 & H2 & H3).
  assert (Hlow : v < e_end e + 2 → has l v = false) by (by apply has_lower).
  rewrite has_cons. case_if.
  { rewrite Hlow by lia. replace (e_start e <=? v) with false by lia. simpl. lia. }
  case_if.
  { replace (v <=? e_end e) with false by lia. rewrite andb_false_r. cbn [orb map zsum foldr].
    specialize (IH _ H3). unfold zsum in *. lia. }
  replace (e_start e <=? v) with true by lia. replace (v <=? e_end e) with true by lia.
  repeat case_if; cbn [app map zsum foldr orb andb e_start e_end]; unfold zsum; lia.
Qed.

(** *** The code implements the references *)

Lemma u64_pred x : 0 < x < 2 ^ 64 → u64 (x - 1) = x - 1.
Proof. intros. apply u64_id. unfold fits. lia. Qed.

Lemma u64_succ x : 0 <= x < MAX_VALUE → u64 (x + 1) = x + 1.
Proof. unfold MAX_VALUE. intros. apply u64_id. unfold fits. lia. Qed.

(** The extent just visited ends well before [v] and before the rest. *)
Definition prev_ok (visited : list extent_t) (lo v : Z) : Prop :=
  match visited with
  | [] => 0 <= lo
  | p :: _ => 0 <= e_end p ∧ e_end p + 2 <= lo ∧ e_end p + 2 <= v
  end.

Lemma merge_neighbours_ok visited lo v cur rest :
  prev_ok visited lo v → lo <= e_start cur → (visited ≠ [] → e_start cur <= e_end cur) →
  e_end cur < MAX_VALUE → extents_from (e_end cur + 1) rest → 0 <= e_end cur →
  merge_neighbours visited cur rest = rev visited ++
    match rest with
    | n :: rest' =>
        if e_start n =? e_end cur + 1 then mk_extent (e_start cur) (e_end n) :: rest'
        else cur :: rest
    | [] => [cur]
    end.
Proof.
  intros Hp Hlo Hse He Hr Hpos. unfold merge_neighbours.
  assert (Hnext : match rest with
    | next :: rest' =>
        if u64 (e_start next - 1) <=? e_end cur
        then rev visited ++ mk_extent (e_start cur) (e_end next) :: rest'
        else rev visited ++ cur :: rest
    | [] => rev visited ++ cur :: rest
    end = rev visited ++ match rest with
    | n :: rest' =>
        if e_start n =? e_end cur + 1 then mk_extent (e_start cur) (e_end n) :: rest'
        else cur :: rest
    | [] => [cur]
    end).
  { destruct rest as [|n rest]; [done|]. destruct Hr as (H1 & H2 & H3).
    unfold MAX_VALUE in *. rewrite u64_pred by lia. repeat case_if; done || lia. }
  destruct visited as [|p visited]; [exact Hnext|]. cbn [prev_ok] in Hp.
  specialize (Hse ltac:(done)). unfold MAX_VALUE in *. rewrite u64_pred by lia.
  replace (e_start cur - 1 <=? e_end p) with false by lia. exact Hnext.
Qed.

Lemma add_loop_ok lo visited l v :
  extents_from lo l → prev_ok visited lo v → value_ok v →
  match l with [] => visited ≠ [] | e :: _ => e_start e - 1 <= v end →
  add_value_loop visited l v = Some (rev visited ++ ins v l).
Proof.
  unfold value_ok. revert lo visited. induction l as [|cur l IH]; intros lo visited Hl Hp Hv Hfst.
  { simpl. rewrite bool_decide_eq_false_2 by done. done. }
  destruct Hl as (H1 & H2 & H3). cbn [add_value_loop ins].
  assert (Hlo : 0 <= lo) by (destruct visited; simpl in Hp; lia).
  rewrite (u64_succ (e_end cur)), (u64_succ v) by lia.
  destruct ((e_start cur <=? v) && (v <=? e_end cur)) eqn:Ein; bool_to_prop.
  { replace (v <? e_start cur - 1) with false by lia.
    replace (v =? e_start cur - 1) with false by lia.
    by replace (v <=? e_end cur) with true by lia. }
  apply andb_false_iff in Ein.
  replace (v <? e_start cur - 1) with false by lia.
  destruct (Z.eqb_spec v (e_start cur - 1)) as [E|E].
  - unfold MAX_VALUE in *. rewrite u64_pred by lia. rewrite <- E, Z.eqb_refl.
    assert (Hp' : prev_ok visited v v) by (destruct visited; simpl in *; lia).
    rewrite (merge_neighbours_ok visited v v); cbn [e_start e_end]; unfold MAX_VALUE; try lia;
      [|done|eapply extents_from_le; [exact H3|lia]].
    destruct l as [|n l]; [done|]. destruct H3 as (H3 & _).
    by replace (e_start n =? e_end cur + 1) with false by lia.
  - assert (Hne : v ≠ u64 (e_start cur - 1)).
    { unfold u64, MAX_VALUE in *. destruct (Z.eq_dec (e_start cur) 0) as [->|].
      - change ((0 - 1) mod 2 ^ 64) with (2 ^ 64 - 1). lia.
      - rewrite Z.mod_small by lia. lia. }
    replace (v =? u64 _) with false by lia. replace (v <=? e_end cur) with false by lia.
    case_if.
    + subst v. rewrite (merge_neighbours_ok visited lo (e_end cur + 1));
        cbn [e_start e_end]; unfold MAX_VALUE in *; try lia; [|done|eapply extents_from_le; [exact H3|lia]].
      destruct l as [|n l]; [done|].
      replace (e_end cur + 1 + 1) with (e_end cur + 2) by lia. by case_if.
    + replace (e_end cur <? v) with true by lia. cbn [andb].
      assert (Hp' : prev_ok (cur :: visited) (e_end cur + 2) v) by (simpl; lia).
      destruct l as [|n l].
      * by rewrite (IH (e_end cur + 2) (cur :: visited)); [simpl; rewrite <- app_assoc|..].
      * case_if.
        -- cbn [ins]. by replace (v <? e_start n - 1) with true by lia.
        -- rewrite (IH (e_end cur + 2) (cur :: visited)) by (done || lia).
           simpl. by rewrite <- app_assoc.
Qed.

Lemma add_value_ok l v :
  extents_wf l → value_ok v → extent_list_add_value l v = Some (ins v l).
Proof.
  intros Hl Hv. unfold extent_list_add_value. destruct l as [|e l]; [done|].
  pose proof Hl as (H1 & H2 & _). unfold MAX_VALUE in *.
  destruct (Z.eq_dec (e_start e) 0) as [E|E].
  - rewrite E. cbn [Z.ltb Z.compare andb].
    apply (add_loop_ok 0); [done|done|done|]. unfold value_ok in Hv. lia.
  - rewrite u64_pred by lia. replace (0 <? e_start e) with true by lia. cbn [andb].
    destruct (Z.ltb_spec v (e_start e - 1)).
    + cbn [ins]. by replace (v <? e_start e - 1) with true by lia.
    + by apply (add_loop_ok 0).
Qed.

Lemma remove_loop_above visited l v :
  extents_from (v + 1) l → remove_value_loop visited l v = rev visited ++ l.
Proof.
  revert visited. assert (Hgen : ∀ lo visited, v < lo → extents_from lo l →
    remove_value_loop visited l v = rev visited ++ l); [|intros visited; apply Hgen; lia].
  induction l as [|e l IH]; intros lo visited Hlo Hl; simpl; [by rewrite app_nil_r|].
  destruct Hl as (H1 & H2 & H3).
  replace (v =? e_start e) with false by lia. replace (v =? e_end e) with false by lia.
  replace (e_start e <? v) with false by lia. simpl.
  rewrite (IH (e_end e + 2)) by (done || lia). simpl. by rewrite <- app_assoc.
Qed.

Lemma remove_loop_ok lo visited l v :
  extents_from lo l → 0 <= lo → value_ok v →
  remove_value_loop visited l v = rev visited ++ del v l.
Proof.
  unfold value_ok. revert lo visited. induction l as [|e l IH]; intros lo visited Hl Hlo Hv.
  { simpl. by rewrite app_nil_r. }
  destruct Hl as (H1 & H2 & H3). cbn [remove_value_loop del].
  rewrite (u64_succ (e_start e)), (u64_succ v) by (unfold MAX_VALUE in *; lia).
  assert (Habove : v <= e_end e → ∀ vis, remove_value_loop vis l v = rev vis ++ l).
  { intros ? vis. apply remove_loop_above. eapply extents_from_le; [exact H3|lia]. }
  destruct (Z.eqb_spec v (e_start e)) as [Es|Es]; cbn [orb].
  - replace (v <? e_start e) with false by lia. replace (e_end e <? v) with false by lia.
    replace (e_start e <? v) with false by lia. cbn [e_start e_end app].
    destruct (Z.ltb_spec v (e_end e)).
    + replace (e_end e <? e_start e + 1) with false by lia. rewrite Habove by lia.
      simpl. rewrite <- app_assoc. by rewrite Es.
    + by replace (e_end e <? e_start e + 1) with true by lia.
  - destruct (Z.eqb_spec v (e_end e)) as [Ee|Ee].
    + unfold MAX_VALUE in *. rewrite u64_pred by lia. cbn [e_start e_end].
      replace (e_end e - 1 <? e_start e) with false by lia. rewrite Habove by lia.
      replace (v <? e_start e) with false by lia. replace (e_end e <? v) with false by lia.
      replace (e_start e <? v) with true by lia. replace (v <? e_end e) with false by lia.
      simpl. rewrite <- app_assoc. by rewrite Ee.
    + destruct (Z.ltb_spec (e_start e) v); cbn [andb].
      * replace (v <? e_start e) with false by lia.
        destruct (Z.ltb_spec v (e_end e)).
        -- replace (e_end e <? v) with false by lia. unfold MAX_VALUE in *.
           by rewrite u64_pred by lia.
        -- replace (e_end e <? v) with true by lia.
           rewrite (IH (e_end e + 2)) by (done || lia). simpl. by rewrite <- app_assoc.
      * replace (v <? e_start e) with true by lia. rewrite Habove by lia.
        simpl. by rewrite <- app_assoc.
Qed.

Lemma remove_value_ok l v :
  extents_wf l → value_ok v → extent_list_remove_value l v = del v l.
Proof. intros Hl Hv. unfold extent_list_remove_value. by rewrite (remove_loop_ok 0). Qed.

(** The number of values never wraps around. *)
Lemma num_values_bound lo l :
  extents_from lo l → 0 <= lo → 0 <= num_values l ∧ (l ≠ [] → num_values l <= MAX_VALUE - lo).
Proof.
  unfold num_values. revert lo. induction l as [|e l IH]; intros lo Hl Hlo; simpl; [done|].
  destruct Hl as (H1 & H2 & H3). destruct (IH _ H3) as [Hp Hb]; [lia|]. unfold zsum in *.
  split; [lia|]. intros _. destruct l as [|n l]; simpl in *; [lia|].
  specialize (Hb ltac:(done)). lia.
Qed.

Lemma get_num_values_loop_ok lo l c :
  extents_from lo l → 0 <= lo → 0 <= c → c + num_values l < 2 ^ 64 →
  get_num_values_loop l c = c + num_values l.
Proof.
  unfold num_values. revert lo c. induction l as [|e l IH]; intros lo c Hl Hlo Hc Hb; simpl in *.
  { lia. }
  destruct Hl as (H1 & H2 & H3). destruct (num_values_bound _ l H3) as [Hp _]; [lia|].
  unfold num_values, zsum, MAX_VALUE in *.
  rewrite (u64_id (e_end e - e_start e)) by (unfold fits; lia).
  rewrite (u64_id (_ + 1)) by (unfold fits; lia).
  rewrite (u64_id (c + _)) by (unfold fits; lia).
  rewrite (IH (e_end e + 2)) by (done || lia). lia.
Qed.

Lemma get_num_values_ok l :
  extents_wf l → extent_list_get_num_values l = num_values l.
Proof.
  intros Hl. unfold extent_list_get_num_values.
  destruct (num_values_bound 0 l Hl) as [H0 Hb]; [lia|].
  rewrite (get_num_values_loop_ok 0); [done..|]. destruct l; [done|].
  specialize (Hb ltac:(done)). unfold MAX_VALUE in *. lia.
Qed.

(** *** Iteration *)

Lemma iter_has l x : x ∈ extent_list_iter_for_each l ↔ has l x = true.
Proof.
  rewrite has_spec. unfold extent_list_iter_for_each. rewrite list_elem_of_In, in_concat. split.
  - intros (vs & Hvs & Hx). apply in_map_iff in Hvs as (e & <- & He). exists e. apply list_elem_of_In in He, Hx.
    apply elem_of_seqZ in Hx. split; [done|lia].
  - intros (e & He & Hx). exists (seqZ (e_start e) (e_end e - e_start e + 1)). split.
    + apply in_map_iff. exists e. split; [done|by apply list_elem_of_In].
    + apply list_elem_of_In, elem_of_seqZ. lia.
Qed.

Lemma iter_sorted lo l : extents_from lo l → StronglySorted Z.lt (extent_list_iter_for_each l).
Proof.
  revert lo. induction l as [|e l IH]; intros lo; [constructor|]. intros (H1 & H2 & H3). cbn.
  apply StronglySorted_app. split; [|split; [apply StronglySorted_seqZ|by eapply IH]].
  intros x y Hx Hy. apply elem_of_seqZ in Hx. apply iter_has in Hy. destruct (Z.ltb_spec y (e_end e + 2)) as [Hlt|]; [|lia].
  by rewrite (has_lower _ _ _ H3 Hlt) in Hy.
Qed.

Lemma iter_length lo l : extents_from lo l → Z.of_nat (length (extent_list_iter_for_each l)) = num_values l.
Proof.
  unfold num_values, zsum. revert lo. induction l as [|e l IH]; intros lo; [done|]. intros (H1 & H2 & H3). cbn.
  rewrite length_app, Nat2Z.inj_add, length_seqZ. change (concat _) with (extent_list_iter_for_each l). rewrite (IH _ H3). lia.
Qed.

(** *** Canonical form *)

Lemma extents_ext lo l1 l2 :
  extents_from lo l1 → extents_from lo l2 → (∀ x, has l1 x = has l2 x) → l1 = l2.
Proof.
  revert lo l2. induction l1 as [|[s1 t1] l1 IH]; intros lo l2 H1 H2 Hx.
  - destruct l2 as [|[s2 t2] l2]; [done|]. specialize (Hx s2). destruct H2 as (? & _).
    rewrite has_cons in Hx. simpl in *. lia.
  - destruct l2 as [|[s2 t2] l2].
    { specialize (Hx s1). destruct H1 as (? & _). rewrite has_cons in Hx. simpl in *. lia. }
    destruct H1 as (A1 & B1 & C1), H2 as (A2 & B2 & C2). simpl in *.
    assert (L1 : ∀ x, x < t1 + 2 → has l1 x = false) by (intros; by eapply has_lower).
    assert (L2 : ∀ x, x < t2 + 2 → has l2 x = false) by (intros; by eapply has_lower).
    assert (Hx' : ∀ x, (s1 <=? x) && (x <=? t1) || has l1 x = (s2 <=? x) && (x <=? t2) || has l2 x)
      by (intros x; specialize (Hx x); by destruct (_ && _), (_ && _)).
    assert (Es : s1 = s2).
    { pose proof (Hx' s1) as E1. pose proof (Hx' s2) as E2.
      destruct (Z.lt_trichotomy s1 s2) as [?|[?|?]]; [|done|].
      - rewrite L2 in E1 by lia. lia.
      - rewrite L1 in E2 by lia. lia. }
    assert (Et : t1 = t2).
    { destruct (Z.lt_trichotomy t1 t2) as [?|[?|?]]; [|done|].
      - pose proof (Hx' (t1 + 1)) as E. rewrite L1 in E by lia. lia.
      - pose proof (Hx' (t2 + 1)) as E. rewrite L2 in E by lia. lia. }
    subst. f_equal. apply (IH (t2 + 2)); [done..|]. intros x. specialize (Hx' x).
    destruct (Z.ltb_spec x (t2 + 2)); [by rewrite L1, L2|].
    by replace (x <=? t2) with false in Hx' by lia; rewrite andb_false_r in Hx'.
Qed.

Lemma extents_wf_ins l v : extents_wf l → value_ok v → extents_wf (ins v l).
Proof. intros Hl Hv. apply ins_from; [done| |done]. apply Hv. Qed.

Lemma extents_wf_del l v : extents_wf l → extents_wf (del v l).
Proof. apply del_from. Qed.

#[export] Hint Resolve extents_wf_ins extents_wf_del : exa.

(** ** Properties *)

(** C27: extent lists implement sets of values. On a well-formed list (extents
    in order, disjoint, not empty and not adjacent) and a value below the last
    64-bit one, [extent_list_add_value] and [extent_list_remove_value] keep the
    list well formed, add or remove exactly that value, and change
    [extent_list_get_num_values] by one exactly when the value was absent
    (present); no assertion fails and nothing wraps around. *)
Theorem extent_list_refines_set l v :
  extents_wf l → value_ok v →
  (∃ l', extent_list_add_value l v = Some l' ∧ extents_wf l' ∧
     (∀ x, extent_list_contains_value l' x = extent_list_contains_value l x || (x =? v)) ∧
     extent_list_get_num_values l' = extent_list_get_num_values l +
       (if extent_list_contains_value l v then 0 else 1)) ∧
  extents_wf (extent_list_remove_value l v) ∧
  (∀ x, extent_list_contains_value (extent_list_remove_value l v) x =
     extent_list_contains_value l x && negb (x =? v)) ∧
  extent_list_get_num_values (extent_list_remove_value l v) = extent_list_get_num_values l -
    (if extent_list_contains_value l v then 1 else 0).
Proof.
  intros Hl Hv. rewrite add_value_ok, remove_value_ok by done. split.
  - exists (ins v l). rewrite !get_num_values_ok by eauto with exa.
    split_and!; eauto using ins_has, ins_num with exa.
  - rewrite !get_num_values_ok by eauto with exa.
    split_and!; eauto using del_has, del_num with exa.
Qed.

Definition extents_example : list extent_t := [mk_extent 2 4; mk_extent 6 9; mk_extent 20 20].

Lemma extent_list_refines_set_witness :
  extent_list_add_value extents_example 5 = Some [mk_extent 2 9; mk_extent 20 20] ∧
  extents_wf (extent_list_remove_value extents_example 5).
Proof.
  split; [vm_compute; reflexivity|].
  apply (extent_list_refines_set extents_example 5).
  - unfold extents_wf, extents_example, extents_from, MAX_VALUE. simpl. lia.
  - unfold value_ok, MAX_VALUE. lia.
Defined.

(** C40: extent lists are canonical. Iterating on a well-formed list visits its
    values, each of them once and in increasing order, as many of them as
    [extent_list_get_num_values] says. Two well-formed lists with the same values
    are equal, so that releasing a value that was just taken, or taking one
    that was just released, gives back the very same list. *)
Theorem extent_list_canonical l1 l2 v :
  extents_wf l1 → extents_wf l2 → value_ok v →
  (StronglySorted Z.lt (extent_list_iter_for_each l1) ∧
   (∀ x, x ∈ extent_list_iter_for_each l1 ↔ extent_list_contains_value l1 x = true) ∧
   Z.of_nat (length (extent_list_iter_for_each l1)) = extent_list_get_num_values l1) ∧
  ((∀ x, extent_list_contains_value l1 x = extent_list_contains_value l2 x) → l1 = l2) ∧
  (extent_list_contains_value l1 v = true →
     extent_list_add_value (extent_list_remove_value l1 v) v = Some l1) ∧
  (extent_list_contains_value l1 v = false →
     (λ l, extent_list_remove_value l v) <$> extent_list_add_value l1 v = Some l1).
Proof.
  intros H1 H2 Hv. split.
  { split; [by apply (iter_sorted 0)|]. split; [by apply iter_has|]. by rewrite get_num_values_ok, (iter_length 0). }
  split_and!; [by apply (extents_ext 0)|..]; intros Hin.
  - rewrite remove_value_ok, add_value_ok by eauto with exa. f_equal.
    apply (extents_ext 0); [by apply extents_wf_ins; eauto with exa|done|]. intros x.
    rewrite (ins_has 0), (del_has 0) by (done || by apply extents_wf_del).
    destruct (Z.eqb_spec x v) as [->|]; simpl; by rewrite ?orb_true_r, ?andb_true_r, ?orb_false_r.
  - rewrite add_value_ok by done. simpl. rewrite remove_value_ok by eauto with exa. f_equal.
    apply (extents_ext 0); [by apply extents_wf_del, extents_wf_ins|done|]. intros x.
    rewrite (del_has 0), (ins_has 0) by (done || by apply extents_wf_ins).
    destruct (Z.eqb_spec x v) as [->|]; simpl; by rewrite ?orb_true_r, ?andb_true_r, ?orb_false_r.
Qed.

Lemma extent_list_canonical_witness :
  extent_list_iter_for_each extents_example = [2; 3; 4; 6; 7; 8; 9; 20] ∧
  extent_list_add_value (extent_list_remove_value extents_example 7) 7 = Some extents_example.
Proof.
  split; [vm_compute; reflexivity|].
  apply (extent_list_canonical extents_example extents_example 7).
  - unfold extents_wf, extents_example, extents_from, MAX_VALUE. simpl. lia.
  - unfold extents_wf, extents_example, extents_from, MAX_VALUE. simpl. lia.
  - unfold value_ok, MAX_VALUE. lia.
  - reflexivity.
Defined.

(** The last 64-bit value is mishandled. Adding it to a list that starts
    at 0 wraps the start of the first extent around, which loses all of its
    values; removing it from its own extent leaves the extent of all values. *)
Theorem extent_list_last_value_wraps :
  extent_list_add_value [mk_extent 0 5] (2 ^ 64 - 1) = Some [mk_extent (2 ^ 64 - 1) 5] ∧
  extent_list_contains_value [mk_extent (2 ^ 64 - 1) 5] 3 = false ∧
  extent_list_remove_value [mk_extent (2 ^ 64 - 1) (2 ^ 64 - 1)] (2 ^ 64 - 1) =
    [mk_extent 0 (2 ^ 64 - 1)].
Proof. split_and!; vm_compute; reflexivity. Qed.
