(* ===== verification/Prediction.v ===== *)
(** * How many slots can be assembled

    Model of [vrt/assembly/src/assembly_prediction.c]: the number of slots of
    [w] chunks on [w] different SPOFs that can be made from the free chunks of
    [n] SPOFs. The function that is used by the assembly
    ([assembly_predict_max_slots_without_sparing]) is modelled; the two
    predictions with sparing are only called by tests and are not.

    The theorem states that the closed formula of the code is exact. The
    lemmas on the greedy assembly (take a chunk on each of the [w] SPOFs that
    have most of them) are used by [Assembly], where it is shown that the
    allocator makes exactly the predicted number of slots. *)

From S2P Require Import Prelude.
From stdpp Require Import options.

(** ** Definitions *)

Section definitions.
Context `{!Qsort}.

Definition chunk_count_gt (c1 c2 : Z) : Z :=
  if c1 <? c2 then -1 else if c2 <? c1 then 1 else 0.

(** [num_spofs] is an [unsigned]: the first [num_spofs] entries are sorted. *)
Definition spof_chunks_sort (spof_chunks : list Z) (num_spofs : Z) : list Z :=
  qsort chunk_count_gt (take (Z.to_nat num_spofs) spof_chunks) ++ drop (Z.to_nat num_spofs) spof_chunks.

(** Effective number of chunks of the SPOF of rank [i]. The recursion is on
    smaller ranks; [fuel] bounds its depth, and [None] is an assertion that
    fails, an access out of the array, or no fuel. *)
Fixpoint E (fuel : nat) (i n w : Z) (spof_chunks : list Z) : option Z :=
  match fuel with
  | O => None
  | S fuel' =>
      assert! (i <? n);
      if i <=? u64 (n - w) then spof_chunks !! Z.to_nat i
      else
        num ← foldl (λ acc j, num ← acc; e ← E fuel' j n w spof_chunks; Some (u64 (num + e)))
          (Some 0) (seqZ 0 i);
        let thingy := num / u64 (u64 (i - n) + w) in
        c ← spof_chunks !! Z.to_nat i;
        Some (Z.min c thingy)
  end.

(** [spof_chunks] is the array of [n] counts. A division by zero is [None]. *)
Definition assembly_predict_max_slots_without_sparing (n w : Z) (spof_chunks : list Z)
    : option Z :=
  if n <? w then Some 0
  else
    let sorted := spof_chunks_sort spof_chunks (u32 n) in
    num ← foldl (λ acc i, num ← acc; e ← E (S (Z.to_nat i)) i n w sorted; Some (u64 (num + e)))
      (Some 0) (seqZ 0 n);
    assert! (negb (w =? 0));
    Some (num / w).

End definitions.

(** ** Specification *)

(** [s] slots of width [w] can be made from the counts [c]: no SPOF gives more
    than one chunk per slot. *)
Definition slots_fit (c : list Z) (w s : Z) : Prop :=
  s * w <= zsum (map (λ x, Z.min x s) c).

(** The largest number of slots. *)
Definition max_slots (c : list Z) (w p : Z) : Prop :=
  0 <= p ∧ slots_fit c w p ∧ ∀ s, p < s → ¬ slots_fit c w s.

Lemma slots_fit_perm c c' w s : c ≡ₚ c' → slots_fit c w s → slots_fit c' w s.
Proof. unfold slots_fit. by intros ->. Qed.

#[export] Instance slots_fit_proper : Proper (Permutation ==> (=) ==> (=) ==> iff) slots_fit.
Proof. intros c c' Hc w ? <- s ? <-. split; by apply slots_fit_perm. Qed.

#[export] Instance max_slots_proper : Proper (Permutation ==> (=) ==> (=) ==> iff) max_slots.
Proof.
  intros c c' Hc w ? <- p ? <-. unfold max_slots. rewrite Hc.
  split; intros (? & ? & Hm); split_and!; try done; intros s Hs.
  - rewrite <- Hc. by apply Hm.
  - rewrite Hc. by apply Hm.
Qed.

Lemma max_slots_unique c w p q : max_slots c w p → max_slots c w q → p = q.
Proof.
  intros (_ & Hp & Hpm) (_ & Hq & Hqm).
  destruct (Z.lt_trichotomy p q) as [?|[?|?]]; [by exfalso; eapply Hpm|done|by exfalso; eapply Hqm].
Qed.

(** If [s] slots fit, fewer do. *)
Lemma slots_fit_le c w s s' :
  Forall (λ x, 0 <= x) c → slots_fit c w s → 0 <= s' <= s → slots_fit c w s'.
Proof.
  unfold slots_fit. intros Hc Hs Hle.
  assert (Hm : s' * zsum (map (λ x, Z.min x s) c) <= s * zsum (map (λ x, Z.min x s') c)).
  { clear Hs. induction Hc as [|x c Hx _ IH]; simpl; [lia|].
    assert (s' * Z.min x s <= s * Z.min x s') by nia. unfold zsum in *. lia. }
  destruct (Z.eq_dec s 0) as [->|]; [assert (s' = 0) as -> by lia; done|]. nia.
Qed.

(** ** The recursion computes the maximum *)

(** The effective counts of the SPOFs after the first ones, computed from the
    sum [S] of those before and the number [k] of chunks per slot they serve. *)
Fixpoint eff (S k : Z) (rest : list Z) : list Z :=
  match rest with
  | [] => []
  | x :: rest' => let e := Z.min x (S / k) in e :: eff (S + e) (k + 1) rest'
  end.

(** [S / k] is the largest number of slots of width [k] made from [l]. *)
Record eff_inv (l : list Z) (k S : Z) : Prop := {
  ei_k : 0 < k;
  ei_S : 0 <= S;
  ei_max : max_slots l k (S / k);
  ei_le : S <= zsum l;
  ei_all : Forall (λ x, x <= S / k) l → S = zsum l
}.

Lemma zsum_map_min_le l s : zsum (map (λ x, Z.min x s) l) <= zsum l.
Proof. unfold zsum. induction l; simpl; lia. Qed.

Lemma zsum_map_min_all l s : Forall (λ x, x <= s) l → zsum (map (λ x, Z.min x s) l) = zsum l.
Proof. unfold zsum. induction 1; simpl; lia. Qed.

Lemma eff_inv_init l : Forall (λ x, 0 <= x) l → eff_inv l 1 (zsum l).
Proof.
  intros Hl. pose proof (zsum_nonneg l Hl) as H0.
  split; try done. rewrite Z.div_1_r. split_and!; [done| |].
  - unfold slots_fit. rewrite zsum_map_min_all; [lia|]. apply Forall_forall. intros x Hx.
    apply elem_of_Permutation in Hx as [l' Hp]. rewrite Hp in Hl |- *. simpl.
    rewrite Forall_cons in Hl. destruct Hl as [_ Hl']. apply zsum_nonneg in Hl'. unfold zsum in *. lia.
  - intros s Hs Hfit. unfold slots_fit in Hfit. pose proof (zsum_map_min_le l s). lia.
Qed.

Lemma eff_inv_step l k S x :
  eff_inv l k S → Forall (λ y, 0 <= y <= x) l → 0 <= x →
  eff_inv (l ++ [x]) (k + 1) (S + Z.min x (S / k)).
Proof.
  intros [Hk HS (HP & Hfit & Hmax) Hle Hall] Hl Hx.
  set (P := S / k) in *.
  assert (Hdm : k * P <= S < k * P + k) by (unfold P; pose proof (Z.div_mod S k); pose proof (Z.mod_pos_bound S k); lia).
  assert (Hpos : Forall (λ y, 0 <= y) l) by (eapply Forall_impl; [exact Hl|]; simpl; lia).
  assert (Hsnoc : ∀ s, zsum (map (λ y, Z.min y s) (l ++ [x])) =
    zsum (map (λ y, Z.min y s) l) + Z.min x s) by (intros s; rewrite map_app, zsum_app; simpl; lia).
  assert (Hsum : zsum (l ++ [x]) = zsum l + x) by (rewrite zsum_app; simpl; lia).
  (* the maximum does not increase *)
  assert (Hdecr : ∀ s, slots_fit (l ++ [x]) (k + 1) s → s <= P).
  { intros s Hs. destruct (Z.leb_spec s P); [done|]. exfalso. apply (Hmax s); [done|].
    unfold slots_fit in *. rewrite Hsnoc in Hs. lia. }
  destruct (Z.leb_spec x P) as [HxP|HxP].
  - (* all counts are at most [P] *)
    rewrite Z.min_l by done.
    assert (HSl : S = zsum l) by (apply Hall; eapply Forall_impl; [exact Hl|]; simpl; lia).
    set (T := S + x). pose proof (Z.div_mod T (k + 1)) as Hd.
    pose proof (Z.mod_pos_bound T (k + 1)) as Hb.
    assert (HT : 0 <= T / (k + 1)) by (apply Z.div_pos; lia).
    split; try lia. split_and!; [done| |].
    + unfold slots_fit. rewrite Hsnoc. destruct (Z.leb_spec x (T / (k + 1))).
      * rewrite zsum_map_min_all, Z.min_l by (done || (eapply Forall_impl; [exact Hl|]; simpl; lia)).
        fold T. lia.
      * assert (Hf : slots_fit l k (T / (k + 1))) by (eapply slots_fit_le; [done|exact Hfit|lia]).
        unfold slots_fit in Hf. rewrite Z.min_r by lia. lia.
    + intros s Hs Hf. unfold slots_fit in Hf. pose proof (zsum_map_min_le (l ++ [x]) s) as Hm.
      rewrite Hsum in Hm. fold T in Hm. nia.
  - rewrite Z.min_r by lia.
    assert (HP' : (S + P) / (k + 1) = P) by (symmetry; apply (Z.div_unique _ _ _ (S - k * P)); lia).
    split; rewrite ?HP'; try lia.
    + split_and!; [done| |intros s Hs Hf; apply Hdecr in Hf; lia].
      unfold slots_fit in *. rewrite Hsnoc, Z.min_r by lia. lia.
    + intros Hf. apply Forall_app in Hf as [_ Hf]. rewrite Forall_singleton in Hf. lia.
Qed.

Lemma eff_inv_eff l k S rest :
  eff_inv l k S → StronglySorted Z.le (l ++ rest) → Forall (λ x, 0 <= x) (l ++ rest) →
  eff_inv (l ++ rest) (k + Z.of_nat (length rest)) (S + zsum (eff S k rest)).
Proof.
  revert l k S. induction rest as [|x rest IH]; intros l k S Hi Hs Hp; cbn [eff].
  { rewrite app_nil_r. simpl. by rewrite !Z.add_0_r. }
  assert (Hx : Forall (λ y, 0 <= y <= x) l ∧ 0 <= x).
  { apply Forall_app in Hp as [Hpl Hpx]. rewrite Forall_cons in Hpx. split; [|apply Hpx].
    rewrite Forall_forall in Hpl |- *. intros y Hy. split; [by apply Hpl|].
    apply StronglySorted_app in Hs as (Hlt & _ & _). apply Hlt; [done|by left]. }
  destruct Hx as [Hl Hx].
  specialize (IH (l ++ [x]) (k + 1) (S + Z.min x (S / k))).
  rewrite <- app_assoc in IH. specialize (IH (eff_inv_step l k S x Hi Hl Hx) Hs Hp).
  cbn [length zsum foldr]. replace (k + Z.of_nat (Datatypes.S (length rest)))
    with (k + 1 + Z.of_nat (length rest)) by lia.
  unfold zsum in *. by rewrite Z.add_assoc.
Qed.

(** ** The recursive function of the code *)

Definition Elist (w : nat) (c : list Z) : list Z :=
  let m := (length c - w + 1)%nat in
  take m c ++ eff (zsum (take m c)) 1 (drop m c).

Lemma length_eff S k rest : length (eff S k rest) = length rest.
Proof. revert S k. induction rest as [|x rest IH]; intros S k; simpl; [done|]. by rewrite IH. Qed.

Lemma eff_lookup S k rest j x :
  rest !! j = Some x →
  eff S k rest !! j =
  Some (Z.min x ((S + zsum (take j (eff S k rest))) / (k + Z.of_nat j))).
Proof.
  revert S k j. induction rest as [|y rest IH]; intros S k j; [done|].
  destruct j as [|j]; cbn [lookup list_lookup eff take].
  - intros [= ->]. simpl. by rewrite !Z.add_0_r.
  - intros Hj. rewrite (IH _ _ _ Hj). do 3 f_equal; [|lia]. simpl. lia.
Qed.

Lemma eff_bounds S k rest :
  0 <= S → 0 < k → Forall (λ x, 0 <= x) rest →
  Forall2 (λ e x, 0 <= e <= x) (eff S k rest) rest.
Proof.
  intros HS Hk Hr. revert S k HS Hk. induction Hr as [|x rest Hx _ IH]; intros S k HS Hk; simpl.
  { constructor. }
  assert (0 <= S / k) by (apply Z.div_pos; lia). constructor; [lia|]. apply IH; lia.
Qed.

Lemma zsum_take_le l i : Forall (λ x, 0 <= x) l → 0 <= zsum (take i l) <= zsum l.
Proof.
  intros Hl. rewrite <- (take_drop i l) at 3. rewrite zsum_app.
  split; [by apply zsum_nonneg, Forall_take|].
  pose proof (zsum_nonneg _ (Forall_drop _ i _ Hl)). lia.
Qed.

Lemma zsum_Forall2_le l1 l2 :
  Forall2 (λ e x, 0 <= e <= x) l1 l2 → zsum l1 <= zsum l2 ∧ Forall (λ x, 0 <= x) l1.
Proof.
  unfold zsum. induction 1 as [|e x l1 l2 He _ [IH1 IH2]]; simpl; [split; [lia|constructor]|].
  split; [lia|]. constructor; [lia|done].
Qed.

(** A sum loop over the first values of a list. *)
Lemma foldl_sum_ok (f : Z → option Z) (vals : list Z) (i : nat) :
  (i <= length vals)%nat → Forall (λ x, 0 <= x) vals → zsum vals < 2 ^ 64 →
  (∀ j, (j < i)%nat → f (Z.of_nat j) = vals !! j) →
  foldl (λ acc j, num ← acc; e ← f j; Some (u64 (num + e))) (Some 0) (seqZ 0 (Z.of_nat i)) =
  Some (zsum (take i vals)).
Proof.
  intros Hi Hv Hs. induction i as [|i IH]; intros Hf; [done|].
  replace (Z.of_nat (S i)) with (Z.of_nat i + 1) by lia.
  rewrite seqZ_app, foldl_app, IH by (lia || (intros; apply Hf; lia)).
  rewrite seqZ_cons, seqZ_nil by lia. cbn [foldl]. returned. rewrite Z.add_0_l, Hf by lia. destruct (lookup_lt_is_Some_2 vals i) as [x Hx]; [lia|]. rewrite Hx. returned.
  f_equal. rewrite (take_S_r vals i x), zsum_app by done. simpl. rewrite Z.add_0_r.
  apply u64_id. pose proof (zsum_take_le vals (S i) Hv) as Hb.
  rewrite (take_S_r vals i x), zsum_app in Hb by done. simpl in Hb. unfold fits. lia.
Qed.

Section E.
Context (c : list Z) (n w : nat).
Context (Hn : length c = n) (Hw : (1 <= w <= n)%nat) (Hn64 : Z.of_nat n < 2 ^ 64).
Context (Hpos : Forall (λ x, 0 <= x) c) (Hsum : zsum c < 2 ^ 64).

Let m := (n - w + 1)%nat.

Lemma Elist_bounds : Forall2 (λ e x, 0 <= e <= x) (Elist w c) c.
Proof using Hn Hw Hpos.
  unfold Elist. rewrite Hn. rewrite <- (take_drop m c) at 4. apply Forall2_app.
  - apply Forall_Forall2_diag. apply Forall_take. eapply Forall_impl; [exact Hpos|]. simpl. lia.
  - apply eff_bounds; [by apply zsum_nonneg, Forall_take|done|by apply Forall_drop].
Qed.

Lemma length_Elist : length (Elist w c) = n.
Proof using Hn Hw Hpos. by rewrite (Forall2_length _ _ _ Elist_bounds). Qed.

Lemma Elist_sum : zsum (Elist w c) < 2 ^ 64 ∧ Forall (λ x, 0 <= x) (Elist w c).
Proof using Hn Hw Hpos Hsum. destruct (zsum_Forall2_le _ _ Elist_bounds). split; [lia|done]. Qed.

Lemma Elist_low i : (i < m)%nat → Elist w c !! i = c !! i.
Proof using Hn Hw.
  intros Hi. unfold Elist. rewrite Hn, lookup_app_l by (rewrite length_take; fold m; lia).
  fold m. by rewrite lookup_take_lt.
Qed.

Lemma Elist_high i x :
  (m <= i)%nat → c !! i = Some x →
  Elist w c !! i = Some (Z.min x (zsum (take i (Elist w c)) / Z.of_nat (i + w - n))).
Proof using Hn Hw.
  intros Hi Hx. unfold Elist. rewrite Hn. fold m.
  assert (Hlt : length (take m c) = m).
  { rewrite length_take. apply lookup_lt_Some in Hx. lia. }
  rewrite lookup_app_r by lia. rewrite Hlt.
  rewrite (eff_lookup _ _ _ (i - m) x) by (rewrite lookup_drop; by replace (m + (i - m))%nat with i by lia).
  rewrite take_app_ge, Hlt, zsum_app by lia.
  do 3 f_equal. unfold m in *. lia.
Qed.

Lemma E_ok fuel i : (i < n)%nat → (i < fuel)%nat →
  E fuel (Z.of_nat i) (Z.of_nat n) (Z.of_nat w) c = Elist w c !! i.
Proof using Hn Hw Hn64 Hpos Hsum.
  revert i. induction fuel as [|fuel IH]; intros i Hi Hf; [lia|]. cbn [E].
  replace (Z.of_nat i <? Z.of_nat n) with true by lia. cbn [exa_assert].
  rewrite (u64_id (_ - _)) by (unfold fits; lia). rewrite Nat2Z.id. case_if.
  - rewrite Elist_low; [done|]. unfold m. lia.
  - destruct Elist_sum as [Hs Hp].
    rewrite (foldl_sum_ok _ (Elist w c) i); [|rewrite length_Elist; lia|done|done|].
    2:{ intros j Hj. apply IH; lia. }
    returned. destruct (lookup_lt_is_Some_2 c i) as [x Hx]; [lia|]. rewrite Hx. returned.
    rewrite (Elist_high i x) by (done || (unfold m; lia)). do 3 f_equal.
    unfold u64. rewrite Zplus_mod_idemp_l, Z.mod_small by lia. lia.
Qed.

End E.

Lemma predict_sorted_ok (Q : Qsort) c :
  Z.of_nat (length c) < 2 ^ 32 →
  StronglySorted Z.le (spof_chunks_sort c (u32 (Z.of_nat (length c)))) ∧ spof_chunks_sort c (u32 (Z.of_nat (length c))) ≡ₚ c.
Proof.
  intros Hn. unfold spof_chunks_sort. rewrite u32_id, Nat2Z.id, firstn_all, drop_all, app_nil_r by (unfold fits; lia).
  split; [|apply qsort_perm].
  assert (Hle : ∀ x y, cmp_le chunk_count_gt x y ↔ x <= y).
  { intros x y. unfold cmp_le, chunk_count_gt. repeat case_if; lia. }
  assert (Hs : StronglySorted (cmp_le chunk_count_gt) (qsort chunk_count_gt c)).
  { apply qsort_sorted; intros; rewrite !Hle in *; lia. }
  induction Hs as [|x l _ IH Hx]; constructor; [done|].
  eapply Forall_impl; [exact Hx|]. intros y. apply Hle.
Qed.

Lemma predict_ok (Q : Qsort) c w :
  Forall (λ x, 0 <= x) c → zsum c < 2 ^ 64 → Z.of_nat (length c) < 2 ^ 32 → 0 < w →
  ∃ p, assembly_predict_max_slots_without_sparing (Z.of_nat (length c)) w c = Some p ∧
    max_slots c w p.
Proof.
  intros Hc Hs Hn Hw. unfold assembly_predict_max_slots_without_sparing.
  pose proof (zsum_nonneg c Hc) as H0.
  destruct (Z.ltb_spec (Z.of_nat (length c)) w) as [Hlt|Hge].
  { exists 0. split; [done|]. split_and!; [done| |].
    - unfold slots_fit. apply zsum_nonneg, Forall_map. eapply Forall_impl; [exact Hc|]. simpl. lia.
    - intros s Hs0 Hfit. unfold slots_fit in Hfit.
      assert (zsum (map (λ x, Z.min x s) c) <= zsum (map (λ _, s) c))
        by (apply zsum_map_le, Forall_forall; lia).
      rewrite zsum_map_const in *. nia. }
  destruct (predict_sorted_ok Q c Hn) as [Hsort Hperm]. set (d := spof_chunks_sort c _) in *.
  assert (Hlen : length c = length d) by (by rewrite Hperm). rewrite Hlen in *.
  rewrite <- Hperm in Hc, Hs. setoid_rewrite <- Hperm. cbv zeta.
  set (k := Z.to_nat w). assert (Ek : w = Z.of_nat k) by lia. rewrite Ek.
  assert (Hk : (1 <= k <= length d)%nat) by lia.
  rewrite (foldl_sum_ok _ (Elist k d) (length d)).
  2:{ by rewrite (length_Elist d (length d) k). }
  2,3: by apply (Elist_sum d (length d) k).
  2:{ intros j Hj. rewrite Nat2Z.id. apply E_ok; (done || lia). }
  returned. replace (Z.of_nat k =? 0) with false by lia. cbn [negb exa_assert].
  eexists. split; [reflexivity|].
  rewrite <- (length_Elist d (length d) k) at 1 by done. rewrite firstn_all.
  unfold Elist. rewrite zsum_app. set (m := (length d - k + 1)%nat).
  assert (Hi : eff_inv (take m d ++ drop m d) (1 + Z.of_nat (length (drop m d)))
    (zsum (take m d) + zsum (eff (zsum (take m d)) 1 (drop m d)))).
  { apply eff_inv_eff; rewrite ?take_drop; [|done|done]. by apply eff_inv_init, Forall_take. }
  rewrite take_drop in Hi. rewrite length_drop in Hi.
  replace (1 + Z.of_nat (length d - m)) with (Z.of_nat k) in Hi by (unfold m; lia). apply Hi.
Qed.

(** ** Greedy assembly

    One chunk is taken from each of the [w] first SPOFs of a list of counts in
    decreasing order. *)

Definition take_chunks (w : nat) (l : list Z) : list Z := map (λ x, x - 1) (take w l) ++ drop w l.

Abbreviation smin s l := (zsum (map (λ x, Z.min x s) l)).

Lemma smin_app s l1 l2 : smin s (l1 ++ l2) = smin s l1 + smin s l2.
Proof. by rewrite map_app, zsum_app. Qed.

Lemma smin_le s l : smin s l <= s * Z.of_nat (length l).
Proof.
  rewrite <- zsum_map_const. apply zsum_map_le, Forall_forall. intros x _. lia.
Qed.

Lemma smin_all s l : Forall (λ x, s <= x) l → smin s l = s * Z.of_nat (length l).
Proof. rewrite <- zsum_map_const. unfold zsum. induction 1; simpl; lia. Qed.

Lemma smin_nonneg s l : 0 <= s → Forall (λ x, 0 <= x) l → 0 <= smin s l.
Proof.
  intros Hs Hl. apply zsum_nonneg, Forall_map. eapply Forall_impl; [exact Hl|]. simpl. lia.
Qed.

Lemma smin_pred s l : smin (s - 1) (map (λ x, x - 1) l) = smin s l - Z.of_nat (length l).
Proof. rewrite map_map. unfold zsum. induction l; simpl; lia. Qed.

Lemma smin_below s l : Forall (λ x, x < s) l → smin (s - 1) l = smin s l.
Proof. unfold zsum. induction 1; simpl; lia. Qed.

Lemma smin_step_ge s l : smin (s - 1) l <= smin s l.
Proof. apply zsum_map_le, Forall_forall. lia. Qed.

Section greedy.
Context (l : list Z) (w : nat).
Context (Hsort : StronglySorted (λ x y, y <= x) l) (Hpos : Forall (λ x, 0 <= x) l).

Lemma greedy_sorted x y : x ∈ take w l → y ∈ drop w l → y <= x.
Proof using Hsort.
  intros Hx Hy. rewrite <- (take_drop w l) in Hsort.
  apply StronglySorted_app in Hsort as (H & _ & _). by apply H.
Qed.

(** When a slot fits, there are [w] SPOFs with a free chunk, and they come first. *)
Lemma greedy_chunks s :
  0 < s → slots_fit l (Z.of_nat w) s →
  (w <= length l)%nat ∧ Forall (λ x, 1 <= x) (take w l).
Proof using Hsort Hpos.
  intros Hs Hfit. unfold slots_fit in Hfit.
  assert (Hw : (w <= length l)%nat) by (pose proof (smin_le s l); nia).
  split; [done|]. apply Forall_forall. intros x Hx.
  destruct (Z.leb_spec 1 x); [done|]. exfalso.
  apply elem_of_take in Hx as (j & Hj & Hjw). apply list_elem_of_split_length in Hj as (l1 & l2 & -> & Hlen).
  apply StronglySorted_app in Hsort as (_ & _ & Hs2). inversion Hs2 as [|? ? _ Hx2]; subst.
  apply Forall_app in Hpos as [_ Hp2]. rewrite Forall_cons in Hp2. destruct Hp2 as [_ Hp2].
  assert (Hz : smin s (x :: l2) <= 0).
  { assert (smin s (x :: l2) <= zsum (map (λ _, 0) (x :: l2))) as Hle.
    { apply zsum_map_le. constructor; [lia|]. eapply Forall_impl; [exact Hx2|]. simpl. lia. }
    rewrite zsum_map_const in Hle. lia. }
  rewrite smin_app in Hfit. pose proof (smin_le s l1). nia.
Qed.

(** Taking a slot leaves room for all the others. *)
Lemma greedy_fit s :
  0 < s → slots_fit l (Z.of_nat w) s → slots_fit (take_chunks w l) (Z.of_nat w) (s - 1).
Proof using Hsort Hpos.
  intros Hs Hfit. destruct (greedy_chunks s Hs Hfit) as [Hw Hge].
  unfold slots_fit, take_chunks in *. rewrite smin_app, smin_pred, length_take_le by done.
  rewrite <- (take_drop w l), smin_app in Hfit.
  destruct (decide (Forall (λ x, x < s) (drop w l))) as [Hall|Hex].
  - rewrite (smin_below s (drop w l)) by done. lia.
  - apply not_Forall_Exists in Hex; [|intros x; apply _]. apply Exists_exists in Hex as (y & Hy & Hys). simpl in Hys.
    rewrite (smin_all s (take w l)), length_take_le by (done ||
      (apply Forall_forall; intros x Hx; pose proof (greedy_sorted x y Hx Hy); lia)).
    pose proof (smin_nonneg (s - 1) (drop w l) ltac:(lia) (Forall_drop _ w _ Hpos)). lia.
Qed.

(** Conversely, taking a slot never wastes one. *)
Lemma greedy_exact s :
  (w <= length l)%nat → slots_fit (take_chunks w l) (Z.of_nat w) (s - 1) → slots_fit l (Z.of_nat w) s.
Proof using.
  intros Hw Hfit. unfold slots_fit, take_chunks in *.
  rewrite smin_app, smin_pred, length_take_le in Hfit by done.
  rewrite <- (take_drop w l), smin_app. pose proof (smin_step_ge s (drop w l)). lia.
Qed.

Lemma greedy_max p :
  0 < p → max_slots l (Z.of_nat w) p → max_slots (take_chunks w l) (Z.of_nat w) (p - 1).
Proof using Hsort Hpos.
  intros Hp (_ & Hfit & Hmax). destruct (greedy_chunks p Hp Hfit) as [Hw _].
  split_and!; [lia|by apply greedy_fit|]. intros s Hs Hf. apply (Hmax (s + 1)); [lia|].
  apply greedy_exact; [done|]. by replace (s + 1 - 1) with s by lia.
Qed.
End greedy.

(** ** Properties *)

(** C28: the prediction of the number of slots is exact. For a non-zero slot
    width and any array of less than 2^32 free chunk counts (zeros included)
    whose sum fits in 64 bits, the recursive formula returns the largest number [p] of slots such
    that [p] slots of [w] chunks can be taken without taking more than [p]
    chunks on any SPOF; slots wider than the number of SPOFs give 0. *)
Theorem predict_max_slots_exact (Q : Qsort) c w :
  Forall (λ x, 0 <= x) c → zsum c < 2 ^ 64 → Z.of_nat (length c) < 2 ^ 32 → 0 < w →
  ∃ p, assembly_predict_max_slots_without_sparing (Z.of_nat (length c)) w c = Some p ∧
    0 <= p ∧ slots_fit c w p ∧ (∀ s, p < s → ¬ slots_fit c w s) ∧
    (Z.of_nat (length c) < w → p = 0).
Proof.
  intros Hc Hs Hn Hw. destruct (predict_ok Q c w Hc Hs Hn Hw) as (p & Ep & H0 & Hfit & Hmax).
  exists p. split_and!; try done. intros Hlt. unfold slots_fit in Hfit.
  pose proof (smin_le p c). nia.
Qed.

Lemma predict_max_slots_exact_witness :
  @assembly_predict_max_slots_without_sparing isort_qsort 4 2 [7; 0; 2; 3] = Some 5 ∧
  ∃ p, @assembly_predict_max_slots_without_sparing isort_qsort 4 2 [7; 0; 2; 3] = Some p ∧
    ∀ s, p < s → ¬ slots_fit [7; 0; 2; 3] 2 s.
Proof.
  split; [vm_compute; reflexivity|].
  destruct (predict_max_slots_exact isort_qsort [7; 0; 2; 3] 2) as (p & Ep & _ & _ & Hmax & _).
  - repeat constructor; lia.
  - vm_compute. reflexivity.
  - vm_compute. reflexivity.
  - lia.
  - exists p. split; [exact Ep|exact Hmax].
Defined.
