(* ===== verification/Storage.v ===== *)
(** * Chunks, SPOF groups and storage

    Model of [vrt/virtualiseur/src/chunk.c], [spof_group.c] and [storage.c]
    (with their headers and the fields of [vrt_realdev.h] they use): devices
    are cut into chunks, a device keeps the extents of its free chunks, the
    devices of a SPOF (single point of failure: nodes that fail together) form
    a SPOF group, and a storage is an array of SPOF groups.

    Devices are shared by reference: they live in a store [mem] (a finite map
    from addresses to devices) and a pointer is an address, [None] being
    [NULL]. Reading a dangling pointer or outside of an array has no meaning
    in C and is [None] in the model, like a failed assertion. A chunk is
    allocated when it is taken and freed when it is put back, and is modelled
    by its value. Allocations that abort on failure are not modelled as
    failing; those that return an error take the answer of the allocator. *)

From S2P Require Import Prelude Nodeset Extent.
From stdpp Require Import options.

(** ** Data *)

Definition UUID_LEN : nat := 4.

(** [exa_uuid_t]: an array of [UUID_LEN] words. *)
Definition exa_uuid_t := list Z.

Definition uuid_is_equal (uuid1 uuid2 : exa_uuid_t) : bool :=
  forallb (λ i, uuid1 !!! i =? uuid2 !!! i) (seq 0 UUID_LEN).

Record chunks_info := mk_chunks {
  chunk_size : Z;
  total_chunks_count : Z;
  free_chunks_count : Z;
  free_chunks : list extent_t
}.

Record vrt_realdev_t := mk_rdev {
  r_uuid : exa_uuid_t;
  chunks : chunks_info;
  r_node_id : Z;
  real_size : Z;
  r_local : bool;
  r_up : bool;
  r_corrupted : bool;
  r_index : Z
}.

Abbreviation mem := (gmap Z vrt_realdev_t).

Record chunk_t := mk_chunk { c_rdev : Z; c_offset : Z }.

#[export] Instance chunk_eq_dec : EqDecision chunk_t.
Proof. solve_decision. Defined.

Definition SPOF_ID_NONE : Z := 0.
Definition SPOF_ID_IS_VALID (id : Z) : bool := 0 <? id.
Definition NBMAX_DISKS_PER_SPOF_GROUP : Z := 64.
Definition NBMAX_DISKS_PER_GROUP : Z := 512.
Definition VRT_NBMAX_CHUNKS_PER_GROUP : Z := 500000.
Definition VRT_SB_AREA_SIZE : Z := 65536.

Record spof_group_t := mk_spof_group {
  sg_spof_id : Z;
  realdevs : list (option Z);
  nb_realdevs : Z
}.

#[export] Instance spof_group_inhabited : Inhabited spof_group_t :=
  populate (mk_spof_group SPOF_ID_NONE [] 0).

(** [spof_groups] is an array of [num_spof_groups] elements. *)
Record storage_t := mk_storage {
  spof_groups : list spof_group_t;
  num_spof_groups : Z;
  s_chunk_size : Z
}.

(** ** Chunks: [chunk.c] *)

Definition set_chunks (r : vrt_realdev_t) (c : chunks_info) : vrt_realdev_t :=
  mk_rdev (r_uuid r) c (r_node_id r) (real_size r) (r_local r)
    (r_up r) (r_corrupted r) (r_index r).

Definition chunk_get_rdev (c : chunk_t) : Z := c_rdev c.
Definition chunk_get_offset (c : chunk_t) : Z := c_offset c.

Definition chunk_equals (m : mem) (a b : chunk_t) : option bool :=
  rdev_a ← m !! chunk_get_rdev a;
  rdev_b ← m !! chunk_get_rdev b;
  Some (uuid_is_equal (r_uuid rdev_a) (r_uuid rdev_b) && (c_offset a =? c_offset b)).

Definition index_to_offset (index size : Z) : option Z :=
  assert! (negb (size =? 0));
  Some (u64 (u64 (index * size) + VRT_SB_AREA_SIZE)).

Definition offset_to_index (offset size : Z) : option Z :=
  assert! (negb (size =? 0));
  Some (u32 (u64 (offset - VRT_SB_AREA_SIZE) / size)).

Definition chunk_get_from_rdev_at_offset (m : mem) (rdev offset : Z) : option (mem * chunk_t) :=
  r ← m !! rdev;
  index ← offset_to_index offset (chunk_size (chunks r));
  assert! (index <=? total_chunks_count (chunks r));
  let r' := set_chunks r (mk_chunks (chunk_size (chunks r)) (total_chunks_count (chunks r))
    (u32 (free_chunks_count (chunks r) - 1))
    (extent_list_remove_value (free_chunks (chunks r)) index)) in
  Some (<[rdev := r']> m, mk_chunk rdev offset).

Definition chunk_get_first_free_from_rdev (m : mem) (rdev : Z) : option (mem * option chunk_t) :=
  r ← m !! rdev;
  match free_chunks (chunks r) with
  | [] => Some (m, None)
  | e :: _ =>
      offset ← index_to_offset (u32 (e_start e)) (chunk_size (chunks r));
      '(m, c) ← chunk_get_from_rdev_at_offset m rdev offset;
      Some (m, Some c)
  end.

Definition chunk_put_to_rdev (m : mem) (c : chunk_t) : option mem :=
  let rdev := chunk_get_rdev c in
  r ← m !! rdev;
  index ← offset_to_index (c_offset c) (chunk_size (chunks r));
  free ← extent_list_add_value (free_chunks (chunks r)) index;
  Some (<[rdev := set_chunks r (mk_chunks (chunk_size (chunks r)) (total_chunks_count (chunks r))
    (u32 (free_chunks_count (chunks r) + 1)) free)]> m).

(** ** SPOF groups: [spof_group.c] *)

Definition spof_group_cleanup : spof_group_t :=
  mk_spof_group SPOF_ID_NONE (replicate (Z.to_nat NBMAX_DISKS_PER_SPOF_GROUP) None) 0.

Definition spof_group_init : spof_group_t := spof_group_cleanup.

Definition spof_group_add_rdev (sg : spof_group_t) (rdev : Z) : result spof_group_t :=
  if NBMAX_DISKS_PER_SPOF_GROUP <=? nb_realdevs sg then Err ENOSPC
  else Ok (mk_spof_group (sg_spof_id sg)
             (<[Z.to_nat (nb_realdevs sg) := Some rdev]> (realdevs sg))
             (u32 (nb_realdevs sg + 1))).

(** The first entry that is [rdev], if any. *)
Fixpoint find_rdev (l : list (option Z)) (rdev : Z) : option nat :=
  match l with
  | [] => None
  | p :: l' => if bool_decide (p = Some rdev) then Some O else S <$> find_rdev l' rdev
  end.

(** [realdevs] has [NBMAX_DISKS_PER_SPOF_GROUP] entries; the entries after the
    one found move down by one and the last one is cleared. *)
Definition spof_group_del_rdev (sg : spof_group_t) (rdev : Z) : result spof_group_t :=
  match find_rdev (realdevs sg) rdev with
  | Some i => Ok (mk_spof_group (sg_spof_id sg)
                    (take i (realdevs sg) ++ drop (S i) (realdevs sg) ++ [None])
                    (u32 (nb_realdevs sg - 1)))
  | None => Err ENOENT
  end.

(** The device at rank [i]: dereferences [realdevs[i]]. *)
Definition sg_rdev (m : mem) (sg : spof_group_t) (i : Z) : option (Z * vrt_realdev_t) :=
  p ← realdevs sg !! Z.to_nat i;
  p ← p;
  r ← m !! p;
  Some (p, r).

Fixpoint get_nodes_loop (m : mem) (sg : spof_group_t) (ids : list Z) (nodes : exa_nodeset_t)
    : option exa_nodeset_t :=
  match ids with
  | [] => Some nodes
  | i :: ids' =>
      '(_, r) ← sg_rdev m sg i;
      nodes ← exa_nodeset_add nodes (r_node_id r);
      get_nodes_loop m sg ids' nodes
  end.

Definition spof_group_get_nodes (m : mem) (sg : spof_group_t) : option exa_nodeset_t :=
  get_nodes_loop m sg (seqZ 0 (nb_realdevs sg)) EXA_NODESET_EMPTY.

(** The loop of [least_used_rdev]; [best] is the pair of [rdev] and [min_used]. *)
Fixpoint least_used_loop (m : mem) (sg : spof_group_t) (ids : list Z) (best : option (Z * Z))
    : option (option (Z * Z)) :=
  match ids with
  | [] => Some best
  | i :: ids' =>
      '(p, r) ← sg_rdev m sg i;
      if free_chunks_count (chunks r) =? 0 then least_used_loop m sg ids' best
      else
        let nb_used := u32 (total_chunks_count (chunks r) - free_chunks_count (chunks r)) in
        least_used_loop m sg ids'
          (match best with
           | None => Some (p, nb_used)
           | Some (_, min_used) => if nb_used <? min_used then Some (p, nb_used) else best
           end)
  end.

Definition least_used_rdev (m : mem) (sg : spof_group_t) : option Z :=
  best ← least_used_loop m sg (seqZ 0 (nb_realdevs sg)) None;
  '(p, _) ← best;
  r ← m !! p;
  assert! (0 <? free_chunks_count (chunks r));
  Some p.

Definition spof_group_get_chunk (m : mem) (sg : spof_group_t) : option (mem * option chunk_t) :=
  rdev ← least_used_rdev m sg;
  chunk_get_first_free_from_rdev m rdev.

Definition spof_group_put_chunk (m : mem) (c : chunk_t) : option mem := chunk_put_to_rdev m c.

Fixpoint free_count_loop (m : mem) (sg : spof_group_t) (ids : list Z) (sum : Z) : option Z :=
  match ids with
  | [] => Some sum
  | i :: ids' =>
      '(_, r) ← sg_rdev m sg i;
      free_count_loop m sg ids' (u32 (sum + free_chunks_count (chunks r)))
  end.

Definition spof_group_free_chunk_count (m : mem) (sg : spof_group_t) : option Z :=
  free_count_loop m sg (seqZ 0 (nb_realdevs sg)) 0.

Fixpoint total_count_loop (m : mem) (sg : spof_group_t) (ids : list Z) (sum : Z) : option Z :=
  match ids with
  | [] => Some sum
  | i :: ids' =>
      '(_, r) ← sg_rdev m sg i;
      total_count_loop m sg ids' (u64 (sum + total_chunks_count (chunks r)))
  end.

Definition spof_group_total_chunk_count (m : mem) (sg : spof_group_t) : option Z :=
  total_count_loop m sg (seqZ 0 (nb_realdevs sg)) 0.

(** ** Storage: [storage.c] *)

Definition storage_alloc : storage_t := mk_storage [] 0 0.

Definition KBYTES_2_SECTORS (nb_kbytes : Z) : Z := u32 (nb_kbytes * 2).

Definition storage_set_chunk_size (st : storage_t) (size : Z) : option (result storage_t) :=
  assert! ((s_chunk_size st =? 0) || (s_chunk_size st =? size));
  Some (if size =? 0 then Err EINVAL
        else Ok (mk_storage (spof_groups st) (num_spof_groups st) size)).

(** The index of the first SPOF group with a given id, from rank [i]. *)
Fixpoint lookup_group (l : list spof_group_t) (id : Z) : option nat :=
  match l with
  | [] => None
  | sg :: l' => if sg_spof_id sg =? id then Some O else S <$> lookup_group l' id
  end.

Definition storage_get_spof_group_by_id (st : storage_t) (id : Z) : option nat :=
  lookup_group (take (Z.to_nat (num_spof_groups st)) (spof_groups st)) id.

(** [alloc] tells whether [os_realloc] succeeds. *)
Definition storage_add_spof_group (alloc : bool) (st : storage_t) (spof_id : Z)
    : result (storage_t * nat) :=
  if negb (SPOF_ID_IS_VALID spof_id) then Err EINVAL
  else if bool_decide (is_Some (storage_get_spof_group_by_id st spof_id)) then Err EEXIST
  else if num_spof_groups st =? EXA_MAX_NODES_NUMBER then Err ENOSPC
  else if negb alloc then Err ENOMEM
  else
    let sg := mk_spof_group spof_id (realdevs spof_group_init) (nb_realdevs spof_group_init) in
    Ok (mk_storage (take (Z.to_nat (num_spof_groups st)) (spof_groups st) ++ [sg])
          (u32 (num_spof_groups st + 1)) (s_chunk_size st),
        Z.to_nat (num_spof_groups st)).

Definition get_group (st : storage_t) (i : nat) : spof_group_t := spof_groups st !!! i.

Definition set_group (st : storage_t) (i : nat) (sg : spof_group_t) : storage_t :=
  mk_storage (<[i := sg]> (spof_groups st)) (num_spof_groups st) (s_chunk_size st).

Definition storage_get_num_realdevs (st : storage_t) : Z :=
  foldl (λ count sg, count + nb_realdevs sg) 0
    (take (Z.to_nat (num_spof_groups st)) (spof_groups st)).

Definition storage_add_rdev (alloc : bool) (st : storage_t) (spof_id : Z) (rdev : option Z)
    : result storage_t :=
  match rdev with
  | None => Err EINVAL
  | Some p =>
      if negb (SPOF_ID_IS_VALID spof_id) then Err EINVAL
      else if storage_get_num_realdevs st =? NBMAX_DISKS_PER_GROUP then Err ENOSPC
      else
        match (match storage_get_spof_group_by_id st spof_id with
               | Some i => Ok (st, i)
               | None => storage_add_spof_group alloc st spof_id
               end) with
        | Err e => Err e
        | Ok (st, i) =>
            match spof_group_add_rdev (get_group st i) p with
            | Err e => Err e
            | Ok sg => Ok (set_group st i sg)
            end
        end
  end.

Definition storage_del_rdev (st : storage_t) (spof_id : Z) (rdev : option Z) : result storage_t :=
  match rdev with
  | None => Err EINVAL
  | Some p =>
      if negb (SPOF_ID_IS_VALID spof_id) then Err EINVAL
      else
        match storage_get_spof_group_by_id st spof_id with
        | None => Err ENOENT
        | Some i =>
            match spof_group_del_rdev (get_group st i) p with
            | Err e => Err e
            | Ok sg => Ok (set_group st i sg)
            end
        end
  end.

(** Iterators. Those on devices are positions in the array of SPOF groups and
    in a group; [storage_rdev_iterator_get] calls itself once per group that
    is exhausted, so that the number of groups bounds the recursion. *)
Record storage_rdev_iter_t := mk_rdev_iter { spof_group_index : Z; realdev_index : Z }.

Definition storage_rdev_iterator_begin : storage_rdev_iter_t := mk_rdev_iter 0 0.

Fixpoint storage_rdev_iterator_get (fuel : nat) (st : storage_t) (iter : storage_rdev_iter_t)
    : option (option Z * storage_rdev_iter_t) :=
  match fuel with
  | O => None
  | S fuel' =>
      if num_spof_groups st <=? spof_group_index iter then Some (None, iter)
      else
        sg ← spof_groups st !! Z.to_nat (spof_group_index iter);
        if nb_realdevs sg <=? realdev_index iter then
          storage_rdev_iterator_get fuel' st (mk_rdev_iter (spof_group_index iter + 1) 0)
        else
          rdev ← realdevs sg !! Z.to_nat (realdev_index iter);
          Some (rdev, mk_rdev_iter (spof_group_index iter) (realdev_index iter + 1))
  end.

Definition rdev_iter_fuel (st : storage_t) : nat := S (Z.to_nat (num_spof_groups st)).

(** [storage_get_rdev]; the loop runs at most once per device. *)
Fixpoint get_rdev_loop (fuel : nat) (m : mem) (st : storage_t) (iter : storage_rdev_iter_t)
    (uuid : exa_uuid_t) : option (option Z) :=
  match fuel with
  | O => None
  | S fuel' =>
      '(rdev, iter) ← storage_rdev_iterator_get (rdev_iter_fuel st) st iter;
      match rdev with
      | None => Some None
      | Some p =>
          r ← m !! p;
          if uuid_is_equal (r_uuid r) uuid then Some (Some p)
          else get_rdev_loop fuel' m st iter uuid
      end
  end.

Definition storage_get_rdev (m : mem) (st : storage_t) (uuid : exa_uuid_t) : option (option Z) :=
  get_rdev_loop (S (Z.to_nat (storage_get_num_realdevs st))) m st storage_rdev_iterator_begin uuid.

(** Spof iterator: the identifier at the position and the next position. *)
Definition storage_spof_iterator_get (st : storage_t) (index : Z) : option (Z * Z) :=
  if num_spof_groups st <=? index then Some (SPOF_ID_NONE, index)
  else sg ← spof_groups st !! Z.to_nat index; Some (sg_spof_id sg, index + 1).

Definition storage_get_spof_group_total_chunk_count (m : mem) (st : storage_t) (spof_id : Z)
    : option Z :=
  assert! (SPOF_ID_IS_VALID spof_id);
  i ← storage_get_spof_group_by_id st spof_id;
  spof_group_total_chunk_count m (get_group st i).

Definition storage_get_spof_group_free_chunk_count (m : mem) (st : storage_t) (spof_id : Z)
    : option Z :=
  assert! (SPOF_ID_IS_VALID spof_id);
  i ← storage_get_spof_group_by_id st spof_id;
  spof_group_free_chunk_count m (get_group st i).

(** The loop that fills the list of free chunks: [k] values from [i]. *)
Fixpoint init_free_loop (k : nat) (i : Z) (l : list extent_t) : option (list extent_t) :=
  match k with
  | O => Some l
  | S k' => l ← extent_list_add_value l i; init_free_loop k' (i + 1) l
  end.

Definition storage_initialize_rdev_chunks_info (m : mem) (st : storage_t) (rdev total : Z)
    : option mem :=
  r ← m !! rdev;
  free ← init_free_loop (Z.to_nat total) 0 (free_chunks (chunks r));
  Some (<[rdev := set_chunks r (mk_chunks (KBYTES_2_SECTORS (s_chunk_size st))
          (u32 total) (u32 total) free)]> m).

(** [__usable_size] and [vrt_realdev_get_usable_size] of [vrt_realdev.c]. *)
Definition usable_size (size : Z) : Z :=
  if size <? VRT_SB_AREA_SIZE then 0 else size - VRT_SB_AREA_SIZE.

Definition vrt_realdev_get_usable_size (r : vrt_realdev_t) : Z := usable_size (real_size r).

Definition storage_cut_rdev_in_chunks (m : mem) (st : storage_t) (rdev : Z) : option (result mem) :=
  r ← m !! rdev;
  let total_size := vrt_realdev_get_usable_size r in
  let size := KBYTES_2_SECTORS (s_chunk_size st) in
  assert! (0 <? total_size);
  assert! (0 <? size);
  if total_size <? size then Some (Err VRT_ERR_RDEV_TOO_SMALL)
  else m ← storage_initialize_rdev_chunks_info m st rdev (total_size / size); Some (Ok m).

Fixpoint cut_loop (fuel : nat) (m : mem) (st : storage_t) (iter : storage_rdev_iter_t) (total : Z)
    : option (mem * result Z) :=
  match fuel with
  | O => None
  | S fuel' =>
      '(rdev, iter) ← storage_rdev_iterator_get (rdev_iter_fuel st) st iter;
      match rdev with
      | None => Some (m, Ok total)
      | Some p =>
          res ← storage_cut_rdev_in_chunks m st p;
          match res with
          | Err e => Some (m, Err e)
          | Ok m =>
              r ← m !! p;
              cut_loop fuel' m st iter (u64 (total + total_chunks_count (chunks r)))
          end
      end
  end.

(** The devices already cut stay so when an error is returned. *)
Definition storage_cut_in_chunks (m : mem) (st : storage_t) (size : Z)
    : option (mem * storage_t * result unit) :=
  res ← storage_set_chunk_size st size;
  match res with
  | Err e => Some (m, st, Err e)
  | Ok st =>
      '(m, res) ← cut_loop (S (Z.to_nat (storage_get_num_realdevs st))) m st
        storage_rdev_iterator_begin 0;
      Some (m, st,
        match res with
        | Err e => Err e
        | Ok total => if VRT_NBMAX_CHUNKS_PER_GROUP <? total then Err VRT_ERR_TOO_MANY_CHUNKS
                      else Ok tt
        end)
  end.

(** ** Devices and their free chunks *)

(** The free chunks of a device are recorded without duplicates, are chunks of
    the device, and are counted. *)
Record rdev_ok (r : vrt_realdev_t) : Prop := {
  rk_size : 0 < chunk_size (chunks r) < 2 ^ 32;
  rk_total : fits 32 (total_chunks_count (chunks r));
  rk_wf : extents_wf (free_chunks (chunks r));
  rk_range : ∀ v, has (free_chunks (chunks r)) v = true → 0 <= v < total_chunks_count (chunks r);
  rk_count : free_chunks_count (chunks r) = num_values (free_chunks (chunks r))
}.

Definition chunk_off (r : vrt_realdev_t) (idx : Z) : Z :=
  idx * chunk_size (chunks r) + VRT_SB_AREA_SIZE.

Definition with_free (r : vrt_realdev_t) (count : Z) (free : list extent_t) : vrt_realdev_t :=
  set_chunks r (mk_chunks (chunk_size (chunks r)) (total_chunks_count (chunks r)) count free).

Definition take_chunk (r : vrt_realdev_t) (idx : Z) : vrt_realdev_t :=
  with_free r (free_chunks_count (chunks r) - 1) (del idx (free_chunks (chunks r))).

Definition give_chunk (r : vrt_realdev_t) (idx : Z) : vrt_realdev_t :=
  with_free r (free_chunks_count (chunks r) + 1) (ins idx (free_chunks (chunks r))).

Lemma index_offset idx size :
  fits 32 idx → 0 < size < 2 ^ 32 →
  index_to_offset idx size = Some (idx * size + VRT_SB_AREA_SIZE) ∧
  offset_to_index (idx * size + VRT_SB_AREA_SIZE) size = Some idx.
Proof.
  unfold fits. intros Hi Hs. assert (0 <= idx * size <= (2 ^ 32 - 1) * (2 ^ 32 - 1)) by nia.
  unfold index_to_offset, offset_to_index, VRT_SB_AREA_SIZE.
  replace (size =? 0) with false by lia. cbn [negb exa_assert].
  rewrite (u64_id (idx * size)), (u64_id (_ + 65536)), (u64_id (_ - _)) by (unfold fits; lia).
  split; [done|]. f_equal. replace (idx * size + 65536 - 65536) with (idx * size) by lia.
  rewrite Z.div_mul by lia. apply u32_id. unfold fits. lia.
Qed.

Lemma value_ok_u32 v : fits 32 v → value_ok v.
Proof. unfold fits, value_ok, MAX_VALUE. lia. Qed.

Lemma index_fits r idx : rdev_ok r → 0 <= idx < total_chunks_count (chunks r) → fits 32 idx.
Proof. intros Hr Hi. pose proof (rk_total r Hr). unfold fits in *. lia. Qed.

Lemma num_values_le_total lo l t :
  extents_from lo l → (∀ v, has l v = true → v < t) → 0 <= lo <= t →
  0 <= num_values l <= t - lo.
Proof.
  unfold num_values. revert lo. induction l as [|e l IH]; intros lo Hl Hv Hlo; simpl; [lia|].
  destruct Hl as (H1 & H2 & H3).
  assert (He : e_end e < t).
  { apply Hv. rewrite has_cons. lia. }
  assert (0 <= zsum (map (λ e, e_end e - e_start e + 1) l)) by (apply (num_values_bound _ l H3); lia).
  destruct l as [|e' l]; [simpl; lia|].
  assert (Hl' : ∀ v, has (e' :: l) v = true → v < t).
  { intros v Hv'. apply Hv. rewrite has_cons, Hv'. by rewrite orb_true_r. }
  assert (e_end e + 2 <= t).
  { destruct H3 as (H3 & _). assert (e_start e' < t); [|lia]. apply Hl'. rewrite has_cons. lia. }
  specialize (IH (e_end e + 2) H3 Hl' ltac:(lia)). unfold zsum in *. lia.
Qed.

Lemma free_count_bounds r :
  rdev_ok r → 0 <= free_chunks_count (chunks r) <= total_chunks_count (chunks r).
Proof.
  intros Hr. rewrite (rk_count r Hr). pose proof (rk_total r Hr) as Ht. unfold fits in Ht.
  destruct (num_values_le_total 0 (free_chunks (chunks r)) (total_chunks_count (chunks r)));
    [apply Hr|intros v Hv; apply (rk_range r Hr v Hv)|lia|lia].
Qed.

Lemma free_count_fits r : rdev_ok r → fits 32 (free_chunks_count (chunks r)).
Proof.
  intros Hr. pose proof (free_count_bounds r Hr). pose proof (rk_total r Hr). unfold fits in *. lia.
Qed.

(** A device has free chunks exactly when its list is not empty. *)
Lemma free_count_pos r :
  rdev_ok r → 0 < free_chunks_count (chunks r) ↔ free_chunks (chunks r) ≠ [].
Proof.
  intros Hr. rewrite (rk_count r Hr). pose proof (rk_wf r Hr) as Hw. unfold num_values.
  destruct (free_chunks (chunks r)) as [|e l]; [simpl; split; [lia|done]|].
  split; [done|]. intros _. destruct Hw as (H1 & H2 & H3).
  destruct (num_values_bound _ l H3) as [Hp _]; [lia|]. unfold num_values in Hp. simpl. unfold zsum in *. lia.
Qed.

Lemma take_chunk_ok r idx :
  rdev_ok r → has (free_chunks (chunks r)) idx = true → rdev_ok (take_chunk r idx).
Proof.
  intros Hr Hin. pose proof (rk_wf r Hr) as Hw. split; simpl; try apply Hr.
  - by apply extents_wf_del.
  - intros v. rewrite (del_has 0) by done. rewrite andb_true_iff. intros [? _]. by apply Hr.
  - rewrite (del_num 0), Hin, (rk_count r Hr) by done. done.
Qed.

Lemma give_chunk_ok r idx :
  rdev_ok r → 0 <= idx < total_chunks_count (chunks r) →
  has (free_chunks (chunks r)) idx = false → rdev_ok (give_chunk r idx).
Proof.
  intros Hr Hi Hn. pose proof (rk_wf r Hr) as Hw.
  assert (Hv : value_ok idx) by (apply value_ok_u32; by eapply index_fits).
  split; simpl; try apply Hr.
  - by apply extents_wf_ins.
  - intros v. rewrite (ins_has 0), orb_true_iff, Z.eqb_eq by done. intros [?| ->]; [by apply Hr|done].
  - rewrite (ins_num 0), Hn, (rk_count r Hr) by done. done.
Qed.

Lemma chunk_get_at_ok m p r idx :
  m !! p = Some r → rdev_ok r → has (free_chunks (chunks r)) idx = true →
  chunk_get_from_rdev_at_offset m p (chunk_off r idx) =
  Some (<[p := take_chunk r idx]> m, mk_chunk p (chunk_off r idx)).
Proof.
  intros Hp Hr Hin. pose proof (rk_range r Hr idx Hin) as Hi.
  pose proof (index_fits r idx Hr Hi) as Hf.
  unfold chunk_get_from_rdev_at_offset, chunk_off. rewrite Hp. returned.
  rewrite (proj2 (index_offset idx _ Hf (rk_size r Hr))). returned.
  replace (idx <=? _) with true by lia. cbn [exa_assert].
  rewrite remove_value_ok by (by apply Hr || by apply value_ok_u32).
  rewrite u32_id; [done|]. pose proof (free_count_fits r Hr) as Hc.
  assert (0 < free_chunks_count (chunks r)).
  { apply free_count_pos; [done|]. intros E. by rewrite E in Hin. }
  unfold fits in *. lia.
Qed.

Lemma first_free r e l :
  rdev_ok r → free_chunks (chunks r) = e :: l →
  has (free_chunks (chunks r)) (e_start e) = true ∧
  ∀ v, has (free_chunks (chunks r)) v = true → e_start e <= v.
Proof.
  intros Hr E. pose proof (rk_wf r Hr) as Hw. rewrite E in *. destruct Hw as (H1 & H2 & H3).
  rewrite has_cons. split; [lia|]. intros v. rewrite has_cons. intros Hv.
  destruct (Z.leb_spec (e_start e) v); [done|].
  rewrite (has_lower _ _ v H3) in Hv by lia. lia.
Qed.

Lemma chunk_get_first_ok m p r :
  m !! p = Some r → rdev_ok r → 0 < free_chunks_count (chunks r) →
  ∃ idx, chunk_get_first_free_from_rdev m p =
      Some (<[p := take_chunk r idx]> m, Some (mk_chunk p (chunk_off r idx))) ∧
    has (free_chunks (chunks r)) idx = true ∧
    ∀ v, has (free_chunks (chunks r)) v = true → idx <= v.
Proof.
  intros Hp Hr Hc. apply free_count_pos in Hc; [|done].
  unfold chunk_get_first_free_from_rdev. rewrite Hp. returned.
  destruct (free_chunks (chunks r)) as [|e l] eqn:E; [done|].
  destruct (first_free r e l Hr E) as [Hin Hmin]. rewrite <- E.
  pose proof (rk_range r Hr _ Hin) as Hi. pose proof (index_fits r _ Hr Hi) as Hf.
  exists (e_start e). split; [|done]. rewrite u32_id by done.
  rewrite (proj1 (index_offset _ _ Hf (rk_size r Hr))). returned.
  fold (chunk_off r (e_start e)). by rewrite chunk_get_at_ok by done.
Qed.

Lemma chunk_put_ok m p r idx :
  m !! p = Some r → rdev_ok r → 0 <= idx < total_chunks_count (chunks r) →
  has (free_chunks (chunks r)) idx = false →
  chunk_put_to_rdev m (mk_chunk p (chunk_off r idx)) = Some (<[p := give_chunk r idx]> m).
Proof.
  intros Hp Hr Hi Hn. pose proof (index_fits r idx Hr Hi) as Hf.
  unfold chunk_put_to_rdev, chunk_get_rdev, chunk_off. cbn [c_rdev c_offset]. rewrite Hp. returned.
  rewrite (proj2 (index_offset idx _ Hf (rk_size r Hr))). returned.
  rewrite add_value_ok by (by apply Hr || by apply value_ok_u32). returned.
  rewrite u32_id; [done|]. pose proof (give_chunk_ok r idx Hr Hi Hn) as Hg.
  apply free_count_fits in Hg. done.
Qed.

(** Putting back a chunk that was just taken restores the device. *)
Lemma take_give r idx :
  rdev_ok r → has (free_chunks (chunks r)) idx = true → give_chunk (take_chunk r idx) idx = r.
Proof.
  intros Hr Hin. pose proof (rk_wf r Hr) as Hw. unfold give_chunk, take_chunk, with_free. simpl.
  replace (ins idx (del idx (free_chunks (chunks r)))) with (free_chunks (chunks r)).
  { replace (free_chunks_count (chunks r) - 1 + 1) with (free_chunks_count (chunks r)) by lia.
    by destruct r as [? []]. }
  assert (Hv : value_ok idx) by (apply value_ok_u32, (index_fits r), (rk_range r); done).
  apply (extents_ext 0); [done|by apply extents_wf_ins; [apply extents_wf_del|]|].
  intros x. rewrite (ins_has 0), (del_has 0) by (done || by apply extents_wf_del).
  destruct (Z.eqb_spec x idx) as [->|]; by rewrite ?Hin, ?andb_true_r, ?orb_false_r, ?orb_true_r.
Qed.

(** ** The ledger: which chunks are out

    [out] is the list of the chunks that were taken and not put back. The
    ledger holds when the chunks of every device are exactly those on its free
    list and those out. *)
Record ledger (m : mem) (out : list chunk_t) : Prop := {
  lg_rdev : ∀ p r, m !! p = Some r → rdev_ok r;
  lg_nodup : NoDup out;
  lg_out : ∀ p r idx, m !! p = Some r → 0 <= idx < total_chunks_count (chunks r) →
    mk_chunk p (chunk_off r idx) ∈ out ↔ has (free_chunks (chunks r)) idx = false;
  lg_valid : ∀ c, c ∈ out → ∃ r idx, m !! c_rdev c = Some r ∧
    0 <= idx < total_chunks_count (chunks r) ∧ c_offset c = chunk_off r idx;
  lg_count : ∀ p r, m !! p = Some r →
    free_chunks_count (chunks r) + Z.of_nat (length (filter (λ c, c_rdev c = p) out)) =
    total_chunks_count (chunks r)
}.

Lemma chunk_off_inj r i j : rdev_ok r → chunk_off r i = chunk_off r j → i = j.
Proof. intros Hr. pose proof (rk_size r Hr). unfold chunk_off. nia. Qed.

(** Changing the free list of a device keeps its geometry. *)
Lemma lookup_with_free (m : mem) p r count free q r' :
  m !! p = Some r → <[p := with_free r count free]> m !! q = Some r' →
  (q = p ∧ r' = with_free r count free) ∨ (q ≠ p ∧ m !! q = Some r').
Proof. intros Hp. rewrite lookup_insert_Some. naive_solver. Qed.

Lemma ledger_take m out p r idx :
  ledger m out → m !! p = Some r → has (free_chunks (chunks r)) idx = true →
  ledger (<[p := take_chunk r idx]> m) (mk_chunk p (chunk_off r idx) :: out).
Proof.
  intros L Hp Hin. pose proof (lg_rdev _ _ L p r Hp) as Hr.
  pose proof (rk_range r Hr idx Hin) as Hi. pose proof (rk_wf r Hr) as Hw.
  split.
  - intros q r' Hq. apply (lookup_with_free m p r) in Hq as [[-> ->]|[_ Hq]];
      [by apply take_chunk_ok|by eapply L|done].
  - constructor; [|apply L]. rewrite (lg_out _ _ L p r idx Hp Hi). congruence.
  - intros q r' i Hq Hir. rewrite elem_of_cons.
    apply (lookup_with_free m p r) in Hq as [[-> ->]|[Hne Hq]]; [| |done].
    + simpl in *. rewrite (del_has 0) by done. change (chunk_off (with_free r _ _) i) with (chunk_off r i).
      rewrite (lg_out _ _ L p r i Hp Hir). split.
      * intros [[= E]| ->]; [|done]. apply (chunk_off_inj r) in E as ->; [|done].
        by rewrite Z.eqb_refl, andb_false_r.
      * destruct (Z.eqb_spec i idx) as [->|]; [by left|]. rewrite andb_true_r. auto.
    + rewrite (lg_out _ _ L q r' i Hq Hir). split; [intros [[= -> _]|?]; done|auto].
  - intros c [->|Hc]%elem_of_cons; simpl.
    + exists (take_chunk r idx), idx. by rewrite lookup_insert_eq.
    + destruct (lg_valid _ _ L c Hc) as (r' & i & Hr' & Hir & Ho).
      destruct (decide (c_rdev c = p)) as [E|E].
      * rewrite E in *. simplify_eq. exists (take_chunk r idx), i. by rewrite lookup_insert_eq.
      * exists r', i. by rewrite lookup_insert_ne.
  - intros q r' Hq. apply (lookup_with_free m p r) in Hq as [[-> ->]|[Hne Hq]]; [| |done].
    + rewrite filter_cons_True by done. simpl. pose proof (lg_count _ _ L p r Hp). lia.
    + rewrite filter_cons_False by (simpl; congruence). by apply L.
Qed.

Lemma ledger_give m out1 out2 p r idx :
  ledger m (out1 ++ mk_chunk p (chunk_off r idx) :: out2) → m !! p = Some r →
  0 <= idx < total_chunks_count (chunks r) →
  has (free_chunks (chunks r)) idx = false ∧
  ledger (<[p := give_chunk r idx]> m) (out1 ++ out2).
Proof.
  intros L Hp Hi. pose proof (lg_rdev _ _ L p r Hp) as Hr. pose proof (rk_wf r Hr) as Hw.
  assert (Hn : has (free_chunks (chunks r)) idx = false).
  { apply (lg_out _ _ L p r idx Hp Hi). set_solver. }
  split; [done|].
  pose proof (lg_nodup _ _ L) as Hnd. rewrite <- Permutation_middle in Hnd.
  apply NoDup_cons in Hnd as [Hni Hnd].
  assert (Hel : ∀ c, c ∈ out1 ++ out2 ↔ c ∈ out1 ++ mk_chunk p (chunk_off r idx) :: out2 ∧
    c ≠ mk_chunk p (chunk_off r idx)).
  { intros c. rewrite !elem_of_app, elem_of_cons. rewrite elem_of_app in Hni. naive_solver. }
  split.
  - intros q r' Hq. apply (lookup_with_free m p r) in Hq as [[-> ->]|[_ Hq]];
      [by apply give_chunk_ok|by eapply L|done].
  - done.
  - intros q r' i Hq Hir. rewrite Hel.
    apply (lookup_with_free m p r) in Hq as [[-> ->]|[Hne Hq]]; [| |done].
    + simpl in *. rewrite (ins_has 0) by done. change (chunk_off (with_free r _ _) i) with (chunk_off r i).
      rewrite (lg_out _ _ L p r i Hp Hir), orb_false_iff, Z.eqb_neq. split.
      * intros [? Hne]. split; [done|]. intros ->. done.
      * intros [? Hne]. split; [done|]. intros [= E]. by apply (chunk_off_inj r) in E.
    + rewrite (lg_out _ _ L q r' i Hq Hir). split; [by intros [? _]|]. intros ?. split; [done|].
      by intros [= -> _].
  - intros c [Hc Hne]%Hel. destruct (lg_valid _ _ L c Hc) as (r' & i & Hr' & Hir & Ho).
    destruct (decide (c_rdev c = p)) as [E|E].
    + rewrite E in *. simplify_eq. exists (give_chunk r idx), i. by rewrite lookup_insert_eq.
    + exists r', i. by rewrite lookup_insert_ne.
  - intros q r' Hq. apply (lookup_with_free m p r) in Hq as [[-> ->]|[Hne Hq]]; [| |done].
    + pose proof (lg_count _ _ L p r Hp) as Hc. rewrite filter_app in Hc |- *.
      rewrite filter_cons_True in Hc by done. rewrite length_app in Hc |- *. simpl in *. lia.
    + pose proof (lg_count _ _ L q r' Hq) as Hc. rewrite filter_app in Hc |- *.
      by rewrite filter_cons_False in Hc by (simpl; congruence).
Qed.

(** Putting back any chunk that is out succeeds and keeps the ledger. *)
Lemma ledger_put m out1 out2 c :
  ledger m (out1 ++ c :: out2) →
  ∃ m', chunk_put_to_rdev m c = Some m' ∧ ledger m' (out1 ++ out2) ∧
    ∃ r idx, m !! c_rdev c = Some r ∧ m' = <[c_rdev c := give_chunk r idx]> m ∧
      has (free_chunks (chunks r)) idx = false.
Proof.
  intros L. destruct (lg_valid _ _ L c) as (r & idx & Hp & Hi & Ho); [set_solver|].
  destruct c as [p o]. simpl in *. subst o.
  destruct (ledger_give m out1 out2 p r idx L Hp Hi) as [Hn L'].
  rewrite (chunk_put_ok m p r idx Hp (lg_rdev _ _ L p r Hp) Hi Hn).
  eexists. split_and!; [done|done|]. by exists r, idx.
Qed.

(** ** SPOF groups *)

(** The devices of a group, in order. *)
Definition sg_rdevs (sg : spof_group_t) : list Z :=
  omap id (take (Z.to_nat (nb_realdevs sg)) (realdevs sg)).

Record group_wf (sg : spof_group_t) : Prop := {
  gw_len : length (realdevs sg) = Z.to_nat NBMAX_DISKS_PER_SPOF_GROUP;
  gw_nb : 0 <= nb_realdevs sg <= NBMAX_DISKS_PER_SPOF_GROUP;
  gw_rdevs : realdevs sg = (Some <$> sg_rdevs sg) ++
    replicate (Z.to_nat (NBMAX_DISKS_PER_SPOF_GROUP - nb_realdevs sg)) None;
  gw_count : nb_realdevs sg = Z.of_nat (length (sg_rdevs sg))
}.

Definition free_of (m : mem) (p : Z) : Z := from_option (free_chunks_count ∘ chunks) 0 (m !! p).
Definition total_of (m : mem) (p : Z) : Z := from_option (total_chunks_count ∘ chunks) 0 (m !! p).

Definition in_mem (m : mem) (sg : spof_group_t) : Prop := ∀ p, p ∈ sg_rdevs sg → is_Some (m !! p).

Lemma sg_rdev_ok m sg i p :
  group_wf sg → in_mem m sg → sg_rdevs sg !! i = Some p →
  ∃ r, sg_rdev m sg (Z.of_nat i) = Some (p, r) ∧ m !! p = Some r.
Proof.
  intros Hg Hm Hi. destruct (Hm p) as [r Hr]; [by eapply list_elem_of_lookup_2|].
  exists r. split; [|done]. unfold sg_rdev. rewrite Nat2Z.id, (gw_rdevs sg Hg).
  rewrite lookup_app_l, list_lookup_fmap, Hi by (rewrite length_fmap; by eapply lookup_lt_Some).
  simpl. by rewrite Hr.
Qed.

(** A loop over the devices of a group is a loop over [sg_rdevs]. *)
Lemma seqZ_ranks (n : nat) : seqZ 0 (Z.of_nat n) = Z.of_nat <$> seq 0 n.
Proof.
  unfold seqZ. rewrite Nat2Z.id. apply list_fmap_ext. intros i x _. lia.
Qed.

Definition used_of (m : mem) (p : Z) : Z := total_of m p - free_of m p.

Section group.
Context (m : mem) (sg : spof_group_t) (Hg : group_wf sg) (Hm : in_mem m sg).
Context (Hok : ∀ p r, m !! p = Some r → rdev_ok r).

Lemma ranks_eq : seqZ 0 (nb_realdevs sg) = Z.of_nat <$> seq 0 (length (sg_rdevs sg)).
Proof using Hg. by rewrite (gw_count sg Hg), seqZ_ranks. Qed.

(** Facts on the device at a rank. *)
Lemma rank_ok k p l :
  drop k (sg_rdevs sg) = p :: l →
  ∃ r, sg_rdev m sg (Z.of_nat k) = Some (p, r) ∧ m !! p = Some r ∧ rdev_ok r ∧
    free_of m p = free_chunks_count (chunks r) ∧ total_of m p = total_chunks_count (chunks r) ∧
    drop (S k) (sg_rdevs sg) = l.
Proof using Hg Hm Hok.
  intros Hd. destruct (sg_rdev_ok m sg k p) as (r & E & Hr); [done|done| |].
  { rewrite <- (Nat.add_0_r k), <- lookup_drop, Hd. done. }
  exists r. unfold free_of, total_of. rewrite Hr. split_and!; try done; [by eapply Hok|].
  rewrite <- Nat.add_1_r, <- drop_drop, Hd. done.
Qed.

Lemma free_count_loop_ok k l s :
  drop k (sg_rdevs sg) = l → 0 <= s → s + zsum (map (free_of m) l) < 2 ^ 32 →
  free_count_loop m sg (Z.of_nat <$> seq k (length l)) s = Some (s + zsum (map (free_of m) l)).
Proof using Hg Hm Hok.
  revert k s. induction l as [|p l IH]; intros k s Hd Hs Hlt; simpl.
  { f_equal. lia. }
  destruct (rank_ok k p l Hd) as (r & -> & Hr & Hrk & Hf & _ & Hd'). returned.
  pose proof (free_count_bounds r Hrk) as Hb. simpl in Hlt. rewrite Hf in *.
  assert (0 <= zsum (map (free_of m) l)).
  { apply zsum_nonneg, Forall_map, Forall_forall. intros q Hq. simpl. unfold free_of.
    destruct (m !! q) as [r'|] eqn:E; simpl; [|lia]. apply free_count_bounds. by eapply Hok. }
  rewrite u32_id by (unfold fits, zsum in *; lia).
  rewrite IH; [f_equal; unfold zsum; lia|done|lia|unfold zsum in *; lia].
Qed.

Lemma spof_group_free_chunk_count_ok :
  zsum (map (free_of m) (sg_rdevs sg)) < 2 ^ 32 →
  spof_group_free_chunk_count m sg = Some (zsum (map (free_of m) (sg_rdevs sg))).
Proof using Hg Hm Hok.
  intros Hlt. unfold spof_group_free_chunk_count. rewrite ranks_eq.
  by apply (free_count_loop_ok 0).
Qed.

(** [b] is the best candidate among [best] and the devices of [l]. *)
Definition least_used_spec (l : list Z) (best b : option (Z * Z)) : Prop :=
  match b with
  | None => best = None ∧ ∀ q, q ∈ l → free_of m q = 0
  | Some (p, u) =>
      (best = Some (p, u) ∨ (p ∈ l ∧ 0 < free_of m p ∧ u = used_of m p)) ∧
      (∀ p' u', best = Some (p', u') → u <= u') ∧
      (∀ q, q ∈ l → 0 < free_of m q → u <= used_of m q)
  end.

Lemma least_used_loop_ok k l best :
  drop k (sg_rdevs sg) = l →
  ∃ b, least_used_loop m sg (Z.of_nat <$> seq k (length l)) best = Some b ∧
    least_used_spec l best b.
Proof using Hg Hm Hok.
  revert k best. induction l as [|p l IH]; intros k best Hd; cbn [length seq fmap list_fmap least_used_loop].
  { exists best. split; [done|]. destruct best as [[p u]|]; simpl; [|set_solver].
    split_and!; [by left| |set_solver]. intros p' u' [= <- <-]. lia. }
  destruct (rank_ok k p l Hd) as (r & -> & Hr & Hrk & Hf & Ht & Hd'). returned.
  pose proof (free_count_bounds r Hrk) as Hb. pose proof (rk_total r Hrk) as Hfit.
  case_if.
  - destruct (IH (S k) best Hd') as (b & Eb & Hb'). exists b. split; [exact Eb|].
    destruct b as [[q u]|]; simpl in *.
    + destruct Hb' as (H1 & H2 & H3). split_and!; [|done|].
      * destruct H1 as [?|(? & ? & ?)]; [by left|right; split_and!; [by right|done..]].
      * intros q' [->|Hq]%elem_of_cons; [lia|by apply H3].
    + destruct Hb' as [? H]. split; [done|]. intros q [->|Hq]%elem_of_cons; [lia|by apply H].
  - rewrite u32_id by (unfold fits in *; lia). set (u := _ - _).
    assert (Hu : used_of m p = u) by (unfold used_of; lia).
    set (best' := match best with None => _ | Some _ => _ end).
    destruct (IH (S k) best' Hd') as (b & Eb & Hb'). exists b. split; [exact Eb|].
    assert (Hbest' : (best' = Some (p, u) ∨ best' = best ∧ best ≠ None) ∧
      ∀ p' u', best = Some (p', u') → ∃ p2 u2, best' = Some (p2, u2) ∧ u2 <= u' ∧ u2 <= u).
    { unfold best'. destruct best as [[p' u']|]; [|split; [by left|done]].
      destruct (Z.ltb_spec u u'); (split; [by auto|]); intros ? ? [= <- <-]; eexists _, _;
        (split; [done|lia]). }
    destruct Hbest' as [Hsel Hmin].
    destruct b as [[q w]|]; simpl in *.
    + destruct Hb' as (H1 & H2 & H3). split_and!.
      * destruct H1 as [H1|(? & ? & ?)]; [|right; split_and!; [by right|done..]].
        destruct Hsel as [Hsel|[Hsel _]]; rewrite H1 in Hsel.
        -- injection Hsel as -> ->. right. split_and!; [by left|lia|done].
        -- by left.
      * intros p' u' E. destruct (Hmin p' u' E) as (p2 & u2 & E2 & ? & ?).
        pose proof (H2 _ _ E2). lia.
      * intros q' [->|Hq]%elem_of_cons; [|by apply H3]. intros _. rewrite Hu.
        destruct best as [[p' u']|]; [|by apply (H2 p u)].
        destruct (Hmin p' u' eq_refl) as (p2 & u2 & E2 & ? & ?). pose proof (H2 _ _ E2). lia.
    + destruct Hb' as [Hnone _]. exfalso.
      destruct Hsel as [Hsel|[Hsel Hne]]; congruence.
Qed.

(** A device is found as soon as one has a free chunk. *)
Lemma least_used_rdev_ok :
  (∃ q, q ∈ sg_rdevs sg ∧ 0 < free_of m q) →
  ∃ p r, least_used_rdev m sg = Some p ∧ p ∈ sg_rdevs sg ∧ m !! p = Some r ∧ rdev_ok r ∧
    0 < free_chunks_count (chunks r) ∧
    ∀ q, q ∈ sg_rdevs sg → 0 < free_of m q → used_of m p <= used_of m q.
Proof using Hg Hm Hok.
  intros (q & Hq & Hf). unfold least_used_rdev. rewrite ranks_eq.
  destruct (least_used_loop_ok 0 (sg_rdevs sg) None eq_refl) as (b & -> & Hb). returned.
  destruct b as [[p u]|]; [|destruct Hb as [_ H]; pose proof (H q Hq); lia]. simpl in Hb.
  destruct Hb as ([?|(Hp & Hfp & ->)] & _ & Hmin); [done|].
  destruct (Hm p Hp) as [r Hr]. returned. rewrite Hr. returned.
  assert (Hfr : free_of m p = free_chunks_count (chunks r)) by (unfold free_of; by rewrite Hr).
  replace (0 <? _) with true by lia. exists p, r. split_and!; try done; [by eapply Hok|lia].
Qed.
End group.

(** Taking a chunk in a group. *)
Lemma spof_group_get_chunk_ok m sg out :
  ledger m out → group_wf sg → in_mem m sg → (∃ q, q ∈ sg_rdevs sg ∧ 0 < free_of m q) →
  ∃ p r idx, spof_group_get_chunk m sg =
      Some (<[p := take_chunk r idx]> m, Some (mk_chunk p (chunk_off r idx))) ∧
    p ∈ sg_rdevs sg ∧ m !! p = Some r ∧ has (free_chunks (chunks r)) idx = true ∧
    (∀ v, has (free_chunks (chunks r)) v = true → idx <= v) ∧
    (∀ q, q ∈ sg_rdevs sg → 0 < free_of m q → used_of m p <= used_of m q) ∧
    ledger (<[p := take_chunk r idx]> m) (mk_chunk p (chunk_off r idx) :: out).
Proof.
  intros L Hg Hm Hex.
  destruct (least_used_rdev_ok m sg Hg Hm (lg_rdev _ _ L) Hex) as (p & r & E & Hp & Hr & Hrk & Hc & Hmin).
  destruct (chunk_get_first_ok m p r Hr Hrk Hc) as (idx & Eg & Hin & Hlow).
  exists p, r, idx. unfold spof_group_get_chunk. rewrite E. returned. rewrite Eg.
  split_and!; try done. by apply ledger_take.
Qed.

(** ** Adding and removing devices *)

Lemma omap_Some_replicate (ps : list Z) k : omap id ((Some <$> ps) ++ replicate k None) = ps.
Proof.
  induction ps as [|p ps IH]; [by induction k|]. cbn. by f_equal.
Qed.

Lemma group_intro sg ps :
  realdevs sg = (Some <$> ps) ++ replicate (Z.to_nat NBMAX_DISKS_PER_SPOF_GROUP - length ps) None →
  nb_realdevs sg = Z.of_nat (length ps) → (length ps <= Z.to_nat NBMAX_DISKS_PER_SPOF_GROUP)%nat →
  group_wf sg ∧ sg_rdevs sg = ps.
Proof.
  intros Hr Hn Hl.
  assert (E : sg_rdevs sg = ps).
  { unfold sg_rdevs. rewrite Hn, Nat2Z.id, Hr, take_app_length' by (by rewrite length_fmap).
    rewrite <- (app_nil_r (Some <$> ps)). apply (omap_Some_replicate ps 0). }
  split; [|done]. split; rewrite ?E.
  - rewrite Hr, length_app, length_fmap, length_replicate. lia.
  - rewrite Hn. unfold NBMAX_DISKS_PER_SPOF_GROUP in *. lia.
  - rewrite Hr, Hn. do 2 f_equal. lia.
  - done.
Qed.

Lemma group_array sg :
  group_wf sg → realdevs sg = (Some <$> sg_rdevs sg) ++
    replicate (Z.to_nat NBMAX_DISKS_PER_SPOF_GROUP - length (sg_rdevs sg)) None ∧
    (length (sg_rdevs sg) <= Z.to_nat NBMAX_DISKS_PER_SPOF_GROUP)%nat.
Proof.
  intros Hg. pose proof (gw_count sg Hg) as Hc. pose proof (gw_nb sg Hg) as Hn. split.
  - rewrite (gw_rdevs sg Hg) at 1. do 2 f_equal. lia.
  - lia.
Qed.

Lemma group_empty : group_wf spof_group_init ∧ sg_rdevs spof_group_init = [].
Proof. apply group_intro; simpl; [done|done|lia]. Qed.

Lemma group_add_ok sg p :
  group_wf sg →
  if NBMAX_DISKS_PER_SPOF_GROUP <=? nb_realdevs sg
  then spof_group_add_rdev sg p = Err ENOSPC
  else ∃ sg', spof_group_add_rdev sg p = Ok sg' ∧ group_wf sg' ∧
    sg_rdevs sg' = sg_rdevs sg ++ [p] ∧ sg_spof_id sg' = sg_spof_id sg.
Proof.
  intros Hg. unfold spof_group_add_rdev. case_if; [done|].
  eexists. split; [done|]. destruct (group_array sg Hg) as [Ha Hl].
  pose proof (gw_count sg Hg) as Hc. pose proof (gw_nb sg Hg) as Hn.
  destruct (group_intro (mk_spof_group (sg_spof_id sg)
    (<[Z.to_nat (nb_realdevs sg):=Some p]> (realdevs sg)) (u32 (nb_realdevs sg + 1)))
    (sg_rdevs sg ++ [p])) as [H1 H2]; [..|by split_and!]; cbn [realdevs nb_realdevs].
  - rewrite Ha, Hc, Nat2Z.id. rewrite insert_app_r_alt by (by rewrite length_fmap).
    rewrite length_fmap, Nat.sub_diag, fmap_app, length_app. simpl.
    replace (Z.to_nat NBMAX_DISKS_PER_SPOF_GROUP - length (sg_rdevs sg))%nat
      with (S (Z.to_nat NBMAX_DISKS_PER_SPOF_GROUP - (length (sg_rdevs sg) + 1))) by lia.
    simpl. by rewrite <- app_assoc.
  - rewrite u32_id by (unfold fits, NBMAX_DISKS_PER_SPOF_GROUP in *; lia).
    rewrite length_app. simpl. lia.
  - rewrite length_app. simpl. lia.
Qed.

Lemma find_rdev_ok (ps : list Z) k p :
  match find_rdev ((Some <$> ps) ++ replicate k None) p with
  | Some i => ∃ l1 l2, ps = l1 ++ p :: l2 ∧ p ∉ l1 ∧ i = length l1
  | None => p ∉ ps
  end.
Proof.
  induction ps as [|q ps IH]; simpl.
  - replace (find_rdev (replicate k None) p) with (@None nat); [by apply not_elem_of_nil|].
    induction k as [|k IHk]; [done|]. simpl. by rewrite <- IHk.
  - case_bool_decide as E.
    + simplify_eq. exists [], ps. split_and!; [done|apply not_elem_of_nil|done].
    + assert (q ≠ p) by congruence.
      destruct (find_rdev _ p) as [i|]; simpl.
      * destruct IH as (l1 & l2 & -> & Hn & ->). exists (q :: l1), l2. split_and!; [done| |done].
        by rewrite not_elem_of_cons.
      * by rewrite not_elem_of_cons.
Qed.

(** Removal of the first occurrence. *)
Fixpoint remove_first (p : Z) (l : list Z) : list Z :=
  match l with
  | [] => []
  | q :: l' => if bool_decide (q = p) then l' else q :: remove_first p l'
  end.

Lemma remove_first_app l1 l2 p : p ∉ l1 → remove_first p (l1 ++ p :: l2) = l1 ++ l2.
Proof.
  induction l1 as [|q l1 IH]; simpl; [by rewrite bool_decide_eq_true_2|].
  rewrite not_elem_of_cons. intros [Hne Hn]. rewrite bool_decide_eq_false_2 by done. by rewrite IH.
Qed.

Lemma group_del_ok sg p :
  group_wf sg →
  match spof_group_del_rdev sg p with
  | Ok sg' => p ∈ sg_rdevs sg ∧ group_wf sg' ∧
      sg_rdevs sg' = remove_first p (sg_rdevs sg) ∧ sg_spof_id sg' = sg_spof_id sg
  | Err e => e = ENOENT ∧ p ∉ sg_rdevs sg
  end.
Proof.
  intros Hg. unfold spof_group_del_rdev. destruct (group_array sg Hg) as [Ha Hl]. rewrite Ha.
  pose proof (gw_count sg Hg) as Hc. pose proof (gw_nb sg Hg) as Hn.
  pose proof (find_rdev_ok (sg_rdevs sg)
    (Z.to_nat NBMAX_DISKS_PER_SPOF_GROUP - length (sg_rdevs sg)) p) as Hf.
  destruct (find_rdev _ p) as [i|]; [|done].
  destruct Hf as (l1 & l2 & E & Hni & ->). split; [rewrite E; set_solver|].
  set (k := (_ - _)%nat) in *. rewrite E in *.
  rewrite length_app in Hc, Hl. simpl in Hc, Hl.
  destruct (group_intro (mk_spof_group (sg_spof_id sg)
    (take (length l1) ((Some <$> l1 ++ p :: l2) ++ replicate k None) ++
     drop (S (length l1)) ((Some <$> l1 ++ p :: l2) ++ replicate k None) ++ [None])
    (u32 (nb_realdevs sg - 1))) (l1 ++ l2)) as [H1 H2]; cbn [realdevs nb_realdevs].
  - rewrite fmap_app, fmap_cons, <- !app_assoc, take_app_length' by (by rewrite length_fmap).
    rewrite drop_app_ge by (rewrite length_fmap; lia).
    rewrite length_fmap. replace (S (length l1) - length l1)%nat with 1%nat by lia.
    cbn [app drop]. rewrite drop_0, fmap_app, <- !app_assoc. do 2 f_equal. unfold k.
    rewrite E, !length_app. cbn [length].
    replace (Z.to_nat NBMAX_DISKS_PER_SPOF_GROUP - (length l1 + length l2))%nat with
      (Z.to_nat NBMAX_DISKS_PER_SPOF_GROUP - (length l1 + S (length l2)) + 1)%nat by lia.
    by rewrite replicate_add.
  - rewrite length_app, u32_id by (unfold fits, NBMAX_DISKS_PER_SPOF_GROUP in *; lia). lia.
  - rewrite length_app. lia.
  - split_and!; [done| |done]. rewrite H2. by rewrite remove_first_app.
Qed.

(** ** The table of SPOF groups *)

Record storage_wf (st : storage_t) : Prop := {
  sw_num : num_spof_groups st = Z.of_nat (length (spof_groups st));
  sw_max : num_spof_groups st <= EXA_MAX_NODES_NUMBER;
  sw_groups : Forall group_wf (spof_groups st);
  sw_nodup : NoDup (map sg_spof_id (spof_groups st));
  sw_valid : Forall (λ sg, 0 < sg_spof_id sg) (spof_groups st)
}.

(** A storage as a map from SPOF identifiers to lists of devices. *)
Definition spof_map (st : storage_t) : gmap Z (list Z) :=
  list_to_map (map (λ sg, (sg_spof_id sg, sg_rdevs sg)) (spof_groups st)).

(** All the devices, in the order of the iterator. *)
Definition storage_rdevs (st : storage_t) : list Z := concat (map sg_rdevs (spof_groups st)).

Lemma take_groups st : storage_wf st → take (Z.to_nat (num_spof_groups st)) (spof_groups st) = spof_groups st.
Proof. intros Hs. rewrite (sw_num st Hs), Nat2Z.id. apply firstn_all. Qed.

Lemma lookup_group_ok l id :
  NoDup (map sg_spof_id l) →
  match lookup_group l id with
  | Some i => ∃ sg, l !! i = Some sg ∧ sg_spof_id sg = id
  | None => id ∉ map sg_spof_id l
  end.
Proof.
  induction l as [|sg l IH]; simpl; [intros _; apply not_elem_of_nil|].
  rewrite NoDup_cons. intros [Hn Hnd]. case_if; [by exists sg|].
  specialize (IH Hnd). destruct (lookup_group l id) as [i|]; simpl; [done|].
  rewrite not_elem_of_cons. auto.
Qed.

Lemma keys_eq (l : list spof_group_t) :
  (map (λ sg, (sg_spof_id sg, sg_rdevs sg)) l).*1 = map sg_spof_id l.
Proof. induction l; simpl; [done|]. by f_equal. Qed.

(** Lookup in the map is lookup in the array. *)
Lemma spof_map_lookup st i sg :
  storage_wf st → spof_groups st !! i = Some sg → spof_map st !! sg_spof_id sg = Some (sg_rdevs sg).
Proof.
  intros Hs Hi. unfold spof_map. apply elem_of_list_to_map.
  - rewrite keys_eq. apply Hs.
  - apply list_elem_of_fmap. exists sg. split; [done|]. by eapply list_elem_of_lookup_2.
Qed.

Lemma spof_map_none st id :
  storage_wf st → id ∉ map sg_spof_id (spof_groups st) → spof_map st !! id = None.
Proof. intros Hs Hn. apply not_elem_of_list_to_map_1. by rewrite keys_eq. Qed.

Lemma get_group_lookup st i sg : spof_groups st !! i = Some sg → get_group st i = sg.
Proof. intros Hi. unfold get_group. by apply list_lookup_total_correct. Qed.

(** Replacing a group by one with the same identifier. *)
Lemma set_group_ok st i sg sg' :
  storage_wf st → spof_groups st !! i = Some sg → group_wf sg' → sg_spof_id sg' = sg_spof_id sg →
  storage_wf (set_group st i sg') ∧
  spof_map (set_group st i sg') = <[sg_spof_id sg := sg_rdevs sg']> (spof_map st).
Proof.
  intros Hs Hi Hg Hid.
  assert (Hids : map sg_spof_id (<[i := sg']> (spof_groups st)) = map sg_spof_id (spof_groups st)).
  { change (map sg_spof_id) with (fmap (M := list) sg_spof_id). rewrite list_fmap_insert, Hid.
    apply list_insert_id. by rewrite list_lookup_fmap, Hi. }
  assert (Hw : storage_wf (set_group st i sg')).
  { split; simpl; try apply Hs.
    - rewrite length_insert. apply Hs.
    - apply Forall_insert; [apply Hs|done].
    - rewrite Hids. apply Hs.
    - apply Forall_insert; [apply Hs|]. rewrite Hid.
      pose proof (sw_valid st Hs) as Hv. rewrite Forall_lookup in Hv. by eapply Hv. }
  split; [done|]. apply map_eq. intros id.
  destruct (decide (id = sg_spof_id sg)) as [->|Hne].
  - rewrite lookup_insert_eq, <- Hid. apply (spof_map_lookup (set_group st i sg') i); [done|].
    simpl. apply list_lookup_insert_eq. by eapply lookup_lt_Some.
  - rewrite lookup_insert_ne by done.
    destruct (decide (id ∈ map sg_spof_id (spof_groups st))) as [Hin|Hn].
    + apply list_elem_of_fmap in Hin as (sg2 & -> & Hsg2).
      apply list_elem_of_lookup in Hsg2 as [j Hj].
      rewrite (spof_map_lookup st j sg2) by done.
      apply (spof_map_lookup (set_group st i sg') j); [done|]. simpl.
      rewrite list_lookup_insert_ne; [done|]. intros ->. congruence.
    + rewrite (spof_map_none st) by done. apply spof_map_none; [done|]. simpl. by rewrite Hids.
Qed.

Lemma get_by_id_ok st id :
  storage_wf st →
  match storage_get_spof_group_by_id st id with
  | Some i => ∃ sg, spof_groups st !! i = Some sg ∧ sg_spof_id sg = id ∧
      spof_map st !! id = Some (sg_rdevs sg) ∧ group_wf sg
  | None => spof_map st !! id = None
  end.
Proof.
  intros Hs. unfold storage_get_spof_group_by_id. rewrite take_groups by done.
  pose proof (lookup_group_ok (spof_groups st) id (sw_nodup st Hs)) as Hl.
  destruct (lookup_group _ id) as [i|]; [|by apply spof_map_none].
  destruct Hl as (sg & Hi & <-). exists sg. split_and!; [done|done|by eapply spof_map_lookup|].
  pose proof (sw_groups st Hs) as Hg. rewrite Forall_lookup in Hg. by eapply Hg.
Qed.

Lemma add_group_ok alloc st id :
  storage_wf st → spof_map st !! id = None →
  match storage_add_spof_group alloc st id with
  | Ok (st', i) => 0 < id ∧ storage_wf st' ∧ s_chunk_size st' = s_chunk_size st ∧
      spof_map st' = <[id := []]> (spof_map st) ∧
      ∃ sg, spof_groups st' !! i = Some sg ∧ sg_spof_id sg = id ∧ sg_rdevs sg = [] ∧ group_wf sg
  | Err EINVAL => id <= 0
  | Err ENOSPC => num_spof_groups st = EXA_MAX_NODES_NUMBER
  | Err ENOMEM => alloc = false
  | Err _ => False
  end.
Proof.
  intros Hs Hnone. unfold storage_add_spof_group, SPOF_ID_IS_VALID.
  destruct (0 <? id) eqn:Hid; bool_to_prop; cbn [negb]; [|lia].
  pose proof (get_by_id_ok st id Hs) as Hget.
  destruct (storage_get_spof_group_by_id st id) as [i|].
  { destruct Hget as (sg & _ & _ & E & _). congruence. }
  rewrite bool_decide_eq_false_2 by (by intros [? ?]).
  case_if; [done|]. destruct alloc; cbn [negb]; [|done].
  rewrite take_groups by done. set (sg := mk_spof_group id _ _).
  destruct (group_intro sg []) as [Hg Hr]; [done|done|simpl; lia|].
  assert (Hnin : id ∉ map sg_spof_id (spof_groups st)).
  { intros Hin. apply list_elem_of_fmap in Hin as (sg2 & -> & Hsg2).
    apply list_elem_of_lookup in Hsg2 as [j Hj].
    rewrite (spof_map_lookup st j sg2) in Hnone by done. done. }
  pose proof (sw_num st Hs) as Hn. pose proof (sw_max st Hs) as Hmax.
  assert (Hw : storage_wf (mk_storage (spof_groups st ++ [sg]) (u32 (num_spof_groups st + 1))
    (s_chunk_size st))).
  { split; simpl; rewrite ?length_app, ?map_app; simpl.
    - rewrite u32_id by (unfold fits, EXA_MAX_NODES_NUMBER in *; lia). lia.
    - rewrite u32_id by (unfold fits, EXA_MAX_NODES_NUMBER in *; lia). lia.
    - apply Forall_app. split; [apply Hs|]. by apply Forall_singleton.
    - rewrite NoDup_app. split_and!; [apply Hs| |apply NoDup_singleton]. set_solver.
    - apply Forall_app. split; [apply Hs|]. by apply Forall_singleton. }
  split_and!; [done|done|done| |].
  - unfold spof_map. simpl. rewrite map_app, list_to_map_app. simpl. rewrite Hr.
    fold (spof_map st). apply map_eq. intros j. rewrite lookup_union.
    destruct (decide (j = id)) as [->|Hne].
    + rewrite Hnone, !lookup_insert_eq. done.
    + rewrite !lookup_insert_ne, lookup_empty by done. by destruct (spof_map st !! j).
  - exists sg. cbn [spof_groups]. rewrite Hn, Nat2Z.id, lookup_app_r, Nat.sub_diag by lia. done.
Qed.

Lemma num_realdevs_ok st : storage_wf st → storage_get_num_realdevs st = Z.of_nat (length (storage_rdevs st)).
Proof.
  intros Hs. unfold storage_get_num_realdevs, storage_rdevs. rewrite take_groups by done.
  pose proof (sw_groups st Hs) as Hg. clear Hs.
  assert (Hgen : ∀ c, foldl (λ count sg, count + nb_realdevs sg) c (spof_groups st) =
    c + Z.of_nat (length (concat (map sg_rdevs (spof_groups st))))); [|by rewrite Hgen].
  induction Hg as [|sg l Hsg _ IH]; intros c; simpl; [lia|].
  rewrite IH, length_app, (gw_count sg Hsg). lia.
Qed.

(** ** The iterator on devices *)

(** The devices that remain at a position. *)
Definition iter_rest (st : storage_t) (it : storage_rdev_iter_t) : list Z :=
  match drop (Z.to_nat (spof_group_index it)) (spof_groups st) with
  | [] => []
  | sg :: l => drop (Z.to_nat (realdev_index it)) (sg_rdevs sg) ++ concat (map sg_rdevs l)
  end.

Lemma iter_begin_rest st : iter_rest st storage_rdev_iterator_begin = storage_rdevs st.
Proof. unfold iter_rest, storage_rdevs. simpl. by destruct (spof_groups st). Qed.

Lemma iterator_get_ok fuel st it :
  storage_wf st → 0 <= spof_group_index it → 0 <= realdev_index it →
  num_spof_groups st - spof_group_index it < Z.of_nat fuel → (0 < fuel)%nat →
  ∃ p it', storage_rdev_iterator_get fuel st it = Some (p, it') ∧
    p = head (iter_rest st it) ∧ iter_rest st it' = tail (iter_rest st it) ∧
    0 <= spof_group_index it' ∧ 0 <= realdev_index it'.
Proof.
  intros Hs. revert it. induction fuel as [|fuel IH]; intros it Hi Hj Hf Hpos; [lia|].
  cbn [storage_rdev_iterator_get]. pose proof (sw_num st Hs) as Hn. case_if.
  { exists None, it. unfold iter_rest. rewrite drop_ge by lia. done. }
  destruct (lookup_lt_is_Some_2 (spof_groups st) (Z.to_nat (spof_group_index it))) as [sg Hsg]; [lia|].
  rewrite Hsg. returned.
  assert (Hg : group_wf sg) by (pose proof (sw_groups st Hs) as Hall; rewrite Forall_lookup in Hall; by eapply Hall).
  pose proof (gw_count sg Hg) as Hc.
  assert (Hd : drop (Z.to_nat (spof_group_index it)) (spof_groups st) =
    sg :: drop (S (Z.to_nat (spof_group_index it))) (spof_groups st)) by (by apply drop_S).
  case_if.
  - destruct (IH (mk_rdev_iter (spof_group_index it + 1) 0)) as (p & it' & E & Hp & Hr & ? & ?);
      cbn [spof_group_index realdev_index]; [lia..|].
    exists p, it'. split; [done|].
    assert (Hsame : iter_rest st (mk_rdev_iter (spof_group_index it + 1) 0) = iter_rest st it).
    { unfold iter_rest. cbn [spof_group_index realdev_index]. rewrite Hd.
      rewrite (drop_ge (sg_rdevs sg)) by lia.
      replace (Z.to_nat (spof_group_index it + 1)) with (S (Z.to_nat (spof_group_index it))) by lia.
      by destruct (drop (S _) _). }
    rewrite <- Hsame. done.
  - destruct (lookup_lt_is_Some_2 (sg_rdevs sg) (Z.to_nat (realdev_index it))) as [p Hp]; [lia|].
    rewrite (gw_rdevs sg Hg), lookup_app_l, list_lookup_fmap, Hp by (rewrite length_fmap; lia).
    cbn [fmap option_fmap option_map]. returned. eexists _, _. split; [done|].
    unfold iter_rest. cbn [spof_group_index realdev_index]. rewrite Hd.
    replace (Z.to_nat (realdev_index it + 1)) with (S (Z.to_nat (realdev_index it))) by lia.
    rewrite (drop_S (sg_rdevs sg) p (Z.to_nat (realdev_index it))) by done.
    split_and!; [done|done|lia|lia].
Qed.

Lemma iterator_next st it :
  storage_wf st → 0 <= spof_group_index it → 0 <= realdev_index it →
  ∃ it', storage_rdev_iterator_get (rdev_iter_fuel st) st it = Some (head (iter_rest st it), it') ∧
    iter_rest st it' = tail (iter_rest st it) ∧
    0 <= spof_group_index it' ∧ 0 <= realdev_index it'.
Proof.
  intros Hs Hi Hj. destruct (iterator_get_ok (rdev_iter_fuel st) st it) as (p & it' & E & -> & ? & ? & ?);
    [done|done|done|unfold rdev_iter_fuel; lia|unfold rdev_iter_fuel; lia|]. by exists it'.
Qed.

Lemma get_rdev_loop_ok fuel m st it uuid :
  storage_wf st → 0 <= spof_group_index it → 0 <= realdev_index it →
  (length (iter_rest st it) < fuel)%nat → (∀ p, p ∈ iter_rest st it → is_Some (m !! p)) →
  get_rdev_loop fuel m st it uuid =
  Some (snd <$> list_find (λ p, from_option (λ r, uuid_is_equal (r_uuid r) uuid) false (m !! p) = true)
    (iter_rest st it)).
Proof.
  intros Hs. revert it. induction fuel as [|fuel IH]; intros it Hi Hj Hf Hm; [lia|].
  cbn [get_rdev_loop]. destruct (iterator_next st it Hs Hi Hj) as (it' & -> & Hr & Hi' & Hj').
  returned. destruct (iter_rest st it) as [|p l] eqn:El; cbn [head]; [done|]. simpl in Hr.
  destruct (Hm p) as [r Hmr]; [by left|]. rewrite Hmr. returned. cbn [list_find]. rewrite Hmr. simpl.
  destruct (uuid_is_equal (r_uuid r) uuid) eqn:Eu; [done|].
  rewrite IH; [|done|done|rewrite Hr; simpl in Hf; lia|rewrite Hr; intros; apply Hm; by right].
  rewrite Hr. by destruct (list_find _ l) as [[j q]|].
Qed.

(** ** Cutting the devices into chunks *)

(** The number of chunks of [size] sectors on a device, and the device cut. *)
Definition chunks_on (r : vrt_realdev_t) (size : Z) : Z := vrt_realdev_get_usable_size r / size.

Definition cut (r : vrt_realdev_t) (size : Z) : vrt_realdev_t :=
  let n := chunks_on r size in
  set_chunks r (mk_chunks size n n (if n =? 0 then [] else [mk_extent 0 (n - 1)])).

(** A device that was not cut yet and has room for chunks; the loop counter of
    the code is an [int]. *)
Definition uncut (r : vrt_realdev_t) (size : Z) : Prop :=
  free_chunks (chunks r) = [] ∧ 0 < vrt_realdev_get_usable_size r ∧ chunks_on r size < 2 ^ 31.

Lemma init_free_loop_ok k i :
  0 < i → i + Z.of_nat k < 2 ^ 32 →
  init_free_loop k i [mk_extent 0 (i - 1)] = Some [mk_extent 0 (i + Z.of_nat k - 1)].
Proof.
  revert i. induction k as [|k IH]; intros i Hi Hb.
  { simpl. by rewrite Z.add_0_r. }
  cbn [init_free_loop]. rewrite add_value_ok; cycle 1.
  { unfold extents_wf, extents_from, MAX_VALUE. simpl. lia. }
  { apply value_ok_u32. unfold fits. lia. }
  returned. cbn [ins e_start e_end].
  replace (i <? 0 - 1) with false by lia. replace (i =? 0 - 1) with false by lia.
  replace (i <=? i - 1) with false by lia. replace (i =? i - 1 + 1) with true by lia.
  pose proof (IH (i + 1)) as IH'. replace (i + 1 - 1) with i in IH' by lia.
  rewrite IH' by lia. do 3 f_equal. lia.
Qed.

Lemma init_free_ok n :
  0 <= n < 2 ^ 32 →
  init_free_loop (Z.to_nat n) 0 [] = Some (if n =? 0 then [] else [mk_extent 0 (n - 1)]).
Proof.
  intros Hn. destruct (Z.to_nat n) as [|k] eqn:E.
  { replace (n =? 0) with true by lia. done. }
  replace (n =? 0) with false by lia. cbn [init_free_loop].
  change (extent_list_add_value [] 0) with (Some [mk_extent 0 (1 - 1)]). returned.
  change (0 + 1) with 1. rewrite init_free_loop_ok by lia. do 3 f_equal. lia.
Qed.

Lemma cut_ok r size :
  0 < size < 2 ^ 32 → 0 <= chunks_on r size < 2 ^ 32 →
  rdev_ok (cut r size) ∧ (∀ v, 0 <= v < chunks_on r size → has (free_chunks (chunks (cut r size))) v = true).
Proof.
  intros Hs Hn. unfold cut. set (n := chunks_on r size) in *. split; [split; simpl|].
  - done.
  - unfold fits. lia.
  - case_if; [done|]. unfold extents_wf, extents_from, MAX_VALUE. simpl. lia.
  - intros v. case_if; [done|]. rewrite has_cons. simpl. lia.
  - case_if; unfold num_values; simpl; lia.
  - intros v Hv. simpl. replace (n =? 0) with false by lia. rewrite has_cons. simpl. lia.
Qed.

Lemma chunks_on_nonneg r size : 0 < size → 0 <= chunks_on r size.
Proof.
  intros Hs. apply Z.div_pos; [|done]. unfold vrt_realdev_get_usable_size, usable_size.
  case_if; lia.
Qed.

Section cut.
Context (st : storage_t) (Hst : storage_wf st) (Hsz : 0 < s_chunk_size st < 2 ^ 31).

Let size := KBYTES_2_SECTORS (s_chunk_size st).

Lemma size_eq : size = s_chunk_size st * 2.
Proof using Hsz. unfold size, KBYTES_2_SECTORS. apply u32_id. unfold fits. lia. Qed.

Lemma cut_rdev_ok m p r :
  m !! p = Some r → uncut r size →
  storage_cut_rdev_in_chunks m st p =
  Some (if vrt_realdev_get_usable_size r <? size then Err VRT_ERR_RDEV_TOO_SMALL
        else Ok (<[p := cut r size]> m)).
Proof using Hsz.
  intros Hp (Hfree & Hu & Hn). pose proof size_eq as Hsize.
  unfold storage_cut_rdev_in_chunks. rewrite Hp. returned. cbv zeta. fold size.
  replace (0 <? vrt_realdev_get_usable_size r) with true by lia.
  replace (0 <? size) with true by lia. cbn [exa_assert]. case_if; [done|].
  unfold storage_initialize_rdev_chunks_info. rewrite Hp. returned. rewrite Hfree.
  pose proof (chunks_on_nonneg r size ltac:(lia)) as H0. unfold chunks_on in *.
  rewrite init_free_ok by lia. returned. returned. rewrite u32_id by (unfold fits; lia). done.
Qed.

Definition all_uncut (m : mem) (l : list Z) : Prop :=
  ∀ p, p ∈ l → ∃ r, m !! p = Some r ∧ uncut r size.

Definition chunks_of (m : mem) (p : Z) : Z := from_option (λ r, chunks_on r size) 0 (m !! p).

Lemma chunks_of_bound m l :
  all_uncut m l → 0 <= zsum (map (chunks_of m) l) <= 2 ^ 31 * Z.of_nat (length l).
Proof using Hsz.
  pose proof size_eq. induction l as [|p l IH]; intros Hl; simpl; [lia|].
  destruct (Hl p) as (r & Hr & _ & _ & Hn); [by left|].
  specialize (IH (λ q Hq, Hl q (list_elem_of_further q p l Hq))).
  assert (chunks_of m p = chunks_on r size) as -> by (unfold chunks_of; by rewrite Hr).
  pose proof (chunks_on_nonneg r size ltac:(lia)). unfold zsum in *. lia.
Qed.

Lemma cut_loop_ok fuel m it total :
  0 <= spof_group_index it → 0 <= realdev_index it → (length (iter_rest st it) < fuel)%nat →
  NoDup (iter_rest st it) → all_uncut m (iter_rest st it) → 0 <= total →
  total + 2 ^ 31 * Z.of_nat (length (iter_rest st it)) < 2 ^ 64 →
  ∃ m' res, cut_loop fuel m st it total = Some (m', res) ∧
    (∀ p, p ∉ iter_rest st it → m' !! p = m !! p) ∧
    match res with
    | Ok t => t = total + zsum (map (chunks_of m) (iter_rest st it)) ∧
        ∀ p r, p ∈ iter_rest st it → m !! p = Some r →
          size <= vrt_realdev_get_usable_size r ∧ m' !! p = Some (cut r size)
    | Err e => e = VRT_ERR_RDEV_TOO_SMALL ∧
        ∃ p r, p ∈ iter_rest st it ∧ m !! p = Some r ∧ vrt_realdev_get_usable_size r < size
    end.
Proof using Hst Hsz.
  revert m it total. induction fuel as [|fuel IH]; intros m it total Hi Hj Hf Hnd Hun Ht Hb; [lia|].
  cbn [cut_loop]. destruct (iterator_next st it Hst Hi Hj) as (it' & -> & Hr & Hi' & Hj'). returned.
  destruct (iter_rest st it) as [|p l] eqn:El; cbn [head].
  { exists m, (Ok total). split_and!; [done|done|simpl; lia|]. intros p r Hp. by apply elem_of_nil in Hp. }
  simpl in Hr. apply NoDup_cons in Hnd as [Hnp Hnd].
  destruct (Hun p) as (r & Hp & Hur); [by left|].
  rewrite (cut_rdev_ok m p r Hp Hur). returned. case_if.
  { exists m, (Err VRT_ERR_RDEV_TOO_SMALL). split_and!; [done|done|done|]. exists p, r. split_and!; [by left|done|done]. }
  rewrite lookup_insert_eq. returned.
  pose proof size_eq as Hsize. pose proof (chunks_on_nonneg r size ltac:(lia)) as H0.
  destruct Hur as (Hfree & Hu & Hn). cbn [chunks cut set_chunks total_chunks_count].
  cbn [length] in Hb, Hf. rewrite u64_id by (unfold fits; lia).
  assert (Hother : ∀ q, q ∈ l → <[p := cut r size]> m !! q = m !! q).
  { intros q Hq. apply lookup_insert_ne. intros ->. done. }
  destruct (IH (<[p := cut r size]> m) it' (total + chunks_on r size)) as (m' & res & -> & Hsame & Hres);
    rewrite ?Hr; try (done || lia).
  { intros q Hq. rewrite Hother by done. apply Hun. by right. }
  exists m', res. split; [done|]. rewrite Hr in *. split.
  { intros q Hq. rewrite not_elem_of_cons in Hq. destruct Hq as [Hne Hq].
    rewrite (Hsame q Hq). by apply lookup_insert_ne. }
  destruct res as [t|e].
  - destruct Hres as [-> Hall]. split.
    + cbn [map zsum foldr]. replace (chunks_of m p) with (chunks_on r size) by (unfold chunks_of; by rewrite Hp).
      replace (map (chunks_of m) l) with (map (chunks_of (<[p := cut r size]> m)) l); [unfold zsum; lia|].
      apply map_ext_in. intros q Hq%list_elem_of_In. unfold chunks_of. by rewrite Hother.
    + intros q r' [->|Hq]%elem_of_cons Hr'.
      * simplify_eq. split; [lia|]. rewrite (Hsame p Hnp). by rewrite lookup_insert_eq.
      * apply Hall; [done|]. by rewrite Hother.
  - destruct Hres as (-> & q & r' & Hq & Hr' & Hlt). split; [done|].
    exists q, r'. split_and!; [by right|by rewrite <- Hother|done].
Qed.
End cut.

(** ** Runs of the allocator *)

(** Taking a chunk in one of the groups, putting back a chunk that is out. *)
Inductive chunk_step (sgs : list spof_group_t) : mem * list chunk_t → mem * list chunk_t → Prop :=
  | step_get m out sg m' c :
      sg ∈ sgs → spof_group_get_chunk m sg = Some (m', Some c) →
      chunk_step sgs (m, out) (m', c :: out)
  | step_put m out1 c out2 m' :
      spof_group_put_chunk m c = Some m' →
      chunk_step sgs (m, out1 ++ c :: out2) (m', out1 ++ out2).

(** The geometry of a device: what the allocator never changes. *)
Definition geometry (m : mem) (p : Z) : option (Z * Z) :=
  (λ r, (chunk_size (chunks r), total_chunks_count (chunks r))) <$> m !! p.

Lemma geometry_with_free (m : mem) p r count free q :
  m !! p = Some r → geometry (<[p := with_free r count free]> m) q = geometry m q.
Proof.
  intros Hp. unfold geometry. destruct (decide (p = q)) as [<-|Hne].
  - by rewrite lookup_insert_eq, Hp.
  - by rewrite lookup_insert_ne.
Qed.

Lemma geometry_in_mem m m' sg :
  (∀ q, geometry m' q = geometry m q) → in_mem m sg → in_mem m' sg.
Proof.
  intros Hgeo Hm p Hp. destruct (Hm p Hp) as [r Hr]. specialize (Hgeo p).
  unfold geometry in Hgeo. rewrite Hr in Hgeo. destruct (m' !! p); [done|discriminate].
Qed.

Lemma get_chunk_some m sg out r :
  ledger m out → group_wf sg → in_mem m sg → spof_group_get_chunk m sg = Some r →
  ∃ q, q ∈ sg_rdevs sg ∧ 0 < free_of m q.
Proof.
  intros L Hg Hm E. unfold spof_group_get_chunk, least_used_rdev in E. rewrite (ranks_eq sg Hg) in E.
  destruct (least_used_loop_ok m sg Hg Hm (lg_rdev _ _ L) 0 (sg_rdevs sg) None eq_refl) as (b & Eb & Hb).
  rewrite Eb in E. destruct b as [[p u]|]; [|done]. simpl in Hb.
  destruct Hb as ([?|(Hp & Hf & _)] & _); [done|]. by exists p.
Qed.

Lemma chunk_step_ok sgs m out m' out' :
  chunk_step sgs (m, out) (m', out') → ledger m out →
  (∀ sg, sg ∈ sgs → group_wf sg ∧ in_mem m sg) →
  ledger m' out' ∧ (∀ q, geometry m' q = geometry m q).
Proof.
  intros Hstep L Hsgs. inversion Hstep as [? ? sg ? c Hin E|? out1 c out2 ? E]; subst.
  - destruct (Hsgs sg Hin) as [Hg Hm].
    destruct (spof_group_get_chunk_ok m sg out L Hg Hm) as (p & r & idx & E' & _ & Hr & _ & _ & _ & L');
      [by eapply get_chunk_some|]. rewrite E in E'. injection E' as -> ->.
    split; [done|]. intros q. by apply geometry_with_free.
  - destruct (ledger_put m out1 out2 c L) as (m2 & E' & L' & r & idx & Hr & -> & _).
    unfold spof_group_put_chunk in E. rewrite E in E'. injection E' as ->.
    split; [done|]. intros q. by apply geometry_with_free.
Qed.

Lemma chunk_steps_ok sgs s s' :
  rtc (chunk_step sgs) s s' → ledger s.1 s.2 →
  (∀ sg, sg ∈ sgs → group_wf sg ∧ in_mem s.1 sg) →
  ledger s'.1 s'.2 ∧ (∀ q, geometry s'.1 q = geometry s.1 q).
Proof.
  induction 1 as [s|[m out] [m1 out1] [m2 out2] Hstep _ IH]; intros L Hsgs; [done|]. simpl in *.
  destruct (chunk_step_ok _ _ _ _ _ Hstep L Hsgs) as [L1 G1].
  destruct IH as [L2 G2]; [done| |].
  - intros sg Hsg. destruct (Hsgs sg Hsg) as [? ?]. split; [done|]. by eapply geometry_in_mem.
  - split; [done|]. intros q. by rewrite G2, G1.
Qed.

(** ** Properties *)

(** C13: chunks never overlap. Starting from devices whose chunks are all free,
    after any sequence of chunks taken in SPOF groups and put back, two chunks
    that are out on the same device cover disjoint sectors, every chunk that is
    out lies after the superblock area and inside the chunks of its device,
    and free chunks and chunks out add up to the chunks of the device. *)
Theorem chunks_never_overlap sgs m m' out :
  ledger m [] → (∀ sg, sg ∈ sgs → group_wf sg ∧ in_mem m sg) →
  rtc (chunk_step sgs) (m, []) (m', out) →
  (∀ i j c1 c2, i ≠ j → out !! i = Some c1 → out !! j = Some c2 → c_rdev c1 = c_rdev c2 →
     ∃ r, m' !! c_rdev c1 = Some r ∧
       (c_offset c1 + chunk_size (chunks r) <= c_offset c2 ∨
        c_offset c2 + chunk_size (chunks r) <= c_offset c1)) ∧
  (∀ c, c ∈ out → ∃ r, m' !! c_rdev c = Some r ∧ VRT_SB_AREA_SIZE <= c_offset c ∧
     c_offset c + chunk_size (chunks r) <=
       VRT_SB_AREA_SIZE + chunk_size (chunks r) * total_chunks_count (chunks r)) ∧
  (∀ p r, m' !! p = Some r →
     free_chunks_count (chunks r) + Z.of_nat (length (filter (λ c, c_rdev c = p) out)) =
     total_chunks_count (chunks r)).
Proof.
  intros L Hsgs Hrun. destruct (chunk_steps_ok _ _ _ Hrun L Hsgs) as [L' _]. simpl in L'.
  split_and!; [..|apply L'].
  - intros i j c1 c2 Hij H1 H2 Hp.
    destruct (lg_valid _ _ L' c1) as (r & i1 & Hr & Hi1 & Ho1); [by eapply list_elem_of_lookup_2|].
    destruct (lg_valid _ _ L' c2) as (r2 & i2 & Hr2 & Hi2 & Ho2); [by eapply list_elem_of_lookup_2|].
    rewrite <- Hp, Hr in Hr2. injection Hr2 as <-. exists r. split; [done|].
    assert (i1 ≠ i2).
    { intros ->. apply Hij. eapply NoDup_lookup; [apply L'|exact H1|].
      rewrite H2. destruct c1, c2. simpl in *. congruence. }
    rewrite Ho1, Ho2. unfold chunk_off. pose proof (rk_size r (lg_rdev _ _ L' _ _ Hr)).
    destruct (Z.lt_total i1 i2) as [?|[?|?]]; [left|done|right]; nia.
  - intros c Hc. destruct (lg_valid _ _ L' c Hc) as (r & i & Hr & Hi & Ho). exists r.
    split; [done|]. rewrite Ho. unfold chunk_off. pose proof (rk_size r (lg_rdev _ _ L' _ _ Hr)). nia.
Qed.

(** Two devices of 4 and 2 chunks of 8 sectors in one SPOF group. *)
Definition example_rdev (uuid size : Z) : vrt_realdev_t :=
  cut (mk_rdev [uuid; 0; 0; 0] (mk_chunks 0 0 0 []) 1 size true true false 0) 8.

Definition example_mem : mem :=
  <[1 := example_rdev 11 65570]> (<[2 := example_rdev 22 65552]> ∅).

Definition example_group (id : Z) (ps : list Z) : spof_group_t :=
  mk_spof_group id ((Some <$> ps) ++ replicate (64 - length ps) None) (Z.of_nat (length ps)).

Lemma example_group_wf id ps :
  (length ps <= 64)%nat → group_wf (example_group id ps) ∧ sg_rdevs (example_group id ps) = ps.
Proof. intros Hl. by apply group_intro. Qed.

(** A store of devices that were just cut. *)
Lemma ledger_cut (m : mem) size :
  0 < size < 2 ^ 32 →
  (∀ p r, m !! p = Some r → ∃ r0, r = cut r0 size ∧ 0 <= chunks_on r0 size < 2 ^ 32) →
  ledger m [].
Proof.
  intros Hs Hcut. split.
  - intros p r Hp. destruct (Hcut p r Hp) as (r0 & -> & Hn). by apply cut_ok.
  - constructor.
  - intros p r idx Hp Hi. destruct (Hcut p r Hp) as (r0 & -> & Hn).
    destruct (cut_ok r0 size Hs Hn) as [_ Hall]. rewrite Hall by done.
    split; [|done]. intros H. by apply elem_of_nil in H.
  - intros c Hc. by apply elem_of_nil in Hc.
  - intros p r Hp. destruct (Hcut p r Hp) as (r0 & -> & Hn). simpl. lia.
Qed.

Lemma example_ledger : ledger example_mem [].
Proof.
  apply (ledger_cut example_mem 8); [done|]. intros p r. unfold example_mem.
  rewrite !lookup_insert_Some, lookup_empty. unfold example_rdev.
  intros [[_ <-]|[_ [[_ <-]|[_ ?]]]]; [..|done]; eexists; (split; [reflexivity|]); by vm_compute.
Qed.

Lemma example_in_mem sg :
  sg ∈ [example_group 5 [1; 2]] → group_wf sg ∧ in_mem example_mem sg.
Proof.
  intros ->%list_elem_of_singleton. destruct (example_group_wf 5 [1; 2]) as [Hg Hr]; [simpl; lia|].
  split; [done|]. intros p. rewrite Hr. intros Hp.
  repeat (apply elem_of_cons in Hp as [->|Hp]; [by eexists|]). by apply elem_of_nil in Hp.
Qed.

Definition example_get : mem * list chunk_t :=
  match spof_group_get_chunk example_mem (example_group 5 [1; 2]) with
  | Some (m, Some c) => (m, [c])
  | _ => (example_mem, [])
  end.

Lemma chunks_never_overlap_witness :
  example_get.2 = [mk_chunk 1 65536] ∧
  ∀ p r, example_get.1 !! p = Some r →
     free_chunks_count (chunks r) + Z.of_nat (length (filter (λ c, c_rdev c = p) example_get.2)) =
     total_chunks_count (chunks r).
Proof.
  split; [vm_compute; reflexivity|].
  apply (chunks_never_overlap [example_group 5 [1; 2]] example_mem example_get.1 example_get.2).
  - exact example_ledger.
  - exact example_in_mem.
  - apply rtc_once. apply (step_get _ _ _ (example_group 5 [1; 2])).
    + left.
    + vm_compute. reflexivity.
Defined.

(** Choice of a chunk. When a device of a SPOF group has a free chunk,
    [spof_group_get_chunk] passes its assertions and takes the lowest free
    chunk of a device that is the least used among those with a free chunk;
    it changes nothing else, and putting the chunk back restores the very same
    devices. *)
Theorem get_chunk_least_used m sg out :
  ledger m out → group_wf sg → in_mem m sg → (∃ q, q ∈ sg_rdevs sg ∧ 0 < free_of m q) →
  ∃ m' p r idx, spof_group_get_chunk m sg = Some (m', Some (mk_chunk p (chunk_off r idx))) ∧
    p ∈ sg_rdevs sg ∧ m !! p = Some r ∧
    extent_list_contains_value (free_chunks (chunks r)) idx = true ∧
    (∀ v, extent_list_contains_value (free_chunks (chunks r)) v = true → idx <= v) ∧
    (∀ q, q ∈ sg_rdevs sg → 0 < free_of m q → used_of m p <= used_of m q) ∧
    free_of m' p = free_of m p - 1 ∧ (∀ q, q ≠ p → m' !! q = m !! q) ∧
    chunk_put_to_rdev m' (mk_chunk p (chunk_off r idx)) = Some m.
Proof.
  intros L Hg Hm Hex.
  destruct (spof_group_get_chunk_ok m sg out L Hg Hm Hex)
    as (p & r & idx & E & Hp & Hr & Hin & Hlow & Hmin & L').
  exists (<[p := take_chunk r idx]> m), p, r, idx. split_and!; try done.
  - unfold free_of. by rewrite lookup_insert_eq, Hr.
  - intros q Hq. by apply lookup_insert_ne.
  - pose proof (lg_rdev _ _ L p r Hr) as Hrk. pose proof (rk_range r Hrk idx Hin) as Hi.
    change (chunk_off r idx) with (chunk_off (take_chunk r idx) idx).
    rewrite (chunk_put_ok _ p (take_chunk r idx) idx);
      [|by rewrite lookup_insert_eq|by apply take_chunk_ok|done|].
    + f_equal. rewrite insert_insert_eq, take_give by done. by apply insert_id.
    + simpl. rewrite (del_has 0), Z.eqb_refl by apply Hrk. by rewrite andb_false_r.
Qed.

Lemma get_chunk_least_used_witness :
  ∃ m' p r idx, spof_group_get_chunk example_mem (example_group 5 [1; 2]) =
      Some (m', Some (mk_chunk p (chunk_off r idx))) ∧
    chunk_put_to_rdev m' (mk_chunk p (chunk_off r idx)) = Some example_mem.
Proof.
  destruct (get_chunk_least_used example_mem (example_group 5 [1; 2]) [])
    as (m' & p & r & idx & E & _ & _ & _ & _ & _ & _ & _ & Hput).
  - exact example_ledger.
  - apply example_in_mem. left.
  - apply example_in_mem. left.
  - exists 1. split; [left|]. vm_compute. reflexivity.
  - exists m', p, r, idx. split; [exact E|exact Hput].
Defined.

(** The table of devices. A storage is a map from SPOF identifiers to
    lists of devices: adding a device appends it to the list of its SPOF
    (created when needed), removing it removes its first occurrence, nothing
    else changes, the array stays well formed (at most 128 groups of at most
    64 devices, distinct valid identifiers), and each error code is returned
    only in the situation it stands for, with the storage unchanged. *)
Theorem storage_rdev_table alloc st id p :
  storage_wf st →
  match storage_add_rdev alloc st id (Some p) with
  | Ok st' => 0 < id ∧ storage_wf st' ∧ s_chunk_size st' = s_chunk_size st ∧
      spof_map st' = <[id := default [] (spof_map st !! id) ++ [p]]> (spof_map st)
  | Err EINVAL => id <= 0
  | Err ENOSPC =>
      storage_get_num_realdevs st = NBMAX_DISKS_PER_GROUP ∨
      Z.of_nat (length (default [] (spof_map st !! id))) = NBMAX_DISKS_PER_SPOF_GROUP ∨
      (spof_map st !! id = None ∧ num_spof_groups st = EXA_MAX_NODES_NUMBER)
  | Err ENOMEM => alloc = false
  | Err _ => False
  end ∧
  match storage_del_rdev st id (Some p) with
  | Ok st' => storage_wf st' ∧
      ∃ l, spof_map st !! id = Some l ∧ p ∈ l ∧
        spof_map st' = <[id := remove_first p l]> (spof_map st)
  | Err EINVAL => id <= 0
  | Err ENOENT => p ∉ default [] (spof_map st !! id)
  | Err _ => False
  end.
Proof.
  intros Hs. unfold storage_add_rdev, storage_del_rdev, SPOF_ID_IS_VALID.
  destruct (0 <? id) eqn:Hid; bool_to_prop; cbn [negb]; [|lia].
  pose proof (get_by_id_ok st id Hs) as Hget. split.
  - case_if; [auto|]. destruct (storage_get_spof_group_by_id st id) as [i|].
    + destruct Hget as (sg & Hi & <- & Emap & Hg). rewrite (get_group_lookup _ _ _ Hi), Emap. simpl.
      pose proof (group_add_ok sg p Hg) as Ha. case_if_in Ha.
      * rewrite Ha. right. left. rewrite <- (gw_count sg Hg). pose proof (gw_nb sg Hg). lia.
      * destruct Ha as (sg' & -> & Hg' & Hr & Hid'). destruct (set_group_ok st i sg sg' Hs Hi Hg' Hid').
        by rewrite <- Hr.
    + pose proof (add_group_ok alloc st id Hs Hget) as Ha.
      destruct (storage_add_spof_group alloc st id) as [[st1 i]|e]; [|by destruct e; auto].
      destruct Ha as (_ & Hs1 & Hcs & Em1 & sg & Hi & <- & Hr0 & Hg).
      rewrite (get_group_lookup _ _ _ Hi). pose proof (group_add_ok sg p Hg) as Ha.
      rewrite (gw_count sg Hg), Hr0 in Ha. destruct Ha as (sg' & -> & Hg' & Hr & Hid').
      destruct (set_group_ok st1 i sg sg' Hs1 Hi Hg' Hid') as [Hw Hm].
      split_and!; try done. rewrite Hm, Em1, Hget, insert_insert_eq, Hr. done.
  - destruct (storage_get_spof_group_by_id st id) as [i|].
    + destruct Hget as (sg & Hi & <- & Emap & Hg). rewrite (get_group_lookup _ _ _ Hi), Emap. simpl.
      pose proof (group_del_ok sg p Hg) as Ha. destruct (spof_group_del_rdev sg p) as [sg'|e].
      * destruct Ha as (Hin & Hg' & Hr & Hid').
        destruct (set_group_ok st i sg sg' Hs Hi Hg' Hid') as [Hw Hm].
        split; [done|]. exists (sg_rdevs sg). by rewrite <- Hr.
      * destruct Ha as [-> Hn]. done.
    + rewrite Hget. apply not_elem_of_nil.
Qed.

Lemma storage_rdev_table_witness :
  match storage_add_rdev true storage_alloc 7 (Some 1) with
  | Ok st' => spof_map st' = {[7 := [1]]}
  | Err _ => False
  end.
Proof.
  destruct (storage_rdev_table true storage_alloc 7 1) as [H _].
  - split; [done|done|constructor|constructor|constructor].
  - destruct (storage_add_rdev true storage_alloc 7 (Some 1)) as [st'|e] eqn:E.
    + destruct H as (_ & _ & _ & H). exact H.
    + revert E. vm_compute. intros E. discriminate E.
Defined.

(** Reading all the devices with the iterator. *)
Fixpoint collect (fuel : nat) (st : storage_t) (it : storage_rdev_iter_t) : option (list Z) :=
  match fuel with
  | O => None
  | S fuel' =>
      '(p, it) ← storage_rdev_iterator_get (rdev_iter_fuel st) st it;
      match p with
      | None => Some []
      | Some p => l ← collect fuel' st it; Some (p :: l)
      end
  end.

Lemma collect_ok fuel st it :
  storage_wf st → 0 <= spof_group_index it → 0 <= realdev_index it →
  (length (iter_rest st it) < fuel)%nat → collect fuel st it = Some (iter_rest st it).
Proof.
  intros Hs. revert it. induction fuel as [|fuel IH]; intros it Hi Hj Hf; [lia|].
  cbn [collect]. destruct (iterator_next st it Hs Hi Hj) as (it' & -> & Hr & Hi' & Hj'). returned.
  destruct (iter_rest st it) as [|p l] eqn:El; cbn [head]; [done|]. simpl in *.
  rewrite IH by (rewrite ?Hr; done || lia). by rewrite Hr.
Qed.

(** C34: the device iterator visits the devices of the storage group by group,
    each device once per entry, in order, and stops; [storage_get_rdev]
    therefore returns the first device in that order that has the given UUID,
    and [NULL] when there is none. *)
Theorem storage_iterates m st uuid :
  storage_wf st → (∀ p, p ∈ storage_rdevs st → is_Some (m !! p)) →
  collect (S (Z.to_nat (storage_get_num_realdevs st))) st storage_rdev_iterator_begin =
    Some (concat (map sg_rdevs (spof_groups st))) ∧
  ∃ res, storage_get_rdev m st uuid = Some res ∧
    match res with
    | Some p => ∃ l1 l2 r, storage_rdevs st = l1 ++ p :: l2 ∧ m !! p = Some r ∧
        uuid_is_equal (r_uuid r) uuid = true ∧
        ∀ q r', q ∈ l1 → m !! q = Some r' → uuid_is_equal (r_uuid r') uuid = false
    | None => ∀ q r', q ∈ storage_rdevs st → m !! q = Some r' →
        uuid_is_equal (r_uuid r') uuid = false
    end.
Proof.
  intros Hs Hm. rewrite <- iter_begin_rest in Hm.
  assert (Hlen : (length (iter_rest st storage_rdev_iterator_begin) <
    S (Z.to_nat (storage_get_num_realdevs st)))%nat)
    by (rewrite num_realdevs_ok, iter_begin_rest by done; lia).
  split; [by rewrite (collect_ok _ st) by done; rewrite iter_begin_rest|].
  unfold storage_get_rdev. rewrite get_rdev_loop_ok by done. rewrite iter_begin_rest in *.
  eexists. split; [done|].
  destruct (list_find _ (storage_rdevs st)) as [[i p]|] eqn:E; simpl.
  - apply list_find_Some in E as (Hi & Hp & Hbefore). destruct (Hm p) as [r Hr];
      [by eapply list_elem_of_lookup_2|].
    exists (take i (storage_rdevs st)), (drop (S i) (storage_rdevs st)), r.
    rewrite Hr in Hp. simpl in Hp. split_and!; [by rewrite take_drop_middle|done|done|].
    intros q r' (j & Hj & Hlt)%elem_of_take Hr'. specialize (Hbefore j q Hj Hlt).
    rewrite Hr' in Hbefore. simpl in Hbefore. by apply not_true_iff_false.
  - apply list_find_None in E. intros q r' Hq Hr'. rewrite Forall_forall in E.
    specialize (E q Hq). simpl in E. rewrite Hr' in E. simpl in E. by apply not_true_iff_false.
Qed.

Definition example_storage : storage_t :=
  mk_storage [example_group 5 [1]; example_group 9 []; example_group 3 [2]] 3 4.

Lemma example_storage_wf : storage_wf example_storage.
Proof.
  split; [done|done| |by apply (bool_decide_eq_true_1 (NoDup [5; 9; 3]))|by repeat constructor].
  repeat (apply Forall_cons; split; [apply example_group_wf; simpl; lia|]). by apply Forall_nil.
Qed.

Lemma storage_iterates_witness :
  collect 3 example_storage storage_rdev_iterator_begin = Some [1; 2] ∧
  ∃ res, storage_get_rdev example_mem example_storage [22; 0; 0; 0] = Some res.
Proof.
  split; [vm_compute; reflexivity|].
  destruct (storage_iterates example_mem example_storage [22; 0; 0; 0]) as (_ & res & E & _).
  - exact example_storage_wf.
  - intros p Hp. change (storage_rdevs example_storage) with [1; 2] in Hp.
    repeat (apply elem_of_cons in Hp as [->|Hp]; [by eexists|]).
    by apply elem_of_nil in Hp.
  - exists res. exact E.
Defined.

Lemma set_chunk_size_wf st size :
  storage_wf st → storage_wf (mk_storage (spof_groups st) (num_spof_groups st) size).
Proof. intros []. by split. Qed.

(** C33: cutting a storage. With a chunk size that is not zero (in Kbytes; a
    sector is half a Kbyte), distinct devices that were not cut before, and a
    size that does not conflict with one already set,
    [storage_cut_in_chunks] passes its assertions; when it succeeds, every
    device has as many chunks as fit after its superblock area, all free and
    at most 500000 in total, and no device out of the storage changed; it
    fails only when a device is smaller than a chunk or when there would be
    too many chunks. *)
Theorem storage_cut_exact m st size :
  storage_wf st → 0 < size < 2 ^ 31 → s_chunk_size st = 0 ∨ s_chunk_size st = size →
  NoDup (storage_rdevs st) →
  (∀ p, p ∈ storage_rdevs st → ∃ r, m !! p = Some r ∧ uncut r (size * 2)) →
  ∃ m' st' res, storage_cut_in_chunks m st size = Some (m', st', res) ∧
    spof_groups st' = spof_groups st ∧ s_chunk_size st' = size ∧
    (∀ p, p ∉ storage_rdevs st → m' !! p = m !! p) ∧
    let total := zsum (map (λ p, from_option (λ r, chunks_on r (size * 2)) 0 (m !! p)) (storage_rdevs st)) in
    match res with
    | Ok _ => total <= VRT_NBMAX_CHUNKS_PER_GROUP ∧
        ∀ p r, p ∈ storage_rdevs st → m !! p = Some r →
          ∃ r', m' !! p = Some r' ∧ rdev_ok r' ∧ chunk_size (chunks r') = size * 2 ∧
            total_chunks_count (chunks r') = (real_size r - VRT_SB_AREA_SIZE) / (size * 2) ∧
            free_chunks_count (chunks r') = total_chunks_count (chunks r')
    | Err VRT_ERR_RDEV_TOO_SMALL =>
        ∃ p r, p ∈ storage_rdevs st ∧ m !! p = Some r ∧ vrt_realdev_get_usable_size r < size * 2
    | Err VRT_ERR_TOO_MANY_CHUNKS => VRT_NBMAX_CHUNKS_PER_GROUP < total
    | Err _ => False
    end.
Proof.
  intros Hs Hsize Hset Hnd Hun. unfold storage_cut_in_chunks, storage_set_chunk_size.
  replace ((s_chunk_size st =? 0) || (s_chunk_size st =? size)) with true by lia.
  cbn [exa_assert]. returned. replace (size =? 0) with false by lia.
  set (st' := mk_storage _ _ _). assert (Hs' : storage_wf st') by (by apply set_chunk_size_wf).
  assert (Esz : KBYTES_2_SECTORS (s_chunk_size st') = size * 2) by (by apply size_eq).
  rewrite num_realdevs_ok by done. change (storage_rdevs st') with (storage_rdevs st).
  assert (Hb : Z.of_nat (length (storage_rdevs st)) <= 8192).
  { rewrite <- num_realdevs_ok by done. unfold storage_get_num_realdevs. rewrite take_groups by done.
    pose proof (sw_groups st Hs) as Hg. pose proof (sw_max st Hs) as Hmax.
    pose proof (sw_num st Hs) as Hn. unfold EXA_MAX_NODES_NUMBER in Hmax.
    assert (Hgen : ∀ c, foldl (λ count sg, count + nb_realdevs sg) c (spof_groups st) <=
      c + 64 * Z.of_nat (length (spof_groups st))); [|specialize (Hgen 0); lia].
    clear -Hg. induction Hg as [|sg l Hsg _ IH]; intros c; simpl; [lia|].
    specialize (IH (c + nb_realdevs sg)). pose proof (gw_nb sg Hsg).
    unfold NBMAX_DISKS_PER_SPOF_GROUP in *. lia. }
  destruct (cut_loop_ok st' Hs' Hsize (S (Z.to_nat (Z.of_nat (length (storage_rdevs st))))) m
    storage_rdev_iterator_begin 0) as (m' & res & -> & Hsame & Hres);
    rewrite ?iter_begin_rest; change (storage_rdevs st') with (storage_rdevs st); try (done || lia).
  { intros p Hp. unfold uncut. rewrite Esz. by apply Hun. }
  returned. rewrite iter_begin_rest in *. change (storage_rdevs st') with (storage_rdevs st) in *.
  unfold chunks_of in Hres. rewrite Esz in Hres.
  eexists m', st', _. split; [reflexivity|]. split_and!; [done|done|done|]. cbv zeta.
  destruct res as [total|e]; [|destruct Hres as [-> Hex]; exact Hex].
  destruct Hres as [-> Hall]. rewrite Z.add_0_l. case_if; [lia|]. split; [lia|].
  intros p r Hp Hr. destruct (Hall p r Hp Hr) as [Hle Hm']. eexists. split; [exact Hm'|].
  destruct (Hun p Hp) as (r2 & Hr2 & _ & Hu & Hlt). rewrite Hr in Hr2. injection Hr2 as <-.
  pose proof (chunks_on_nonneg r (size * 2) ltac:(lia)).
  split_and!; [apply cut_ok; lia|done| |done].
  unfold cut. simpl. unfold chunks_on, vrt_realdev_get_usable_size, usable_size in *.
  revert Hu. case_if; [lia|done].
Qed.

Definition raw_mem : mem :=
  <[1 := mk_rdev [1; 0; 0; 0] (mk_chunks 0 0 0 []) 1 65570 true true false 0]>
    (<[2 := mk_rdev [2; 0; 0; 0] (mk_chunks 0 0 0 []) 2 65552 false true false 1]> ∅).

Lemma storage_cut_exact_witness :
  ∃ m' st' res, storage_cut_in_chunks raw_mem example_storage 4 = Some (m', st', res) ∧
    s_chunk_size st' = 4 ∧
    (res = Ok tt → free_of m' 1 + free_of m' 2 = 6).
Proof.
  destruct (storage_cut_exact raw_mem example_storage 4) as (m' & st' & res & E & _ & Hsz & _ & _).
  - exact example_storage_wf.
  - lia.
  - right. reflexivity.
  - apply (bool_decide_eq_true_1 (NoDup [1; 2])). vm_compute. reflexivity.
  - intros p Hp. change (storage_rdevs example_storage) with [1; 2] in Hp.
    repeat (apply elem_of_cons in Hp as [->|Hp];
      [eexists; split; [reflexivity|]; split; [reflexivity|]; split; vm_compute; reflexivity|]).
    by apply elem_of_nil in Hp.
  - exists m', st', res. split; [exact E|]. split; [exact Hsz|]. intros _.
    assert (E2 : (λ x, free_of x.1.1 1 + free_of x.1.1 2) <$>
      storage_cut_in_chunks raw_mem example_storage 4 = Some 6) by (vm_compute; reflexivity).
    rewrite E in E2. injection E2 as E2. exact E2.
Defined.
