(* ===== verification/Assembly.v ===== *)
(** * Assembly: slots, volumes and groups

    Model of [vrt/assembly/src/assembly_slot.c], [assembly_volume.c] and
    [assembly_group.c] (serialisation and printing excepted): a slot is made of
    chunks taken on different SPOF groups, a volume is an array of slots, and
    an assembly group holds volumes and decides whether slots can be reserved.

    Slots and volumes are not shared and are modelled by their values; the
    chained list of the volumes of a group is a Rocq list. The private data of
    the slots belongs to the layouts and is left out. [alloc] arguments give
    the answers of the allocations whose failure is reported. *)

From S2P Require Import Prelude Nodeset Extent Prediction Storage.
From stdpp Require Import options.

(** ** Data *)

(** A [NULL] entry of the array of chunks is [None]. *)
Record slot_t := mk_slot { s_chunks : list (option chunk_t); width : Z }.

Record assembly_volume_t := mk_av {
  av_uuid : exa_uuid_t;
  slots : list slot_t;
  total_slots_count : Z
}.

Record assembly_group_t := mk_ag {
  initialized : bool;
  slot_size : Z;
  slot_width : Z;
  subspaces : list assembly_volume_t;
  num_subspaces : Z
}.

Section definitions.
Context `{!Qsort}.

(** ** Slots: [assembly_slot.c] *)

(** The real device and the sector of a sector of a slot. *)
Definition assembly_slot_map_sector_to_rdev (slot : slot_t) (chunk_index offset : Z)
    : option (Z * Z) :=
  p ← s_chunks slot !! Z.to_nat chunk_index;
  c ← p;
  Some (chunk_get_rdev c, u64 (chunk_get_offset c + offset)).

(** [spof_info_t]: the number of free chunks of a group and its index. *)
Definition spof_info_compare (st : storage_t) (p1 p2 : Z * nat) : Z :=
  if p1.1 =? p2.1
  then i32 (u32 (sg_spof_id (get_group st p2.2) - sg_spof_id (get_group st p1.2)))
  else i32 (u32 (p2.1 - p1.1)).

(** The working copy of the array of SPOF groups, from rank [i]. *)
Fixpoint spof_infos (m : mem) (l : list spof_group_t) (i : nat) : option (list (Z * nat)) :=
  match l with
  | [] => Some []
  | sg :: l' =>
      count ← spof_group_free_chunk_count m sg;
      rest ← spof_infos m l' (S i);
      Some ((count, i) :: rest)
  end.

(** The loop that takes a chunk in each of the groups [gs]. *)
Fixpoint get_chunks (m : mem) (st : storage_t) (gs : list nat) : option (mem * list (option chunk_t)) :=
  match gs with
  | [] => Some (m, [])
  | g :: gs' =>
      '(m, c) ← spof_group_get_chunk m (get_group st g);
      '(m, cs) ← get_chunks m st gs';
      Some (m, c :: cs)
  end.

Definition generic_make_slot (m : mem) (st : storage_t) (w : Z) : option (mem * slot_t) :=
  assert! (negb (num_spof_groups st =? 0));
  infos ← spof_infos m (take (Z.to_nat (num_spof_groups st)) (spof_groups st)) 0;
  let sorted := qsort (spof_info_compare st) infos in
  assert! (bool_decide (Z.to_nat w <= length sorted)%nat);
  '(m, cs) ← get_chunks m st (snd <$> take (Z.to_nat w) sorted);
  Some (m, mk_slot cs w).

Definition slot_make (m : mem) (st : storage_t) (w : Z) : option (mem * slot_t) :=
  assert! (0 <? w);
  generic_make_slot m st w.

Fixpoint put_chunks (m : mem) (cs : list (option chunk_t)) : option mem :=
  match cs with
  | [] => Some m
  | c :: cs' => c ← c; m ← spof_group_put_chunk m c; put_chunks m cs'
  end.

Definition slot_free (m : mem) (slot : slot_t) : option mem :=
  put_chunks m (take (Z.to_nat (width slot)) (s_chunks slot)).

Fixpoint slot_equals_loop (m : mem) (ids : list Z) (a b : slot_t) : option bool :=
  match ids with
  | [] => Some true
  | i :: ids' =>
      ca ← (p ← s_chunks a !! Z.to_nat i; p);
      cb ← (p ← s_chunks b !! Z.to_nat i; p);
      eq ← chunk_equals m ca cb;
      if negb eq then Some false else slot_equals_loop m ids' a b
  end.

Definition slot_equals (m : mem) (a b : slot_t) : option bool :=
  if negb (width a =? width b) then Some false
  else slot_equals_loop m (seqZ 0 (width a)) a b.

(** ** Volumes: [assembly_volume.c] *)

Definition assembly_volume_alloc (alloc : bool) (uuid : exa_uuid_t) : option assembly_volume_t :=
  if alloc then Some (mk_av uuid [] 0) else None.

Fixpoint free_slots (m : mem) (l : list slot_t) : option mem :=
  match l with
  | [] => Some m
  | s :: l' => m ← slot_free m s; free_slots m l'
  end.

Definition assembly_volume_free (m : mem) (av : assembly_volume_t) : option mem :=
  free_slots m (take (Z.to_nat (total_slots_count av)) (slots av)).

Fixpoint make_slots (k : nat) (m : mem) (st : storage_t) (w : Z) : option (mem * list slot_t) :=
  match k with
  | O => Some (m, [])
  | S k' =>
      '(m, s) ← slot_make m st w;
      '(m, l) ← make_slots k' m st w;
      Some (m, s :: l)
  end.

(** [alloc] is the answer of [os_malloc] for the new array. *)
Definition assembly_volume_resize (alloc : bool) (m : mem) (st : storage_t)
    (av : assembly_volume_t) (w new_slots_count : Z)
    : option (mem * assembly_volume_t * result unit) :=
  let old_slots_count := total_slots_count av in
  if new_slots_count =? old_slots_count then Some (m, av, Ok tt)
  else if negb alloc then Some (m, av, Err ENOMEM)
  else
    let kept := take (Z.to_nat (Z.min new_slots_count old_slots_count)) (slots av) in
    if old_slots_count <? new_slots_count then
      '(m, l) ← make_slots (Z.to_nat (new_slots_count - old_slots_count)) m st w;
      Some (m, mk_av (av_uuid av) (kept ++ l) new_slots_count, Ok tt)
    else
      m ← free_slots m (take (Z.to_nat (old_slots_count - new_slots_count))
                          (drop (Z.to_nat new_slots_count) (slots av)));
      Some (m, mk_av (av_uuid av) kept new_slots_count, Ok tt).

Fixpoint volume_equals_loop (m : mem) (ids : list Z) (a b : assembly_volume_t) : option bool :=
  match ids with
  | [] => Some true
  | i :: ids' =>
      sa ← slots a !! Z.to_nat i;
      sb ← slots b !! Z.to_nat i;
      eq ← slot_equals m sa sb;
      if negb eq then Some false else volume_equals_loop m ids' a b
  end.

Definition assembly_volume_equals (m : mem) (a b : assembly_volume_t) : option bool :=
  if negb (uuid_is_equal (av_uuid a) (av_uuid b)) then Some false
  else if negb (total_slots_count a =? total_slots_count b) then Some false
  else volume_equals_loop m (seqZ 0 (total_slots_count a)) a b.

(** The slot that holds a sector and the offset in it. *)
Definition assembly_volume_map_sector_to_slot (av : assembly_volume_t) (size vsector : Z)
    : option (Z * Z) :=
  assert! (vsector <? u64 (total_slots_count av * size));
  let volume_slot_index := vsector / size in
  assert! (volume_slot_index <? total_slots_count av);
  Some (u32 volume_slot_index, vsector mod size).

(** ** Groups: [assembly_group.c] *)

Definition assembly_group_init : assembly_group_t := mk_ag true 0 0 [] 0.

(** The loop removes and frees the first volume until none is left. *)
Fixpoint cleanup_loop (m : mem) (l : list assembly_volume_t) : option mem :=
  match l with
  | [] => Some m
  | av :: l' => m ← assembly_volume_free m av; cleanup_loop m l'
  end.

Definition assembly_group_cleanup (m : mem) (ag : assembly_group_t)
    : option (mem * assembly_group_t) :=
  m ← cleanup_loop m (subspaces ag);
  Some (m, mk_ag (initialized ag) (slot_size ag) (slot_width ag) [] 0).

Fixpoint group_equals_loop (m : mem) (l1 l2 : list assembly_volume_t) : option bool :=
  match l1, l2 with
  | av1 :: l1', av2 :: l2' =>
      eq ← assembly_volume_equals m av1 av2;
      if negb eq then Some false else group_equals_loop m l1' l2'
  | [], [] => Some true
  | _, _ => Some false
  end.

Definition assembly_group_equals (m : mem) (a b : assembly_group_t) : option bool :=
  if negb (eqb (initialized a) (initialized b)) then Some false
  else if negb (slot_size a =? slot_size b) then Some false
  else if negb (slot_width a =? slot_width b) then Some false
  else if negb (num_subspaces a =? num_subspaces b) then Some false
  else group_equals_loop m (subspaces a) (subspaces b).

Definition assembly_group_setup (ag : assembly_group_t) (w chunk_size : Z) : option assembly_group_t :=
  assert! (initialized ag);
  Some (mk_ag (initialized ag) (u32 (w * chunk_size)) w (subspaces ag) (num_subspaces ag)).

Definition assembly_group_insert_volume (ag : assembly_group_t) (av : assembly_volume_t)
    : assembly_group_t :=
  mk_ag (initialized ag) (slot_size ag) (slot_width ag) (subspaces ag ++ [av])
    (u32 (num_subspaces ag + 1)).

(** Volumes are found by their rank; the code compares pointers. *)
Definition assembly_group_remove_volume (ag : assembly_group_t) (i : nat)
    : option (assembly_group_t * assembly_volume_t) :=
  av ← subspaces ag !! i;
  Some (mk_ag (initialized ag) (slot_size ag) (slot_width ag)
          (take i (subspaces ag) ++ drop (S i) (subspaces ag)) (u32 (num_subspaces ag - 1)), av).

Definition assembly_group_get_used_slots_count (ag : assembly_group_t) : Z :=
  foldl (λ n s, u64 (n + total_slots_count s)) 0 (subspaces ag).

(** The number of free chunks of each SPOF group. *)
Fixpoint per_spof_chunk_count (m : mem) (l : list spof_group_t) : option (list Z) :=
  match l with
  | [] => Some []
  | sg :: l' =>
      count ← spof_group_free_chunk_count m sg;
      rest ← per_spof_chunk_count m l';
      Some (count :: rest)
  end.

Definition assembly_group_get_available_slots_count (ag : assembly_group_t) (m : mem)
    (st : storage_t) : option Z :=
  counts ← per_spof_chunk_count m (take (Z.to_nat (num_spof_groups st)) (spof_groups st));
  assembly_predict_max_slots_without_sparing (num_spof_groups st) (slot_width ag) counts.

Definition assembly_group_get_max_slots_count (ag : assembly_group_t) (m : mem) (st : storage_t)
    : option Z :=
  available ← assembly_group_get_available_slots_count ag m st;
  Some (u64 (available + assembly_group_get_used_slots_count ag)).

Definition assembly_group_resize_volume (alloc : bool) (m : mem) (st : storage_t)
    (ag : assembly_group_t) (av : assembly_volume_t) (new_slots_count : Z)
    : option (mem * assembly_volume_t * result unit) :=
  max ← assembly_group_get_max_slots_count ag m st;
  if max <? new_slots_count then Some (m, av, Err VRT_ERR_NOT_ENOUGH_FREE_SC)
  else assembly_volume_resize alloc m st av (slot_width ag) new_slots_count.

Fixpoint assembly_group_lookup_volume (l : list assembly_volume_t) (uuid : exa_uuid_t)
    : option nat :=
  match l with
  | [] => None
  | s :: l' => if uuid_is_equal (av_uuid s) uuid then Some O
               else S <$> assembly_group_lookup_volume l' uuid
  end.

(** [alloc1] is for the volume and [alloc2] for its array of slots. *)
Definition assembly_group_reserve_volume (alloc1 alloc2 : bool) (m : mem) (st : storage_t)
    (ag : assembly_group_t) (uuid : exa_uuid_t) (nb_slots : Z)
    : option (mem * assembly_group_t * result assembly_volume_t) :=
  match assembly_volume_alloc alloc1 uuid with
  | None => Some (m, ag, Err ENOMEM)
  | Some av =>
      '(m, av, res) ← assembly_group_resize_volume alloc2 m st ag av nb_slots;
      match res with
      | Err e => m ← assembly_volume_free m av; Some (m, ag, Err e)
      | Ok _ => Some (m, assembly_group_insert_volume ag av, Ok av)
      end
  end.

Definition assembly_group_release_volume (alloc : bool) (m : mem) (st : storage_t)
    (ag : assembly_group_t) (i : nat) : option (mem * assembly_group_t) :=
  '(ag, av) ← assembly_group_remove_volume ag i;
  '(m, av, res) ← assembly_group_resize_volume alloc m st ag av 0;
  match res with
  | Err _ => None
  | Ok _ => m ← assembly_volume_free m av; Some (m, ag)
  end.

(** The slot that holds a sector of a volume and the offset in it. *)
Definition assembly_group_map_sector_to_slot (av : assembly_volume_t) (size vsector : Z)
    : option (slot_t * Z) :=
  assert! (vsector <? u64 (total_slots_count av * size));
  let volume_slot_index := vsector / size in
  assert! (volume_slot_index <? total_slots_count av);
  slot ← slots av !! Z.to_nat volume_slot_index;
  Some (slot, vsector mod size).

End definitions.

(** ** The pool of free chunks *)

(** The number of free chunks of a SPOF group. *)
Definition group_free (m : mem) (sg : spof_group_t) : Z := zsum (map (free_of m) (sg_rdevs sg)).

Definition counts (m : mem) (st : storage_t) : list Z := map (group_free m) (spof_groups st).

(** A storage whose devices are in the store, each in one SPOF group only, and
    where [out] is the list of the chunks that are out. *)
Record pool (m : mem) (st : storage_t) (out : list chunk_t) : Prop := {
  po_st : storage_wf st;
  po_lg : ledger m out;
  po_mem : ∀ sg, sg ∈ spof_groups st → in_mem m sg;
  po_nodup : NoDup (storage_rdevs st);
  po_size : zsum (map (total_of m) (storage_rdevs st)) < 2 ^ 31;
  po_ids : Forall (λ sg, sg_spof_id sg < 2 ^ 31) (spof_groups st)
}.

Lemma NoDup_concat_lookup {A} (L : list (list A)) i j a b x :
  NoDup (concat L) → L !! i = Some a → L !! j = Some b → x ∈ a → x ∈ b → i = j.
Proof.
  revert i j. induction L as [|l L IH]; intros i j Hnd Hi Hj Ha Hb; [done|].
  simpl in Hnd. apply NoDup_app in Hnd as (_ & Hd & Hnd).
  assert (Hin : ∀ k c, L !! k = Some c → x ∈ c → x ∈ concat L).
  { intros k c Hk Hx. apply list_elem_of_In, in_concat. exists c. rewrite <- !list_elem_of_In.
    split; [by eapply list_elem_of_lookup_2|done]. }
  destruct i as [|i], j as [|j]; simplify_eq/=; [done| | |].
  - exfalso. by eapply Hd, Hin.
  - exfalso. by eapply Hd, Hin.
  - f_equal. by eapply IH.
Qed.

Lemma zsum_map_concat {A} (f : A → Z) (L : list (list A)) :
  zsum (map f (concat L)) = zsum (map (λ l, zsum (map f l)) L).
Proof. induction L as [|l L IH]; simpl; [done|]. by rewrite map_app, zsum_app, IH. Qed.

Lemma free_of_with_free (m : mem) p r d free q :
  m !! p = Some r →
  free_of (<[p := with_free r (free_chunks_count (chunks r) + d) free]> m) q =
  free_of m q + (if decide (q = p) then d else 0).
Proof.
  intros Hp. unfold free_of. destruct (decide (q = p)) as [->|Hne].
  - by rewrite lookup_insert_eq, Hp.
  - rewrite lookup_insert_ne by done. lia.
Qed.

Lemma zsum_map_point {A} `{EqDecision A} (f : A → Z) (p : A) d l :
  NoDup l →
  zsum (map (λ q, f q + (if decide (q = p) then d else 0)) l) =
  zsum (map f l) + (if decide (p ∈ l) then d else 0).
Proof.
  unfold zsum. induction 1 as [|x l Hx Hnd IH]; cbn [map foldr].
  - by rewrite decide_False by apply not_elem_of_nil.
  - rewrite IH. destruct (decide (x = p)) as [->|Hne].
    + rewrite (decide_False (P:=p ∈ l)), decide_True by (done || left). lia.
    + rewrite (decide_ext (p ∈ x :: l) (p ∈ l)); [lia|]. rewrite elem_of_cons. naive_solver.
Qed.

Lemma NoDup_concat_elem {A} (L : list (list A)) l : NoDup (concat L) → l ∈ L → NoDup l.
Proof.
  induction L as [|l' L IH]; simpl; intros Hnd Hl; [by apply elem_of_nil in Hl|].
  apply NoDup_app in Hnd as (H1 & _ & H2). apply elem_of_cons in Hl as [->|Hl]; [done|auto].
Qed.

(** One device lies in one group only. *)
Lemma pool_group m st out i j sg sg' p :
  pool m st out → spof_groups st !! i = Some sg → spof_groups st !! j = Some sg' →
  p ∈ sg_rdevs sg → p ∈ sg_rdevs sg' → i = j.
Proof.
  intros P Hi Hj. apply (NoDup_concat_lookup (map sg_rdevs (spof_groups st))).
  - apply P.
  - by rewrite list_lookup_fmap, Hi.
  - by rewrite list_lookup_fmap, Hj.
Qed.

Lemma pool_group_wf m st out i sg :
  pool m st out → spof_groups st !! i = Some sg →
  group_wf sg ∧ in_mem m sg ∧ NoDup (sg_rdevs sg) ∧ sg_spof_id sg < 2 ^ 31 ∧ 0 < sg_spof_id sg.
Proof.
  intros P Hi. pose proof (list_elem_of_lookup_2 _ _ _ Hi) as Hin. split_and!.
  - by eapply Forall_lookup_1, Hi; apply P.
  - by eapply po_mem.
  - eapply NoDup_concat_elem; [apply (po_nodup _ _ _ P)|]. apply list_elem_of_fmap. by exists sg.
  - by eapply (Forall_lookup_1 _ _ _ _ (po_ids _ _ _ P)).
  - by eapply (Forall_lookup_1 _ _ _ _ (sw_valid _ (po_st _ _ _ P))).
Qed.

Lemma free_le_total m out p : ledger m out → 0 <= free_of m p <= total_of m p.
Proof.
  intros L. unfold free_of, total_of. destruct (m !! p) as [r|] eqn:Hp; simpl; [|lia].
  apply free_count_bounds. by eapply lg_rdev.
Qed.

Lemma counts_nonneg m st out : ledger m out → Forall (λ x, 0 <= x) (counts m st).
Proof.
  intros L. apply Forall_map, Forall_forall. intros sg _. apply zsum_nonneg, Forall_map, Forall_forall.
  intros p _. by apply (free_le_total m out p L).
Qed.

Lemma counts_sum m st out : pool m st out → 0 <= zsum (counts m st) < 2 ^ 31.
Proof.
  intros P. pose proof (po_lg _ _ _ P) as L. split.
  - by eapply zsum_nonneg, counts_nonneg.
  - eapply Z.le_lt_trans; [|apply (po_size _ _ _ P)]. unfold storage_rdevs.
    rewrite zsum_map_concat. unfold counts. rewrite map_map. apply zsum_map_le, Forall_forall.
    intros sg _. apply zsum_map_le, Forall_forall. intros p _. by apply (free_le_total m out p L).
Qed.

Lemma zsum_elem l x : Forall (λ x, 0 <= x) l → x ∈ l → x <= zsum l.
Proof.
  intros Hl Hx. apply list_elem_of_split in Hx as (l1 & l2 & ->).
  apply Forall_app in Hl as [H1 [_ H2]%Forall_cons]. rewrite zsum_app, zsum_cons.
  pose proof (zsum_nonneg _ H1). pose proof (zsum_nonneg _ H2). lia.
Qed.

Lemma group_free_bounds m st out i sg :
  pool m st out → spof_groups st !! i = Some sg → 0 <= group_free m sg < 2 ^ 31.
Proof.
  intros P Hi. pose proof (po_lg _ _ _ P) as L. pose proof (counts_nonneg m st out L) as Hc.
  pose proof (counts_sum m st out P) as Hs.
  assert (Hin : group_free m sg ∈ counts m st).
  { apply list_elem_of_fmap. exists sg. split; [done|]. by eapply list_elem_of_lookup_2. }
  pose proof (zsum_elem _ _ Hc Hin). rewrite Forall_forall in Hc. specialize (Hc _ Hin). lia.
Qed.

Lemma group_free_count m st out i sg :
  pool m st out → spof_groups st !! i = Some sg →
  spof_group_free_chunk_count m sg = Some (group_free m sg).
Proof.
  intros P Hi. destruct (pool_group_wf _ _ _ _ _ P Hi) as (Hg & Hm & _).
  pose proof (group_free_bounds _ _ _ _ _ P Hi) as Hb. unfold group_free in *.
  apply spof_group_free_chunk_count_ok; [done|done|by eapply lg_rdev, P|lia].
Qed.

(** Changing the free list of one device keeps the pool, up to the ledger. *)
Lemma pool_update m st out p r count free out' :
  pool m st out → m !! p = Some r → ledger (<[p := with_free r count free]> m) out' →
  pool (<[p := with_free r count free]> m) st out'.
Proof.
  intros [] Hp L. split; try done.
  - intros sg Hsg. eapply geometry_in_mem; [|by eauto]. intros q. by apply geometry_with_free.
  - erewrite map_ext; [done|]. intros q. unfold total_of. destruct (decide (q = p)) as [->|Hne].
    + by rewrite lookup_insert_eq, Hp.
    + by rewrite lookup_insert_ne.
Qed.

Lemma group_free_update m st out j sg p r d free :
  pool m st out → spof_groups st !! j = Some sg → m !! p = Some r →
  group_free (<[p := with_free r (free_chunks_count (chunks r) + d) free]> m) sg =
  group_free m sg + (if decide (p ∈ sg_rdevs sg) then d else 0).
Proof.
  intros P Hj Hp. destruct (pool_group_wf _ _ _ _ _ P Hj) as (_ & _ & Hnd & _). unfold group_free.
  erewrite map_ext by (intros q; by apply free_of_with_free). by apply zsum_map_point.
Qed.

(** Taking a chunk in a group that has one. *)
Lemma pool_take m st out i sg :
  pool m st out → spof_groups st !! i = Some sg → 1 <= group_free m sg →
  ∃ m' c, spof_group_get_chunk m sg = Some (m', Some c) ∧ pool m' st (c :: out) ∧
    c_rdev c ∈ sg_rdevs sg ∧
    ∀ j sg', spof_groups st !! j = Some sg' →
      group_free m' sg' = group_free m sg' - (if decide (j = i) then 1 else 0).
Proof.
  intros P Hi Hf. destruct (pool_group_wf _ _ _ _ _ P Hi) as (Hg & Hm & Hnd & _).
  destruct (spof_group_get_chunk_ok m sg out (po_lg _ _ _ P) Hg Hm) as
    (p & r & idx & E & Hp & Hr & _ & _ & _ & L').
  { destruct (Exists_dec (λ q, 0 < free_of m q) (sg_rdevs sg)) as [Hex|Hno].
    - apply Exists_exists in Hex. naive_solver.
    - exfalso. apply not_Exists_Forall in Hno; [|intros q; apply _].
      assert (group_free m sg <= zsum (map (λ _, 0) (sg_rdevs sg))) as Hle.
      { apply zsum_map_le. eapply Forall_impl; [exact Hno|]. simpl. lia. }
      rewrite zsum_map_const in Hle. lia. }
  exists (<[p := take_chunk r idx]> m), (mk_chunk p (chunk_off r idx)).
  split_and!; [done|by apply pool_update with out|done|]. intros j sg' Hj. unfold take_chunk.
  rewrite (group_free_update m st out j sg' p r (-1)) by done.
  rewrite (decide_ext (p ∈ sg_rdevs sg') (j = i)); [unfold group_free; destruct (decide _); lia|]. split.
  - intros Hp'. by eapply pool_group.
  - intros ->. by simplify_eq.
Qed.

#[export] Instance ledger_proper m : Proper (Permutation ==> iff) (ledger m).
Proof.
  assert (Himp : ∀ out out', out ≡ₚ out' → ledger m out → ledger m out').
  { intros out out' Ho []. split; [done|by rewrite <- Ho|..].
    - intros p r idx Hp Hi. rewrite <- Ho. auto.
    - intros c Hc. rewrite <- Ho in Hc. auto.
    - intros p r Hp. rewrite <- Ho. auto. }
  intros out out' Ho. split; by apply Himp.
Qed.

#[export] Instance pool_proper m st : Proper (Permutation ==> iff) (pool m st).
Proof.
  intros out out' Ho. split; intros []; split; try done; [by rewrite <- Ho|by rewrite Ho].
Qed.

(** ** Slots *)

(** A chunk lies on the group of rank [g]. *)
Definition chunk_on (st : storage_t) (c : chunk_t) (g : nat) : Prop :=
  ∃ sg, spof_groups st !! g = Some sg ∧ c_rdev c ∈ sg_rdevs sg.

(** The chunks lie on different SPOF groups. *)
Definition spread (st : storage_t) (cs : list chunk_t) : Prop :=
  ∃ gs, NoDup gs ∧ Forall2 (chunk_on st) cs gs.

Definition slot_chunks (s : slot_t) : list chunk_t := omap id (s_chunks s).

Record slot_wf (st : storage_t) (w : Z) (s : slot_t) : Prop := {
  slw_chunks : s_chunks s = Some <$> slot_chunks s;
  slw_width : width s = w;
  slw_len : Z.of_nat (length (s_chunks s)) = w;
  slw_spread : spread st (slot_chunks s)
}.

Lemma omap_id_Some {A} (l : list A) : omap id (Some <$> l) = l.
Proof. induction l as [|x l IH]; [done|]. cbn. f_equal. exact IH. Qed.

Lemma slot_wf_intro st cs w :
  Z.of_nat (length cs) = w → spread st cs → slot_wf st w (mk_slot (Some <$> cs) w) ∧
  slot_chunks (mk_slot (Some <$> cs) w) = cs.
Proof.
  intros Hl Hs. assert (E : slot_chunks (mk_slot (Some <$> cs) w) = cs) by apply omap_id_Some.
  split; [|done]. split; rewrite ?E; simpl; rewrite ?length_fmap; done.
Qed.

Lemma get_chunks_ok m st out gs :
  pool m st out → NoDup gs →
  (∀ g, g ∈ gs → ∃ sg, spof_groups st !! g = Some sg ∧ 1 <= group_free m sg) →
  ∃ m' cs, get_chunks m st gs = Some (m', Some <$> cs) ∧ pool m' st (cs ++ out) ∧
    Forall2 (chunk_on st) cs gs ∧
    ∀ j sg, spof_groups st !! j = Some sg →
      group_free m' sg = group_free m sg - (if decide (j ∈ gs) then 1 else 0).
Proof.
  revert m out. induction gs as [|g gs IH]; intros m out P Hnd Hgs.
  { exists m, []. split_and!; try done. intros j sg _.
    rewrite decide_False by apply not_elem_of_nil. lia. }
  apply NoDup_cons in Hnd as [Hni Hnd]. destruct (Hgs g) as (sg & Hg & Hf); [left|].
  destruct (pool_take m st out g sg P Hg Hf) as (m1 & c & E & P1 & Hc & Hcnt).
  destruct (IH m1 (c :: out) P1 Hnd) as (m2 & cs & E2 & P2 & Hon & Hcnt2).
  { intros g' Hg'. destruct (Hgs g') as (sg' & Hsg & Hf'); [by right|]. exists sg'. split; [done|].
    rewrite (Hcnt g' sg' Hsg), decide_False by congruence. lia. }
  exists m2, (c :: cs). cbn [get_chunks]. rewrite (get_group_lookup _ _ _ Hg), E. returned. rewrite E2.
  split_and!; [done|by rewrite <- Permutation_middle in P2|constructor; [by exists sg|done]|].
  intros j sg' Hj. rewrite (Hcnt2 j sg' Hj), (Hcnt j sg' Hj). destruct (decide (j = g)) as [->|Hne].
  - rewrite (decide_False (P:=g ∈ gs)), decide_True by (done || left). lia.
  - rewrite (decide_ext (j ∈ g :: gs) (j ∈ gs)); [lia|]. rewrite elem_of_cons. naive_solver.
Qed.

(** The working copy of the groups: the counts paired with the ranks. *)
Definition infos (m : mem) (st : storage_t) : list (Z * nat) :=
  imap (λ i sg, (group_free m sg, i)) (spof_groups st).

Lemma spof_infos_ok m st out l i :
  pool m st out → (∀ k sg, l !! k = Some sg → spof_groups st !! (i + k)%nat = Some sg) →
  spof_infos m l i = Some (imap (λ k sg, (group_free m sg, (i + k)%nat)) l).
Proof.
  intros P. revert i. induction l as [|sg l IH]; intros i Hl; [done|]. cbn [spof_infos imap].
  rewrite (group_free_count m st out i sg P) by (rewrite <- (Hl O sg eq_refl); f_equal; lia). returned.
  rewrite IH by (intros k sg' Hk; rewrite <- (Hl (S k) sg' Hk); f_equal; lia). returned.
  f_equal. f_equal; [f_equal; lia|]. apply imap_ext. intros k sg' _. simpl. f_equal. lia.
Qed.

Lemma infos_elem m st x :
  x ∈ infos m st ↔ ∃ sg, spof_groups st !! x.2 = Some sg ∧ x.1 = group_free m sg.
Proof.
  unfold infos. rewrite elem_of_lookup_imap. destruct x as [c g]. simpl. split.
  - intros (i & sg & [= -> ->] & Hi). by exists sg.
  - intros (sg & Hg & ->). by exists g, sg.
Qed.

Lemma infos_fst m st : (infos m st).*1 = counts m st.
Proof. unfold infos, counts. rewrite fmap_imap. apply imap_const. Qed.

Lemma infos_snd m st : NoDup (infos m st).*2.
Proof.
  unfold infos. rewrite fmap_imap. rewrite (imap_ext _ (λ i _, i)) by done.
  assert (E : imap (λ (i : nat) (_ : spof_group_t), i) (spof_groups st) =
    seq 0 (length (spof_groups st))).
  { apply list_eq. intros i. rewrite list_lookup_imap. destruct (spof_groups st !! i) eqn:Hi; simpl.
    - apply lookup_lt_Some in Hi. by rewrite lookup_seq_lt.
    - apply lookup_ge_None in Hi. by rewrite lookup_seq_ge. }
  rewrite E. apply NoDup_seq.
Qed.

Section make.
Context (Q : Qsort) (m : mem) (st : storage_t) (out : list chunk_t) (P : pool m st out).

Abbreviation gid x := (sg_spof_id (get_group st x.2)).

Lemma compare_ok x y :
  x ∈ infos m st → y ∈ infos m st →
  cmp_le (spof_info_compare st) x y ↔ y.1 < x.1 ∨ (y.1 = x.1 ∧ gid y <= gid x).
Proof using P.
  rewrite !infos_elem. intros (sx & Hx & Ex) (sy & Hy & Ey).
  pose proof (pool_group_wf _ _ _ _ _ P Hx) as (_ & _ & _ & ? & ?).
  pose proof (pool_group_wf _ _ _ _ _ P Hy) as (_ & _ & _ & ? & ?).
  pose proof (group_free_bounds _ _ _ _ _ P Hx). pose proof (group_free_bounds _ _ _ _ _ P Hy).
  unfold cmp_le, spof_info_compare. rewrite (get_group_lookup _ _ _ Hx), (get_group_lookup _ _ _ Hy).
  case_if; rewrite i32_sub by lia; lia.
Qed.

Abbreviation sorted := (qsort (spof_info_compare st) (infos m st)).

Lemma sorted_elem x : x ∈ sorted ↔ x ∈ infos m st.
Proof using. by rewrite qsort_perm. Qed.

Lemma sorted_counts : sorted.*1 ≡ₚ counts m st.
Proof using. by rewrite qsort_perm, infos_fst. Qed.

Lemma sorted_descending : StronglySorted (λ x y, y <= x) sorted.*1.
Proof using P.
  assert (Hs : StronglySorted (cmp_le (spof_info_compare st)) sorted).
  { apply qsort_sorted.
    - intros x y Hx Hy. rewrite !compare_ok by done. lia.
    - intros x y z Hx Hy Hz. rewrite !compare_ok by done. lia. }
  assert (Hin : Forall (λ x, x ∈ infos m st) sorted).
  { apply Forall_forall. intros x. by rewrite sorted_elem. }
  induction Hs as [|x l Hs IH Hx]; [constructor|]. apply Forall_cons in Hin as [Hi Hin].
  cbn. constructor; [auto|]. apply Forall_map. rewrite Forall_forall in Hx, Hin |- *.
  intros y Hy. specialize (Hx y Hy). apply compare_ok in Hx; [simpl; lia|done|auto].
Qed.

Lemma sorted_ranks k : NoDup ((take k sorted).*2 ++ (drop k sorted).*2).
Proof using. rewrite <- fmap_app, take_drop, qsort_perm. apply infos_snd. Qed.

(** After a chunk was taken in each of the first [k] groups, the counts are
    those of the greedy assembly. *)
Lemma counts_greedy m' k :
  (∀ j sg, spof_groups st !! j = Some sg →
     group_free m' sg = group_free m sg - (if decide (j ∈ (take k sorted).*2) then 1 else 0)) →
  counts m' st ≡ₚ take_chunks k sorted.*1.
Proof using.
  intros Hm'. set (f := λ x : Z * nat, x.1 - (if decide (x.2 ∈ (take k sorted).*2) then 1 else 0)).
  assert (E : counts m' st = map f (infos m st)).
  { unfold counts, infos. symmetry. etransitivity; [apply fmap_imap|].
    rewrite <- (imap_const (group_free m')). apply imap_ext. intros j sg Hj. simpl.
    by rewrite (Hm' j sg Hj). }
  transitivity (map f sorted); [by rewrite E; apply Permutation_map; rewrite qsort_perm|].
  pose proof (sorted_ranks k) as (_ & Hd & _)%NoDup_app.
  unfold take_chunks. rewrite <- fmap_take, <- fmap_drop. rewrite <- (take_drop k sorted) at 1. rewrite map_app.
  apply Permutation_app; apply reflexive_eq.
  - etransitivity; [|symmetry; apply map_map]. apply map_ext_in. intros x Hx%list_elem_of_In.
    unfold f. rewrite decide_True; [done|]. apply list_elem_of_fmap. by exists x.
  - apply map_ext_in. intros x Hx%list_elem_of_In. unfold f. rewrite decide_False; [lia|].
    intros Hin. apply (Hd x.2 Hin). apply list_elem_of_fmap. by exists x.
Qed.

(** A slot can be made when the prediction is positive, and it uses up exactly
    one of the predicted slots. *)
Lemma slot_make_ok w p :
  0 < w → max_slots (counts m st) w p → 0 < p →
  ∃ m' s, slot_make m st w = Some (m', s) ∧ slot_wf st w s ∧ pool m' st (slot_chunks s ++ out) ∧
    max_slots (counts m' st) w (p - 1).
Proof using P.
  intros Hw Hmax Hp. set (k := Z.to_nat w). assert (Ek : Z.of_nat k = w) by lia.
  assert (Hpos : Forall (λ x, 0 <= x) sorted.*1).
  { rewrite sorted_counts. by eapply counts_nonneg, P. }
  rewrite <- sorted_counts, <- Ek in Hmax. destruct Hmax as (Hp0 & Hfit & Hmax).
  destruct (greedy_chunks _ k sorted_descending Hpos p Hp Hfit) as [Hlen Hge].
  rewrite length_fmap in Hlen. rewrite <- fmap_take in Hge.
  pose proof (sorted_ranks k) as (Hnd & _)%NoDup_app.
  destruct (get_chunks_ok m st out (take k sorted).*2 P) as (m' & cs & E & P' & Hon & Hcnt).
  { done. }
  { intros g Hg. apply list_elem_of_fmap in Hg as (x & -> & Hx).
    rewrite Forall_fmap, Forall_forall in Hge. specialize (Hge x Hx). simpl in Hge.
    apply elem_of_take in Hx as (i & Hi & _). apply list_elem_of_lookup_2, sorted_elem, infos_elem in Hi.
    destruct Hi as (sg & Hsg & Ex). exists sg. split; [done|]. lia. }
  assert (Hcs : Z.of_nat (length cs) = w).
  { apply Forall2_length in Hon. rewrite length_fmap, length_take_le in Hon by done. lia. }
  destruct (slot_wf_intro st cs w Hcs) as [Hwf Ecs].
  { exists (take k sorted).*2. done. }
  exists m', (mk_slot (Some <$> cs) w). split_and!; [|done|by rewrite Ecs|].
  - unfold slot_make, generic_make_slot. replace (0 <? w) with true by lia. cbn [exa_assert].
    rewrite (take_groups st (po_st _ _ _ P)), (spof_infos_ok m st out _ 0 P) by done.
    replace (num_spof_groups st =? 0) with false.
    2:{ rewrite (sw_num st (po_st _ _ _ P)). unfold infos in Hlen.
        rewrite (Permutation_length (qsort_perm _ _)), length_imap in Hlen. lia. }
    cbn [negb exa_assert]. returned. change (imap _ (spof_groups st)) with (infos m st). fold k.
    rewrite bool_decide_eq_true_2 by done. cbn [exa_assert]. by rewrite E.
  - rewrite (counts_greedy m' k Hcnt), <- Ek. apply greedy_max; [exact sorted_descending|done|done|]. by split_and!.
Qed.
End make.

(** Making slots, as many as predicted. *)
Lemma make_slots_ok (Q : Qsort) k m st out w p :
  pool m st out → 0 < w → max_slots (counts m st) w p → Z.of_nat k <= p →
  ∃ m' l, make_slots k m st w = Some (m', l) ∧ length l = k ∧ Forall (slot_wf st w) l ∧
    pool m' st (concat (map slot_chunks l) ++ out) ∧
    max_slots (counts m' st) w (p - Z.of_nat k).
Proof.
  intros P Hw. revert m out p P. induction k as [|k IH]; intros m out p P Hmax Hk.
  { exists m, []. cbn. rewrite Z.sub_0_r. by split_and!. }
  destruct (slot_make_ok Q m st out P w p Hw Hmax) as (m1 & s & E & Hs & P1 & Hmax1); [lia|].
  destruct (IH m1 _ _ P1 Hmax1) as (m2 & l & E2 & Hl & Hwf & P2 & Hmax2); [lia|].
  exists m2, (s :: l). cbn [make_slots]. rewrite E. returned. rewrite E2. split_and!.
  - done.
  - simpl. lia.
  - by constructor.
  - change (concat _) with (slot_chunks s ++ concat (map slot_chunks l)).
    by rewrite (Permutation_app_comm (slot_chunks s)), <- app_assoc.
  - by replace (p - Z.of_nat (S k)) with (p - 1 - Z.of_nat k) by lia.
Qed.

(** A group without free chunk makes the allocation of the slot abort. *)
Lemma get_chunks_none m st out gs g sg :
  pool m st out → NoDup gs → (∀ g, g ∈ gs → is_Some (spof_groups st !! g)) →
  g ∈ gs → spof_groups st !! g = Some sg → group_free m sg = 0 →
  get_chunks m st gs = None.
Proof.
  intros P. revert m out P. induction gs as [|g' gs IH]; intros m out P Hnd Hgs Hg Hsg Hf;
    [by apply elem_of_nil in Hg|].
  apply NoDup_cons in Hnd as [Hni Hnd]. destruct (Hgs g') as [sg' Hg']; [left|]. cbn [get_chunks].
  rewrite (get_group_lookup _ _ _ Hg').
  destruct (pool_group_wf _ _ _ _ _ P Hg') as (Hgw & Hm & _).
  destruct (spof_group_get_chunk m sg') as [r|] eqn:E; [|done].
  destruct (get_chunk_some m sg' out r (po_lg _ _ _ P) Hgw Hm E) as (q & Hq & Hfq).
  assert (Hpos : 1 <= group_free m sg').
  { assert (free_of m q <= group_free m sg'); [|lia]. apply zsum_elem.
    - apply Forall_map, Forall_forall. intros p _. by apply (free_le_total m out p), P.
    - apply list_elem_of_fmap. by exists q. }
  destruct (pool_take m st out g' sg' P Hg' Hpos) as (m1 & c & E1 & P1 & _ & Hcnt).
  rewrite E in E1. injection E1 as ->. returned.
  apply elem_of_cons in Hg as [->|Hg]; [simplify_eq; lia|].
  rewrite (IH m1 (c :: out) P1); try done.
  - intros x Hx. apply Hgs. by right.
  - rewrite (Hcnt g sg Hsg), decide_False by congruence. lia.
Qed.

(** No slot can be made when none is predicted. *)
Lemma slot_make_none (Q : Qsort) m st out w :
  pool m st out → 0 < w → max_slots (counts m st) w 0 → slot_make m st w = None.
Proof.
  intros P Hw (_ & _ & Hmax). specialize (Hmax 1 ltac:(lia)).
  unfold slot_make, generic_make_slot. replace (0 <? w) with true by lia. cbn [exa_assert].
  destruct (negb _); [|done]. cbn [exa_assert].
  rewrite (take_groups st (po_st _ _ _ P)), (spof_infos_ok m st out _ 0 P) by done. returned.
  change (imap _ (spof_groups st)) with (infos m st).
  case_bool_decide as Hlen; [|done]. cbn [exa_assert].
  set (l := qsort (spof_info_compare st) (infos m st)) in *.
  destruct (decide (Forall (λ x, x.1 ≠ 0) (take (Z.to_nat w) l))) as [Hall|Hno].
  - exfalso. apply Hmax. rewrite <- (sorted_counts Q m st). fold l.
    rewrite <- (take_drop (Z.to_nat w) l). unfold slots_fit. rewrite fmap_app, map_app, zsum_app.
    assert (Hpos : Forall (λ x, 0 <= x) l.*1).
    { unfold l. rewrite (sorted_counts Q m st). by eapply counts_nonneg, P. }
    rewrite <- (take_drop (Z.to_nat w) l), fmap_app in Hpos. apply Forall_app in Hpos as [H1 H2].
    pose proof (smin_nonneg 1 _ ltac:(lia) H2). rewrite smin_all.
    + rewrite length_fmap, length_take_le by done. lia.
    + rewrite Forall_forall in H1. rewrite Forall_forall in Hall. apply Forall_forall. intros y Hy. specialize (H1 y Hy).
      apply list_elem_of_fmap in Hy as (x & -> & Hx). specialize (Hall x Hx). simpl in *. lia.
  - apply not_Forall_Exists, Exists_exists in Hno as (x & Hx & Hx0); [|apply _].
    assert (Hel : ∀ y, y ∈ take (Z.to_nat w) l → y ∈ infos m st).
    { intros y Hy. apply elem_of_take in Hy as (i & Hi & _).
      apply list_elem_of_lookup_2 in Hi. by apply sorted_elem in Hi. }
    pose proof (Hel x Hx) as Hi. apply infos_elem in Hi as (sg & Hsg & Ex).
    pose proof (sorted_ranks Q m st (Z.to_nat w)) as (Hnd & _)%NoDup_app.
    fold l in Hnd. rewrite (get_chunks_none m st out _ x.2 sg P Hnd); [done|..|done|].
    + intros g Hg. apply list_elem_of_fmap in Hg as (y & -> & Hy).
      specialize (Hel y Hy). apply infos_elem in Hel as (sg' & -> & _). by eexists.
    + apply list_elem_of_fmap. by exists x.
    + apply dec_stable in Hx0. lia.
Qed.

Lemma make_slots_none (Q : Qsort) k m st out w p :
  pool m st out → 0 < w → max_slots (counts m st) w p → p < Z.of_nat k →
  make_slots k m st w = None.
Proof.
  intros P Hw. revert m out p P. induction k as [|k IH]; intros m out p P Hmax Hk;
    [destruct Hmax; lia|]. cbn [make_slots].
  destruct (decide (p = 0)) as [->|Hp]; [by rewrite (slot_make_none Q m st out)|].
  destruct (slot_make_ok Q m st out P w p Hw Hmax) as (m1 & s & E & _ & P1 & Hmax1);
    [destruct Hmax; lia|].
  rewrite E. returned. by rewrite (IH m1 _ _ P1 Hmax1) by lia.
Qed.

(** ** Giving slots back *)

Lemma pool_put m st out c :
  pool m st (c :: out) →
  ∃ m', spof_group_put_chunk m c = Some m' ∧ pool m' st out ∧
    ∀ j sg, spof_groups st !! j = Some sg →
      group_free m' sg = group_free m sg + (if decide (c_rdev c ∈ sg_rdevs sg) then 1 else 0).
Proof.
  intros P. destruct (ledger_put m [] out c (po_lg _ _ _ P)) as (m' & E & L & r & idx & Hr & -> & _).
  eexists. split_and!; [exact E|by eapply pool_update|]. intros j sg Hj.
  by eapply group_free_update.
Qed.

Lemma put_chunks_ok m st out cs gs :
  pool m st (cs ++ out) → NoDup gs → Forall2 (chunk_on st) cs gs →
  ∃ m', put_chunks m (Some <$> cs) = Some m' ∧ pool m' st out ∧
    ∀ j sg, spof_groups st !! j = Some sg →
      group_free m' sg = group_free m sg + (if decide (j ∈ gs) then 1 else 0).
Proof.
  intros P Hnd Hon. revert m P Hnd. induction Hon as [|c g cs gs (sg & Hg & Hc) Hon IH]; intros m P Hnd.
  { exists m. split_and!; try done. intros j sg _. rewrite decide_False by apply not_elem_of_nil. lia. }
  apply NoDup_cons in Hnd as [Hni Hnd].
  destruct (pool_put m st (cs ++ out) c P) as (m1 & E & P1 & H1).
  destruct (IH m1 P1 Hnd) as (m2 & E2 & P2 & H2). exists m2. cbn. rewrite E. returned.
  split_and!; [done|done|]. intros j sg' Hj. rewrite (H2 j sg' Hj), (H1 j sg' Hj).
  rewrite (decide_ext (c_rdev c ∈ sg_rdevs sg') (j = g)).
  - destruct (decide (j = g)) as [->|Hne].
    + rewrite (decide_False (P:=g ∈ gs)), decide_True by (done || left). lia.
    + rewrite (decide_ext (j ∈ g :: gs) (j ∈ gs)); [lia|]. rewrite elem_of_cons. naive_solver.
  - split; [intros Hc'; by eapply pool_group|]. intros ->. by simplify_eq.
Qed.

Lemma zsum_map_add {A} (f g : A → Z) l :
  zsum (map (λ x, f x + g x) l) = zsum (map f l) + zsum (map g l).
Proof. unfold zsum. induction l; simpl; lia. Qed.

Lemma zsum_indicator {A} (P : A → Prop) `{∀ x, Decision (P x)} l :
  zsum (map (λ x, if decide (P x) then 1 else 0) l) = Z.of_nat (length (filter P l)).
Proof.
  unfold zsum. induction l as [|x l IH]; [done|]. cbn [map foldr]. rewrite IH, filter_cons.
  destruct (decide (P x)); simpl; lia.
Qed.

Lemma counts_seq m st :
  counts m st = map (λ j, group_free m (get_group st j)) (seq 0 (length (spof_groups st))).
Proof.
  apply list_eq. intros i. unfold counts. rewrite !list_lookup_fmap.
  destruct (spof_groups st !! i) as [sg|] eqn:Hi; simpl.
  - rewrite lookup_seq_lt by (by eapply lookup_lt_Some). simpl. by rewrite (get_group_lookup _ _ _ Hi).
  - by rewrite lookup_seq_ge by (by apply lookup_ge_None).
Qed.

(** One more slot fits when its chunks come back. *)
Lemma fit_put m m' st gs s :
  NoDup gs → (∀ g, g ∈ gs → is_Some (spof_groups st !! g)) →
  (∀ j sg, spof_groups st !! j = Some sg →
     group_free m' sg = group_free m sg + (if decide (j ∈ gs) then 1 else 0)) →
  slots_fit (counts m st) (Z.of_nat (length gs)) s →
  slots_fit (counts m' st) (Z.of_nat (length gs)) (s + 1).
Proof.
  intros Hnd Hgs Hfree. unfold slots_fit. rewrite !counts_seq, !map_map. intros Hfit.
  set (l := seq 0 (length (spof_groups st))) in *.
  assert (Hlen : length (filter (λ j, j ∈ gs) l) = length gs).
  { apply Permutation_length, NoDup_Permutation; [by apply NoDup_filter, NoDup_seq|done|].
    intros j. rewrite list_elem_of_filter. split; [by intros [? _]|]. intros Hj. split; [done|].
    apply elem_of_seq. destruct (Hgs j Hj) as [sg Hsg%lookup_lt_Some]. lia. }
  transitivity (zsum (map (λ j, Z.min (group_free m (get_group st j)) s +
    (if decide (j ∈ gs) then 1 else 0)) l)).
  - rewrite zsum_map_add, zsum_indicator, Hlen. lia.
  - apply zsum_map_le, Forall_forall. intros j Hj%elem_of_seq.
    destruct (lookup_lt_is_Some_2 (spof_groups st) j) as [sg Hsg]; [lia|].
    rewrite (get_group_lookup _ _ _ Hsg), (Hfree j sg Hsg). destruct (decide _); lia.
Qed.

Lemma slot_free_ok m st out w s n :
  pool m st (slot_chunks s ++ out) → slot_wf st w s → slots_fit (counts m st) w n →
  ∃ m', slot_free m s = Some m' ∧ pool m' st out ∧ slots_fit (counts m' st) w (n + 1).
Proof.
  intros P [Hc Hw Hl (gs & Hnd & Hon)] Hfit.
  destruct (put_chunks_ok m st out _ gs P Hnd Hon) as (m' & E & P' & Hfree).
  exists m'. split_and!; [|done|].
  - unfold slot_free. rewrite Hw, <- Hl, Nat2Z.id, firstn_all. by rewrite Hc.
  - pose proof (Forall2_length _ _ _ Hon) as Hlen. rewrite Hc, length_fmap, Hlen in Hl. rewrite <- Hl in *.
    apply (fit_put m m' st gs n Hnd); [|done|done].
    intros g Hg. apply list_elem_of_lookup in Hg as (i & Hi).
    destruct (Forall2_lookup_r _ _ _ _ _ Hon Hi) as (c & _ & sg & -> & _). by eexists.
Qed.

Lemma free_slots_ok m st out w l n :
  pool m st (concat (map slot_chunks l) ++ out) → Forall (slot_wf st w) l →
  slots_fit (counts m st) w n →
  ∃ m', free_slots m l = Some m' ∧ pool m' st out ∧
    slots_fit (counts m' st) w (n + Z.of_nat (length l)).
Proof.
  intros P Hl. revert m n P. induction Hl as [|s l Hs Hl IH]; intros m n P Hfit.
  { exists m. cbn. by rewrite Z.add_0_r. }
  change (concat _) with (slot_chunks s ++ concat (map slot_chunks l)) in P. rewrite <- app_assoc in P.
  destruct (slot_free_ok m st _ w s n P Hs Hfit) as (m1 & E & P1 & Hfit1).
  destruct (IH m1 _ P1 Hfit1) as (m2 & E2 & P2 & Hfit2). exists m2. cbn [free_slots]. rewrite E. returned.
  split_and!; [done|done|]. simpl length. by replace (n + _) with (n + 1 + Z.of_nat (length l)) by lia.
Qed.

(** ** Volumes *)

Definition volume_chunks (av : assembly_volume_t) : list chunk_t := concat (map slot_chunks (slots av)).

Record volume_wf (st : storage_t) (w : Z) (av : assembly_volume_t) : Prop := {
  vw_total : total_slots_count av = Z.of_nat (length (slots av));
  vw_slots : Forall (slot_wf st w) (slots av)
}.

(** What is left is the closed formula of the prediction. *)
Lemma available_ok (Q : Qsort) ag m st out :
  pool m st out → 0 < slot_width ag →
  ∃ p, assembly_group_get_available_slots_count ag m st = Some p ∧
    max_slots (counts m st) (slot_width ag) p.
Proof.
  intros P Hw. unfold assembly_group_get_available_slots_count.
  rewrite (take_groups st (po_st _ _ _ P)).
  assert (E : per_spof_chunk_count m (spof_groups st) = Some (counts m st)).
  { unfold counts. assert (Hl : ∀ sg, sg ∈ spof_groups st → spof_group_free_chunk_count m sg = Some (group_free m sg)).
    { intros sg Hsg. apply list_elem_of_lookup in Hsg as (i & Hi). by eapply group_free_count. }
    revert Hl. generalize (spof_groups st). intros l. induction l as [|sg l IH]; intros Hl; [done|].
    cbn [per_spof_chunk_count map]. rewrite Hl by left. returned. rewrite IH; [done|].
    intros sg' Hsg. apply Hl. by right. }
  rewrite E. returned. rewrite (sw_num st (po_st _ _ _ P)), <- (length_map (group_free m) (spof_groups st)).
  pose proof (counts_sum m st out P) as Hs.
  pose proof (sw_max st (po_st _ _ _ P)) as Hmax. rewrite (sw_num st (po_st _ _ _ P)) in Hmax.
  unfold EXA_MAX_NODES_NUMBER in Hmax.
  apply predict_ok; [by eapply counts_nonneg, P|fold (counts m st); lia|unfold counts; rewrite length_map; lia|done].
Qed.

Section resize.
Context (Q : Qsort) (m : mem) (st : storage_t) (av : assembly_volume_t) (out : list chunk_t) (w p : Z).
Context (P : pool m st (volume_chunks av ++ out)) (Hw : 0 < w) (Hav : volume_wf st w av).
Context (Hmax : max_slots (counts m st) w p).

Lemma resize_grow new :
  total_slots_count av < new <= total_slots_count av + p →
  ∃ m' l, assembly_volume_resize true m st av w new =
      Some (m', mk_av (av_uuid av) (slots av ++ l) new, Ok tt) ∧
    volume_wf st w (mk_av (av_uuid av) (slots av ++ l) new) ∧
    pool m' st (volume_chunks (mk_av (av_uuid av) (slots av ++ l) new) ++ out) ∧
    max_slots (counts m' st) w (p - (new - total_slots_count av)).
Proof using P Hw Hav Hmax.
  intros Hnew. destruct Hav as [Ht Hs].
  destruct (make_slots_ok Q (Z.to_nat (new - total_slots_count av)) m st _ w p P Hw Hmax)
    as (m' & l & E & Hl & Hwf & P' & Hmax'); [lia|].
  exists m', l. unfold assembly_volume_resize. replace (new =? _) with false by lia. cbn [negb].
  replace (_ <? new) with true by lia. rewrite E. returned. split_and!.
  - rewrite Z.min_r, Ht, Nat2Z.id, firstn_all by lia. done.
  - split; simpl; [rewrite length_app; lia|by apply Forall_app].
  - unfold volume_chunks. cbn [slots]. rewrite map_app, concat_app.
    by rewrite (Permutation_app_comm (concat _) (concat (map _ l))), <- app_assoc.
  - by rewrite Z2Nat.id in Hmax' by lia.
Qed.

Lemma resize_shrink new :
  0 <= new < total_slots_count av →
  ∃ m' av', assembly_volume_resize true m st av w new = Some (m', av', Ok tt) ∧
    av' = mk_av (av_uuid av) (take (Z.to_nat new) (slots av)) new ∧ volume_wf st w av' ∧
    pool m' st (volume_chunks av' ++ out) ∧
    slots_fit (counts m' st) w (p + (total_slots_count av - new)).
Proof using P Hav Hmax.
  intros Hnew. destruct Hav as [Ht Hs]. destruct Hmax as (_ & Hfit & _).
  assert (P1 : pool m st (concat (map slot_chunks (drop (Z.to_nat new) (slots av))) ++
    concat (map slot_chunks (take (Z.to_nat new) (slots av))) ++ out)).
  { rewrite app_assoc, (Permutation_app_comm (concat _)), <- concat_app, <- map_app, take_drop. done. }
  assert (Hd : Forall (slot_wf st w) (drop (Z.to_nat new) (slots av))) by by apply Forall_drop.
  destruct (free_slots_ok m st _ w _ p P1 Hd Hfit) as (m' & E & P2 & Hfit2).
  exists m'. eexists. split_and!; [|reflexivity|..].
  - unfold assembly_volume_resize. replace (new =? _) with false by lia. cbn [negb].
    replace (_ <? new) with false by lia.
    rewrite (take_ge (drop _ _)) by (rewrite length_drop; lia). rewrite E. returned.
    by rewrite Z.min_l by lia.
  - split; simpl; [rewrite length_take; lia|by apply Forall_take].
  - done.
  - by rewrite length_drop, Nat2Z.inj_sub, <- Ht, Z2Nat.id in Hfit2 by lia.
Qed.

Lemma resize_abort new :
  total_slots_count av + p < new → assembly_volume_resize true m st av w new = None.
Proof using P Hw Hmax.
  intros Hnew. pose proof (proj1 Hmax). unfold assembly_volume_resize. replace (new =? _) with false by lia.
  cbn [negb]. replace (_ <? new) with true by lia.
  by rewrite (make_slots_none Q _ m st _ w p P Hw Hmax) by lia.
Qed.
End resize.

(** ** Groups *)

Definition ag_chunks (ag : assembly_group_t) : list chunk_t := concat (map volume_chunks (subspaces ag)).

Definition set_volume (ag : assembly_group_t) (i : nat) (av : assembly_volume_t) : assembly_group_t :=
  mk_ag (initialized ag) (slot_size ag) (slot_width ag) (<[i := av]> (subspaces ag)) (num_subspaces ag).

Record ag_wf (st : storage_t) (ag : assembly_group_t) : Prop := {
  aw_width : 0 < slot_width ag;
  aw_vols : Forall (volume_wf st (slot_width ag)) (subspaces ag)
}.

Definition used_slots (ag : assembly_group_t) : Z := zsum (map total_slots_count (subspaces ag)).

(** Chunks that are out number less than the chunks of the storage. *)
Lemma out_split (ps : list Z) (out : list chunk_t) :
  NoDup ps → Forall (λ c, c_rdev c ∈ ps) out →
  Z.of_nat (length out) = zsum (map (λ p, Z.of_nat (length (filter (λ c, c_rdev c = p) out))) ps).
Proof.
  intros Hnd. induction 1 as [|c out Hc Hout IH].
  { rewrite (zsum_map_const 0). cbn. lia. }
  rewrite (map_ext _ (λ p, Z.of_nat (length (filter (λ c, c_rdev c = p) out)) +
    (if decide (p = c_rdev c) then 1 else 0))).
  - rewrite zsum_map_point, decide_True, <- IH by done. simpl. lia.
  - intros p. rewrite filter_cons. destruct (decide (p = c_rdev c)) as [->|Hne].
    + rewrite decide_True by done. simpl. lia.
    + rewrite decide_False by congruence. lia.
Qed.

Lemma storage_rdevs_elem st p :
  p ∈ storage_rdevs st ↔ ∃ sg, sg ∈ spof_groups st ∧ p ∈ sg_rdevs sg.
Proof.
  unfold storage_rdevs. rewrite list_elem_of_In, in_concat. split.
  - intros (l & Hl & Hp). apply list_elem_of_In, list_elem_of_fmap in Hl as (sg & -> & Hsg).
    exists sg. split; [done|by apply list_elem_of_In].
  - intros (sg & Hsg & Hp). exists (sg_rdevs sg). rewrite <- !list_elem_of_In. split; [|done].
    apply list_elem_of_fmap. by exists sg.
Qed.

Lemma out_bound m st out :
  pool m st out → Forall (λ c, c_rdev c ∈ storage_rdevs st) out → Z.of_nat (length out) < 2 ^ 31.
Proof.
  intros P Hout. rewrite (out_split _ _ (po_nodup _ _ _ P) Hout).
  eapply Z.le_lt_trans; [|apply (po_size _ _ _ P)]. apply zsum_map_le, Forall_forall.
  intros p (sg & Hsg & Hp)%storage_rdevs_elem.
  destruct (po_mem _ _ _ P sg Hsg p Hp) as [r Hr]. unfold total_of. rewrite Hr. simpl.
  pose proof (lg_count _ _ (po_lg _ _ _ P) p r Hr).
  pose proof (free_count_bounds r (lg_rdev _ _ (po_lg _ _ _ P) p r Hr)). lia.
Qed.

Lemma slot_chunks_in st w s :
  slot_wf st w s → Forall (λ c, c_rdev c ∈ storage_rdevs st) (slot_chunks s) ∧
  Z.of_nat (length (slot_chunks s)) = w.
Proof.
  intros [Hc _ Hl (gs & _ & Hon)]. split; [|by rewrite Hc, length_fmap in Hl].
  apply Forall_forall. intros c Hin. apply list_elem_of_lookup in Hin as (i & Hi).
  destruct (Forall2_lookup_l _ _ _ _ _ Hon Hi) as (g & _ & sg & Hsg & Hr).
  apply storage_rdevs_elem. exists sg. split; [by eapply list_elem_of_lookup_2|done].
Qed.

Lemma volume_chunks_in st w av :
  volume_wf st w av → Forall (λ c, c_rdev c ∈ storage_rdevs st) (volume_chunks av) ∧
  Z.of_nat (length (volume_chunks av)) = total_slots_count av * w.
Proof.
  intros [-> Hs]. unfold volume_chunks. induction Hs as [|s l Hs _ [IH1 IH2]]; [done|].
  destruct (slot_chunks_in st w s Hs) as [H1 H2]. cbn [map concat]. split.
  - by apply Forall_app.
  - rewrite length_app. simpl length. lia.
Qed.

Lemma ag_chunks_in st ag :
  ag_wf st ag → Forall (λ c, c_rdev c ∈ storage_rdevs st) (ag_chunks ag) ∧
  Z.of_nat (length (ag_chunks ag)) = used_slots ag * slot_width ag.
Proof.
  intros [_ Hv]. unfold ag_chunks, used_slots.
  induction Hv as [|av l Hav _ [IH1 IH2]]; [done|].
  destruct (volume_chunks_in st _ av Hav) as [H1 H2]. cbn [map concat]. split.
  - by apply Forall_app.
  - rewrite length_app, zsum_cons. lia.
Qed.

Lemma used_slots_ok m st ag :
  pool m st (ag_chunks ag) → ag_wf st ag →
  assembly_group_get_used_slots_count ag = used_slots ag ∧ 0 <= used_slots ag < 2 ^ 31.
Proof.
  intros P Hag. destruct (ag_chunks_in st ag Hag) as [Hin Hlen]. pose proof (out_bound _ _ _ P Hin).
  pose proof (aw_width _ _ Hag).
  assert (Hnn : Forall (λ av, 0 <= total_slots_count av) (subspaces ag)).
  { eapply Forall_impl; [apply (aw_vols _ _ Hag)|]. intros av [Ht _]. simpl. lia. }
  assert (Hb : 0 <= used_slots ag < 2 ^ 31).
  { split; [by apply zsum_nonneg, Forall_map|nia]. }
  split; [|done]. unfold assembly_group_get_used_slots_count, used_slots in *.
  assert (Hf : ∀ s, 0 <= s → s + zsum (map total_slots_count (subspaces ag)) < 2 ^ 64 →
    foldl (λ n av, u64 (n + total_slots_count av)) s (subspaces ag) =
    s + zsum (map total_slots_count (subspaces ag))); [|rewrite Hf; lia].
  clear Hb Hlen Hin P Hag. induction Hnn as [|av l Hav Hl IH]; intros s Hs Hlt; [cbn; lia|].
  cbn [map foldl] in *. rewrite zsum_cons in *.
  assert (0 <= zsum (map total_slots_count l)) by by apply zsum_nonneg, Forall_map.
  rewrite u64_id by (unfold fits; lia). rewrite IH; lia.
Qed.

Lemma max_slots_bound m st out w p :
  pool m st out → 0 < w → max_slots (counts m st) w p → 0 <= p < 2 ^ 31.
Proof.
  intros P Hw (Hp & Hfit & _). split; [done|]. pose proof (counts_sum m st out P) as Hs.
  unfold slots_fit in Hfit.
  assert (zsum (map (λ x, Z.min x p) (counts m st)) <= zsum (map id (counts m st))) as Hle.
  { apply zsum_map_le, Forall_forall. intros x _. unfold id. lia. }
  rewrite map_id in Hle. nia.
Qed.

Lemma max_count_ok (Q : Qsort) m st ag :
  pool m st (ag_chunks ag) → ag_wf st ag →
  ∃ p, assembly_group_get_available_slots_count ag m st = Some p ∧
    max_slots (counts m st) (slot_width ag) p ∧ 0 <= p < 2 ^ 31 ∧
    assembly_group_get_max_slots_count ag m st = Some (p + used_slots ag).
Proof.
  intros P Hag. pose proof (aw_width _ _ Hag) as Hw.
  destruct (available_ok Q ag m st _ P Hw) as (p & E & Hmax). exists p.
  pose proof (max_slots_bound _ _ _ _ _ P Hw Hmax).
  destruct (used_slots_ok m st ag P Hag) as [Eu Hu].
  split_and!; try done; try lia. unfold assembly_group_get_max_slots_count. rewrite E, Eu. returned.
  by rewrite u64_id by (unfold fits; lia).
Qed.

(** The chunks of a volume and those of the others. *)
Lemma ag_chunks_at l i av :
  l !! i = Some av →
  concat (map volume_chunks l) ≡ₚ volume_chunks av ++ concat (map volume_chunks (delete i l)).
Proof. intros Hi. rewrite (delete_Permutation l i av Hi) at 1. done. Qed.

Lemma ag_chunks_set ag i av av' :
  subspaces ag !! i = Some av →
  ag_chunks (set_volume ag i av') ≡ₚ
  volume_chunks av' ++ concat (map volume_chunks (delete i (subspaces ag))).
Proof.
  intros Hi. unfold ag_chunks, set_volume. cbn [subspaces].
  rewrite (ag_chunks_at _ i av') by (by eapply list_lookup_insert_eq, lookup_lt_Some).
  rewrite !delete_take_drop, take_insert_ge, drop_insert_lt by lia. done.
Qed.

Lemma ag_wf_set st ag i av' :
  ag_wf st ag → volume_wf st (slot_width ag) av' → ag_wf st (set_volume ag i av').
Proof. intros [] Hv. split; [done|]. simpl. by apply Forall_insert. Qed.

Lemma available_max (Q : Qsort) ag m st out p :
  pool m st out → 0 < slot_width ag → max_slots (counts m st) (slot_width ag) p →
  assembly_group_get_available_slots_count ag m st = Some p.
Proof.
  intros P Hw Hmax. destruct (available_ok Q ag m st out P Hw) as (p' & -> & Hmax').
  f_equal. by eapply max_slots_unique.
Qed.

Lemma available_fit (Q : Qsort) ag m st out s :
  pool m st out → 0 < slot_width ag → slots_fit (counts m st) (slot_width ag) s →
  ∃ p, assembly_group_get_available_slots_count ag m st = Some p ∧ s <= p.
Proof.
  intros P Hw Hfit. destruct (available_ok Q ag m st out P Hw) as (p & E & _ & _ & Hmax).
  exists p. split; [done|]. destruct (Z.le_gt_cases s p) as [|Hlt]; [done|]. by apply Hmax in Hlt.
Qed.

(** ** Properties *)

(** Making a slot. When the number of slots that the group announces as
    available is positive, [slot_make] passes all its assertions and gives a
    slot of [slot_width] chunks on different SPOF groups, none of which was in
    use; the announced number decreases by exactly one. When it is zero, making
    a slot is a failed assertion. *)
Theorem slot_make_spreads (Q : Qsort) ag m st out :
  pool m st out → 0 < slot_width ag →
  ∃ p, assembly_group_get_available_slots_count ag m st = Some p ∧
    (0 < p → ∃ m' s, slot_make m st (slot_width ag) = Some (m', s) ∧
       Z.of_nat (length (slot_chunks s)) = slot_width ag ∧ s_chunks s = Some <$> slot_chunks s ∧
       spread st (slot_chunks s) ∧ (∀ c, c ∈ slot_chunks s → c ∉ out) ∧
       pool m' st (slot_chunks s ++ out) ∧
       assembly_group_get_available_slots_count ag m' st = Some (p - 1)) ∧
    (p = 0 → slot_make m st (slot_width ag) = None).
Proof.
  intros P Hw. destruct (available_ok Q ag m st out P Hw) as (p & E & Hmax). exists p.
  split_and!; [done| |intros ->; by eapply slot_make_none].
  intros Hp. destruct (slot_make_ok Q m st out P _ p Hw Hmax Hp) as (m' & s & Es & Hs & P' & Hmax').
  exists m', s. split_and!; [done|by apply slot_chunks_in with st|by apply Hs|by apply Hs| |done|].
  - intros c Hc Ho. pose proof (lg_nodup _ _ (po_lg _ _ _ P')) as (_ & Hd & _)%NoDup_app. by apply (Hd c).
  - by eapply available_max.
Qed.

Definition slot_mem : mem :=
  <[1 := example_rdev 11 65570]> (<[2 := example_rdev 22 65552]> (<[3 := example_rdev 33 65576]> ∅)).

Definition slot_storage : storage_t :=
  mk_storage [example_group 5 [1]; example_group 9 [2]; example_group 3 [3]] 3 4.

Definition slot_group : assembly_group_t := mk_ag true 16 2 [] 0.

Lemma slot_pool : pool slot_mem slot_storage [].
Proof.
  assert (Hg : ∀ sg, sg ∈ spof_groups slot_storage → group_wf sg ∧ in_mem slot_mem sg).
  { intros sg Hsg. change (spof_groups slot_storage) with
      [example_group 5 [1]; example_group 9 [2]; example_group 3 [3]] in Hsg.
    repeat (apply elem_of_cons in Hsg as [->|Hsg]; [split; [by apply example_group_wf; simpl; lia|];
      intros p Hp; by apply list_elem_of_singleton in Hp as ->|]). by apply elem_of_nil in Hsg. }
  split.
  - split; [done|done| |by apply (bool_decide_eq_true_1 (NoDup [5; 9; 3]))|by repeat constructor].
    apply Forall_forall. intros sg Hsg. by apply Hg.
  - apply (ledger_cut slot_mem 8); [done|]. intros p r. unfold slot_mem.
    rewrite !lookup_insert_Some, lookup_empty. unfold example_rdev.
    intros [[_ <-]|[_ [[_ <-]|[_ [[_ <-]|[_ ?]]]]]]; [..|done]; eexists; (split; [reflexivity|]);
      by vm_compute.
  - intros sg Hsg. by apply Hg.
  - by apply (bool_decide_eq_true_1 (NoDup [1; 2; 3])).
  - by vm_compute.
  - by repeat constructor.
Qed.

Lemma slot_make_spreads_witness :
  @assembly_group_get_available_slots_count isort_qsort slot_group slot_mem slot_storage = Some 5 ∧
  ∃ p, @assembly_group_get_available_slots_count isort_qsort slot_group slot_mem slot_storage = Some p ∧
    (p = 0 → @slot_make isort_qsort slot_mem slot_storage 2 = None).
Proof.
  split; [vm_compute; reflexivity|].
  destruct (slot_make_spreads isort_qsort slot_group slot_mem slot_storage []) as (p & E & _ & H0).
  - exact slot_pool.
  - vm_compute. reflexivity.
  - exists p. exact (conj E H0).
Defined.

(** The test on the number of slots, and what follows it. *)
Lemma group_resize_unfold (Q : Qsort) alloc m st ag av new :
  pool m st (ag_chunks ag) → ag_wf st ag →
  ∃ p, assembly_group_get_available_slots_count ag m st = Some p ∧
    max_slots (counts m st) (slot_width ag) p ∧ 0 <= p ∧
    assembly_group_resize_volume alloc m st ag av new =
    if p + used_slots ag <? new then Some (m, av, Err VRT_ERR_NOT_ENOUGH_FREE_SC)
    else assembly_volume_resize alloc m st av (slot_width ag) new.
Proof.
  intros P Hag. destruct (max_count_ok Q m st ag P Hag) as (p & E & Hmax & Hp & Em).
  exists p. split_and!; try done; [lia|]. unfold assembly_group_resize_volume. by rewrite Em.
Qed.

Lemma volume_empty_wf st w uuid : volume_wf st w (mk_av uuid [] 0).
Proof. by split. Qed.

Lemma insert_volume_chunks ag av :
  ag_chunks (assembly_group_insert_volume ag av) ≡ₚ volume_chunks av ++ ag_chunks ag.
Proof.
  unfold ag_chunks. cbn [assembly_group_insert_volume subspaces]. rewrite map_app, concat_app.
  rewrite Permutation_app_comm. cbn. by rewrite app_nil_r.
Qed.

Lemma insert_volume_wf st ag av :
  ag_wf st ag → volume_wf st (slot_width ag) av → ag_wf st (assembly_group_insert_volume ag av).
Proof. intros [] Hv. split; [done|]. simpl. apply Forall_app. by rewrite Forall_singleton. Qed.

Lemma reserve_ok (Q : Qsort) m st ag uuid nb p :
  pool m st (ag_chunks ag) → ag_wf st ag →
  assembly_group_get_available_slots_count ag m st = Some p → 0 <= nb <= p →
  ∃ m' av, assembly_group_reserve_volume true true m st ag uuid nb =
      Some (m', assembly_group_insert_volume ag av, Ok av) ∧
    av_uuid av = uuid ∧ total_slots_count av = nb ∧ volume_wf st (slot_width ag) av ∧
    ag_wf st (assembly_group_insert_volume ag av) ∧
    pool m' st (ag_chunks (assembly_group_insert_volume ag av)) ∧
    assembly_group_get_available_slots_count ag m' st = Some (p - nb).
Proof.
  intros P Hag E Hnb. set (av0 := mk_av uuid [] 0). pose proof (aw_width _ _ Hag) as Hw.
  destruct (used_slots_ok m st ag P Hag) as [_ Hu].
  destruct (group_resize_unfold Q true m st ag av0 nb P Hag) as (p' & E' & Hmax & Hp & Er).
  assert (p' = p) as -> by congruence. replace (_ <? nb) with false in Er by lia.
  unfold assembly_group_reserve_volume, assembly_volume_alloc. fold av0. rewrite Er.
  destruct (decide (nb = 0)) as [->|Hne].
  - exists m, av0. rewrite Z.sub_0_r. split_and!; try done; [by apply insert_volume_wf|].
    by rewrite insert_volume_chunks.
  - destruct (resize_grow Q m st av0 (ag_chunks ag) (slot_width ag) p P Hw
      (volume_empty_wf _ _ _) Hmax nb) as (m' & l & El & Hv & P' & Hmax'); [simpl; lia|].
    rewrite El. exists m', (mk_av uuid l nb).
    split_and!; try done; [by apply insert_volume_wf|by rewrite insert_volume_chunks|].
    simpl in Hmax'. rewrite Z.sub_0_r in Hmax'. by eapply available_max.
Qed.

(** C15: reserving a volume. The number of slots that the group announces as
    available is exact: reserving at most that many makes a volume of that
    many slots, each on different SPOF groups, whose chunks belong to no other
    volume, and the announced number decreases by the size of the volume. A
    demand above the total capacity is refused, and a demand refused or whose
    allocation fails changes nothing. *)
Theorem reserve_volume_exact (Q : Qsort) m st ag uuid nb :
  pool m st (ag_chunks ag) → ag_wf st ag → 0 <= nb →
  ∃ p, assembly_group_get_available_slots_count ag m st = Some p ∧
    (nb <= p → ∃ m' av,
       assembly_group_reserve_volume true true m st ag uuid nb =
         Some (m', assembly_group_insert_volume ag av, Ok av) ∧
       av_uuid av = uuid ∧ total_slots_count av = nb ∧ volume_wf st (slot_width ag) av ∧
       ag_wf st (assembly_group_insert_volume ag av) ∧
       pool m' st (ag_chunks (assembly_group_insert_volume ag av)) ∧
       assembly_group_get_available_slots_count ag m' st = Some (p - nb)) ∧
    (∀ a1 a2, p + assembly_group_get_used_slots_count ag < nb → a1 = true →
       assembly_group_reserve_volume a1 a2 m st ag uuid nb =
         Some (m, ag, Err VRT_ERR_NOT_ENOUGH_FREE_SC)) ∧
    (∀ a1 a2, 0 < nb <= p → a1 && a2 = false →
       assembly_group_reserve_volume a1 a2 m st ag uuid nb = Some (m, ag, Err ENOMEM)).
Proof.
  intros P Hag Hnb. set (av0 := mk_av uuid [] 0). pose proof (aw_width _ _ Hag) as Hw.
  destruct (used_slots_ok m st ag P Hag) as [-> Hu].
  destruct (group_resize_unfold Q true m st ag av0 nb P Hag) as (p & E & Hmax & Hp & Er).
  exists p. split_and!; [done|..].
  - intros Hle. by apply reserve_ok.
  - intros ? a2 Hlt ->. unfold assembly_group_reserve_volume, assembly_volume_alloc. fold av0.
    destruct (group_resize_unfold Q a2 m st ag av0 nb P Hag) as (p' & E' & _ & _ & ->).
    simplify_eq. by replace (_ <? nb) with true by lia.
  - intros a1 a2 Hle Ha. unfold assembly_group_reserve_volume, assembly_volume_alloc. fold av0.
    destruct a1; [|done]. destruct a2; [done|].
    destruct (group_resize_unfold Q false m st ag av0 nb P Hag) as (p' & E' & _ & _ & ->).
    simplify_eq. replace (_ <? nb) with false by lia. unfold assembly_volume_resize.
    by replace (nb =? _) with false by (simpl; lia).
Qed.

Lemma slot_group_wf : ag_wf slot_storage slot_group.
Proof. by split. Qed.

Lemma reserve_volume_exact_witness :
  @assembly_group_get_available_slots_count isort_qsort slot_group slot_mem slot_storage = Some 5 ∧
  ∃ m' av, @assembly_group_reserve_volume isort_qsort true true slot_mem slot_storage slot_group [7; 0; 0; 0] 4
    = Some (m', assembly_group_insert_volume slot_group av, Ok av) ∧ total_slots_count av = 4.
Proof.
  split; [vm_compute; reflexivity|].
  destruct (reserve_volume_exact isort_qsort slot_mem slot_storage slot_group [7; 0; 0; 0] 4)
    as (p & E & Hok & _).
  - exact slot_pool.
  - exact slot_group_wf.
  - lia.
  - assert (p = 5) as -> by (vm_compute in E; congruence).
    destruct Hok as (m' & av & Er & _ & Ht & _); [lia|]. exists m', av. exact (conj Er Ht).
Defined.

(** C32: resizing a volume. A volume of a group can be resized to any number of
    slots up to its own plus those announced as available. Growing keeps the
    slots it has and takes exactly the announced ones; shrinking keeps the
    first slots and gives back at least as many slots as it drops. In both
    cases the chunks of the other volumes are untouched and no chunk is in two
    slots. *)
Theorem resize_volume_exact (Q : Qsort) m st ag i av new :
  pool m st (ag_chunks ag) → ag_wf st ag → subspaces ag !! i = Some av → 0 <= new →
  ∃ p, assembly_group_get_available_slots_count ag m st = Some p ∧
    (new <= total_slots_count av + p → ∃ m' av',
       assembly_group_resize_volume true m st ag av new = Some (m', av', Ok tt) ∧
       total_slots_count av' = new ∧
       take (Z.to_nat (Z.min new (total_slots_count av))) (slots av') =
         take (Z.to_nat (Z.min new (total_slots_count av))) (slots av) ∧
       ag_wf st (set_volume ag i av') ∧ pool m' st (ag_chunks (set_volume ag i av')) ∧
       ∃ p', assembly_group_get_available_slots_count ag m' st = Some p' ∧
         if total_slots_count av <=? new then p' = p - (new - total_slots_count av)
         else p + (total_slots_count av - new) <= p').
Proof.
  intros P Hag Hi Hnew. pose proof (aw_width _ _ Hag) as Hw.
  destruct (group_resize_unfold Q true m st ag av new P Hag) as (p & E & Hmax & Hp & Er).
  exists p. split; [done|]. intros Hle.
  pose proof (Forall_lookup_1 _ _ _ _ (aw_vols _ _ Hag) Hi) as Hav.
  destruct (used_slots_ok m st ag P Hag) as [_ Hu].
  assert (Hle' : total_slots_count av <= used_slots ag).
  { apply zsum_elem; [|apply list_elem_of_fmap; exists av; split; [done|by eapply list_elem_of_lookup_2]].
    apply Forall_map. eapply Forall_impl; [apply (aw_vols _ _ Hag)|]. intros v [Ht _]. simpl. lia. }
  replace (_ <? new) with false in Er by lia. rewrite Er. clear Er.
  pose proof P as P0. unfold ag_chunks in P0. rewrite (ag_chunks_at _ i av Hi) in P0.
  pose proof (vw_total _ _ _ Hav) as Ht.
  destruct (Z.lt_trichotomy new (total_slots_count av)) as [Hlt|[->|Hgt]].
  - destruct (resize_shrink Q m st av _ _ p P0 Hav Hmax new) as (m' & av' & Er & Eav & Hwf & P' & Hfit); [lia|].
    exists m', av'. subst av'. split_and!; try done.
    + rewrite Z.min_l by lia. cbn [slots]. by rewrite take_take, Nat.min_id.
    + by apply ag_wf_set.
    + by rewrite (ag_chunks_set ag i av).
    + replace (_ <=? new) with false by lia. by eapply available_fit.
  - exists m, av. unfold assembly_volume_resize. rewrite Z.eqb_refl. split_and!; try done.
    + by apply ag_wf_set.
    + by rewrite (ag_chunks_set ag i av).
    + exists p. rewrite Z.leb_refl. split; [done|lia].
  - destruct (resize_grow Q m st av _ _ p P0 Hw Hav Hmax new) as (m' & l & Er & Hwf & P' & Hmax'); [lia|].
    exists m'. eexists. split_and!; [done|done|..].
    + rewrite Z.min_r by lia. cbn [slots]. by rewrite take_app_le by lia.
    + by apply ag_wf_set.
    + by rewrite (ag_chunks_set ag i av).
    + eexists. split; [by eapply available_max|]. by replace (_ <=? new) with true by lia.
Qed.

Definition reserved (st : storage_t) (m : mem) (ag : assembly_group_t) (uuid : exa_uuid_t) (nb : Z)
    : mem * assembly_group_t :=
  match @assembly_group_reserve_volume isort_qsort true true m st ag uuid nb with
  | Some (m', ag', _) => (m', ag')
  | None => (m, ag)
  end.

(** A group of one volume of two slots. *)
Definition one_volume : mem * assembly_group_t := reserved slot_storage slot_mem slot_group [7; 0; 0; 0] 2.

Lemma reserved_ok st m ag uuid nb p :
  pool m st (ag_chunks ag) → ag_wf st ag →
  @assembly_group_get_available_slots_count isort_qsort ag m st = Some p → 0 <= nb <= p →
  pool (reserved st m ag uuid nb).1 st (ag_chunks (reserved st m ag uuid nb).2) ∧
  ag_wf st (reserved st m ag uuid nb).2.
Proof.
  intros P Hag E Hnb. unfold reserved.
  destruct (reserve_ok isort_qsort m st ag uuid nb p P Hag E Hnb) as (m' & av & -> & _ & _ & _ & H).
  split; apply H.
Qed.

Lemma one_volume_ok :
  pool one_volume.1 slot_storage (ag_chunks one_volume.2) ∧ ag_wf slot_storage one_volume.2.
Proof.
  apply (reserved_ok slot_storage slot_mem slot_group _ 2 5 slot_pool slot_group_wf); [by vm_compute|lia].
Qed.

Lemma one_volume_av :
  ∃ av, subspaces one_volume.2 !! O = Some av ∧ total_slots_count av = 2.
Proof.
  assert (H : total_slots_count <$> subspaces one_volume.2 !! O = Some 2) by (vm_compute; reflexivity).
  destruct (subspaces one_volume.2 !! O) as [av|]; [|done]. exists av. split; [done|]. by injection H.
Qed.

Lemma one_volume_available :
  @assembly_group_get_available_slots_count isort_qsort one_volume.2 one_volume.1 slot_storage = Some 3.
Proof. vm_compute. reflexivity. Qed.

Lemma resize_volume_exact_witness :
  ∃ av m' av', subspaces one_volume.2 !! O = Some av ∧
    @assembly_group_resize_volume isort_qsort true one_volume.1 slot_storage one_volume.2 av 5 =
      Some (m', av', Ok tt) ∧ total_slots_count av' = 5.
Proof.
  destruct one_volume_av as (av & Eav & Ht).
  destruct (resize_volume_exact isort_qsort one_volume.1 slot_storage one_volume.2 O av 5) as (p & E & H).
  - exact (proj1 one_volume_ok).
  - exact (proj2 one_volume_ok).
  - exact Eav.
  - lia.
  - rewrite one_volume_available in E. injection E as <-.
    destruct H as (m' & av' & Er & Ht' & _); [lia|].
    exists av, m', av'. exact (conj Eav (conj Er Ht')).
Defined.

Lemma resize_zero (Q : Qsort) m st av out w p :
  pool m st (volume_chunks av ++ out) → volume_wf st w av → max_slots (counts m st) w p →
  ∃ m' av', assembly_volume_resize true m st av w 0 = Some (m', av', Ok tt) ∧ slots av' = [] ∧
    pool m' st out ∧ slots_fit (counts m' st) w (p + total_slots_count av).
Proof.
  intros P Hav Hmax. pose proof (vw_total _ _ _ Hav) as Ht.
  destruct (Z.eq_dec (total_slots_count av) 0) as [E0|E0].
  - assert (Es : slots av = []) by (apply nil_length_inv; lia).
    exists m, av. unfold assembly_volume_resize. rewrite E0, Z.add_0_r.
    unfold volume_chunks in P. rewrite Es in P. split_and!; try done. by apply Hmax.
  - destruct (resize_shrink Q m st av out w p P Hav Hmax 0) as (m' & av' & E & -> & _ & P' & Hfit); [lia|].
    rewrite Z.sub_0_r in Hfit. by eexists _, _.
Qed.

Lemma group_resize_zero (Q : Qsort) m st ag av out :
  pool m st out → 0 < slot_width ag →
  assembly_group_resize_volume true m st ag av 0 = assembly_volume_resize true m st av (slot_width ag) 0.
Proof.
  intros P Hw. unfold assembly_group_resize_volume, assembly_group_get_max_slots_count.
  destruct (available_ok Q ag m st out P Hw) as (p & -> & _). returned.
  returned. case_if; [|done]. pose proof (u64_fits (p + assembly_group_get_used_slots_count ag)) as [? _]. lia.
Qed.

(** Releasing a volume. When the allocator gives a block for a size of
    zero, releasing a volume of the group never fails: the volume leaves the
    group, its chunks are free again, the other volumes are untouched, and the
    group announces at least as many more slots as the volume had. *)
Theorem release_volume_returns (Q : Qsort) m st ag i av :
  pool m st (ag_chunks ag) → ag_wf st ag → subspaces ag !! i = Some av →
  ∃ m' ag' p p', assembly_group_release_volume true m st ag i = Some (m', ag') ∧
    subspaces ag' = delete i (subspaces ag) ∧ ag_wf st ag' ∧ pool m' st (ag_chunks ag') ∧
    assembly_group_get_available_slots_count ag m st = Some p ∧
    assembly_group_get_available_slots_count ag m' st = Some p' ∧
    p + total_slots_count av <= p'.
Proof.
  intros P Hag Hi. pose proof (aw_width _ _ Hag) as Hw.
  pose proof (Forall_lookup_1 _ _ _ _ (aw_vols _ _ Hag) Hi) as Hav.
  destruct (available_ok Q ag m st _ P Hw) as (p & E & Hmax).
  pose proof P as P0. unfold ag_chunks in P0. rewrite (ag_chunks_at _ i av Hi) in P0.
  unfold assembly_group_release_volume, assembly_group_remove_volume. rewrite Hi. returned.
  set (ag' := mk_ag _ _ _ _ _). returned.
  assert (Hag' : ag_wf st ag').
  { split; [done|]. subst ag'. cbn [subspaces]. rewrite <- delete_take_drop. apply Forall_delete, Hag. }
  assert (Esub : subspaces ag' = delete i (subspaces ag)) by (symmetry; apply delete_take_drop).
  rewrite (group_resize_zero Q m st ag' av _ P Hw).
  destruct (resize_zero Q m st av _ _ p P0 Hav Hmax) as (m' & av' & Er & Es & P' & Hfit).
  change (slot_width ag') with (slot_width ag). rewrite Er. returned.
  unfold assembly_volume_free. rewrite Es, take_nil. cbn [free_slots]. returned.
  destruct (available_fit Q ag m' st _ _ P' Hw Hfit) as (p' & E' & Hle).
  exists m', ag', p, p'. split_and!; try done. unfold ag_chunks. by rewrite Esub.
Qed.

Lemma release_volume_returns_witness :
  ∃ m' ag', @assembly_group_release_volume isort_qsort true one_volume.1 slot_storage one_volume.2 O =
    Some (m', ag') ∧ subspaces ag' = delete O (subspaces one_volume.2).
Proof.
  destruct one_volume_av as (av & Eav & _).
  destruct (release_volume_returns isort_qsort one_volume.1 slot_storage one_volume.2 O av)
    as (m' & ag' & _ & _ & E & Es & _).
  - exact (proj1 one_volume_ok).
  - exact (proj2 one_volume_ok).
  - exact Eav.
  - exists m', ag'. exact (conj E Es).
Defined.

(** C38: the test of [assembly_group_resize_volume] is too weak when a group
    has several volumes. It compares the new size with the available slots plus
    the slots of all the volumes, not with the available slots plus those of
    the volume resized: as soon as another volume has a slot, a demand of one
    slot too many passes the test and ends in a failed assertion instead of
    the error that reports the lack of space. *)
Theorem resize_guard_too_weak (Q : Qsort) m st ag i j av av2 :
  pool m st (ag_chunks ag) → ag_wf st ag →
  subspaces ag !! i = Some av → subspaces ag !! j = Some av2 → i ≠ j → 0 < total_slots_count av2 →
  ∃ p, assembly_group_get_available_slots_count ag m st = Some p ∧
    assembly_group_resize_volume true m st ag av (total_slots_count av + p + 1) = None.
Proof.
  intros P Hag Hi Hj Hij Hpos. pose proof (aw_width _ _ Hag) as Hw.
  set (new := fun p => total_slots_count av + p + 1).
  destruct (available_ok Q ag m st _ P Hw) as (p & E & Hmax). exists p. split; [done|].
  destruct (group_resize_unfold Q true m st ag av (new p) P Hag) as (p' & E' & _ & Hp & Er).
  assert (p' = p) as -> by congruence. fold (new p). rewrite Er.
  assert (Hnn : ∀ l, Forall (volume_wf st (slot_width ag)) l → Forall (λ x, 0 <= x) (map total_slots_count l)).
  { intros l Hl. apply Forall_map. eapply Forall_impl; [exact Hl|]. intros v [Ht _]. simpl. lia. }
  assert (Hused : total_slots_count av + total_slots_count av2 <= used_slots ag).
  { unfold used_slots. rewrite (delete_Permutation _ i av Hi). cbn [map]. rewrite zsum_cons.
    assert (total_slots_count av2 <= zsum (map total_slots_count (delete i (subspaces ag)))); [|lia].
    apply zsum_elem; [apply Hnn, Forall_delete, Hag|]. apply list_elem_of_fmap. exists av2. split; [done|].
    apply (list_elem_of_lookup_2 _ (if decide (j < i)%nat then j else pred j)).
    destruct (decide (j < i)%nat).
    - by rewrite list_lookup_delete_lt.
    - rewrite list_lookup_delete_ge by lia. by replace (S (pred j)) with j by lia. }
  replace (_ <? new p) with false by (unfold new; lia).
  pose proof P as P0. unfold ag_chunks in P0. rewrite (ag_chunks_at _ i av Hi) in P0.
  apply (resize_abort Q m st av _ _ p P0 Hw Hmax). unfold new. lia.
Qed.

(** A group of two volumes of two slots and one slot. *)
Definition two_volumes : mem * assembly_group_t := reserved slot_storage one_volume.1 one_volume.2 [8; 0; 0; 0] 1.

Lemma two_volumes_ok :
  pool two_volumes.1 slot_storage (ag_chunks two_volumes.2) ∧ ag_wf slot_storage two_volumes.2.
Proof.
  destruct one_volume_ok as [P Hag]. apply (reserved_ok _ _ _ _ 1 3 P Hag one_volume_available). lia.
Qed.

Lemma resize_guard_too_weak_witness :
  ∃ av, subspaces two_volumes.2 !! O = Some av ∧ total_slots_count av = 2 ∧
    @assembly_group_get_available_slots_count isort_qsort two_volumes.2 two_volumes.1 slot_storage = Some 2 ∧
    @assembly_group_resize_volume isort_qsort true two_volumes.1 slot_storage two_volumes.2 av 5 = None.
Proof.
  assert (H0 : total_slots_count <$> subspaces two_volumes.2 !! O = Some 2) by (vm_compute; reflexivity).
  assert (H1 : total_slots_count <$> subspaces two_volumes.2 !! 1%nat = Some 1) by (vm_compute; reflexivity).
  assert (Ha : @assembly_group_get_available_slots_count isort_qsort two_volumes.2 two_volumes.1 slot_storage
    = Some 2) by (vm_compute; reflexivity).
  destruct (subspaces two_volumes.2 !! O) as [av|] eqn:E0; [|discriminate H0].
  destruct (subspaces two_volumes.2 !! 1%nat) as [av2|] eqn:E1; [|discriminate H1].
  injection H0 as H0. injection H1 as H1.
  destruct (resize_guard_too_weak isort_qsort two_volumes.1 slot_storage two_volumes.2 O 1 av av2)
    as (p & Ep & Er).
  - exact (proj1 two_volumes_ok).
  - exact (proj2 two_volumes_ok).
  - exact E0.
  - exact E1.
  - discriminate.
  - lia.
  - rewrite Ha in Ep. injection Ep as <-. rewrite H0 in Er.
    exists av. exact (conj eq_refl (conj H0 (conj Ha Er))).
Defined.
