(* ===== verification/SyncTag.v ===== *)
(** * Synchronisation tags of the rain1 layout

    Model of [vrt/layout/rain1/src/lay_rain1_sync_tag.c] and
    [lay_rain1_desync_info.c]: a tag is a 16 bit value that stands for a
    logical date and wraps around; the metadata of a dirty zone is a tag and a
    counter of pending writes. [None] is a failed assertion.

    The theorem relates the tags to unbounded dates: as long as two dates are
    not further apart than [SYNC_TAG_MAX_DIFF], comparing the tags compares the
    dates. *)

From S2P Require Import Prelude.
From stdpp Require Import options.

(** ** Definitions *)

Definition UINT16_MAX : Z := 65535.

Definition SYNC_TAG_MAX : Z := UINT16_MAX.
Definition SYNC_TAG_ZERO : Z := 1.
Definition SYNC_TAG_BLANK : Z := 0.
Definition SYNC_TAG_LAST : Z := SYNC_TAG_MAX - 1.
Definition SYNC_TAG_INTERVAL : Z := SYNC_TAG_LAST - SYNC_TAG_ZERO + 1.
Definition SYNC_TAG_GREY_ZONE : Z := 100.
Definition SYNC_TAG_MAX_DIFF : Z := (SYNC_TAG_INTERVAL - SYNC_TAG_GREY_ZONE) / 2.

Definition sync_tags_dist (tag1 tag2 : Z) : Z :=
  if tag2 <? tag1
  then u16 (Z.min (tag1 - tag2) ((tag2 + SYNC_TAG_INTERVAL) - tag1))
  else u16 (Z.min (tag2 - tag1) ((tag1 + SYNC_TAG_INTERVAL) - tag2)).

Definition sync_tags_diff (tag1 tag2 : Z) : Z :=
  if tag2 <? tag1 then
    if tag1 - tag2 <? (tag2 + SYNC_TAG_INTERVAL) - tag1 then tag1 - tag2
    else tag1 - tag2 - SYNC_TAG_INTERVAL
  else
    if tag2 - tag1 <? (tag1 + SYNC_TAG_INTERVAL) - tag2 then tag1 - tag2
    else tag1 - tag2 + SYNC_TAG_INTERVAL.

Definition sync_tags_are_comparable (tag1 tag2 : Z) : bool :=
  if (tag1 =? SYNC_TAG_BLANK) || (tag2 =? SYNC_TAG_BLANK)
     || (tag1 =? SYNC_TAG_MAX) || (tag2 =? SYNC_TAG_MAX)
  then true
  else sync_tags_dist tag1 tag2 <=? SYNC_TAG_MAX_DIFF.

Definition sync_tag_is_equal (tag1 tag2 : Z) : bool := tag1 =? tag2.

Definition sync_tag_is_greater (tag1 tag2 : Z) : option bool :=
  assert! (sync_tags_are_comparable tag1 tag2);
  if tag1 =? tag2 then Some false
  else if (tag1 =? SYNC_TAG_BLANK) || (tag2 =? SYNC_TAG_MAX) then Some false
  else if (tag1 =? SYNC_TAG_MAX) || (tag2 =? SYNC_TAG_BLANK) then Some true
  else Some (0 <? sync_tags_diff tag1 tag2).

Definition sync_tag_max (tag1 tag2 : Z) : option Z :=
  g ← sync_tag_is_greater tag1 tag2;
  Some (if (g : bool) then tag1 else tag2).

Definition sync_tag_inc (tag : Z) : Z :=
  if tag =? SYNC_TAG_MAX then SYNC_TAG_MAX
  else if tag =? SYNC_TAG_BLANK then SYNC_TAG_ZERO
  else if tag =? SYNC_TAG_LAST then SYNC_TAG_ZERO
  else u16 (tag + 1).

(** ** Dirty zone metadata *)

Record desync_info_t := mk_desync { d_sync_tag : Z; write_pending_counter : Z }.

Definition METADATA_BLOCK_SIZE : Z := 512.
Definition SIZEOF_DESYNC_INFO : Z := 4.
Definition DZONE_PER_METADATA_BLOCK : Z := METADATA_BLOCK_SIZE / SIZEOF_DESYNC_INFO.

Definition dzone_metadata_block_init (uptodate_tag : Z) : list desync_info_t :=
  replicate (Z.to_nat DZONE_PER_METADATA_BLOCK) (mk_desync uptodate_tag 0).

(** The loop on both arrays. *)
Fixpoint dzone_metadata_block_merge (merged_metadatas metadatas : list desync_info_t)
    : option (list desync_info_t) :=
  match merged_metadatas, metadatas with
  | a :: la, b :: lb =>
      tag ← sync_tag_max (d_sync_tag a) (d_sync_tag b);
      rest ← dzone_metadata_block_merge la lb;
      Some (mk_desync tag (Z.max (write_pending_counter a) (write_pending_counter b)) :: rest)
  | [], [] => Some []
  | _, _ => None
  end.

(** The private data that rain1 keeps with a slot; its lock and the two lists of
    waiting requests, empty at first, are left out.  A failed allocation is a
    failed assertion. *)
Record slot_desync_info_t := mk_slot_desync {
  ongoing_flush : bool;
  flush_needed : bool;
  in_memory_metadata : list desync_info_t;
  on_disk_metadata : list desync_info_t
}.

Definition slot_desync_info_alloc (allocated : bool) (sync_tag : Z) : option slot_desync_info_t :=
  assert! allocated;
  Some (mk_slot_desync false false (dzone_metadata_block_init sync_tag) (dzone_metadata_block_init sync_tag)).

(** [max_requests] is the value of [vrt_get_max_requests]. *)
Definition desync_info_is_valid (max_requests : Z) (d : desync_info_t) (current_sync_tag : Z)
    : option bool :=
  if negb (write_pending_counter d <=? max_requests) then Some false
  else if negb (sync_tags_are_comparable (d_sync_tag d) current_sync_tag) then Some false
  else g ← sync_tag_is_greater (d_sync_tag d) current_sync_tag; Some (negb g).

(** ** Tags and dates *)

(** The tag of an unbounded date. *)
Definition tag_at (date : Z) : Z := SYNC_TAG_ZERO + date mod SYNC_TAG_INTERVAL.

(** A tag that is blank, or the tag of a date in the past of [now] and not too old. *)
Definition tag_of (now : Z) (date : option Z) (tag : Z) : Prop :=
  match date with
  | None => tag = SYNC_TAG_BLANK
  | Some d => tag = tag_at d ∧ now - SYNC_TAG_MAX_DIFF <= d <= now
  end.

Ltac tags :=
  unfold sync_tags_are_comparable, sync_tag_is_greater, sync_tags_dist, sync_tags_diff, tag_at in *;
  change SYNC_TAG_MAX_DIFF with 32717 in *;
  change SYNC_TAG_INTERVAL with 65534 in *;
  unfold SYNC_TAG_LAST, SYNC_TAG_MAX, SYNC_TAG_ZERO, SYNC_TAG_BLANK, UINT16_MAX in *.

Lemma tag_at_range d : SYNC_TAG_ZERO <= tag_at d <= SYNC_TAG_LAST.
Proof. tags. pose proof (Z.mod_pos_bound d 65534 eq_refl). lia. Qed.

Lemma dist_id t1 t2 :
  SYNC_TAG_ZERO <= t1 <= SYNC_TAG_LAST → SYNC_TAG_ZERO <= t2 <= SYNC_TAG_LAST →
  sync_tags_dist t1 t2 = Z.min (Z.abs (t1 - t2)) (SYNC_TAG_INTERVAL - Z.abs (t1 - t2)).
Proof.
  intros H1 H2. tags. case_if; unfold u16; rewrite Z.mod_small by lia; lia.
Qed.

(** Dates that are close are compared through their tags. *)
Lemma tags_ok a b :
  Z.abs (a - b) <= SYNC_TAG_MAX_DIFF →
  sync_tags_are_comparable (tag_at a) (tag_at b) = true ∧
  sync_tag_is_greater (tag_at a) (tag_at b) = Some (b <? a) ∧
  sync_tag_is_equal (tag_at a) (tag_at b) = (a =? b).
Proof.
  intros Hd. pose proof (tag_at_range a) as Ha. pose proof (tag_at_range b) as Hb.
  assert (Hc : sync_tags_are_comparable (tag_at a) (tag_at b) = true).
  { unfold sync_tags_are_comparable. rewrite dist_id by done. case_if; [done|]. apply Z.leb_le.
    tags. Z.to_euclidean_division_equations. lia. }
  split_and!; [done| |].
  - unfold sync_tag_is_greater. rewrite Hc. cbn [exa_assert].
    assert (Heq : tag_at a = tag_at b ↔ a = b).
    { split; [|by intros ->]. tags. Z.to_euclidean_division_equations. lia. }
    destruct (Z.eqb_spec (tag_at a) (tag_at b)) as [E|E].
    + apply Heq in E as ->. by rewrite Z.ltb_irrefl.
    + replace (tag_at a =? SYNC_TAG_BLANK) with false by (clear -Ha; tags; lia).
      replace (tag_at b =? SYNC_TAG_MAX) with false by (clear -Hb; tags; lia).
      replace (tag_at a =? SYNC_TAG_MAX) with false by (clear -Ha; tags; lia).
      replace (tag_at b =? SYNC_TAG_BLANK) with false by (clear -Hb; tags; lia).
      cbn [orb]. f_equal. clear Ha Hb Hc Heq. tags. Z.to_euclidean_division_equations.
      repeat case_if; lia.
  - unfold sync_tag_is_equal. tags. Z.to_euclidean_division_equations. lia.
Qed.

Lemma comparable_refl t : sync_tags_are_comparable t t = true.
Proof.
  unfold sync_tags_are_comparable, sync_tags_dist. case_if; [done|].
  rewrite Z.ltb_irrefl, Z.sub_diag. by replace (t + SYNC_TAG_INTERVAL - t) with SYNC_TAG_INTERVAL by lia.
Qed.

(** Dates further apart are told apart from close ones. *)
Lemma not_comparable a b :
  SYNC_TAG_MAX_DIFF < Z.abs (a - b) < SYNC_TAG_INTERVAL - SYNC_TAG_MAX_DIFF →
  sync_tags_are_comparable (tag_at a) (tag_at b) = false.
Proof.
  intros Hd. unfold sync_tags_are_comparable.
  pose proof (tag_at_range a). pose proof (tag_at_range b). rewrite dist_id by done.
  case_if; [tags; lia|]. apply Z.leb_gt. tags. Z.to_euclidean_division_equations. lia.
Qed.

Lemma tag_inc d : sync_tag_inc (tag_at d) = tag_at (d + 1).
Proof.
  pose proof (tag_at_range d). unfold sync_tag_inc, u16. tags. Z.to_euclidean_division_equations.
  repeat case_if; lia.
Qed.

(** The latest of two dates, where a blank tag has no date. *)
Definition latest (d1 d2 : option Z) : option Z := union_with (λ a b, Some (Z.max a b)) d1 d2.

(** Tags in the window before [now] are comparable, and compare like dates. *)
Lemma tag_of_greater now d1 d2 t1 t2 :
  tag_of now d1 t1 → tag_of now d2 t2 →
  sync_tags_are_comparable t1 t2 = true ∧
  sync_tag_is_greater t1 t2 =
    Some (match d1, d2 with Some a, Some b => b <? a | Some _, None => true | None, _ => false end).
Proof.
  destruct d1 as [a|], d2 as [b|]; simpl.
  - intros [-> Ha] [-> Hb]. destruct (tags_ok a b) as (Hc & Hg & _); [lia|]. done.
  - intros [-> _] ->. pose proof (tag_at_range a) as Hr. unfold sync_tag_is_greater, sync_tags_are_comparable.
    rewrite Z.eqb_refl, orb_true_r. split; [done|]. cbn [exa_assert].
    replace (tag_at a =? SYNC_TAG_BLANK) with false by (clear -Hr; tags; lia).
    by rewrite orb_true_r.
  - intros -> [-> _]. pose proof (tag_at_range b) as Hr. unfold sync_tag_is_greater, sync_tags_are_comparable.
    rewrite Z.eqb_refl. split; [done|]. cbn [orb exa_assert].
    by replace (SYNC_TAG_BLANK =? tag_at b) with false by (clear -Hr; tags; lia).
  - by intros -> ->.
Qed.

Lemma tag_max_ok now d1 d2 t1 t2 :
  tag_of now d1 t1 → tag_of now d2 t2 →
  ∃ t, sync_tag_max t1 t2 = Some t ∧ tag_of now (latest d1 d2) t.
Proof.
  intros H1 H2. destruct (tag_of_greater now d1 d2 t1 t2 H1 H2) as [_ Hg].
  unfold sync_tag_max. rewrite Hg. eexists. split; [reflexivity|].
  destruct d1 as [a|], d2 as [b|]; simpl in *; [|done..]. case_if.
  - destruct H1 as [-> ?]. rewrite Z.max_l by lia. done.
  - destruct H2 as [-> ?]. rewrite Z.max_r by lia. done.
Qed.

(** ** Properties *)

(** C30: tags are dates. The tag of the next date is the increment of the tag;
    tags of dates at most [SYNC_TAG_MAX_DIFF] apart are comparable, and equality,
    the strict comparison and the maximum of the tags are those of the dates,
    across any number of wrap-arounds; dates further apart, but less than an
    interval minus that difference, are reported as not comparable. A blank tag
    is below all of them. *)
Theorem sync_tags_follow_dates a b :
  sync_tag_inc (tag_at a) = tag_at (a + 1) ∧ sync_tag_inc SYNC_TAG_BLANK = tag_at 0 ∧
  (Z.abs (a - b) <= SYNC_TAG_MAX_DIFF →
     sync_tags_are_comparable (tag_at a) (tag_at b) = true ∧
     sync_tag_is_equal (tag_at a) (tag_at b) = (a =? b) ∧
     sync_tag_is_greater (tag_at a) (tag_at b) = Some (b <? a) ∧
     sync_tag_max (tag_at a) (tag_at b) = Some (tag_at (Z.max a b))) ∧
  (SYNC_TAG_MAX_DIFF < Z.abs (a - b) < SYNC_TAG_INTERVAL - SYNC_TAG_MAX_DIFF →
     sync_tags_are_comparable (tag_at a) (tag_at b) = false) ∧
  sync_tag_is_greater (tag_at a) SYNC_TAG_BLANK = Some true ∧
  sync_tag_is_greater SYNC_TAG_BLANK (tag_at a) = Some false.
Proof.
  assert (Hblank : tag_of a (Some a) (tag_at a)) by (split; [done|tags; lia]).
  split_and!; [apply tag_inc|done|..].
  - intros Hd. destruct (tags_ok a b Hd) as (Hc & Hg & He). split_and!; try done.
    unfold sync_tag_max. rewrite Hg. cbn. f_equal. case_if; f_equal; lia.
  - apply not_comparable.
  - by destruct (tag_of_greater a (Some a) None (tag_at a) SYNC_TAG_BLANK Hblank eq_refl).
  - by destruct (tag_of_greater a None (Some a) SYNC_TAG_BLANK (tag_at a) eq_refl Hblank).
Qed.

(** Merging dirty zone metadata. Blocks whose tags are blank or of dates in
    the window before the current date are merged without any assertion
    failing; each zone gets the tag of its latest date and the largest counter
    of pending writes, so that a zone that any node left dirty stays dirty. *)
Theorem merge_keeps_latest now ds1 ds2 b1 b2 :
  Forall2 (λ d x, tag_of now d (d_sync_tag x)) ds1 b1 →
  Forall2 (λ d x, tag_of now d (d_sync_tag x)) ds2 b2 → length b1 = length b2 →
  ∃ b, dzone_metadata_block_merge b1 b2 = Some b ∧
    Forall2 (λ d x, tag_of now d (d_sync_tag x)) (zip_with latest ds1 ds2) b ∧
    map write_pending_counter b =
      zip_with Z.max (map write_pending_counter b1) (map write_pending_counter b2).
Proof.
  intros H1. revert ds2 b2. induction H1 as [|d1 x1 ds1 b1 Hx1 _ IH]; intros ds2 b2 H2 Hlen.
  - destruct b2; [|done]. inversion H2; subst. by exists [].
  - destruct H2 as [|d2 x2 ds2 b2 Hx2 H2]; [done|].
    destruct (IH ds2 b2 H2) as (b & E & Hb & Hw); [by injection Hlen|].
    destruct (tag_max_ok now d1 d2 _ _ Hx1 Hx2) as (t & Et & Ht). cbn [dzone_metadata_block_merge].
    rewrite Et. returned. rewrite E. returned. eexists. split_and!; [reflexivity|by constructor|].
    simpl. by rewrite Hw.
Qed.

Lemma sync_tags_follow_dates_witness :
  sync_tags_are_comparable (tag_at 65530) (tag_at 65540) = true ∧
  sync_tag_is_greater (tag_at 65530) (tag_at 65540) = Some false.
Proof.
  destruct (sync_tags_follow_dates 65530 65540) as (_ & _ & H & _).
  destruct H as (Hc & _ & Hg & _); [vm_compute; discriminate|].
  exact (conj Hc Hg).
Defined.

Lemma merge_keeps_latest_witness :
  ∃ b, dzone_metadata_block_merge [mk_desync 0 2; mk_desync 7 0] [mk_desync 3 1; mk_desync 5 4] = Some b.
Proof.
  destruct (merge_keeps_latest 10 [None; Some 6] [Some 2; Some 4]
    [mk_desync 0 2; mk_desync 7 0] [mk_desync 3 1; mk_desync 5 4]) as (b & E & _).
  - repeat constructor; vm_compute; intros H; discriminate H.
  - repeat constructor; vm_compute; intros H; discriminate H.
  - reflexivity.
  - exists b. exact E.
Defined.
