(* ===== verification/Rain1.v ===== *)
(** * The rain1 layout: devices, placement and creation of a group

    Model of [vrt/layout/rain1/src/lay_rain1_rdev.c], [lay_rain1_striping.c],
    the group data of [lay_rain1_group.c] and [lay_rain1_group.h], and
    [rain1_group_create] of [lay_rain1_module.c]. Rain1 stores each striping
    unit twice, on two chunks of a slot.

    The layout data of a device ([rain1_realdev_t]) is owned by the array of
    the group and is modelled by value; [None] in the array is [NULL]. The
    private data that rain1 attaches to the slots of the volumes is a field of
    the group, [slots_private], by volume and then by slot. The locks and the
    pool of synchronisation jobs are not modelled. An integer division by zero is [None], as is a failed
    assertion. *)

From S2P Require Import Prelude Nodeset Extent Prediction Storage Assembly SyncTag.
From stdpp Require Import options.

(** ** Devices: [vrt_realdev.h] and [lay_rain1_rdev.c] *)

Inductive exa_realdev_status_t :=
  | EXA_REALDEV_OK | EXA_REALDEV_DOWN | EXA_REALDEV_ALIEN | EXA_REALDEV_BLANK
  | EXA_REALDEV_OUTDATED | EXA_REALDEV_UPDATING | EXA_REALDEV_REPLICATING.

Definition rdev_is_local (r : vrt_realdev_t) : bool := r_local r.
Definition rdev_is_up (r : vrt_realdev_t) : bool := r_up r.
Definition rdev_is_corrupted (r : vrt_realdev_t) : bool := r_corrupted r.
Definition rdev_is_ok (r : vrt_realdev_t) : bool := r_up r && negb (r_corrupted r).

Definition rdev_get_compound_status (r : vrt_realdev_t) : exa_realdev_status_t :=
  if negb (r_up r) then EXA_REALDEV_DOWN
  else if r_corrupted r then EXA_REALDEV_ALIEN
  else EXA_REALDEV_OK.

Inductive rdev_rebuild_type_t :=
  | EXA_RDEV_REBUILD_NONE | EXA_RDEV_REBUILD_UPDATING | EXA_RDEV_REBUILD_REPLICATING.

#[export] Instance rebuild_type_eq_dec : EqDecision rdev_rebuild_type_t.
Proof. solve_decision. Defined.

Record rdev_rebuild_desc_t := mk_rebuild_desc { rb_type : rdev_rebuild_type_t; rb_sync_tag : Z }.
Record rdev_rebuild_progress_t := mk_progress { complete : bool; nb_slots_rebuilt : Z }.

Record rain1_realdev_t := mk_lr {
  lr_uuid : exa_uuid_t;
  lr_rdev : Z;
  mine : bool;
  lr_sync_tag : Z;
  rebuild_desc : rdev_rebuild_desc_t;
  rebuild_progress : rdev_rebuild_progress_t
}.

Definition set_sync_tag (lr : rain1_realdev_t) (tag : Z) : rain1_realdev_t :=
  mk_lr (lr_uuid lr) (lr_rdev lr) (mine lr) tag (rebuild_desc lr) (rebuild_progress lr).

Definition rain1_rdev_init_rebuild_context (lr : rain1_realdev_t) (type : rdev_rebuild_type_t)
    (sync_tag : Z) : option rain1_realdev_t :=
  assert! (bool_decide (type = EXA_RDEV_REBUILD_UPDATING)
           || bool_decide (type = EXA_RDEV_REBUILD_REPLICATING));
  Some (mk_lr (lr_uuid lr) (lr_rdev lr) (mine lr) (lr_sync_tag lr)
          (mk_rebuild_desc type sync_tag) (mk_progress false 0)).

Definition rain1_rdev_clear_rebuild_context (lr : rain1_realdev_t) : rain1_realdev_t :=
  mk_lr (lr_uuid lr) (lr_rdev lr) (mine lr) (lr_sync_tag lr)
    (mk_rebuild_desc EXA_RDEV_REBUILD_NONE (rb_sync_tag (rebuild_desc lr))) (mk_progress false 0).

Definition rain1_rdev_is_uptodate (lr : rain1_realdev_t) (sync_tag : Z) : bool :=
  sync_tag_is_equal (lr_sync_tag lr) sync_tag.

Definition rain1_rdev_is_updating (lr : rain1_realdev_t) : bool :=
  bool_decide (rb_type (rebuild_desc lr) = EXA_RDEV_REBUILD_UPDATING).

Definition rain1_rdev_is_replicating (lr : rain1_realdev_t) : bool :=
  bool_decide (rb_type (rebuild_desc lr) = EXA_RDEV_REBUILD_REPLICATING).

Definition rain1_rdev_is_rebuilding (lr : rain1_realdev_t) : bool :=
  rain1_rdev_is_replicating lr || rain1_rdev_is_updating lr.

(** The fields zeroed by [memset] have their zero value. *)
Definition rain1_alloc_rdev_layout_data (alloc : bool) (rdev : Z) (r : vrt_realdev_t)
    : option rain1_realdev_t :=
  if alloc then
    Some (mk_lr (r_uuid r) rdev (r_local r) SYNC_TAG_ZERO
            (mk_rebuild_desc EXA_RDEV_REBUILD_NONE 0) (mk_progress false 0))
  else None.

Definition rain1_realdev_equals (lr1 lr2 : rain1_realdev_t) : bool :=
  if negb (uuid_is_equal (lr_uuid lr1) (lr_uuid lr2)) then false
  else if negb (lr_sync_tag lr1 =? lr_sync_tag lr2) then false
  else true.

(** ** Groups: [lay_rain1_group.h] and [lay_rain1_group.c] *)

Record rain1_group_t := mk_rxg {
  assembly_group : assembly_group_t;
  blended_stripes : Z;
  su_size : Z;
  max_sectors : Z;
  rxg_sync_tag : Z;
  logical_slot_size : Z;
  dirty_zone_size : Z;
  nb_rain1_rdevs : Z;
  rain1_rdevs : list (option rain1_realdev_t);
  nodes_resync : exa_nodeset_t;
  nodes_update : exa_nodeset_t;
  slots_private : list (list slot_desync_info_t)
}.

Definition RAIN1_REALDEV (rxg : rain1_group_t) (r : vrt_realdev_t) : option rain1_realdev_t :=
  lr ← rain1_rdevs rxg !! Z.to_nat (r_index r); lr.

Definition rain1_group_alloc (alloc : bool) : option rain1_group_t :=
  if alloc then
    Some (mk_rxg assembly_group_init 0 0 0 SYNC_TAG_ZERO 0 0 0
            (replicate (Z.to_nat NBMAX_DISKS_PER_GROUP) None) EXA_NODESET_EMPTY EXA_NODESET_EMPTY [])
  else None.

Definition SECTORS_2_KBYTES (nb_sectors : Z) : Z := nb_sectors / 2.

Definition rain1_group_get_slot_metadata_size (rxg : rain1_group_t) : option Z :=
  let needed_size := EXA_MAX_NODES_NUMBER * BYTES_TO_SECTORS METADATA_BLOCK_SIZE in
  n ← quotient_ceil64 needed_size (su_size rxg);
  Some (u64 (n * su_size rxg)).

Definition rain1_group_get_slot_data_size (rxg : rain1_group_t) : option Z :=
  slot_metadata_size ← rain1_group_get_slot_metadata_size rxg;
  assert! (slot_metadata_size <? logical_slot_size rxg);
  Some (logical_slot_size rxg - slot_metadata_size).

Definition rain1_group_get_dzone_per_slot_count (rxg : rain1_group_t) : option Z :=
  quotient_ceil64 (logical_slot_size rxg) (dirty_zone_size rxg).

Definition RAIN1_DZONE_SYNC_BLK_SIZE : Z := 128 * 2.
Definition NBMAX_DISK_LOCKED_ZONES : Z := 32.

Definition rain1_group_get_sync_job_blksize (rxg : rain1_group_t) : Z :=
  Z.min (su_size rxg) RAIN1_DZONE_SYNC_BLK_SIZE.

Definition rain1_group_get_sync_jobs_count (rxg : rain1_group_t) : option Z :=
  let blksize := rain1_group_get_sync_job_blksize rxg in
  assert! (negb (blksize =? 0));
  Some (Z.min NBMAX_DISK_LOCKED_ZONES (RAIN1_DZONE_SYNC_BLK_SIZE * 8 / blksize)).

Definition rain1_rdev_is_writable (rxg : rain1_group_t) (r : vrt_realdev_t) : option bool :=
  lr ← RAIN1_REALDEV rxg r;
  Some (rdev_is_ok r && (rain1_rdev_is_uptodate lr (rxg_sync_tag rxg) || rain1_rdev_is_updating lr)).

(** ** Placement: [lay_rain1_striping.c] *)

Record rdev_location := mk_loc {
  l_rdev : Z;
  l_sector : Z;
  l_size : Z;
  l_uptodate : bool;
  never_replicated : bool
}.

Definition rain1_rdev_location_readable (rdev_loc : rdev_location) : bool := l_uptodate rdev_loc.

Definition rain1_rdev_location_update_needed (rdev_loc : rdev_location) : bool :=
  never_replicated rdev_loc.

(** Offset, stripe and index of the chunk of a sector. *)
Definition rain1_striping (sector su stripe_width : Z) : option (Z * Z * Z) :=
  assert! (negb (su =? 0) && negb (stripe_width =? 0));
  Some (u32 (sector mod su), u32 (sector / su / stripe_width), u32 ((sector / su) mod stripe_width)).

Definition rain1_replication (stripe blended nb_stripes : Z) : option (Z * Z) :=
  let '(stripe1, stripe2) :=
    if negb (blended =? 0) then
      let stripe1 := u32 (stripe * 2) in (stripe1, u32 (stripe1 + 1))
    else (stripe, u32 (stripe + nb_stripes / 2)) in
  assert! (stripe1 <? nb_stripes);
  assert! (stripe2 <? nb_stripes);
  Some (stripe1, stripe2).

Definition rain1_distributed_shift (chunk1_idx stripe stripe_width : Z) : option Z :=
  assert! (1 <? stripe_width);
  let chunk2_idx := u32 (chunk1_idx + 1 + stripe mod (stripe_width - 1)) mod stripe_width in
  assert! (negb (chunk2_idx =? chunk1_idx));
  Some chunk2_idx.

(** One turn of the loop on the replicas; [None] as location is a replica that
    must not be written. *)
Definition replica_location (m : mem) (rxg : rain1_group_t) (slot : slot_t)
    (offset stripe replica_chunk replica_stripe : Z) : option (option rdev_location) :=
  assert! (negb (width slot =? 0));
  let chunk := u32 (replica_chunk + stripe) mod width slot in
  '(rdev, rdev_sector) ←
    assembly_slot_map_sector_to_rdev slot chunk (u32 (u32 (replica_stripe * su_size rxg) + offset));
  r ← m !! rdev;
  lr ← RAIN1_REALDEV rxg r;
  max_sync_tag ← sync_tag_max SYNC_TAG_ZERO (lr_sync_tag lr);
  writable ← rain1_rdev_is_writable rxg r;
  if negb writable then Some None
  else
    never ← sync_tag_is_greater max_sync_tag (lr_sync_tag lr);
    Some (Some (mk_loc rdev rdev_sector (u32 (su_size rxg - offset))
                  (rain1_rdev_is_uptodate lr (rxg_sync_tag rxg)) never)).

(** The entries of [rdev_loc] that are filled in; their number is [nb_rdev_loc]. *)
Definition slot_to_rdev_location (m : mem) (rxg : rain1_group_t) (slot : slot_t)
    (ssector max_rdev_loc : Z) : option (list rdev_location) :=
  assert! (2 <=? max_rdev_loc);
  assert! (ssector <? logical_slot_size rxg);
  let stripe_width := width slot in
  assert! (1 <? stripe_width);
  '(offset, stripe, chunk0) ← rain1_striping ssector (su_size rxg) stripe_width;
  assert! (negb (u32 (stripe_width * su_size rxg) =? 0));
  let nb_stripes := u32 (logical_slot_size rxg / u32 (stripe_width * su_size rxg) * 2) in
  assert! (stripe <? nb_stripes / 2);
  '(stripe0, stripe1) ← rain1_replication stripe (blended_stripes rxg) nb_stripes;
  chunk1 ← rain1_distributed_shift chunk0 stripe stripe_width;
  loc0 ← replica_location m rxg slot offset stripe chunk0 stripe0;
  loc1 ← replica_location m rxg slot offset stripe chunk1 stripe1;
  Some (omap id [loc0; loc1]).

(** The slot and the dirty zone of a sector of a volume. *)
Definition rain1_volume2dzone (rxg : rain1_group_t) (av : assembly_volume_t) (vsector : Z)
    : option (Z * Z) :=
  size ← rain1_group_get_slot_data_size rxg;
  '(slot_index, offset_in_slot) ← assembly_volume_map_sector_to_slot av size vsector;
  assert! (negb (dirty_zone_size rxg =? 0));
  let dzone_index_in_slot := u32 (offset_in_slot / dirty_zone_size rxg) in
  count ← rain1_group_get_dzone_per_slot_count rxg;
  assert! (dzone_index_in_slot <? count);
  Some (slot_index, dzone_index_in_slot).

Definition rain1_slot_raw2rdev (m : mem) (rxg : rain1_group_t) (slot : slot_t)
    (ssector max_rdev_loc : Z) : option (list rdev_location) :=
  slot_to_rdev_location m rxg slot ssector max_rdev_loc.

Definition rain1_slot_data2rdev (m : mem) (rxg : rain1_group_t) (slot : slot_t)
    (ssector max_rdev_loc : Z) : option (list rdev_location) :=
  data_size ← rain1_group_get_slot_data_size rxg;
  assert! (ssector <? data_size);
  metadata_size ← rain1_group_get_slot_metadata_size rxg;
  rain1_slot_raw2rdev m rxg slot (u64 (ssector + metadata_size)) max_rdev_loc.

Definition rain1_slot_metadata2rdev (m : mem) (rxg : rain1_group_t) (slot : slot_t)
    (ssector max_rdev_loc : Z) : option (list rdev_location) :=
  metadata_size ← rain1_group_get_slot_metadata_size rxg;
  assert! (ssector <? metadata_size);
  rain1_slot_raw2rdev m rxg slot ssector max_rdev_loc.

Definition rain1_volume2rdev (m : mem) (rxg : rain1_group_t) (av : assembly_volume_t)
    (vsector max_rdev_loc : Z) : option (list rdev_location) :=
  size ← rain1_group_get_slot_data_size rxg;
  '(slot, ssector) ← assembly_group_map_sector_to_slot av size vsector;
  rain1_slot_data2rdev m rxg slot ssector max_rdev_loc.

Definition rain1_dzone2rdev (m : mem) (rxg : rain1_group_t) (slot : slot_t)
    (node_index max_rdev_loc : Z) : option (list rdev_location) :=
  let ssector := u32 (node_index * BYTES_TO_SECTORS METADATA_BLOCK_SIZE) in
  rain1_slot_metadata2rdev m rxg slot ssector max_rdev_loc.

(** ** Creation: [rain1_group_create] of [lay_rain1_module.c] *)

Definition UINT32_MAX : Z := 2 ^ 32 - 1.
Definition VRT_MIN_DIRTY_ZONE_SIZE : Z := 2 ^ 10.

Definition IS_POWER_OF_TWO (x : Z) : bool := negb (x =? 0) && (Z.land x (x - 1) =? 0).

(** The loop that allocates the layout data of the devices. [alloc k] is the
    answer of the allocator for the device of rank [k]. *)
Fixpoint alloc_rdevs (fuel k : nat) (alloc : nat → bool) (m : mem) (st : storage_t)
    (iter : storage_rdev_iter_t) (rdevs : list (option rain1_realdev_t))
    : option (result (list (option rain1_realdev_t))) :=
  match fuel with
  | O => None
  | S fuel' =>
      '(p, iter) ← storage_rdev_iterator_get (rdev_iter_fuel st) st iter;
      match p with
      | None => Some (Ok rdevs)
      | Some p =>
          r ← m !! p;
          assert! (bool_decide (Z.to_nat (r_index r) < length rdevs)%nat);
          match rain1_alloc_rdev_layout_data (alloc k) p r with
          | None => Some (Err ENOMEM)
          | Some lr => alloc_rdevs fuel' (S k) alloc m st iter
                         (<[Z.to_nat (r_index r) := Some lr]> rdevs)
          end
      end
  end.

(** The parameters are checked before anything is allocated. *)
Definition rain1_check_params (chunk_size su dzone nb_spare : Z) : option (result unit) :=
  if (su =? 0) || negb (su mod 8 =? 0) then Some (Err EINVAL)
  else if su <? BYTES_TO_SECTORS (EXA_MAX_NODES_NUMBER * METADATA_BLOCK_SIZE) then Some (Err EINVAL)
  else
    assert! (negb (u32 (su * 2) =? 0));
    if negb (chunk_size mod u32 (su * 2) =? 0) then Some (Err EINVAL)
    else if negb (dzone mod su =? 0) then Some (Err EINVAL)
    else if negb (nb_spare =? 0) then Some (Err EINVAL)
    else if SECTORS_2_KBYTES dzone <? VRT_MIN_DIRTY_ZONE_SIZE then Some (Err EINVAL)
    else if negb (IS_POWER_OF_TWO su) then Some (Err EINVAL)
    else Some (Ok tt).

(** [alloc 0] is for the group and [alloc (S k)] for the device of rank [k]. *)
Definition rain1_group_create (alloc : nat → bool) (m : mem) (st : storage_t)
    (slot_width chunk_size su dzone blended nb_spare : Z) : option (result rain1_group_t) :=
  checked ← rain1_check_params chunk_size su dzone nb_spare;
  match checked with
  | Err e => Some (Err e)
  | Ok _ =>
      match rain1_group_alloc (alloc O) with
      | None => Some (Err ENOMEM)
      | Some rxg =>
          let nb := storage_get_num_realdevs st in
          rdevs ← alloc_rdevs (S (Z.to_nat nb)) 0 (λ k, alloc (S k)) m st
                    storage_rdev_iterator_begin (rain1_rdevs rxg);
          match rdevs with
          | Err e => Some (Err e)
          | Ok rdevs =>
              if num_spof_groups st <? slot_width then Some (Err EINVAL)
              else
                let slot_width := if slot_width =? 0 then Z.min (num_spof_groups st) 6
                                  else slot_width in
                let logical := u32 (slot_width * chunk_size) / 2 in
                if UINT32_MAX <? logical then Some (Err EINVAL)
                else
                  let rxg := mk_rxg (assembly_group rxg) blended su su (rxg_sync_tag rxg) logical
                               dzone nb rdevs (nodes_resync rxg) (nodes_update rxg) (slots_private rxg) in
                  count ← rain1_group_get_dzone_per_slot_count rxg;
                  if DZONE_PER_METADATA_BLOCK <? count
                  then Some (Err VRT_ERR_DIRTY_ZONE_TOO_SMALL)
                  else
                    ag ← assembly_group_setup (assembly_group rxg) slot_width chunk_size;
                    Some (Ok (mk_rxg ag blended su su (rxg_sync_tag rxg) logical dzone nb rdevs
                                (nodes_resync rxg) (nodes_update rxg) (slots_private rxg)))
          end
      end
  end.

(** ** Geometry of a slot *)

(** [n] is half the number of striping units of a chunk. *)
Record rain1_geometry (rxg : rain1_group_t) (w n : Z) : Prop := {
  rg_su : 0 < su_size rxg;
  rg_width : 2 <= w;
  rg_n : 0 < n;
  rg_slot : logical_slot_size rxg = w * n * su_size rxg;
  rg_fits : w * (2 * n * su_size rxg) < 2 ^ 32
}.

Lemma mod_shift_inj a b k w : 0 <= a < w → 0 <= b < w → (a + k) mod w = (b + k) mod w → a = b.
Proof.
  intros Ha Hb E. pose proof (Z.div_mod (a + k) w ltac:(lia)) as Ea.
  pose proof (Z.div_mod (b + k) w ltac:(lia)) as Eb. rewrite E in Ea.
  assert (Hd : a - b = w * ((a + k) / w - (b + k) / w)) by lia.
  assert ((a + k) / w - (b + k) / w = 0); nia.
Qed.

Lemma mod_shift_ne a k w : 0 <= a < w → 0 < k < w → (a + k) mod w ≠ a.
Proof.
  intros Ha Hk E. pose proof (Z.div_mod (a + k) w ltac:(lia)) as Ea. rewrite E in Ea.
  assert (Hq : k = w * ((a + k) / w)) by lia. revert Hq. generalize ((a + k) / w). intros q Hq.
  assert (q <= 0 ∨ 1 <= q) as [|] by lia; nia.
Qed.

Section geometry.
Context (rxg : rain1_group_t) (w n : Z) (G : rain1_geometry rxg w n).
Abbreviation su := (su_size rxg).

(** The stripe of a sector, and the chunk and the stripe of its replicas
    ([false] is the original and [true] the mirror). *)
Definition pl_stripe (s : Z) : Z := s / su / w.
Definition pl_chunk (s : Z) (i : bool) : Z :=
  let c0 := (s / su) mod w in
  if i then (c0 + 1 + pl_stripe s mod (w - 1)) mod w else c0.
Definition pl_replica (s : Z) (i : bool) : Z :=
  if blended_stripes rxg =? 0 then pl_stripe s + (if i then n else 0)
  else 2 * pl_stripe s + (if i then 1 else 0).

(** Rank of the chunk of a replica in the slot, and offset in the chunk. *)
Definition chunk_index (s : Z) (i : bool) : Z := (pl_chunk s i + pl_stripe s) mod w.
Definition in_chunk (s : Z) (i : bool) : Z := pl_replica s i * su + s mod su.

Lemma stripe_range s : 0 <= s < logical_slot_size rxg → 0 <= pl_stripe s < n.
Proof using G.
  intros Hs. destruct G as [Hsu Hw Hn Hl _]. rewrite Hl in Hs. unfold pl_stripe.
  rewrite Z.div_div by lia. split; [apply Z.div_pos; nia|]. apply Z.div_lt_upper_bound; nia.
Qed.

Lemma chunk_range s i : 0 <= pl_chunk s i < w.
Proof using G. destruct G. unfold pl_chunk. destruct i; apply Z.mod_pos_bound; lia. Qed.

Lemma shift_range s : 0 < 1 + pl_stripe s mod (w - 1) < w.
Proof using G. destruct G. pose proof (Z.mod_pos_bound (pl_stripe s) (w - 1) ltac:(lia)). lia. Qed.

Lemma replica_range s i : 0 <= s < logical_slot_size rxg → 0 <= pl_replica s i < 2 * n.
Proof using G.
  intros Hs%stripe_range. unfold pl_replica. destruct G. repeat case_match; lia.
Qed.

Lemma chunk_index_range s i : 0 <= chunk_index s i < w.
Proof using G. destruct G. apply Z.mod_pos_bound. lia. Qed.

Lemma in_chunk_range s i : 0 <= s < logical_slot_size rxg → 0 <= in_chunk s i < 2 * n * su.
Proof using G.
  intros Hs. pose proof (replica_range s i Hs). destruct G. unfold in_chunk.
  pose proof (Z.mod_pos_bound s su ltac:(lia)). nia.
Qed.

(** The two replicas are on different chunks. *)
Lemma chunks_differ s : chunk_index s false ≠ chunk_index s true.
Proof using G.
  intros E. apply mod_shift_inj in E; [|apply chunk_range..]. revert E. unfold pl_chunk.
  rewrite <- Z.add_assoc. intros E. symmetry in E. revert E. apply mod_shift_ne; [|apply shift_range].
  destruct G. apply Z.mod_pos_bound. lia.
Qed.

(** A position in a chunk belongs to one replica of one sector. *)
Lemma place_inj s s' i j :
  0 <= s < logical_slot_size rxg → 0 <= s' < logical_slot_size rxg →
  chunk_index s i = chunk_index s' j → in_chunk s i = in_chunk s' j → s = s' ∧ i = j.
Proof using G.
  intros Hs Hs' Ec Eo. pose proof (stripe_range s Hs). pose proof (stripe_range s' Hs').
  pose proof G as [Hsu Hw Hn _ _].
  unfold in_chunk in Eo. rewrite !(Z.mul_comm _ su) in Eo.
  apply Z.div_mod_unique in Eo as [Er Eoff]; [|left; apply Z.mod_pos_bound; lia..].
  assert (E : pl_stripe s = pl_stripe s' ∧ i = j).
  { unfold pl_replica in Er. destruct (blended_stripes rxg =? 0), i, j; split; try done; lia. }
  destruct E as [Est ->]. split; [|done]. unfold chunk_index in Ec. rewrite Est in Ec.
  apply mod_shift_inj in Ec; [|apply chunk_range..].
  assert (Ec0 : (s / su) mod w = (s' / su) mod w).
  { unfold pl_chunk in Ec. destruct j; [|done]. rewrite Est, <- !Z.add_assoc in Ec.
    apply mod_shift_inj in Ec; [done|apply Z.mod_pos_bound; lia..]. }
  rewrite (Z.div_mod s su), (Z.div_mod s' su) by lia. f_equal; [|done]. f_equal.
  rewrite (Z.div_mod (s / su) w), (Z.div_mod (s' / su) w) by lia.
  unfold pl_stripe in Est. by rewrite Est, Ec0.
Qed.

(** ** The locations of a sector *)

Lemma fits_bounds : su < 2 ^ 32 ∧ w < 2 ^ 32 ∧ n < 2 ^ 31 ∧ w * su < 2 ^ 32 ∧ 2 * n * su < 2 ^ 32.
Proof using G. destruct G as [Hsu Hw Hn _ Hf]. split_and!; nia. Qed.

Lemma rain1_striping_ok s :
  0 <= s < logical_slot_size rxg →
  rain1_striping s su w = Some (s mod su, pl_stripe s, pl_chunk s false).
Proof using G.
  intros Hs. pose proof fits_bounds as (Hb1 & Hb2 & Hb3 & _). pose proof G as [Hsu Hw _ _ _].
  pose proof (stripe_range s Hs) as H1. pose proof (chunk_range s false) as H2.
  pose proof (Z.mod_pos_bound s su Hsu) as H3. unfold rain1_striping, pl_chunk, pl_stripe in *.
  replace (su =? 0) with false by lia. replace (w =? 0) with false by lia. cbn [negb andb exa_assert].
  by rewrite !u32_id by (unfold fits; lia).
Qed.

Lemma nb_stripes_ok :
  u32 (w * su) = w * su ∧ u32 (logical_slot_size rxg / (w * su) * 2) = 2 * n.
Proof using G.
  pose proof fits_bounds as (? & ? & ? & ? & ?). pose proof G as [Hsu Hw Hn Hl _].
  rewrite Hl. replace (w * n * su) with (n * (w * su)) by lia. rewrite Z.div_mul by nia.
  rewrite !u32_id by (unfold fits; nia). lia.
Qed.

Lemma rain1_replication_ok s :
  0 <= s < logical_slot_size rxg →
  rain1_replication (pl_stripe s) (blended_stripes rxg) (2 * n) =
  Some (pl_replica s false, pl_replica s true).
Proof using G.
  intros Hs. pose proof fits_bounds as (_ & _ & Hb & _). pose proof (stripe_range s Hs) as Hr.
  unfold rain1_replication, pl_replica. rewrite (Z.mul_comm 2 n), Z.div_mul by lia.
  destruct (blended_stripes rxg =? 0); cbn [negb];
    rewrite !u32_id by (unfold fits; rewrite ?u32_id by (unfold fits; lia); lia).
  - replace (_ <? _) with true by lia. cbn [exa_assert].
    replace (_ <? _) with true by lia. cbn [exa_assert]. by rewrite Z.add_0_r.
  - replace (_ <? _) with true by lia. cbn [exa_assert].
    replace (_ <? _) with true by lia. cbn [exa_assert].
    by rewrite Z.add_0_r, (Z.mul_comm 2).
Qed.

Lemma rain1_shift_ok s :
  0 <= s < logical_slot_size rxg →
  rain1_distributed_shift (pl_chunk s false) (pl_stripe s) w = Some (pl_chunk s true).
Proof using G.
  intros Hs. pose proof fits_bounds as (_ & Hb & _). pose proof (chunk_range s false) as Hc.
  pose proof (shift_range s) as Hsh. pose proof G as [_ Hw _ _ _].
  unfold rain1_distributed_shift. replace (1 <? w) with true by lia. cbn [exa_assert].
  assert (Hwrap : pl_chunk s false + 1 + pl_stripe s mod (w - 1) < 2 ^ 32).
  { pose proof G as [Hsu _ Hn _ Hf]. assert (2 * w < 2 ^ 32) by nia. lia. }
  rewrite u32_id by (unfold fits; lia). fold (pl_chunk s true). 
  rewrite <- Z.add_assoc.
  replace ((pl_chunk s false + (1 + pl_stripe s mod (w - 1))) mod w =? pl_chunk s false) with false.
  - cbn [negb exa_assert]. unfold pl_chunk. by rewrite Z.add_assoc.
  - symmetry. apply Z.eqb_neq. by apply mod_shift_ne.
Qed.

Lemma slot_to_rdev_eq m slot s k :
  width slot = w → 0 <= s < logical_slot_size rxg → 2 <= k →
  slot_to_rdev_location m rxg slot s k =
    (loc0 ← replica_location m rxg slot (s mod su) (pl_stripe s) (pl_chunk s false) (pl_replica s false);
     loc1 ← replica_location m rxg slot (s mod su) (pl_stripe s) (pl_chunk s true) (pl_replica s true);
     Some (omap id [loc0; loc1])).
Proof using G.
  intros Hwid Hs Hk. pose proof G as [Hsu Hw Hn _ _]. pose proof (stripe_range s Hs).
  destruct nb_stripes_ok as [E1 E2]. unfold slot_to_rdev_location. rewrite Hwid.
  replace (2 <=? k) with true by lia. replace (s <? _) with true by lia. replace (1 <? w) with true by lia.
  cbn [exa_assert]. rewrite (rain1_striping_ok s Hs). returned. rewrite E1, E2.
  replace (w * su =? 0) with false by nia. replace (2 * n / 2) with n by (rewrite Z.mul_comm, Z.div_mul; lia).
  replace (_ <? n) with true by lia. cbn [negb exa_assert].
  rewrite (rain1_replication_ok s Hs). returned. by rewrite (rain1_shift_ok s Hs).
Qed.

(** What a replica is: the place of the sector in a chunk of a device, unless
    the device must not be written. *)
Definition replica_spec (m : mem) (c : chunk_t) (s : Z) (i : bool) (loc : option rdev_location) : Prop :=
  ∃ r lr, m !! c_rdev c = Some r ∧ RAIN1_REALDEV rxg r = Some lr ∧
    let writable := rdev_is_ok r &&
      (rain1_rdev_is_uptodate lr (rxg_sync_tag rxg) || rain1_rdev_is_updating lr) in
    match loc with
    | None => writable = false
    | Some l => writable = true ∧ l_rdev l = c_rdev c ∧ l_sector l = c_offset c + in_chunk s i ∧
        l_size l = su - s mod su ∧ l_uptodate l = rain1_rdev_is_uptodate lr (rxg_sync_tag rxg)
    end.

(** The device has layout data, with a tag that can be compared to the first one. *)
Definition dev_ok (m : mem) (p : Z) : Prop :=
  ∃ r lr, m !! p = Some r ∧ RAIN1_REALDEV rxg r = Some lr ∧
    sync_tags_are_comparable SYNC_TAG_ZERO (lr_sync_tag lr) = true.

Lemma zero_max_greater t :
  sync_tags_are_comparable SYNC_TAG_ZERO t = true →
  ∃ mx b, sync_tag_max SYNC_TAG_ZERO t = Some mx ∧ sync_tag_is_greater mx t = Some b.
Proof using.
  intros Hc. pose proof (comparable_refl t) as Hself.
  assert (Hg : ∀ x, sync_tags_are_comparable x t = true → ∃ b, sync_tag_is_greater x t = Some b).
  { intros x Hx. unfold sync_tag_is_greater. rewrite Hx. cbn [exa_assert]. repeat case_match; by eexists. }
  unfold sync_tag_max. destruct (Hg _ Hc) as [[|] E]; rewrite E; cbn; eexists;
    destruct (Hg SYNC_TAG_ZERO Hc) as [b1 Hb1]; destruct (Hg t Hself) as [b2 Hb2]; eauto.
Qed.

Lemma replica_location_ok m slot s i c :
  width slot = w → 0 <= s < logical_slot_size rxg →
  s_chunks slot !! Z.to_nat (chunk_index s i) = Some (Some c) → dev_ok m (c_rdev c) →
  0 <= c_offset c → c_offset c + in_chunk s i < 2 ^ 64 →
  ∃ loc, replica_location m rxg slot (s mod su) (pl_stripe s) (pl_chunk s i) (pl_replica s i) = Some loc ∧
    replica_spec m c s i loc.
Proof using G.
  intros Hwid Hs Hc (r & lr & Hr & Hlr & Htag) Ho Hlt.
  pose proof G as [Hsu Hw Hn _ Hf]. pose proof fits_bounds as (Hb1 & Hb2 & Hb3 & _ & Hb5).
  pose proof (stripe_range s Hs). pose proof (chunk_range s i). pose proof (replica_range s i Hs).
  pose proof (in_chunk_range s i Hs) as Hin. pose proof (Z.mod_pos_bound s su Hsu).
  assert (w + n < 2 ^ 32) by nia. unfold in_chunk in Hin.
  assert (0 <= pl_replica s i * su) by nia.
  unfold replica_location. rewrite Hwid. replace (w =? 0) with false by lia. cbn [negb exa_assert].
  rewrite (u32_id (pl_chunk s i + _)) by (unfold fits; lia).
  rewrite (u32_id (pl_replica s i * su)), (u32_id (_ * _ + _)), (u32_id (su - _)) by (unfold fits; lia).
  fold (in_chunk s i) (chunk_index s i). unfold assembly_slot_map_sector_to_rdev. rewrite Hc. do 2 returned.
  unfold chunk_get_rdev, chunk_get_offset. rewrite u64_id by (unfold fits, in_chunk in *; lia). returned.
  rewrite Hr. returned. rewrite Hlr. returned.
  destruct (zero_max_greater _ Htag) as (mx & b & -> & Hb). returned.
  unfold rain1_rdev_is_writable. rewrite Hlr. returned.
  destruct (rdev_is_ok r && _) eqn:Hwr; cbn [negb].
  - rewrite Hb. returned. eexists. split; [done|]. exists r, lr. by rewrite Hwr.
  - eexists. split; [done|]. exists r, lr. by rewrite Hwr.
Qed.
End geometry.

(** ** Groups in use *)

(** A rain1 group on a storage: the slots of its volumes are made of chunks of
    [2 * n] striping units, and its devices have layout data. *)
Record rain1_ok (m : mem) (st : storage_t) (rxg : rain1_group_t) (n : Z) : Prop := {
  ro_geo : rain1_geometry rxg (slot_width (assembly_group rxg)) n;
  ro_ag : ag_wf st (assembly_group rxg);
  ro_pool : pool m st (ag_chunks (assembly_group rxg));
  ro_size : ∀ p r, p ∈ storage_rdevs st → m !! p = Some r → chunk_size (chunks r) = 2 * n * su_size rxg;
  ro_devs : ∀ p, p ∈ storage_rdevs st → dev_ok rxg m p
}.

Lemma chunk_off_bound r idx : rdev_ok r → 0 <= idx < total_chunks_count (chunks r) →
  0 <= chunk_off r idx ∧ chunk_off r idx + chunk_size (chunks r) < 2 ^ 64.
Proof.
  intros Hr Hi. pose proof (rk_size r Hr). pose proof (rk_total r Hr) as Ht. unfold fits in Ht.
  unfold chunk_off. change VRT_SB_AREA_SIZE with 65536.
  assert (idx * chunk_size (chunks r) <= (2 ^ 32 - 2) * (2 ^ 32 - 1)) by nia. nia.
Qed.

Lemma volume_chunks_elem av q sl c :
  slots av !! q = Some sl → c ∈ slot_chunks sl → c ∈ volume_chunks av.
Proof.
  intros Hq Hc. apply list_elem_of_In, in_concat. exists (slot_chunks sl).
  rewrite <- !list_elem_of_In. split; [|done]. apply list_elem_of_fmap. exists sl.
  split; [done|by eapply list_elem_of_lookup_2].
Qed.

Section locations.
Context (m : mem) (st : storage_t) (rxg : rain1_group_t) (n : Z) (R : rain1_ok m st rxg n).
Abbreviation ag := (assembly_group rxg).
Abbreviation w := (slot_width (assembly_group rxg)).

(** The chunks of the slots are out, on the devices of the storage. *)
Lemma ag_chunk c :
  c ∈ ag_chunks ag → ∃ r idx, m !! c_rdev c = Some r ∧ rdev_ok r ∧ c_rdev c ∈ storage_rdevs st ∧
    0 <= idx < total_chunks_count (chunks r) ∧ c_offset c = chunk_off r idx ∧
    chunk_size (chunks r) = 2 * n * su_size rxg ∧ dev_ok rxg m (c_rdev c).
Proof using R.
  intros Hc. destruct R as [_ Hag P Hsize Hdev]. pose proof (po_lg _ _ _ P) as L.
  destruct (lg_valid _ _ L c Hc) as (r & idx & Hr & Hi & Ho).
  destruct (ag_chunks_in st ag Hag) as [Hin _]. rewrite Forall_forall in Hin.
  exists r, idx. split_and!; try done; [by eapply lg_rdev|by apply Hin|lia|lia|eauto|eauto].
Qed.

Lemma slot_locations slot s k :
  slot_wf st w slot → (∀ c, c ∈ slot_chunks slot → c ∈ ag_chunks ag) →
  0 <= s < logical_slot_size rxg → 2 <= k →
  ∃ c0 c1 loc0 loc1, slot_to_rdev_location m rxg slot s k = Some (omap id [loc0; loc1]) ∧
    slot_chunks slot !! Z.to_nat (chunk_index rxg w s false) = Some c0 ∧
    slot_chunks slot !! Z.to_nat (chunk_index rxg w s true) = Some c1 ∧
    replica_spec rxg w n m c0 s false loc0 ∧ replica_spec rxg w n m c1 s true loc1.
Proof using R.
  intros [Hsc Hwid Hlen _] Hin Hs Hk. pose proof (ro_geo _ _ _ _ R) as G.
  assert (Hrep : ∀ i, ∃ c loc, slot_chunks slot !! Z.to_nat (chunk_index rxg w s i) = Some c ∧
    replica_location m rxg slot (s mod su_size rxg) (pl_stripe rxg w s) (pl_chunk rxg w s i)
      (pl_replica rxg w n s i) = Some loc ∧ replica_spec rxg w n m c s i loc).
  { intros i. pose proof (chunk_index_range rxg w n G s i) as Hci.
    destruct (lookup_lt_is_Some_2 (slot_chunks slot) (Z.to_nat (chunk_index rxg w s i))) as [c Hc].
    { rewrite Hsc, length_fmap in Hlen. lia. }
    destruct (ag_chunk c) as (r & idx & Hr & Hrk & _ & Hi & Ho & Hsz & Hd);
      [by eapply Hin, list_elem_of_lookup_2|].
    pose proof (chunk_off_bound r idx Hrk Hi) as [Hb1 Hb2]. pose proof (in_chunk_range rxg w n G s i Hs).
    destruct (replica_location_ok rxg w n G m slot s i c Hwid Hs) as (loc & E & Hspec);
      [by rewrite Hsc, list_lookup_fmap, Hc|done|lia|lia|]. by exists c, loc. }
  destruct (Hrep false) as (c0 & loc0 & Hc0 & E0 & H0). destruct (Hrep true) as (c1 & loc1 & Hc1 & E1 & H1).
  exists c0, c1, loc0, loc1. split_and!; try done.
  rewrite (slot_to_rdev_eq rxg w n G) by done. rewrite E0. returned. by rewrite E1.
Qed.

(** The sizes of the parts of a slot. *)
Lemma data_size_ok ds :
  rain1_group_get_slot_data_size rxg = Some ds →
  ∃ ms, rain1_group_get_slot_metadata_size rxg = Some ms ∧ 0 <= ms ∧ 0 < ds ∧
    ds + ms = logical_slot_size rxg ∧ logical_slot_size rxg < 2 ^ 32.
Proof using R.
  unfold rain1_group_get_slot_data_size. destruct (rain1_group_get_slot_metadata_size rxg) as [ms|] eqn:E; [|done].
  returned. intros H. exists ms.
  assert (0 <= ms).
  { unfold rain1_group_get_slot_metadata_size in E. destruct (quotient_ceil64 _ _); [|done].
    injection E as <-. apply u64_fits. }
  pose proof (ro_geo _ _ _ _ R) as [? ? ? Hl Hf].
  destruct (ms <? logical_slot_size rxg) eqn:Hlt; [|done]. injection H as <-.
  apply Z.ltb_lt in Hlt. rewrite Hl in *. split_and!; try done; try lia; nia.
Qed.

Lemma volume_slots_bound i av :
  subspaces ag !! i = Some av → 0 <= total_slots_count av < 2 ^ 31.
Proof using R.
  intros Hi. destruct (used_slots_ok m st ag (ro_pool _ _ _ _ R) (ro_ag _ _ _ _ R)) as [_ Hu].
  assert (Hnn : Forall (λ v, 0 <= total_slots_count v) (subspaces ag)).
  { eapply Forall_impl; [apply (aw_vols _ _ (ro_ag _ _ _ _ R))|]. intros v [Ht _]. simpl. lia. }
  assert (total_slots_count av <= used_slots ag).
  { apply zsum_elem; [by apply Forall_map|]. apply list_elem_of_fmap. exists av.
    split; [done|by eapply list_elem_of_lookup_2]. }
  pose proof (Forall_lookup_1 _ _ _ _ Hnn Hi). simpl in *. lia.
Qed.

(** A sector of a volume is a sector of one of its slots. *)
Lemma volume2rdev_eq i av ds v k :
  subspaces ag !! i = Some av → rain1_group_get_slot_data_size rxg = Some ds →
  0 <= v < total_slots_count av * ds →
  ∃ ms slot, rain1_group_get_slot_metadata_size rxg = Some ms ∧
    0 <= v mod ds + ms < logical_slot_size rxg ∧
    slots av !! Z.to_nat (v / ds) = Some slot ∧ slot_wf st w slot ∧
    (∀ c, c ∈ slot_chunks slot → c ∈ ag_chunks ag) ∧
    rain1_volume2rdev m rxg av v k = slot_to_rdev_location m rxg slot (v mod ds + ms) k.
Proof using R.
  intros Hi Hds Hv. destruct (data_size_ok ds Hds) as (ms & Hms & Hms0 & Hds0 & Hsum & Hlt).
  pose proof (volume_slots_bound i av Hi) as Ht.
  pose proof (Forall_lookup_1 _ _ _ _ (aw_vols _ _ (ro_ag _ _ _ _ R)) Hi) as [Htot Hsl].
  pose proof (Z.mod_pos_bound v ds Hds0) as Hmod.
  assert (Hdiv : 0 <= v / ds < total_slots_count av).
  { split; [apply Z.div_pos; lia|]. apply Z.div_lt_upper_bound; lia. }
  destruct (lookup_lt_is_Some_2 (slots av) (Z.to_nat (v / ds))) as [slot Hslot]; [lia|].
  exists ms, slot. split_and!; try done; [lia|lia|by eapply Forall_lookup_1| |].
  - intros c Hc. unfold ag_chunks, volume_chunks. apply list_elem_of_In, in_concat.
    exists (volume_chunks av). rewrite <- !list_elem_of_In. split.
    + apply list_elem_of_fmap. exists av. split; [done|by eapply list_elem_of_lookup_2].
    + by eapply volume_chunks_elem.
  - unfold rain1_volume2rdev, assembly_group_map_sector_to_slot. rewrite Hds. returned.
    rewrite u64_id by (unfold fits; nia). replace (v <? _) with true by lia. cbn [exa_assert].
    replace (v / ds <? _) with true by lia. cbn [exa_assert]. rewrite Hslot. do 2 returned.
    unfold rain1_slot_data2rdev. rewrite Hds. returned. replace (v mod ds <? ds) with true by lia.
    cbn [exa_assert]. rewrite Hms. returned. by rewrite u64_id by (unfold fits; lia).
Qed.
End locations.

Lemma spread_differ st cs a b c0 c1 :
  spread st cs → cs !! a = Some c0 → cs !! b = Some c1 → a ≠ b →
  ∃ g0 g1, chunk_on st c0 g0 ∧ chunk_on st c1 g1 ∧ g0 ≠ g1.
Proof.
  intros (gs & Hnd & Hon) Ha Hb Hne.
  destruct (Forall2_lookup_l _ _ _ _ _ Hon Ha) as (g0 & Hg0 & H0).
  destruct (Forall2_lookup_l _ _ _ _ _ Hon Hb) as (g1 & Hg1 & H1).
  exists g0, g1. split_and!; [done|done|]. intros ->. by apply Hne, (NoDup_lookup gs a b g1).
Qed.

(** The two replicas of a sector. *)
Lemma replicas_ok m st rxg n i av ds v k :
  rain1_ok m st rxg n → subspaces (assembly_group rxg) !! i = Some av →
  rain1_group_get_slot_data_size rxg = Some ds → 0 <= v < total_slots_count av * ds → 2 <= k →
  ∃ ms slot c0 c1 g0 g1 loc0 loc1,
    let s := v mod ds + ms in let w := slot_width (assembly_group rxg) in
    rain1_volume2rdev m rxg av v k = Some (omap id [loc0; loc1]) ∧
    rain1_group_get_slot_metadata_size rxg = Some ms ∧ 0 <= ms <= s ∧ s < logical_slot_size rxg ∧
    slots av !! Z.to_nat (v / ds) = Some slot ∧
    slot_chunks slot !! Z.to_nat (chunk_index rxg w s false) = Some c0 ∧
    slot_chunks slot !! Z.to_nat (chunk_index rxg w s true) = Some c1 ∧
    chunk_on st c0 g0 ∧ chunk_on st c1 g1 ∧ g0 ≠ g1 ∧
    replica_spec rxg w n m c0 s false loc0 ∧ replica_spec rxg w n m c1 s true loc1 ∧
    (∀ b, 0 <= in_chunk rxg w n s b < 2 * n * su_size rxg).
Proof.
  intros R Hi Hds Hv Hk. pose proof (ro_geo _ _ _ _ R) as G.
  destruct (volume2rdev_eq m st rxg n R i av ds v k Hi Hds Hv) as (ms & slot & Hms & Hs & Hsl & Hwf & Hin & E).
  destruct (slot_locations m st rxg n R slot _ k Hwf Hin Hs Hk) as (c0 & c1 & l0 & l1 & El & H0 & H1 & S0 & S1).
  destruct (spread_differ st _ _ _ _ _ (slw_spread _ _ _ Hwf) H0 H1) as (g0 & g1 & Hg0 & Hg1 & Hne).
  { pose proof (chunks_differ rxg _ n G (v mod ds + ms)).
    pose proof (chunk_index_range rxg _ n G (v mod ds + ms) false).
    pose proof (chunk_index_range rxg _ n G (v mod ds + ms) true). lia. }
  destruct (data_size_ok m st rxg n R ds Hds) as (ms' & Hms' & Hms0 & Hds0 & _). assert (ms' = ms) as -> by congruence.
  pose proof (Z.mod_pos_bound v ds Hds0).
  exists ms, slot, c0, c1, g0, g1, l0, l1. cbv zeta. rewrite E. split_and!; try done; try lia.
  intros b. by apply in_chunk_range.
Qed.

(** ** Properties *)

(** C23: the replicas of a sector. The mapping of any sector [v] of any volume
    passes all its assertions. With slots of [ds] sectors of data, the sector is
    in the slot [v / ds] of the volume, at [v mod ds] after the metadata. It has
    two replicas, on the two chunks of this slot that the striping gives, which
    lie on different SPOF groups, and the locations returned are those of the
    replicas on a writable device, at the place that the striping gives to the
    sector inside the chunk and up to the end of the striping unit. *)
Theorem rain1_replicas_apart m st rxg n i av ds v k :
  rain1_ok m st rxg n → subspaces (assembly_group rxg) !! i = Some av →
  rain1_group_get_slot_data_size rxg = Some ds → 0 <= v < total_slots_count av * ds → 2 <= k →
  ∃ ms slot c0 c1 g0 g1 loc0 loc1,
    let s := v mod ds + ms in let w := slot_width (assembly_group rxg) in
    rain1_volume2rdev m rxg av v k = Some (omap id [loc0; loc1]) ∧
    rain1_group_get_slot_metadata_size rxg = Some ms ∧ 0 <= ms <= s ∧ s < logical_slot_size rxg ∧
    slots av !! Z.to_nat (v / ds) = Some slot ∧
    slot_chunks slot !! Z.to_nat (chunk_index rxg w s false) = Some c0 ∧
    slot_chunks slot !! Z.to_nat (chunk_index rxg w s true) = Some c1 ∧
    chunk_on st c0 g0 ∧ chunk_on st c1 g1 ∧ g0 ≠ g1 ∧
    replica_spec rxg w n m c0 s false loc0 ∧ replica_spec rxg w n m c1 s true loc1 ∧
    (∀ b, 0 <= in_chunk rxg w n s b < 2 * n * su_size rxg).
Proof. apply replicas_ok. Qed.

(** A location returned for a sector is the place of a replica. *)
Lemma location_replica m st rxg n i av ds v k locs l :
  rain1_ok m st rxg n → subspaces (assembly_group rxg) !! i = Some av →
  rain1_group_get_slot_data_size rxg = Some ds → 0 <= v < total_slots_count av * ds → 2 <= k →
  rain1_volume2rdev m rxg av v k = Some locs → l ∈ locs →
  ∃ ms slot b c, rain1_group_get_slot_metadata_size rxg = Some ms ∧
    0 <= v mod ds + ms < logical_slot_size rxg ∧ slots av !! Z.to_nat (v / ds) = Some slot ∧
    slot_chunks slot !! Z.to_nat (chunk_index rxg (slot_width (assembly_group rxg)) (v mod ds + ms) b) = Some c ∧
    c ∈ ag_chunks (assembly_group rxg) ∧ l_rdev l = c_rdev c ∧
    l_sector l = c_offset c + in_chunk rxg (slot_width (assembly_group rxg)) n (v mod ds + ms) b.
Proof.
  intros R Hi Hds Hv Hk E Hl.
  destruct (volume2rdev_eq m st rxg n R i av ds v k Hi Hds Hv) as (ms & slot & Hms & Hs & Hsl & Hwf & Hin & E').
  destruct (slot_locations m st rxg n R slot _ k Hwf Hin Hs Hk) as (c0 & c1 & l0 & l1 & El & H0 & H1 & S0 & S1).
  rewrite E', El in E. injection E as <-.
  assert (Hcase : l0 = Some l ∨ l1 = Some l).
  { destruct l0, l1; cbn in Hl; rewrite ?elem_of_cons, ?elem_of_nil in Hl; naive_solver. }
  destruct Hcase as [-> | ->].
  - destruct S0 as (r & lr & _ & _ & _ & Hr & Hsec & _). exists ms, slot, false, c0.
    split_and!; try done; try lia. by eapply Hin, list_elem_of_lookup_2.
  - destruct S1 as (r & lr & _ & _ & _ & Hr & Hsec & _). exists ms, slot, true, c1.
    split_and!; try done; try lia. by eapply Hin, list_elem_of_lookup_2.
Qed.

(** Places of different chunks do not overlap. *)
Lemma chunk_place_inj m st rxg n c c' o o' :
  rain1_ok m st rxg n → c ∈ ag_chunks (assembly_group rxg) → c' ∈ ag_chunks (assembly_group rxg) →
  0 <= o < 2 * n * su_size rxg → 0 <= o' < 2 * n * su_size rxg →
  c_rdev c = c_rdev c' → c_offset c + o = c_offset c' + o' → c = c' ∧ o = o'.
Proof.
  intros R Hc Hc' Ho Ho' Er Es.
  destruct (ag_chunk m st rxg n R c Hc) as (r & x & Hr & _ & _ & Hx & Ex & Esz & _).
  destruct (ag_chunk m st rxg n R c' Hc') as (r' & y & Hr' & _ & _ & Hy & Ey & _ & _).
  rewrite Er in Hr. assert (r' = r) as -> by congruence. unfold chunk_off in Ex, Ey. rewrite Esz in *.
  set (C := 2 * n * su_size rxg) in *. assert (Hxy : C * x + o = C * y + o') by lia.
  apply Z.div_mod_unique in Hxy as [-> ->]; [|lia..].
  split; [|done]. destruct c, c'. simpl in *. congruence.
Qed.

(** A chunk has one place in the slots of the volumes of a group. *)
Lemma chunk_position ag i i' av av' q q' sl sl' a a' c :
  NoDup (ag_chunks ag) →
  subspaces ag !! i = Some av → slots av !! q = Some sl → slot_chunks sl !! a = Some c →
  subspaces ag !! i' = Some av' → slots av' !! q' = Some sl' → slot_chunks sl' !! a' = Some c →
  i = i' ∧ q = q' ∧ a = a'.
Proof.
  intros Hnd Hi Hq Ha Hi' Hq' Ha'.
  pose proof (list_elem_of_lookup_2 _ _ _ Ha) as Hx. pose proof (list_elem_of_lookup_2 _ _ _ Ha') as Hx'.
  assert (i = i') as <-.
  { eapply (NoDup_concat_lookup (map volume_chunks (subspaces ag))); [done|..].
    - by rewrite list_lookup_fmap, Hi.
    - by rewrite list_lookup_fmap, Hi'.
    - by eapply volume_chunks_elem.
    - by eapply volume_chunks_elem. }
  split; [done|]. assert (av' = av) as -> by congruence.
  assert (Hndv : NoDup (volume_chunks av)).
  { eapply NoDup_concat_elem; [done|]. apply list_elem_of_fmap. exists av.
    split; [done|by eapply list_elem_of_lookup_2]. }
  assert (q = q') as <-.
  { apply (NoDup_concat_lookup (map slot_chunks (slots av)) q q' (slot_chunks sl) (slot_chunks sl') c);
      [done|..|done|done].
    - by rewrite list_lookup_fmap, Hq.
    - by rewrite list_lookup_fmap, Hq'. }
  split; [done|]. assert (sl' = sl) as -> by congruence.
  eapply NoDup_lookup; [|done|done]. eapply NoDup_concat_elem; [exact Hndv|].
  apply list_elem_of_fmap. exists sl. split; [done|by eapply list_elem_of_lookup_2].
Qed.

(** C16: no two sectors share a place. If a location of a sector of a volume and
    a location of a sector of a volume of the same group are the same sector of
    the same device, they are the same sector of the same volume. *)
Theorem rain1_mapping_injective m st rxg n ds k i i' av av' v v' locs locs' l l' :
  rain1_ok m st rxg n → rain1_group_get_slot_data_size rxg = Some ds → 2 <= k →
  subspaces (assembly_group rxg) !! i = Some av → subspaces (assembly_group rxg) !! i' = Some av' →
  0 <= v < total_slots_count av * ds → 0 <= v' < total_slots_count av' * ds →
  rain1_volume2rdev m rxg av v k = Some locs → rain1_volume2rdev m rxg av' v' k = Some locs' →
  l ∈ locs → l' ∈ locs' → l_rdev l = l_rdev l' → l_sector l = l_sector l' →
  i = i' ∧ v = v'.
Proof.
  intros R Hds Hk Hi Hi' Hv Hv' E E' Hl Hl' Erdev Esec. pose proof (ro_geo _ _ _ _ R) as G.
  destruct (data_size_ok m st rxg n R ds Hds) as (_ & _ & _ & Hds0 & _).
  destruct (location_replica _ _ _ _ _ _ _ _ _ _ _ R Hi Hds Hv Hk E Hl)
    as (ms & sl & b & c & Hms & Hs & Hsl & Hc & Hag & Er & Es).
  destruct (location_replica _ _ _ _ _ _ _ _ _ _ _ R Hi' Hds Hv' Hk E' Hl')
    as (ms' & sl' & b' & c' & Hms' & Hs' & Hsl' & Hc' & Hag' & Er' & Es').
  assert (ms' = ms) as -> by congruence.
  destruct (chunk_place_inj m st rxg n c c' _ _ R Hag Hag' (in_chunk_range rxg _ n G _ b Hs)
    (in_chunk_range rxg _ n G _ b' Hs')) as [-> Ho]; [congruence|congruence|].
  destruct (chunk_position _ _ _ _ _ _ _ _ _ _ _ _ (lg_nodup _ _ (po_lg _ _ _ (ro_pool _ _ _ _ R)))
    Hi Hsl Hc Hi' Hsl' Hc') as (-> & Hq & Hidx). split; [done|].
  pose proof (chunk_index_range rxg _ n G (v mod ds + ms) b).
  pose proof (chunk_index_range rxg _ n G (v' mod ds + ms) b').
  destruct (place_inj rxg _ n G (v mod ds + ms) (v' mod ds + ms) b b') as [Hm _]; [lia|lia|lia|done|].
  rewrite (Z.div_mod v ds), (Z.div_mod v' ds) by lia.
  pose proof (Z.div_pos v ds ltac:(lia) Hds0). pose proof (Z.div_pos v' ds ltac:(lia) Hds0).
  assert (v / ds = v' / ds) as -> by lia. lia.
Qed.

(** ** An example: three devices of four chunks, slots of two chunks *)

Definition rain1_rdev (uuid index : Z) : vrt_realdev_t :=
  cut (mk_rdev [uuid; 0; 0; 0] (mk_chunks 0 0 0 []) index 66560 true true false index) 256.

Definition rain1_mem0 : mem :=
  <[1 := rain1_rdev 11 0]> (<[2 := rain1_rdev 22 1]> (<[3 := rain1_rdev 33 2]> ∅)).

Definition rain1_storage : storage_t :=
  mk_storage [example_group 5 [1]; example_group 9 [2]; example_group 3 [3]] 3 128.

Definition rain1_start : mem * assembly_group_t :=
  reserved rain1_storage rain1_mem0 (mk_ag true 512 2 [] 0) [7; 0; 0; 0] 2.

Definition rain1_mem : mem := rain1_start.1.

Definition rain1_lr (tag p : Z) : option rain1_realdev_t :=
  Some (mk_lr [p * 11; 0; 0; 0] p true tag (mk_rebuild_desc EXA_RDEV_REBUILD_NONE 0) (mk_progress false 0)).

(** The group at a given synchronisation tag, all devices being up-to-date. *)
Definition rain1_group (tag : Z) : rain1_group_t :=
  mk_rxg rain1_start.2 0 8 8 tag 256 2048 3 [rain1_lr tag 1; rain1_lr tag 2; rain1_lr tag 3]
    EXA_NODESET_EMPTY EXA_NODESET_EMPTY [].

Lemma rain1_pool0 : pool rain1_mem0 rain1_storage [].
Proof.
  assert (Hg : ∀ sg, sg ∈ spof_groups rain1_storage → group_wf sg ∧ in_mem rain1_mem0 sg).
  { intros sg Hsg. change (spof_groups rain1_storage) with
      [example_group 5 [1]; example_group 9 [2]; example_group 3 [3]] in Hsg.
    repeat (apply elem_of_cons in Hsg as [->|Hsg]; [split; [by apply example_group_wf; simpl; lia|];
      intros p Hp; by apply list_elem_of_singleton in Hp as ->|]). by apply elem_of_nil in Hsg. }
  split.
  - split; [done|done| |by apply (bool_decide_eq_true_1 (NoDup [5; 9; 3]))|by repeat constructor].
    apply Forall_forall. intros sg Hsg. by apply Hg.
  - apply (ledger_cut rain1_mem0 256); [done|]. intros p r. unfold rain1_mem0.
    rewrite !lookup_insert_Some, lookup_empty. unfold rain1_rdev.
    intros [[_ <-]|[_ [[_ <-]|[_ [[_ <-]|[_ ?]]]]]]; [..|done]; eexists; (split; [reflexivity|]);
      by vm_compute.
  - intros sg Hsg. by apply Hg.
  - by apply (bool_decide_eq_true_1 (NoDup [1; 2; 3])).
  - by vm_compute.
  - by repeat constructor.
Qed.

Lemma rain1_start_ok :
  pool rain1_mem rain1_storage (ag_chunks rain1_start.2) ∧ ag_wf rain1_storage rain1_start.2.
Proof.
  apply (reserved_ok rain1_storage rain1_mem0 (mk_ag true 512 2 [] 0) _ 2 6 rain1_pool0); [by split|by vm_compute|lia].
Qed.

Lemma rain1_group_ok : rain1_ok rain1_mem rain1_storage (rain1_group 1) 16.
Proof.
  destruct rain1_start_ok as [P Hag].
  assert (Hdev : ∀ p, p ∈ storage_rdevs rain1_storage → match rain1_mem !! p with
    | None => False
    | Some r => chunk_size (chunks r) = 256 ∧
        ∃ lr, RAIN1_REALDEV (rain1_group 1) r = Some lr ∧ lr_sync_tag lr = 1
    end).
  { intros p Hp. change (storage_rdevs rain1_storage) with [1; 2; 3] in Hp.
    repeat (apply elem_of_cons in Hp as [->|Hp]; [vm_compute; split; [done|by eexists]|]).
    destruct (proj1 (elem_of_nil _) Hp). }
  split; [by split; vm_compute|done|done|..].
  - intros p r Hp Hr. specialize (Hdev p Hp). rewrite Hr in Hdev. apply Hdev.
  - intros p Hp. specialize (Hdev p Hp). revert Hdev. unfold dev_ok. generalize (rain1_mem !! p).
    intros [r|] Hdev; [|destruct Hdev]. destruct Hdev as (_ & lr & Hlr & Ht). exists r, lr.
    split; [reflexivity|]. split; [exact Hlr|]. rewrite Ht. reflexivity.
Qed.

Lemma rain1_volume : ∃ av, subspaces (assembly_group (rain1_group 1)) !! O = Some av ∧
  total_slots_count av = 2.
Proof.
  assert (H : total_slots_count <$> subspaces rain1_start.2 !! O = Some 2) by (vm_compute; reflexivity).
  change (assembly_group (rain1_group 1)) with rain1_start.2.
  destruct (subspaces rain1_start.2 !! O) as [av|]; [|done]. exists av. split; [done|]. by injection H.
Qed.

Lemma rain1_replicas_apart_witness :
  ∃ av loc0 loc1, subspaces (assembly_group (rain1_group 1)) !! O = Some av ∧
    rain1_volume2rdev rain1_mem (rain1_group 1) av 200 3 = Some (omap id [loc0; loc1]).
Proof.
  destruct rain1_volume as (av & Hav & Ht).
  destruct (rain1_replicas_apart rain1_mem rain1_storage (rain1_group 1) 16 O av 128 200 3)
    as (ms & slot & c0 & c1 & g0 & g1 & l0 & l1 & E & _).
  - exact rain1_group_ok.
  - exact Hav.
  - vm_compute. reflexivity.
  - lia.
  - lia.
  - exists av, l0, l1. exact (conj Hav E).
Defined.

(** The first location of sector 200 of the volume. *)
Definition rain1_av : assembly_volume_t :=
  default (mk_av [] [] 0) (subspaces (assembly_group (rain1_group 1)) !! O).

Definition rain1_locs : list rdev_location :=
  default [] (rain1_volume2rdev rain1_mem (rain1_group 1) rain1_av 200 3).

Definition rain1_loc : rdev_location := default (mk_loc 0 0 0 false false) (rain1_locs !! O).

Lemma rain1_mapping_injective_witness :
  l_rdev rain1_loc = 2 ∧ l_sector rain1_loc = 65888 ∧ O = O ∧ 200 = 200.
Proof.
  split; [vm_compute; reflexivity|]. split; [vm_compute; reflexivity|].
  apply (rain1_mapping_injective rain1_mem rain1_storage (rain1_group 1) 16 128 3 O O rain1_av rain1_av
    200 200 rain1_locs rain1_locs rain1_loc rain1_loc).
  - exact rain1_group_ok.
  - vm_compute. reflexivity.
  - lia.
  - vm_compute. reflexivity.
  - vm_compute. reflexivity.
  - vm_compute. split; [intros H; discriminate H|reflexivity].
  - vm_compute. split; [intros H; discriminate H|reflexivity].
  - vm_compute. reflexivity.
  - vm_compute. reflexivity.
  - vm_compute. left.
  - vm_compute. left.
  - reflexivity.
  - reflexivity.
Defined.

Lemma grey_not_comparable d :
  SYNC_TAG_MAX_DIFF < d mod SYNC_TAG_INTERVAL < SYNC_TAG_INTERVAL - SYNC_TAG_MAX_DIFF →
  sync_tags_are_comparable SYNC_TAG_ZERO (tag_at d) = false.
Proof.
  intros Hd. change SYNC_TAG_ZERO with (tag_at 0). unfold tag_at at 2.
  rewrite <- (Z.mod_mod d SYNC_TAG_INTERVAL) by done. apply (not_comparable 0).
  pose proof (Z.mod_pos_bound d SYNC_TAG_INTERVAL eq_refl). lia.
Qed.

(** C39: a synchronisation tag in the middle of its range stops the group. The
    mapping compares the tag of each device with the first tag,
    [SYNC_TAG_ZERO], which is not comparable with the tags half an interval
    away: when a group reaches such a date, with all its devices up and
    up-to-date, the mapping of any sector is a failed assertion. *)
Theorem rain1_grey_zone_aborts m rxg w n slot c r lr s k d :
  rain1_geometry rxg w n → width slot = w → 0 <= s < logical_slot_size rxg → 2 <= k →
  s_chunks slot !! Z.to_nat (chunk_index rxg w s false) = Some (Some c) →
  m !! c_rdev c = Some r → RAIN1_REALDEV rxg r = Some lr → lr_sync_tag lr = tag_at d →
  SYNC_TAG_MAX_DIFF < d mod SYNC_TAG_INTERVAL < SYNC_TAG_INTERVAL - SYNC_TAG_MAX_DIFF →
  rain1_slot_raw2rdev m rxg slot s k = None.
Proof.
  intros G Hw Hs Hk Hc Hr Hlr Ht Hd. unfold rain1_slot_raw2rdev.
  rewrite (slot_to_rdev_eq rxg w n G m slot s k Hw Hs Hk).
  assert (E : replica_location m rxg slot (s mod su_size rxg) (pl_stripe rxg w s) (pl_chunk rxg w s false)
    (pl_replica rxg w n s false) = None); [|by rewrite E].
  unfold replica_location. rewrite Hw. destruct (negb (w =? 0)); [|done]. cbn [exa_assert].
  pose proof (chunk_range rxg w n G s false). pose proof (stripe_range rxg w n G s Hs).
  pose proof G as [Hsu Hw2 Hn _ Hf]. pose proof (fits_bounds rxg w n G) as (_ & Hb2 & Hb3 & _ & Hb5).
  assert (w + n < 2 ^ 32) by nia.
  rewrite (u32_id (pl_chunk rxg w s false + _)) by (unfold fits; lia).
  fold (chunk_index rxg w s false). unfold assembly_slot_map_sector_to_rdev. rewrite Hc. do 3 returned.
  unfold chunk_get_rdev. rewrite Hr. returned. rewrite Hlr. returned.
  unfold sync_tag_max, sync_tag_is_greater. by rewrite Ht, (grey_not_comparable d Hd).
Qed.

Definition rain1_slot : slot_t := default (mk_slot [] 0) (slots rain1_av !! O).

Lemma rain1_grey_zone_aborts_witness :
  rain1_slot_raw2rdev rain1_mem (rain1_group 32770) rain1_slot 0 3 = None.
Proof.
  destruct (s_chunks rain1_slot !! O) as [[c|]|] eqn:Hc; [|vm_compute in Hc; discriminate Hc..].
  destruct (rain1_mem !! c_rdev c) as [r|] eqn:Hr.
  - destruct (RAIN1_REALDEV (rain1_group 32770) r) as [lr|] eqn:Hlr.
    + apply (rain1_grey_zone_aborts rain1_mem (rain1_group 32770) 2 16 rain1_slot c r lr 0 3 32769).
      * split; by vm_compute.
      * vm_compute. reflexivity.
      * vm_compute. split; [intros H; discriminate H|reflexivity].
      * lia.
      * exact Hc.
      * exact Hr.
      * exact Hlr.
      * vm_compute in Hc. injection Hc as <-. vm_compute in Hr. injection Hr as <-.
        vm_compute in Hlr. injection Hlr as <-. vm_compute. reflexivity.
      * vm_compute. split; reflexivity.
    + vm_compute in Hc. injection Hc as <-. vm_compute in Hr. injection Hr as <-.
      vm_compute in Hlr. discriminate Hlr.
  - vm_compute in Hc. injection Hc as <-. vm_compute in Hr. discriminate Hr.
Defined.

(** ** Creation of a group *)

Definition effective_width (st : storage_t) (slot_width : Z) : Z :=
  if slot_width =? 0 then Z.min (num_spof_groups st) 6 else slot_width.

Lemma check_params_ok cs su dz nb_spare :
  rain1_check_params cs su dz nb_spare = Some (Ok tt) → 0 <= su →
  128 <= su ∧ IS_POWER_OF_TWO su = true ∧ cs mod u32 (su * 2) = 0 ∧ dz mod su = 0 ∧ 2048 <= dz.
Proof.
  unfold rain1_check_params, SECTORS_2_KBYTES.
  change (BYTES_TO_SECTORS (EXA_MAX_NODES_NUMBER * METADATA_BLOCK_SIZE)) with 128.
  change VRT_MIN_DIRTY_ZONE_SIZE with 1024. intros H Hsu.
  destruct (_ || _); [done|]. destruct (su <? 128) eqn:H128; [done|].
  destruct (u32 (su * 2) =? 0); [done|]. cbn [negb exa_assert] in H.
  destruct (cs mod _ =? 0) eqn:Hcs; [|done]. destruct (dz mod su =? 0) eqn:Hdz; [|done].
  cbn [negb] in H. destruct (negb (nb_spare =? 0)); [done|]. destruct (dz / 2 <? 1024) eqn:Hz; [done|].
  destruct (IS_POWER_OF_TWO su) eqn:Hp; [|done]. bool_to_prop.
  split_and!; try done; try lia. Z.to_euclidean_division_equations. lia.
Qed.

(** What a created group is. *)
Lemma create_inv alloc m st w0 cs su dz bl sp rxg :
  rain1_group_create alloc m st w0 cs su dz bl sp = Some (Ok rxg) →
  rain1_check_params cs su dz sp = Some (Ok tt) ∧ w0 <= num_spof_groups st ∧
  su_size rxg = su ∧ dirty_zone_size rxg = dz ∧ blended_stripes rxg = bl ∧
  rxg_sync_tag rxg = SYNC_TAG_ZERO ∧
  slot_width (assembly_group rxg) = effective_width st w0 ∧ subspaces (assembly_group rxg) = [] ∧
  logical_slot_size rxg = u32 (effective_width st w0 * cs) / 2 ∧
  ∃ count, rain1_group_get_dzone_per_slot_count rxg = Some count ∧ count <= DZONE_PER_METADATA_BLOCK.
Proof.
  unfold rain1_group_create. destruct (rain1_check_params cs su dz sp) as [[[]|]|] eqn:Ec; [|done..].
  returned. unfold rain1_group_alloc. destruct (alloc O); [|done]. cbn [rain1_rdevs assembly_group].
  destruct (alloc_rdevs _ _ _ _ _ _ _) as [[rdevs|]|]; [|done..]. returned.
  case_if; [done|]. fold (effective_width st w0). case_if; [done|].
  destruct (rain1_group_get_dzone_per_slot_count _) as [count|] eqn:Ed; [|done]. returned.
  case_if; [done|]. intros H. injection H as <-. split_and!; try done. by exists count.
Qed.

(** Creating a group. When the parameters are accepted and the size of a
    slot fits in 32 bits, the group has the geometry on which the placement
    relies: chunks of an even number of striping units, a striping unit that
    holds the metadata of all the nodes, room for data in each slot, a tag at
    the first date, and no more dirty zones per slot than a metadata block can
    describe. *)
Theorem rain1_create_geometry alloc m st w0 cs su dz bl sp rxg :
  rain1_group_create alloc m st w0 cs su dz bl sp = Some (Ok rxg) →
  0 <= su < 2 ^ 31 → 0 < cs → 2 <= effective_width st w0 → effective_width st w0 * cs < 2 ^ 32 →
  ∃ n count, rain1_geometry rxg (effective_width st w0) n ∧ cs = 2 * n * su ∧
    slot_width (assembly_group rxg) = effective_width st w0 ∧
    rain1_group_get_slot_metadata_size rxg = Some su ∧
    rain1_group_get_slot_data_size rxg = Some (logical_slot_size rxg - su) ∧
    rxg_sync_tag rxg = tag_at 0 ∧
    rain1_group_get_dzone_per_slot_count rxg = Some count ∧ count <= DZONE_PER_METADATA_BLOCK.
Proof.
  intros H Hsu Hcs Hw Hfit.
  destruct (create_inv _ _ _ _ _ _ _ _ _ _ H) as (Hc & Hw0 & Esu & _ & _ & Et & Esw & _ & El & count & Ed & Hcount).
  destruct (check_params_ok _ _ _ _ Hc) as (Hsu1 & _ & Hmod & _); [lia|].
  set (w := effective_width st w0) in *. rewrite u32_id in Hmod, El by (unfold fits; nia).
  apply Z.div_exact in Hmod; [|lia]. set (n := cs / (su * 2)) in *.
  assert (Ecs : cs = 2 * n * su) by lia.
  assert (El' : logical_slot_size rxg = w * n * su_size rxg).
  { rewrite El, Esu, Ecs. replace (w * (2 * n * su)) with (w * n * su * 2) by lia. apply Z.div_mul. lia. }
  assert (Hn : 0 < n) by nia.
  assert (Em : rain1_group_get_slot_metadata_size rxg = Some su).
  { unfold rain1_group_get_slot_metadata_size, quotient_ceil64. rewrite Esu, u32_id by (unfold fits; lia).
    change (EXA_MAX_NODES_NUMBER * BYTES_TO_SECTORS METADATA_BLOCK_SIZE) with 128.
    replace (su =? 0) with false by lia. cbn [negb exa_assert]. returned.
    rewrite (u64_id (128 + su - 1)) by (unfold fits; lia).
    replace ((128 + su - 1) / su) with 1 by (apply Z.div_unique with (127); lia).
    by rewrite Z.mul_1_l, u64_id by (unfold fits; lia). }
  exists n, count. split_and!; try done.
  - split; rewrite ?Esu; lia.
  - unfold rain1_group_get_slot_data_size. rewrite Em. returned. rewrite El', Esu.
    by replace (su <? _) with true by nia.
Qed.

Definition created : option (result rain1_group_t) :=
  rain1_group_create (λ _, true) rain1_mem0 rain1_storage 0 1024 128 2048 0 0.

Lemma rain1_create_geometry_witness :
  ∃ rxg n, created = Some (Ok rxg) ∧ rain1_geometry rxg 3 n.
Proof.
  destruct created as [[rxg|e]|] eqn:E; [|vm_compute in E; discriminate E..].
  destruct (rain1_create_geometry (λ _, true) rain1_mem0 rain1_storage 0 1024 128 2048 0 0 rxg)
    as (n & count & G & _).
  - exact E.
  - lia.
  - lia.
  - vm_compute. intros H. discriminate H.
  - vm_compute. reflexivity.
  - exists rxg, n. exact (conj eq_refl G).
Defined.

(** Slots that are too large are not refused. The size of a slot is
    computed on 32 bits before it is compared to the largest 32 bit value, so
    the test never fails: a group whose slots have [2^32] sectors or more is
    accepted with a logical slot size that is not half of their size. *)
Theorem rain1_create_size_wraps alloc m st w0 cs su dz bl sp rxg :
  rain1_group_create alloc m st w0 cs su dz bl sp = Some (Ok rxg) →
  2 ^ 32 <= effective_width st w0 * cs →
  logical_slot_size rxg < 2 ^ 31 ∧ logical_slot_size rxg ≠ effective_width st w0 * cs / 2.
Proof.
  intros H Hbig. destruct (create_inv _ _ _ _ _ _ _ _ _ _ H) as (_ & _ & _ & _ & _ & _ & _ & _ & El & _).
  pose proof (u32_fits (effective_width st w0 * cs)) as [H1 H2].
  assert (u32 (effective_width st w0 * cs) / 2 < 2 ^ 31) by (apply Z.div_lt_upper_bound; lia).
  assert (2 ^ 31 <= effective_width st w0 * cs / 2) by (apply Z.div_le_lower_bound; lia). lia.
Qed.

Lemma rain1_create_size_wraps_witness :
  ∃ rxg, rain1_group_create (λ _, true) rain1_mem0 rain1_storage 3 (2 ^ 31) 128 (2 ^ 24) 0 0 =
    Some (Ok rxg) ∧ logical_slot_size rxg ≠ 3 * 2 ^ 31 / 2.
Proof.
  destruct (rain1_group_create (λ _, true) rain1_mem0 rain1_storage 3 (2 ^ 31) 128 (2 ^ 24) 0 0)
    as [[rxg|e]|] eqn:E; [|vm_compute in E; discriminate E..].
  destruct (rain1_create_size_wraps (λ _, true) rain1_mem0 rain1_storage 3 (2 ^ 31) 128 (2 ^ 24) 0 0 rxg)
    as [_ H].
  - exact E.
  - vm_compute. intros H. discriminate H.
  - exists rxg. exact (conj eq_refl H).
Defined.
