(* ===== verification/Rain1Status.v ===== *)
(** * The rain1 layout: status of a group and dates of its devices

    Model of [vrt/layout/rain1/src/lay_rain1_status.c] and of the status
    operations of [lay_rain1_module.c]. When the set of devices that are up
    changes, the status of the group is computed from the number of SPOF groups
    with a defect, the synchronisation tag of the group and of its up-to-date
    devices is incremented, and the devices to update are chosen.

    Logs and notifications are not modelled. [upnodes] is the value of
    [vrt_node_get_upnodes]. *)

From S2P Require Import Prelude Nodeset Extent Prediction Storage Assembly SyncTag Rain1.
From stdpp Require Import options.

(** ** Definitions *)

Inductive exa_group_status_t := EXA_GROUP_OK | EXA_GROUP_DEGRADED | EXA_GROUP_OFFLINE.

#[export] Instance group_status_eq_dec : EqDecision exa_group_status_t.
Proof. solve_decision. Defined.

Definition rain1_rdev_get_compound_status (rxg : rain1_group_t) (r : vrt_realdev_t)
    : option exa_realdev_status_t :=
  match rdev_get_compound_status r with
  | EXA_REALDEV_OK =>
      lr ← RAIN1_REALDEV rxg r;
      match rb_type (rebuild_desc lr) with
      | EXA_RDEV_REBUILD_REPLICATING => Some EXA_REALDEV_REPLICATING
      | EXA_RDEV_REBUILD_UPDATING => Some EXA_REALDEV_UPDATING
      | EXA_RDEV_REBUILD_NONE =>
          if negb (rain1_rdev_is_uptodate lr (rxg_sync_tag rxg)) then Some EXA_REALDEV_OUTDATED
          else Some EXA_REALDEV_OK
      end
  | compound_status => Some compound_status
  end.

Definition set_rdevs (rxg : rain1_group_t) (l : list (option rain1_realdev_t)) : rain1_group_t :=
  mk_rxg (assembly_group rxg) (blended_stripes rxg) (su_size rxg) (max_sectors rxg) (rxg_sync_tag rxg)
    (logical_slot_size rxg) (dirty_zone_size rxg) (nb_rain1_rdevs rxg) l (nodes_resync rxg)
    (nodes_update rxg) (slots_private rxg).

Definition set_group_tag (rxg : rain1_group_t) (tag : Z) : rain1_group_t :=
  mk_rxg (assembly_group rxg) (blended_stripes rxg) (su_size rxg) (max_sectors rxg) tag
    (logical_slot_size rxg) (dirty_zone_size rxg) (nb_rain1_rdevs rxg) (rain1_rdevs rxg)
    (nodes_resync rxg) (nodes_update rxg) (slots_private rxg).

Definition set_nodes (rxg : rain1_group_t) (resync update : exa_nodeset_t) : rain1_group_t :=
  mk_rxg (assembly_group rxg) (blended_stripes rxg) (su_size rxg) (max_sectors rxg) (rxg_sync_tag rxg)
    (logical_slot_size rxg) (dirty_zone_size rxg) (nb_rain1_rdevs rxg) (rain1_rdevs rxg) resync update
    (slots_private rxg).

(** The loop on the devices of a SPOF group. *)
Fixpoint needs_updating_loop (m : mem) (rxg : rain1_group_t) (sg : spof_group_t) (ids : list Z)
    : option bool :=
  match ids with
  | [] => Some false
  | i :: ids' =>
      '(_, r) ← sg_rdev m sg i;
      lr ← RAIN1_REALDEV rxg r;
      if rdev_is_ok r && negb (rain1_rdev_is_uptodate lr (rxg_sync_tag rxg)) then Some true
      else needs_updating_loop m rxg sg ids'
  end.

Definition spof_group_needs_updating (m : mem) (rxg : rain1_group_t) (sg : spof_group_t) : option bool :=
  needs_updating_loop m rxg sg (seqZ 0 (nb_realdevs sg)).

Fixpoint rain1_group_get_need_update_spof (m : mem) (lg : rain1_group_t) (l : list spof_group_t)
    : option (option spof_group_t) :=
  match l with
  | [] => Some None
  | sg :: l' =>
      b ← spof_group_needs_updating m lg sg;
      if (b : bool) then Some (Some sg) else rain1_group_get_need_update_spof m lg l'
  end.

Fixpoint prepare_updating_loop (m : mem) (lg : rain1_group_t) (sg : spof_group_t) (ids : list Z)
    : option rain1_group_t :=
  match ids with
  | [] => Some lg
  | i :: ids' =>
      '(_, r) ← sg_rdev m sg i;
      lr ← RAIN1_REALDEV lg r;
      if rdev_is_ok r && negb (rain1_rdev_is_uptodate lr (rxg_sync_tag lg)) then
        lr ← rain1_rdev_init_rebuild_context lr EXA_RDEV_REBUILD_UPDATING (rxg_sync_tag lg);
        prepare_updating_loop m
          (set_rdevs lg (<[Z.to_nat (r_index r) := Some lr]> (rain1_rdevs lg))) sg ids'
      else prepare_updating_loop m lg sg ids'
  end.

Definition rain1_group_prepare_updating (m : mem) (lg : rain1_group_t) (sg : spof_group_t)
    : option rain1_group_t :=
  prepare_updating_loop m lg sg (seqZ 0 (nb_realdevs sg)).

Definition rain1_compute_rebuilding_status (m : mem) (st : storage_t) (lg : rain1_group_t)
    : option rain1_group_t :=
  spof_group ← rain1_group_get_need_update_spof m lg
                 (take (Z.to_nat (num_spof_groups st)) (spof_groups st));
  match spof_group with
  | Some sg => rain1_group_prepare_updating m lg sg
  | None => Some lg
  end.

(** [foreach_rainx_rdev] for a body that changes the layout data of the device. *)
Fixpoint map_rdevs (f : rain1_realdev_t → option rain1_realdev_t) (l : list (option rain1_realdev_t))
    : option (list (option rain1_realdev_t)) :=
  match l with
  | [] => Some []
  | o :: l' => lr ← o; lr ← f lr; rest ← map_rdevs f l'; Some (Some lr :: rest)
  end.

Definition foreach_rainx_rdev (rxg : rain1_group_t) (f : rain1_realdev_t → option rain1_realdev_t)
    : option rain1_group_t :=
  let n := Z.to_nat (nb_rain1_rdevs rxg) in
  l ← map_rdevs f (take n (rain1_rdevs rxg));
  Some (set_rdevs rxg (l ++ drop n (rain1_rdevs rxg))).

(** The body of the loop of [rain1_update_sync_tag]. *)
Definition update_rdev_tag (m : mem) (tag new_tag : Z) (lr : rain1_realdev_t) : option rain1_realdev_t :=
  r ← m !! lr_rdev lr;
  let lr := if rdev_is_up r && sync_tag_is_equal (lr_sync_tag lr) tag then set_sync_tag lr new_tag
            else lr in
  Some (if negb (sync_tags_are_comparable (lr_sync_tag lr) new_tag)
        then set_sync_tag lr SYNC_TAG_BLANK else lr).

Definition rain1_update_sync_tag (m : mem) (rxg : rain1_group_t) : option rain1_group_t :=
  let new_tag := sync_tag_inc (rxg_sync_tag rxg) in
  rxg ← foreach_rainx_rdev rxg (update_rdev_tag m (rxg_sync_tag rxg) new_tag);
  Some (set_group_tag rxg new_tag).

Fixpoint has_defect_loop (m : mem) (rxg : rain1_group_t) (sg : spof_group_t) (ids : list Z)
    : option bool :=
  match ids with
  | [] => Some false
  | i :: ids' =>
      '(_, r) ← sg_rdev m sg i;
      lr ← RAIN1_REALDEV rxg r;
      if negb (rdev_is_ok r) then Some true
      else if negb (rain1_rdev_is_uptodate lr (rxg_sync_tag rxg)) then Some true
      else has_defect_loop m rxg sg ids'
  end.

Definition rain1_spof_group_has_defect (m : mem) (rxg : rain1_group_t) (sg : spof_group_t) : option bool :=
  has_defect_loop m rxg sg (seqZ 0 (nb_realdevs sg)).

(** The number of SPOF groups with a defect. *)
Fixpoint count_defects (m : mem) (rxg : rain1_group_t) (l : list spof_group_t) : option Z :=
  match l with
  | [] => Some 0
  | sg :: l' =>
      b ← rain1_spof_group_has_defect m rxg sg;
      k ← count_defects m rxg l';
      Some (if (b : bool) then k + 1 else k)
  end.

(** The last loop: are all the devices of the group usable? *)
Fixpoint all_rdevs_ok (m : mem) (l : list (option rain1_realdev_t)) : option bool :=
  match l with
  | [] => Some true
  | o :: l' =>
      lr ← o;
      r ← m !! lr_rdev lr;
      if negb (rdev_is_ok r) then Some false else all_rdevs_ok m l'
  end.

Definition rain1_compute_status (upnodes : exa_nodeset_t) (m : mem) (st : storage_t)
    (lg : rain1_group_t) : option (exa_group_status_t * rain1_group_t) :=
  nb_not_corrected_spofs ← count_defects m lg (take (Z.to_nat (num_spof_groups st)) (spof_groups st));
  let status := if nb_not_corrected_spofs =? 0 then EXA_GROUP_OK
                else if nb_not_corrected_spofs =? 1 then EXA_GROUP_DEGRADED
                else EXA_GROUP_OFFLINE in
  lg ← foreach_rainx_rdev lg (λ lr, Some (rain1_rdev_clear_rebuild_context lr));
  lg ← (if bool_decide (status = EXA_GROUP_OFFLINE) then Some lg
        else lg ← rain1_update_sync_tag m lg; rain1_compute_rebuilding_status m st lg);
  ok ← all_rdevs_ok m (take (Z.to_nat (nb_rain1_rdevs lg)) (rain1_rdevs lg));
  Some (status, if (ok : bool) then set_nodes lg (nodes_resync lg) upnodes else lg).

Fixpoint is_rebuilding_loop (l : list (option rain1_realdev_t)) : option bool :=
  match l with
  | [] => Some false
  | o :: l' => lr ← o; if rain1_rdev_is_rebuilding lr then Some true else is_rebuilding_loop l'
  end.

Definition rain1_group_is_rebuilding (rxg : rain1_group_t) : option bool :=
  is_rebuilding_loop (take (Z.to_nat (nb_rain1_rdevs rxg)) (rain1_rdevs rxg)).

Definition rain1_rebuild_finish (lg : rain1_group_t) : option unit :=
  rebuilding ← rain1_group_is_rebuilding lg;
  assert! (negb rebuilding);
  Some tt.

(** The nodes that are up are added to both sets of nodes. *)
Fixpoint add_upnodes (l : list Z) (resync update : exa_nodeset_t)
    : option (exa_nodeset_t * exa_nodeset_t) :=
  match l with
  | [] => Some (resync, update)
  | node :: l' =>
      resync ← exa_nodeset_add resync node;
      update ← exa_nodeset_add update node;
      add_upnodes l' resync update
  end.

Definition rain1_group_compute_status (upnodes : exa_nodeset_t) (m : mem) (st : storage_t)
    (status : exa_group_status_t) (rxg : rain1_group_t)
    : option (exa_group_status_t * rain1_group_t) :=
  if bool_decide (status = EXA_GROUP_OFFLINE) then rain1_compute_status upnodes m st rxg
  else
    nodes ← exa_nodeset_foreach upnodes;
    '(resync, update) ← add_upnodes nodes (nodes_resync rxg) (nodes_update rxg);
    rain1_compute_status upnodes m st (set_nodes rxg resync update).

(** ** Invariants *)

(** The array of the group describes the devices of the storage. *)
Record devs_wf (m : mem) (st : storage_t) (rxg : rain1_group_t) : Prop := {
  dw_lr : ∀ i, (i < Z.to_nat (nb_rain1_rdevs rxg))%nat →
    ∃ lr r, rain1_rdevs rxg !! i = Some (Some lr) ∧ m !! lr_rdev lr = Some r ∧ Z.to_nat (r_index r) = i;
  dw_st : ∀ p, p ∈ storage_rdevs st →
    ∃ r lr, m !! p = Some r ∧ (Z.to_nat (r_index r) < Z.to_nat (nb_rain1_rdevs rxg))%nat ∧
      RAIN1_REALDEV rxg r = Some lr ∧ lr_rdev lr = p
}.

(** What the status operations never change. *)
Record same_layout (a b : rain1_group_t) : Prop := {
  sl_ag : assembly_group a = assembly_group b;
  sl_blended : blended_stripes a = blended_stripes b;
  sl_su : su_size a = su_size b;
  sl_slot : logical_slot_size a = logical_slot_size b;
  sl_dz : dirty_zone_size a = dirty_zone_size b;
  sl_nb : nb_rain1_rdevs a = nb_rain1_rdevs b;
  sl_len : length (rain1_rdevs a) = length (rain1_rdevs b)
}.

#[export] Instance same_layout_preorder : PreOrder same_layout.
Proof. split; [by split|]. intros a b c [] []. split; congruence. Qed.

(** The layout data of each device of [b] comes from that of [a] by [R]. *)
Definition rdevs_by (R : relation rain1_realdev_t) (a b : rain1_group_t) : Prop :=
  same_layout a b ∧
  ∀ i lr, (i < Z.to_nat (nb_rain1_rdevs a))%nat → rain1_rdevs a !! i = Some (Some lr) →
    ∃ lr', rain1_rdevs b !! i = Some (Some lr') ∧ lr_rdev lr' = lr_rdev lr ∧ R lr lr'.

Lemma rdevs_by_trans (R1 R2 R3 : relation rain1_realdev_t) a b c :
  (∀ x y z, lr_rdev y = lr_rdev x → R1 x y → R2 y z → R3 x z) → rdevs_by R1 a b → rdevs_by R2 b c → rdevs_by R3 a c.
Proof.
  intros HR [L1 H1] [L2 H2]. split; [by etransitivity|]. intros i lr Hi Hlr.
  destruct (H1 i lr Hi Hlr) as (lr1 & E1 & P1 & Q1).
  destruct (H2 i lr1) as (lr2 & E2 & P2 & Q2); [by rewrite <- (sl_nb _ _ L1)|done|].
  exists lr2. split_and!; [done|congruence|eauto].
Qed.

Lemma devs_wf_by R m st a b : rdevs_by R a b → devs_wf m st a → devs_wf m st b.
Proof.
  intros [L H] [W1 W2]. split.
  - intros i Hi. rewrite <- (sl_nb _ _ L) in Hi. destruct (W1 i Hi) as (lr & r & E & Hr & Hx).
    destruct (H i lr Hi E) as (lr' & E' & P & _). exists lr', r. by rewrite P.
  - intros p Hp. destruct (W2 p Hp) as (r & lr & Hr & Hx & E & Hp').
    rewrite <- (sl_nb _ _ L). unfold RAIN1_REALDEV in *.
    destruct (rain1_rdevs a !! Z.to_nat (r_index r)) as [o|] eqn:Ea; [|done]. simpl in E. subst o.
    destruct (H _ lr Hx Ea) as (lr' & E' & P & _). exists r, lr'. rewrite E'. by rewrite P.
Qed.

(** ** The loops *)

Lemma map_rdevs_ok f l :
  (∀ i, (i < length l)%nat → ∃ lr, l !! i = Some (Some lr) ∧ is_Some (f lr)) →
  ∃ l', map_rdevs f l = Some l' ∧ length l' = length l ∧
    ∀ i lr, l !! i = Some (Some lr) → ∃ lr', f lr = Some lr' ∧ l' !! i = Some (Some lr').
Proof.
  induction l as [|o l IH]; intros Hl.
  { exists []. split_and!; try done. }
  destruct (Hl O) as (lr & Ho & lr' & Hf); [simpl; lia|]. simpl in Ho. injection Ho as ->.
  destruct IH as (l' & E & Hlen & Hall).
  { intros i Hi. apply (Hl (S i)). simpl. lia. }
  exists (Some lr' :: l'). cbn [map_rdevs]. returned. rewrite Hf. returned. rewrite E.
  split_and!; [done|simpl; lia|]. intros [|i] x Hx; simpl in *; [|by apply Hall].
  injection Hx as ->. by exists lr'.
Qed.

Lemma foreach_ok m st rxg f (R : relation rain1_realdev_t) :
  devs_wf m st rxg →
  (∀ lr r, m !! lr_rdev lr = Some r → ∃ lr', f lr = Some lr' ∧ lr_rdev lr' = lr_rdev lr ∧ R lr lr') →
  ∃ rxg', foreach_rainx_rdev rxg f = Some rxg' ∧ rdevs_by R rxg rxg' ∧
    rxg_sync_tag rxg' = rxg_sync_tag rxg.
Proof.
  intros W Hf. set (k := Z.to_nat (nb_rain1_rdevs rxg)).
  assert (Hlen : (k <= length (rain1_rdevs rxg))%nat).
  { destruct k as [|k'] eqn:Ek; [lia|]. destruct (dw_lr _ _ _ W k') as (lr & r & E & _); [lia|].
    apply lookup_lt_Some in E. lia. }
  destruct (map_rdevs_ok f (take k (rain1_rdevs rxg))) as (l' & E & Hl & Hall).
  { rewrite length_take_le by done. intros i Hi. destruct (dw_lr _ _ _ W i Hi) as (lr & r & Elr & Hr & _).
    exists lr. rewrite lookup_take_lt by done. split; [done|].
    destruct (Hf lr r Hr) as (lr' & -> & _). by eexists. }
  rewrite length_take_le in Hl by done.
  eexists. unfold foreach_rainx_rdev. fold k. rewrite E. returned. split_and!; [done| |done].
  split.
  - split; try done. simpl. rewrite length_app, length_drop. lia.
  - intros i lr Hi Hlr. fold k in Hi. destruct (dw_lr _ _ _ W i Hi) as (lr1 & r & Elr & Hr & _).
    assert (lr1 = lr) as -> by congruence. destruct (Hf lr r Hr) as (lr2 & E2 & P2 & R2).
    destruct (Hall i lr) as (lr3 & E3 & H3); [by rewrite lookup_take_lt|].
    assert (lr3 = lr2) as -> by congruence. exists lr2. split_and!; [|done|done]. simpl. by rewrite lookup_app_l by lia.
Qed.

(** One device of a SPOF group. *)
Lemma sg_rdev_lr m st rxg i sg p k :
  pool m st k → devs_wf m st rxg → sg ∈ spof_groups st → sg_rdevs sg !! i = Some p →
  ∃ r lr, sg_rdev m sg (Z.of_nat i) = Some (p, r) ∧ m !! p = Some r ∧
    (Z.to_nat (r_index r) < Z.to_nat (nb_rain1_rdevs rxg))%nat ∧
    RAIN1_REALDEV rxg r = Some lr ∧ rain1_rdevs rxg !! Z.to_nat (r_index r) = Some (Some lr) ∧
    lr_rdev lr = p.
Proof.
  intros P W Hsg Hi. assert (Hp : p ∈ storage_rdevs st).
  { apply storage_rdevs_elem. exists sg. split; [done|by eapply list_elem_of_lookup_2]. }
  destruct (dw_st _ _ _ W p Hp) as (r & lr & Hr & Hx & Hlr & Hpp).
  pose proof (sw_groups _ (po_st _ _ _ P)) as Hg. rewrite Forall_forall in Hg. specialize (Hg sg Hsg).
  destruct (sg_rdev_ok m sg i p Hg (po_mem _ _ _ P sg Hsg) Hi) as (r' & E & Hr').
  assert (r' = r) as -> by congruence. exists r, lr. split_and!; try done.
  unfold RAIN1_REALDEV in Hlr.
  destruct (rain1_rdevs rxg !! Z.to_nat (r_index r)) as [o|]; [|done]. simpl in Hlr. by rewrite Hlr.
Qed.

Definition dev_fine (m : mem) (rxg : rain1_group_t) (p : Z) : Prop :=
  ∃ r lr, m !! p = Some r ∧ RAIN1_REALDEV rxg r = Some lr ∧ rdev_is_ok r = true ∧
    rain1_rdev_is_uptodate lr (rxg_sync_tag rxg) = true.

(** The loops on the devices of a SPOF group, from any list of ranks. *)
Section spof.
Context (m : mem) (st : storage_t) (out : list chunk_t) (sg : spof_group_t).
Context (P : pool m st out) (Hsg : sg ∈ spof_groups st).

Definition ranks (js : list nat) : Prop := Forall (λ j, is_Some (sg_rdevs sg !! j)) js.

Lemma all_ranks : seqZ 0 (nb_realdevs sg) = Z.of_nat <$> seq 0 (length (sg_rdevs sg)) ∧
  ranks (seq 0 (length (sg_rdevs sg))).
Proof using P Hsg.
  pose proof (sw_groups _ (po_st _ _ _ P)) as Hg. rewrite Forall_forall in Hg. specialize (Hg sg Hsg).
  split; [by apply ranks_eq|]. apply Forall_forall. intros j Hj%elem_of_seq.
  apply lookup_lt_is_Some_2. lia.
Qed.

Lemma has_defect_ok rxg js :
  devs_wf m st rxg → ranks js →
  ∃ b, has_defect_loop m rxg sg (Z.of_nat <$> js) = Some b ∧
    (b = false → ∀ j p, j ∈ js → sg_rdevs sg !! j = Some p → dev_fine m rxg p).
Proof using P Hsg.
  intros W. induction 1 as [|j js [p Hp] _ IH].
  { exists false. split; [done|]. intros _ j p Hj. by apply elem_of_nil in Hj. }
  destruct (sg_rdev_lr m st rxg j sg p out P W Hsg Hp) as (r & lr & E & Hr & _ & Hlr & _).
  cbn [fmap list_fmap has_defect_loop]. rewrite E. returned. rewrite Hlr. returned.
  destruct (rdev_is_ok r) eqn:Hok; [|by exists true]. cbn [negb].
  destruct (rain1_rdev_is_uptodate lr _) eqn:Hup; [|by exists true]. cbn [negb].
  destruct IH as (b & -> & Hb). exists b. split; [done|]. intros Hf k q Hk Hq.
  apply elem_of_cons in Hk as [->|Hk]; [|by eapply Hb].
  exists r, lr. assert (q = p) as -> by congruence. done.
Qed.

Lemma needs_updating_ok rxg js :
  devs_wf m st rxg → ranks js → is_Some (needs_updating_loop m rxg sg (Z.of_nat <$> js)).
Proof using P Hsg.
  intros W. induction 1 as [|j js [p Hp] _ IH]; [by eexists|].
  destruct (sg_rdev_lr m st rxg j sg p out P W Hsg Hp) as (r & lr & E & Hr & _ & Hlr & _).
  cbn [fmap list_fmap needs_updating_loop]. rewrite E. returned. rewrite Hlr. returned.
  destruct (_ && _); [by eexists|done].
Qed.

(** Choosing the devices to update keeps all the tags. *)
Definition same_tag (a b : rain1_realdev_t) : Prop := lr_sync_tag b = lr_sync_tag a.

Lemma prepare_updating_ok rxg js :
  devs_wf m st rxg → ranks js →
  ∃ rxg', prepare_updating_loop m rxg sg (Z.of_nat <$> js) = Some rxg' ∧ rdevs_by same_tag rxg rxg' ∧
    rxg_sync_tag rxg' = rxg_sync_tag rxg.
Proof using P Hsg.
  intros W Hjs. revert rxg W. induction Hjs as [|j js [p Hp] _ IH]; intros rxg W.
  { exists rxg. split_and!; try done. split; [done|]. intros i lr _ Hlr. by exists lr. }
  destruct (sg_rdev_lr m st rxg j sg p out P W Hsg Hp) as (r & lr & E & Hr & Hx & Hlr & Ea & _).
  cbn [fmap list_fmap prepare_updating_loop]. rewrite E. returned. rewrite Hlr. returned.
  destruct (_ && _); [|by apply IH].
  unfold rain1_rdev_init_rebuild_context. rewrite bool_decide_eq_true_2 by done.
  cbn [orb exa_assert]. returned.
  set (lr1 := mk_lr _ _ _ _ _ _). set (rxg1 := set_rdevs _ _).
  assert (H1 : rdevs_by same_tag rxg rxg1).
  { split; [split; try done; simpl; by rewrite length_insert|]. intros i lr2 Hi Hlr2. simpl.
    destruct (decide (i = Z.to_nat (r_index r))) as [->|Hne].
    - rewrite list_lookup_insert_eq by (by eapply lookup_lt_Some). exists lr1.
      assert (lr2 = lr) as -> by congruence. done.
    - rewrite list_lookup_insert_ne by done. by exists lr2. }
  destruct (IH rxg1) as (rxg2 & E2 & H2 & T2); [by eapply devs_wf_by|].
  exists rxg2. split_and!; [done| |done]. eapply rdevs_by_trans; [|exact H1|exact H2].
  unfold same_tag. congruence.
Qed.
End spof.

Definition group_fine (m : mem) (rxg : rain1_group_t) (sg : spof_group_t) : Prop :=
  ∀ p, p ∈ sg_rdevs sg → dev_fine m rxg p.

Lemma spof_group_has_defect_ok m st out rxg sg :
  pool m st out → devs_wf m st rxg → sg ∈ spof_groups st →
  ∃ b, rain1_spof_group_has_defect m rxg sg = Some b ∧ (b = false → group_fine m rxg sg).
Proof.
  intros P W Hsg. destruct (all_ranks m st out sg P Hsg) as [E Hr].
  destruct (has_defect_ok m st out sg P Hsg rxg _ W Hr) as (b & Eb & Hb).
  exists b. unfold rain1_spof_group_has_defect. rewrite E. split; [done|]. intros Hf p Hp.
  apply list_elem_of_lookup in Hp as (j & Hj). apply (Hb Hf j p); [|done].
  apply elem_of_seq. apply lookup_lt_Some in Hj. lia.
Qed.

(** At most one group with a defect: of two groups, one is fine. *)
Lemma count_defects_ok m st out rxg l :
  pool m st out → devs_wf m st rxg → (∀ sg, sg ∈ l → sg ∈ spof_groups st) →
  ∃ k, count_defects m rxg l = Some k ∧ 0 <= k ∧
    (k = 0 → ∀ i sg, l !! i = Some sg → group_fine m rxg sg) ∧
    (k <= 1 → ∀ i j sg sg', l !! i = Some sg → l !! j = Some sg' → i ≠ j →
       group_fine m rxg sg ∨ group_fine m rxg sg').
Proof.
  intros P W. induction l as [|sg l IH]; intros Hl.
  { exists 0. split_and!; done. }
  destruct (spof_group_has_defect_ok m st out rxg sg P W) as (b & Eb & Hb); [apply Hl; left|].
  destruct IH as (k & Ek & Hk & H0 & H1); [intros x Hx; apply Hl; by right|].
  cbn [count_defects]. rewrite Eb. returned. rewrite Ek. returned. destruct b.
  - exists (k + 1). split_and!; [done|lia|lia|]. intros Hle i j x y Hi Hj Hne.
    destruct i as [|i], j as [|j]; [done|..]; simplify_eq/=; [right|left|left]; eapply H0; eauto; lia.
  - specialize (Hb eq_refl). exists k. split_and!; [done|done| |].
    + intros E [|i] x Hi; simplify_eq/=; [done|]. by eapply H0.
    + intros Hle i j x y Hi Hj Hne. destruct i as [|i], j as [|j]; [done|..]; simplify_eq/=; [auto|auto|].
      apply (H1 Hle i j); congruence.
Qed.

(** ** The synchronisation tags *)

Definition next_tag (up : bool) (tag t : Z) : Z :=
  let t' := if up && (t =? tag) then sync_tag_inc tag else t in
  if sync_tags_are_comparable t' (sync_tag_inc tag) then t' else SYNC_TAG_BLANK.

Definition tag_step (m : mem) (tag : Z) (a b : rain1_realdev_t) : Prop :=
  ∃ r, m !! lr_rdev a = Some r ∧ lr_sync_tag b = next_tag (r_up r) tag (lr_sync_tag a).

Lemma update_sync_tag_ok m st rxg :
  devs_wf m st rxg →
  ∃ rxg', rain1_update_sync_tag m rxg = Some rxg' ∧ rdevs_by (tag_step m (rxg_sync_tag rxg)) rxg rxg' ∧
    rxg_sync_tag rxg' = sync_tag_inc (rxg_sync_tag rxg).
Proof.
  intros W. unfold rain1_update_sync_tag.
  destruct (foreach_ok m st rxg (update_rdev_tag m (rxg_sync_tag rxg) (sync_tag_inc (rxg_sync_tag rxg)))
    (tag_step m (rxg_sync_tag rxg)) W) as (rxg1 & E & [L H] & T).
  - intros lr r Hr. unfold update_rdev_tag. rewrite Hr. returned. eexists. split; [reflexivity|].
    unfold tag_step, next_tag, rdev_is_up, sync_tag_is_equal.
    destruct (r_up r && (lr_sync_tag lr =? rxg_sync_tag rxg)) eqn:Hu; cbn [lr_sync_tag set_sync_tag];
      destruct (sync_tags_are_comparable _ _) eqn:Hc; cbn [negb];
      (split; [done|]); exists r; rewrite Hr, Hu; (split; [done|]); by rewrite Hc.
  - rewrite E. returned. eexists. split_and!; [done| |done]. split; [by destruct L; split|done].
Qed.

Lemma rebuilding_status_ok m st out rxg :
  pool m st out → devs_wf m st rxg →
  ∃ rxg', rain1_compute_rebuilding_status m st rxg = Some rxg' ∧ rdevs_by same_tag rxg rxg' ∧
    rxg_sync_tag rxg' = rxg_sync_tag rxg.
Proof.
  intros P W. unfold rain1_compute_rebuilding_status. rewrite (take_groups st (po_st _ _ _ P)).
  assert (Hn : ∀ l, (∀ sg, sg ∈ l → sg ∈ spof_groups st) →
    ∃ o, rain1_group_get_need_update_spof m rxg l = Some o ∧ ∀ sg, o = Some sg → sg ∈ l).
  { induction l as [|sg l IH]; intros Hl; [by exists None|]. cbn [rain1_group_get_need_update_spof].
    destruct (all_ranks m st out sg P) as [E Hr]; [apply Hl; left|].
    destruct (needs_updating_ok m st out sg P (Hl sg ltac:(left)) rxg _ W Hr) as [b Eb].
    unfold spof_group_needs_updating. rewrite E, Eb. returned. destruct b.
    - exists (Some sg). split; [done|]. intros x [= ->]. left.
    - destruct IH as (o & -> & Ho); [intros x Hx; apply Hl; by right|]. exists o. split; [done|].
      intros x Hx. right. by apply Ho. }
  destruct (Hn (spof_groups st)) as (o & -> & Ho); [done|]. returned. destruct o as [sg|].
  - specialize (Ho sg eq_refl). destruct (all_ranks m st out sg P Ho) as [E Hr].
    unfold rain1_group_prepare_updating. rewrite E. by eapply prepare_updating_ok.
  - exists rxg. split_and!; try done. split; [done|]. intros i lr _ Hlr. by exists lr.
Qed.

(** ** Computing the status *)

Definition status_of (k : Z) : exa_group_status_t :=
  if k =? 0 then EXA_GROUP_OK else if k =? 1 then EXA_GROUP_DEGRADED else EXA_GROUP_OFFLINE.

Definition status_effect (m : mem) (rxg : rain1_group_t) (status : exa_group_status_t)
    (rxg' : rain1_group_t) : Prop :=
  if bool_decide (status = EXA_GROUP_OFFLINE)
  then rdevs_by same_tag rxg rxg' ∧ rxg_sync_tag rxg' = rxg_sync_tag rxg
  else rdevs_by (tag_step m (rxg_sync_tag rxg)) rxg rxg' ∧
       rxg_sync_tag rxg' = sync_tag_inc (rxg_sync_tag rxg).

Lemma all_rdevs_ok_ok m st rxg :
  devs_wf m st rxg →
  is_Some (all_rdevs_ok m (take (Z.to_nat (nb_rain1_rdevs rxg)) (rain1_rdevs rxg))).
Proof.
  intros W. assert (Hl : ∀ l, (∀ i o, l !! i = Some o → ∃ lr r, o = Some lr ∧ m !! lr_rdev lr = Some r) →
    is_Some (all_rdevs_ok m l)).
  { induction l as [|o l IH]; intros Hl; [by eexists|]. cbn [all_rdevs_ok].
    destruct (Hl O o eq_refl) as (lr & r & -> & Hr). returned. rewrite Hr. returned.
    case_if; [by eexists|]. apply IH. intros i. apply (Hl (S i)). }
  apply Hl. intros i o (Hi & Hlt)%lookup_take_Some.
  destruct (dw_lr _ _ _ W i Hlt) as (lr & r & E & Hr & _). exists lr, r. split; [congruence|done].
Qed.

Lemma set_nodes_by R rxg rxg' a b : rdevs_by R rxg rxg' → rdevs_by R rxg (set_nodes rxg' a b).
Proof. intros [[] H]. split; [by split|done]. Qed.

Lemma compute_status_ok up m st out rxg :
  pool m st out → devs_wf m st rxg →
  ∃ k rxg', count_defects m rxg (spof_groups st) = Some k ∧
    rain1_compute_status up m st rxg = Some (status_of k, rxg') ∧
    status_effect m rxg (status_of k) rxg' ∧ same_layout rxg rxg' ∧ devs_wf m st rxg'.
Proof.
  intros P W. destruct (count_defects_ok m st out rxg (spof_groups st) P W) as (k & Ek & _); [done|].
  destruct (foreach_ok m st rxg (λ lr, Some (rain1_rdev_clear_rebuild_context lr)) same_tag W)
    as (rxg1 & E1 & H1 & T1).
  { intros lr r Hr. eexists. split; [done|]. by split. }
  assert (W1 : devs_wf m st rxg1) by by eapply devs_wf_by.
  assert (H2 : ∃ rxg2, (if bool_decide (status_of k = EXA_GROUP_OFFLINE) then Some rxg1
      else lg ← rain1_update_sync_tag m rxg1; rain1_compute_rebuilding_status m st lg) = Some rxg2 ∧
    status_effect m rxg (status_of k) rxg2 ∧ devs_wf m st rxg2).
  { unfold status_effect. case_bool_decide as Hs; [by exists rxg1|].
    destruct (update_sync_tag_ok m st rxg1 W1) as (rxg2 & E2 & H2 & T2).
    assert (W2 : devs_wf m st rxg2) by by eapply devs_wf_by.
    destruct (rebuilding_status_ok m st out rxg2 P W2) as (rxg3 & E3 & H3 & T3).
    exists rxg3. rewrite E2. returned. split_and!; [done| |congruence|by eapply devs_wf_by].
    rewrite T1 in H2. assert (H12 : rdevs_by (tag_step m (rxg_sync_tag rxg)) rxg rxg2).
    { eapply rdevs_by_trans; [|exact H1|exact H2]. intros x y z Hr Hxy (r & Hm & Ht). exists r.
      unfold same_tag in Hxy. rewrite <- Hr, <- Hxy. done. }
    eapply rdevs_by_trans; [|exact H12|exact H3]. intros x y z _ (r & Hm & Ht) Hyz. exists r.
    unfold same_tag in Hyz. by rewrite Hyz. }
  destruct H2 as (rxg2 & E2 & Heff & W2). destruct (all_rdevs_ok_ok m st rxg2 W2) as [ok Eok].
  set (rxg3 := if (ok : bool) then set_nodes rxg2 (nodes_resync rxg2) up else rxg2).
  assert (Heff3 : status_effect m rxg (status_of k) rxg3).
  { unfold status_effect in *. subst rxg3. destruct ok; [|done].
    case_bool_decide; (split; [by apply set_nodes_by, Heff|apply Heff]). }
  exists k, rxg3. split_and!; [done| |done|..].
  - unfold rain1_compute_status. rewrite (take_groups st (po_st _ _ _ P)), Ek. returned.
    fold (status_of k). rewrite E1. returned. rewrite E2. returned. by rewrite Eok.
  - unfold status_effect in Heff3. case_bool_decide; apply Heff3.
  - unfold status_effect in Heff3. case_bool_decide; by eapply devs_wf_by; [apply Heff3|].
Qed.

(** ** Dates *)

(** [now] is the date of the group and [ds] the dates of its devices. *)
Definition dated (now : Z) (ds : nat → option Z) (rxg : rain1_group_t) : Prop :=
  rxg_sync_tag rxg = tag_at now ∧
  ∀ i lr, (i < Z.to_nat (nb_rain1_rdevs rxg))%nat → rain1_rdevs rxg !! i = Some (Some lr) →
    tag_of now (ds i) (lr_sync_tag lr).

(** The date of a device after the group goes to the next date. *)
Definition next_date (up : bool) (now : Z) (d : option Z) : option Z :=
  match d with
  | None => None
  | Some x =>
      if up && (x =? now) then Some (now + 1)
      else if now + 1 - x <=? SYNC_TAG_MAX_DIFF then Some x else None
  end.

Lemma tag_of_now now d t : tag_of now d t → (t =? tag_at now) = bool_decide (d = Some now).
Proof.
  destruct d as [x|]; simpl.
  - intros [-> Hx]. destruct (tags_ok x now) as (_ & _ & He); [lia|].
    unfold sync_tag_is_equal in He. rewrite He. case_bool_decide as Hd.
    + injection Hd as ->. by apply Z.eqb_refl.
    + apply Z.eqb_neq. congruence.
  - intros ->. pose proof (tag_at_range now).
    apply Z.eqb_neq. tags. lia.
Qed.

Lemma next_tag_date up now d t :
  tag_of now d t → tag_of (now + 1) (next_date up now d) (next_tag up (tag_at now) t).
Proof.
  intros Ht. unfold next_tag. rewrite (tag_of_now now d t Ht), tag_inc.
  assert (Hself : sync_tags_are_comparable (tag_at (now + 1)) (tag_at (now + 1)) = true).
  { by destruct (tags_ok (now + 1) (now + 1)) as (? & _); [change SYNC_TAG_MAX_DIFF with 32717; lia|]. }
  destruct d as [x|]; simpl in *.
  - destruct Ht as [-> Hx]. rewrite (bool_decide_ext _ (x = now)) by naive_solver.
    destruct (Z.eqb_spec x now) as [->|Hne].
    + rewrite bool_decide_eq_true_2 by done. destruct up; cbn [andb].
      * rewrite Hself. split; [done|]. change SYNC_TAG_MAX_DIFF with 32717. lia.
      * destruct (tags_ok now (now + 1)) as (-> & _); [change SYNC_TAG_MAX_DIFF with 32717; lia|].
        change SYNC_TAG_MAX_DIFF with 32717 in *. case_if; [|lia]. simpl. split; [done|].
        change SYNC_TAG_MAX_DIFF with 32717. lia.
    + rewrite bool_decide_eq_false_2, andb_false_r by done.
      destruct (Z.leb_spec (now + 1 - x) SYNC_TAG_MAX_DIFF) as [Hle|Hgt].
      * destruct (tags_ok x (now + 1)) as (-> & _); [lia|]. split; [done|lia].
      * simpl. rewrite (not_comparable x (now + 1)); [done|]. change SYNC_TAG_MAX_DIFF with 32717 in *.
        change SYNC_TAG_INTERVAL with 65534. lia.
  - subst t. rewrite andb_false_r.
    by destruct (tag_of_greater (now + 1) None (Some (now + 1)) SYNC_TAG_BLANK (tag_at (now + 1)) eq_refl) as
      [-> _]; [split; [done|change SYNC_TAG_MAX_DIFF with 32717; lia]|].
Qed.

Definition uptodate (rxg : rain1_group_t) (i : nat) : bool :=
  match rain1_rdevs rxg !! i with
  | Some (Some lr) => rain1_rdev_is_uptodate lr (rxg_sync_tag rxg)
  | _ => false
  end.

(** The device of rank [i] is up in the store [m]. *)
Definition dev_up (m : mem) (rxg : rain1_group_t) (i : nat) : bool :=
  match rain1_rdevs rxg !! i with
  | Some (Some lr) => match m !! lr_rdev lr with Some r => rdev_is_up r | None => false end
  | _ => false
  end.

Lemma uptodate_date m st now ds rxg i :
  dated now ds rxg → devs_wf m st rxg → (i < Z.to_nat (nb_rain1_rdevs rxg))%nat →
  uptodate rxg i = bool_decide (ds i = Some now).
Proof.
  intros [Ht Hd] W Hi. destruct (dw_lr _ _ _ W i Hi) as (lr & r & E & _). unfold uptodate. rewrite E.
  unfold rain1_rdev_is_uptodate, sync_tag_is_equal. rewrite Ht. by apply tag_of_now, Hd.
Qed.

(** One computation of the status. *)
Lemma status_step up m st out now ds rxg :
  pool m st out → devs_wf m st rxg → dated now ds rxg →
  ∃ status rxg' now' ds', rain1_compute_status up m st rxg = Some (status, rxg') ∧
    (∀ m', devs_wf m' st rxg → devs_wf m' st rxg') ∧ same_layout rxg rxg' ∧ dated now' ds' rxg' ∧
    (∀ m' i, (i < Z.to_nat (nb_rain1_rdevs rxg))%nat → dev_up m' rxg' i = dev_up m' rxg i) ∧
    ∀ i, (i < Z.to_nat (nb_rain1_rdevs rxg))%nat →
      uptodate rxg' i = uptodate rxg i && (bool_decide (status = EXA_GROUP_OFFLINE) || dev_up m rxg i).
Proof.
  intros P W D. pose proof D as [Ht Hd].
  destruct (compute_status_ok up m st out rxg P W) as (k & rxg' & _ & E & Heff & L & W').
  exists (status_of k), rxg'. unfold status_effect in Heff.
  assert (Hup : ∀ R, rdevs_by R rxg rxg' → ∀ m' i, (i < Z.to_nat (nb_rain1_rdevs rxg))%nat →
    dev_up m' rxg' i = dev_up m' rxg i).
  { intros R [_ HR] m' i Hi. destruct (dw_lr _ _ _ W i Hi) as (lr & r & Elr & _).
    destruct (HR i lr Hi Elr) as (lr' & E' & Hr & _). unfold dev_up. by rewrite Elr, E', Hr. }
  case_bool_decide as Hs; destruct Heff as [HR T].
  - assert (D' : dated now ds rxg').
    { split; [congruence|]. intros i lr' Hi E'. rewrite <- (sl_nb _ _ L) in Hi.
      destruct (dw_lr _ _ _ W i Hi) as (lr & r & Elr & _).
      destruct (proj2 HR i lr Hi Elr) as (lr2 & E2 & _ & Htag). assert (lr2 = lr') as -> by congruence.
      unfold same_tag in Htag. rewrite Htag. by apply Hd. }
    exists now, ds. split_and!; try done; [intros m'; by apply devs_wf_by with same_tag|by eapply Hup|]. intros i Hi. rewrite andb_true_r.
    rewrite (uptodate_date m st now ds rxg) by done.
    by rewrite (uptodate_date m st now ds rxg') by (done || by rewrite <- (sl_nb _ _ L)).
  - set (ds' := λ i, next_date (dev_up m rxg i) now (ds i)).
    assert (D' : dated (now + 1) ds' rxg').
    { split; [rewrite T, Ht; apply tag_inc|]. intros i lr' Hi E'. rewrite <- (sl_nb _ _ L) in Hi.
      destruct (dw_lr _ _ _ W i Hi) as (lr & r & Elr & Hr & _).
      destruct (proj2 HR i lr Hi Elr) as (lr2 & E2 & _ & r2 & Hr2 & Htag).
      assert (lr2 = lr') as -> by congruence. assert (r2 = r) as -> by congruence.
      rewrite Htag, Ht. subst ds'. unfold dev_up. rewrite Elr, Hr. by apply next_tag_date, Hd. }
    exists (now + 1), ds'. split_and!; try done; [intros m'; by eapply devs_wf_by|by eapply Hup|]. intros i Hi. cbn [orb].
    rewrite (uptodate_date m st now ds rxg) by done.
    rewrite (uptodate_date m st (now + 1) ds' rxg') by (done || by rewrite <- (sl_nb _ _ L)).
    destruct (dw_lr _ _ _ W i Hi) as (lr & r & Elr & _). specialize (Hd i lr Hi Elr).
    subst ds'. simpl. destruct (ds i) as [x|]; simpl in *.
    + destruct (dev_up m rxg i), (Z.eqb_spec x now) as [->|Hne]; cbn [andb]; rewrite ?andb_true_r, ?andb_false_r.
      * by rewrite !bool_decide_eq_true_2.
      * rewrite !bool_decide_eq_false_2; [done|congruence|]. case_match; [|done]. intros [= ->]. lia.
      * apply bool_decide_eq_false_2. case_match; [|done]. intros [= ?]. lia.
      * apply bool_decide_eq_false_2. case_match; [|done]. intros [= ?]. lia.
    + done.
Qed.

(** ** Properties *)

(** The status is computed each time the set of devices that are up changes. *)
Fixpoint status_run (st : storage_t) (l : list (exa_nodeset_t * mem)) (rxg : rain1_group_t)
    : option (list exa_group_status_t * rain1_group_t) :=
  match l with
  | [] => Some ([], rxg)
  | (up, m) :: l' =>
      '(status, rxg) ← rain1_compute_status up m st rxg;
      '(ss, rxg) ← status_run st l' rxg;
      Some (status :: ss, rxg)
  end.

(** C24: a device that missed an update never looks up-to-date again. Along any
    sequence of computations of the status, with any devices up or down and any
    number of wrap-arounds of the tags, no assertion fails, and a device is
    up-to-date at the end exactly when it was at the start and was up at every
    computation that did not find the group offline. *)
Theorem outdated_stays_outdated st l now ds rxg :
  (∀ up m, (up, m) ∈ l → (∃ out, pool m st out) ∧ devs_wf m st rxg) → dated now ds rxg →
  ∃ ss rxg', status_run st l rxg = Some (ss, rxg') ∧ length ss = length l ∧
    ∀ i, (i < Z.to_nat (nb_rain1_rdevs rxg))%nat →
      uptodate rxg' i = true ↔
      uptodate rxg i = true ∧
      ∀ k up m s, l !! k = Some (up, m) → ss !! k = Some s → s ≠ EXA_GROUP_OFFLINE → dev_up m rxg i = true.
Proof.
  revert now ds rxg. induction l as [|[up m] l IH]; intros now ds rxg Hl D.
  { exists [], rxg. split_and!; try done. intros i _. split; [|by intros [? _]]. intros Hu. by split. }
  destruct (Hl up m) as [[out P] W]; [left|].
  destruct (status_step up m st out now ds rxg P W D) as (s & rxg1 & now1 & ds1 & E & W1 & L & D1 & Hdev & Hup).
  destruct (IH now1 ds1 rxg1) as (ss & rxg2 & E2 & Hlen & Hrun); [|done|].
  { intros up' m' Hin. destruct (Hl up' m') as [Hp W']; [by right|]. auto. }
  exists (s :: ss), rxg2. cbn [status_run]. rewrite E. returned. rewrite E2. split_and!; [done|simpl; lia|].
  intros i Hi. rewrite Hrun by (by rewrite <- (sl_nb _ _ L)).
  rewrite Hup, andb_true_iff, orb_true_iff, bool_decide_eq_true by done. split.
  - intros [[Hu Hs] Hrest]. split; [done|]. intros [|k] up' m' s' Hk Hk' Hne; simplify_eq/=.
    + by destruct Hs.
    + rewrite <- (Hdev m' i Hi). by eapply Hrest.
  - intros [Hu Hall]. split_and!; [done| |].
    + destruct (decide (s = EXA_GROUP_OFFLINE)) as [->|Hne]; [by left|right]. by apply (Hall O up m s).
    + intros k up' m' s' Hk Hk' Hne. rewrite (Hdev m' i Hi). by apply (Hall (S k) up' m' s').
Qed.

(** A device that is fine stays so when the tags are incremented. *)
Lemma dev_fine_step m st rxg rxg' p :
  devs_wf m st rxg → p ∈ storage_rdevs st → dev_fine m rxg p →
  rdevs_by (tag_step m (rxg_sync_tag rxg)) rxg rxg' → rxg_sync_tag rxg' = sync_tag_inc (rxg_sync_tag rxg) →
  dev_fine m rxg' p.
Proof.
  intros W Hp (r & lr & Hr & Hlr & Hok & Hup) [L HR] T.
  destruct (dw_st _ _ _ W p Hp) as (r2 & lr2 & Hr2 & Hx & Hlr2 & Hpp).
  assert (r2 = r) as -> by congruence.
  assert (Ea : rain1_rdevs rxg !! Z.to_nat (r_index r) = Some (Some lr)).
  { unfold RAIN1_REALDEV in Hlr. destruct (rain1_rdevs rxg !! _) as [o|]; [|done]. simpl in Hlr. by rewrite Hlr. }
  destruct (HR _ _ Hx Ea) as (lr' & E' & _ & r' & Hr' & Ht). assert (r' = r) as -> by congruence.
  exists r, lr'. split_and!; try done.
  - unfold RAIN1_REALDEV. by rewrite E'.
  - unfold rdev_is_ok in Hok. apply andb_true_iff in Hok as [Hu _].
    unfold rain1_rdev_is_uptodate, sync_tag_is_equal in *. rewrite T, Ht. unfold next_tag.
    rewrite Hu, Hup. cbn [andb]. rewrite comparable_refl. apply Z.eqb_refl.
Qed.

Lemma fine_replica rxg w n m c s b loc :
  replica_spec rxg w n m c s b loc → dev_fine m rxg (c_rdev c) →
  ∃ l r, loc = Some l ∧ rain1_rdev_location_readable l = true ∧ m !! l_rdev l = Some r ∧ rdev_is_ok r = true.
Proof.
  intros (r & lr & Hr & Hlr & Hloc) (r' & lr' & Hr' & Hlr' & Hok & Hup).
  assert (r' = r) as -> by congruence. assert (lr' = lr) as -> by congruence.
  rewrite Hok, Hup in Hloc. cbn [andb orb] in Hloc. destruct loc as [l|]; [|done].
  destruct Hloc as (_ & El & _ & _ & Eu). exists l, r. unfold rain1_rdev_location_readable.
  rewrite El, Eu. done.
Qed.

(** C12: a sector is readable as long as the group is not offline. When the
    status of a group is computed and is not offline (all SPOF groups are fine,
    or one of them has a defect), every sector of every volume has a location
    that is up-to-date on a device that is up. The well-formedness [rain1_ok]
    includes that the tags of the devices are comparable with [SYNC_TAG_ZERO]:
    the tags in the middle of the range are not covered. *)
Theorem group_not_offline_readable up m st rxg status rxg' n i av ds v k :
  rain1_compute_status up m st rxg = Some (status, rxg') → status ≠ EXA_GROUP_OFFLINE →
  devs_wf m st rxg → rain1_ok m st rxg' n →
  subspaces (assembly_group rxg') !! i = Some av → rain1_group_get_slot_data_size rxg' = Some ds →
  0 <= v < total_slots_count av * ds → 2 <= k →
  ∃ locs l r, rain1_volume2rdev m rxg' av v k = Some locs ∧ l ∈ locs ∧
    rain1_rdev_location_readable l = true ∧ m !! l_rdev l = Some r ∧ rdev_is_ok r = true.
Proof.
  intros E Hs W R Hi Hds Hv Hk. pose proof (ro_pool _ _ _ _ R) as P.
  destruct (compute_status_ok up m st _ rxg P W) as (d & rxg2 & Ed & E2 & Heff & _).
  rewrite E in E2. injection E2 as -> ->. unfold status_effect in Heff.
  rewrite bool_decide_eq_false_2 in Heff by done. destruct Heff as [HR T].
  destruct (count_defects_ok m st _ rxg (spof_groups st) P W) as (d' & Ed' & Hd0 & _ & Hd); [done|].
  assert (d' = d) as -> by congruence.
  destruct (replicas_ok m st rxg2 n i av ds v k R Hi Hds Hv Hk)
    as (ms & slot & c0 & c1 & g0 & g1 & l0 & l1 & El & _ & _ & _ & _ & _ & _ & (sg0 & Hg0 & Hc0) & (sg1 & Hg1 & Hc1) & Hne & S0 & S1 & _).
  assert (Hle : d <= 1) by (unfold status_of in Hs; repeat case_match; bool_to_prop; (done || lia)).
  assert (Hfine : ∀ g sg c, spof_groups st !! g = Some sg → c_rdev c ∈ sg_rdevs sg → group_fine m rxg sg →
    dev_fine m rxg2 (c_rdev c)).
  { intros g sg c Hg Hc Hf. eapply dev_fine_step; [exact W|..|by apply Hf|done|done].
    apply storage_rdevs_elem. exists sg. split; [by eapply list_elem_of_lookup_2|done]. }
  destruct (Hd Hle g0 g1 sg0 sg1 Hg0 Hg1 Hne) as [Hf|Hf].
  - destruct (fine_replica _ _ _ _ _ _ _ _ S0 (Hfine g0 sg0 c0 Hg0 Hc0 Hf)) as (l & r & -> & H).
    eexists _, l, r. split_and!; [exact El|left|apply H..].
  - destruct (fine_replica _ _ _ _ _ _ _ _ S1 (Hfine g1 sg1 c1 Hg1 Hc1 Hf)) as (l & r & -> & H).
    eexists _, l, r. split_and!; [exact El| |apply H..]. destruct l0; cbn; [right; left|left].
Qed.

(** A group at date 4 whose second device was not updated since date 2. *)
Definition late_group : rain1_group_t :=
  set_rdevs (rain1_group (tag_at 4)) [rain1_lr (tag_at 4) 1; rain1_lr (tag_at 2) 2; rain1_lr (tag_at 4) 3].

Definition dev_check (m : mem) (rxg : rain1_group_t) (p : Z) : bool :=
  match m !! p with
  | Some r => match RAIN1_REALDEV rxg r with
              | Some lr => (lr_rdev lr =? p) && (Z.to_nat (r_index r) <? Z.to_nat (nb_rain1_rdevs rxg))%nat
              | None => false
              end
  | None => false
  end.

Lemma dev_check_ok m rxg p :
  dev_check m rxg p = true →
  ∃ r lr, m !! p = Some r ∧ (Z.to_nat (r_index r) < Z.to_nat (nb_rain1_rdevs rxg))%nat ∧
    RAIN1_REALDEV rxg r = Some lr ∧ lr_rdev lr = p.
Proof.
  unfold dev_check. destruct (m !! p) as [r|]; [|done].
  destruct (RAIN1_REALDEV rxg r) as [lr|] eqn:E; [|done]. intros [H1 H2]%andb_true_iff.
  apply Z.eqb_eq in H1. apply Nat.ltb_lt in H2. by exists r, lr.
Qed.

Lemma late_group_wf : devs_wf rain1_mem rain1_storage late_group.
Proof.
  split.
  - intros i Hi. change (Z.to_nat (nb_rain1_rdevs late_group)) with 3%nat in Hi.
    assert (i = 0 ∨ i = 1 ∨ i = 2)%nat as [-> | [-> | ->]] by lia; eexists _, _; vm_compute; done.
  - intros p Hp. change (storage_rdevs rain1_storage) with [1; 2; 3] in Hp.
    apply dev_check_ok. rewrite !elem_of_cons in Hp.
    destruct Hp as [->|[->|[->|Hp]]]; [vm_compute; reflexivity..|]. destruct (proj1 (elem_of_nil _) Hp).
Qed.

Lemma twice_lookup {A B} (a x : A) (b y : B) (k : nat) : [(a, b); (a, b)] !! k = Some (x, y) → y = b.
Proof. destruct k as [|[|k]]; simpl; intros H; by simplify_eq. Qed.

Lemma outdated_stays_outdated_witness :
  ∃ ss rxg', status_run rain1_storage [(EXA_NODESET_EMPTY, rain1_mem); (EXA_NODESET_EMPTY, rain1_mem)]
      late_group = Some (ss, rxg') ∧ uptodate rxg' 0 = true ∧ uptodate rxg' 1 = false.
Proof.
  destruct (outdated_stays_outdated rain1_storage
    [(EXA_NODESET_EMPTY, rain1_mem); (EXA_NODESET_EMPTY, rain1_mem)] 4
    (λ i, if (i =? 1)%nat then Some 2 else Some 4) late_group) as (ss & rxg' & E & _ & H).
  - intros up m Hin. apply list_elem_of_lookup in Hin as [k Hk]. apply twice_lookup in Hk. rewrite Hk.
    split; [|exact late_group_wf]. exists (ag_chunks rain1_start.2). exact (proj1 rain1_start_ok).
  - split; [vm_compute; reflexivity|]. intros i lr Hi. change (Z.to_nat (nb_rain1_rdevs late_group)) with 3%nat in Hi.
    assert (i = 0 ∨ i = 1 ∨ i = 2)%nat as [-> | [-> | ->]] by lia; vm_compute; intros Hlr; injection Hlr as <-;
      (split; [reflexivity|split; intros Hd; discriminate Hd]).
  - exists ss, rxg'. split; [exact E|]. split.
    + apply H; [vm_compute; lia|]. split; [vm_compute; reflexivity|].
      intros k up m s Hk _ _. apply twice_lookup in Hk. rewrite Hk. vm_compute. reflexivity.
    + apply not_true_iff_false. intros Hu. apply H in Hu; [|vm_compute; lia].
      destruct Hu as [Hu _]. vm_compute in Hu. discriminate Hu.
Defined.

Definition late_result : option (exa_group_status_t * rain1_group_t) :=
  rain1_compute_status EXA_NODESET_EMPTY rain1_mem rain1_storage late_group.

Definition late_after : rain1_group_t := default late_group (snd <$> late_result).

Lemma late_after_ok : rain1_ok rain1_mem rain1_storage late_after 16.
Proof.
  destruct rain1_start_ok as [P Hag].
  assert (Hdev : ∀ p, p ∈ storage_rdevs rain1_storage → match rain1_mem !! p with
    | None => False
    | Some r => chunk_size (chunks r) = 256 ∧
        match RAIN1_REALDEV late_after r with
        | Some lr => sync_tags_are_comparable SYNC_TAG_ZERO (lr_sync_tag lr) = true
        | None => False
        end
    end).
  { intros p Hp. change (storage_rdevs rain1_storage) with [1; 2; 3] in Hp.
    rewrite !elem_of_cons in Hp. destruct Hp as [->|[->|[->|Hp]]];
      [vm_compute; split; reflexivity..|destruct (proj1 (elem_of_nil _) Hp)]. }
  split.
  - split; vm_compute; reflexivity || (intros H; discriminate H).
  - exact Hag.
  - exact P.
  - intros p r Hp Hr. specialize (Hdev p Hp). rewrite Hr in Hdev. exact (proj1 Hdev).
  - intros p Hp. specialize (Hdev p Hp). revert Hdev. unfold dev_ok. generalize (rain1_mem !! p).
    intros [r|] Hdev; [|destruct Hdev]. destruct Hdev as [_ Hc]. revert Hc.
    destruct (RAIN1_REALDEV late_after r) as [lr|] eqn:Hlr; [|intros []]. intros Hc.
    exists r, lr. exact (conj eq_refl (conj Hlr Hc)).
Qed.

Lemma group_not_offline_readable_witness :
  (fst <$> late_result) = Some EXA_GROUP_DEGRADED ∧
  ∃ locs l, rain1_volume2rdev rain1_mem late_after rain1_av 200 3 = Some locs ∧ l ∈ locs ∧
    rain1_rdev_location_readable l = true.
Proof.
  split; [vm_compute; reflexivity|].
  destruct (group_not_offline_readable EXA_NODESET_EMPTY rain1_mem rain1_storage late_group
    EXA_GROUP_DEGRADED late_after 16 O rain1_av 128 200 3) as (locs & l & r & E & Hl & Hr & _).
  - vm_compute. reflexivity.
  - discriminate.
  - exact late_group_wf.
  - exact late_after_ok.
  - vm_compute. reflexivity.
  - vm_compute. reflexivity.
  - vm_compute. split; [intros H; discriminate H|reflexivity].
  - lia.
  - exists locs, l. exact (conj E (conj Hl Hr)).
Defined.
