(* ===== verification/Bytes.v ===== *)
(** * Ranges of bytes and their integers

    A memory or device area is a list of bytes (integers between 0 and 255);
    offsets and sizes are those of the code. [slice] reads a range, [splice]
    overwrites one; [le_bytes] and [le_val] are the representation of
    unsigned integers in memory (little endian), which the code writes with
    the structures that are saved on disk. *)
From S2P Require Import Prelude.
From stdpp Require Import options.

Definition bytes_ok (l : list Z) : Prop := Forall (fits 8) l.

Definition len (l : list Z) : Z := Z.of_nat (length l).

(** [memcpy (buf, l + o, n)] *)
Definition slice (o n : Z) (l : list Z) : list Z := take (Z.to_nat n) (drop (Z.to_nat o) l).

(** [memcpy (l + o, d, |d|)] *)
Definition splice (o : Z) (d l : list Z) : list Z :=
  take (Z.to_nat o) l ++ d ++ drop (Z.to_nat o + length d) l.

Lemma len_nonneg l : 0 <= len l.
Proof. unfold len. lia. Qed.

Lemma len_app l l' : len (l ++ l') = len l + len l'.
Proof. unfold len. rewrite length_app. lia. Qed.

Lemma len_slice o n l : 0 <= o → 0 <= n → o + n <= len l → len (slice o n l) = n.
Proof. unfold len, slice. intros. rewrite length_take, length_drop. lia. Qed.

Lemma len_splice o d l : 0 <= o → o + len d <= len l → len (splice o d l) = len l.
Proof.
  unfold len, splice. intros. rewrite !length_app, length_take, length_drop. lia.
Qed.

Lemma lookup_slice o n l i :
  0 <= o → (Z.of_nat i < n) → slice o n l !! i = l !! (Z.to_nat o + i)%nat.
Proof. intros. unfold slice. rewrite lookup_take_lt by lia. by rewrite lookup_drop. Qed.

Lemma lookup_slice_ge o n l i : n <= Z.of_nat i → slice o n l !! i = None.
Proof. intros. unfold slice. apply lookup_take_ge. lia. Qed.

Lemma lookup_splice_in o d l i :
  0 <= o → o + len d <= len l → o <= Z.of_nat i < o + len d →
  splice o d l !! i = d !! (i - Z.to_nat o)%nat.
Proof.
  unfold len, splice. intros. rewrite lookup_app_r by (rewrite length_take; lia).
  rewrite length_take, lookup_app_l by lia. f_equal. lia.
Qed.

Lemma lookup_splice_out o d l i :
  0 <= o → o + len d <= len l → (Z.of_nat i < o ∨ o + len d <= Z.of_nat i) →
  splice o d l !! i = l !! i.
Proof.
  unfold len, splice. intros ? ? [?|?].
  - rewrite lookup_app_l by (rewrite length_take; lia). apply lookup_take_lt. lia.
  - rewrite lookup_app_r by (rewrite length_take; lia). rewrite length_take.
    rewrite lookup_app_r by lia. rewrite lookup_drop. f_equal. lia.
Qed.

(** Two lists of the same length are equal when they agree everywhere. *)
Lemma list_eq_len (l l' : list Z) :
  len l = len l' → (∀ i, Z.of_nat i < len l → l !! i = l' !! i) → l = l'.
Proof.
  unfold len. intros Hl H. apply list_eq. intros i.
  destruct (decide (Z.of_nat i < Z.of_nat (length l))); [by apply H|].
  by rewrite !lookup_ge_None_2 by lia.
Qed.

Lemma slice_splice_in o d l i n :
  0 <= o → o + len d <= len l → 0 <= i → 0 <= n → i + n <= len d →
  slice (o + i) n (splice o d l) = slice i n d.
Proof.
  intros. apply list_eq_len.
  { rewrite !len_slice; rewrite ?len_splice; lia. }
  intros k. rewrite len_slice by (rewrite ?len_splice; lia). intros Hk.
  rewrite !lookup_slice, lookup_splice_in by lia. f_equal. lia.
Qed.

Lemma slice_all l : slice 0 (len l) l = l.
Proof. unfold slice, len. rewrite Nat2Z.id. simpl. rewrite drop_0. apply firstn_all. Qed.

Lemma slice_splice_same o d l :
  0 <= o → o + len d <= len l → slice o (len d) (splice o d l) = d.
Proof.
  intros. rewrite <- (slice_all d) at 3. rewrite <- (slice_splice_in o d l 0) by (lia || apply len_nonneg).
  by rewrite Z.add_0_r.
Qed.

Lemma slice_splice_out o d l i n :
  0 <= o → o + len d <= len l → 0 <= i → 0 <= n → i + n <= len l →
  (i + n <= o ∨ o + len d <= i) → slice i n (splice o d l) = slice i n l.
Proof.
  intros. apply list_eq_len.
  { rewrite !len_slice; rewrite ?len_splice; lia. }
  intros k. rewrite len_slice by (rewrite ?len_splice; lia). intros Hk.
  rewrite !lookup_slice, lookup_splice_out by lia. done.
Qed.

Lemma splice_slice o n l : 0 <= o → 0 <= n → o + n <= len l → splice o (slice o n l) l = l.
Proof.
  intros. assert (El : len (slice o n l) = n) by (by apply len_slice).
  apply list_eq_len; [by rewrite len_splice by lia|].
  rewrite len_splice by lia. intros i Hi.
  destruct (decide (o <= Z.of_nat i < o + n)).
  - rewrite lookup_splice_in, lookup_slice by lia. f_equal. lia.
  - apply lookup_splice_out; lia.
Qed.

Lemma slice_app o n m l :
  0 <= o → 0 <= n → 0 <= m → slice o (n + m) l = slice o n l ++ slice (o + n) m l.
Proof.
  intros. unfold slice. rewrite !Z2Nat.inj_add by lia. rewrite <- drop_drop.
  generalize (drop (Z.to_nat o) l). intros l'. symmetry. apply take_take_drop.
Qed.

Lemma slice_slice o n i m l :
  0 <= o → 0 <= i → 0 <= m → i + m <= n → slice i m (slice o n l) = slice (o + i) m l.
Proof.
  intros. unfold slice. rewrite !Z2Nat.inj_add by lia. rewrite <- drop_drop.
  rewrite skipn_firstn_comm, take_take. f_equal. lia.
Qed.

Lemma splice_app o d d' l :
  0 <= o → o + len d + len d' <= len l →
  splice (o + len d) d' (splice o d l) = splice o (d ++ d') l.
Proof.
  intros. pose proof (len_nonneg d). pose proof (len_nonneg d').
  assert (len (splice o d l) = len l) by (apply len_splice; lia).
  apply list_eq_len; rewrite ?len_splice; rewrite ?len_splice, ?len_app; try lia.
  intros i Hi. destruct (decide (o + len d <= Z.of_nat i < o + len d + len d')).
  { rewrite lookup_splice_in by lia. rewrite (lookup_splice_in o) by (rewrite ?len_app; lia).
    unfold len in *. rewrite lookup_app_r by lia. f_equal. lia. }
  rewrite lookup_splice_out by lia.
  destruct (decide (o <= Z.of_nat i < o + len d)).
  { rewrite !lookup_splice_in by (rewrite ?len_app; lia).
    unfold len in *. by rewrite lookup_app_l by lia. }
  rewrite !lookup_splice_out by (rewrite ?len_app; lia). done.
Qed.

(** Overwriting inside of a range that overlays [l]. *)
Lemma splice_splice o b i d l :
  0 <= o → o + len b <= len l → 0 <= i → i + len d <= len b →
  splice o (splice i d b) l = splice (o + i) d (splice o b l).
Proof.
  intros. pose proof (len_nonneg d).
  assert (len (splice i d b) = len b) by (apply len_splice; lia).
  assert (len (splice o b l) = len l) by (apply len_splice; lia).
  apply list_eq_len; rewrite !len_splice by lia; [done|]. intros k Hk.
  destruct (decide (o + i <= Z.of_nat k < o + i + len d)).
  { rewrite !lookup_splice_in by lia. f_equal. lia. }
  rewrite (lookup_splice_out (o + i)) by lia.
  destruct (decide (o <= Z.of_nat k < o + len b)).
  { rewrite !(lookup_splice_in o) by lia. apply lookup_splice_out; lia. }
  by rewrite !lookup_splice_out by lia.
Qed.

Lemma slice_0 o l : slice o 0 l = [].
Proof. unfold slice. simpl. apply take_0. Qed.

Lemma splice_nil o l : 0 <= o → splice o [] l = l.
Proof.
  intros. unfold splice. simpl. rewrite Nat.add_0_r. apply take_drop.
Qed.

(** [l'] is [l] except at the offsets in [M]. *)
Definition agree_out (M : Z → Prop) (l l' : list Z) : Prop :=
  len l' = len l ∧ ∀ i : nat, ¬ M (Z.of_nat i) → l' !! i = l !! i.

#[export] Instance agree_out_equiv M : Equivalence (agree_out M).
Proof.
  split.
  - by split.
  - intros l l' [? H]. split; [done|]. intros. symmetry. auto.
  - intros l l' l'' [? H] [? H']. split; [congruence|]. intros i Hi. by rewrite H', H.
Qed.

Lemma agree_out_weaken (M M' : Z → Prop) l l' :
  (∀ i, M i → M' i) → agree_out M l l' → agree_out M' l l'.
Proof. intros HM [Hl H]. split; [done|]. intros i Hi. apply H. auto. Qed.

Lemma agree_out_splice (M : Z → Prop) o d l :
  0 <= o → o + len d <= len l → (∀ i, o <= i < o + len d → M i) → agree_out M l (splice o d l).
Proof.
  intros ? ? HM. split; [by apply len_splice|]. intros i Hi. apply lookup_splice_out; [done..|].
  destruct (decide (Z.of_nat i < o)); [by left|]. right.
  destruct (decide (o + len d <= Z.of_nat i)); [done|]. exfalso. apply Hi, HM. lia.
Qed.

Lemma agree_out_slice (M : Z → Prop) o n l l' :
  0 <= o → 0 <= n → o + n <= len l → agree_out M l l' → (∀ i, o <= i < o + n → ¬ M i) →
  slice o n l' = slice o n l.
Proof.
  intros ? ? ? [Hl H] HM. apply list_eq_len; rewrite !len_slice; try lia.
  intros i Hi. rewrite !lookup_slice by lia. apply H, HM. lia.
Qed.

Lemma bytes_ok_slice o n l : bytes_ok l → bytes_ok (slice o n l).
Proof. intros. by apply Forall_take, Forall_drop. Qed.

Lemma bytes_ok_splice o d l : bytes_ok d → bytes_ok l → bytes_ok (splice o d l).
Proof.
  intros. apply Forall_app. split; [by apply Forall_take|].
  apply Forall_app. split; [done|]. by apply Forall_drop.
Qed.

(** ** Integers in memory *)

Fixpoint le_bytes (n : nat) (x : Z) : list Z :=
  match n with
  | O => []
  | S n' => x mod 256 :: le_bytes n' (x / 256)
  end.

Definition le_val (l : list Z) : Z := foldr (λ b acc, b + 256 * acc) 0 l.

Lemma length_le_bytes n x : length (le_bytes n x) = n.
Proof. revert x. induction n as [|n IH]; intros x; simpl; [done|]. by rewrite IH. Qed.

Lemma len_le_bytes n x : len (le_bytes n x) = Z.of_nat n.
Proof. unfold len. by rewrite length_le_bytes. Qed.

Lemma le_bytes_ok n x : bytes_ok (le_bytes n x).
Proof.
  revert x. induction n as [|n IH]; intros x; simpl; [constructor|]. constructor; [|apply IH].
  unfold fits. pose proof (Z.mod_pos_bound x 256 ltac:(lia)). lia.
Qed.

Lemma le_val_bytes n x : 0 <= x < 256 ^ Z.of_nat n → le_val (le_bytes n x) = x.
Proof.
  revert x. induction n as [|n IH]; intros x Hx; cbn [le_bytes le_val foldr].
  { simpl in Hx. lia. }
  fold (le_val (le_bytes n (x / 256))).
  rewrite Nat2Z.inj_succ, Z.pow_succ_r in Hx by lia.
  pose proof (Z.div_mod x 256 ltac:(lia)).
  rewrite IH; [lia|]. split; [apply Z.div_pos; lia|]. apply Z.div_lt_upper_bound; lia.
Qed.

Lemma le_val_fits l : bytes_ok l → 0 <= le_val l < 256 ^ len l.
Proof.
  unfold len. induction 1 as [|b l Hb Hl IH]; [simpl; lia|].
  cbn [le_val foldr length]. fold (le_val l). rewrite Nat2Z.inj_succ, Z.pow_succ_r by lia.
  unfold fits in Hb. lia.
Qed.

Lemma le_bytes_val l : bytes_ok l → le_bytes (length l) (le_val l) = l.
Proof.
  induction 1 as [|b l Hb Hl IH]; [done|]. cbn [le_val foldr length le_bytes]. fold (le_val l).
  unfold fits in Hb. replace (b + 256 * le_val l) with (b + le_val l * 256) by lia.
  rewrite Z.mod_add, Z.div_add by lia. rewrite Z.mod_small, Z.div_small by lia.
  by rewrite Z.add_0_l, IH.
Qed.

(** *** Fields of a structure in memory *)

Lemma slice_head n x l : slice 0 (Z.of_nat n) (le_bytes n x ++ l) = le_bytes n x.
Proof.
  unfold slice. simpl. rewrite drop_0, Nat2Z.id, take_app_length' by (symmetry; apply length_le_bytes). done.
Qed.

Lemma slice_tail n o m x l :
  Z.of_nat n <= o → slice o m (le_bytes n x ++ l) = slice (o - Z.of_nat n) m l.
Proof.
  intros. unfold slice. f_equal. rewrite drop_app, length_le_bytes.
  rewrite drop_ge by (rewrite length_le_bytes; lia). simpl. f_equal. lia.
Qed.

Lemma slice_skip a o m l k : len a = k → k <= o → slice o m (a ++ l) = slice (o - k) m l.
Proof.
  intros <- ?. unfold slice, len in *. f_equal. rewrite drop_app, drop_ge by lia. simpl. f_equal. lia.
Qed.

(** Reduce the fields that are read from a sequence of fields. *)
Ltac read_fields :=
  repeat match goal with
  | |- context [ slice 0 ?k (le_bytes ?n ?x ++ ?l) ] =>
      change (slice 0 k (le_bytes n x ++ l)) with (slice 0 (Z.of_nat n) (le_bytes n x ++ l));
      rewrite slice_head
  | |- context [ slice ?o ?m (le_bytes ?n ?x ++ ?l) ] =>
      rewrite (slice_tail n o m x l) by (vm_compute; discriminate);
      let o' := eval vm_compute in (o - Z.of_nat n) in
      change (o - Z.of_nat n) with o'
  end.
