(* ===== verification/Checksum.v ===== *)
(** * Checksum of superblocks (common/lib/checksum.c)

    The 16 bit checksum of a sequence of buffers, with the byte that is kept
    between two buffers when the size fed so far is odd. Bytes are integers
    between 0 and 255. The result only depends on the bytes, whatever the way
    they are split in buffers, is the complement of the one's complement sum
    of their 16 bit words, and changes with any byte. *)
From S2P Require Import Prelude Bytes.
From stdpp Require Import options.

(** ** Operations *)

Record checksum_context_t := mk_checksum {
  total_size : Z;
  latched_byte : Z;
  latched : bool;
  sum : Z
}.

Definition checksum_reset : checksum_context_t := mk_checksum 0 0 false 0.

Definition chksum_pair (sum a b : Z) : Z :=
  let word16 := u16 (a + Z.shiftl b 8) in u32 (sum + word16).

(** [n] rounds of the loop, from index [i], an [int]: the increment that
    overflows is [None]. *)
Fixpoint chksum_loop (n i : nat) (new_sum : Z) (buf : list Z) : option Z :=
  match n with
  | O => Some new_sum
  | S n' =>
      a ← buf !! i;
      b ← buf !! S i;
      assert! (Z.of_nat i + 2 <? 2 ^ 31);
      chksum_loop n' (S (S i)) (chksum_pair new_sum a b) buf
  end.

Definition chksum_array (sum : Z) (buf : list Z) (size : Z) : option Z :=
  let size := if negb (size mod 2 =? 0) then size - 1 else size in
  chksum_loop (Z.to_nat (size / 2)) 0 sum buf.

Definition checksum_feed (ctx : checksum_context_t) (byte_buf : list Z)
    : option checksum_context_t :=
  let size := Z.of_nat (length byte_buf) in
  if size =? 0 then Some ctx
  else
    '(latched_byte', latched', sum') ←
      (if latched ctx then
         b ← byte_buf !! O;
         let s := chksum_pair (sum ctx) (latched_byte ctx) b in
         if size mod 2 =? 0 then
           s ← chksum_array s (drop 1 byte_buf) (size - 2);
           l ← byte_buf !! Z.to_nat (size - 1);
           Some (l, true, s)
         else
           s ← chksum_array s (drop 1 byte_buf) (size - 1);
           Some (latched_byte ctx, false, s)
       else
         if size mod 2 =? 0 then
           s ← chksum_array (sum ctx) byte_buf size;
           Some (latched_byte ctx, false, s)
         else
           s ← chksum_array (sum ctx) byte_buf (size - 1);
           l ← byte_buf !! Z.to_nat (size - 1);
           Some (l, true, s));
    Some (mk_checksum (u64 (total_size ctx + size)) latched_byte' latched' sum').

(** [while (sum >> 16)] *)
Fixpoint fold_loop (fuel : nat) (sum : Z) : option Z :=
  match fuel with
  | O => None
  | S fuel' =>
      if Z.shiftr sum 16 =? 0 then Some sum
      else fold_loop fuel' (u32 (Z.land sum 0xFFFF + Z.shiftr sum 16))
  end.

Definition checksum_get_value (ctx : checksum_context_t) : option Z :=
  if total_size ctx =? 0 then Some 0
  else
    sum ← (if negb (total_size ctx mod 2 =? 0) then
             assert! latched ctx;
             Some (chksum_pair (sum ctx) (latched_byte ctx) 0)
           else Some (sum ctx));
    sum ← fold_loop 3 sum;
    Some (u16 (u32 (Z.lnot sum))).

Definition checksum_get_size (ctx : checksum_context_t) : Z := total_size ctx.

Definition exa_checksum (buffer : list Z) : option Z :=
  ctx ← checksum_feed checksum_reset buffer;
  checksum_get_value ctx.

(** ** Specification *)

(** The sum of the 16 bit words of [l], low byte first; [high] tells whether
    the first byte of [l] is the high byte of a word. *)
Fixpoint word_sum (high : bool) (l : list Z) : Z :=
  match l with
  | [] => 0
  | x :: l' => (if high then 256 * x else x) + word_sum (negb high) l'
  end.

(** The representative between 1 and 65535 of a positive sum, modulo 65535. *)
Definition fold16 (s : Z) : Z := if s =? 0 then 0 else (s - 1) mod 65535 + 1.

Definition checksum_of (l : list Z) : Z :=
  if bool_decide (l = []) then 0 else 65535 - fold16 (u32 (word_sum false l)).

(** [ctx] is the context after the bytes [l]. *)
Record fed (ctx : checksum_context_t) (l : list Z) : Prop := {
  fd_size : total_size ctx = u64 (Z.of_nat (length l));
  fd_latched : latched ctx = Nat.odd (length l);
  fd_byte : fits 8 (latched_byte ctx);
  fd_sum32 : fits 32 (sum ctx);
  fd_sum : u32 (sum ctx + if latched ctx then latched_byte ctx else 0)
           = u32 (word_sum false l)
}.

(** What may be fed at once: the index of the loop is an [int]. *)
Definition buffer_ok (b : list Z) : Prop := bytes_ok b ∧ Z.of_nat (length b) < 2 ^ 31.

(** ** Proofs *)

Lemma word_sum_app h l m :
  word_sum h (l ++ m) = word_sum h l + word_sum (xorb h (Nat.odd (length l))) m.
Proof.
  revert h. induction l as [|x l IH]; intros h; simpl; [by rewrite xorb_false_r|].
  rewrite IH, Nat.odd_succ, <- Nat.negb_odd.
  replace (xorb (negb h) (Nat.odd (length l))) with (xorb h (negb (Nat.odd (length l))))
    by (by destruct h, (Nat.odd (length l))).
  lia.
Qed.

Lemma word_sum_bounds h l : bytes_ok l → 0 <= word_sum h l.
Proof.
  intros Hl. revert h. induction Hl as [|x l Hx Hl IH]; intros h; simpl; [lia|].
  specialize (IH (negb h)). unfold fits in Hx. destruct h; lia.
Qed.

Lemma chksum_pair_spec s a b : fits 8 a → fits 8 b → chksum_pair s a b = u32 (s + (a + 256 * b)).
Proof.
  unfold fits, chksum_pair, u16. intros Ha Hb. rewrite Z.shiftl_mul_pow2 by lia.
  rewrite (Z.mod_small (a + b * 2 ^ 8)) by lia. f_equal. lia.
Qed.

Lemma u32_add_l x y : u32 (u32 x + y) = u32 (x + y).
Proof. unfold u32. by rewrite Zplus_mod_idemp_l. Qed.

Lemma u32_congr x y z : u32 x = u32 y → u32 (x + z) = u32 (y + z).
Proof. intros H. by rewrite <- u32_add_l, H, u32_add_l. Qed.

(** The loop adds the words of an even number of bytes. *)
Lemma chksum_loop_spec n i s buf :
  bytes_ok buf → fits 32 s → (i + 2 * n ≤ length buf)%nat → Z.of_nat (i + 2 * n) < 2 ^ 31 →
  chksum_loop n i s buf = Some (u32 (s + word_sum false (take (2 * n) (drop i buf)))).
Proof.
  intros Hb. revert i s. induction n as [|n IH]; intros i s Hs Hn Hi; cbn [chksum_loop].
  { rewrite take_0. simpl. by rewrite Z.add_0_r, u32_id. }
  destruct (lookup_lt_is_Some_2 buf i) as [a Ha]; [lia|].
  destruct (lookup_lt_is_Some_2 buf (S i)) as [b Hb']; [lia|].
  rewrite Ha, Hb'. do 2 returned. rewrite (proj2 (Z.ltb_lt _ _)) by lia. cbn [exa_assert].
  assert (fits 8 a) by (by eapply Forall_lookup_1).
  assert (fits 8 b) by (by eapply Forall_lookup_1).
  rewrite chksum_pair_spec by done. rewrite IH by (eauto with exa; lia).
  rewrite (drop_S _ _ _ Ha), (drop_S _ _ _ Hb').
  replace (2 * S n)%nat with (S (S (2 * n))) by lia. cbn [take word_sum negb].
  rewrite u32_add_l. do 2 f_equal. lia.
Qed.

Lemma chksum_array_spec s buf size :
  bytes_ok buf → fits 32 s → 0 <= size <= Z.of_nat (length buf) → size < 2 ^ 31 → size mod 2 = 0 →
  chksum_array s buf size = Some (u32 (s + word_sum false (take (Z.to_nat size) buf))).
Proof.
  intros Hb Hs Hz Hm He. unfold chksum_array. rewrite He. cbn [negb Z.eqb].
  pose proof (Z.div_mod size 2 ltac:(lia)).
  rewrite chksum_loop_spec by (done || lia).
  rewrite drop_0. by replace (2 * Z.to_nat (size / 2))%nat with (Z.to_nat size) by lia.
Qed.

Lemma mod2_odd (n : nat) : (Z.of_nat n mod 2 =? 0) = negb (Nat.odd n).
Proof.
  destruct (Nat.Even_or_Odd n) as [[k ->] | [k ->]].
  - replace (Nat.odd (2 * k)) with false by (symmetry; by rewrite <- Nat.negb_even, Nat.even_mul).
    rewrite Nat2Z.inj_mul, Z.mul_comm, Z.mod_mul by lia. done.
  - replace (Nat.odd (2 * k + 1)) with true.
    2:{ symmetry. apply Nat.odd_spec. by exists k. }
    replace (Z.of_nat (2 * k + 1)) with (1 + Z.of_nat k * 2) by lia.
    by rewrite Z.mod_add by lia.
Qed.

Lemma fed_reset : fed checksum_reset [].
Proof. by split. Qed.

(** Adding the bytes of a buffer when [n] of them are summed and the last one
    may be kept. *)
Lemma word_sum_snoc h l x :
  word_sum h (l ++ [x]) = word_sum h l + if xorb h (Nat.odd (length l)) then 256 * x else x.
Proof. rewrite word_sum_app. simpl. lia. Qed.

Lemma u64_size (l b : list Z) :
  u64 (u64 (Z.of_nat (length l)) + Z.of_nat (length b)) = u64 (Z.of_nat (length (l ++ b))).
Proof. unfold u64. rewrite Zplus_mod_idemp_l, length_app. f_equal. lia. Qed.

(** An even number of bytes is summed at once; an odd number leaves the last
    byte. *)
Lemma chksum_array_all s buf :
  bytes_ok buf → fits 32 s → Nat.odd (length buf) = false → Z.of_nat (length buf) < 2 ^ 31 →
  chksum_array s buf (Z.of_nat (length buf)) = Some (u32 (s + word_sum false buf)).
Proof.
  intros Hb Hs Ho Hl. pose proof (mod2_odd (length buf)) as Hm. rewrite Ho in Hm.
  bool_to_prop. simpl in Hm. apply Z.eqb_eq in Hm.
  rewrite chksum_array_spec by (done || lia). rewrite Nat2Z.id, firstn_all. done.
Qed.

Lemma chksum_loop_app n i s buf buf' :
  (i + 2 * n ≤ length buf)%nat → chksum_loop n i s (buf ++ buf') = chksum_loop n i s buf.
Proof.
  revert i s. induction n as [|n IH]; intros i s Hn; [done|].
  cbn [chksum_loop]. rewrite !lookup_app_l by lia.
  destruct (buf !! i), (buf !! S i); cbn [mbind option_bind]; try done.
  destruct (Z.of_nat i + 2 <? 2 ^ 31); cbn [exa_assert]; [|done]. apply IH. lia.
Qed.

Lemma chksum_array_init s buf x :
  bytes_ok buf → fits 32 s → Nat.odd (length buf) = false → Z.of_nat (length buf) < 2 ^ 31 →
  chksum_array s (buf ++ [x]) (Z.of_nat (length buf)) = Some (u32 (s + word_sum false buf)).
Proof.
  intros Hb Hs Ho Hl. rewrite <- chksum_array_all by done. unfold chksum_array.
  pose proof (mod2_odd (length buf)) as Hm. rewrite Ho in Hm. rewrite Hm. simpl.
  apply Z.eqb_eq in Hm. pose proof (Z.div_mod (Z.of_nat (length buf)) 2 ltac:(lia)).
  apply chksum_loop_app. lia.
Qed.

Lemma fed_intro ctx l b lb s :
  fed ctx l → fits 8 lb → fits 32 s →
  u32 (s + if Nat.odd (length (l ++ b)) then lb else 0) = u32 (word_sum false (l ++ b)) →
  fed (mk_checksum (u64 (total_size ctx + Z.of_nat (length b))) lb (Nat.odd (length (l ++ b))) s)
    (l ++ b).
Proof. intros F ? ? ?. split; simpl; [by rewrite <- u64_size, (fd_size _ _ F)|done..]. Qed.

Lemma odd_snoc (l : list Z) y : Nat.odd (length (l ++ [y])) = negb (Nat.odd (length l)).
Proof. by rewrite length_app, Nat.add_1_r, Nat.odd_succ, <- Nat.negb_odd. Qed.

Lemma odd_cons (l : list Z) x : Nat.odd (length (x :: l)) = negb (Nat.odd (length l)).
Proof. cbn [length]. by rewrite Nat.odd_succ, <- Nat.negb_odd. Qed.

Lemma lookup_last (l : list Z) y n : n = Z.of_nat (length l) → (l ++ [y]) !! Z.to_nat n = Some y.
Proof. intros ->. rewrite Nat2Z.id, lookup_app_r, Nat.sub_diag by lia. done. Qed.

Lemma checksum_feed_even ctx l b :
  fed ctx l → buffer_ok b → Nat.odd (length l) = false →
  ∃ ctx', checksum_feed ctx b = Some ctx' ∧ fed ctx' (l ++ b).
Proof.
  intros F [Hb Hsz] El. pose proof F as [Hz Hla Hby Hs32 Hs]. unfold checksum_feed.
  rewrite El in Hla. rewrite Hla, Z.add_0_r in Hs. rewrite Hla.
  destruct (Z.eqb_spec (Z.of_nat (length b)) 0) as [E|_].
  { destruct b; [exists ctx; by rewrite app_nil_r|done]. }
  rewrite mod2_odd. destruct (Nat.odd (length b)) eqn:Eo; cbn [negb].
  - destruct b as [|y b _] using rev_ind; [done|]. rewrite odd_snoc in Eo. bool_to_prop.
    apply Forall_app in Hb as [Hb [Hy _]%Forall_cons].
    assert (Hsb : Z.of_nat (length b) < 2 ^ 31) by (rewrite length_app in Hsz; lia).
    rewrite length_app, Nat2Z.inj_add, Z.add_simpl_r, chksum_array_init by done. returned.
    rewrite lookup_last by done. do 2 returned. eexists. split; [done|].
    rewrite <- Nat2Z.inj_add, <- length_app.
    replace true with (Nat.odd (length (l ++ b ++ [y]))).
    2:{ by rewrite length_app, Nat.odd_add, El, odd_snoc, Eo. }
    apply fed_intro; eauto with exa.
    rewrite length_app, Nat.odd_add, El, odd_snoc, Eo. cbn [xorb negb].
    rewrite u32_add_l, word_sum_app, word_sum_snoc, El, Eo. cbn [xorb].
    rewrite <- Z.add_assoc. by apply u32_congr.
  - rewrite chksum_array_all by done. do 2 returned. eexists. split; [done|].
    replace false with (Nat.odd (length (l ++ b))).
    2:{ by rewrite length_app, Nat.odd_add, El, Eo. }
    apply fed_intro; eauto with exa.
    rewrite length_app, Nat.odd_add, El, Eo. cbn [xorb].
    rewrite u32_add_l, Z.add_0_r, word_sum_app, El. cbn [xorb]. by apply u32_congr.
Qed.

Lemma checksum_feed_odd ctx l b :
  fed ctx l → buffer_ok b → Nat.odd (length l) = true →
  ∃ ctx', checksum_feed ctx b = Some ctx' ∧ fed ctx' (l ++ b).
Proof.
  intros F [Hb Hsz] El. pose proof F as [Hz Hla Hby Hs32 Hs]. unfold checksum_feed.
  rewrite El in Hla. rewrite Hla in Hs. rewrite Hla.
  destruct b as [|x b]; [exists ctx; by rewrite app_nil_r|].
  apply Forall_cons in Hb as [Hx Hb].
  rewrite (proj2 (Z.eqb_neq _ 0)) by (simpl; lia). rewrite mod2_odd.
  cbn [lookup list_lookup]. returned. rewrite chksum_pair_spec by done. cbn [drop]. rewrite drop_0.
  rewrite odd_cons, negb_involutive. destruct (Nat.odd (length b)) eqn:Eo.
  - destruct b as [|y b _] using rev_ind; [done|]. rewrite odd_snoc in Eo. bool_to_prop.
    apply Forall_app in Hb as [Hb [Hy _]%Forall_cons].
    assert (Hsb : Z.of_nat (length b) < 2 ^ 31) by (cbn [length] in Hsz; rewrite length_app in Hsz; lia).
    replace (Z.of_nat (length (x :: b ++ [y])) - 2) with (Z.of_nat (length b))
      by (simpl; rewrite length_app; simpl; lia).
    rewrite chksum_array_init by eauto with exa. returned.
    change (x :: b ++ [y]) with ((x :: b) ++ [y]).
    rewrite lookup_last by (rewrite length_app; simpl; lia).
    do 2 returned. eexists. split; [done|].
    assert (Eo' : Nat.odd (length (l ++ (x :: b) ++ [y])) = true).
    { by rewrite app_assoc, odd_snoc, length_app, Nat.odd_add, El, odd_cons, Eo. }
    rewrite <- Eo' at 1. apply (fed_intro ctx l ((x :: b) ++ [y])); eauto with exa.
    rewrite Eo', u32_add_l, <- Z.add_assoc, u32_add_l, Z.add_assoc.
    rewrite word_sum_app, word_sum_snoc, El, odd_cons, Eo. cbn [xorb negb word_sum].
    rewrite <- !Z.add_assoc, (Z.add_assoc (sum ctx)). by apply u32_congr.
  - replace (Z.of_nat (length (x :: b)) - 1) with (Z.of_nat (length b)) by (simpl; lia).
    assert (Hsb : Z.of_nat (length b) < 2 ^ 31) by (cbn [length] in Hsz; lia).
    rewrite chksum_array_all by eauto with exa. do 2 returned. eexists. split; [done|].
    assert (Eo' : Nat.odd (length (l ++ x :: b)) = false).
    { by rewrite length_app, Nat.odd_add, El, odd_cons, Eo. }
    rewrite <- Eo' at 1. apply fed_intro; eauto with exa.
    rewrite Eo', u32_add_l, Z.add_0_r, u32_add_l, word_sum_app, El. cbn [xorb negb word_sum].
    rewrite <- !Z.add_assoc, (Z.add_assoc (sum ctx)). by apply u32_congr.
Qed.

Lemma checksum_feed_ok ctx l b :
  fed ctx l → buffer_ok b → ∃ ctx', checksum_feed ctx b = Some ctx' ∧ fed ctx' (l ++ b).
Proof.
  intros F Hb. destruct (Nat.odd (length l)) eqn:El;
    [by apply checksum_feed_odd|by apply checksum_feed_even].
Qed.

(** *** The value *)

Lemma fold16_small s : 0 <= s <= 65535 → fold16 s = s.
Proof.
  intros H. unfold fold16. case_if; [done|]. rewrite Z.mod_small by lia. lia.
Qed.

Lemma fold16_bounds s : 0 <= s → 0 <= fold16 s <= 65535.
Proof.
  intros H. unfold fold16. case_if; [lia|].
  pose proof (Z.mod_pos_bound (s - 1) 65535 ltac:(lia)). lia.
Qed.

(** Positive sums have the same representative iff they are congruent. *)
Lemma fold16_congr s t k : 0 < s → 0 < t → s = t + 65535 * k → fold16 s = fold16 t.
Proof.
  intros Hs Ht ->. unfold fold16. rewrite (proj2 (Z.eqb_neq _ 0)) by lia.
  rewrite (proj2 (Z.eqb_neq _ 0)) by lia.
  replace (t + 65535 * k - 1) with (t - 1 + k * 65535) by lia.
  by rewrite Z.mod_add by lia.
Qed.

Lemma fold16_inj s t : 0 < s → 0 < t → fold16 s = fold16 t → ∃ k, s = t + 65535 * k.
Proof.
  intros Hs Ht. unfold fold16. rewrite (proj2 (Z.eqb_neq s 0)) by lia.
  rewrite (proj2 (Z.eqb_neq t 0)) by lia. intros E.
  exists ((s - 1) / 65535 - (t - 1) / 65535).
  pose proof (Z.div_mod (s - 1) 65535 ltac:(lia)).
  pose proof (Z.div_mod (t - 1) 65535 ltac:(lia)). lia.
Qed.

(** One round of the loop: the halves are added. *)
Definition fold_step (s : Z) : Z := s mod 2 ^ 16 + s / 2 ^ 16.

Lemma fold_step_bounds s b : 0 <= s < 2 ^ 16 * b → 0 < b → 0 <= fold_step s <= 65535 + (b - 1).
Proof.
  intros Hs Hb. unfold fold_step. pose proof (Z.mod_pos_bound s (2 ^ 16) ltac:(lia)).
  assert (s / 2 ^ 16 < b) by (apply Z.div_lt_upper_bound; lia).
  pose proof (Z.div_pos s (2 ^ 16) ltac:(lia) ltac:(lia)). lia.
Qed.

Lemma fold_step_fold16 s : 0 <= s → fold16 (fold_step s) = fold16 s.
Proof.
  intros Hs. unfold fold_step. pose proof (Z.div_mod s (2 ^ 16) ltac:(lia)) as E.
  pose proof (Z.mod_pos_bound s (2 ^ 16) ltac:(lia)).
  pose proof (Z.div_pos s (2 ^ 16) ltac:(lia) ltac:(lia)).
  destruct (Z.eq_dec s 0) as [->|]; [done|].
  apply (fold16_congr _ _ (- (s / 2 ^ 16))); lia.
Qed.

Lemma fold_loop_S fuel s :
  fits 32 s →
  fold_loop (S fuel) s = if s <? 2 ^ 16 then Some s else fold_loop fuel (fold_step s).
Proof.
  intros Hs. cbn [fold_loop]. rewrite Z.shiftr_div_pow2 by lia.
  change 0xFFFF with (Z.ones 16). rewrite Z.land_ones by lia. fold (fold_step s).
  rewrite u32_id.
  2:{ unfold fits in *. pose proof (fold_step_bounds s (2 ^ 16) ltac:(lia) ltac:(lia)). lia. }
  unfold fits in Hs. destruct (Z.ltb_spec s (2 ^ 16)).
  - by rewrite Z.div_small by lia.
  - rewrite (proj2 (Z.eqb_neq _ 0)); [done|].
    pose proof (Z.div_le_lower_bound s (2 ^ 16) 1 ltac:(lia) ltac:(lia)). lia.
Qed.

Lemma fold_loop_ok s : fits 32 s → fold_loop 3 s = Some (fold16 s).
Proof.
  intros Hs. rewrite fold_loop_S by done. unfold fits in Hs. case_if.
  { by rewrite fold16_small by lia. }
  pose proof (fold_step_bounds s (2 ^ 16) ltac:(lia) ltac:(lia)).
  rewrite <- fold_step_fold16 by lia. generalize dependent (fold_step s). intros t Ht.
  rewrite fold_loop_S by (unfold fits; lia). case_if.
  { by rewrite fold16_small by lia. }
  pose proof (fold_step_bounds t 2 ltac:(lia) ltac:(lia)).
  assert (fold_step t <> 65536).
  { unfold fold_step. pose proof (Z.div_mod t (2 ^ 16) ltac:(lia)).
    assert (t / 2 ^ 16 = 1) by (symmetry; apply (Z.div_unique t _ 1 (t - 2 ^ 16)); lia). lia. }
  rewrite <- fold_step_fold16 by lia. generalize dependent (fold_step t). intros v Hv Hn.
  rewrite fold_loop_S by (unfold fits; lia). case_if; [|lia].
  by rewrite fold16_small by lia.
Qed.

Lemma u16_lnot r : 0 <= r <= 65535 → u16 (u32 (Z.lnot r)) = 65535 - r.
Proof.
  intros H. unfold u16, u32, Z.lnot.
  rewrite <- (Z.mod_unique (Z.pred (- r)) (2 ^ 32) (-1) (2 ^ 32 - 1 - r)) by lia.
  by rewrite <- (Z.mod_unique (2 ^ 32 - 1 - r) (2 ^ 16) (2 ^ 16 - 1) (65535 - r)) by lia.
Qed.

(** Sizes are values of [size_t]: they do not wrap. *)
Lemma checksum_value_ok ctx l :
  fed ctx l → fits 64 (Z.of_nat (length l)) → checksum_get_value ctx = Some (checksum_of l).
Proof.
  intros [Hz Hla Hby Hs32 Hs] Hl. unfold checksum_get_value, checksum_of.
  rewrite Hz, u64_id by done. destruct (Z.eqb_spec (Z.of_nat (length l)) 0) as [E|E].
  { destruct l; [done|]. simpl in E. lia. }
  rewrite bool_decide_eq_false_2 by (by intros ->).
  rewrite mod2_odd, negb_involutive, <- Hla.
  set (s := if latched ctx then latched_byte ctx else 0) in *.
  assert (Hv : (if latched ctx then assert! latched ctx;
      Some (chksum_pair (sum ctx) (latched_byte ctx) 0) else Some (sum ctx))
      = Some (u32 (word_sum false l))).
  { rewrite <- Hs. subst s. destruct (latched ctx); simpl.
    - rewrite chksum_pair_spec by (done || unfold fits; lia). by rewrite Z.mul_0_r, Z.add_0_r.
    - by rewrite Z.add_0_r, u32_id. }
  rewrite Hv. returned. rewrite fold_loop_ok by eauto with exa. returned.
  rewrite u16_lnot; [done|]. apply fold16_bounds. apply u32_fits.
Qed.

Fixpoint feed_all (ctx : checksum_context_t) (bufs : list (list Z)) : option checksum_context_t :=
  match bufs with
  | [] => Some ctx
  | b :: bufs' => ctx ← checksum_feed ctx b; feed_all ctx bufs'
  end.

Lemma feed_all_ok ctx l bufs :
  fed ctx l → Forall buffer_ok bufs →
  ∃ ctx', feed_all ctx bufs = Some ctx' ∧ fed ctx' (l ++ concat bufs).
Proof.
  intros F Hb. revert ctx l F. induction Hb as [|b bufs Hb Hbs IH]; intros ctx l F.
  { exists ctx. by rewrite app_nil_r. }
  destruct (checksum_feed_ok ctx l b F Hb) as (ctx' & E & F').
  destruct (IH _ _ F') as (ctx'' & E' & F''). exists ctx''. simpl. rewrite E. returned.
  split; [done|]. by rewrite app_assoc.
Qed.

Lemma buffers_bytes bufs : Forall buffer_ok bufs → bytes_ok (concat bufs).
Proof. intros H. apply Forall_concat. eapply Forall_impl; [exact H|]. by intros b [? _]. Qed.

(** *** Errors that are detected *)

(** A change of the sum smaller than a word changes the checksum, also when
    the 32 bit sum wraps around. *)
Lemma checksum_shift s d : 0 < d <= 65280 → fold16 (u32 s) ≠ fold16 (u32 (s + d)).
Proof.
  intros Hd. rewrite <- u32_add_l. pose proof (u32_fits s) as Hs. unfold fits in Hs.
  generalize dependent (u32 s). intros a Ha.
  destruct (Z.ltb_spec (a + d) (2 ^ 32)).
  - rewrite u32_id by (unfold fits; lia). destruct (Z.eq_dec a 0) as [->|].
    { rewrite Z.add_0_l, (fold16_small d) by lia. change (fold16 0) with 0. lia. }
    intros [k Hk]%fold16_inj; lia.
  - assert (u32 (a + d) = a + d - 2 ^ 32) as ->.
    { unfold u32. symmetry. apply (Z.mod_unique _ _ 1); lia. }
    destruct (Z.eq_dec (a + d - 2 ^ 32) 0) as [->|].
    { change (fold16 0) with 0. unfold fold16. rewrite (proj2 (Z.eqb_neq a 0)) by lia.
      pose proof (Z.mod_pos_bound (a - 1) 65535 ltac:(lia)). lia. }
    intros [k Hk]%fold16_inj; lia.
Qed.

Lemma checksum_of_byte l1 x y l2 :
  fits 8 x → fits 8 y → x ≠ y → checksum_of (l1 ++ x :: l2) ≠ checksum_of (l1 ++ y :: l2).
Proof.
  unfold fits. intros Hx Hy Hxy. unfold checksum_of.
  rewrite !bool_decide_eq_false_2 by (by destruct l1).
  rewrite !word_sum_app. cbn [word_sum].
  set (w := word_sum false l1). generalize (xorb false (Nat.odd (length l1))). intros h.
  set (t := word_sum (negb h) l2).
  assert (Hgen : ∀ u v, 0 <= u <= 255 → 0 <= v <= 255 → u < v →
    fold16 (u32 (w + ((if h then 256 * u else u) + t))) ≠
    fold16 (u32 (w + ((if h then 256 * v else v) + t)))).
  { intros u v ? ? ?. replace (w + ((if h then 256 * v else v) + t))
      with (w + ((if h then 256 * u else u) + t) + (if h then 256 * (v - u) else v - u))
      by (destruct h; lia).
    apply checksum_shift. destruct h; lia. }
  pose proof (Hgen x y). pose proof (Hgen y x). intros E.
  destruct (Z.lt_trichotomy x y) as [|[|]]; lia.
Qed.

(** ** Properties *)

(** C31: the checksum of a superblock does not depend on how its bytes are
    split in buffers of less than 2^31 bytes, the range of the index of the
    loop: feeding the buffers one after the other gives the size of their
    concatenation and the complement of the sum of its 16 bit words folded
    modulo 65535, which is also the checksum of the concatenation as one buffer
    when it is that short; and it differs from the checksum of the same data
    with one byte changed, in whatever buffers these come. *)
Theorem checksum_of_stream (bufs bufs' : list (list Z)) (l1 l2 : list Z) (x y : Z) :
  Forall buffer_ok bufs → Forall buffer_ok bufs' →
  concat bufs = l1 ++ x :: l2 → concat bufs' = l1 ++ y :: l2 → x ≠ y →
  fits 64 (Z.of_nat (length (concat bufs))) →
  ∃ ctx ctx' v v', feed_all checksum_reset bufs = Some ctx ∧
    checksum_get_size ctx = Z.of_nat (length (concat bufs)) ∧
    checksum_get_value ctx = Some v ∧
    v = 65535 - fold16 (u32 (word_sum false (concat bufs))) ∧
    (Z.of_nat (length (concat bufs)) < 2 ^ 31 → exa_checksum (concat bufs) = Some v) ∧
    feed_all checksum_reset bufs' = Some ctx' ∧ checksum_get_value ctx' = Some v' ∧ v ≠ v'.
Proof.
  intros Hb Hb' Hc Hc' Hxy Hl.
  destruct (feed_all_ok _ _ bufs fed_reset Hb) as (ctx & E & F).
  destruct (feed_all_ok _ _ bufs' fed_reset Hb') as (ctx' & E' & F'). simpl in F, F'.
  assert (Hl' : fits 64 (Z.of_nat (length (concat bufs')))).
  { rewrite Hc' , length_app. rewrite Hc, length_app in Hl. exact Hl. }
  pose proof (buffers_bytes _ Hb) as Hcb. pose proof (buffers_bytes _ Hb') as Hcb'.
  exists ctx, ctx', (checksum_of (concat bufs)), (checksum_of (concat bufs')).
  unfold checksum_get_size. rewrite (fd_size _ _ F), u64_id by done.
  rewrite (checksum_value_ok _ _ F Hl), (checksum_value_ok _ _ F' Hl').
  split; [done|]. split; [done|]. split; [done|]. split; [|split; [|split; [done|split; [done|]]]].
  - unfold checksum_of. by rewrite bool_decide_eq_false_2 by (rewrite Hc; by destruct l1).
  - intros Hs. unfold exa_checksum. destruct (checksum_feed_ok _ _ (concat bufs) fed_reset) as (c & -> & Fc); [done|].
    returned. by apply (checksum_value_ok _ _ Fc).
  - rewrite Hc, Hc' in *. apply Forall_app in Hcb as [_ [Hx _]%Forall_cons], Hcb' as [_ [Hy _]%Forall_cons].
    by apply checksum_of_byte.
Qed.

Lemma checksum_of_stream_witness :
  ∃ ctx ctx' v v', feed_all checksum_reset [[1; 2; 3]; [4]; []; [5; 6; 7]] = Some ctx ∧
    checksum_get_size ctx = 7 ∧ checksum_get_value ctx = Some v ∧
    v = 65535 - fold16 (u32 (word_sum false [1; 2; 3; 4; 5; 6; 7])) ∧
    (7 < 2 ^ 31 → exa_checksum [1; 2; 3; 4; 5; 6; 7] = Some v) ∧
    feed_all checksum_reset [[1; 2]; [3; 4; 9]; [6; 7]] = Some ctx' ∧ checksum_get_value ctx' = Some v' ∧ v ≠ v'.
Proof.
  apply (checksum_of_stream [[1; 2; 3]; [4]; []; [5; 6; 7]] [[1; 2]; [3; 4; 9]; [6; 7]] [1; 2; 3; 4] [6; 7] 5 9);
    [| |reflexivity|reflexivity|lia|split; vm_compute; congruence];
    repeat constructor; vm_compute; congruence.
Defined.
