(* ===== verification/Stream.v ===== *)
(** * Streams (vrt/common/src/vrt_stream.c and the streams built on it)

    A stream is a table of operations and an access mode; its context is a
    part of a world of type [W], so that streams that share a base stream
    (the two superblocks of a device) share its state. Operations return the
    new world and a result, [None] when an assertion fails. A null pointer is
    [None]; buffers are lists, so that they are never null.

    The class [ByteStream] says what the clients of a stream rely on: it is an
    array of bytes with a position. It is proved for memory streams, for
    narrowed streams (a range of a base stream) and for checksum streams. *)
From S2P Require Import Prelude Bytes Checksum.
From stdpp Require Import options.

(** ** The stream interface (vrt_stream.h, vrt_stream.c) *)

Inductive stream_access_t := STREAM_ACCESS_READ | STREAM_ACCESS_WRITE | STREAM_ACCESS_RW.

Inductive stream_seek_t :=
  | STREAM_SEEK_FROM_BEGINNING | STREAM_SEEK_FROM_END | STREAM_SEEK_FROM_POS.

#[export] Instance stream_access_eq_dec : EqDecision stream_access_t.
Proof. solve_decision. Defined.

#[export] Instance stream_seek_eq_dec : EqDecision stream_seek_t.
Proof. solve_decision. Defined.

Record stream_ops_t (W : Type) := mk_stream_ops {
  read_op : option (W → Z → option (W * result (list Z)));
  write_op : option (W → list Z → option (W * result Z));
  flush_op : option (W → option (W * result unit));
  seek_op : option (W → Z → stream_seek_t → option (W * result unit));
  tell_op : option (W → Z);
  close_op : option (W → W)
}.
Arguments mk_stream_ops {W}.
Arguments read_op {W}.
Arguments write_op {W}.
Arguments flush_op {W}.
Arguments seek_op {W}.
Arguments tell_op {W}.
Arguments close_op {W}.

Record stream_t (W : Type) := mk_stream { ops : stream_ops_t W; access : stream_access_t }.
Arguments mk_stream {W}.
Arguments ops {W}.
Arguments access {W}.

Definition STREAM_TELL_ERROR : Z := 2 ^ 64 - 1.

Definition is_some {A} (x : option A) : bool := match x with Some _ => true | None => false end.

Definition may_read (a : stream_access_t) : bool :=
  match a with STREAM_ACCESS_READ | STREAM_ACCESS_RW => true | STREAM_ACCESS_WRITE => false end.

Definition may_write (a : stream_access_t) : bool :=
  match a with STREAM_ACCESS_WRITE | STREAM_ACCESS_RW => true | STREAM_ACCESS_READ => false end.

Section stream.
Context {W : Type}.
Implicit Types (w : W) (stream : option (stream_t W)).

Definition stream_open (allocated : bool) (ops : stream_ops_t W) (access : stream_access_t)
    : result (stream_t W) :=
  if may_read access && negb (is_some (read_op ops)) then Err EINVAL
  else if may_write access && negb (is_some (write_op ops)) then Err EINVAL
  else if negb allocated then Err ENOMEM
  else Ok (mk_stream ops access).

Definition stream_read stream w (size : Z) : option (W * result (list Z)) :=
  match stream with
  | None => Some (w, Err EINVAL)
  | Some s =>
      if size =? 0 then Some (w, Ok [])
      else if negb (may_read (access s)) then Some (w, Err EOPNOTSUPP)
      else op ← read_op (ops s); op w size
  end.

Definition stream_write stream w (buf : list Z) : option (W * result Z) :=
  match stream with
  | None => Some (w, Err EINVAL)
  | Some s =>
      if len buf =? 0 then Some (w, Ok 0)
      else if negb (may_write (access s)) then Some (w, Err EOPNOTSUPP)
      else op ← write_op (ops s); op w buf
  end.

Definition stream_flush stream w : option (W * result unit) :=
  match stream with
  | None => Some (w, Err EINVAL)
  | Some s =>
      if negb (may_write (access s)) then Some (w, Err EOPNOTSUPP)
      else match flush_op (ops s) with
           | None => Some (w, Err EOPNOTSUPP)
           | Some op => op w
           end
  end.

Definition stream_close stream w : option W :=
  match stream with
  | None => Some w
  | Some s =>
      '(w, _) ← stream_flush stream w;
      Some (match close_op (ops s) with Some op => op w | None => w end)
  end.

Definition stream_seek stream w (offset : Z) (seek : stream_seek_t) : option (W * result unit) :=
  match stream with
  | None => Some (w, Err EINVAL)
  | Some s =>
      match seek_op (ops s) with
      | None => Some (w, Err EOPNOTSUPP)
      | Some op =>
          match seek with
          | STREAM_SEEK_FROM_BEGINNING =>
              if offset <? 0 then Some (w, Err EINVAL) else op w offset seek
          | STREAM_SEEK_FROM_END =>
              if 0 <? offset then Some (w, Err EINVAL) else op w offset seek
          | STREAM_SEEK_FROM_POS => op w offset seek
          end
      end
  end.

Definition stream_rewind stream w : option (W * result unit) :=
  stream_seek stream w 0 STREAM_SEEK_FROM_BEGINNING.

Definition stream_tell stream w : Z :=
  match stream with
  | None => STREAM_TELL_ERROR
  | Some s => match tell_op (ops s) with None => STREAM_TELL_ERROR | Some op => op w end
  end.

(** The callers that write structures stop at the first error, a short write
    being an error. *)
Fixpoint write_all stream w (bufs : list (list Z)) : option (W * result unit) :=
  match bufs with
  | [] => Some (w, Ok tt)
  | b :: bufs' =>
      '(w, r) ← stream_write stream w b;
      match r with
      | Err e => Some (w, Err e)
      | Ok n => if negb (n =? len b) then Some (w, Err EIO) else write_all stream w bufs'
      end
  end.

Definition stream_access stream : option stream_access_t :=
  match stream with None => None | Some s => Some (access s) end.

End stream.

(** A context of type [C] at some place of the world. *)
Record lens (W C : Type) := mk_lens { get : W → C; put : C → W → W }.
Arguments mk_lens {W C}.
Arguments get {W C}.
Arguments put {W C}.

Class Lens {W C} (L : lens W C) : Prop := {
  get_put : ∀ c w, get L (put L c w) = c;
  put_put : ∀ c c' w, put L c (put L c' w) = put L c w;
  put_get : ∀ w, put L (get L w) w = w
}.

(** ** Memory streams (memory_stream.c) *)

Record memory_stream_context_t := mk_msc { ms_bytes : list Z; ms_size : Z; ms_ofs : Z }.

Section memory.
Context {W : Type} (L : lens W memory_stream_context_t).
Implicit Types w : W.

Definition memory_stream_read w (size : Z) : option (W * result (list Z)) :=
  let msc := get L w in
  let r := if ms_size msc <? u64 (ms_ofs msc + size)
           then u64 (ms_size msc - ms_ofs msc) else size in
  Some (put L (mk_msc (ms_bytes msc) (ms_size msc) (u64 (ms_ofs msc + r))) w,
        Ok (slice (ms_ofs msc) r (ms_bytes msc))).

Definition memory_stream_write w (buf : list Z) : option (W * result Z) :=
  let msc := get L w in
  if ms_size msc <? u64 (ms_ofs msc + len buf) then Some (w, Err ENOSPC)
  else
    Some (put L (mk_msc (splice (ms_ofs msc) buf (ms_bytes msc)) (ms_size msc)
                        (u64 (ms_ofs msc + len buf))) w,
          Ok (len buf)).

Definition memory_stream_flush w : option (W * result unit) := Some (w, Ok tt).

Definition memory_stream_seek w (offset : Z) (seek : stream_seek_t) : option (W * result unit) :=
  let msc := get L w in
  let new_ofs :=
    match seek with
    | STREAM_SEEK_FROM_BEGINNING => u64 offset
    | STREAM_SEEK_FROM_END => u64 (ms_size msc + offset)
    | STREAM_SEEK_FROM_POS => u64 (ms_ofs msc + offset)
    end in
  if ms_size msc <? new_ofs then Some (w, Err EINVAL)
  else Some (put L (mk_msc (ms_bytes msc) (ms_size msc) new_ofs) w, Ok tt).

Definition memory_stream_tell w : Z := ms_ofs (get L w).

Definition memory_stream_ops : stream_ops_t W :=
  mk_stream_ops (Some memory_stream_read) (Some memory_stream_write) (Some memory_stream_flush)
    (Some memory_stream_seek) (Some memory_stream_tell) (Some (λ w, w)).

Definition memory_stream_open w (allocated allocated' : bool) (bytes : list Z)
    (access : stream_access_t) : W * result (stream_t W) :=
  if negb allocated then (w, Err ENOMEM)
  else (put L (mk_msc bytes (len bytes) 0) w, stream_open allocated' memory_stream_ops access).
End memory.

(** ** Checksum streams (checksum_stream.c)

    The magic number of the context, which guards against the use of another
    kind of stream, is what the types already ensure. *)

Section checksum.
Context {W : Type} (base_stream : option (stream_t W)) (L : lens W checksum_context_t).
Implicit Types w : W.

Definition checksum_stream_read w (size : Z) : option (W * result (list Z)) :=
  '(w, ret) ← stream_read base_stream w size;
  match ret with
  | Ok buf =>
      if 0 <? len buf then
        ctx ← checksum_feed (get L w) buf;
        Some (put L ctx w, ret)
      else Some (w, ret)
  | Err _ => Some (w, ret)
  end.

Definition checksum_stream_write w (buf : list Z) : option (W * result Z) :=
  '(w, ret) ← stream_write base_stream w buf;
  match ret with
  | Ok n =>
      if 0 <? n then
        ctx ← checksum_feed (get L w) (slice 0 n buf);
        Some (put L ctx w, ret)
      else Some (w, ret)
  | Err _ => Some (w, ret)
  end.

Definition checksum_stream_flush w : option (W * result unit) := stream_flush base_stream w.

Definition checksum_stream_tell w : Z := stream_tell base_stream w.

Definition checksum_stream_seek w (offset : Z) (seek : stream_seek_t) : option (W * result unit) :=
  if negb (offset =? 0) || negb (bool_decide (seek = STREAM_SEEK_FROM_BEGINNING))
  then Some (w, Err EINVAL)
  else stream_seek base_stream (put L checksum_reset w) offset seek.

Definition checksum_stream_ops : stream_ops_t W :=
  mk_stream_ops (Some checksum_stream_read) (Some checksum_stream_write)
    (Some checksum_stream_flush) (Some checksum_stream_seek) (Some checksum_stream_tell)
    (Some (λ w, w)).

Definition checksum_stream_open w (allocated allocated' : bool) : W * result (stream_t W) :=
  match stream_access base_stream with
  | None => (w, Err EINVAL)
  | Some a =>
      if negb allocated then (w, Err ENOMEM)
      else (put L checksum_reset w, stream_open allocated' checksum_stream_ops a)
  end.

Definition checksum_stream_get_value w : option Z := checksum_get_value (get L w).

Definition checksum_stream_get_size w : Z := checksum_get_size (get L w).

Definition checksum_stream_reset w : W := put L checksum_reset w.
End checksum.

(** ** Narrowed streams (narrowed_stream.c) *)

Record narrowed_stream_context_t := mk_nsc { ns_start : Z; ns_end : Z; ns_ofs : Z }.

Section narrowed.
Context {W : Type} (base_stream : option (stream_t W)) (L : lens W narrowed_stream_context_t).
Implicit Types w : W.

Definition set_ofs (nsc : narrowed_stream_context_t) (ofs : Z) : narrowed_stream_context_t :=
  mk_nsc (ns_start nsc) (ns_end nsc) ofs.

Definition adjust_offset w : option (W * result unit) :=
  if stream_tell base_stream w =? ns_ofs (get L w) then Some (w, Ok tt)
  else stream_seek base_stream w (ns_ofs (get L w)) STREAM_SEEK_FROM_BEGINNING.

Definition narrowed_stream_read w (size : Z) : option (W * result (list Z)) :=
  '(w, err) ← adjust_offset w;
  match err with
  | Err e => Some (w, Err e)
  | Ok _ =>
      let nsc := get L w in
      let base_size :=
        if ns_end nsc <? u64 (ns_ofs nsc + size - 1)
        then u64 (ns_end nsc - ns_ofs nsc + 1) else size in
      '(w, r) ← stream_read base_stream w base_size;
      match r with
      | Err e => Some (w, Err e)
      | Ok buf => Some (put L (set_ofs (get L w) (u64 (ns_ofs (get L w) + len buf))) w, Ok buf)
      end
  end.

Definition narrowed_stream_write w (buf : list Z) : option (W * result Z) :=
  '(w, err) ← adjust_offset w;
  match err with
  | Err e => Some (w, Err e)
  | Ok _ =>
      let nsc := get L w in
      if ns_end nsc <? u64 (ns_ofs nsc + len buf - 1) then Some (w, Err ENOSPC)
      else
        '(w, r) ← stream_write base_stream w buf;
        match r with
        | Err e => Some (w, Err e)
        | Ok n => Some (put L (set_ofs (get L w) (u64 (ns_ofs (get L w) + n))) w, Ok n)
        end
  end.

Definition narrowed_stream_flush w : option (W * result unit) := stream_flush base_stream w.

Definition narrowed_stream_seek w (offset : Z) (seek : stream_seek_t) : option (W * result unit) :=
  let nsc := get L w in
  let new_ofs :=
    match seek with
    | STREAM_SEEK_FROM_BEGINNING => u64 (ns_start nsc + offset)
    | STREAM_SEEK_FROM_END => u64 (ns_end nsc + offset)
    | STREAM_SEEK_FROM_POS => u64 (stream_tell base_stream w + offset)
    end in
  if (new_ofs <? ns_start nsc) || (ns_end nsc <? new_ofs) then Some (w, Err EINVAL)
  else
    '(w, err) ← stream_seek base_stream w new_ofs STREAM_SEEK_FROM_BEGINNING;
    match err with
    | Ok _ => Some (put L (set_ofs (get L w) new_ofs) w, Ok tt)
    | Err e => Some (w, Err e)
    end.

Definition narrowed_stream_tell w : Z := u64 (ns_ofs (get L w) - ns_start (get L w)).

Definition narrowed_stream_ops : stream_ops_t W :=
  mk_stream_ops (Some narrowed_stream_read) (Some narrowed_stream_write)
    (Some narrowed_stream_flush) (Some narrowed_stream_seek) (Some narrowed_stream_tell)
    (Some (λ w, w)).

Definition narrowed_stream_open w (allocated allocated' : bool) (start last : Z)
    (access : stream_access_t) : W * result (stream_t W) :=
  match base_stream with
  | None => (w, Err EINVAL)
  | Some _ =>
      if negb allocated then (w, Err ENOMEM)
      else (put L (mk_nsc start last start) w, stream_open allocated' narrowed_stream_ops access)
  end.
End narrowed.

(** ** What clients rely on

    [inv] holds between calls, [bytes] is the content, [pos] the position.
    [ok] says that no I/O error will happen (it is stable): a call may fail
    only without it. [dom] are the offsets that may be written. *)

Class ByteStream {W} (s : option (stream_t W)) (inv : W → Prop) (bytes : W → list Z)
    (pos : W → Z) (ok : W → Prop) : Prop := {
  bs_pos w : inv w → 0 <= pos w <= len (bytes w);
  bs_len w : inv w → len (bytes w) < 2 ^ 63;
  bs_bytes w : inv w → bytes_ok (bytes w);
  bs_read w n :
    inv w → 0 <= n → pos w + n <= len (bytes w) →
    ∃ w' r, stream_read s w n = Some (w', r) ∧ inv w' ∧ bytes w' = bytes w ∧ (ok w → ok w') ∧
      match r with
      | Ok d => d = slice (pos w) n (bytes w) ∧ pos w' = pos w + n
      | Err _ => ¬ ok w
      end;
  bs_rewind w :
    inv w →
    ∃ w' r, stream_rewind s w = Some (w', r) ∧ inv w' ∧ bytes w' = bytes w ∧ (ok w → ok w') ∧
      match r with Ok _ => pos w' = 0 | Err _ => ¬ ok w end;
  bs_tell w : inv w → stream_tell s w = pos w
}.

Class WritableStream {W} (s : option (stream_t W)) (inv : W → Prop) (bytes : W → list Z)
    (pos : W → Z) (ok : W → Prop) (dom : Z → Prop) : Prop := {
  ws_write w d :
    inv w → bytes_ok d → pos w + len d <= len (bytes w) →
    (∀ i, pos w <= i < pos w + len d → dom i) →
    ∃ w' r, stream_write s w d = Some (w', r) ∧ inv w' ∧ (ok w → ok w') ∧
      match r with
      | Ok n => n = len d ∧ bytes w' = splice (pos w) d (bytes w) ∧ pos w' = pos w + n
      | Err _ => ¬ ok w ∧ agree_out (λ i, pos w <= i < pos w + len d) (bytes w) (bytes w')
      end;
  ws_flush w :
    inv w →
    ∃ w' r, stream_flush s w = Some (w', r) ∧ inv w' ∧ bytes w' = bytes w ∧ pos w' = pos w ∧
      (ok w → ok w') ∧ match r with Ok _ => True | Err _ => ¬ ok w end
}.

(** Streams on which the position can be set. *)
Class SeekableStream {W} (s : option (stream_t W)) (inv : W → Prop) (bytes : W → list Z)
    (pos : W → Z) (ok : W → Prop) : Prop := {
  sk_seek w o :
    inv w → 0 <= o <= len (bytes w) →
    ∃ w' r, stream_seek s w o STREAM_SEEK_FROM_BEGINNING = Some (w', r) ∧ inv w' ∧
      bytes w' = bytes w ∧ (ok w → ok w') ∧
      match r with Ok _ => pos w' = o | Err _ => ¬ ok w end
}.

(** Streams that tell the end of their area: short reads, no write beyond. *)
Class BoundedStream {W} (s : option (stream_t W)) (inv : W → Prop) (bytes : W → list Z)
    (pos : W → Z) (ok : W → Prop) : Prop := {
  eof_read w n :
    inv w → 0 <= n < 2 ^ 62 → len (bytes w) < pos w + n →
    ∃ w' r, stream_read s w n = Some (w', r) ∧ inv w' ∧ bytes w' = bytes w ∧ (ok w → ok w') ∧
      match r with
      | Ok d => d = slice (pos w) (len (bytes w) - pos w) (bytes w) ∧ pos w' = len (bytes w)
      | Err _ => ¬ ok w
      end
}.

Class BoundedWrites {W} (s : option (stream_t W)) (inv : W → Prop) (bytes : W → list Z)
    (pos : W → Z) (ok : W → Prop) : Prop := {
  eof_write w d :
    inv w → len d < 2 ^ 62 → len (bytes w) < pos w + len d →
    ∃ w' e, stream_write s w d = Some (w', Err e) ∧ inv w' ∧ bytes w' = bytes w ∧ (ok w → ok w') ∧
      (ok w → pos w' = pos w ∧ e = ENOSPC)
}.

(** The context at [L] is not a part of the stream. *)
Class Indep {W C} (L : lens W C) (s : option (stream_t W)) (inv : W → Prop)
    (bytes : W → list Z) (pos : W → Z) (ok : W → Prop) : Prop := {
  ind_inv w c : inv w → inv (put L c w);
  ind_bytes w c : bytes (put L c w) = bytes w;
  ind_pos w c : pos (put L c w) = pos w;
  ind_ok w c : ok (put L c w) ↔ ok w;
  ind_read w n w' r : stream_read s w n = Some (w', r) → get L w' = get L w;
  ind_write w d w' r : stream_write s w d = Some (w', r) → get L w' = get L w;
  ind_flush w w' r : stream_flush s w = Some (w', r) → get L w' = get L w;
  ind_seek w o k w' r : stream_seek s w o k = Some (w', r) → get L w' = get L w
}.

(** Two different places. *)
Class Disjoint {W C D} (L : lens W C) (M : lens W D) : Prop := {
  dj_get w c : get M (put L c w) = get M w;
  dj_get' w c : get L (put M c w) = get L w;
  dj_put w c d : put L c (put M d w) = put M d (put L c w)
}.

(** *** Memory streams *)

Section memory_spec.
Context {W : Type} (L : lens W memory_stream_context_t) `{!Lens L} (a : stream_access_t).

Definition memory_ok (w : W) : Prop :=
  let c := get L w in
  bytes_ok (ms_bytes c) ∧ ms_size c = len (ms_bytes c) ∧ 0 <= ms_ofs c <= ms_size c ∧
  ms_size c < 2 ^ 62.
Definition memory_bytes (w : W) : list Z := ms_bytes (get L w).
Definition memory_pos (w : W) : Z := ms_ofs (get L w).

Lemma u64_small x : 0 <= x < 2 ^ 64 → u64 x = x.
Proof using. apply u64_id. Qed.

Lemma memory_read w n :
  may_read a = true → memory_ok w → 0 <= n < 2 ^ 62 →
  stream_read (Some (mk_stream (memory_stream_ops L) a)) w n =
    let r := Z.min n (len (memory_bytes w) - memory_pos w) in
    Some (if n =? 0 then w
          else put L (mk_msc (memory_bytes w) (len (memory_bytes w)) (memory_pos w + r)) w,
          Ok (slice (memory_pos w) r (memory_bytes w))).
Proof using.
  intros Ha (Hb & Hs & Ho & Hm) Hn. unfold stream_read, memory_bytes, memory_pos. simpl.
  rewrite Ha. destruct (Z.eqb_spec n 0) as [->|]; simpl.
  { rewrite Z.min_l by lia. by rewrite slice_0. }
  unfold memory_stream_read. rewrite Hs. rewrite (u64_small (ms_ofs _ + n)) by lia.
  destruct (Z.ltb_spec (len (ms_bytes (get L w))) (ms_ofs (get L w) + n)).
  - rewrite Z.min_r, (u64_small (len _ - _)), u64_small by lia. done.
  - by rewrite Z.min_l, u64_small by lia.
Qed.

Lemma memory_seek w o :
  memory_ok w → 0 <= o <= len (memory_bytes w) →
  stream_seek (Some (mk_stream (memory_stream_ops L) a)) w o STREAM_SEEK_FROM_BEGINNING =
    Some (put L (mk_msc (memory_bytes w) (len (memory_bytes w)) o) w, Ok tt).
Proof using.
  intros (Hb & Hs & Ho & Hm) Hn. unfold stream_seek, memory_bytes in *. simpl.
  rewrite (proj2 (Z.ltb_ge o 0)) by lia. unfold memory_stream_seek.
  rewrite u64_small, Hs by lia. by rewrite (proj2 (Z.ltb_ge _ _)) by lia.
Qed.

Lemma memory_moved w o :
  memory_ok w → 0 <= o <= len (memory_bytes w) →
  let w' := put L (mk_msc (memory_bytes w) (len (memory_bytes w)) o) w in
  memory_ok w' ∧ memory_bytes w' = memory_bytes w ∧ memory_pos w' = o.
Proof using All.
  intros (Hb & Hs & Ho & Hm) Hn. unfold memory_ok, memory_bytes, memory_pos in *.
  rewrite get_put. simpl. split_and!; done || lia.
Qed.

#[export] Instance memory_stream_byte :
  may_read a = true →
  ByteStream (Some (mk_stream (memory_stream_ops L) a)) memory_ok memory_bytes memory_pos
    (λ _, True).
Proof using All.
  intros Ha. split.
  - intros w (Hb & Hs & Ho & Hm). unfold memory_pos, memory_bytes. lia.
  - intros w (Hb & Hs & Ho & Hm). unfold memory_bytes. lia.
  - by intros w (Hb & Hs & Ho & Hm).
  - intros w n Hw Hn Hp. pose proof Hw as (Hb & Hs & Ho & Hm).
    unfold memory_bytes, memory_pos in Hp.
    rewrite memory_read by (done || lia). cbv zeta.
    rewrite Z.min_l by (unfold memory_bytes, memory_pos; lia).
    eexists _, _. split; [done|]. case_if; subst.
    { rewrite Z.add_0_r. done. }
    destruct (memory_moved w (memory_pos w + n) Hw) as (? & ? & ?);
      [unfold memory_bytes, memory_pos; lia|]. done.
  - intros w Hw. unfold stream_rewind. rewrite memory_seek by (done || pose proof (len_nonneg (memory_bytes w)); lia).
    destruct (memory_moved w 0 Hw) as (? & ? & ?); [pose proof (len_nonneg (memory_bytes w)); lia|].
    eexists _, _. done.
  - done.
Qed.

#[export] Instance memory_stream_seekable :
  SeekableStream (Some (mk_stream (memory_stream_ops L) a)) memory_ok memory_bytes memory_pos
    (λ _, True).
Proof using All.
  split. intros w o Hw Ho. rewrite memory_seek by done.
  destruct (memory_moved w o Hw Ho) as (? & ? & ?). eexists _, _. done.
Qed.

#[export] Instance memory_stream_bounded :
  may_read a = true →
  BoundedStream (Some (mk_stream (memory_stream_ops L) a)) memory_ok memory_bytes memory_pos
    (λ _, True).
Proof using All.
  intros Ha. split. intros w n Hw Hn Hp. pose proof Hw as (Hb & Hs & Ho & Hm).
  rewrite memory_read by (done || lia). cbv zeta. rewrite Z.min_r by lia.
  rewrite (proj2 (Z.eqb_neq n 0)) by (unfold memory_bytes, memory_pos in Hp; lia).
  replace (memory_pos w + (len (memory_bytes w) - memory_pos w)) with (len (memory_bytes w)) by lia.
  destruct (memory_moved w (len (memory_bytes w)) Hw) as (? & ? & ?);
    [pose proof (len_nonneg (memory_bytes w)); lia|].
  eexists _, _. done.
Qed.

#[export] Instance memory_stream_writable :
  may_write a = true →
  WritableStream (Some (mk_stream (memory_stream_ops L) a)) memory_ok memory_bytes memory_pos
    (λ _, True) (λ _, True).
Proof using All.
  intros Ha. split; cycle 1.
  { intros w Hw. unfold stream_flush. simpl. rewrite Ha. simpl. eexists _, _. done. }
  intros w d Hw Hd Hp _. pose proof Hw as (Hb & Hs & Ho & Hm). pose proof (len_nonneg d).
  unfold memory_bytes, memory_pos in *. unfold stream_write. simpl. rewrite Ha.
  destruct (Z.eqb_spec (len d) 0) as [E|]; simpl.
  { destruct d; [|done]. eexists _, _. split; [done|]. rewrite splice_nil by lia. split_and!; done || lia. }
  unfold memory_stream_write. rewrite u64_small, Hs by lia.
  rewrite (proj2 (Z.ltb_ge _ _)) by lia. eexists _, _. split; [done|].
  unfold memory_ok. rewrite get_put. simpl. rewrite len_splice by lia.
  split_and!; [by apply bytes_ok_splice|done|lia..|done|done|done|done].
Qed.

#[export] Instance memory_bounded_writes :
  may_write a = true →
  BoundedWrites (Some (mk_stream (memory_stream_ops L) a)) memory_ok memory_bytes memory_pos
    (λ _, True).
Proof using.
  intros Ha. split. intros w d Hw Hd Hp. pose proof Hw as (Hb & Hs & Ho & Hm).
  pose proof (len_nonneg d). unfold memory_bytes, memory_pos in *.
  unfold stream_write. simpl. rewrite Ha, (proj2 (Z.eqb_neq (len d) 0)) by lia. simpl.
  unfold memory_stream_write. rewrite u64_small, Hs, (proj2 (Z.ltb_lt _ _)) by lia.
  eexists _, _. done.
Qed.
End memory_spec.

(** *** Narrowed streams *)

Section narrowed_spec.
Context {W : Type} (base : option (stream_t W)) (L : lens W narrowed_stream_context_t).
Context (binv : W → Prop) (bbytes : W → list Z) (bpos : W → Z) (bok : W → Prop).
Context `{!Lens L, !ByteStream base binv bbytes bpos bok, !SeekableStream base binv bbytes bpos bok,
          !Indep L base binv bbytes bpos bok}.
Context (start last : Z) (a : stream_access_t).

Definition narrowed : option (stream_t W) := Some (mk_stream (narrowed_stream_ops base L) a).

Record narrowed_ok (w : W) : Prop := {
  nr_base : binv w;
  nr_start : ns_start (get L w) = start;
  nr_end : ns_end (get L w) = last;
  nr_range : 0 <= start <= last;
  nr_last : last < len (bbytes w);
  nr_ofs : start <= ns_ofs (get L w) <= last + 1
}.
Definition narrowed_bytes (w : W) : list Z := slice start (last - start + 1) (bbytes w).
Definition narrowed_pos (w : W) : Z := ns_ofs (get L w) - start.

Lemma narrowed_len w : narrowed_ok w → len (narrowed_bytes w) = last - start + 1.
Proof using. intros []. apply len_slice; lia. Qed.

(** A base state with the same content, and a new offset. *)
Lemma narrowed_moved w w' o :
  narrowed_ok w → binv w' → len (bbytes w') = len (bbytes w) → get L w' = get L w →
  start <= o <= last + 1 →
  let w'' := put L (set_ofs (get L w') o) w' in
  narrowed_ok w'' ∧ narrowed_bytes w'' = slice start (last - start + 1) (bbytes w') ∧
  narrowed_pos w'' = o - start ∧ (bok w'' ↔ bok w').
Proof using All.
  intros [] Hi Hb Hg Ho. cbv zeta. unfold narrowed_bytes, narrowed_pos.
  rewrite get_put, (ind_bytes (Indep := Indep0)). simpl. split_and!; [|done|done|apply Indep0].
  split; rewrite ?get_put, ?(ind_bytes (Indep := Indep0)); simpl; [by apply Indep0|congruence|congruence|lia..].
Qed.

Lemma narrowed_kept w w' :
  narrowed_ok w → binv w' → len (bbytes w') = len (bbytes w) → get L w' = get L w → narrowed_ok w'.
Proof using. intros [] Hi Hb Hg. split; rewrite ?Hg; done || lia. Qed.

Lemma adjust_offset_ok w :
  narrowed_ok w →
  ∃ w' r, adjust_offset base L w = Some (w', r) ∧ binv w' ∧ bbytes w' = bbytes w ∧
    get L w' = get L w ∧ (bok w → bok w') ∧
    match r with Ok _ => bpos w' = ns_ofs (get L w) | Err _ => ¬ bok w end.
Proof using All.
  intros Hw. unfold adjust_offset. rewrite (bs_tell w) by apply Hw. case_if.
  { eexists _, _. split; [done|]. split; [apply Hw|]. done. }
  destruct (sk_seek w (ns_ofs (get L w))) as (w' & r & E & ? & ? & ? & ?); [apply Hw|destruct Hw; lia|].
  exists w', r. rewrite E. split_and!; try done. by eapply ind_seek.
Qed.

Lemma narrowed_read_ok w n :
  may_read a = true → narrowed_ok w → 0 <= n < 2 ^ 63 →
  let m := Z.min n (len (narrowed_bytes w) - narrowed_pos w) in
  ∃ w' r, stream_read narrowed w n = Some (w', r) ∧ narrowed_ok w' ∧
    narrowed_bytes w' = narrowed_bytes w ∧ (bok w → bok w') ∧
    match r with
    | Ok d => d = slice (narrowed_pos w) m (narrowed_bytes w) ∧ narrowed_pos w' = narrowed_pos w + m
    | Err _ => ¬ bok w
    end.
Proof using All.
  intros Ha Hw Hn m. pose proof (narrowed_len w Hw) as Hlen. unfold stream_read. simpl. rewrite Ha.
  destruct (Z.eqb_spec n 0) as [->|Hn0]; simpl.
  { eexists _, _. split; [done|]. assert (m = 0) as -> by (destruct Hw; unfold m, narrowed_pos; lia).
    rewrite slice_0, Z.add_0_r. done. }
  unfold narrowed_stream_read.
  destruct (adjust_offset_ok w Hw) as (w1 & r1 & -> & Hi1 & Hb1 & Hg1 & Hok1 & Hr1). returned.
  assert (Hw1 : narrowed_ok w1) by (apply (narrowed_kept w w1); [done|done|by rewrite Hb1|done]).
  assert (Hb1' : narrowed_bytes w1 = narrowed_bytes w) by (unfold narrowed_bytes; by rewrite Hb1).
  destruct r1 as [[]|e]; [|by eexists _, _].
  destruct Hw as [_ Hst Hen Hra Hla Hof]. rewrite Hg1, Hen.
  pose proof (bs_len w1 Hi1) as Hlim. rewrite Hb1 in Hlim.
  rewrite (u64_small (_ - 1)) by lia.
  assert (Hm : (if last <? ns_ofs (get L w) + n - 1 then u64 (last - ns_ofs (get L w) + 1) else n) = m).
  { unfold m, narrowed_pos. rewrite Hlen. destruct (Z.ltb_spec last (ns_ofs (get L w) + n - 1)).
    - rewrite u64_small by lia. lia.
    - lia. }
  rewrite Hm. assert (Hmr : 0 <= m ∧ ns_ofs (get L w) + m <= last + 1)
    by (unfold m, narrowed_pos; lia).
  destruct (bs_read w1 m) as (w2 & r2 & E2 & Hi2 & Hb2 & Hok2 & Hr2); [done|lia|rewrite Hb1; lia|].
  pose proof (ind_read _ _ _ _ E2) as Hg2. rewrite E2. returned.
  assert (Hl2 : len (bbytes w2) = len (bbytes w1)) by (by rewrite Hb2).
  destruct r2 as [d|e]; cycle 1.
  { eexists _, _. split; [done|]. split; [by apply (narrowed_kept w1 w2)|].
    unfold narrowed_bytes. rewrite Hb2, Hb1. tauto. }
  destruct Hr2 as [Hd Hp2].
  assert (Hdl : len d = m) by (rewrite Hd; apply len_slice; rewrite ?Hb1; lia).
  rewrite Hg2, Hg1, Hdl, u64_small by lia. rewrite <- Hg1, <- Hg2.
  destruct (narrowed_moved w1 w2 (ns_ofs (get L w2) + m)) as (? & Hb & Hp & Hk);
    [done|done|done|done|rewrite Hg2, Hg1; lia|].
  eexists _, _. split; [done|]. split; [done|]. rewrite Hb, Hp, Hk.
  unfold narrowed_bytes, narrowed_pos. rewrite Hb2, Hb1, Hg2, Hg1.
  split_and!; [done|tauto| |lia].
  rewrite slice_slice by (unfold m, narrowed_pos in *; lia). rewrite Hd, Hb1, Hr1. f_equal. lia.
Qed.

Lemma narrowed_seek_ok w o :
  narrowed_ok w → 0 <= o <= last - start →
  ∃ w' r, stream_seek narrowed w o STREAM_SEEK_FROM_BEGINNING = Some (w', r) ∧ narrowed_ok w' ∧
    narrowed_bytes w' = narrowed_bytes w ∧ (bok w → bok w') ∧
    match r with Ok _ => narrowed_pos w' = o | Err _ => ¬ bok w end.
Proof using All.
  intros Hw Ho. unfold stream_seek. simpl. rewrite (proj2 (Z.ltb_ge o 0)) by lia.
  unfold narrowed_stream_seek. pose proof Hw as [Hi Hst Hen Hra Hla Hof]. rewrite Hst, Hen.
  pose proof (bs_len w Hi). rewrite u64_small by lia.
  rewrite (proj2 (Z.ltb_ge (start + o) start)), (proj2 (Z.ltb_ge last (start + o))) by lia. simpl.
  destruct (sk_seek w (start + o)) as (w1 & r1 & E1 & Hi1 & Hb1 & Hok1 & Hr1); [done|lia|].
  pose proof (ind_seek _ _ _ _ _ E1) as Hg1. rewrite E1. returned.
  assert (Hl1 : len (bbytes w1) = len (bbytes w)) by (by rewrite Hb1).
  destruct r1 as [[]|e]; cycle 1.
  { eexists _, _. split; [done|]. split; [by apply (narrowed_kept w w1)|].
    unfold narrowed_bytes. by rewrite Hb1. }
  destruct (narrowed_moved w w1 (start + o)) as (? & Hb & Hp & Hk); [done..|lia|].
  eexists _, _. split; [done|]. rewrite Hb, Hp, Hk. unfold narrowed_bytes. rewrite Hb1.
  split_and!; done || lia.
Qed.

#[export] Instance narrowed_byte :
  may_read a = true → ByteStream narrowed narrowed_ok narrowed_bytes narrowed_pos bok.
Proof using All.
  intros Ha. split.
  - intros w Hw. rewrite narrowed_len by done. destruct Hw. unfold narrowed_pos. lia.
  - intros w Hw. rewrite narrowed_len by done. pose proof (bs_len w (nr_base w Hw)).
    destruct Hw. lia.
  - intros w Hw. apply bytes_ok_slice, bs_bytes, Hw.
  - intros w n Hw Hn Hp. rewrite narrowed_len in Hp by done. pose proof (bs_len w (nr_base w Hw)).
    destruct (narrowed_read_ok w n) as (w' & r & ? & ? & ? & ? & Hr); [done|done| |].
    { destruct Hw. unfold narrowed_pos in Hp. lia. }
    exists w', r. rewrite narrowed_len, Z.min_l in Hr by (done || lia). done.
  - intros w Hw. apply (narrowed_seek_ok w 0); [done|]. destruct Hw. lia.
  - intros w Hw. unfold stream_tell. simpl. unfold narrowed_stream_tell.
    pose proof (bs_len w (nr_base w Hw)). destruct Hw. unfold narrowed_pos.
    rewrite u64_small; [congruence|lia].
Qed.

#[export] Instance narrowed_bounded :
  may_read a = true → BoundedStream narrowed narrowed_ok narrowed_bytes narrowed_pos bok.
Proof using All.
  intros Ha. split. intros w n Hw Hn Hp.
  destruct (narrowed_read_ok w n) as (w' & r & ? & ? & ? & ? & Hr); [done|done|lia|].
  exists w', r. rewrite Z.min_r in Hr by lia. split_and!; try done.
  destruct r; [|done]. destruct Hr as [Hd ->]. split; [done|lia].
Qed.

Lemma narrowed_flush_ok (bdom : Z → Prop) w :
  WritableStream base binv bbytes bpos bok bdom → may_write a = true → narrowed_ok w →
  ∃ w' r, stream_flush narrowed w = Some (w', r) ∧ narrowed_ok w' ∧
    narrowed_bytes w' = narrowed_bytes w ∧ narrowed_pos w' = narrowed_pos w ∧
    (bok w → bok w') ∧ match r with Ok _ => True | Err _ => ¬ bok w end.
Proof using All.
  intros Hws Ha Hw. unfold stream_flush. simpl. rewrite Ha. simpl. unfold narrowed_stream_flush.
  destruct (ws_flush (WritableStream := Hws) w) as (w1 & r1 & E1 & Hi1 & Hb1 & Hp1 & Hok1 & Hr1);
    [apply Hw|].
  pose proof (ind_flush _ _ _ E1) as Hg1. exists w1, r1. split; [done|].
  unfold narrowed_bytes, narrowed_pos. rewrite Hb1, Hg1. split_and!; try done.
  apply (narrowed_kept w w1); [done..|by rewrite Hb1|done].
Qed.

(** The range written in the base stream. *)
Lemma narrowed_splice o d l :
  0 <= start <= last → last < len l → 0 <= o → o + len d <= last - start + 1 →
  slice start (last - start + 1) (splice (start + o) d l)
  = splice o d (slice start (last - start + 1) l).
Proof using.
  intros. pose proof (len_nonneg d).
  assert (len (slice start (last - start + 1) l) = last - start + 1) by (apply len_slice; lia).
  rewrite <- (splice_slice start (last - start + 1) l) at 1 by lia.
  rewrite <- splice_splice by lia.
  rewrite <- (slice_splice_same start (splice o d (slice start (last - start + 1) l)) l) at 2
    by (rewrite ?len_splice; lia).
  f_equal. rewrite len_splice; lia.
Qed.

Lemma narrowed_agree p n l l' :
  0 <= start <= last → last < len l → 0 <= p → p + n <= last - start + 1 →
  agree_out (λ i, start + p <= i < start + p + n) l l' →
  agree_out (λ i, p <= i < p + n) (slice start (last - start + 1) l)
    (slice start (last - start + 1) l').
Proof using.
  intros ? ? ? ? [Hl Ha]. split; [rewrite !len_slice; lia|]. intros i Hi.
  destruct (decide (Z.of_nat i < last - start + 1)).
  - rewrite !lookup_slice by lia. apply Ha. lia.
  - by rewrite !lookup_slice_ge by lia.
Qed.

#[export] Instance narrowed_writable (bdom : Z → Prop) :
  WritableStream base binv bbytes bpos bok bdom → may_write a = true →
  WritableStream narrowed narrowed_ok narrowed_bytes narrowed_pos bok (λ i, bdom (start + i)).
Proof using All.
  intros Hws Ha. split; [|intros w; by apply (narrowed_flush_ok bdom)].
  intros w d Hw Hd Hp Hdom. pose proof (narrowed_len w Hw) as Hlen. rewrite Hlen in Hp.
  pose proof (len_nonneg d). unfold stream_write. simpl. rewrite Ha.
  destruct (Z.eqb_spec (len d) 0) as [Hd0|Hd0]; simpl.
  { destruct d; [|done]. eexists _, _. split; [done|]. destruct Hw. unfold narrowed_pos in *.
    rewrite splice_nil by lia. split_and!; done || lia. }
  unfold narrowed_stream_write.
  destruct (adjust_offset_ok w Hw) as (w1 & r1 & -> & Hi1 & Hb1 & Hg1 & Hok1 & Hr1). returned.
  assert (Hw1 : narrowed_ok w1) by (apply (narrowed_kept w w1); [done|done|by rewrite Hb1|done]).
  assert (Hb1' : narrowed_bytes w1 = narrowed_bytes w) by (unfold narrowed_bytes; by rewrite Hb1).
  destruct r1 as [[]|e].
  2:{ eexists _, _. rewrite Hb1'. split_and!; done. }
  destruct Hw as [_ Hst Hen Hra Hla Hof]. rewrite Hg1, Hen.
  pose proof (bs_len w1 Hi1) as Hlim. rewrite Hb1 in Hlim. unfold narrowed_pos in *.
  rewrite (u64_small (_ - 1)), (proj2 (Z.ltb_ge _ _)) by lia.
  destruct (ws_write (WritableStream := Hws) w1 d) as (w2 & r2 & E2 & Hi2 & Hok2 & Hr2);
    [done|done|rewrite Hb1, Hr1; lia| |].
  { intros i Hi. replace i with (start + (i - start)) by lia. apply Hdom. lia. }
  pose proof (ind_write _ _ _ _ E2) as Hg2. rewrite E2. returned. rewrite Hr1, Hb1 in Hr2.
  destruct r2 as [n|e]; cycle 1.
  { destruct Hr2 as [? Hag]. eexists _, _. split; [done|].
    split; [apply (narrowed_kept w1 w2); rewrite ?Hb1; try done; apply Hag|].
    split; [tauto|]. split; [tauto|]. unfold narrowed_bytes. apply narrowed_agree; [lia..|].
    eapply agree_out_weaken; [|exact Hag]. simpl. intros i. lia. }
  destruct Hr2 as (-> & Hb2 & Hp2). rewrite Hg2, Hg1, u64_small, <- Hg1, <- Hg2 by lia.
  destruct (narrowed_moved w1 w2 (ns_ofs (get L w2) + len d)) as (Hn & Hb & Hp' & Hk);
    [done|done|rewrite Hb2, Hb1, len_splice; lia|done|rewrite Hg2, Hg1; lia|].
  unfold narrowed_pos in Hp'. eexists _, _. split; [done|]. rewrite Hb, Hp', Hk, Hb2.
  split_and!; [done|tauto|done| |rewrite Hg2, Hg1; lia].
  unfold narrowed_bytes. rewrite Hg2, Hg1. rewrite <- narrowed_splice by lia.
  by replace (start + (ns_ofs (get L w) - start)) with (ns_ofs (get L w)) by lia.
Qed.

#[export] Instance narrowed_bounded_writes :
  may_write a = true → BoundedWrites narrowed narrowed_ok narrowed_bytes narrowed_pos bok.
Proof using All.
  intros Ha. split. intros w d Hw Hd Hp. rewrite narrowed_len in Hp by done.
  pose proof Hw as [Hi Hst Hen Hra Hla Hof]. unfold narrowed_pos in Hp.
  unfold stream_write. simpl. rewrite Ha, (proj2 (Z.eqb_neq (len d) 0)) by lia. simpl.
  unfold narrowed_stream_write.
  destruct (adjust_offset_ok w Hw) as (w1 & r1 & -> & Hi1 & Hb1 & Hg1 & Hok1 & Hr1). returned.
  assert (Hw1 : narrowed_ok w1) by (apply (narrowed_kept w w1); [done|done|by rewrite Hb1|done]).
  assert (Hb1' : narrowed_bytes w1 = narrowed_bytes w) by (unfold narrowed_bytes; by rewrite Hb1).
  destruct r1 as [[]|e]; [|eexists _, _; split_and!; tauto].
  pose proof (bs_len w Hi). rewrite Hg1, Hen, u64_small, (proj2 (Z.ltb_lt _ _)) by lia.
  eexists _, _. unfold narrowed_pos. rewrite Hg1. split_and!; done.
Qed.

#[export] Instance narrowed_indep {C} (M : lens W C) `{!Disjoint L M}
    `{!Indep M base binv bbytes bpos bok} :
  Indep M narrowed narrowed_ok narrowed_bytes narrowed_pos bok.
Proof using All.
  assert (Hadj : ∀ w w' r, adjust_offset base L w = Some (w', r) → get M w' = get M w).
  { unfold adjust_offset. intros w w' r. case_if; [by intros [= <- _]|]. by apply ind_seek. }
  split.
  - intros w c []. split; rewrite ?(dj_get' (L := L) (M := M)), ?(ind_bytes (L := M)); try done.
    by apply ind_inv.
  - intros w c. unfold narrowed_bytes. by rewrite (ind_bytes (L := M)).
  - intros w c. unfold narrowed_pos. by rewrite (dj_get' (L := L) (M := M)).
  - intros w c. apply Indep1.
  - intros w n w' r. unfold stream_read. simpl. case_if; [by intros [= <- _]|].
    case_if; [by intros [= <- _]|]. simpl. unfold narrowed_stream_read.
    destruct (adjust_offset base L w) as [[w1 [[]|e]]|] eqn:E1; simpl; [|by intros [= <- _]; eauto|done].
    destruct (stream_read base w1 _) as [[w2 [d|e]]|] eqn:E2; simpl; [| |done]; intros [= <- _];
      rewrite ?(dj_get (L := L) (M := M)), (ind_read _ _ _ _ E2); eauto.
  - intros w n w' r. unfold stream_write. simpl. case_if; [by intros [= <- _]|].
    case_if; [by intros [= <- _]|]. simpl. unfold narrowed_stream_write.
    destruct (adjust_offset base L w) as [[w1 [[]|e]]|] eqn:E1; simpl; [|by intros [= <- _]; eauto|done].
    case_if; [by intros [= <- _]; eauto|].
    destruct (stream_write base w1 _) as [[w2 [d|e]]|] eqn:E2; simpl; [| |done]; intros [= <- _];
      rewrite ?(dj_get (L := L) (M := M)), (ind_write _ _ _ _ E2); eauto.
  - intros w w' r. unfold stream_flush. simpl. case_if; [by intros [= <- _]|]. by apply ind_flush.
  - intros w o k w' r. unfold stream_seek. simpl. unfold narrowed_stream_seek.
    assert (Hs : ∀ o', (if (o' <? ns_start (get L w)) || (ns_end (get L w) <? o')
      then Some (w, Err EINVAL)
      else '(w1, err) ← stream_seek base w o' STREAM_SEEK_FROM_BEGINNING;
           match err with
           | Ok _ => Some (put L (set_ofs (get L w1) o') w1, Ok tt)
           | Err e => Some (w1, Err e)
           end) = Some (w', r) → get M w' = get M w).
    { intros o'. case_if; [by intros [= <- _]|].
      destruct (stream_seek base w o' _) as [[w2 [d|e]]|] eqn:E2; simpl; [| |done]; intros [= <- _];
        rewrite ?(dj_get (L := L) (M := M)), (ind_seek _ _ _ _ _ E2); eauto. }
    destruct k; [case_if; [by intros [= <- _]|]..|]; apply Hs.
Qed.
End narrowed_spec.

(** *** Checksum streams *)

Section checksum_spec.
Context {W : Type} (base : option (stream_t W)) (L : lens W checksum_context_t).
Context (binv : W → Prop) (bbytes : W → list Z) (bpos : W → Z) (bok : W → Prop).
Context `{!Lens L, !ByteStream base binv bbytes bpos bok, !Indep L base binv bbytes bpos bok}.
Context (a : stream_access_t).
(** The area is short enough for the index of the loop of the checksum. *)
Context (short : ∀ w, binv w → len (bbytes w) < 2 ^ 31).

Definition checksummed : option (stream_t W) := Some (mk_stream (checksum_stream_ops base L) a).

(** [l] is what was read or written since the stream was rewound. *)
Definition summed (l : list Z) (w : W) : Prop := fed (get L w) l.

Definition checksum_ok (w : W) : Prop := binv w ∧ ∃ l, summed l w.

Lemma checksum_put w c l : binv w → fed c l → checksum_ok (put L c w) ∧ summed l (put L c w).
Proof using All.
  intros Hi Hf. unfold checksum_ok, summed. rewrite get_put. split; [|done].
  split; [by apply ind_inv|by exists l].
Qed.

Lemma slice_buffer w p n : binv w → buffer_ok (slice p n (bbytes w)).
Proof using All.
  intros Hi. split; [by apply bytes_ok_slice, bs_bytes|]. pose proof (short w Hi) as Hs. unfold len in Hs.
  unfold slice. rewrite length_take, length_drop. lia.
Qed.

Lemma checksum_read_step w n w1 r l :
  may_read a = true → stream_read base w n = Some (w1, r) → binv w1 →
  (∀ d, r = Ok d → buffer_ok d) → summed l w → (n = 0 → w1 = w ∧ r = Ok []) →
  ∃ c, stream_read checksummed w n = Some (put L c w1, r) ∧
    fed c (l ++ match r with Ok d => d | Err _ => [] end).
Proof using All.
  intros Ha E Hi Hd Hl Hz. pose proof (ind_read _ _ _ _ E) as Hg. unfold summed in Hl.
  unfold stream_read at 1. simpl. rewrite Ha. destruct (Z.eqb_spec n 0) as [->|]; simpl.
  { destruct (Hz eq_refl) as [-> ->]. exists (get L w). rewrite put_get, app_nil_r. done. }
  unfold checksum_stream_read. rewrite E. returned.
  destruct r as [d|e].
  2:{ exists (get L w1). rewrite put_get, app_nil_r, Hg. done. }
  destruct (Z.ltb_spec 0 (len d)).
  - rewrite Hg. destruct (checksum_feed_ok _ _ d Hl) as (c & -> & Hf); [by apply Hd|]. returned.
    by exists c.
  - exists (get L w1). destruct d; [|unfold len in *; simpl in *; lia].
    rewrite put_get, app_nil_r, Hg. done.
Qed.

Lemma stream_read_0 {W'} (s : option (stream_t W')) w w' r :
  s ≠ None → stream_read s w 0 = Some (w', r) → w' = w ∧ r = Ok [].
Proof using. destruct s; [|done]. by intros _ [= <- <-]. Qed.

(** Reads in the area, and at its end. *)
Lemma checksum_read_ok w n l :
  base ≠ None → may_read a = true → binv w → summed l w → 0 <= n → bpos w + n <= len (bbytes w) →
  ∃ w' r, stream_read checksummed w n = Some (w', r) ∧ checksum_ok w' ∧ bbytes w' = bbytes w ∧
    (bok w → bok w') ∧
    match r with
    | Ok d => d = slice (bpos w) n (bbytes w) ∧ bpos w' = bpos w + n ∧ summed (l ++ d) w'
    | Err _ => ¬ bok w
    end.
Proof using All.
  intros Hbase Ha Hi Hl Hn Hp.
  destruct (bs_read w n Hi Hn Hp) as (w1 & r & E & Hi1 & Hb1 & Hok1 & Hr).
  destruct (checksum_read_step w n w1 r l) as (c & -> & Hf); try done.
  { intros d ->. destruct Hr as [-> _]. by apply slice_buffer. }
  { intros ->. by eapply stream_read_0. }
  destruct (checksum_put w1 c _ Hi1 Hf) as [Hok Hs]. eexists _, _. split; [done|].
  rewrite (ind_bytes (L := L)), (ind_pos (L := L)), (ind_ok (L := L)).
  split_and!; try done. destruct r; naive_solver.
Qed.

Lemma checksum_eof_ok `{!BoundedStream base binv bbytes bpos bok} w n :
  base ≠ None → may_read a = true → checksum_ok w → 0 <= n < 2 ^ 62 →
  len (bbytes w) < bpos w + n →
  ∃ w' r, stream_read checksummed w n = Some (w', r) ∧ checksum_ok w' ∧ bbytes w' = bbytes w ∧
    (bok w → bok w') ∧
    match r with
    | Ok d => d = slice (bpos w) (len (bbytes w) - bpos w) (bbytes w) ∧ bpos w' = len (bbytes w)
    | Err _ => ¬ bok w
    end.
Proof using All.
  intros Hbase Ha [Hi [l Hl]] Hn Hp.
  destruct (eof_read w n Hi Hn Hp) as (w1 & r & E & Hi1 & Hb1 & Hok1 & Hr).
  destruct (checksum_read_step w n w1 r l) as (c & -> & Hf); try done.
  { intros d ->. destruct Hr as [-> _]. by apply slice_buffer. }
  { intros ->. by eapply stream_read_0. }
  destruct (checksum_put w1 c _ Hi1 Hf) as [Hok Hs]. eexists _, _. split; [done|].
  rewrite (ind_bytes (L := L)), (ind_pos (L := L)), (ind_ok (L := L)). done.
Qed.

(** Rewinding forgets the bytes summed. *)
Lemma checksum_rewind_ok w :
  binv w →
  ∃ w' r, stream_rewind checksummed w = Some (w', r) ∧ checksum_ok w' ∧ bbytes w' = bbytes w ∧
    (bok w → bok w') ∧ summed [] w' ∧ match r with Ok _ => bpos w' = 0 | Err _ => ¬ bok w end.
Proof using All.
  intros Hi. unfold stream_rewind, stream_seek at 1. simpl. unfold checksum_stream_seek.
  rewrite bool_decide_eq_true_2 by done. simpl.
  destruct (checksum_put w _ _ Hi fed_reset) as [[Hi' _] Hs].
  destruct (bs_rewind (put L checksum_reset w) Hi') as (w1 & r & E & Hi1 & Hb1 & Hok1 & Hr).
  unfold stream_rewind in E. exists w1, r. rewrite E.
  rewrite (ind_bytes (L := L)) in Hb1.
  pose proof (ind_ok (L := L) w checksum_reset) as Hk.
  assert (summed [] w1) by (unfold summed; by rewrite (ind_seek _ _ _ _ _ E)).
  split_and!; try done; [by split; [|exists []]|tauto|destruct r; tauto].
Qed.

#[export] Instance checksum_byte :
  base ≠ None → may_read a = true → ByteStream checksummed checksum_ok bbytes bpos bok.
Proof using All.
  intros Hb Ha. split.
  - intros w [Hw _]. by apply bs_pos.
  - intros w [Hw _]. by apply bs_len.
  - intros w [Hw _]. by apply bs_bytes.
  - intros w n [Hi [l Hl]] Hn Hp. destruct (checksum_read_ok w n l) as (w' & r & ? & ? & ? & ? & Hr);
      try done. exists w', r. split_and!; try done. destruct r; naive_solver.
  - intros w [Hi _]. destruct (checksum_rewind_ok w Hi) as (w' & r & ? & ? & ? & ? & ? & ?).
    by exists w', r.
  - intros w [Hi _]. by apply (bs_tell (s := base) w Hi).
Qed.

Lemma stream_write_0 {W'} (s : option (stream_t W')) w w' r :
  s ≠ None → stream_write s w [] = Some (w', r) → w' = w ∧ r = Ok 0.
Proof using. destruct s; [|done]. by intros _ [= <- <-]. Qed.

Lemma checksum_write_ok (bdom : Z → Prop) w d l :
  WritableStream base binv bbytes bpos bok bdom → base ≠ None → may_write a = true →
  binv w → summed l w → bytes_ok d → bpos w + len d <= len (bbytes w) →
  (∀ i, bpos w <= i < bpos w + len d → bdom i) →
  ∃ w' r, stream_write checksummed w d = Some (w', r) ∧ checksum_ok w' ∧ (bok w → bok w') ∧
    match r with
    | Ok n => n = len d ∧ bbytes w' = splice (bpos w) d (bbytes w) ∧ bpos w' = bpos w + n ∧
        summed (l ++ d) w'
    | Err _ => ¬ bok w ∧ agree_out (λ i, bpos w <= i < bpos w + len d) (bbytes w) (bbytes w')
    end.
Proof using All.
  intros Hws Hbase Ha Hi Hl Hd Hp Hdom.
  assert (Hbd : buffer_ok d) by (split; [done|]; pose proof (short w Hi); pose proof (bs_pos w Hi); unfold len in *; lia).
  destruct (ws_write (WritableStream := Hws) w d Hi Hd Hp Hdom) as (w1 & r & E & Hi1 & Hok1 & Hr).
  pose proof (ind_write _ _ _ _ E) as Hg.
  assert (Hstep : ∃ c, stream_write checksummed w d = Some (put L c w1, r) ∧
    fed c (l ++ match r with Ok _ => d | Err _ => [] end)).
  { unfold stream_write at 1. simpl. rewrite Ha. destruct (Z.eqb_spec (len d) 0) as [Hd0|Hd0]; simpl.
    { destruct d; [|done]. destruct (stream_write_0 _ _ _ _ Hbase E) as [-> ->].
      exists (get L w). rewrite put_get, app_nil_r. done. }
    unfold checksum_stream_write. rewrite E. returned. destruct r as [n|e].
    2:{ exists (get L w1). rewrite put_get, app_nil_r, Hg. done. }
    destruct Hr as (-> & _). pose proof (len_nonneg d).
    rewrite (proj2 (Z.ltb_lt 0 (len d))), slice_all, Hg by lia.
    destruct (checksum_feed_ok _ _ d Hl Hbd) as (c & -> & Hf). returned. by exists c. }
  destruct Hstep as (c & -> & Hf). destruct (checksum_put w1 c _ Hi1 Hf) as [Hok Hs].
  eexists _, _. split; [done|].
  rewrite (ind_bytes (L := L)), (ind_pos (L := L)), (ind_ok (L := L)).
  split_and!; try done. destruct r; naive_solver.
Qed.

Lemma checksum_full_ok `{!BoundedWrites base binv bbytes bpos bok} w d l :
  base ≠ None → may_write a = true → binv w → summed l w → len d < 2 ^ 62 →
  len (bbytes w) < bpos w + len d → 0 < len d →
  ∃ w' e, stream_write checksummed w d = Some (w', Err e) ∧ checksum_ok w' ∧
    bbytes w' = bbytes w ∧ summed l w' ∧ (bok w → bok w') ∧ (bok w → e = ENOSPC).
Proof using All.
  intros Hbase Ha Hi Hl Hd Hp Hd0.
  destruct (eof_write w d Hi Hd Hp) as (w1 & e & E & Hi1 & Hb1 & Hok1 & He).
  pose proof (ind_write _ _ _ _ E) as Hg. unfold summed, checksum_ok, summed in *. exists w1, e.
  unfold stream_write at 1. simpl. rewrite Ha, (proj2 (Z.eqb_neq _ 0)) by lia. simpl.
  unfold checksum_stream_write. rewrite E, Hg. split_and!; try done; naive_solver.
Qed.

Lemma checksum_flush_ok (bdom : Z → Prop) w :
  WritableStream base binv bbytes bpos bok bdom → may_write a = true → checksum_ok w →
  ∃ w' r, stream_flush checksummed w = Some (w', r) ∧ checksum_ok w' ∧ bbytes w' = bbytes w ∧
    bpos w' = bpos w ∧ (bok w → bok w') ∧ match r with Ok _ => True | Err _ => ¬ bok w end.
Proof using All.
  intros Hws Ha [Hi [l Hl]]. unfold stream_flush at 1. simpl. rewrite Ha. simpl.
  unfold checksum_stream_flush.
  destruct (ws_flush (WritableStream := Hws) w Hi) as (w1 & r1 & E1 & Hi1 & Hb1 & Hp1 & Hok1 & Hr1).
  exists w1, r1. split_and!; try done. split; [done|]. exists l. unfold summed.
  by rewrite (ind_flush _ _ _ E1).
Qed.

#[export] Instance checksum_writable (bdom : Z → Prop) :
  WritableStream base binv bbytes bpos bok bdom → base ≠ None → may_write a = true →
  WritableStream checksummed checksum_ok bbytes bpos bok bdom.
Proof using All.
  intros Hws Hb Ha. split; [|intros w; by apply (checksum_flush_ok bdom)].
  intros w d [Hi [l Hl]] Hd Hp Hdom.
  destruct (checksum_write_ok bdom w d l) as (w' & r & ? & ? & ? & Hr); try done.
  exists w', r. split_and!; try done. destruct r; naive_solver.
Qed.

#[export] Instance checksum_indep {C} (M : lens W C) `{!Disjoint L M}
    `{!Indep M base binv bbytes bpos bok} :
  Indep M checksummed checksum_ok bbytes bpos bok.
Proof using All.
  split; try apply Indep1.
  - intros w c [Hi [l Hl]]. split; [by apply ind_inv|]. exists l. unfold summed.
    by rewrite (dj_get' (L := L) (M := M)).
  - intros w n w' r. unfold stream_read at 1. simpl. case_if; [by intros [= <- _]|].
    case_if; [by intros [= <- _]|]. simpl. unfold checksum_stream_read.
    destruct (stream_read base w n) as [[w1 [d|e]]|] eqn:E; simpl; [| |done].
    + pose proof (ind_read (L := M) _ _ _ _ E) as Hg. case_if; [|by intros [= <- _]].
      destruct (checksum_feed _ _); simpl; [|done]. intros [= <- _].
      by rewrite (dj_get (L := L) (M := M)).
    + intros [= <- _]. by apply (ind_read (L := M) _ _ _ _ E).
  - intros w d w' r. unfold stream_write at 1. simpl. case_if; [by intros [= <- _]|].
    case_if; [by intros [= <- _]|]. simpl. unfold checksum_stream_write.
    destruct (stream_write base w d) as [[w1 [n|e]]|] eqn:E; simpl; [| |done].
    + pose proof (ind_write (L := M) _ _ _ _ E) as Hg. case_if; [|by intros [= <- _]].
      destruct (checksum_feed _ _); simpl; [|done]. intros [= <- _].
      by rewrite (dj_get (L := L) (M := M)).
    + intros [= <- _]. by apply (ind_write (L := M) _ _ _ _ E).
  - intros w w' r. unfold stream_flush at 1. simpl. case_if; [by intros [= <- _]|].
    apply (ind_flush (L := M)).
  - intros w o k w' r.
    assert (Hs : checksum_stream_seek base L w o k = Some (w', r) → get M w' = get M w).
    { unfold checksum_stream_seek. case_if; [by intros [= <- _]|]. intros E.
      rewrite (ind_seek (L := M) _ _ _ _ _ E). apply dj_get. }
    unfold stream_seek at 1. simpl.
    destruct k; [case_if; [by intros [= <- _]|]..|]; apply Hs.
Qed.
End checksum_spec.
