(* ===== verification/BdevStream.v ===== *)
(** * Streams on block devices (blockdevice/src/blockdevice_stream.c, blockdevice.c)

    A stream of bytes on a device that is read and written by sectors, through
    a cache of a few sectors. The device is the environment: each I/O is done
    or fails, and a write that fails may leave any of its sectors on the disk.
    The device also keeps the sectors that were ever sent to it: what a crash
    leaves on the disk is a mix of them, whatever the device reorders.

    The stream is shown to be the array of the bytes of the device seen
    through the cache, as [ByteStream] and [WritableStream] require. *)
From S2P Require Import Prelude Bytes Checksum Stream.
From stdpp Require Import options.

(** ** The device *)

Inductive blockdevice_access_t :=
  | BLOCKDEVICE_ACCESS_READ | BLOCKDEVICE_ACCESS_WRITE | BLOCKDEVICE_ACCESS_RW.

#[export] Instance blockdevice_access_eq_dec : EqDecision blockdevice_access_t.
Proof. solve_decision. Defined.

(** What becomes of an I/O; a failed write leaves the sectors [reached]. *)
Inductive io_outcome := IO_DONE | IO_FAILED (reached : Z → bool).

Record blockdevice_t := mk_bdev {
  disk : list Z;
  b_access : blockdevice_access_t;
  b_io : nat → io_outcome;
  b_count : nat;
  b_log : list (Z * list Z)
}.

Definition blockdevice_get_sector_count (bdev : blockdevice_t) : Z :=
  BYTES_TO_SECTORS (len (disk bdev)).

Definition blockdevice_size (bdev : blockdevice_t) : Z :=
  SECTORS_TO_BYTES (blockdevice_get_sector_count bdev).

Definition in_device (bdev : blockdevice_t) (size start_sector : Z) : bool :=
  SECTORS_TO_BYTES start_sector + size <=? blockdevice_size bdev.

(** The sectors of a buffer written at [start_sector], with their numbers. *)
Definition sectors_of (start_sector : Z) (buf : list Z) : list (Z * list Z) :=
  map (λ i, (start_sector + i, slice (SECTORS_TO_BYTES i) SECTOR_SIZE buf))
      (seqZ 0 (BYTES_TO_SECTORS (len buf))).

Definition write_sector (reached : Z → bool) (d : list Z) (s : Z * list Z) : list Z :=
  if reached s.1 then splice (SECTORS_TO_BYTES s.1) s.2 d else d.

Definition blockdevice_read (bdev : blockdevice_t) (size start_sector : Z)
    : blockdevice_t * result (list Z) :=
  let bdev' := mk_bdev (disk bdev) (b_access bdev) (b_io bdev) (S (b_count bdev)) (b_log bdev) in
  (bdev',
   match b_io bdev (b_count bdev) with
   | IO_DONE =>
       if in_device bdev size start_sector
       then Ok (slice (SECTORS_TO_BYTES start_sector) size (disk bdev)) else Err EIO
   | IO_FAILED _ => Err EIO
   end).

Definition blockdevice_write (bdev : blockdevice_t) (buf : list Z) (start_sector : Z)
    : blockdevice_t * result unit :=
  if bool_decide (b_access bdev = BLOCKDEVICE_ACCESS_READ) then (bdev, Err EINVAL)
  else
    let done d l := mk_bdev d (b_access bdev) (b_io bdev) (S (b_count bdev)) l in
    let log := sectors_of start_sector buf ++ b_log bdev in
    if negb (in_device bdev (len buf) start_sector) then (done (disk bdev) (b_log bdev), Err EIO)
    else
      match b_io bdev (b_count bdev) with
      | IO_DONE => (done (splice (SECTORS_TO_BYTES start_sector) buf (disk bdev)) log, Ok tt)
      | IO_FAILED reached =>
          (done (foldl (write_sector reached) (disk bdev) (sectors_of start_sector buf)) log,
           Err EIO)
      end.

Definition blockdevice_flush (bdev : blockdevice_t) : blockdevice_t * result unit :=
  (mk_bdev (disk bdev) (b_access bdev) (b_io bdev) (S (b_count bdev)) (b_log bdev),
   match b_io bdev (b_count bdev) with IO_DONE => Ok tt | IO_FAILED _ => Err EIO end).

(** ** The stream *)

Record cache_t := mk_cache {
  c_buffer : list Z;
  c_size : Z;
  c_first_sector : Z;
  c_valid : bool;
  c_dirty : bool
}.

Record blockdev_stream_context_t := mk_bctx {
  ctx_bdev : blockdevice_t;
  ctx_offset : Z;
  ctx_cache : cache_t
}.

Definition set_bdev (ctx : blockdev_stream_context_t) (b : blockdevice_t) :=
  mk_bctx b (ctx_offset ctx) (ctx_cache ctx).
Definition set_cache (ctx : blockdev_stream_context_t) (c : cache_t) :=
  mk_bctx (ctx_bdev ctx) (ctx_offset ctx) c.
Definition set_offset (ctx : blockdev_stream_context_t) (o : Z) :=
  mk_bctx (ctx_bdev ctx) o (ctx_cache ctx).

Definition sector_is_cached (ctx : blockdev_stream_context_t) (sector : Z) : bool :=
  let c := ctx_cache ctx in
  (c_first_sector c <=? sector) && (sector <? c_first_sector c + BYTES_TO_SECTORS (c_size c)).

Definition blockdev_stream_flush (ctx : blockdev_stream_context_t)
    : option (blockdev_stream_context_t * result unit) :=
  let c := ctx_cache ctx in
  if negb (c_valid c) || negb (c_dirty c) then Some (ctx, Ok tt)
  else
    let '(bdev, err) := blockdevice_write (ctx_bdev ctx) (c_buffer c) (c_first_sector c) in
    match err with
    | Err e => Some (set_bdev ctx bdev, Err e)
    | Ok _ =>
        let ctx := set_cache (set_bdev ctx bdev)
          (mk_cache (c_buffer c) (c_size c) (c_first_sector c) (c_valid c) false) in
        Some (set_bdev ctx (blockdevice_flush (ctx_bdev ctx)).1, Ok tt)
    end.

(** About to access a sector that is not cached: flush and invalidate. *)
Definition cache_leave (ctx : blockdev_stream_context_t) (sector_offset : Z)
    : option (blockdev_stream_context_t * result unit) :=
  if c_valid (ctx_cache ctx) && negb (sector_is_cached ctx sector_offset) then
    '(ctx, err) ← (if c_dirty (ctx_cache ctx) then blockdev_stream_flush ctx
                   else Some (ctx, Ok tt));
    match err with
    | Err e => Some (ctx, Err e)
    | Ok _ =>
        let c := ctx_cache ctx in
        Some (set_cache ctx (mk_cache (c_buffer c) (c_size c) (c_first_sector c) false (c_dirty c)),
              Ok tt)
    end
  else Some (ctx, Ok tt).

(** Read a full buffer starting at the first sector, when nothing is cached;
    [dirty] is the flag afterwards. *)
Definition cache_fill (dirty : bool) (ctx : blockdev_stream_context_t) (sector_offset : Z)
    : blockdev_stream_context_t * result unit :=
  let c := ctx_cache ctx in
  if negb (c_valid c) then
    let '(bdev, r) := blockdevice_read (ctx_bdev ctx) (c_size c) sector_offset in
    match r with
    | Err e => (set_bdev ctx bdev, Err e)
    | Ok buffer =>
        (set_cache (set_bdev ctx bdev) (mk_cache buffer (c_size c) sector_offset true dirty), Ok tt)
    end
  else (ctx, Ok tt).

Fixpoint read_loop (fuel : nat) (ctx : blockdev_stream_context_t) (size : Z) (buf : list Z)
    : option (blockdev_stream_context_t * result (list Z)) :=
  match fuel with
  | O => None
  | S fuel' =>
      if len buf <? size then
        let sector_offset := BYTES_TO_SECTORS (ctx_offset ctx) in
        '(ctx, err) ← cache_leave ctx sector_offset;
        match err with
        | Err e => Some (ctx, Err e)
        | Ok _ =>
            let '(ctx, err) := cache_fill false ctx sector_offset in
            match err with
            | Err e => Some (ctx, Err e)
            | Ok _ =>
                let c := ctx_cache ctx in
                let offset_inside_cache :=
                  u32 (ctx_offset ctx - SECTORS_TO_BYTES (c_first_sector c)) in
                assert! (offset_inside_cache <? c_size c);
                let bytes_to_read :=
                  u32 (Z.min (size - len buf) (c_size c - offset_inside_cache)) in
                read_loop fuel' (set_offset ctx (u64 (ctx_offset ctx + bytes_to_read))) size
                  (buf ++ slice offset_inside_cache bytes_to_read (c_buffer c))
            end
        end
      else Some (ctx, Ok buf)
  end.

Definition blockdev_stream_read (ctx : blockdev_stream_context_t) (size : Z)
    : option (blockdev_stream_context_t * result (list Z)) :=
  let real_size_in_bytes := blockdevice_size (ctx_bdev ctx) in
  let size := if real_size_in_bytes <? u64 (ctx_offset ctx + size)
              then u64 (real_size_in_bytes - ctx_offset ctx) else size in
  if size =? 0 then Some (ctx, Ok [])
  else read_loop (S (Z.to_nat size)) ctx size [].

Fixpoint write_loop (fuel : nat) (ctx : blockdev_stream_context_t) (buf : list Z)
    (bytes_written : Z) : option (blockdev_stream_context_t * result Z) :=
  match fuel with
  | O => None
  | S fuel' =>
      if bytes_written <? len buf then
        let sector_offset := BYTES_TO_SECTORS (ctx_offset ctx) in
        '(ctx, err) ← cache_leave ctx sector_offset;
        match err with
        | Err e => Some (ctx, Err e)
        | Ok _ =>
            let '(ctx, err) := cache_fill (c_dirty (ctx_cache ctx)) ctx sector_offset in
            match err with
            | Err e => Some (ctx, Err e)
            | Ok _ =>
                let c := ctx_cache ctx in
                let offset_inside_cache :=
                  u32 (ctx_offset ctx - SECTORS_TO_BYTES (c_first_sector c)) in
                assert! (offset_inside_cache <? c_size c);
                let bytes_to_write :=
                  u32 (Z.min (len buf - bytes_written) (c_size c - offset_inside_cache)) in
                let c' := mk_cache
                  (splice offset_inside_cache (slice bytes_written bytes_to_write buf) (c_buffer c))
                  (c_size c) (c_first_sector c) (c_valid c) true in
                write_loop fuel'
                  (set_offset (set_cache ctx c') (u64 (ctx_offset ctx + bytes_to_write)))
                  buf (bytes_written + bytes_to_write)
            end
        end
      else Some (ctx, Ok bytes_written)
  end.

Definition blockdev_stream_write (ctx : blockdev_stream_context_t) (buf : list Z)
    : option (blockdev_stream_context_t * result Z) :=
  if len buf =? 0 then Some (ctx, Ok 0)
  else if blockdevice_size (ctx_bdev ctx) <? u64 (ctx_offset ctx + len buf)
  then Some (ctx, Err ENOSPC)
  else write_loop (S (length buf)) ctx buf 0.

(** An [int64_t]. *)
Definition i64 (x : Z) : Z := let y := u64 x in if y <? 2 ^ 63 then y else y - 2 ^ 64.

Definition blockdev_stream_seek (ctx : blockdev_stream_context_t) (offset : Z)
    (seek : stream_seek_t) : option (blockdev_stream_context_t * result unit) :=
  let real_size_in_bytes := blockdevice_size (ctx_bdev ctx) in
  match seek with
  | STREAM_SEEK_FROM_BEGINNING =>
      if (offset <? 0) || (real_size_in_bytes <? u64 offset) then Some (ctx, Err EINVAL)
      else Some (set_offset ctx (u64 offset), Ok tt)
  | STREAM_SEEK_FROM_POS =>
      if (i64 (ctx_offset ctx) + offset <? 0)
         || (real_size_in_bytes <? u64 (ctx_offset ctx + offset)) then Some (ctx, Err EINVAL)
      else Some (set_offset ctx (u64 (ctx_offset ctx + offset)), Ok tt)
  | STREAM_SEEK_FROM_END =>
      if (real_size_in_bytes <? u64 (real_size_in_bytes + offset))
         || (i64 real_size_in_bytes + offset <? 0) then Some (ctx, Err EINVAL)
      else Some (set_offset ctx (u64 (real_size_in_bytes + offset)), Ok tt)
  end.

Definition blockdev_stream_tell (ctx : blockdev_stream_context_t) : Z := ctx_offset ctx.

Section stream.
Context {W : Type} (L : lens W blockdev_stream_context_t).

(** The operations on the context, at its place in the world. *)
Definition at_ctx {A} (f : blockdev_stream_context_t → option (blockdev_stream_context_t * A))
    (w : W) : option (W * A) :=
  '(ctx, r) ← f (get L w); Some (put L ctx w, r).

Definition blockdev_stream_ops : stream_ops_t W :=
  mk_stream_ops
    (Some (λ w size, at_ctx (λ ctx, blockdev_stream_read ctx size) w))
    (Some (λ w buf, at_ctx (λ ctx, blockdev_stream_write ctx buf) w))
    (Some (at_ctx blockdev_stream_flush))
    (Some (λ w offset seek, at_ctx (λ ctx, blockdev_stream_seek ctx offset seek) w))
    (Some (λ w, blockdev_stream_tell (get L w)))
    (Some (λ w, w)).

(** [malloc] leaves [garbage] in the new buffer. *)
Definition blockdevice_stream_on (w : W) (allocated allocated' allocated'' : bool)
    (garbage : list Z) (bdev : option blockdevice_t) (cache_size : Z) (access : stream_access_t)
    : W * result (stream_t W) :=
  match bdev with
  | None => (w, Err EINVAL)
  | Some bdev =>
      if may_write access && bool_decide (b_access bdev = BLOCKDEVICE_ACCESS_READ)
      then (w, Err EPERM)
      else if negb allocated || negb allocated' then (w, Err ENOMEM)
      else (put L (mk_bctx bdev 0 (mk_cache garbage cache_size 0 false false)) w,
            stream_open allocated'' blockdev_stream_ops access)
  end.
End stream.

(** ** The bytes of the device seen through the cache *)

Definition window (c : cache_t) : Z := SECTORS_TO_BYTES (c_first_sector c).

Definition view (ctx : blockdev_stream_context_t) : list Z :=
  if c_valid (ctx_cache ctx)
  then splice (window (ctx_cache ctx)) (c_buffer (ctx_cache ctx)) (disk (ctx_bdev ctx))
  else disk (ctx_bdev ctx).

Record device_ok (b : blockdevice_t) : Prop := {
  dv_sectors : len (disk b) mod SECTOR_SIZE = 0;
  dv_len : len (disk b) < 2 ^ 62;
  dv_bytes : bytes_ok (disk b);
  dv_access : b_access b ≠ BLOCKDEVICE_ACCESS_READ
}.

Record cache_ok (b : blockdevice_t) (c : cache_t) : Prop := {
  ca_size : 0 < c_size c < 2 ^ 31;
  ca_sectors : c_size c mod SECTOR_SIZE = 0;
  ca_first : c_valid c = true → 0 <= c_first_sector c;
  ca_buffer : c_valid c = true → len (c_buffer c) = c_size c;
  ca_bytes : c_valid c = true → bytes_ok (c_buffer c);
  ca_range : c_valid c = true → window c + c_size c <= len (disk b);
  ca_clean : c_dirty c = false → c_valid c = true →
    c_buffer c = slice (window c) (c_size c) (disk b);
  ca_invalid : c_valid c = false → c_dirty c = false
}.

(** A sector that was sent to the device, compared with [d0]. *)
Definition sector_agrees (M : Z → Prop) (d0 : list Z) (s : Z * list Z) : Prop :=
  0 <= s.1 ∧ SECTORS_TO_BYTES s.1 + SECTOR_SIZE <= len d0 ∧ len s.2 = SECTOR_SIZE ∧
  ∀ i : nat, Z.of_nat i < SECTOR_SIZE → ¬ M (SECTORS_TO_BYTES s.1 + Z.of_nat i) →
    s.2 !! i = d0 !! (Z.to_nat (SECTORS_TO_BYTES s.1) + i)%nat.

Definition reliable (ctx : blockdev_stream_context_t) : Prop :=
  ∀ n, b_io (ctx_bdev ctx) n = IO_DONE.

Lemma device_size b : device_ok b → blockdevice_size b = len (disk b).
Proof.
  intros []. unfold blockdevice_size, blockdevice_get_sector_count, SECTORS_TO_BYTES, BYTES_TO_SECTORS.
  pose proof (Z.div_mod (len (disk b)) SECTOR_SIZE ltac:(done)). lia.
Qed.

(** *** Sectors of a buffer *)

Lemma sectors_of_agree M d0 start buf :
  0 <= start → len buf mod SECTOR_SIZE = 0 → SECTORS_TO_BYTES start + len buf <= len d0 →
  (∀ i : nat, Z.of_nat i < len buf → ¬ M (SECTORS_TO_BYTES start + Z.of_nat i) →
     buf !! i = d0 !! (Z.to_nat (SECTORS_TO_BYTES start) + i)%nat) →
  Forall (sector_agrees M d0) (sectors_of start buf).
Proof.
  intros Hs Hm Hl Ha. apply Forall_forall. intros [s c] Hin. unfold sectors_of in Hin.
  apply list_elem_of_fmap in Hin as (k & [= -> ->] & [Hk0 Hk]%elem_of_seqZ).
  pose proof (Z.div_mod (len buf) SECTOR_SIZE ltac:(done)) as Hdm.
  unfold BYTES_TO_SECTORS, SECTORS_TO_BYTES, SECTOR_SIZE in *.
  unfold sector_agrees, SECTORS_TO_BYTES, SECTOR_SIZE. simpl.
  split_and!; [lia|lia|apply len_slice; lia|].
  intros i Hi HM. rewrite lookup_slice by lia. rewrite Ha; [f_equal; lia|lia|].
  by replace (start * 512 + Z.of_nat (Z.to_nat (k * 512) + i)) with ((start + k) * 512 + Z.of_nat i) by lia.
Qed.

(** Each sector is a part of the buffer. *)
Lemma sectors_of_part start buf s c :
  len buf mod SECTOR_SIZE = 0 → (s, c) ∈ sectors_of start buf →
  ∃ k, 0 <= k ∧ SECTORS_TO_BYTES k + SECTOR_SIZE <= len buf ∧ s = start + k ∧
    c = slice (SECTORS_TO_BYTES k) SECTOR_SIZE buf.
Proof.
  intros Hm Hin. unfold sectors_of in Hin.
  apply list_elem_of_fmap in Hin as (k & [= -> ->] & [Hk0 Hk]%elem_of_seqZ).
  pose proof (Z.div_mod (len buf) SECTOR_SIZE ltac:(done)).
  exists k. unfold BYTES_TO_SECTORS, SECTORS_TO_BYTES, SECTOR_SIZE in *. split_and!; done || lia.
Qed.

(** [d'] is [d] with some of the bytes of [buf] at [o]. *)
Record patched (o : Z) (buf d d' : list Z) : Prop := {
  pt_len : len d' = len d;
  pt_bytes : bytes_ok d → bytes_ok buf → bytes_ok d';
  pt_out (i : nat) : Z.of_nat i < o ∨ o + len buf <= Z.of_nat i → d' !! i = d !! i;
  pt_in (i : nat) : d' !! i = d !! i ∨ d' !! i = buf !! (i - Z.to_nat o)%nat
}.

Lemma patched_trans o buf d d1 d2 : patched o buf d d1 → patched o buf d1 d2 → patched o buf d d2.
Proof.
  intros [Hl1 Hb1 Ho1 Hi1] [Hl2 Hb2 Ho2 Hi2]. split; [congruence|auto| |].
  - intros i Hi. by rewrite Ho2, Ho1.
  - intros i. destruct (Hi2 i) as [-> | ->]; [apply Hi1|by right].
Qed.

Lemma patched_sector start buf s reached d :
  0 <= start → len buf mod SECTOR_SIZE = 0 → SECTORS_TO_BYTES start + len buf <= len d →
  s ∈ sectors_of start buf →
  patched (SECTORS_TO_BYTES start) buf d (write_sector reached d s).
Proof.
  intros Hs Hm Hl Hin. destruct s as [s c].
  destruct (sectors_of_part _ _ _ _ Hm Hin) as (k & Hk0 & Hk & -> & ->).
  unfold write_sector. simpl. case_if; [|split; [done|done|done|by left]].
  unfold SECTORS_TO_BYTES, SECTOR_SIZE in *.
  assert (Hsl : len (slice (k * 512) 512 buf) = 512) by (apply len_slice; lia).
  split; [apply len_splice; lia|intros; apply bytes_ok_splice; [by apply bytes_ok_slice|done]| |].
  - intros i Hi. apply lookup_splice_out; lia.
  - intros i. destruct (decide ((start + k) * 512 <= Z.of_nat i < (start + k) * 512 + 512)).
    + right. rewrite lookup_splice_in, lookup_slice by lia. f_equal. lia.
    + left. apply lookup_splice_out; lia.
Qed.

(** A write that fails only touches the range of the buffer. *)
Lemma torn_write reached start buf d :
  0 <= start → len buf mod SECTOR_SIZE = 0 → SECTORS_TO_BYTES start + len buf <= len d →
  patched (SECTORS_TO_BYTES start) buf d
    (foldl (write_sector reached) d (sectors_of start buf)).
Proof.
  intros Hs Hm Hl.
  assert (Hgen : ∀ l, Forall (λ s, s ∈ sectors_of start buf) l →
    ∀ d, SECTORS_TO_BYTES start + len buf <= len d →
    patched (SECTORS_TO_BYTES start) buf d (foldl (write_sector reached) d l));
    [|apply Hgen; [by apply Forall_forall|done]].
  clear d Hl. induction 1 as [|s l Hin Hall IH]; intros d Hl; cbn [foldl].
  { split; [done|done|done|by left]. }
  pose proof (patched_sector start buf s reached d Hs Hm Hl Hin) as H1.
  eapply patched_trans; [exact H1|]. apply IH. by rewrite (pt_len _ _ _ _ H1).
Qed.

Lemma splice_patched o buf d d' :
  0 <= o → o + len buf <= len d → patched o buf d d' → splice o buf d' = splice o buf d.
Proof.
  intros Ho Hl [Hlen _ Hout _]. apply list_eq_len; rewrite !len_splice by lia; [done|].
  intros i Hi. destruct (decide (o <= Z.of_nat i < o + len buf)).
  - by rewrite !lookup_splice_in by lia.
  - rewrite !lookup_splice_out by lia. apply Hout. lia.
Qed.

Lemma patched_splice o buf d : 0 <= o → o + len buf <= len d → patched o buf d (splice o buf d).
Proof.
  intros Ho Hl. split; [by apply len_splice|intros; by apply bytes_ok_splice| |].
  - intros i Hi. apply lookup_splice_out; lia.
  - intros i. destruct (decide (o <= Z.of_nat i < o + len buf)).
    + right. apply lookup_splice_in; lia.
    + left. apply lookup_splice_out; lia.
Qed.

(** The bytes of [buf], to be written at [o], are those of [d0] out of [M]. *)
Definition buffer_agrees (M : Z → Prop) (d0 : list Z) (o : Z) (buf : list Z) : Prop :=
  ∀ i : nat, Z.of_nat i < len buf → ¬ M (o + Z.of_nat i) → buf !! i = d0 !! (Z.to_nat o + i)%nat.

Lemma device_write_ok M d0 (P : Z * list Z → Prop) b buf start :
  (∀ s, sector_agrees M d0 s → P s) →
  device_ok b → Forall P (b_log b) → 0 <= start → len buf mod SECTOR_SIZE = 0 →
  SECTORS_TO_BYTES start + len buf <= len (disk b) → len d0 = len (disk b) → bytes_ok buf →
  buffer_agrees M d0 (SECTORS_TO_BYTES start) buf →
  let '(b', r) := blockdevice_write b buf start in
  device_ok b' ∧ Forall P (b_log b') ∧ b_io b' = b_io b ∧
  patched (SECTORS_TO_BYTES start) buf (disk b) (disk b') ∧
  match r with
  | Ok _ => disk b' = splice (SECTORS_TO_BYTES start) buf (disk b)
  | Err _ => ¬ ∀ n, b_io b n = IO_DONE
  end.
Proof.
  intros HP Hd Hlog Hst Hm Hl Hl0 Hb Ha. unfold blockdevice_write.
  rewrite bool_decide_eq_false_2 by apply Hd. unfold in_device.
  rewrite device_size, (proj2 (Z.leb_le _ _)) by done. cbn [negb].
  assert (Hst' : 0 <= SECTORS_TO_BYTES start) by (unfold SECTORS_TO_BYTES, SECTOR_SIZE; lia).
  assert (Hlog' : Forall P (sectors_of start buf ++ b_log b)).
  { apply Forall_app. split; [|done]. eapply Forall_impl; [|exact HP].
    apply sectors_of_agree; [done|done| |done]. by rewrite Hl0. }
  assert (Hdev : ∀ d n, patched (SECTORS_TO_BYTES start) buf (disk b) d →
    device_ok (mk_bdev d (b_access b) (b_io b) n (sectors_of start buf ++ b_log b))).
  { intros d n Q. destruct Hd. split; simpl; rewrite ?(pt_len _ _ _ _ Q); try done. by apply Q. }
  destruct (b_io b (b_count b)) as [|reached] eqn:Eio.
  - pose proof (patched_splice _ _ _ Hst' Hl) as Q. pose proof (Hdev _ (S (b_count b)) Q). done.
  - pose proof (torn_write reached _ _ _ Hst Hm Hl) as Q. pose proof (Hdev _ (S (b_count b)) Q).
    split_and!; try done. intros Hn. by rewrite Hn in Eio.
Qed.

(** ** Operations on the stream *)

(** The bytes seen are those of [d0] out of [M], and every sector sent to the
    device satisfies [P], which the sectors of such bytes do. *)
Section raw.
Context (lim : Z) (M : Z → Prop) (d0 : list Z) (P : Z * list Z → Prop).
Context (HP : ∀ s, sector_agrees M d0 s → P s).

Record raw_ok (ctx : blockdev_stream_context_t) : Prop := {
  rw_dev : device_ok (ctx_bdev ctx);
  rw_cache : cache_ok (ctx_bdev ctx) (ctx_cache ctx);
  rw_lim : 0 <= lim ∧ lim + c_size (ctx_cache ctx) <= len (disk (ctx_bdev ctx));
  rw_ofs : 0 <= ctx_offset ctx <= lim;
  rw_log : Forall P (b_log (ctx_bdev ctx));
  rw_view : agree_out M d0 (view ctx)
}.

(** A step that does not change what is seen. *)
Record quiet (ctx ctx' : blockdev_stream_context_t) : Prop := {
  qt_ok : raw_ok ctx';
  qt_view : view ctx' = view ctx;
  qt_ofs : ctx_offset ctx' = ctx_offset ctx;
  qt_rel : reliable ctx → reliable ctx'
}.

Lemma quiet_refl ctx : raw_ok ctx → quiet ctx ctx.
Proof using. by split. Qed.

Lemma quiet_trans ctx ctx1 ctx2 : quiet ctx ctx1 → quiet ctx1 ctx2 → quiet ctx ctx2.
Proof using. intros [] []. split; [done|congruence|congruence|auto]. Qed.

Lemma len_view ctx : raw_ok ctx → len (view ctx) = len (disk (ctx_bdev ctx)).
Proof using.
  intros Hw. unfold view. case_if; [|done]. destruct Hw as [_ [] _ _ _ _].
  apply len_splice; [|rewrite ca_buffer0 by done; auto].
  unfold window, SECTORS_TO_BYTES, SECTOR_SIZE. specialize (ca_first0 Hif). lia.
Qed.

Lemma window_nonneg ctx : raw_ok ctx → c_valid (ctx_cache ctx) = true → 0 <= window (ctx_cache ctx).
Proof using.
  intros [_ [] _ _ _ _] Hv. specialize (ca_first0 Hv). unfold window, SECTORS_TO_BYTES, SECTOR_SIZE. lia.
Qed.

Lemma cache_agrees ctx :
  raw_ok ctx → c_valid (ctx_cache ctx) = true →
  buffer_agrees M d0 (window (ctx_cache ctx)) (c_buffer (ctx_cache ctx)).
Proof using.
  intros Hw Hv i Hi HM. pose proof (window_nonneg ctx Hw Hv) as Hp.
  destruct Hw as [_ [] _ _ _ [Hl Ha]].
  specialize (Ha (Z.to_nat (window (ctx_cache ctx)) + i)%nat). unfold view in Ha. rewrite Hv in Ha.
  rewrite ca_buffer0 in Hi by done. specialize (ca_range0 Hv).
  rewrite lookup_splice_in in Ha by (rewrite ?ca_buffer0; done || lia).
  rewrite <- Ha; [f_equal; lia|]. by replace (Z.of_nat _) with (window (ctx_cache ctx) + Z.of_nat i) by lia.
Qed.

(** A cache with nothing to write shows the disk. *)
Lemma view_clean ctx :
  raw_ok ctx → c_dirty (ctx_cache ctx) = false ∨ c_valid (ctx_cache ctx) = false →
  view ctx = disk (ctx_bdev ctx).
Proof using.
  intros Hw Hcl. unfold view. destruct (c_valid (ctx_cache ctx)) eqn:Hv; [|done].
  destruct Hcl as [Hd|?]; [|done]. pose proof (window_nonneg ctx Hw Hv).
  destruct Hw as [_ [Hz _ _ _ _ Hr Hc _] _ _ _ _]. specialize (Hr Hv). rewrite (Hc Hd Hv).
  apply splice_slice; lia.
Qed.

Lemma flush_ok ctx :
  raw_ok ctx →
  ∃ ctx' r, blockdev_stream_flush ctx = Some (ctx', r) ∧ quiet ctx ctx' ∧
    match r with
    | Ok _ => c_dirty (ctx_cache ctx') = false ∨ c_valid (ctx_cache ctx') = false
    | Err _ => ¬ reliable ctx
    end.
Proof using HP.
  intros Hw. unfold blockdev_stream_flush.
  destruct (c_valid (ctx_cache ctx)) eqn:Hv; simpl; [|eexists _, _; split; [done|]; split; [by apply quiet_refl|by right]].
  destruct (c_dirty (ctx_cache ctx)) eqn:Hd; simpl; [|eexists _, _; split; [done|]; split; [by apply quiet_refl|by left]].
  pose proof (cache_agrees ctx Hw Hv) as Hag. pose proof (window_nonneg ctx Hw Hv) as Hp.
  pose proof Hw as [Hdev Hc Hlim Hofs Hsafe Hview]. pose proof Hc as [].
  pose proof (device_write_ok M d0 P (ctx_bdev ctx) (c_buffer (ctx_cache ctx))
    (c_first_sector (ctx_cache ctx)) HP Hdev Hsafe (ca_first0 Hv)) as Hwr.
  rewrite ca_buffer0 in Hwr by done. pose proof (len_view ctx Hw) as Hlv. rewrite (proj1 Hview) in Hlv.
  specialize (Hwr ca_sectors0 (ca_range0 Hv) Hlv (ca_bytes0 Hv) Hag).
  destruct (blockdevice_write _ _ _) as [b' r] eqn:Ewr. destruct Hwr as (Hdev' & Hsafe' & Hio & Q & Hr).
  fold (window (ctx_cache ctx)) in Q, Hr. pose proof (pt_len _ _ _ _ Q) as Hlen.
  assert (Hsp : splice (window (ctx_cache ctx)) (c_buffer (ctx_cache ctx)) (disk b') =
                splice (window (ctx_cache ctx)) (c_buffer (ctx_cache ctx)) (disk (ctx_bdev ctx))).
  { apply splice_patched; [done| |done]. rewrite ca_buffer0; auto. }
  destruct r as [[]|e].
  - eexists _, _. split; [done|]. split; [|by left].
    match goal with |- quiet _ ?x => assert (Hv' : view x = view ctx)
      by (unfold view; simpl; rewrite ?Hv; exact Hsp) end.
    assert (Hdk : slice (window (ctx_cache ctx)) (c_size (ctx_cache ctx)) (disk b')
                  = c_buffer (ctx_cache ctx)).
    { rewrite Hr, <- (ca_buffer0 Hv). apply slice_splice_same; [done|]. rewrite ca_buffer0; auto. }
    split; [|done|done|intros Hrel n; simpl; by rewrite Hio].
    split; simpl; [by destruct Hdev'; split| |lia|done|done|by rewrite Hv'].
    split; simpl; rewrite ?Hlen; auto.
  - eexists _, _. split; [done|]. split; [|done].
    match goal with |- quiet _ ?x => assert (Hv' : view x = view ctx)
      by (unfold view; simpl; rewrite ?Hv; exact Hsp) end.
    split; [|done|done|intros Hrel n; simpl; by rewrite Hio].
    split; simpl; [done| |lia|done|done|by rewrite Hv'].
    split; simpl; rewrite ?Hlen; auto. by rewrite Hd.
Qed.

Lemma invalidate_ok ctx :
  raw_ok ctx → c_dirty (ctx_cache ctx) = false →
  let c := ctx_cache ctx in
  quiet ctx (set_cache ctx (mk_cache (c_buffer c) (c_size c) (c_first_sector c) false (c_dirty c))).
Proof using.
  intros Hw Hd. pose proof Hw as [Hdev [] Hlim Hofs Hsafe Hview].
  assert (Hv : disk (ctx_bdev ctx) = view ctx).
  { unfold view. case_if; [|done]. rewrite (ca_clean0 Hd eq_refl).
    symmetry. apply splice_slice; [|lia|auto].
    unfold window, SECTORS_TO_BYTES, SECTOR_SIZE. specialize (ca_first0 eq_refl). lia. }
  split; [|by rewrite <- Hv|done|done].
  split; simpl; [done|by split|done|done|done|unfold view; simpl; by rewrite Hv].
Qed.

Lemma leave_ok ctx s :
  raw_ok ctx →
  ∃ ctx' r, cache_leave ctx s = Some (ctx', r) ∧ quiet ctx ctx' ∧
    match r with
    | Ok _ => c_valid (ctx_cache ctx') = false ∨ sector_is_cached ctx' s = true
    | Err _ => ¬ reliable ctx
    end.
Proof using HP.
  intros Hw. unfold cache_leave. destruct (c_valid (ctx_cache ctx)) eqn:Hv; simpl.
  2:{ eexists _, _. split; [done|]. split; [by apply quiet_refl|by left]. }
  destruct (sector_is_cached ctx s) eqn:Hs; simpl.
  { eexists _, _. split; [done|]. split; [by apply quiet_refl|by right]. }
  destruct (c_dirty (ctx_cache ctx)) eqn:Hd; simpl.
  - destruct (flush_ok ctx Hw) as (ctx1 & r1 & -> & Hq & Hr). returned.
    destruct r1 as [[]|e]; [|by eexists _, _].
    eexists _, _. split; [done|]. split; [|by left].
    eapply quiet_trans; [exact Hq|]. destruct Hq as [Hw1 _ _ _].
    apply invalidate_ok; [done|]. destruct Hr as [?|?]; [done|].
    by apply (ca_invalid _ _ (rw_cache _ Hw1)).
  - eexists _, _. split; [done|]. split; [|by left].
    by apply invalidate_ok.
Qed.

Lemma sector_window s c_sz o :
  0 <= o → s = BYTES_TO_SECTORS o → 0 < c_sz → c_sz mod SECTOR_SIZE = 0 →
  SECTORS_TO_BYTES s <= o < SECTORS_TO_BYTES s + c_sz.
Proof using.
  intros Ho -> Hc Hm. unfold SECTORS_TO_BYTES, BYTES_TO_SECTORS, SECTOR_SIZE in *.
  pose proof (Z.div_mod o 512 ltac:(lia)). pose proof (Z.mod_pos_bound o 512 ltac:(lia)).
  pose proof (Z.div_mod c_sz 512 ltac:(lia)). lia.
Qed.

(** The cache covers the current offset. *)
Definition covered (ctx : blockdev_stream_context_t) : Prop :=
  let c := ctx_cache ctx in
  c_valid c = true ∧ window c <= ctx_offset ctx < window c + c_size c.

Lemma fill_ok d ctx :
  raw_ok ctx → ctx_offset ctx < lim →
  (c_valid (ctx_cache ctx) = false ∨ sector_is_cached ctx (BYTES_TO_SECTORS (ctx_offset ctx)) = true) →
  (c_valid (ctx_cache ctx) = false → d = false) →
  let '(ctx', r) := cache_fill d ctx (BYTES_TO_SECTORS (ctx_offset ctx)) in
  quiet ctx ctx' ∧ match r with Ok _ => covered ctx' | Err _ => ¬ reliable ctx end.
Proof using.
  intros Hw Hlt Hc Hd. unfold cache_fill. pose proof Hw as [Hdev Hca Hlim Hofs Hsafe Hview].
  pose proof (ca_size _ _ Hca) as Hsz. pose proof (ca_sectors _ _ Hca) as Hse.
  destruct (c_valid (ctx_cache ctx)) eqn:Hv; simpl.
  - split; [by apply quiet_refl|]. destruct Hc as [?|Hc]; [done|]. split; [done|].
    unfold sector_is_cached in Hc. bool_to_prop.
    unfold window, SECTORS_TO_BYTES, BYTES_TO_SECTORS, SECTOR_SIZE in *.
    pose proof (Z.div_mod (ctx_offset ctx) 512 ltac:(lia)).
    pose proof (Z.mod_pos_bound (ctx_offset ctx) 512 ltac:(lia)).
    pose proof (Z.div_mod (c_size (ctx_cache ctx)) 512 ltac:(lia)). lia.
  - rewrite (Hd eq_refl). set (s := BYTES_TO_SECTORS (ctx_offset ctx)).
    pose proof (sector_window s (c_size (ctx_cache ctx)) (ctx_offset ctx) ltac:(lia) eq_refl
      ltac:(lia) Hse) as Hwin.
    assert (Hs0 : 0 <= s) by (apply Z.div_pos; unfold SECTOR_SIZE; lia).
    assert (Hvd : view ctx = disk (ctx_bdev ctx)) by (unfold view; by rewrite Hv).
    unfold in_device. rewrite device_size by done.
    destruct (b_io (ctx_bdev ctx) (b_count (ctx_bdev ctx))) eqn:Eio; cycle 1.
    { split; [|intros Hrel; by rewrite Hrel in Eio]. split; simpl; [|done|done|done].
      by split; simpl; [destruct Hdev|destruct Hca| | | |]. }
    rewrite (proj2 (Z.leb_le _ _)) by lia.
    set (o := SECTORS_TO_BYTES s) in *. set (n := c_size (ctx_cache ctx)) in *.
    assert (0 <= o) by (unfold o, SECTORS_TO_BYTES, SECTOR_SIZE; lia).
    assert (Hsp : splice o (slice o n (disk (ctx_bdev ctx))) (disk (ctx_bdev ctx))
                  = disk (ctx_bdev ctx)) by (apply splice_slice; lia).
    split; [|split; [done|]; exact Hwin].
    match goal with |- quiet _ ?x => assert (Hv' : view x = view ctx)
      by (rewrite Hvd; exact Hsp) end.
    split; [|done|done|done]. split; simpl; try done; [by destruct Hdev| |by rewrite Hv'].
    split; simpl; try done; [intros; apply len_slice; lia|intros; by apply bytes_ok_slice, Hdev|].
    intros _. change (window _) with o. lia.
Qed.

Lemma prepare_ok ctx :
  raw_ok ctx → ctx_offset ctx < lim →
  ∃ ctx1 r1, cache_leave ctx (BYTES_TO_SECTORS (ctx_offset ctx)) = Some (ctx1, r1) ∧
    quiet ctx ctx1 ∧
    match r1 with
    | Err _ => ¬ reliable ctx
    | Ok _ => ∀ d, (c_valid (ctx_cache ctx1) = false → d = false) →
        let '(ctx2, r2) := cache_fill d ctx1 (BYTES_TO_SECTORS (ctx_offset ctx)) in
        quiet ctx ctx2 ∧ match r2 with Ok _ => covered ctx2 | Err _ => ¬ reliable ctx end
    end.
Proof using HP.
  intros Hw Hlt. destruct (leave_ok ctx (BYTES_TO_SECTORS (ctx_offset ctx)) Hw)
    as (ctx1 & r1 & E & Hq & Hr).
  exists ctx1, r1. split; [done|]. split; [done|]. destruct r1 as [[]|e]; [|done]. intros d Hd.
  pose proof Hq as [Hw1 _ Ho Hrel]. rewrite <- Ho in Hr |- *.
  pose proof (fill_ok d ctx1 Hw1 ltac:(lia) Hr Hd) as Hf.
  destruct (cache_fill _ _ _) as [ctx2 r2]. destruct Hf as [Hq2 Hr2]. split; [by eapply quiet_trans|].
  destruct r2; tauto.
Qed.

(** What the cache holds at the current offset. *)
Lemma covered_slice ctx n :
  raw_ok ctx → covered ctx → 0 <= n →
  n <= window (ctx_cache ctx) + c_size (ctx_cache ctx) - ctx_offset ctx →
  slice (ctx_offset ctx - window (ctx_cache ctx)) n (c_buffer (ctx_cache ctx))
  = slice (ctx_offset ctx) n (view ctx).
Proof using.
  intros Hw [Hv Hc] Hn Hl. pose proof (window_nonneg ctx Hw Hv). destruct Hw as [_ [] _ _ _ _].
  unfold view. rewrite Hv. specialize (ca_buffer0 Hv). specialize (ca_range0 Hv).
  rewrite <- (slice_splice_in (window (ctx_cache ctx)) _ (disk (ctx_bdev ctx))) by lia.
  f_equal. lia.
Qed.

Lemma advance_ok ctx n :
  raw_ok ctx → 0 <= n → ctx_offset ctx + n <= lim →
  raw_ok (set_offset ctx (ctx_offset ctx + n)).
Proof using. intros [] ? ?. split; simpl; done || lia. Qed.

Lemma read_loop_ok fuel ctx size buf :
  raw_ok ctx → len buf <= size < 2 ^ 62 → ctx_offset ctx + (size - len buf) <= lim →
  size - len buf < Z.of_nat fuel →
  ∃ ctx' r, read_loop fuel ctx size buf = Some (ctx', r) ∧ raw_ok ctx' ∧ view ctx' = view ctx ∧
    (reliable ctx → reliable ctx') ∧
    match r with
    | Ok d => d = buf ++ slice (ctx_offset ctx) (size - len buf) (view ctx) ∧
        ctx_offset ctx' = ctx_offset ctx + (size - len buf)
    | Err _ => ¬ reliable ctx
    end.
Proof using HP.
  revert ctx buf. induction fuel as [|fuel IH]; intros ctx buf Hw Hsz Hlim Hf; [lia|].
  cbn [read_loop]. destruct (Z.ltb_spec (len buf) size); cycle 1.
  { eexists _, _. split; [done|]. replace (size - len buf) with 0 by lia.
    rewrite slice_0, app_nil_r, Z.add_0_r. done. }
  destruct (prepare_ok ctx Hw) as (ctx1 & r1 & -> & Hq1 & Hr1); [lia|]. returned.
  destruct r1 as [[]|e]; [|by eexists _, _; destruct Hq1].
  specialize (Hr1 false ltac:(done)). destruct (cache_fill _ _ _) as [ctx2 r2].
  destruct Hr1 as [[Hw2 Hv2 Ho2 Hrel2] Hr2]. destruct r2 as [[]|e]; [|by eexists _, _].
  pose proof (covered_slice ctx2) as Hsl. destruct Hr2 as [Hv Hwin].
  pose proof (window_nonneg ctx2 Hw2 Hv) as Hpos. fold (window (ctx_cache ctx2)).
  pose proof Hw2 as [Hdev Hca Hl2 Hofs2 _ _]. destruct (ca_size _ _ Hca) as [Hs0 Hs31].
  pose proof (len_nonneg buf). pose proof (dv_len _ Hdev).
  rewrite (u32_id (ctx_offset ctx2 - _)) by (unfold fits; lia).
  rewrite (proj2 (Z.ltb_lt (_ - _) _)) by lia. cbn [exa_assert].
  set (n := Z.min (size - len buf) (c_size (ctx_cache ctx2) - (ctx_offset ctx2 - window (ctx_cache ctx2)))).
  assert (Hn : 0 < n <= size - len buf) by lia.
  rewrite (u32_id n) by (unfold fits; lia). rewrite u64_id by (unfold fits; lia).
  rewrite Hsl by (done || lia). rewrite Ho2, Hv2.
  assert (Hln : len (slice (ctx_offset ctx) n (view ctx)) = n).
  { rewrite <- Ho2, <- Hv2. apply len_slice; [lia..|]. rewrite len_view by done. lia. }
  destruct (IH (set_offset ctx2 (ctx_offset ctx2 + n)) (buf ++ slice (ctx_offset ctx) n (view ctx)))
    as (ctx' & r & E & Hw' & Hv' & Hrel' & Hr').
  { apply advance_ok; [done|lia|lia]. }
  { rewrite len_app, Hln. lia. }
  { simpl. rewrite len_app, Hln. lia. }
  { rewrite len_app, Hln. lia. }
  rewrite Ho2 in E. rewrite E. eexists _, _. split; [done|]. split; [done|].
  change (view (set_offset ctx2 _)) with (view ctx2) in Hv', Hr'.
  split; [congruence|]. split; [auto|]. destruct r as [d|e]; [|auto].
  destruct Hr' as [-> ->]. rewrite len_app, Hln, Hv2. simpl. rewrite Ho2. split; [|lia].
  rewrite <- app_assoc, <- slice_app by lia. do 2 f_equal. lia.
Qed.
End raw.

(** Overwriting a part of the cache; [d1] is what is then expected. *)
Lemma cache_write_ok lim M d0 d1 P ctx d :
  raw_ok lim M d0 P ctx → covered ctx → bytes_ok d →
  ctx_offset ctx + len d <= window (ctx_cache ctx) + c_size (ctx_cache ctx) →
  ctx_offset ctx + len d <= lim → agree_out M d1 (splice (ctx_offset ctx) d (view ctx)) →
  let c := ctx_cache ctx in
  let ctx' := set_offset (set_cache ctx (mk_cache
      (splice (ctx_offset ctx - window c) d (c_buffer c)) (c_size c) (c_first_sector c)
      (c_valid c) true)) (ctx_offset ctx + len d) in
  raw_ok lim M d1 P ctx' ∧ view ctx' = splice (ctx_offset ctx) d (view ctx).
Proof.
  intros Hw [Hv Hwin] Hd Hc Hlim HM c ctx'. subst c.
  pose proof (window_nonneg _ _ _ _ ctx Hw Hv) as Hpos. pose proof (len_view _ _ _ _ ctx Hw) as Hlv.
  pose proof Hw as [Hdev [] Hl Hofs Hsafe Hview]. pose proof (len_nonneg d).
  set (c := ctx_cache ctx) in *.
  assert (Hlb : len (splice (ctx_offset ctx - window c) d (c_buffer c)) = c_size c).
  { rewrite len_splice; rewrite ?ca_buffer0; try done; lia. }
  assert (Hvw : view ctx' = splice (ctx_offset ctx) d (view ctx)).
  { unfold view. simpl. fold c. rewrite Hv. change (window (mk_cache _ _ _ _ _)) with (window c).
    rewrite splice_splice by (rewrite ?ca_buffer0; auto; lia). f_equal. lia. }
  split; [|done]. split; simpl; try done; [|lia|by rewrite Hvw].
  split; simpl; try done; [|].
  - intros. apply bytes_ok_splice; [done|auto].
  - fold c. by rewrite Hv.
Qed.

Section raw_write.
Context (lim : Z) (M : Z → Prop) (d0 : list Z) (P : Z * list Z → Prop).
Context (HP : ∀ s, sector_agrees M d0 s → P s).
Local Abbreviation raw_ok := (raw_ok lim M d0 P).

Lemma write_loop_ok fuel ctx buf k :
  raw_ok ctx → bytes_ok buf → 0 <= k <= len buf → len buf < 2 ^ 62 →
  ctx_offset ctx + (len buf - k) <= lim → len buf - k < Z.of_nat fuel →
  (∀ i, ctx_offset ctx <= i < ctx_offset ctx + (len buf - k) → M i) →
  ∃ ctx' r, write_loop fuel ctx buf k = Some (ctx', r) ∧ raw_ok ctx' ∧
    (reliable ctx → reliable ctx') ∧
    match r with
    | Ok n => n = len buf ∧
        view ctx' = splice (ctx_offset ctx) (slice k (len buf - k) buf) (view ctx) ∧
        ctx_offset ctx' = ctx_offset ctx + (len buf - k)
    | Err _ => ¬ reliable ctx ∧
        agree_out (λ i, ctx_offset ctx <= i < ctx_offset ctx + (len buf - k)) (view ctx) (view ctx')
    end.
Proof using HP.
  intros Hw Hb. revert ctx k Hw. induction fuel as [|fuel IH]; intros ctx k Hw Hk Hlb Hlim Hf HM; [lia|].
  cbn [write_loop]. destruct (Z.ltb_spec k (len buf)); cycle 1.
  { eexists _, _. split; [done|]. replace (len buf - k) with 0 by lia.
    destruct Hw as [? ? ? ? ? ?]. rewrite slice_0, splice_nil, Z.add_0_r by lia. split_and!; done || lia. }
  destruct (prepare_ok lim M d0 P HP ctx Hw) as (ctx1 & r1 & -> & Hq1 & Hr1); [lia|]. returned.
  destruct r1 as [[]|e]; [|destruct Hq1 as [? Hv1 ? ?]; eexists _, _; rewrite Hv1; split_and!; done].
  specialize (Hr1 (c_dirty (ctx_cache ctx1))).
  destruct (cache_fill _ _ _) as [ctx2 r2]. destruct Hr1 as [[Hw2 Hv2 Ho2 Hrel2] Hr2].
  { apply (ca_invalid _ _ (rw_cache _ _ _ _ _ (qt_ok _ _ _ _ _ _ Hq1))). }
  destruct r2 as [[]|e]; [|eexists _, _; rewrite Hv2; split_and!; done].
  pose proof Hr2 as [Hv Hwin]. pose proof (window_nonneg _ _ _ _ ctx2 Hw2 Hv) as Hpos.
  fold (window (ctx_cache ctx2)).
  pose proof Hw2 as [Hdev Hca Hl2 Hofs2 _ _]. destruct (ca_size _ _ Hca) as [Hs0 Hs31].
  pose proof (dv_len _ Hdev).
  rewrite (u32_id (ctx_offset ctx2 - _)) by (unfold fits; lia).
  rewrite (proj2 (Z.ltb_lt (_ - _) _)) by lia. cbn [exa_assert].
  set (n := Z.min (len buf - k) (c_size (ctx_cache ctx2) - (ctx_offset ctx2 - window (ctx_cache ctx2)))).
  assert (Hn : 0 < n <= len buf - k) by lia.
  rewrite (u32_id n) by (unfold fits; lia). rewrite u64_id by (unfold fits; lia).
  assert (Hln : len (slice k n buf) = n) by (apply len_slice; lia).
  destruct (cache_write_ok lim M d0 d0 P ctx2 (slice k n buf)) as [Hw3 Hv3];
    [done|done|by apply bytes_ok_slice|lia|lia| |].
  { transitivity (view ctx2); [apply Hw2|]. rewrite Ho2.
    apply agree_out_splice; [lia|rewrite (len_view _ _ _ _ _ Hw2); lia|intros; apply HM; lia]. }
  rewrite Hln in Hw3, Hv3.
  set (ctx3 := set_offset (set_cache ctx2 _) (ctx_offset ctx2 + n)) in *.
  assert (Ho3 : ctx_offset ctx3 = ctx_offset ctx + n) by (simpl; lia).
  destruct (IH ctx3 (k + n) Hw3) as (ctx' & r & E & Hw' & Hrel' & Hr');
    [lia|done|lia|lia|intros; apply HM; lia|].
  rewrite E. eexists _, _. split; [done|]. split; [done|]. split; [auto|].
  rewrite Ho3, Hv3, Ho2, Hv2 in Hr'. pose proof (len_view _ _ _ _ ctx2 Hw2) as Hlv. rewrite Hv2 in Hlv.
  destruct r as [m|e].
  - destruct Hr' as (-> & Hv' & Ho'). split_and!; [done| |lia].
    rewrite Hv'. replace (ctx_offset ctx + n) with (ctx_offset ctx + len (slice k n buf)) by lia.
    rewrite splice_app by (rewrite ?Hln, ?len_slice; lia).
    rewrite <- slice_app by lia. do 2 f_equal. lia.
  - destruct Hr' as [? Ha]. split; [auto|].
    transitivity (splice (ctx_offset ctx) (slice k n buf) (view ctx)).
    + apply agree_out_splice; lia.
    + eapply agree_out_weaken; [|exact Ha]. simpl. lia.
Qed.

(** A write inside of one sector, as headers are: the sector is sent as it was
    before or as it is after. *)
Lemma write_in_sector_ok ctx d :
  raw_ok ctx → bytes_ok d → 0 < len d → ctx_offset ctx mod SECTOR_SIZE + len d <= SECTOR_SIZE →
  ctx_offset ctx + len d <= lim →
  ∃ ctx' r, blockdev_stream_write ctx d = Some (ctx', r) ∧ (reliable ctx → reliable ctx') ∧
    match r with
    | Ok n => n = len d ∧ BdevStream.raw_ok lim M (splice (ctx_offset ctx) d d0) P ctx' ∧
        view ctx' = splice (ctx_offset ctx) d (view ctx) ∧
        ctx_offset ctx' = ctx_offset ctx + len d
    | Err _ => ¬ reliable ctx ∧ raw_ok ctx' ∧ view ctx' = view ctx
    end.
Proof using HP.
  intros Hw Hd Hn Hsec Hlim. pose proof Hw as [Hdev Hca Hl Hofs Hs Hv]. pose proof (dv_len _ Hdev).
  pose proof (ca_size _ _ Hca) as Hsz.
  unfold blockdev_stream_write. rewrite (proj2 (Z.eqb_neq _ 0)), device_size by (done || lia).
  rewrite u64_id by (unfold fits; lia). rewrite (proj2 (Z.ltb_ge _ _)) by lia.
  destruct (length d) as [|n] eqn:Eln; [unfold len in *; lia|]. cbn [write_loop].
  rewrite (proj2 (Z.ltb_lt 0 (len d))) by done.
  destruct (prepare_ok lim M d0 P HP ctx Hw) as (ctx1 & r1 & -> & Hq1 & Hr1); [lia|]. returned.
  destruct r1 as [[]|e]; [|destruct Hq1 as [? Hv1 ? ?]; by eexists _, _].
  specialize (Hr1 (c_dirty (ctx_cache ctx1))).
  destruct (cache_fill _ _ _) as [ctx2 r2]. destruct Hr1 as [[Hw2 Hv2 Ho2 Hrel2] Hr2].
  { apply (ca_invalid _ _ (rw_cache _ _ _ _ _ (qt_ok _ _ _ _ _ _ Hq1))). }
  destruct r2 as [[]|e]; [|by eexists _, _].
  pose proof Hr2 as [Hv' Hwin]. pose proof (window_nonneg _ _ _ _ ctx2 Hw2 Hv') as Hpos.
  fold (window (ctx_cache ctx2)). pose proof Hw2 as [Hdev2 Hca2 Hl2 Hofs2 _ _].
  destruct (ca_size _ _ Hca2) as [Hs0 Hs31]. pose proof (ca_sectors _ _ Hca2) as Hse.
  assert (Hfit : ctx_offset ctx2 + len d <= window (ctx_cache ctx2) + c_size (ctx_cache ctx2)).
  { unfold window, SECTORS_TO_BYTES, SECTOR_SIZE in *. rewrite Ho2 in Hwin |- *.
    pose proof (Z.div_mod (ctx_offset ctx) 512 ltac:(lia)).
    pose proof (Z.mod_pos_bound (ctx_offset ctx) 512 ltac:(lia)).
    pose proof (Z.div_mod (c_size (ctx_cache ctx2)) 512 ltac:(lia)). lia. }
  pose proof (dv_len _ Hdev2). rewrite (u32_id (ctx_offset ctx2 - _)) by (unfold fits; lia).
  rewrite (proj2 (Z.ltb_lt (_ - _) _)) by lia. cbn [exa_assert].
  rewrite Z.sub_0_r, Z.min_l, (u32_id (len d)), u64_id by (unfold fits; lia).
  rewrite slice_all, Z.add_0_l, (proj2 (Z.ltb_ge (len d) (len d))) by lia.
  destruct (cache_write_ok lim M d0 (splice (ctx_offset ctx2) d d0) P ctx2 d) as [Hw3 Hv3];
    [done|done|done|done|lia| |].
  { pose proof (rw_view _ _ _ _ _ Hw2) as Ha. destruct Ha as [Hla Ha].
    pose proof (len_view _ _ _ _ ctx2 Hw2).
    split; [rewrite !len_splice; lia|]. intros i Hi.
    destruct (decide (ctx_offset ctx2 <= Z.of_nat i < ctx_offset ctx2 + len d)).
    - by rewrite !lookup_splice_in by lia.
    - rewrite !lookup_splice_out by lia. by apply Ha. }
  eexists _, _. split; [done|]. split; [done|]. rewrite Hv3, Hv2, <- Ho2. done.
Qed.
End raw_write.

(** ** The stream as an array of bytes *)

Lemma prefix_splice o d l n :
  0 <= o → o + len d <= n → n <= len l → slice 0 n (splice o d l) = splice o d (slice 0 n l).
Proof.
  intros. pose proof (len_nonneg d). destruct (decide (n = 0)) as [->|].
  { destruct d; [|unfold len in *; simpl in *; lia]. rewrite !splice_nil by lia. done. }
  pose proof (narrowed_splice 0 (n - 1) o d l ltac:(lia) ltac:(lia) ltac:(lia) ltac:(lia)) as E.
  by replace (n - 1 - 0 + 1) with n in E by lia.
Qed.

Lemma prefix_agree (M : Z → Prop) l l' n :
  0 <= n <= len l → agree_out M l l' → agree_out M (slice 0 n l) (slice 0 n l').
Proof.
  intros Hn [Hl Ha]. split; [rewrite !len_slice; lia|]. intros i Hi.
  destruct (decide (Z.of_nat i < n)); [|by rewrite !lookup_slice_ge by lia].
  rewrite !lookup_slice by lia. by apply Ha.
Qed.

Section raw_stream.
Context {W : Type} (L : lens W blockdev_stream_context_t) `{!Lens L}.
Context (lim : Z) (M : Z → Prop) (d0 : list Z) (P : Z * list Z → Prop).
Context (HP : ∀ s, sector_agrees M d0 s → P s) (a : stream_access_t).

Definition raw : option (stream_t W) := Some (mk_stream (blockdev_stream_ops L) a).
Definition raw_inv (w : W) : Prop := raw_ok lim M d0 P (get L w).
Definition raw_bytes (w : W) : list Z := slice 0 lim (view (get L w)).
Definition raw_pos (w : W) : Z := ctx_offset (get L w).
Definition raw_reliable (w : W) : Prop := reliable (get L w).

Lemma raw_len w : raw_inv w → len (raw_bytes w) = lim.
Proof using.
  intros Hw. pose proof (len_view _ _ _ _ _ Hw). destruct Hw as [? [] ? ? ? ?].
  apply len_slice; lia.
Qed.

Lemma raw_view_bytes w : raw_inv w → bytes_ok (view (get L w)).
Proof using.
  intros [[] [] _ _ _ _]. unfold view. case_if; [|done]. apply bytes_ok_splice; auto.
Qed.

Lemma raw_seek w o :
  raw_inv w → 0 <= o <= lim →
  stream_seek raw w o STREAM_SEEK_FROM_BEGINNING = Some (put L (set_offset (get L w) o) w, Ok tt) ∧
  raw_ok lim M d0 P (set_offset (get L w) o).
Proof using.
  intros Hw Ho. pose proof Hw as [Hdev [] Hl Hofs Hs Hv]. pose proof (dv_len _ Hdev). split.
  - unfold stream_seek. simpl. rewrite (proj2 (Z.ltb_ge o 0)) by lia. unfold at_ctx. simpl.
    rewrite device_size by done.
    rewrite u64_id by (unfold fits; lia). by rewrite (proj2 (Z.ltb_ge _ _)) by lia.
  - split; simpl; done || lia.
Qed.

#[export] Instance raw_seekable : SeekableStream raw raw_inv raw_bytes raw_pos raw_reliable.
Proof using All.
  split. intros w o Hw Ho. rewrite raw_len in Ho by done. destruct (raw_seek w o Hw Ho) as [E Hok].
  eexists _, _. split; [done|]. unfold raw_inv, raw_bytes, raw_pos, raw_reliable. rewrite get_put.
  split_and!; done.
Qed.

Lemma raw_read_ok w n :
  may_read a = true → raw_inv w → 0 <= n → raw_pos w + n <= lim →
  ∃ w' r, stream_read raw w n = Some (w', r) ∧ raw_inv w' ∧ raw_bytes w' = raw_bytes w ∧
    (raw_reliable w → raw_reliable w') ∧
    match r with
    | Ok d => d = slice (raw_pos w) n (raw_bytes w) ∧ raw_pos w' = raw_pos w + n
    | Err _ => ¬ raw_reliable w
    end.
Proof using All.
  intros Ha Hw Hn Hp. pose proof Hw as [Hdev [] Hl Hofs Hs Hv]. pose proof (dv_len _ Hdev).
  unfold stream_read, raw_pos in *. simpl. rewrite Ha. destruct (Z.eqb_spec n 0) as [->|Hn0]; simpl.
  { eexists _, _. rewrite slice_0, Z.add_0_r. done. }
  unfold at_ctx, blockdev_stream_read. rewrite device_size by done.
  rewrite u64_id by (unfold fits; lia). rewrite (proj2 (Z.ltb_ge _ _)) by lia.
  rewrite (proj2 (Z.eqb_neq n 0)) by done.
  destruct (read_loop_ok lim M d0 P HP (S (Z.to_nat n)) (get L w) n []) as (c & r & -> & Hw' & Hv' & Hrel & Hr);
    [done|unfold len; simpl; lia|unfold len; simpl; lia|unfold len; simpl; lia|].
  returned. eexists _, _. split; [done|].
  unfold raw_inv, raw_bytes, raw_pos, raw_reliable. rewrite get_put, Hv'. split_and!; try done.
  destruct r as [d|e]; [|done]. unfold len in Hr. simpl in Hr. rewrite Z.sub_0_r in Hr.
  destruct Hr as [-> ->]. split; [|done]. by rewrite slice_slice by lia.
Qed.

#[export] Instance raw_byte :
  may_read a = true → ByteStream raw raw_inv raw_bytes raw_pos raw_reliable.
Proof using All.
  intros Ha. split.
  - intros w Hw. rewrite raw_len by done. apply Hw.
  - intros w Hw. rewrite raw_len by done. destruct Hw as [[] [] ? ? ? ?]. lia.
  - intros w Hw. by apply bytes_ok_slice, raw_view_bytes.
  - intros w n Hw Hn Hp. rewrite raw_len in Hp by done. by apply raw_read_ok.
  - intros w Hw. apply (sk_seek (SeekableStream := raw_seekable) w 0 Hw).
    pose proof (len_nonneg (raw_bytes w)). lia.
  - done.
Qed.

#[export] Instance raw_writable :
  may_write a = true → WritableStream raw raw_inv raw_bytes raw_pos raw_reliable M.
Proof using All.
  intros Ha. split.
  - intros w d Hw Hd Hp HM. rewrite raw_len in Hp by done. pose proof (len_view _ _ _ _ _ Hw) as Hlv.
    pose proof Hw as [Hdev [] Hl Hofs Hs Hv]. pose proof (dv_len _ Hdev). pose proof (len_nonneg d).
    unfold stream_write, raw_pos in *. simpl. rewrite Ha.
    destruct (Z.eqb_spec (len d) 0) as [Hd0|Hd0]; simpl.
    { destruct d; [|done]. eexists _, _. split; [done|]. rewrite splice_nil by lia.
      split_and!; done || lia. }
    unfold at_ctx, blockdev_stream_write. rewrite (proj2 (Z.eqb_neq _ 0)), device_size by done.
    rewrite u64_id by (unfold fits; lia). rewrite (proj2 (Z.ltb_ge _ _)) by lia.
    destruct (write_loop_ok lim M d0 P HP (S (length d)) (get L w) d 0) as (c & r & -> & Hw' & Hrel & Hr);
      [done|done|lia|lia|lia|unfold len; lia|intros; apply HM; lia|].
    returned. rewrite Z.sub_0_r, slice_all in Hr. eexists _, _. split; [done|].
    unfold raw_inv, raw_bytes, raw_pos, raw_reliable. rewrite get_put. split_and!; try done.
    destruct r as [n|e].
    + destruct Hr as (-> & -> & ->). split_and!; [done| |done]. by apply prefix_splice; lia.
    + destruct Hr as [? Hag]. split; [done|]. apply prefix_agree; [lia|done].
  - intros w Hw. unfold stream_flush. simpl. rewrite Ha. simpl. unfold at_ctx.
    destruct (flush_ok lim M d0 P HP (get L w) Hw) as (c & r & -> & [Hw' Hv' Ho' Hrel] & Hr). returned.
    eexists _, _. split; [done|].
    unfold raw_inv, raw_bytes, raw_pos, raw_reliable. rewrite get_put, Hv', Ho'.
    split_and!; try done. by destruct r.
Qed.

#[export] Instance raw_indep {C} (N : lens W C) `{!Disjoint L N} :
  Indep N raw raw_inv raw_bytes raw_pos raw_reliable.
Proof using All.
  assert (Hat : ∀ A (f : blockdev_stream_context_t → option (blockdev_stream_context_t * A)) w w' r,
    at_ctx L f w = Some (w', r) → get N w' = get N w).
  { unfold at_ctx. intros A f w w' r. destruct (f (get L w)) as [[c x]|]; simpl; [|done].
    intros [= <- _]. apply dj_get. }
  unfold raw_inv, raw_bytes, raw_pos, raw_reliable.
  split; intros w c *; rewrite ?(dj_get' (L := L) (M := N)); try done.
  - unfold stream_read. simpl. case_if; [by intros [= <- _]|]. case_if; [by intros [= <- _]|]. apply Hat.
  - unfold stream_write. simpl. case_if; [by intros [= <- _]|]. case_if; [by intros [= <- _]|]. apply Hat.
  - unfold stream_flush. simpl. case_if; [by intros [= <- _]|]. apply Hat.
  - unfold stream_seek. simpl. destruct k; [case_if; [by intros [= <- _]|]..|]; apply Hat.
Qed.
End raw_stream.
