(* ===== verification/Superblock.v ===== *)
(** * Superblocks of devices (vrt/virtualiseur/src/vrt_realdev.c, realdev_superblock.c)

    A device starts with two headers, followed by two areas for the data. A
    new version of the superblock is written in the area and the header that
    do not hold the previous version. The headers and the areas are accessed
    through streams on the device: a raw stream, and on it a narrowed stream
    and a checksum stream for each area.

    The theorems show that a version that was written is read back, and that
    at any time of the write, whatever I/O fails and whatever sectors reach
    the disk when the node crashes, the previous version can be read. *)
From S2P Require Import Prelude Bytes Checksum Stream BdevStream Storage.
From stdpp Require Import options.

(** ** The streams of a device *)

Record sb_world := mk_sbw {
  w_raw : blockdev_stream_context_t;
  w_data0 : narrowed_stream_context_t;
  w_data1 : narrowed_stream_context_t;
  w_sum0 : checksum_context_t;
  w_sum1 : checksum_context_t
}.

Definition raw_lens : lens sb_world blockdev_stream_context_t :=
  mk_lens w_raw (λ c w, mk_sbw c (w_data0 w) (w_data1 w) (w_sum0 w) (w_sum1 w)).

Definition data_lens (i : Z) : lens sb_world narrowed_stream_context_t :=
  if i =? 0
  then mk_lens w_data0 (λ c w, mk_sbw (w_raw w) c (w_data1 w) (w_sum0 w) (w_sum1 w))
  else mk_lens w_data1 (λ c w, mk_sbw (w_raw w) (w_data0 w) c (w_sum0 w) (w_sum1 w)).

Definition sum_lens (i : Z) : lens sb_world checksum_context_t :=
  if i =? 0
  then mk_lens w_sum0 (λ c w, mk_sbw (w_raw w) (w_data0 w) (w_data1 w) c (w_sum1 w))
  else mk_lens w_sum1 (λ c w, mk_sbw (w_raw w) (w_data0 w) (w_data1 w) (w_sum0 w) c).

(** The streams of [struct vrt_realdev]. *)
Record sb_streams := mk_sbs {
  raw_sb_stream : option (stream_t sb_world);
  sb_data_streams : Z → option (stream_t sb_world);
  checksum_sb_streams : Z → option (stream_t sb_world)
}.

Definition CACHE_SIZE : Z := SECTORS_TO_BYTES 4.

Definition SIZEOF_HEADER : Z := 56.

Definition get_superblock_data_range (position : Z) : Z * Z :=
  let per_sb_data_size := (SECTORS_TO_BYTES VRT_SB_AREA_SIZE - 2 * SIZEOF_HEADER) / 2 in
  let start := 2 * SIZEOF_HEADER + position * per_sb_data_size in
  (start, start + per_sb_data_size - 1).

Definition vrt_rdev_close_superblock_streams (w : sb_world) (s : sb_streams) : option sb_world :=
  w ← stream_close (checksum_sb_streams s 0) w;
  w ← stream_close (sb_data_streams s 0) w;
  w ← stream_close (checksum_sb_streams s 1) w;
  w ← stream_close (sb_data_streams s 1) w;
  stream_close (raw_sb_stream s) w.

(** The streams of position [i]; [alloc] tells which allocations succeed. *)
Definition open_position (alloc : nat → bool) (access : stream_access_t) (w : sb_world)
    (s : sb_streams) (i : Z) : option (sb_world * result sb_streams) :=
  let '(start, last) := get_superblock_data_range i in
  let k := (4 * Z.to_nat i)%nat in
  let '(w, r) := narrowed_stream_open (raw_sb_stream s) (data_lens i) w (alloc (3 + k)%nat)
                   (alloc (4 + k)%nat) start last access in
  match r with
  | Err e => w ← vrt_rdev_close_superblock_streams w s; Some (w, Err e)
  | Ok data =>
      let s := mk_sbs (raw_sb_stream s)
        (λ j, if j =? i then Some data else sb_data_streams s j) (checksum_sb_streams s) in
      let '(w, r) := checksum_stream_open (sb_data_streams s i) (sum_lens i) w
                       (alloc (5 + k)%nat) (alloc (6 + k)%nat) in
      match r with
      | Err e => w ← vrt_rdev_close_superblock_streams w s; Some (w, Err e)
      | Ok sum =>
          Some (w, Ok (mk_sbs (raw_sb_stream s) (sb_data_streams s)
                         (λ j, if j =? i then Some sum else checksum_sb_streams s j)))
      end
  end.

Definition vrt_rdev_open_superblock_streams (alloc : nat → bool) (garbage : list Z)
    (local : bool) (bdev : option blockdevice_t) (w : sb_world)
    : option (sb_world * result sb_streams) :=
  let access := if local then STREAM_ACCESS_RW else STREAM_ACCESS_READ in
  let '(w, r) := blockdevice_stream_on raw_lens w (alloc 0%nat) (alloc 1%nat) (alloc 2%nat)
                   garbage bdev CACHE_SIZE access in
  match r with
  | Err e => Some (w, Err e)
  | Ok raw =>
      '(w, r) ← open_position alloc access w (mk_sbs (Some raw) (λ _, None) (λ _, None)) 0;
      match r with
      | Err e => Some (w, Err e)
      | Ok s => open_position alloc access w s 1
      end
  end.

(** ** Headers *)

Definition SUPERBLOCK_HEADER_MAGIC : Z := 0x99033055.
Definition SUPERBLOCK_HEADER_FORMAT : Z := 1.

Record superblock_header_t := mk_header {
  h_magic : Z;
  h_format : Z;
  h_position : Z;
  h_reserved1 : Z;
  h_sb_version : Z;
  h_data_max_size : Z;
  h_data_offset : Z;
  h_data_size : Z;
  h_checksum : Z;
  h_reserved2 : list Z
}.

(** The memory of a header. *)
Definition header_bytes (h : superblock_header_t) : list Z :=
  le_bytes 4 (h_magic h) ++ le_bytes 4 (h_format h) ++ le_bytes 4 (h_position h) ++
  le_bytes 4 (h_reserved1 h) ++ le_bytes 8 (h_sb_version h) ++ le_bytes 8 (h_data_max_size h) ++
  le_bytes 8 (h_data_offset h) ++ le_bytes 8 (h_data_size h) ++ le_bytes 2 (h_checksum h) ++
  h_reserved2 h.

Definition header_of_bytes (l : list Z) : superblock_header_t :=
  mk_header (le_val (slice 0 4 l)) (le_val (slice 4 4 l)) (le_val (slice 8 4 l))
    (le_val (slice 12 4 l)) (le_val (slice 16 8 l)) (le_val (slice 24 8 l))
    (le_val (slice 32 8 l)) (le_val (slice 40 8 l)) (le_val (slice 48 2 l)) (slice 50 6 l).

Definition rdev_superblock_header_read_both (stream : option (stream_t sb_world)) (w : sb_world)
    : option (sb_world * result (superblock_header_t * superblock_header_t)) :=
  '(w, r) ← stream_read stream w (2 * SIZEOF_HEADER);
  match r with
  | Err e => Some (w, Err e)
  | Ok d =>
      if negb (len d =? 2 * SIZEOF_HEADER) then Some (w, Err EIO)
      else Some (w, Ok (header_of_bytes (slice 0 SIZEOF_HEADER d),
                        header_of_bytes (slice SIZEOF_HEADER SIZEOF_HEADER d)))
  end.

Definition read_sb_headers (s : sb_streams) (w : sb_world)
    : option (sb_world * result (superblock_header_t * superblock_header_t)) :=
  '(w, err) ← stream_rewind (raw_sb_stream s) w;
  match err with
  | Err e => Some (w, Err e)
  | Ok _ => rdev_superblock_header_read_both (raw_sb_stream s) w
  end.

Definition write_sb_header (s : sb_streams) (w : sb_world) (header : superblock_header_t)
    : option (sb_world * result unit) :=
  let ofs := u64 (h_position header * SIZEOF_HEADER) in
  '(w, err) ← stream_seek (raw_sb_stream s) w ofs STREAM_SEEK_FROM_BEGINNING;
  match err with
  | Err e => Some (w, Err e)
  | Ok _ =>
      '(w, r) ← stream_write (raw_sb_stream s) w (header_bytes header);
      match r with
      | Err e => Some (w, Err e)
      | Ok n => if negb (n =? SIZEOF_HEADER) then Some (w, Err EIO) else Some (w, Ok tt)
      end
  end.

Definition check_sb_header (header : superblock_header_t) (position : Z) : result unit :=
  if negb (h_magic header =? SUPERBLOCK_HEADER_MAGIC) then Err VRT_ERR_SB_MAGIC
  else if negb (h_format header =? SUPERBLOCK_HEADER_FORMAT) then Err VRT_ERR_SB_FORMAT
  else if negb (h_position header =? position) then Err VRT_ERR_SB_CORRUPTION
  else if negb (h_reserved1 header =? 0) then Err VRT_ERR_SB_CORRUPTION
  else if h_data_max_size header <? h_data_size header then Err VRT_ERR_SB_CORRUPTION
  else if negb (forallb (λ b, b =? 0) (h_reserved2 header)) then Err VRT_ERR_SB_CORRUPTION
  else Ok tt.

(** ** Writing *)

Definition initial_header (i : Z) : superblock_header_t :=
  let '(start, last) := get_superblock_data_range i in
  mk_header SUPERBLOCK_HEADER_MAGIC SUPERBLOCK_HEADER_FORMAT i 0 0 (last - start + 1) start 0 0
    (replicate 6 0).

Definition vrt_rdev_create_superblocks (s : sb_streams) (w : sb_world)
    : option (sb_world * result unit) :=
  '(w, err) ← write_sb_header s w (initial_header 0);
  match err with
  | Err e => Some (w, Err e)
  | Ok _ =>
      '(w, err) ← write_sb_header s w (initial_header 1);
      match err with
      | Err e => Some (w, Err e)
      | Ok _ => stream_flush (raw_sb_stream s) w
      end
  end.

Record superblock_write_op_t := mk_write_op {
  wo_header : superblock_header_t;
  wo_new_sb_version : Z;
  wo_position : Z  (* the stream is [checksum_sb_streams] of this position *)
}.

Definition is_ok {A} (r : result A) : bool := match r with Ok _ => true | Err _ => false end.

(** The first header that may be overwritten. *)
Definition write_position (headers : superblock_header_t * superblock_header_t)
    (old_version : Z) : option Z :=
  let free i h := is_ok (check_sb_header h i)
                  && ((h_sb_version h =? 0) || negb (h_sb_version h =? old_version)) in
  if free 0 headers.1 then Some 0 else if free 1 headers.2 then Some 1 else None.

Definition vrt_rdev_begin_superblock_write (s : sb_streams) (w : sb_world)
    (old_version new_version : Z) : option (sb_world * result superblock_write_op_t) :=
  '(w, r) ← read_sb_headers s w;
  match r with
  | Err e => Some (w, Err e)
  | Ok headers =>
      match write_position headers old_version with
      | None => Some (w, Err VRT_ERR_SB_CORRUPTION)
      | Some p =>
          let op := mk_write_op (if p =? 0 then headers.1 else headers.2) new_version p in
          '(w, err) ← stream_rewind (checksum_sb_streams s p) w;
          Some (w, match err with Ok _ => Ok op | Err e => Err e end)
      end
  end.

Definition vrt_rdev_end_superblock_write (s : sb_streams) (w : sb_world)
    (op : superblock_write_op_t) : option (sb_world * result unit) :=
  let h := wo_header op in
  sum ← checksum_stream_get_value (sum_lens (wo_position op)) w;
  let h := mk_header (h_magic h) (h_format h) (h_position h) (h_reserved1 h)
    (wo_new_sb_version op) (h_data_max_size h) (h_data_offset h)
    (checksum_stream_get_size (sum_lens (wo_position op)) w) sum (h_reserved2 h) in
  '(w, err) ← write_sb_header s w h;
  match err with
  | Err e => Some (w, Err e)
  | Ok _ => stream_flush (raw_sb_stream s) w
  end.

(** ** Reading *)

(** The loop that reads [remaining] bytes to compute their checksum. A read
    that fails leaves with [err], which is 0 at this point. There are fewer
    rounds than sectors in the area. *)
Fixpoint check_sum_loop (fuel : nat) (stream : option (stream_t sb_world)) (w : sb_world)
    (remaining : Z) : option (sb_world * result bool) :=
  match fuel with
  | O => None
  | S fuel' =>
      if 0 <? remaining then
        let n := Z.min 512 remaining in
        '(w, r) ← stream_read stream w n;
        match r with
        | Err _ => Some (w, Ok false)
        | Ok d =>
            if negb (len d =? n) then Some (w, Err EIO)
            else check_sum_loop fuel' stream w (remaining - len d)
        end
      else Some (w, Ok true)
  end.

Definition check_sb_checksum (s : sb_streams) (i : Z) (w : sb_world) (size : Z)
    (expected_checksum : Z) : option (sb_world * result unit) :=
  let checksum_stream := checksum_sb_streams s i in
  '(w, err) ← stream_rewind checksum_stream w;
  match err with
  | Err e => Some (w, Err e)
  | Ok _ =>
      '(w, r) ← check_sum_loop (Z.to_nat VRT_SB_AREA_SIZE) checksum_stream w size;
      match r with
      | Err e => Some (w, Err e)
      | Ok false => Some (w, Ok tt)
      | Ok true =>
          computed_checksum ← checksum_stream_get_value (sum_lens i) w;
          if negb (computed_checksum =? expected_checksum) then Some (w, Err VRT_ERR_SB_CHECKSUM)
          else stream_rewind checksum_stream w
      end
  end.

Record superblock_read_op_t := mk_read_op { ro_header : superblock_header_t; ro_position : Z }.

(** The loop that looks for a version, from position [i]. *)
Definition find_superblock (s : sb_streams) (w : sb_world) (sb_version : Z)
    (h : superblock_header_t) (i : Z) : option (sb_world * bool) :=
  if negb (is_ok (check_sb_header h i)) then Some (w, false)
  else
    '(w, r) ← check_sb_checksum s i w (h_data_size h) (h_checksum h);
    Some (w, is_ok r && (h_sb_version h =? sb_version)).

Definition vrt_rdev_begin_superblock_read (s : sb_streams) (w : sb_world) (sb_version : Z)
    : option (sb_world * result superblock_read_op_t) :=
  '(w, r) ← read_sb_headers s w;
  match r with
  | Err e => Some (w, Err e)
  | Ok headers =>
      '(w, found0) ← find_superblock s w sb_version headers.1 0;
      '(w, found1) ← (if found0 : bool then Some (w, true)
                      else find_superblock s w sb_version headers.2 1);
      if negb found1 then Some (w, Err VRT_ERR_SB_NOT_FOUND)
      else
        let h := if found0 : bool then headers.1 else headers.2 in
        let op := mk_read_op h (h_position h) in
        '(w, err) ← stream_rewind (sb_data_streams s (ro_position op)) w;
        Some (w, match err with Ok _ => Ok op | Err e => Err e end)
  end.

Definition vrt_rdev_end_superblock_read (s : sb_streams) (w : sb_world)
    (op : superblock_read_op_t) : result unit :=
  let sb_data_size := stream_tell (sb_data_streams s (ro_position op)) w in
  if negb (h_data_size (ro_header op) =? sb_data_size) then Err VRT_ERR_SB_CORRUPTION else Ok tt.

(** ** Superblocks found in an area *)

Definition SB_AREA : Z := 33554432.
Definition PER_SB : Z := 16777160.

Definition data_start (i : Z) : Z := 112 + i * PER_SB.

Definition position_ok (i : Z) : Prop := i = 0 ∨ i = 1.

Definition header_at (B : list Z) (i : Z) : superblock_header_t :=
  header_of_bytes (slice (SIZEOF_HEADER * i) SIZEOF_HEADER B).

(** The data of position [i] matches its header. *)
Definition data_matches (B : list Z) (i : Z) : bool :=
  let h := header_at B i in
  (h_data_size h <=? PER_SB)
  && (checksum_of (slice (data_start i) (h_data_size h) B) =? h_checksum h).

(** Position [i] of the area holds version [v]. *)
Definition holds (B : list Z) (v i : Z) : bool :=
  is_ok (check_sb_header (header_at B i) i) && data_matches B i
  && (h_sb_version (header_at B i) =? v).

Definition data_of (B : list Z) (i : Z) : list Z :=
  slice (data_start i) (h_data_size (header_at B i)) B.

(** The superblock of version [v]: what reading is meant to return. *)
Definition lookup_sb (B : list Z) (v : Z) : result (list Z) :=
  if holds B v 0 then Ok (data_of B 0)
  else if holds B v 1 then Ok (data_of B 1)
  else Err VRT_ERR_SB_NOT_FOUND.

(** Both headers are valid and cover their whole area. *)
Definition formatted (B : list Z) : Prop :=
  ∀ i, position_ok i → check_sb_header (header_at B i) i = Ok tt ∧
    h_data_max_size (header_at B i) = PER_SB.

(** *** Arithmetic of the area *)

Lemma sb_area : SECTORS_TO_BYTES VRT_SB_AREA_SIZE = SB_AREA.
Proof. done. Qed.

Lemma data_range i :
  position_ok i → get_superblock_data_range i = (data_start i, data_start i + PER_SB - 1).
Proof. by intros [-> | ->]. Qed.

Lemma data_start_bounds i : position_ok i → 112 <= data_start i ∧ data_start i + PER_SB <= SB_AREA.
Proof. intros [-> | ->]; unfold data_start, PER_SB, SB_AREA; lia. Qed.

Lemma data_disjoint i j :
  position_ok i → position_ok j → i ≠ j →
  data_start i + PER_SB <= data_start j ∨ data_start j + PER_SB <= data_start i.
Proof. intros [-> | ->] [-> | ->] ?; unfold data_start, PER_SB; lia. Qed.

Lemma sb_sizes : 512 < PER_SB ∧ SB_AREA = 112 + 2 * PER_SB ∧ SB_AREA < 2 ^ 31 ∧ PER_SB <= 512 * 65533.
Proof. unfold PER_SB, SB_AREA. lia. Qed.

#[local] Opaque SB_AREA PER_SB.

(** *** Headers in memory *)

Record header_wf (h : superblock_header_t) : Prop := {
  hw_magic : fits 32 (h_magic h);
  hw_format : fits 32 (h_format h);
  hw_position : fits 32 (h_position h);
  hw_reserved1 : fits 32 (h_reserved1 h);
  hw_version : fits 64 (h_sb_version h);
  hw_max : fits 64 (h_data_max_size h);
  hw_offset : fits 64 (h_data_offset h);
  hw_size : fits 64 (h_data_size h);
  hw_sum : fits 16 (h_checksum h);
  hw_reserved2 : bytes_ok (h_reserved2 h) ∧ len (h_reserved2 h) = 6
}.

Lemma len_header_bytes h : len (h_reserved2 h) = 6 → len (header_bytes h) = SIZEOF_HEADER.
Proof.
  intros Hr. unfold header_bytes. rewrite !len_app, !len_le_bytes, Hr. done.
Qed.

Lemma header_bytes_ok h : bytes_ok (h_reserved2 h) → bytes_ok (header_bytes h).
Proof.
  intros Hr. unfold header_bytes.
  repeat (apply Forall_app; split; [apply le_bytes_ok|]). done.
Qed.

(** A field at the head of the bytes, and the others. *)
Lemma header_roundtrip h : header_wf h → header_of_bytes (header_bytes h) = h.
Proof.
  intros [? ? ? ? ? ? ? ? ? [? Hr]]. destruct h as [m f p r1 v ms o s c r2]. simpl in *.
  unfold header_of_bytes, header_bytes.
  cbn [h_magic h_format h_position h_reserved1 h_sb_version h_data_max_size h_data_offset
       h_data_size h_checksum h_reserved2].
  read_fields.
  rewrite !le_val_bytes by assumption. rewrite <- Hr, slice_all. done.
Qed.

(** ** The streams of the model *)

#[export] Instance raw_lens_ok : Lens raw_lens.
Proof. split; [by intros|by intros|by intros []]. Qed.

#[export] Instance data_lens_ok i : Lens (data_lens i).
Proof. unfold data_lens. case_if; split; [by intros|by intros|by intros []|by intros|by intros|by intros []]. Qed.

#[export] Instance sum_lens_ok i : Lens (sum_lens i).
Proof. unfold sum_lens. case_if; split; [by intros|by intros|by intros []|by intros|by intros|by intros []]. Qed.

#[export] Instance raw_data_disjoint i : Disjoint raw_lens (data_lens i).
Proof. unfold data_lens. case_if; split; by intros. Qed.

#[export] Instance raw_sum_disjoint i : Disjoint raw_lens (sum_lens i).
Proof. unfold sum_lens. case_if; split; by intros. Qed.

#[export] Instance data_sum_disjoint i j : Disjoint (data_lens i) (sum_lens j).
Proof. unfold data_lens, sum_lens. repeat case_if; split; by intros. Qed.

#[export] Instance sum_data_disjoint i j : Disjoint (sum_lens i) (data_lens j).
Proof. unfold data_lens, sum_lens. repeat case_if; split; by intros. Qed.

Lemma data_disjoint_lens i j :
  position_ok i → position_ok j → i ≠ j → Disjoint (data_lens i) (data_lens j).
Proof. intros [-> | ->] [-> | ->] ?; [done| | |done]; split; by intros. Qed.

Lemma sum_disjoint_lens i j :
  position_ok i → position_ok j → i ≠ j → Disjoint (sum_lens i) (sum_lens j).
Proof. intros [-> | ->] [-> | ->] ?; [done| | |done]; split; by intros. Qed.

Definition the_raw (a : stream_access_t) : option (stream_t sb_world) := raw raw_lens a.
Definition the_data (a : stream_access_t) (i : Z) : option (stream_t sb_world) :=
  narrowed (the_raw a) (data_lens i) a.
Definition the_sum (a : stream_access_t) (i : Z) : option (stream_t sb_world) :=
  checksummed (the_data a i) (sum_lens i) a.

(** What opening the streams gives. *)
Record streams_ok (a : stream_access_t) (s : sb_streams) : Prop := {
  so_raw : raw_sb_stream s = the_raw a;
  so_data i : position_ok i → sb_data_streams s i = the_data a i;
  so_sum i : position_ok i → checksum_sb_streams s i = the_sum a i
}.

Section area.
Context (M : Z → Prop) (d0 : list Z) (P : Z * list Z → Prop).
Context (HP : ∀ s, sector_agrees M d0 s → P s).

Local Abbreviation rinv := (raw_inv raw_lens SB_AREA M d0 P).
Local Abbreviation rbytes := (raw_bytes raw_lens SB_AREA).
Local Abbreviation rpos := (raw_pos raw_lens).
Local Abbreviation rrel := (raw_reliable raw_lens).
Local Abbreviation ninv i :=
  (narrowed_ok (data_lens i) rinv rbytes (data_start i) (data_start i + PER_SB - 1)).
Local Abbreviation nbytes i := (narrowed_bytes rbytes (data_start i) (data_start i + PER_SB - 1)).
Local Abbreviation npos i := (narrowed_pos (data_lens i) (data_start i)).
Local Abbreviation cinv i := (checksum_ok (sum_lens i) (ninv i)).

(** The context of the narrowed stream of position [i]. *)
Record nsc_ok (c : narrowed_stream_context_t) (i : Z) : Prop := {
  nk_start : ns_start c = data_start i;
  nk_end : ns_end c = data_start i + PER_SB - 1;
  nk_ofs : data_start i <= ns_ofs c <= data_start i + PER_SB
}.

(** The streams are usable. *)
Record sb_ok (w : sb_world) : Prop := {
  sb_inv : rinv w;
  sb_nsc i : position_ok i → nsc_ok (get (data_lens i) w) i;
  sb_sum i : position_ok i → ∃ l, fed (get (sum_lens i) w) l
}.

(** The content of the area. *)
Local Abbreviation area := rbytes.

Lemma sb_cinv w i : position_ok i → sb_ok w → cinv i w.
Proof using.
  intros Hi [Hr Hn Hs]. split; [|by apply Hs]. pose proof (data_start_bounds i Hi).
  destruct (Hn i Hi) as []. pose proof sb_sizes. split; try done; [lia| |lia].
  rewrite (raw_len _ _ _ _ _ _ Hr). lia.
Qed.

Lemma cinv_sb w w' i :
  position_ok i → sb_ok w → cinv i w' →
  (∀ j, position_ok j → j ≠ i → get (data_lens j) w' = get (data_lens j) w ∧
     get (sum_lens j) w' = get (sum_lens j) w) → sb_ok w'.
Proof using.
  intros Hi [Hr Hn Hs] [Hc Hl] Hj. split; [apply Hc| |].
  - intros j Hpj. destruct (decide (j = i)) as [->|Hne]; [destruct Hc; split; done || lia|].
    destruct (Hj j Hpj Hne) as [-> _]. by apply Hn.
  - intros j Hpj. destruct (decide (j = i)) as [->|Hne]; [done|].
    destruct (Hj j Hpj Hne) as [_ ->]. by apply Hs.
Qed.

Lemma rinv_sb w w' :
  sb_ok w → rinv w' → (∀ j, position_ok j → get (data_lens j) w' = get (data_lens j) w ∧
    get (sum_lens j) w' = get (sum_lens j) w) → sb_ok w'.
Proof using.
  intros [Hr Hn Hs] Hi Hj. split; [done| |]; intros j Hpj; destruct (Hj j Hpj) as [E1 E2].
  - rewrite E1. by apply Hn.
  - rewrite E2. by apply Hs.
Qed.

Lemma area_len w : sb_ok w → len (area w) = SB_AREA.
Proof using. intros []. by eapply raw_len. Qed.

Lemma nbytes_len w i : ninv i w → len (nbytes i w) = PER_SB.
Proof using.
  intros H. rewrite (narrowed_len (data_lens i) rinv rbytes (data_start i) _ w H). lia.
Qed.

Lemma data_short i w : ninv i w → len (nbytes i w) < 2 ^ 31.
Proof using. intros H. rewrite (nbytes_len w i H). pose proof sb_sizes. lia. Qed.

Lemma nbytes_area w i : nbytes i w = slice (data_start i) PER_SB (area w).
Proof using. unfold narrowed_bytes. f_equal. lia. Qed.

Context (a : stream_access_t) (Ha : may_read a = true).

#[local] Instance the_raw_byte : ByteStream (the_raw a) rinv rbytes rpos rrel.
Proof using HP Ha. exact (raw_byte raw_lens SB_AREA M d0 P HP a Ha). Qed.

#[local] Instance the_raw_seekable : SeekableStream (the_raw a) rinv rbytes rpos rrel.
Proof using HP. exact (raw_seekable raw_lens SB_AREA M d0 P HP a). Qed.

#[local] Instance the_raw_data i : Indep (data_lens i) (the_raw a) rinv rbytes rpos rrel.
Proof using HP. exact (raw_indep raw_lens SB_AREA M d0 P HP a (data_lens i)). Qed.

#[local] Instance the_raw_sum i : Indep (sum_lens i) (the_raw a) rinv rbytes rpos rrel.
Proof using HP. exact (raw_indep raw_lens SB_AREA M d0 P HP a (sum_lens i)). Qed.

#[local] Instance data_byte i : ByteStream (the_data a i) (ninv i) (nbytes i) (npos i) rrel.
Proof using HP Ha. by apply (narrowed_byte (the_raw a) (data_lens i) rinv rbytes rpos rrel); try apply _. Qed.

#[local] Instance data_bounded i : BoundedStream (the_data a i) (ninv i) (nbytes i) (npos i) rrel.
Proof using HP Ha. by apply (narrowed_bounded (the_raw a) (data_lens i) rinv rbytes rpos rrel); try apply _. Qed.

Lemma data_writable i :
  may_write a = true →
  WritableStream (the_data a i) (ninv i) (nbytes i) (npos i) rrel (λ k, M (data_start i + k)).
Proof using HP Ha.
  intros Ha'. apply (narrowed_writable (the_raw a) (data_lens i) rinv rbytes rpos rrel); [|done].
  exact (raw_writable raw_lens SB_AREA M d0 P HP a Ha').
Qed.

Lemma data_bounded_writes i :
  may_write a = true → BoundedWrites (the_data a i) (ninv i) (nbytes i) (npos i) rrel.
Proof using HP Ha.
  intros Ha'. by apply (narrowed_bounded_writes (the_raw a) (data_lens i) rinv rbytes rpos rrel).
Qed.

#[local] Instance data_sum_indep i j : Indep (sum_lens j) (the_data a i) (ninv i) (nbytes i) (npos i) rrel.
Proof using HP Ha. apply (narrowed_indep (the_raw a) (data_lens i) rinv rbytes rpos rrel); apply _. Qed.

Lemma data_data_indep i j :
  position_ok i → position_ok j → i ≠ j →
  Indep (data_lens j) (the_data a i) (ninv i) (nbytes i) (npos i) rrel.
Proof using HP Ha.
  intros. pose proof (data_disjoint_lens i j ltac:(done) ltac:(done) ltac:(done)).
  apply (narrowed_indep (the_raw a) (data_lens i) rinv rbytes rpos rrel); apply _.
Qed.

(** The contexts of the other position are not touched. *)
Lemma sum_data_indep i j :
  position_ok i → position_ok j → i ≠ j →
  Indep (data_lens j) (the_sum a i) (cinv i) (nbytes i) (npos i) rrel.
Proof using HP Ha.
  intros. pose proof (data_data_indep i j ltac:(done) ltac:(done) ltac:(done)).
  apply (checksum_indep (the_data a i) (sum_lens i) (ninv i) (nbytes i) (npos i) rrel a (data_short i)); apply _.
Qed.

Lemma sum_sum_indep i j :
  position_ok i → position_ok j → i ≠ j →
  Indep (sum_lens j) (the_sum a i) (cinv i) (nbytes i) (npos i) rrel.
Proof using HP Ha.
  intros. pose proof (sum_disjoint_lens i j ltac:(done) ltac:(done) ltac:(done)).
  apply (checksum_indep (the_data a i) (sum_lens i) (ninv i) (nbytes i) (npos i) rrel a (data_short i)); apply _.
Qed.

(** *** Headers *)

Lemma sb_raw_step w w' :
  sb_ok w → rinv w' →
  (∀ j, get (data_lens j) w' = get (data_lens j) w) →
  (∀ j, get (sum_lens j) w' = get (sum_lens j) w) → sb_ok w'.
Proof using. intros Hw Hi Hd Hs. exact (rinv_sb w w' Hw Hi (λ j _, conj (Hd j) (Hs j))). Qed.

Lemma raw_seek_step w o :
  sb_ok w → 0 <= o <= SB_AREA →
  ∃ w' r, stream_seek (the_raw a) w o STREAM_SEEK_FROM_BEGINNING = Some (w', r) ∧ sb_ok w' ∧
    area w' = area w ∧ (rrel w → rrel w') ∧ match r with Ok _ => rpos w' = o | Err _ => ¬ rrel w end.
Proof using HP Ha.
  intros Hw Ho. pose proof (sb_inv _ Hw) as Hi.
  destruct (sk_seek (s := the_raw a) (pos := rpos) w o Hi) as (w' & r & E & Hi' & Hb & Hrel & Hr); [by rewrite (area_len w Hw)|].
  refine (ex_intro _ w' (ex_intro _ r (conj E (conj _ (conj Hb (conj Hrel Hr)))))).
  apply (sb_raw_step w w' Hw Hi'); intros j.
  - exact (ind_seek (Indep := the_raw_data j) _ _ _ _ _ E).
  - exact (ind_seek (Indep := the_raw_sum j) _ _ _ _ _ E).
Qed.

Lemma raw_read_step w n :
  sb_ok w → 0 <= n → rpos w + n <= SB_AREA →
  ∃ w' r, stream_read (the_raw a) w n = Some (w', r) ∧ sb_ok w' ∧ area w' = area w ∧
    (rrel w → rrel w') ∧
    match r with
    | Ok d => d = slice (rpos w) n (area w) ∧ rpos w' = rpos w + n
    | Err _ => ¬ rrel w
    end.
Proof using HP Ha.
  intros Hw Hn Hp. pose proof (sb_inv _ Hw) as Hi.
  destruct (bs_read (s := the_raw a) w n Hi Hn) as (w' & r & E & Hi' & Hb & Hrel & Hr); [by rewrite (area_len w Hw)|].
  refine (ex_intro _ w' (ex_intro _ r (conj E (conj _ (conj Hb (conj Hrel Hr)))))).
  apply (sb_raw_step w w' Hw Hi'); intros j.
  - exact (ind_read (Indep := the_raw_data j) _ _ _ _ E).
  - exact (ind_read (Indep := the_raw_sum j) _ _ _ _ E).
Qed.

Lemma read_sb_headers_ok s w :
  streams_ok a s → sb_ok w →
  ∃ w' r, read_sb_headers s w = Some (w', r) ∧ sb_ok w' ∧ area w' = area w ∧ (rrel w → rrel w') ∧
    match r with
    | Ok hs => hs = (header_at (area w) 0, header_at (area w) 1)
    | Err _ => ¬ rrel w
    end.
Proof using HP Ha.
  intros [Hs _ _] Hw. unfold read_sb_headers, stream_rewind. rewrite Hs.
  destruct (raw_seek_step w 0 Hw) as (w1 & r1 & -> & Hw1 & Hb1 & Hrel1 & Hr1); [pose proof sb_sizes; lia|].
  returned. destruct r1 as [[]|e]; [|exact (ex_intro _ _ (ex_intro _ _ (conj eq_refl (conj Hw1 (conj Hb1 (conj Hrel1 Hr1))))))].
  unfold rdev_superblock_header_read_both.
  destruct (raw_read_step w1 (2 * SIZEOF_HEADER) Hw1) as (w2 & r2 & -> & Hw2 & Hb2 & Hrel2 & Hr2);
    [done|rewrite Hr1; pose proof sb_sizes; unfold SIZEOF_HEADER; lia|]. returned.
  rewrite Hb1 in Hb2. pose proof (λ H, Hrel2 (Hrel1 H)) as Hrel.
  destruct r2 as [d|e].
  2:{ refine (ex_intro _ _ (ex_intro _ _ (conj eq_refl (conj Hw2 (conj Hb2 (conj Hrel _)))))). auto. }
  destruct Hr2 as [-> _]. rewrite Hr1, Hb1. pose proof (area_len w Hw) as Hl.
  rewrite len_slice by (rewrite ?Hl; pose proof sb_sizes; unfold SIZEOF_HEADER; lia). simpl.
  refine (ex_intro _ _ (ex_intro _ _ (conj eq_refl (conj Hw2 (conj Hb2 (conj Hrel _)))))).
  unfold header_at. by rewrite !slice_slice by done.
Qed.

(** *** Data *)

Lemma sum_step w w' i :
  position_ok i → sb_ok w → cinv i w' →
  (∀ C (N : lens sb_world C), Indep N (the_sum a i) (cinv i) (nbytes i) (npos i) rrel →
     get N w' = get N w) → sb_ok w'.
Proof using HP Ha.
  intros Hi Hw Hc Hind. apply (cinv_sb w w' i Hi Hw Hc). intros j Hj Hne. split; apply Hind.
  - by apply sum_data_indep.
  - by apply sum_sum_indep.
Qed.

Lemma sum_rewind_step w i :
  position_ok i → sb_ok w →
  ∃ w' r, stream_rewind (the_sum a i) w = Some (w', r) ∧ sb_ok w' ∧ nbytes i w' = nbytes i w ∧
    (rrel w → rrel w') ∧ fed (get (sum_lens i) w') [] ∧
    match r with Ok _ => npos i w' = 0 | Err _ => ¬ rrel w end.
Proof using HP Ha.
  intros Hi Hw. pose proof (sb_cinv w i Hi Hw) as [Hn _].
  destruct (checksum_rewind_ok (the_data a i) (sum_lens i) (ninv i) (nbytes i) (npos i) rrel a (data_short i) w Hn)
    as (w' & r & E & Hc & Hb & Hrel & Hf & Hr).
  refine (ex_intro _ w' (ex_intro _ r (conj E (conj _ (conj Hb (conj Hrel (conj Hf Hr))))))).
  apply (sum_step w w' i Hi Hw Hc). intros C N HN. exact (ind_seek (Indep := HN) _ _ _ _ _ E).
Qed.

Lemma sum_read_step w i n l :
  position_ok i → sb_ok w → fed (get (sum_lens i) w) l → 0 <= n → npos i w + n <= PER_SB →
  ∃ w' r, stream_read (the_sum a i) w n = Some (w', r) ∧ sb_ok w' ∧ nbytes i w' = nbytes i w ∧
    (rrel w → rrel w') ∧
    match r with
    | Ok d => d = slice (npos i w) n (nbytes i w) ∧ npos i w' = npos i w + n ∧
        fed (get (sum_lens i) w') (l ++ d)
    | Err _ => ¬ rrel w
    end.
Proof using HP Ha.
  intros Hi Hw Hl Hn Hp. pose proof (sb_cinv w i Hi Hw) as [Hni _].
  destruct (checksum_read_ok (the_data a i) (sum_lens i) (ninv i) (nbytes i) (npos i) rrel a (data_short i) w n l)
    as (w' & r & E & Hc & Hb & Hrel & Hr); [discriminate|exact Ha|exact Hni|exact Hl|exact Hn| |].
  { by rewrite (nbytes_len w i Hni). }
  refine (ex_intro _ w' (ex_intro _ r (conj E (conj _ (conj Hb (conj Hrel Hr)))))).
  apply (sum_step w w' i Hi Hw Hc). intros C N HN. exact (ind_read (Indep := HN) _ _ _ _ E).
Qed.

Lemma sum_eof_step w i n :
  position_ok i → sb_ok w → 0 <= n < 2 ^ 62 → PER_SB < npos i w + n →
  ∃ w' r, stream_read (the_sum a i) w n = Some (w', r) ∧ sb_ok w' ∧ nbytes i w' = nbytes i w ∧
    (rrel w → rrel w') ∧
    match r with Ok d => len d = PER_SB - npos i w | Err _ => ¬ rrel w end.
Proof using HP Ha.
  intros Hi Hw Hn Hp. pose proof (sb_cinv w i Hi Hw) as Hci. pose proof Hci as [Hni _].
  assert (Hlen : len (nbytes i w) = PER_SB) by (exact (nbytes_len w i Hni)).
  destruct (checksum_eof_ok (the_data a i) (sum_lens i) (ninv i) (nbytes i) (npos i) rrel a (data_short i) w n)
    as (w' & r & E & Hc & Hb & Hrel & Hr); [discriminate|exact Ha|exact Hci|exact Hn|by rewrite Hlen|].
  refine (ex_intro _ w' (ex_intro _ r (conj E (conj _ (conj Hb (conj Hrel _)))))).
  - apply (sum_step w w' i Hi Hw Hc). intros C N HN. exact (ind_read (Indep := HN) _ _ _ _ E).
  - destruct r; [|exact Hr]. destruct Hr as [-> _]. rewrite Hlen.
    pose proof (bs_pos (s := the_data a i) w Hni). rewrite len_slice; lia.
Qed.

Lemma sum_write_step w i d l :
  may_write a = true → position_ok i → (∀ k, data_start i <= k < data_start i + PER_SB → M k) →
  sb_ok w → fed (get (sum_lens i) w) l → bytes_ok d → npos i w + len d <= PER_SB →
  ∃ w' r, stream_write (the_sum a i) w d = Some (w', r) ∧ sb_ok w' ∧ (rrel w → rrel w') ∧
    match r with
    | Ok n => n = len d ∧ nbytes i w' = splice (npos i w) d (nbytes i w) ∧
        npos i w' = npos i w + n ∧ fed (get (sum_lens i) w') (l ++ d)
    | Err _ => ¬ rrel w
    end.
Proof using HP Ha.
  intros Ha' Hi HM Hw Hl Hd Hp. pose proof (sb_cinv w i Hi Hw) as [Hni _].
  pose proof (bs_pos (s := the_data a i) w Hni) as Hpos.
  destruct (checksum_write_ok (the_data a i) (sum_lens i) (ninv i) (nbytes i) (npos i) rrel a (data_short i) _ w d l
    (data_writable i Ha')) as (w' & r & E & Hc & Hrel & Hr);
    [discriminate|exact Ha'|exact Hni|exact Hl|exact Hd|by rewrite (nbytes_len w i Hni)| |].
  { intros k Hk. apply HM. lia. }
  refine (ex_intro _ w' (ex_intro _ r (conj E (conj _ (conj Hrel _))))).
  - apply (sum_step w w' i Hi Hw Hc). intros C N HN. exact (ind_write (Indep := HN) _ _ _ _ E).
  - destruct r; [exact Hr|exact (proj1 Hr)].
Qed.

Lemma sum_full_step w i d :
  may_write a = true → position_ok i → sb_ok w → len d < 2 ^ 62 → PER_SB < npos i w + len d →
  0 < len d →
  ∃ w' e, stream_write (the_sum a i) w d = Some (w', Err e) ∧ sb_ok w' ∧ (rrel w → rrel w').
Proof using HP Ha.
  intros Ha' Hi Hw Hd Hp Hd0. pose proof (sb_cinv w i Hi Hw) as [Hni [l Hl]].
  pose proof (data_bounded_writes i Ha') as Hbw.
  destruct (checksum_full_ok (the_data a i) (sum_lens i) (ninv i) (nbytes i) (npos i) rrel a (data_short i) w d l)
    as (w' & e & E & Hc & _ & _ & Hrel & _);
    [discriminate|exact Ha'|exact Hni|exact Hl|exact Hd|by rewrite (nbytes_len w i Hni)|exact Hd0|].
  refine (ex_intro _ w' (ex_intro _ e (conj E (conj _ Hrel)))).
  apply (sum_step w w' i Hi Hw Hc). intros C N HN. exact (ind_write (Indep := HN) _ _ _ _ E).
Qed.

(** The data stream of position [i], used to read. *)
Lemma data_step w w' i :
  position_ok i → sb_ok w → ninv i w' →
  (∀ C (N : lens sb_world C), Indep N (the_data a i) (ninv i) (nbytes i) (npos i) rrel →
     get N w' = get N w) → sb_ok w'.
Proof using HP Ha.
  intros Hi Hw Hc Hind. apply (cinv_sb w w' i Hi Hw).
  - split; [exact Hc|]. destruct (sb_sum w Hw i Hi) as [l Hl]. exists l. unfold summed.
    by rewrite (Hind _ (sum_lens i) (data_sum_indep i i)).
  - intros j Hj Hne. split; apply Hind; [by apply data_data_indep|apply data_sum_indep].
Qed.

Lemma data_rewind_step w i :
  position_ok i → sb_ok w →
  ∃ w' r, stream_rewind (the_data a i) w = Some (w', r) ∧ sb_ok w' ∧ nbytes i w' = nbytes i w ∧
    (rrel w → rrel w') ∧ match r with Ok _ => npos i w' = 0 | Err _ => ¬ rrel w end.
Proof using HP Ha.
  intros Hi Hw. pose proof (sb_cinv w i Hi Hw) as [Hni _].
  destruct (bs_rewind (s := the_data a i) w Hni) as (w' & r & E & Hn' & Hb & Hrel & Hr).
  refine (ex_intro _ w' (ex_intro _ r (conj E (conj _ (conj Hb (conj Hrel Hr)))))).
  apply (data_step w w' i Hi Hw Hn'). intros C N HN. exact (ind_seek (Indep := HN) _ _ _ _ _ E).
Qed.

Lemma data_read_step w i n :
  position_ok i → sb_ok w → 0 <= n → npos i w + n <= PER_SB →
  ∃ w' r, stream_read (the_data a i) w n = Some (w', r) ∧ sb_ok w' ∧ nbytes i w' = nbytes i w ∧
    (rrel w → rrel w') ∧
    match r with
    | Ok d => d = slice (npos i w) n (nbytes i w) ∧ npos i w' = npos i w + n
    | Err _ => ¬ rrel w
    end.
Proof using HP Ha.
  intros Hi Hw Hn Hp. pose proof (sb_cinv w i Hi Hw) as [Hni _].
  destruct (bs_read (s := the_data a i) w n Hni Hn) as (w' & r & E & Hn' & Hb & Hrel & Hr).
  { by rewrite (nbytes_len w i Hni). }
  refine (ex_intro _ w' (ex_intro _ r (conj E (conj _ (conj Hb (conj Hrel Hr)))))).
  apply (data_step w w' i Hi Hw Hn'). intros C N HN. exact (ind_read (Indep := HN) _ _ _ _ E).
Qed.

Lemma data_tell_step w i : position_ok i → sb_ok w → stream_tell (the_data a i) w = npos i w.
Proof using HP Ha.
  intros Hi Hw. pose proof (sb_cinv w i Hi Hw) as [Hni _].
  exact (bs_tell (s := the_data a i) w Hni).
Qed.

(** *** Checking the data of a position *)

Lemma check_sum_loop_ok fuel w i remaining k :
  position_ok i → sb_ok w → rrel w → 0 <= remaining → 0 <= k → k + remaining < 2 ^ 64 →
  npos i w = k → fed (get (sum_lens i) w) (slice 0 k (nbytes i w)) →
  (1 ≤ fuel)%nat → remaining = 0 ∨ PER_SB - k + 1024 <= 512 * Z.of_nat fuel →
  ∃ w' r, check_sum_loop fuel (the_sum a i) w remaining = Some (w', r) ∧ sb_ok w' ∧ rrel w' ∧
    nbytes i w' = nbytes i w ∧
    match r with
    | Ok b => b = true ∧ k + remaining <= PER_SB ∧
        fed (get (sum_lens i) w') (slice 0 (k + remaining) (nbytes i w))
    | Err _ => PER_SB < k + remaining
    end.
Proof using HP Ha.
  intros Hi. revert w remaining k. induction fuel as [|fuel IH]; intros w rem k Hw Hrel Hrem Hk Hlim Hp Hf Hfu Hc; [lia|].
  cbn [check_sum_loop]. pose proof (sb_cinv w i Hi Hw) as [Hni _].
  pose proof (bs_pos (s := the_data a i) w Hni) as Hpos. rewrite (nbytes_len w i Hni), Hp in Hpos.
  destruct (Z.ltb_spec 0 rem); cycle 1.
  { assert (rem = 0) as -> by lia. rewrite Z.add_0_r.
    refine (ex_intro _ w (ex_intro _ _ (conj eq_refl (conj Hw (conj Hrel (conj eq_refl _)))))).
    split; [reflexivity|]. split; [lia|exact Hf]. }
  destruct Hc as [?|Hc]; [lia|]. set (n := Z.min 512 rem).
  destruct (Z.leb_spec (k + n) PER_SB).
  - destruct (sum_read_step w i n _ Hi Hw Hf) as (w1 & r1 & -> & Hw1 & Hb1 & Hrel1 & Hr1); [lia|lia|].
    returned. destruct r1 as [d|e]; [|by destruct Hr1]. destruct Hr1 as (Hd & Hp1 & Hf1).
    rewrite Hp in Hd.
    assert (Hld : len d = n) by (rewrite Hd; apply len_slice; rewrite ?(nbytes_len w i Hni); lia).
    rewrite Hld, Z.eqb_refl. cbn [negb].
    assert (Hf1' : fed (get (sum_lens i) w1) (slice 0 (k + n) (nbytes i w1))).
    { rewrite Hb1, slice_app by lia. rewrite Hd in Hf1. exact Hf1. }
    destruct (IH w1 (rem - n) (k + n) Hw1 (Hrel1 Hrel)) as (w2 & r2 & -> & Hw2 & Hrel2 & Hb2 & Hr2);
      [lia|lia|lia|lia|exact Hf1'|lia|destruct (decide (rem <= 512)); [left; lia|right; lia]|].
    rewrite Hb1 in Hb2, Hr2. replace (k + n + (rem - n)) with (k + rem) in Hr2 by lia.
    exact (ex_intro _ w2 (ex_intro _ r2 (conj eq_refl (conj Hw2 (conj Hrel2 (conj Hb2 Hr2)))))).
  - destruct (sum_eof_step w i n Hi Hw) as (w1 & r1 & -> & Hw1 & Hb1 & Hrel1 & Hr1); [lia|lia|].
    returned. destruct r1 as [d|e]; [|by destruct Hr1].
    rewrite Hr1, (proj2 (Z.eqb_neq _ n)) by lia. cbn [negb].
    refine (ex_intro _ w1 (ex_intro _ _ (conj eq_refl (conj Hw1 (conj (Hrel1 Hrel) (conj Hb1 _)))))).
    lia.
Qed.

Lemma check_sb_checksum_ok s w i size sum :
  streams_ok a s → position_ok i → sb_ok w → rrel w → fits 64 size →
  ∃ w' r, check_sb_checksum s i w size sum = Some (w', r) ∧ sb_ok w' ∧ rrel w' ∧
    nbytes i w' = nbytes i w ∧
    is_ok r = ((size <=? PER_SB) && (checksum_of (slice 0 size (nbytes i w)) =? sum)).
Proof using HP Ha.
  intros Hs Hi Hw Hrel Hsz. unfold check_sb_checksum. rewrite (so_sum _ _ Hs i Hi).
  destruct (sum_rewind_step w i Hi Hw) as (w1 & r1 & -> & Hw1 & Hb1 & Hrel1 & Hf1 & Hr1).
  returned. destruct r1 as [[]|e]; [|by destruct Hr1]. pose proof sb_sizes as Hss.
  unfold fits in Hsz.
  destruct (check_sum_loop_ok (Z.to_nat VRT_SB_AREA_SIZE) w1 i size 0 Hi Hw1 (Hrel1 Hrel))
    as (w2 & r2 & -> & Hw2 & Hrel2 & Hb2 & Hr2);
    [lia|lia|lia|exact Hr1|by rewrite slice_0|unfold VRT_SB_AREA_SIZE; lia
    |right; unfold VRT_SB_AREA_SIZE; lia|].
  returned. rewrite Z.add_0_l, Hb1 in Hr2. rewrite Hb1 in Hb2. destruct r2 as [b|e].
  2:{ refine (ex_intro _ w2 (ex_intro _ _ (conj eq_refl (conj Hw2 (conj Hrel2 (conj Hb2 _)))))).
      simpl. rewrite (proj2 (Z.leb_gt _ _)) by lia. reflexivity. }
  destruct Hr2 as (-> & Hle & Hf2). unfold checksum_stream_get_value.
  pose proof (sb_cinv w i Hi Hw) as [Hni _].
  rewrite (checksum_value_ok _ _ Hf2).
  2:{ fold (len (slice 0 size (nbytes i w))).
      rewrite len_slice by (rewrite ?(nbytes_len w i Hni); lia). unfold fits. lia. }
  returned. rewrite (proj2 (Z.leb_le _ _)) by lia. cbn [andb].
  destruct (checksum_of _ =? sum) eqn:Esum; cbn [negb].
  - destruct (sum_rewind_step w2 i Hi Hw2) as (w3 & r3 & -> & Hw3 & Hb3 & Hrel3 & _ & Hr3).
    rewrite Hb2 in Hb3. destruct r3 as [[]|e]; [|by destruct Hr3].
    exact (ex_intro _ w3 (ex_intro _ _ (conj eq_refl (conj Hw3 (conj (Hrel3 Hrel2) (conj Hb3 eq_refl)))))).
  - exact (ex_intro _ w2 (ex_intro _ _ (conj eq_refl (conj Hw2 (conj Hrel2 (conj Hb2 eq_refl)))))).
Qed.
End area.

(** ** Reading a version *)

(** A client reads the data of a superblock in one read. *)
Definition load_superblock (s : sb_streams) (w : sb_world) (v : Z)
    : option (sb_world * result (list Z)) :=
  '(w, r) ← vrt_rdev_begin_superblock_read s w v;
  match r with
  | Err e => Some (w, Err e)
  | Ok op =>
      '(w, d) ← stream_read (sb_data_streams s (ro_position op)) w (h_data_size (ro_header op));
      match d with
      | Err e => Some (w, Err e)
      | Ok d =>
          Some (w, match vrt_rdev_end_superblock_read s w op with Ok _ => Ok d | Err e => Err e end)
      end
  end.

Definition nowhere (_ : Z) : Prop := False.

Lemma header_of_bytes_wf l : bytes_ok l → len l = SIZEOF_HEADER → header_wf (header_of_bytes l).
Proof.
  intros Hb Hl. unfold SIZEOF_HEADER in Hl.
  assert (Hf : ∀ o n, 0 <= o → 0 <= n → o + n <= 56 → 0 <= le_val (slice o n l) < 256 ^ n).
  { intros o n ? ? ?. rewrite <- (len_slice o n l) at 3 by lia.
    apply le_val_fits, bytes_ok_slice, Hb. }
  split; simpl; try (apply Hf; lia). split; [by apply bytes_ok_slice|]. apply len_slice; lia.
Qed.

Lemma header_at_wf B i :
  bytes_ok B → len B = SB_AREA → position_ok i → header_wf (header_at B i).
Proof.
  intros Hb Hl Hi. apply header_of_bytes_wf; [by apply bytes_ok_slice|].
  pose proof sb_sizes. unfold SIZEOF_HEADER. apply len_slice; destruct Hi as [-> | ->]; lia.
Qed.

Section reading.
Context (d0 : list Z) (P : Z * list Z → Prop).
Context (HP : ∀ s, sector_agrees nowhere d0 s → P s).
Context (a : stream_access_t) (Ha : may_read a = true).
Local Abbreviation sb_ok := (sb_ok nowhere d0 P).
Local Abbreviation rrel := (raw_reliable raw_lens).
Local Abbreviation B := (slice 0 SB_AREA d0).

Lemma area_const w : sb_ok w → raw_bytes raw_lens SB_AREA w = B.
Proof using.
  intros [Hi _ _]. pose proof (rw_view _ _ _ _ _ Hi) as [Hl Hv]. unfold raw_bytes.
  f_equal. apply list_eq_len; [exact Hl|]. intros i _. apply Hv. exact id.
Qed.

Lemma B_ok w : sb_ok w → bytes_ok B ∧ len B = SB_AREA.
Proof using.
  intros Hw. rewrite <- (area_const w Hw). split; [|exact (area_len _ _ _ w Hw)].
  apply bytes_ok_slice. exact (raw_view_bytes _ _ _ _ _ _ (sb_inv _ _ _ _ Hw)).
Qed.

Lemma data_const w i :
  sb_ok w → narrowed_bytes (raw_bytes raw_lens SB_AREA) (data_start i) (data_start i + PER_SB - 1) w
  = slice (data_start i) PER_SB B.
Proof using. intros Hw. rewrite nbytes_area, (area_const w Hw). reflexivity. Qed.

Lemma data_slice i n :
  position_ok i → 0 <= n <= PER_SB →
  slice 0 n (slice (data_start i) PER_SB B) = slice (data_start i) n B.
Proof using.
  intros Hi Hn. pose proof (data_start_bounds i Hi). rewrite slice_slice by lia.
  by rewrite Z.add_0_r.
Qed.

Lemma find_superblock_ok s w v i :
  streams_ok a s → position_ok i → sb_ok w → rrel w →
  ∃ w', find_superblock s w v (header_at B i) i = Some (w', holds B v i) ∧ sb_ok w' ∧ rrel w'.
Proof using HP Ha.
  intros Hs Hi Hw Hrel. unfold find_superblock, holds.
  destruct (is_ok (check_sb_header (header_at B i) i)) eqn:Ec; cbn [negb andb].
  2:{ exact (ex_intro _ w (conj eq_refl (conj Hw Hrel))). }
  destruct (B_ok w Hw) as [Hb Hl]. pose proof (header_at_wf B i Hb Hl Hi) as [].
  destruct (check_sb_checksum_ok nowhere d0 P HP a Ha s w i (h_data_size (header_at B i))
    (h_checksum (header_at B i)) Hs Hi Hw Hrel hw_size0) as (w1 & r & -> & Hw1 & Hrel1 & _ & Hr).
  returned. refine (ex_intro _ w1 (conj _ (conj Hw1 Hrel1))). rewrite Hr, (data_const w i Hw).
  unfold data_matches. destruct (Z.leb_spec (h_data_size (header_at B i)) PER_SB); [|reflexivity].
  unfold fits in hw_size0. rewrite data_slice by (exact Hi || lia). reflexivity.
Qed.

Lemma holds_position v i : holds B v i = true → h_position (header_at B i) = i.
Proof using.
  unfold holds, check_sb_header. intros H. apply andb_prop in H as [[H _]%andb_prop _].
  destruct (h_magic _ =? _), (h_format _ =? _); cbn [negb] in H; try done.
  destruct (Z.eqb_spec (h_position (header_at B i)) i); [done|]. done.
Qed.

Lemma holds_size v i :
  holds B v i = true → 0 <= h_data_size (header_at B i) → 0 <= h_data_size (header_at B i) <= PER_SB.
Proof using.
  unfold holds, data_matches. intros H. apply andb_prop in H as [[_ H]%andb_prop _].
  apply andb_prop in H as [H%Z.leb_le _]. lia.
Qed.

(** Once the version is found, its data is read. *)
Lemma load_found s w v i h :
  streams_ok a s → position_ok i → sb_ok w → rrel w → holds B v i = true → h = header_at B i →
  ∃ w',
    ('(w, err) ← stream_rewind (sb_data_streams s (h_position h)) w;
     match match err with Ok _ => Ok (mk_read_op h (h_position h)) | Err e => Err e end with
     | Err e => Some (w, Err e)
     | Ok op =>
         '(w, d) ← stream_read (sb_data_streams s (ro_position op)) w (h_data_size (ro_header op));
         match d with
         | Err e => Some (w, Err e)
         | Ok d =>
             Some (w, match vrt_rdev_end_superblock_read s w op with Ok _ => Ok d | Err e => Err e end)
         end
     end) = Some (w', Ok (data_of B i)) ∧ sb_ok w' ∧ rrel w'.
Proof using HP Ha.
  intros Hs Hi Hw Hrel Hh ->. rewrite (holds_position v i Hh), (so_data _ _ Hs i Hi).
  destruct (B_ok w Hw) as [Hb Hl]. pose proof (header_at_wf B i Hb Hl Hi) as Hwf.
  pose proof (hw_size _ Hwf) as Hsz. unfold fits in Hsz.
  pose proof (holds_size v i Hh ltac:(lia)) as Hsz'.
  destruct (data_rewind_step nowhere d0 P HP a Ha w i Hi Hw) as (w1 & r1 & -> & Hw1 & Hb1 & Hrel1 & Hr1).
  returned. destruct r1 as [[]|e]; [|by destruct Hr1]. cbn [ro_position ro_header].
  rewrite (so_data _ _ Hs i Hi).
  destruct (data_read_step nowhere d0 P HP a Ha w1 i (h_data_size (header_at B i)) Hi Hw1)
    as (w2 & r2 & -> & Hw2 & Hb2 & Hrel2 & Hr2); [lia|lia|].
  returned. destruct r2 as [d|e]; [|by destruct (Hr2 (Hrel1 Hrel))].
  destruct Hr2 as [Hd Hp2]. unfold vrt_rdev_end_superblock_read. cbn [ro_position ro_header].
  rewrite (so_data _ _ Hs i Hi), (data_tell_step nowhere d0 P HP a Ha w2 i Hi Hw2), Hp2, Hr1.
  rewrite Z.add_0_l, Z.eqb_refl. cbn [negb].
  refine (ex_intro _ w2 (conj _ (conj Hw2 (Hrel2 (Hrel1 Hrel))))).
  rewrite Hd, Hr1, (data_const w1 i Hw1), data_slice by (exact Hi || lia). reflexivity.
Qed.

Lemma load_superblock_ok s w v :
  streams_ok a s → sb_ok w → rrel w →
  ∃ w', load_superblock s w v = Some (w', lookup_sb B v) ∧ sb_ok w' ∧ rrel w'.
Proof using HP Ha.
  intros Hs Hw Hrel. unfold load_superblock, vrt_rdev_begin_superblock_read, lookup_sb.
  destruct (read_sb_headers_ok nowhere d0 P HP a Ha s w Hs Hw) as (w1 & r1 & -> & Hw1 & _ & Hrel1 & Hr1).
  returned. destruct r1 as [hs|e]; [|by destruct Hr1].
  rewrite (area_const w Hw) in Hr1. rewrite Hr1. cbn [fst snd]. specialize (Hrel1 Hrel).
  destruct (find_superblock_ok s w1 v 0 Hs (or_introl eq_refl) Hw1 Hrel1) as (w2 & -> & Hw2 & Hrel2).
  returned. destruct (holds B v 0) eqn:E0.
  { returned. cbn [negb ro_position ro_header].
    destruct (load_found s w2 v 0 _ Hs (or_introl eq_refl) Hw2 Hrel2 E0 eq_refl) as (w3 & E & Hw3 & Hrel3).
    refine (ex_intro _ w3 (conj _ (conj Hw3 Hrel3))). rewrite <- E.
    by destruct (stream_rewind _ w2) as [[? []]|]. }
  destruct (find_superblock_ok s w2 v 1 Hs (or_intror eq_refl) Hw2 Hrel2) as (w3 & -> & Hw3 & Hrel3).
  returned. destruct (holds B v 1) eqn:E1; cbn [negb].
  2:{ exact (ex_intro _ w3 (conj eq_refl (conj Hw3 Hrel3))). }
  destruct (load_found s w3 v 1 _ Hs (or_intror eq_refl) Hw3 Hrel3 E1 eq_refl) as (w4 & E & Hw4 & Hrel4).
  refine (ex_intro _ w4 (conj _ (conj Hw4 Hrel4))). rewrite <- E.
  cbn [ro_position ro_header]. by destruct (stream_rewind _ w3) as [[? []]|].
Qed.

Lemma ok_inj {A} (x y : A) : Ok x = Ok y → x = y.
Proof using. by intros [= ->]. Qed.

(** The stream that a read operation gives is at the start of the data. *)
Lemma begin_found s w v i :
  streams_ok a s → position_ok i → sb_ok w → rrel w → holds B v i = true →
  ∃ w', stream_rewind (sb_data_streams s (h_position (header_at B i))) w = Some (w', Ok tt) ∧
    h_position (header_at B i) = i ∧ sb_ok w' ∧ rrel w' ∧ narrowed_pos (data_lens i) (data_start i) w' = 0.
Proof using HP Ha.
  intros Hs Hi Hw Hrel Hh. rewrite (holds_position v i Hh), (so_data _ _ Hs i Hi).
  destruct (data_rewind_step nowhere d0 P HP a Ha w i Hi Hw) as (w1 & r1 & -> & Hw1 & Hb1 & Hrel1 & Hr1).
  destruct r1 as [[]|e]; [|by destruct Hr1].
  exact (ex_intro _ w1 (conj eq_refl (conj eq_refl (conj Hw1 (conj (Hrel1 Hrel) Hr1))))).
Qed.

Lemma begin_read_ok s w v D :
  streams_ok a s → sb_ok w → rrel w → lookup_sb B v = Ok D →
  ∃ w' i, vrt_rdev_begin_superblock_read s w v = Some (w', Ok (mk_read_op (header_at B i) i)) ∧
    position_ok i ∧ holds B v i = true ∧ data_of B i = D ∧ sb_ok w' ∧ rrel w' ∧
    narrowed_pos (data_lens i) (data_start i) w' = 0.
Proof using HP Ha.
  intros Hs Hw Hrel HD. unfold vrt_rdev_begin_superblock_read, lookup_sb in *.
  destruct (read_sb_headers_ok nowhere d0 P HP a Ha s w Hs Hw) as (w1 & r1 & -> & Hw1 & _ & Hrel1 & Hr1).
  returned. destruct r1 as [hs|e]; [|by destruct Hr1].
  rewrite (area_const w Hw) in Hr1. rewrite Hr1. cbn [fst snd]. specialize (Hrel1 Hrel).
  destruct (find_superblock_ok s w1 v 0 Hs (or_introl eq_refl) Hw1 Hrel1) as (w2 & -> & Hw2 & Hrel2).
  returned. destruct (holds B v 0) eqn:E0.
  { returned. cbn [negb ro_position].
    destruct (begin_found s w2 v 0 Hs (or_introl eq_refl) Hw2 Hrel2 E0) as (w3 & -> & Ep & H3). returned.
    rewrite Ep. apply ok_inj in HD.
    exact (ex_intro _ w3 (ex_intro _ 0 (conj eq_refl (conj (or_introl eq_refl) (conj E0 (conj HD H3)))))). }
  destruct (find_superblock_ok s w2 v 1 Hs (or_intror eq_refl) Hw2 Hrel2) as (w3 & -> & Hw3 & Hrel3).
  returned. destruct (holds B v 1) eqn:E1; [|discriminate HD]. cbn [negb ro_position].
  destruct (begin_found s w3 v 1 Hs (or_intror eq_refl) Hw3 Hrel3 E1) as (w4 & -> & Ep & H4). returned.
  rewrite Ep. apply ok_inj in HD.
  exact (ex_intro _ w4 (ex_intro _ 1 (conj eq_refl (conj (or_intror eq_refl) (conj E1 (conj HD H4)))))).
Qed.

Lemma begin_read_none s w v :
  streams_ok a s → sb_ok w → rrel w → lookup_sb B v = Err VRT_ERR_SB_NOT_FOUND →
  ∃ w', vrt_rdev_begin_superblock_read s w v = Some (w', Err VRT_ERR_SB_NOT_FOUND).
Proof using HP Ha.
  intros Hs Hw Hrel HD. unfold vrt_rdev_begin_superblock_read, lookup_sb in *.
  destruct (read_sb_headers_ok nowhere d0 P HP a Ha s w Hs Hw) as (w1 & r1 & -> & Hw1 & _ & Hrel1 & Hr1).
  returned. destruct r1 as [hs|e]; [|by destruct Hr1].
  rewrite (area_const w Hw) in Hr1. rewrite Hr1. cbn [fst snd]. specialize (Hrel1 Hrel).
  destruct (find_superblock_ok s w1 v 0 Hs (or_introl eq_refl) Hw1 Hrel1) as (w2 & -> & Hw2 & Hrel2).
  returned. destruct (holds B v 0) eqn:E0; [discriminate HD|].
  destruct (find_superblock_ok s w2 v 1 Hs (or_intror eq_refl) Hw2 Hrel2) as (w3 & -> & Hw3 & Hrel3).
  returned. destruct (holds B v 1) eqn:E1; [discriminate HD|]. by exists w3.
Qed.
End reading.

(** ** Writing a version *)

(** A client writes a superblock as a sequence of buffers. *)
Definition save_superblock (s : sb_streams) (w : sb_world) (old_version new_version : Z)
    (bufs : list (list Z)) : option (sb_world * result unit) :=
  '(w, r) ← vrt_rdev_begin_superblock_write s w old_version new_version;
  match r with
  | Err e => Some (w, Err e)
  | Ok op =>
      '(w, r) ← write_all (checksum_sb_streams s (wo_position op)) w bufs;
      match r with
      | Err e => Some (w, Err e)
      | Ok _ => vrt_rdev_end_superblock_write s w op
      end
  end.

(** What a crash may leave on a disk that held [d0]: each sector is the one of
    [d0] or one of those sent to the device since. *)
Definition crash_disk (d0 : list Z) (log : list (Z * list Z)) (c : list Z) : Prop :=
  len c = len d0 ∧
  ∀ s, 0 <= s → SECTORS_TO_BYTES s + SECTOR_SIZE <= len d0 →
    let x := slice (SECTORS_TO_BYTES s) SECTOR_SIZE c in
    x = slice (SECTORS_TO_BYTES s) SECTOR_SIZE d0 ∨ (s, x) ∈ log.

(** *** Positions *)

Lemma lookup_holds B v D :
  lookup_sb B v = Ok D → ∃ q, position_ok q ∧ holds B v q = true ∧ D = data_of B q.
Proof.
  unfold lookup_sb. destruct (holds B v 0) eqn:E0.
  { intros [= <-]. exists 0. split; [by left|done]. }
  destruct (holds B v 1) eqn:E1; [|done]. intros [= <-]. exists 1. split; [by right|done].
Qed.

Lemma holds_version B v i : holds B v i = true → h_sb_version (header_at B i) = v.
Proof. unfold holds. intros [_ H]%andb_prop. by apply Z.eqb_eq. Qed.

Lemma holds_same B B' v i :
  position_ok i → header_at B' i = header_at B i → slice (data_start i) PER_SB B' = slice (data_start i) PER_SB B →
  0 <= h_data_size (header_at B i) →
  holds B' v i = holds B v i ∧ (holds B v i = true → data_of B' i = data_of B i).
Proof.
  intros Hi Hh Hd Hs. unfold holds, data_matches, data_of. rewrite Hh.
  destruct (Z.leb_spec (h_data_size (header_at B i)) PER_SB) as [Hle|Hgt].
  2:{ cbn [andb]. rewrite !andb_false_r. split; [reflexivity|discriminate]. }
  assert (E : slice (data_start i) (h_data_size (header_at B i)) B' =
              slice (data_start i) (h_data_size (header_at B i)) B).
  { apply (f_equal (slice 0 (h_data_size (header_at B i)))) in Hd. pose proof sb_sizes.
    pose proof (data_start_bounds i Hi). rewrite !slice_slice, Z.add_0_r in Hd by lia. exact Hd. }
  rewrite E. split; reflexivity.
Qed.

(** Only one position has the version [v]: the other does not matter. *)
Lemma lookup_at B v q :
  position_ok q → holds B v q = true → (∀ p, position_ok p → p ≠ q → holds B v p = false) →
  lookup_sb B v = Ok (data_of B q).
Proof.
  intros Hq Hh Ho. unfold lookup_sb. destruct Hq as [-> | ->].
  - by rewrite Hh.
  - rewrite (Ho 0 (or_introl eq_refl) ltac:(lia)), Hh. reflexivity.
Qed.

Lemma version_differs B v p : h_sb_version (header_at B p) ≠ v → holds B v p = false.
Proof. intros H. unfold holds. rewrite (proj2 (Z.eqb_neq _ v)) by done. apply andb_false_r. Qed.

(** The position that is overwritten does not hold the old version. *)
(** Position 1 is written only if position 0 is corrupt or has the old version. *)
Lemma write_position_kept hs old :
  write_position hs old = Some 1 →
  is_ok (check_sb_header hs.1 0) = false ∨ h_sb_version hs.1 = old.
Proof.
  unfold write_position. destruct (is_ok (check_sb_header hs.1 0)); cbn [andb]; [|by left].
  destruct (Z.eqb_spec (h_sb_version hs.1) old); [by right|].
  rewrite orb_true_r. discriminate.
Qed.

Lemma write_position_ok hs old p : write_position hs old = Some p → position_ok p.
Proof. unfold write_position. repeat case_match; intros; simplify_eq; [by left|by right]. Qed.

Lemma write_position_free hs old p :
  write_position hs old = Some p → old ≠ 0 →
  position_ok p ∧ is_ok (check_sb_header (if p =? 0 then hs.1 else hs.2) p) = true ∧
  h_sb_version (if p =? 0 then hs.1 else hs.2) ≠ old.
Proof.
  intros Hp Hold. unfold write_position in Hp. revert Hp.
  assert (Hfree : ∀ h i, is_ok (check_sb_header h i)
      && ((h_sb_version h =? 0) || negb (h_sb_version h =? old)) = true →
      is_ok (check_sb_header h i) = true ∧ h_sb_version h ≠ old).
  { intros h i [? H]%andb_prop. split; [done|].
    apply orb_prop in H as [H%Z.eqb_eq|H%negb_true_iff%Z.eqb_neq]; [congruence|done]. }
  destruct (is_ok (check_sb_header hs.1 0) && _) eqn:E0.
  { intros [= <-]. split; [by left|]. by apply Hfree. }
  destruct (is_ok (check_sb_header hs.2 1) && _) eqn:E1; [|done].
  intros [= <-]. split; [by right|]. by apply Hfree.
Qed.

(** *** What reaches the disk while position [p] is written *)

Section sent.
Context (d0 : list Z) (p new : Z) (Hp : position_ok p).
Context (Hd0 : SB_AREA <= len d0).

Definition data_area (k : Z) : Prop := data_start p <= k < data_start p + PER_SB.

(** The header written at the end. *)
Record new_header (hb : list Z) : Prop := {
  nh_bytes : bytes_ok hb;
  nh_len : len hb = SIZEOF_HEADER;
  nh_version : h_sb_version (header_of_bytes hb) = new;
  nh_check : check_sb_header (header_of_bytes hb) p = Ok tt;
  nh_max : h_data_max_size (header_of_bytes hb) = PER_SB
}.

Definition with_header (hb : list Z) : list Z := splice (SIZEOF_HEADER * p) hb d0.

(** The sectors sent to the device: nothing changes but the data of position
    [p], until the header is replaced as a whole. *)
Definition sent (s : Z * list Z) : Prop :=
  sector_agrees data_area d0 s ∨ ∃ hb, new_header hb ∧ sector_agrees data_area (with_header hb) s.

Lemma header_range : 0 <= SIZEOF_HEADER * p ∧ SIZEOF_HEADER * p + SIZEOF_HEADER <= 112.
Proof using Hp. unfold SIZEOF_HEADER. destruct Hp as [-> | ->]; lia. Qed.

Lemma len_with_header hb : new_header hb → len (with_header hb) = len d0.
Proof using Hp Hd0.
  intros []. pose proof header_range. pose proof sb_sizes. apply len_splice; lia.
Qed.

Context (log : list (Z * list Z)) (c : list Z).
Context (Hlog : Forall sent log) (Hc : crash_disk d0 log c).
Context (Hsec : len d0 mod SECTOR_SIZE = 0).

Lemma sector_byte l (i : nat) :
  Z.of_nat i < len l → l !! i = slice (SECTORS_TO_BYTES (BYTES_TO_SECTORS (Z.of_nat i))) SECTOR_SIZE l
    !! Z.to_nat (Z.of_nat i mod SECTOR_SIZE).
Proof using.
  intros Hi. unfold SECTORS_TO_BYTES, BYTES_TO_SECTORS, SECTOR_SIZE.
  pose proof (Z.div_mod (Z.of_nat i) 512 ltac:(lia)).
  pose proof (Z.mod_pos_bound (Z.of_nat i) 512 ltac:(lia)).
  pose proof (Z.div_pos (Z.of_nat i) 512 ltac:(lia) ltac:(lia)).
  rewrite lookup_slice by lia. f_equal. lia.
Qed.

(** The sector of a byte after the crash. *)
Lemma crash_sector (i : nat) :
  Z.of_nat i < len d0 →
  let s := BYTES_TO_SECTORS (Z.of_nat i) in
  let x := slice (SECTORS_TO_BYTES s) SECTOR_SIZE c in
  x = slice (SECTORS_TO_BYTES s) SECTOR_SIZE d0 ∨ sent (s, x).
Proof using Hlog Hc Hsec.
  intros Hi s x. destruct Hc as [Hl Hs]. destruct (Hs s) as [E|Hin].
  - apply Z.div_pos; unfold SECTOR_SIZE; lia.
  - subst s. unfold SECTORS_TO_BYTES, BYTES_TO_SECTORS, SECTOR_SIZE in *.
    pose proof (Z.div_mod (len d0) 512 ltac:(lia)).
    pose proof (Z.div_mod (Z.of_nat i) 512 ltac:(lia)).
    pose proof (Z.mod_pos_bound (Z.of_nat i) 512 ltac:(lia)). lia.
  - by left.
  - right. rewrite Forall_forall in Hlog. exact (Hlog _ Hin).
Qed.

Lemma crash_byte (i : nat) :
  Z.of_nat i < len d0 → ¬ data_area (Z.of_nat i) →
  (Z.of_nat i < SIZEOF_HEADER * p ∨ SIZEOF_HEADER * p + SIZEOF_HEADER <= Z.of_nat i) →
  c !! i = d0 !! i.
Proof using All.
  intros Hi HM Hh. pose proof (crash_sector i Hi) as Hs. cbv zeta in Hs.
  rewrite (sector_byte c) by (by rewrite (proj1 Hc)).
  set (s := BYTES_TO_SECTORS (Z.of_nat i)) in *.
  set (k := Z.to_nat (Z.of_nat i mod SECTOR_SIZE)).
  pose proof (Z.div_mod (Z.of_nat i) SECTOR_SIZE ltac:(done)) as Hdm.
  pose proof (Z.mod_pos_bound (Z.of_nat i) SECTOR_SIZE eq_refl) as Hk.
  assert (Hik : SECTORS_TO_BYTES s + Z.of_nat k = Z.of_nat i)
    by (unfold s, k, SECTORS_TO_BYTES, BYTES_TO_SECTORS; lia).
  assert (Hs0 : 0 <= SECTORS_TO_BYTES s)
    by (unfold SECTORS_TO_BYTES, s, BYTES_TO_SECTORS, SECTOR_SIZE; pose proof (Z.div_pos (Z.of_nat i) 512); lia).
  assert (Hnat : (Z.to_nat (SECTORS_TO_BYTES s) + k)%nat = i) by lia.
  destruct Hs as [-> | [Ha | (hb & Hn & Ha)]].
  - symmetry. exact (sector_byte d0 i Hi).
  - destruct Ha as (_ & _ & _ & Ha). rewrite Ha; cbn [fst]; [by rewrite Hnat|lia|by rewrite Hik].
  - destruct Ha as (_ & _ & _ & Ha). rewrite Ha; cbn [fst]; [|lia|by rewrite Hik].
    rewrite Hnat. pose proof header_range. pose proof sb_sizes. destruct Hn.
    apply lookup_splice_out; lia.
Qed.

Lemma crash_slice o n :
  0 <= o → 0 <= n → o + n <= SB_AREA →
  (∀ k, o <= k < o + n → ¬ data_area k ∧ (k < SIZEOF_HEADER * p ∨ SIZEOF_HEADER * p + SIZEOF_HEADER <= k)) →
  slice o n (slice 0 SB_AREA c) = slice o n (slice 0 SB_AREA d0).
Proof using All.
  intros Ho Hn Hl HM. pose proof sb_sizes. destruct Hc as [Hlc _].
  rewrite !slice_slice, Z.add_0_l by lia.
  apply list_eq_len; rewrite !len_slice by lia; [reflexivity|].
  intros i Hi. rewrite !lookup_slice by lia.
  destruct (HM (Z.of_nat (Z.to_nat o + i))) as [? ?]; [lia|]. apply crash_byte; [lia|done|done].
Qed.

Lemma crash_other q :
  position_ok q → q ≠ p →
  header_at (slice 0 SB_AREA c) q = header_at (slice 0 SB_AREA d0) q ∧
  slice (data_start q) PER_SB (slice 0 SB_AREA c) = slice (data_start q) PER_SB (slice 0 SB_AREA d0).
Proof using All.
  intros Hq Hne. pose proof sb_sizes. pose proof (data_start_bounds p Hp).
  pose proof (data_start_bounds q Hq). pose proof (data_disjoint p q Hp Hq ltac:(congruence)).
  pose proof header_range. unfold data_area. split.
  - unfold header_at. f_equal. unfold SIZEOF_HEADER in *.
    apply crash_slice; [destruct Hq as [-> | ->]; lia|lia|destruct Hq as [-> | ->]; lia|].
    unfold data_area, SIZEOF_HEADER. intros k Hk. destruct Hq as [-> | ->], Hp as [-> | ->]; try done; lia.
  - apply crash_slice; [lia..|]. unfold data_area. intros k Hk. lia.
Qed.

Lemma crash_header :
  header_at (slice 0 SB_AREA c) p = header_at (slice 0 SB_AREA d0) p ∨
  ∃ hb, new_header hb ∧ header_at (slice 0 SB_AREA c) p = header_of_bytes hb.
Proof using All.
  pose proof sb_sizes as Hss. pose proof header_range as Hr. pose proof (data_start_bounds p Hp).
  pose proof (crash_sector 0 ltac:(lia)) as Hs. cbv zeta in Hs.
  change (SECTORS_TO_BYTES (BYTES_TO_SECTORS (Z.of_nat 0))) with 0 in Hs.
  change (BYTES_TO_SECTORS (Z.of_nat 0)) with 0 in Hs. unfold SECTOR_SIZE in Hs.
  assert (Hh : ∀ l, header_at (slice 0 SB_AREA l) p
    = header_of_bytes (slice (SIZEOF_HEADER * p) SIZEOF_HEADER (slice 0 512 l))).
  { intros l. unfold header_at, SIZEOF_HEADER in *. rewrite !slice_slice by lia. reflexivity. }
  rewrite !Hh.
  assert (Hag : ∀ d, len d = len d0 → sector_agrees data_area d (0, slice 0 512 c) →
    slice (SIZEOF_HEADER * p) SIZEOF_HEADER (slice 0 512 c)
    = slice (SIZEOF_HEADER * p) SIZEOF_HEADER d).
  { intros d Hld (_ & _ & Hlx & Ha). cbn [fst snd] in *. unfold SECTOR_SIZE in *.
    unfold SIZEOF_HEADER in *. apply list_eq_len; rewrite !len_slice by lia; [reflexivity|].
    intros i Hi. rewrite (lookup_slice _ _ (slice 0 512 c)), (lookup_slice _ _ d) by lia.
    rewrite Ha; [reflexivity|lia|]. unfold data_area, SECTORS_TO_BYTES. lia. }
  destruct Hs as [-> | [Ha | (hb & Hn & Ha)]]; [by left| |].
  - left. rewrite (Hag d0 eq_refl Ha). unfold SIZEOF_HEADER in *. by rewrite slice_slice by lia.
  - right. exists hb. split; [exact Hn|]. rewrite (Hag _ (len_with_header hb Hn) Ha).
    unfold with_header. destruct Hn. f_equal. rewrite <- nh_len0. apply slice_splice_same; lia.
Qed.

(** The old version can be read after the crash, and the device is still
    formatted. *)
Lemma crash_lookup old D :
  old ≠ new → h_sb_version (header_at (slice 0 SB_AREA d0) p) ≠ old →
  bytes_ok d0 → lookup_sb (slice 0 SB_AREA d0) old = Ok D →
  lookup_sb (slice 0 SB_AREA c) old = Ok D.
Proof using All.
  intros Hne Hv Hb (q & Hq & Hh & ->)%lookup_holds.
  assert (q ≠ p) by (intros ->; by apply holds_version in Hh).
  destruct (crash_other q Hq ltac:(done)) as [Hhq Hdq].
  assert (Hwf : header_wf (header_at (slice 0 SB_AREA d0) q)).
  { pose proof sb_sizes. apply header_at_wf; [by apply bytes_ok_slice|apply len_slice; lia|done]. }
  pose proof (hw_size _ Hwf) as Hsz. unfold fits in Hsz.
  destruct (holds_same _ _ old q Hq Hhq Hdq ltac:(lia)) as [Hs Hd]. rewrite <- (Hd Hh).
  apply lookup_at; [done|congruence|]. intros p' Hp' Hne'. apply version_differs.
  assert (p' = p) as -> by (destruct Hp' as [-> | ->], Hq as [-> | ->], Hp as [-> | ->]; congruence).
  destruct crash_header as [-> | (hb & [] & ->)]; congruence.
Qed.

Lemma crash_formatted : formatted (slice 0 SB_AREA d0) → formatted (slice 0 SB_AREA c).
Proof using All.
  intros Hf i Hi. destruct (decide (i = p)) as [->|Hne].
  - destruct crash_header as [-> | (hb & [] & ->)]; [by apply Hf|done].
  - rewrite (proj1 (crash_other i Hi Hne)). by apply Hf.
Qed.
End sent.

(** *** The write itself *)

Lemma agrees_nowhere M d0 s : sector_agrees nowhere d0 s → sector_agrees M d0 s.
Proof.
  intros (H1 & H2 & H3 & H). refine (conj H1 (conj H2 (conj H3 _))).
  intros i Hi _. apply H; [exact Hi|intros []].
Qed.

(** From a state where nothing changed, the data area may be written. *)
Lemma sb_ok_weaken M d0 P w : sb_ok nowhere d0 P w → sb_ok M d0 P w.
Proof.
  intros [[Hdev Hca Hlim Hofs Hlog Hv] Hn Hs]. split; [|exact Hn|exact Hs].
  split; [exact Hdev|exact Hca|exact Hlim|exact Hofs|exact Hlog|].
  eapply agree_out_weaken; [|exact Hv]. intros i [].
Qed.

(** *** Headers *)

Section header_write.
Context (M : Z → Prop) (d0 : list Z) (P : Z * list Z → Prop).
Context (HP : ∀ s, sector_agrees M d0 s → P s).
Local Abbreviation rrel := (raw_reliable raw_lens).
Local Abbreviation area := (raw_bytes raw_lens SB_AREA).
Local Abbreviation RW := STREAM_ACCESS_RW.

Lemma header_in_sector i :
  position_ok i → (SIZEOF_HEADER * i) mod SECTOR_SIZE + SIZEOF_HEADER <= SECTOR_SIZE.
Proof using. intros [-> | ->]; vm_compute; discriminate. Qed.

Lemma sb_ok_raw d w c :
  sb_ok M d0 P w → raw_ok SB_AREA M d P c → sb_ok M d P (put raw_lens c w).
Proof using.
  intros [_ Hn Hs] Hc. split; [exact Hc| |]; intros i Hi;
    [specialize (Hn i Hi)|specialize (Hs i Hi)]; destruct Hi as [-> | ->]; assumption.
Qed.

(** The header of position [i] is replaced as a whole. *)
Lemma write_sb_header_ok s w h :
  streams_ok RW s → sb_ok M d0 P w → position_ok (h_position h) → header_wf h →
  let d1 := splice (SIZEOF_HEADER * h_position h) (header_bytes h) d0 in
  ∃ w' r, write_sb_header s w h = Some (w', r) ∧ (rrel w → rrel w') ∧
    match r with
    | Ok _ => sb_ok M d1 P w' ∧ area w' = splice (SIZEOF_HEADER * h_position h) (header_bytes h) (area w)
    | Err _ => ¬ rrel w ∧ sb_ok M d0 P w'
    end.
Proof using HP.
  intros Hs Hw Hi Hwf d1. unfold write_sb_header. rewrite (so_raw _ _ Hs).
  pose proof (header_range _ Hi) as Hr. assert (0 < SIZEOF_HEADER) by done. pose proof sb_sizes.
  rewrite (Z.mul_comm (h_position h)). rewrite u64_id by (unfold fits; lia). cbv zeta.
  pose proof (len_header_bytes h (proj2 (hw_reserved2 _ Hwf))) as Hlh.
  pose proof (header_bytes_ok h (proj1 (hw_reserved2 _ Hwf))) as Hbh.
  destruct (raw_seek_step M d0 P HP RW eq_refl w (SIZEOF_HEADER * h_position h) Hw)
    as (w1 & r1 & -> & Hw1 & Hb1 & Hrel1 & Hr1); [lia|]. returned.
  destruct r1 as [[]|e]; [|exact (ex_intro _ w1 (ex_intro _ _ (conj eq_refl (conj Hrel1 (conj Hr1 Hw1)))))].
  unfold stream_write, the_raw, raw. cbn [may_write access negb].
  rewrite Hlh. cbn [Z.eqb SIZEOF_HEADER]. cbn [write_op ops blockdev_stream_ops]. returned.
  unfold at_ctx. pose proof (sb_inv _ _ _ _ Hw1) as Hi1. unfold raw_inv in Hi1.
  unfold raw_pos in Hr1. cbn [get raw_lens] in Hi1, Hr1 |- *.
  destruct (write_in_sector_ok SB_AREA M d0 P HP (w_raw w1) (header_bytes h) Hi1 Hbh)
    as (c2 & r2 & -> & Hrel2 & Hr2);
    [rewrite Hlh; done|rewrite Hlh, Hr1; exact (header_in_sector _ Hi)|rewrite Hlh, Hr1; lia|].
  do 2 returned. rewrite Hr1, Hlh in Hr2. destruct r2 as [n|e].
  2:{ destruct Hr2 as (Hnr & Hi2 & _). refine (ex_intro _ _ (ex_intro _ _ (conj eq_refl (conj _ (conj _ _))))).
      - exact (λ H', Hrel2 (Hrel1 H')).
      - exact (λ H', Hnr (Hrel1 H')).
      - exact (sb_ok_raw _ _ _ Hw1 Hi2). }
  destruct Hr2 as (-> & Hi2 & Hv2 & _). rewrite Z.eqb_refl. cbn [negb].
  refine (ex_intro _ _ (ex_intro _ _ (conj eq_refl (conj (λ H', Hrel2 (Hrel1 H')) (conj (sb_ok_raw _ _ _ Hw1 Hi2) _))))).
  rewrite <- Hb1. unfold raw_bytes. cbn [get put raw_lens w_raw]. rewrite Hv2.
  pose proof (len_view _ _ _ _ _ Hi1) as Hlv. destruct Hi1 as [_ [] Hlim _ _ _].
  apply prefix_splice; lia.
Qed.

(** The flush leaves on the disk what was seen. *)
Lemma raw_flush_step w :
  sb_ok M d0 P w →
  ∃ w' r, stream_flush (the_raw RW) w = Some (w', r) ∧ sb_ok M d0 P w' ∧ area w' = area w ∧
    (rrel w → rrel w') ∧
    match r with
    | Ok _ => disk (ctx_bdev (w_raw w')) = view (w_raw w')
    | Err _ => ¬ rrel w
    end.
Proof using HP.
  intros Hw. unfold stream_flush, the_raw, raw.
  cbn [may_write access negb flush_op ops blockdev_stream_ops]. unfold at_ctx. cbn [get raw_lens].
  pose proof (sb_inv _ _ _ _ Hw) as Hi. unfold raw_inv in Hi. cbn [get raw_lens] in Hi.
  destruct (flush_ok SB_AREA M d0 P HP (w_raw w) Hi) as (c & r & -> & [Hc Hv _ Hrel] & Hr). returned.
  refine (ex_intro _ _ (ex_intro _ r (conj eq_refl (conj (sb_ok_raw _ _ _ Hw Hc) (conj _ (conj Hrel _)))))).
  - unfold raw_bytes. cbn [get put raw_lens w_raw]. by rewrite Hv.
  - destruct r as [[]|e]; [|exact Hr]. symmetry. exact (view_clean _ _ _ _ c Hc Hr).
Qed.
End header_write.

Section saving.
Context (d0 : list Z) (p new : Z) (Hp : position_ok p) (Hd0 : SB_AREA <= len d0).
Context (Hnew : fits 64 new).
Local Abbreviation Msave := (data_area p).
Local Abbreviation Psave := (sent d0 p new).
Local Abbreviation sb_ok := (sb_ok Msave d0 Psave).
Local Abbreviation rrel := (raw_reliable raw_lens).
Local Abbreviation B := (slice 0 SB_AREA d0).
Local Abbreviation RW := STREAM_ACCESS_RW.
Local Abbreviation nbytes := (narrowed_bytes (raw_bytes raw_lens SB_AREA) (data_start p) (data_start p + PER_SB - 1)).
Local Abbreviation npos := (narrowed_pos (data_lens p) (data_start p)).

Lemma HPsave s : sector_agrees Msave d0 s → Psave s.
Proof using. by left. Qed.

(** [D] was written in the data area. *)
Record written (D : list Z) (w : sb_world) : Prop := {
  wr_ok : sb_ok w;
  wr_pos : npos w = len D;
  wr_sum : fed (get (sum_lens p) w) D;
  wr_data : slice 0 (len D) (nbytes w) = D;
  wr_fits : len D <= PER_SB
}.

Lemma written_ninv D w :
  written D w → narrowed_ok (data_lens p) (raw_inv raw_lens SB_AREA Msave d0 Psave)
    (raw_bytes raw_lens SB_AREA) (data_start p) (data_start p + PER_SB - 1) w.
Proof using Hp. intros [Hw _ _ _ _]. exact (proj1 (sb_cinv _ _ _ w p Hp Hw)). Qed.

Lemma write_step D w b :
  written D w → bytes_ok b → len b < 2 ^ 62 →
  ∃ w' r, stream_write (the_sum RW p) w b = Some (w', r) ∧ sb_ok w' ∧ (rrel w → rrel w') ∧
    match r with
    | Ok n => n = len b ∧ written (D ++ b) w'
    | Err _ => ¬ rrel w ∨ PER_SB < len D + len b
    end.
Proof using Hp.
  intros Hwr Hb Hl. pose proof (written_ninv D w Hwr) as Hni.
  destruct Hwr as [Hw Hpos Hsum Hdata Hfits]. pose proof (len_nonneg b). pose proof (len_nonneg D).
  pose proof (nbytes_len _ _ _ w p Hni) as Hnl.
  destruct (Z.leb_spec (len D + len b) PER_SB).
  - destruct (sum_write_step Msave d0 Psave HPsave RW eq_refl w p b D eq_refl Hp (λ k H, H) Hw Hsum Hb)
      as (w' & r & E & Hw' & Hrel & Hr); [lia|].
    refine (ex_intro _ w' (ex_intro _ r (conj E (conj Hw' (conj Hrel _))))).
    destruct r as [n|e]; [|by left]. destruct Hr as (-> & Hb' & Hp' & Hf').
    split; [reflexivity|]. split; [exact Hw'|rewrite len_app; lia|exact Hf'| |rewrite len_app; lia].
    rewrite Hb', len_app, slice_app, Hpos by lia.
    rewrite slice_splice_out by lia. rewrite Hdata, Z.add_0_l. f_equal. apply slice_splice_same; lia.
  - destruct (sum_full_step Msave d0 Psave HPsave RW eq_refl w p b eq_refl Hp Hw Hl)
      as (w' & e & E & Hw' & Hrel); [lia|lia|].
    refine (ex_intro _ w' (ex_intro _ _ (conj E (conj Hw' (conj Hrel _))))). right. lia.
Qed.

Lemma write_all_ok D w bufs :
  written D w → Forall bytes_ok bufs → Forall (λ b, len b < 2 ^ 62) bufs →
  ∃ w' r, write_all (the_sum RW p) w bufs = Some (w', r) ∧ sb_ok w' ∧ (rrel w → rrel w') ∧
    match r with
    | Ok _ => written (D ++ concat bufs) w'
    | Err _ => ¬ rrel w ∨ PER_SB < len D + len (concat bufs)
    end.
Proof using Hp.
  intros Hwr Hb. revert D w Hwr. induction Hb as [|b bufs Hb Hbs IH]; intros D w Hwr Hl.
  { refine (ex_intro _ w (ex_intro _ _ (conj eq_refl (conj (wr_ok _ _ Hwr) (conj (λ H, H) _))))).
    simpl. by rewrite app_nil_r. }
  apply Forall_cons in Hl as [Hl1 Hl2].
  destruct (write_step D w b Hwr Hb Hl1) as (w1 & r1 & E1 & Hw1 & Hrel1 & Hr1).
  cbn [write_all concat]. rewrite E1. returned. rewrite len_app.
  pose proof (len_nonneg (concat bufs)).
  destruct r1 as [n|e].
  2:{ refine (ex_intro _ w1 (ex_intro _ _ (conj eq_refl (conj Hw1 (conj Hrel1 _))))).
      destruct Hr1; [by left|right; lia]. }
  destruct Hr1 as [-> Hwr1]. rewrite Z.eqb_refl. cbn [negb].
  destruct (IH (D ++ b) w1 Hwr1 Hl2) as (w2 & r2 & -> & Hw2 & Hrel2 & Hr2).
  refine (ex_intro _ w2 (ex_intro _ _ (conj eq_refl (conj Hw2 (conj (λ H, Hrel2 (Hrel1 H)) _))))).
  destruct r2 as [[]|e]; [by rewrite app_assoc|]. rewrite len_app in Hr2.
  destruct Hr2; [left; auto|right; lia].
Qed.

(** *** The header *)

Context (Hb0 : bytes_ok d0) (Hfmt : formatted B).

(** The header of a superblock that holds [D]. *)
Definition final_header (D : list Z) : superblock_header_t :=
  let h := header_at B p in
  mk_header (h_magic h) (h_format h) (h_position h) (h_reserved1 h) new (h_data_max_size h)
    (h_data_offset h) (len D) (checksum_of D) (h_reserved2 h).

Lemma checksum_of_fits D : fits 16 (checksum_of D).
Proof using.
  unfold checksum_of, fits. destruct (bool_decide (D = [])); [lia|].
  pose proof (fold16_bounds (u32 (word_sum false D)) (proj1 (u32_fits _))). lia.
Qed.

Lemma final_header_wf D : len D <= PER_SB → header_wf (final_header D).
Proof using Hp Hd0 Hnew Hb0.
  intros HD. pose proof sb_sizes. pose proof (len_nonneg D).
  assert (Hwf : header_wf (header_at B p)).
  { apply header_at_wf; [by apply bytes_ok_slice|apply len_slice; lia|exact Hp]. }
  destruct Hwf. split; cbn [final_header h_magic h_format h_position h_reserved1 h_sb_version
    h_data_max_size h_data_offset h_data_size h_checksum h_reserved2]; try assumption.
  - unfold fits. lia.
  - apply checksum_of_fits.
Qed.

Lemma final_header_new D : len D <= PER_SB → new_header p new (header_bytes (final_header D)).
Proof using All.
  intros HD. pose proof (final_header_wf D HD) as Hwf. pose proof (hw_reserved2 _ Hwf) as [Hr Hl].
  destruct (Hfmt p Hp) as [Hc Hm].
  split; rewrite ?header_roundtrip by exact Hwf;
    [by apply header_bytes_ok|by apply len_header_bytes|reflexivity| |exact Hm].
  revert Hc. unfold check_sb_header.
  cbn [final_header h_magic h_format h_position h_reserved1 h_data_max_size h_data_size h_reserved2].
  destruct (h_magic (header_at B p) =? _); cbn [negb]; [|done].
  destruct (h_format (header_at B p) =? _); cbn [negb]; [|done].
  destruct (h_position (header_at B p) =? _); cbn [negb]; [|done].
  destruct (h_reserved1 (header_at B p) =? _); cbn [negb]; [|done].
  rewrite Hm, (proj2 (Z.ltb_ge PER_SB (len D))) by exact HD.
  destruct (PER_SB <? _); [done|]. exact (λ H, H).
Qed.

Lemma header_position : h_position (header_at B p) = p.
Proof using Hp Hfmt.
  destruct (Hfmt p Hp) as [Hc _]. revert Hc. unfold check_sb_header.
  destruct (h_magic (header_at B p) =? _), (h_format (header_at B p) =? _); cbn [negb]; try done.
  destruct (Z.eqb_spec (h_position (header_at B p)) p); [done|done].
Qed.

(** The disk once the header is flushed. *)
Record saved (D d : list Z) : Prop := {
  sv_agree : agree_out Msave (with_header d0 p (header_bytes (final_header D))) d;
  sv_data : slice 0 (len D) (slice (data_start p) PER_SB (slice 0 SB_AREA d)) = D;
  sv_bytes : bytes_ok d
}.

Lemma end_write_ok D w s :
  streams_ok RW s → written D w →
  ∃ w' r, vrt_rdev_end_superblock_write s w (mk_write_op (header_at B p) new p) = Some (w', r) ∧
    Forall Psave (b_log (ctx_bdev (w_raw w'))) ∧
    match r with Ok _ => saved D (disk (ctx_bdev (w_raw w'))) | Err _ => ¬ rrel w end.
Proof using All.
  intros Hs Hwr. pose proof (written_ninv D w Hwr) as Hni. destruct Hwr as [Hw Hpos Hsum Hdata Hfits].
  unfold vrt_rdev_end_superblock_write, checksum_stream_get_value, checksum_stream_get_size,
    checksum_get_size. cbn [wo_position wo_header wo_new_sb_version].
  pose proof sb_sizes as Hss. pose proof (len_nonneg D).
  rewrite (checksum_value_ok _ _ Hsum) by (fold (len D); unfold fits; lia). returned.
  rewrite (fd_size _ _ Hsum). fold (len D). rewrite u64_id by (unfold fits; lia).
  fold (final_header D).
  pose proof (final_header_wf D Hfits) as Hwf. pose proof (final_header_new D Hfits) as Hnh.
  assert (Epos : h_position (final_header D) = p) by exact header_position.
  destruct (write_sb_header_ok Msave d0 Psave HPsave s w (final_header D) Hs Hw
    (eq_ind_r position_ok Hp Epos) Hwf) as (w1 & r1 & -> & Hrel1 & Hr1). returned.
  rewrite Epos in Hr1. destruct r1 as [[]|e]; destruct Hr1 as [Hr1 Hw1].
  2:{ refine (ex_intro _ w1 (ex_intro _ _ (conj eq_refl (conj _ Hr1)))).
      exact (rw_log _ _ _ _ _ (sb_inv _ _ _ _ Hw1)). }
  rewrite (so_raw _ _ Hs).
  set (hb := header_bytes (final_header D)) in *. pose proof (nh_len _ _ _ Hnh) as Hlh.
  assert (HP2 : ∀ s, sector_agrees Msave (with_header d0 p hb) s → Psave s).
  { intros s' Hs'. right. exists hb. split; [exact Hnh|exact Hs']. }
  destruct (raw_flush_step Msave (with_header d0 p hb) Psave HP2 w1 Hr1)
    as (w2 & r2 & -> & Hw2 & Hb2 & _ & Hr2).
  pose proof (sb_inv _ _ _ _ Hw2) as Hi2. unfold raw_inv in Hi2. cbn [get raw_lens] in Hi2.
  refine (ex_intro _ w2 (ex_intro _ _ (conj eq_refl (conj (rw_log _ _ _ _ _ Hi2) _)))).
  destruct r2 as [[]|e]; [|exact (λ H', Hr2 (Hrel1 H'))].
  split; [rewrite Hr2; exact (rw_view _ _ _ _ _ Hi2)| |exact (dv_bytes _ (rw_dev _ _ _ _ _ Hi2))].
  rewrite Hr2. change (slice 0 SB_AREA (view (w_raw w2))) with (raw_bytes raw_lens SB_AREA w2).
  rewrite Hb2, Hw1. pose proof (data_start_bounds p Hp). pose proof (header_range p Hp).
  pose proof (area_len Msave d0 Psave w Hw) as Hla.
  rewrite slice_splice_out by lia. rewrite nbytes_area in Hdata. exact Hdata.
Qed.

(** *** The whole operation *)

Context (old : Z).

Lemma begin_write_ok s w :
  streams_ok RW s → Superblock.sb_ok nowhere d0 Psave w →
  write_position (header_at B 0, header_at B 1) old = Some p →
  ∃ w' r, vrt_rdev_begin_superblock_write s w old new = Some (w', r) ∧ sb_ok w' ∧ (rrel w → rrel w') ∧
    match r with
    | Ok op => op = mk_write_op (header_at B p) new p ∧ written [] w'
    | Err _ => ¬ rrel w
    end.
Proof using Hp Hd0.
  intros Hs Hw Hwp. unfold vrt_rdev_begin_superblock_write.
  assert (HPn : ∀ s, sector_agrees nowhere d0 s → Psave s).
  { intros s' Hs'. left. exact (agrees_nowhere _ _ _ Hs'). }
  destruct (read_sb_headers_ok nowhere d0 Psave HPn RW eq_refl s w Hs Hw)
    as (w1 & r1 & -> & Hw1 & _ & Hrel1 & Hr1). returned.
  apply sb_ok_weaken with (M := Msave) in Hw1 as Hw1'.
  destruct r1 as [hs|e].
  2:{ refine (ex_intro _ w1 (ex_intro _ _ (conj eq_refl (conj Hw1' (conj Hrel1 Hr1))))). }
  rewrite (area_const d0 Psave w Hw) in Hr1. subst hs. rewrite Hwp. cbn [fst snd].
  rewrite (so_sum _ _ Hs p Hp).
  destruct (sum_rewind_step Msave d0 Psave HPsave RW eq_refl w1 p Hp Hw1')
    as (w2 & r2 & -> & Hw2 & Hb2 & Hrel2 & Hfed & Hr2). returned.
  refine (ex_intro _ w2 (ex_intro _ _ (conj eq_refl (conj Hw2 (conj (λ H, Hrel2 (Hrel1 H)) _))))).
  destruct r2 as [[]|e]; [|exact (λ H, Hr2 (Hrel1 H))]. split.
  - destruct Hp as [-> | ->]; reflexivity.
  - split; [exact Hw2|exact Hr2|exact Hfed| |].
    + apply slice_0.
    + pose proof sb_sizes. change (0 <= PER_SB). lia.
Qed.

Lemma save_at_ok s w bufs :
  streams_ok RW s → Superblock.sb_ok nowhere d0 Psave w →
  write_position (header_at B 0, header_at B 1) old = Some p →
  Forall bytes_ok bufs → Forall (λ b, len b < 2 ^ 62) bufs →
  ∃ w' r, save_superblock s w old new bufs = Some (w', r) ∧
    Forall Psave (b_log (ctx_bdev (w_raw w'))) ∧
    match r with
    | Ok _ => saved (concat bufs) (disk (ctx_bdev (w_raw w'))) ∧ len (concat bufs) <= PER_SB
    | Err _ => ¬ rrel w ∨ PER_SB < len (concat bufs)
    end.
Proof using All.
  intros Hs Hw Hwp Hby Hsz. unfold save_superblock.
  destruct (begin_write_ok s w Hs Hw Hwp) as (w1 & r1 & -> & Hw1 & Hrel1 & Hr1). returned.
  destruct r1 as [op|e].
  2:{ refine (ex_intro _ w1 (ex_intro _ _ (conj eq_refl (conj _ (or_introl Hr1))))).
      exact (rw_log _ _ _ _ _ (sb_inv _ _ _ _ Hw1)). }
  destruct Hr1 as [-> Hwr]. cbn [wo_position]. rewrite (so_sum _ _ Hs p Hp).
  destruct (write_all_ok [] w1 bufs Hwr Hby Hsz) as (w2 & r2 & -> & Hw2 & Hrel2 & Hr2). returned.
  destruct r2 as [[]|e].
  2:{ refine (ex_intro _ w2 (ex_intro _ _ (conj eq_refl (conj _ _)))).
      - exact (rw_log _ _ _ _ _ (sb_inv _ _ _ _ Hw2)).
      - destruct Hr2 as [Hr2|Hr2]; [left; exact (λ H, Hr2 (Hrel1 H))|right; exact Hr2]. }
  change ([] ++ concat bufs) with (concat bufs) in Hr2.
  destruct (end_write_ok (concat bufs) w2 s Hs Hr2) as (w3 & r3 & E & Hlog & Hr3).
  refine (ex_intro _ w3 (ex_intro _ r3 (conj E (conj Hlog _)))).
  destruct r3 as [[]|e].
  - split; [exact Hr3|exact (wr_fits _ _ Hr2)].
  - left. exact (λ H, Hr3 (Hrel2 (Hrel1 H))).
Qed.

(** *** What the disk holds afterwards *)

Lemma saved_crash D d :
  saved D d → len D <= PER_SB → ∃ log, Forall Psave log ∧ crash_disk d0 log d.
Proof using Hp Hd0 Hnew Hb0 Hfmt.
  intros [[Hl Hag] _ _] HD. pose proof (final_header_new D HD) as Hnh.
  rewrite (len_with_header d0 p new Hp Hd0 _ Hnh) in Hl.
  set (n := Z.to_nat (BYTES_TO_SECTORS (len d0))).
  exists (map (λ s : nat, (Z.of_nat s, slice (SECTORS_TO_BYTES (Z.of_nat s)) SECTOR_SIZE d)) (seq 0 n)).
  split.
  - apply Forall_forall. intros x (s & -> & Hin)%list_elem_of_fmap. apply elem_of_seq in Hin.
    right. eexists. split; [exact Hnh|].
    assert (Hb : SECTORS_TO_BYTES (Z.of_nat s) + SECTOR_SIZE <= len d0).
    { unfold SECTORS_TO_BYTES, n, BYTES_TO_SECTORS, SECTOR_SIZE in *.
      pose proof (Z.div_mod (len d0) 512 ltac:(lia)).
      pose proof (Z.mod_pos_bound (len d0) 512 ltac:(lia)). lia. }
    assert (H0 : 0 <= SECTORS_TO_BYTES (Z.of_nat s)) by (unfold SECTORS_TO_BYTES, SECTOR_SIZE; lia).
    unfold sector_agrees. cbn [fst snd]. unfold SECTOR_SIZE in *.
    rewrite (len_with_header d0 p new Hp Hd0 _ Hnh).
    refine (conj (Nat2Z.is_nonneg s) (conj Hb (conj _ _))); [apply len_slice; lia|].
    intros i Hi Hm. rewrite lookup_slice by lia. apply Hag.
    unfold data_area in *. lia.
  - split; [exact Hl|]. intros s Hs Hr. right.
    apply list_elem_of_fmap. exists (Z.to_nat s). rewrite Z2Nat.id by exact Hs. split; [reflexivity|].
    apply elem_of_seq. unfold n, BYTES_TO_SECTORS, SECTORS_TO_BYTES, SECTOR_SIZE in *.
    pose proof (Z.div_le_mono (s * 512 + 512) (len d0) 512 ltac:(lia) ltac:(lia)) as Hd.
    replace (s * 512 + 512) with ((s + 1) * 512) in Hd by lia. rewrite Z.div_mul in Hd by lia. lia.
Qed.

Lemma saved_header D d :
  saved D d → len D <= PER_SB → header_at (slice 0 SB_AREA d) p = final_header D.
Proof using Hp Hd0 Hnew Hb0 Hfmt.
  intros [Hag _ _] HD. pose proof (final_header_new D HD) as Hnh.
  pose proof (len_with_header d0 p new Hp Hd0 _ Hnh) as Hl. pose proof (nh_len _ _ _ Hnh) as Hlh.
  pose proof (header_range p Hp) as Hr. pose proof sb_sizes. pose proof (data_start_bounds p Hp).
  unfold header_at. unfold SIZEOF_HEADER in Hr, Hlh.
  rewrite slice_slice by (unfold SIZEOF_HEADER; lia). rewrite Z.add_0_l.
  rewrite (agree_out_slice Msave _ _ (with_header d0 p (header_bytes (final_header D))) d)
    by (exact Hag || unfold data_area, SIZEOF_HEADER; lia).
  unfold with_header. set (o := SIZEOF_HEADER * p) in *.
  rewrite <- (nh_len _ _ _ Hnh). rewrite slice_splice_same by (unfold o, SIZEOF_HEADER; lia).
  apply header_roundtrip. by apply final_header_wf.
Qed.

Lemma saved_lookup D d :
  saved D d → len D <= PER_SB → len d0 mod SECTOR_SIZE = 0 → old ≠ new →
  write_position (header_at B 0, header_at B 1) old = Some p →
  lookup_sb (slice 0 SB_AREA d) new = Ok D.
Proof using All.
  intros Hsv HD Hsec Hne Hwp. pose proof (saved_header D d Hsv HD) as Hh.
  destruct (saved_crash D d Hsv HD) as (log & Hlog & Hc).
  pose proof (sv_data _ _ Hsv) as Hd. pose proof sb_sizes. pose proof (len_nonneg D).
  pose proof (data_start_bounds p Hp). rewrite slice_slice, Z.add_0_r in Hd by lia.
  assert (Ed : data_of (slice 0 SB_AREA d) p = D)
    by (unfold data_of; rewrite Hh; cbn [final_header h_data_size]; exact Hd).
  assert (Hhold : holds (slice 0 SB_AREA d) new p = true).
  { unfold holds, data_matches. rewrite Hh. pose proof (nh_check _ _ _ (final_header_new D HD)) as Hck.
    rewrite header_roundtrip in Hck by (by apply final_header_wf). rewrite Hck.
    cbn [is_ok andb final_header h_data_size h_checksum h_sb_version].
    rewrite Hd, !Z.eqb_refl, (proj2 (Z.leb_le _ _) HD). reflexivity. }
  rewrite <- Ed. unfold lookup_sb. destruct Hp as [E|E]; rewrite E in *; [by rewrite Hhold|].
  assert (Hn0 : holds (slice 0 SB_AREA d) new 0 = false); [|by rewrite Hn0, Hhold].
  apply version_differs. apply write_position_kept in Hwp.
  rewrite (proj1 (crash_other d0 1 new (or_intror eq_refl) Hd0 log d Hlog Hc Hsec 0 (or_introl eq_refl) ltac:(done))).
  cbn [fst] in Hwp. destruct Hwp as [Hck|Hv]; [|congruence].
  rewrite (proj1 (Hfmt 0 (or_introl eq_refl))) in Hck. discriminate Hck.
Qed.
End saving.

(** *** Opening *)

Lemma open_ok b garbage w0 P :
  device_ok b → b_log b = [] → SB_AREA + CACHE_SIZE <= len (disk b) →
  ∃ w s, vrt_rdev_open_superblock_streams (λ _, true) garbage true (Some b) w0 = Some (w, Ok s) ∧
    streams_ok STREAM_ACCESS_RW s ∧ sb_ok nowhere (disk b) P w ∧ w_raw w = mk_bctx b 0 (mk_cache garbage CACHE_SIZE 0 false false).
Proof.
  intros Hdev Hlog Hlen. unfold vrt_rdev_open_superblock_streams, blockdevice_stream_on.
  rewrite (bool_decide_eq_false_2 (b_access b = BLOCKDEVICE_ACCESS_READ)) by exact (dv_access _ Hdev).
  cbn [may_write andb negb orb stream_open]. unfold open_position.
  rewrite (data_range 0 (or_introl eq_refl)), (data_range 1 (or_intror eq_refl)).
  refine (ex_intro _ _ (ex_intro _ _ (conj eq_refl _))).
  assert (Hraw : raw_ok SB_AREA nowhere (disk b) P (mk_bctx b 0 (mk_cache garbage CACHE_SIZE 0 false false))).
  { pose proof sb_sizes. split; cbn [ctx_bdev ctx_cache ctx_offset c_size];
      [exact Hdev| |lia|lia|rewrite Hlog; constructor|reflexivity].
    split; cbn [c_size c_valid c_dirty]; done. }
  split; [|split].
  - split; [reflexivity| |]; intros i [-> | ->]; reflexivity.
  - pose proof sb_sizes. split; [exact Hraw| |].
    + intros i [-> | ->]; split; try reflexivity;
        match goal with |- ?x <= _ <= ?y => change (x <= x <= y) end; lia.
    + intros i [-> | ->]; exists []; apply fed_reset.
  - reflexivity.
Qed.

(** ** Contents of a device *)

(** A device that is opened, and a superblock read from it or written to it. *)
Definition reload (garbage : list Z) (w0 : sb_world) (b : blockdevice_t) (v : Z)
    : option (result (list Z)) :=
  '(w, r) ← vrt_rdev_open_superblock_streams (λ _, true) garbage true (Some b) w0;
  match r with
  | Err e => Some (Err e)
  | Ok s => '(_, d) ← load_superblock s w v; Some d
  end.

Definition store (garbage : list Z) (w0 : sb_world) (b : blockdevice_t) (old new : Z)
    (bufs : list (list Z)) : option (blockdevice_t * result unit) :=
  '(w, r) ← vrt_rdev_open_superblock_streams (λ _, true) garbage true (Some b) w0;
  match r with
  | Err e => Some (ctx_bdev (w_raw w), Err e)
  | Ok s => '(w, r) ← save_superblock s w old new bufs; Some (ctx_bdev (w_raw w), r)
  end.

Definition format (garbage : list Z) (w0 : sb_world) (b : blockdevice_t)
    : option (blockdevice_t * result unit) :=
  '(w, r) ← vrt_rdev_open_superblock_streams (λ _, true) garbage true (Some b) w0;
  match r with
  | Err e => Some (ctx_bdev (w_raw w), Err e)
  | Ok s => '(w, r) ← vrt_rdev_create_superblocks s w; Some (ctx_bdev (w_raw w), r)
  end.

(** A device with contents [d] that does every I/O. *)
Definition device (d : list Z) : blockdevice_t :=
  mk_bdev d BLOCKDEVICE_ACCESS_RW (λ _, IO_DONE) 0 [].

(** A device that can hold superblocks. *)
Record rdev_ok (b : blockdevice_t) : Prop := {
  rd_ok : device_ok b;
  rd_log : b_log b = [];
  rd_len : SB_AREA + CACHE_SIZE <= len (disk b)
}.

Local Abbreviation sb_area_of d := (slice 0 SB_AREA d).

Lemma reload_ok garbage w0 b v :
  rdev_ok b → (∀ n, b_io b n = IO_DONE) → reload garbage w0 b v = Some (lookup_sb (sb_area_of (disk b)) v).
Proof.
  intros [Hdev Hlog Hlen] Hio. unfold reload.
  destruct (open_ok b garbage w0 (λ _, True) Hdev Hlog Hlen) as (w & s & -> & Hs & Hw & Hr). returned.
  assert (Hrel : raw_reliable raw_lens w).
  { unfold raw_reliable, reliable. cbn [get raw_lens]. rewrite Hr. exact Hio. }
  destruct (load_superblock_ok (disk b) (λ _, True) (λ _ _, I) STREAM_ACCESS_RW eq_refl s w v Hs Hw Hrel)
    as (w' & -> & _ & _). returned. reflexivity.
Qed.

Lemma len_disk_pos b : rdev_ok b → SB_AREA <= len (disk b).
Proof. intros []. assert (0 <= CACHE_SIZE) by done. lia. Qed.

(** The outcome of a save on a formatted device, whatever its I/Os do. *)
Lemma store_ok garbage w0 b old new bufs :
  rdev_ok b → formatted (sb_area_of (disk b)) → fits 64 new → 
  Forall bytes_ok bufs → Forall (λ l, len l < 2 ^ 62) bufs →
  ∃ b' r, store garbage w0 b old new bufs = Some (b', r) ∧
    match write_position (header_at (sb_area_of (disk b)) 0, header_at (sb_area_of (disk b)) 1) old with
    | Some p => Forall (sent (disk b) p new) (b_log b') ∧
        match r with
        | Ok _ => saved (disk b) p new (concat bufs) (disk b') ∧ len (concat bufs) <= PER_SB
        | Err _ => ¬ (∀ n, b_io b n = IO_DONE) ∨ PER_SB < len (concat bufs)
        end
    | None => Forall (sector_agrees nowhere (disk b)) (b_log b') ∧ r ≠ Ok tt
    end.
Proof.
  intros Hb Hf Hnew Hby Hsz. pose proof (len_disk_pos b Hb) as Hd0. destruct Hb as [Hdev Hlog Hlen].
  unfold store. destruct (write_position _ _) as [p|] eqn:Hwp.
  - destruct (open_ok b garbage w0 (sent (disk b) p new) Hdev Hlog Hlen)
      as (w & s & -> & Hs & Hw & Hr). returned.
    assert (Hp : position_ok p) by (by eapply write_position_ok).
    destruct (save_at_ok (disk b) p new Hp Hd0 Hnew (dv_bytes _ Hdev) Hf old s w bufs Hs Hw Hwp Hby Hsz)
      as (w' & r & -> & Hl & Hres). returned.
    refine (ex_intro _ _ (ex_intro _ r (conj eq_refl (conj Hl _)))).
    destruct r as [[]|e]; [exact Hres|]. unfold raw_reliable, reliable in Hres. cbn [get raw_lens] in Hres.
    rewrite Hr in Hres. exact Hres.
  - destruct (open_ok b garbage w0 (sector_agrees nowhere (disk b)) Hdev Hlog Hlen)
      as (w & s & -> & Hs & Hw & Hr). returned.
    unfold save_superblock, vrt_rdev_begin_superblock_write.
    destruct (read_sb_headers_ok nowhere (disk b) _ (λ s H, H) STREAM_ACCESS_RW eq_refl s w Hs Hw)
      as (w1 & r1 & -> & Hw1 & _ & _ & Hr1). returned.
    pose proof (rw_log _ _ _ _ _ (sb_inv _ _ _ _ Hw1)) as Hl. cbn [get raw_lens] in Hl.
    destruct r1 as [hs|e].
    2:{ do 2 returned. refine (ex_intro _ _ (ex_intro _ _ (conj eq_refl (conj Hl _)))). discriminate. }
    rewrite (area_const _ _ w Hw) in Hr1. subst hs. rewrite Hwp. do 2 returned.
    refine (ex_intro _ _ (ex_intro _ _ (conj eq_refl (conj Hl _)))). discriminate.
Qed.

Lemma initial_header_eq i :
  position_ok i →
  initial_header i = mk_header SUPERBLOCK_HEADER_MAGIC SUPERBLOCK_HEADER_FORMAT i 0 0 PER_SB
    (data_start i) 0 0 (replicate 6 0).
Proof.
  intros Hi. unfold initial_header. rewrite (data_range i Hi).
  f_equal. lia.
Qed.

Lemma initial_header_wf i : position_ok i → header_wf (initial_header i).
Proof.
  intros Hi. rewrite (initial_header_eq i Hi). pose proof sb_sizes. pose proof (data_start_bounds i Hi).
  split; cbn [h_magic h_format h_position h_reserved1 h_sb_version
    h_data_max_size h_data_offset h_data_size h_checksum h_reserved2].
  1-2: done. all: try (unfold fits; lia).
  - destruct Hi as [-> | ->]; unfold fits; lia.
  - split; [by repeat constructor|reflexivity].
Qed.

(** The bytes of the two headers. *)
Lemma header_at_splice i j h d :
  position_ok i → position_ok j → header_wf h → SB_AREA <= len d →
  header_at (sb_area_of (splice (SIZEOF_HEADER * i) (header_bytes h) d)) j
  = if i =? j then h else header_at (sb_area_of d) j.
Proof.
  intros Hi Hj Hh Hd. pose proof (header_range i Hi). pose proof (header_range j Hj). pose proof sb_sizes.
  pose proof (len_header_bytes h (proj2 (hw_reserved2 _ Hh))) as Hl. unfold header_at.
  rewrite !slice_slice by (unfold SIZEOF_HEADER in *; lia). rewrite !Z.add_0_l.
  destruct (Z.eqb_spec i j) as [<-|Hne].
  - rewrite <- Hl at 2. rewrite slice_splice_same by (unfold SIZEOF_HEADER in *; lia).
    by apply header_roundtrip.
  - f_equal. apply slice_splice_out; unfold SIZEOF_HEADER in *; lia.
Qed.

Lemma create_ok garbage w0 b :
  rdev_ok b →
  ∃ b' r, format garbage w0 b = Some (b', r) ∧
    match r with
    | Ok _ => device_ok b' ∧ len (disk b') = len (disk b) ∧
        ∀ i, position_ok i → header_at (sb_area_of (disk b')) i = initial_header i
    | Err _ => ¬ (∀ n, b_io b n = IO_DONE)
    end.
Proof.
  intros Hb. pose proof (len_disk_pos b Hb) as Hd0. destruct Hb as [Hdev Hlog Hlen]. unfold format.
  destruct (open_ok b garbage w0 (λ _, True) Hdev Hlog Hlen) as (w & s & -> & Hs & Hw & Hr). returned.
  assert (Hio : (∀ n, b_io b n = IO_DONE) → raw_reliable raw_lens w).
  { unfold raw_reliable, reliable. cbn [get raw_lens]. rewrite Hr. exact (λ H, H). }
  unfold vrt_rdev_create_superblocks.
  pose proof (initial_header_wf 0 (or_introl eq_refl)) as Hw0.
  pose proof (initial_header_wf 1 (or_intror eq_refl)) as Hw1.
  destruct (write_sb_header_ok nowhere (disk b) (λ _, True) (λ _ _, I) s w (initial_header 0) Hs Hw
    (or_introl eq_refl) Hw0) as (w1 & r1 & -> & Hrel1 & Hr1). returned.
  destruct r1 as [[]|e]; [|returned; exact (ex_intro _ _ (ex_intro _ _ (conj eq_refl (λ H, proj1 Hr1 (Hio H)))))].
  destruct Hr1 as [Hsb1 _].
  destruct (write_sb_header_ok nowhere _ (λ _, True) (λ _ _, I) s w1 (initial_header 1) Hs Hsb1
    (or_intror eq_refl) Hw1) as (w2 & r2 & -> & Hrel2 & Hr2). returned.
  destruct r2 as [[]|e]; [|returned; exact (ex_intro _ _ (ex_intro _ _ (conj eq_refl (λ H, proj1 Hr2 (Hrel1 (Hio H))))))].
  destruct Hr2 as [Hsb2 _]. rewrite (so_raw _ _ Hs).
  destruct (raw_flush_step nowhere _ (λ _, True) (λ _ _, I) w2 Hsb2) as (w3 & r3 & -> & Hsb3 & Hb3 & _ & Hr3).
  returned. refine (ex_intro _ _ (ex_intro _ r3 (conj eq_refl _))).
  destruct r3 as [[]|e]; [|exact (λ H, Hr3 (Hrel2 (Hrel1 (Hio H))))].
  pose proof (area_const _ _ w3 Hsb3) as Hal. unfold raw_bytes in Hal. cbn [get raw_lens] in Hal.
  destruct (sb_inv _ _ _ _ Hsb3) as [Hdv _ _ _ _ [Hvl _]]. cbn [get raw_lens] in Hdv, Hvl.
  rewrite Hr3, Hal. pose proof (proj2 (hw_reserved2 _ Hw0)) as Hl0. pose proof (proj2 (hw_reserved2 _ Hw1)) as Hl1.
  apply len_header_bytes in Hl0, Hl1. pose proof sb_sizes. change (h_position (initial_header 0)) with 0 in *.
  change (h_position (initial_header 1)) with 1 in *. unfold SIZEOF_HEADER in Hl0, Hl1.
  set (d1 := splice (SIZEOF_HEADER * 0) _ _) in *.
  assert (El : len d1 = len (disk b)) by (apply len_splice; unfold SIZEOF_HEADER; lia).
  rewrite len_splice in Hvl by (unfold SIZEOF_HEADER; lia).
  refine (conj Hdv (conj (eq_trans Hvl El) _)). intros i Hi.
  rewrite (header_at_splice 1 i _ d1 (or_intror eq_refl) Hi Hw1) by lia.
  unfold d1. rewrite (header_at_splice 0 i _ _ (or_introl eq_refl) Hi Hw0) by lia.
  destruct Hi as [-> | ->]; reflexivity.
Qed.

Lemma some_inj {A} (x y : A) : Some x = Some y → x = y.
Proof. by intros [= ->]. Qed.

Lemma device_rdev b d :
  rdev_ok b → bytes_ok d → len d = len (disk b) → rdev_ok (device d).
Proof.
  intros [[] ? ?] Hd Hl. split; cbn [device disk b_log]; [split; cbn [device disk b_access]| |];
    rewrite ?Hl; assumption || reflexivity || discriminate.
Qed.

Lemma reload_device garbage w0 b d v :
  rdev_ok b → bytes_ok d → len d = len (disk b) →
  reload garbage w0 (device d) v = Some (lookup_sb (sb_area_of d) v).
Proof.
  intros Hb Hd Hl. exact (reload_ok garbage w0 (device d) v (device_rdev b d Hb Hd Hl) (λ _, eq_refl)).
Qed.

Lemma len_saved b p new D d :
  rdev_ok b → position_ok p → formatted (sb_area_of (disk b)) → fits 64 new →
  saved (disk b) p new D d → len D <= PER_SB → len d = len (disk b).
Proof.
  intros Hb Hp Hf Hn [[Hl _] _ _] HD. rewrite Hl.
  apply (len_with_header _ _ new Hp (len_disk_pos b Hb)).
  exact (final_header_new _ _ _ Hp (len_disk_pos b Hb) Hn (dv_bytes _ (rd_ok _ Hb)) Hf D HD).
Qed.

Lemma no_position hs old :
  write_position hs old = None → check_sb_header hs.1 0 = Ok tt → check_sb_header hs.2 1 = Ok tt →
  old ≠ 0 ∧ h_sb_version hs.1 = old ∧ h_sb_version hs.2 = old.
Proof.
  unfold write_position. intros E H0 H1. rewrite H0, H1 in E. cbn [is_ok andb] in E. revert E.
  destruct (Z.eqb_spec (h_sb_version hs.1) 0), (Z.eqb_spec (h_sb_version hs.1) old),
    (Z.eqb_spec (h_sb_version hs.2) 0), (Z.eqb_spec (h_sb_version hs.2) old); cbn [orb negb];
    try discriminate. intros _. split_and!; congruence.
Qed.

Lemma crash_nowhere d0 log c :
  Forall (sector_agrees nowhere d0) log → crash_disk d0 log c → len d0 mod SECTOR_SIZE = 0 → c = d0.
Proof.
  intros Hlog [Hl Hc] Hsec. apply list_eq_len; [exact Hl|]. intros i Hi.
  unfold SECTOR_SIZE in *. pose proof (Z.div_mod (Z.of_nat i) 512 ltac:(lia)) as Hdm.
  pose proof (Z.mod_pos_bound (Z.of_nat i) 512 ltac:(lia)) as Hm.
  pose proof (Z.div_mod (len d0) 512 ltac:(lia)). pose proof (Z.div_pos (Z.of_nat i) 512 ltac:(lia) ltac:(lia)).
  rewrite (sector_byte c), (sector_byte d0) by lia. unfold SECTOR_SIZE.
  destruct (Hc (BYTES_TO_SECTORS (Z.of_nat i))) as [-> | Hin];
    [exact H0|unfold SECTORS_TO_BYTES, BYTES_TO_SECTORS, SECTOR_SIZE; lia|reflexivity|].
  rewrite Forall_forall in Hlog. destruct (Hlog _ Hin) as (_ & _ & _ & Ha). cbn [fst snd] in Ha.
  unfold SECTOR_SIZE in Ha. rewrite Ha; [|lia|exact id].
  rewrite lookup_slice by (unfold SECTORS_TO_BYTES, BYTES_TO_SECTORS, SECTOR_SIZE; lia). reflexivity.
Qed.

Lemma store_crash_safe garbage w0 b old new bufs D :
  rdev_ok b → formatted (slice 0 SB_AREA (disk b)) → fits 64 new → old ≠ 0 → old ≠ new →
  Forall bytes_ok bufs → Forall (λ l, len l < 2 ^ 62) bufs →
  reload garbage w0 (device (disk b)) old = Some (Ok D) →
  ∃ b' r, store garbage w0 b old new bufs = Some (b', r) ∧
    ∀ c, crash_disk (disk b) (b_log b') c → bytes_ok c →
      formatted (slice 0 SB_AREA c) ∧ reload garbage w0 (device c) old = Some (Ok D).
Proof.
  intros Hb Hf Hn Ho Hne Hby Hsz HD. pose proof (len_disk_pos b Hb) as Hd0.
  pose proof (dv_bytes _ (rd_ok _ Hb)) as Hbb. pose proof (dv_sectors _ (rd_ok _ Hb)) as Hsec.
  rewrite (reload_device garbage w0 b _ old Hb Hbb eq_refl) in HD. apply some_inj in HD.
  destruct (store_ok garbage w0 b old new bufs Hb Hf Hn Hby Hsz) as (b' & r & E & H).
  refine (ex_intro _ b' (ex_intro _ r (conj E _))). intros c Hc Hbc.
  rewrite (reload_device garbage w0 b c old Hb Hbc (proj1 Hc)).
  destruct (write_position _ _) as [p|] eqn:Hwp; destruct H as [Hlog _].
  - destruct (write_position_free _ _ _ Hwp Ho) as (Hp & _ & Hv).
    assert (Hv' : h_sb_version (header_at (sb_area_of (disk b)) p) ≠ old)
      by (destruct Hp as [-> | ->]; exact Hv).
    refine (conj (crash_formatted _ _ _ Hp Hd0 _ _ Hlog Hc Hsec Hf) _).
    by rewrite (crash_lookup _ _ _ Hp Hd0 _ _ Hlog Hc Hsec old D Hne Hv' Hbb HD).
  - rewrite (crash_nowhere _ _ _ Hlog Hc Hsec). refine (conj Hf _). by rewrite HD.
Qed.

Lemma store_saved garbage w0 b old new bufs :
  rdev_ok b → formatted (slice 0 SB_AREA (disk b)) → fits 64 new → old ≠ new →
  Forall bytes_ok bufs → Forall (λ l, len l < 2 ^ 62) bufs →
  ∃ b' r, store garbage w0 b old new bufs = Some (b', r) ∧
    match r with
    | Ok _ => formatted (slice 0 SB_AREA (disk b')) ∧
        reload garbage w0 (device (disk b')) new = Some (Ok (concat bufs)) ∧
        ∀ D, old ≠ 0 → reload garbage w0 (device (disk b)) old = Some (Ok D) →
          reload garbage w0 (device (disk b')) old = Some (Ok D)
    | Err _ => ¬ (∀ n, b_io b n = IO_DONE) ∨ PER_SB < len (concat bufs) ∨
        old ≠ 0 ∧ ∀ i, position_ok i → h_sb_version (header_at (slice 0 SB_AREA (disk b)) i) = old
    end.
Proof.
  intros Hb Hf Hn Hne Hby Hsz. pose proof (len_disk_pos b Hb) as Hd0.
  pose proof (dv_bytes _ (rd_ok _ Hb)) as Hbb. pose proof (dv_sectors _ (rd_ok _ Hb)) as Hsec.
  destruct (store_ok garbage w0 b old new bufs Hb Hf Hn Hby Hsz) as (b' & r & E & H).
  refine (ex_intro _ b' (ex_intro _ r (conj E _))).
  destruct (write_position _ _) as [p|] eqn:Hwp; destruct H as [_ H].
  - destruct r as [[]|e]; [|destruct H as [H|H]; [left; exact H|right; left; exact H]].
    destruct H as [Hsv HD]. pose proof (write_position_ok _ _ _ Hwp) as Hp.
    pose proof (sv_bytes _ _ _ _ _ Hsv) as Hb'.
    pose proof (len_saved b p new _ _ Hb Hp Hf Hn Hsv HD) as Hl.
    destruct (saved_crash _ _ _ Hp Hd0 Hn Hbb Hf _ _ Hsv HD) as (log & Hlog & Hc).
    refine (conj (crash_formatted _ _ _ Hp Hd0 _ _ Hlog Hc Hsec Hf) (conj _ _)).
    + rewrite (reload_device garbage w0 b _ new Hb Hb' Hl).
      by rewrite (saved_lookup _ _ _ Hp Hd0 Hn Hbb Hf old _ _ Hsv HD Hsec Hne Hwp).
    + intros D Ho Hold. rewrite (reload_device garbage w0 b _ old Hb Hbb eq_refl) in Hold.
      apply some_inj in Hold. rewrite (reload_device garbage w0 b _ old Hb Hb' Hl).
      destruct (write_position_free _ _ _ Hwp Ho) as (_ & _ & Hv).
      rewrite (crash_lookup _ _ _ Hp Hd0 _ _ Hlog Hc Hsec old D Hne); [reflexivity| |exact Hbb|exact Hold].
      destruct Hp as [-> | ->]; exact Hv.
  - destruct r as [[]|e]; [by destruct H|]. right. right.
    destruct (no_position _ _ Hwp (proj1 (Hf 0 (or_introl eq_refl))) (proj1 (Hf 1 (or_intror eq_refl))))
      as (Ho & H0 & H1).
    refine (conj Ho _). intros i [-> | ->]; [exact H0|exact H1].
Qed.

Lemma store_rdev garbage w0 b old new bufs b' :
  rdev_ok b → formatted (slice 0 SB_AREA (disk b)) → fits 64 new →
  Forall bytes_ok bufs → Forall (λ l, len l < 2 ^ 62) bufs →
  store garbage w0 b old new bufs = Some (b', Ok tt) → rdev_ok (device (disk b')).
Proof.
  intros Hb Hf Hn Hby Hsz E'. destruct (store_ok garbage w0 b old new bufs Hb Hf Hn Hby Hsz) as (b2 & r & E & H).
  rewrite E in E'. apply some_inj in E'. injection E' as -> ->.
  destruct (write_position _ _) as [p|] eqn:Hwp; destruct H as [_ H]; [|by destruct H].
  destruct H as [Hsv HD]. pose proof (write_position_ok _ _ _ Hwp) as Hp.
  exact (device_rdev b _ Hb (sv_bytes _ _ _ _ _ Hsv) (len_saved b p new _ _ Hb Hp Hf Hn Hsv HD)).
Qed.

(** ** Theorems *)

(** Reading a superblock from a device whose I/Os succeed, through the
    cache of the block device stream and the streams above it, returns what
    the bytes of the device define: the data of the first position whose
    header is valid, whose data has the checksum of the header and whose
    version is the one that is asked for, or "superblock not found". *)
Theorem superblock_read_exact garbage w0 b v :
  rdev_ok b → (∀ n, b_io b n = IO_DONE) →
  reload garbage w0 b v = Some (lookup_sb (slice 0 SB_AREA (disk b)) v).
Proof. exact (reload_ok garbage w0 b v). Qed.

(** C2: whatever happens to the I/Os of a save over the version [old], and
    whichever of the sectors that were sent to the device it has really kept
    when it stops, the version [old] is read back afterwards and the device is
    still formatted. *)
Theorem superblock_crash_safe garbage w0 b old new bufs D :
  rdev_ok b → formatted (slice 0 SB_AREA (disk b)) → fits 64 new → old ≠ 0 → old ≠ new →
  Forall bytes_ok bufs → Forall (λ l, len l < 2 ^ 62) bufs →
  reload garbage w0 (device (disk b)) old = Some (Ok D) →
  ∃ b' r, store garbage w0 b old new bufs = Some (b', r) ∧
    ∀ c, crash_disk (disk b) (b_log b') c → bytes_ok c →
      formatted (slice 0 SB_AREA c) ∧ reload garbage w0 (device c) old = Some (Ok D).
Proof. exact (store_crash_safe garbage w0 b old new bufs D). Qed.

(** C18: a save that succeeds on a formatted device leaves it formatted, the
    new version is read back as the bytes that were written, and the old one
    as before.  It fails only if an I/O fails, if the data is larger than the
    room of a position, or if both positions hold the version to keep. *)
Theorem superblock_saved garbage w0 b old new bufs :
  rdev_ok b → formatted (slice 0 SB_AREA (disk b)) → fits 64 new → old ≠ new →
  Forall bytes_ok bufs → Forall (λ l, len l < 2 ^ 62) bufs →
  ∃ b' r, store garbage w0 b old new bufs = Some (b', r) ∧
    match r with
    | Ok _ => formatted (slice 0 SB_AREA (disk b')) ∧
        reload garbage w0 (device (disk b')) new = Some (Ok (concat bufs)) ∧
        ∀ D, old ≠ 0 → reload garbage w0 (device (disk b)) old = Some (Ok D) →
          reload garbage w0 (device (disk b')) old = Some (Ok D)
    | Err _ => ¬ (∀ n, b_io b n = IO_DONE) ∨ PER_SB < len (concat bufs) ∨
        old ≠ 0 ∧ ∀ i, position_ok i → h_sb_version (header_at (slice 0 SB_AREA (disk b)) i) = old
    end.
Proof. exact (store_saved garbage w0 b old new bufs). Qed.

(** On any device, whatever it holds, the creation of the superblocks
    leaves a formatted device with no version in it, unless an I/O fails. *)
Theorem superblock_create garbage w0 b :
  rdev_ok b →
  ∃ b' r, format garbage w0 b = Some (b', r) ∧
    match r with
    | Ok _ => formatted (slice 0 SB_AREA (disk b')) ∧
        ∀ v, v ≠ 0 → reload garbage w0 (device (disk b')) v = Some (Err VRT_ERR_SB_NOT_FOUND)
    | Err _ => ¬ (∀ n, b_io b n = IO_DONE)
    end.
Proof.
  intros Hb. destruct (create_ok garbage w0 b Hb) as (b' & r & E & H).
  refine (ex_intro _ b' (ex_intro _ r (conj E _))). destruct r as [[]|e]; [|exact H].
  destruct H as (Hdv & Hl & Hh). split.
  - intros i Hi. rewrite (Hh i Hi), (initial_header_eq i Hi). cbn [h_data_max_size].
    split; [|reflexivity]. unfold check_sb_header. cbn [h_magic h_format h_position h_reserved1
      h_data_max_size h_data_size h_reserved2]. rewrite !Z.eqb_refl. pose proof sb_sizes.
    rewrite (proj2 (Z.ltb_ge PER_SB 0)) by lia. reflexivity.
  - intros v Hv. rewrite (reload_device garbage w0 b _ v Hb (dv_bytes _ Hdv) Hl). unfold lookup_sb.
    assert (Hnone : ∀ i, position_ok i → holds (sb_area_of (disk b')) v i = false).
    { intros i Hi. apply version_differs. rewrite (Hh i Hi), (initial_header_eq i Hi).
      cbn [h_sb_version]. congruence. }
    rewrite (Hnone 0 (or_introl eq_refl)), (Hnone 1 (or_intror eq_refl)). reflexivity.
Qed.

(** *** Witnesses *)

(** A formatted disk whose position 0 holds an empty version 1. *)
Definition first_header : superblock_header_t :=
  mk_header SUPERBLOCK_HEADER_MAGIC SUPERBLOCK_HEADER_FORMAT 0 0 1 PER_SB (data_start 0) 0 0 (replicate 6 0).

Definition blank_disk : list Z := replicate (Z.to_nat (SB_AREA + CACHE_SIZE)) 0.

Definition first_disk : list Z :=
  splice (SIZEOF_HEADER * 0) (header_bytes first_header)
    (splice (SIZEOF_HEADER * 1) (header_bytes (initial_header 1)) blank_disk).

Definition no_world : sb_world :=
  mk_sbw (mk_bctx (device []) 0 (mk_cache [] 0 0 false false)) (mk_nsc 0 0 0) (mk_nsc 0 0 0)
    checksum_reset checksum_reset.

Lemma len_blank : len blank_disk = SB_AREA + CACHE_SIZE.
Proof.
  unfold len, blank_disk. rewrite length_replicate. pose proof sb_sizes.
  assert (0 <= CACHE_SIZE) by done. lia.
Qed.

Lemma blank_rdev : rdev_ok (device blank_disk).
Proof.
  split; cbn [device disk b_log]; [split; cbn [device disk b_access]|reflexivity|];
    rewrite ?len_blank; try discriminate.
  - vm_compute. reflexivity.
  - vm_compute. reflexivity.
  - apply Forall_replicate. done.
Qed.

Lemma first_header_wf : header_wf first_header.
Proof.
  destruct (initial_header_wf 0 (or_introl eq_refl)). rewrite (initial_header_eq 0 (or_introl eq_refl)) in *.
  by split.
Qed.

Lemma first_disk_ok :
  bytes_ok first_disk ∧ len first_disk = len blank_disk ∧
  ∀ i, position_ok i → header_at (sb_area_of first_disk) i = if i =? 0 then first_header else initial_header i.
Proof.
  pose proof first_header_wf as H0. pose proof (initial_header_wf 1 (or_intror eq_refl)) as H1.
  pose proof (proj2 (hw_reserved2 _ H0)) as Hl0. pose proof (proj2 (hw_reserved2 _ H1)) as Hl1.
  apply len_header_bytes in Hl0, Hl1. unfold SIZEOF_HEADER in Hl0, Hl1.
  pose proof len_blank as Hb. pose proof sb_sizes. assert (0 <= CACHE_SIZE) by done.
  unfold first_disk. set (d1 := splice (SIZEOF_HEADER * 1) _ _).
  assert (Hl : len d1 = len blank_disk) by (apply len_splice; unfold SIZEOF_HEADER; lia).
  refine (conj _ (conj _ _)).
  - apply bytes_ok_splice; [apply header_bytes_ok, (hw_reserved2 _ H0)|].
    apply bytes_ok_splice; [apply header_bytes_ok, (hw_reserved2 _ H1)|].
    exact (dv_bytes _ (rd_ok _ blank_rdev)).
  - rewrite len_splice by (unfold SIZEOF_HEADER; lia). exact Hl.
  - intros i Hi. rewrite (header_at_splice 0 i _ d1 (or_introl eq_refl) Hi H0) by lia.
    unfold d1. rewrite (header_at_splice 1 i _ _ (or_intror eq_refl) Hi H1) by lia.
    destruct Hi as [-> | ->]; reflexivity.
Qed.

Lemma first_rdev : rdev_ok (device first_disk).
Proof.
  destruct first_disk_ok as (Hb & Hl & _). exact (device_rdev _ _ blank_rdev Hb Hl).
Qed.

Lemma first_formatted : formatted (sb_area_of first_disk).
Proof.
  destruct first_disk_ok as (_ & _ & Hh). intros i Hi. rewrite (Hh i Hi). pose proof sb_sizes.
  destruct Hi as [-> | ->]; cbn [Z.eqb]; [|rewrite (initial_header_eq 1 (or_intror eq_refl))];
    split; try reflexivity; unfold check_sb_header; cbn [first_header h_magic h_format h_position
      h_reserved1 h_data_max_size h_data_size h_reserved2]; rewrite !Z.eqb_refl;
    rewrite (proj2 (Z.ltb_ge PER_SB 0)) by lia; reflexivity.
Qed.

Lemma first_lookup : lookup_sb (sb_area_of first_disk) 1 = Ok [].
Proof.
  destruct first_disk_ok as (_ & _ & Hh). specialize (Hh 0 (or_introl eq_refl)). cbn [Z.eqb] in Hh.
  pose proof (proj1 (first_formatted 0 (or_introl eq_refl))) as Hc. pose proof sb_sizes.
  unfold lookup_sb, holds, data_matches, data_of. rewrite Hc, Hh.
  cbn [first_header h_data_size h_checksum h_sb_version is_ok andb]. rewrite slice_0.
  rewrite (proj2 (Z.leb_le 0 PER_SB)) by lia. reflexivity.
Qed.

Lemma first_reload : reload [] no_world (device (disk (device first_disk))) 1 = Some (Ok []).
Proof.
  cbn [device disk]. rewrite (reload_device [] no_world (device blank_disk) _ 1 blank_rdev
    (proj1 first_disk_ok) (proj1 (proj2 first_disk_ok))), first_lookup. reflexivity.
Qed.

Lemma superblock_read_exact_witness : ∃ r, reload [] no_world (device first_disk) 1 = Some r.
Proof.
  exists (lookup_sb (slice 0 SB_AREA (disk (device first_disk))) 1).
  exact (superblock_read_exact [] no_world (device first_disk) 1 first_rdev (λ _, eq_refl)).
Defined.

Lemma superblock_crash_safe_witness :
  ∃ b' r, store [] no_world (device first_disk) 1 2 [[7]; [8; 9]] = Some (b', r) ∧
    ∀ c, crash_disk first_disk (b_log b') c → bytes_ok c →
      formatted (slice 0 SB_AREA c) ∧ reload [] no_world (device c) 1 = Some (Ok []).
Proof.
  refine (superblock_crash_safe [] no_world (device first_disk) 1 2 [[7]; [8; 9]] [] first_rdev
    first_formatted _ _ _ _ _ _).
  - vm_compute. split; [discriminate|reflexivity].
  - discriminate.
  - discriminate.
  - repeat constructor; vm_compute; congruence.
  - repeat constructor.
  - exact first_reload.
Defined.

Lemma superblock_saved_witness :
  ∃ b', store [] no_world (device first_disk) 1 2 [[7]; [8; 9]] = Some (b', Ok tt) ∧
    reload [] no_world (device (disk b')) 2 = Some (Ok [7; 8; 9]) ∧
    reload [] no_world (device (disk b')) 1 = Some (Ok []).
Proof.
  destruct (superblock_saved [] no_world (device first_disk) 1 2 [[7]; [8; 9]] first_rdev first_formatted)
    as (b' & r & E & H).
  - vm_compute. split; [discriminate|reflexivity].
  - discriminate.
  - repeat constructor; vm_compute; congruence.
  - repeat constructor.
  - destruct r as [[]|e].
    + destruct H as (_ & H2 & H1). refine (ex_intro _ b' (conj E (conj H2 (H1 [] _ _)))); [discriminate|].
      exact first_reload.
    + exfalso. destruct H as [H|[H|[_ H]]].
      * exact (H (λ _, eq_refl)).
      * pose proof sb_sizes. change (PER_SB < 3) in H. lia.
      * specialize (H 1 (or_intror eq_refl)). cbn [device disk] in H.
        rewrite (proj2 (proj2 first_disk_ok) 1 (or_intror eq_refl)) in H.
        cbn [Z.eqb] in H. rewrite (initial_header_eq 1 (or_intror eq_refl)) in H. discriminate H.
Defined.

Lemma superblock_create_witness : ∃ b' r, format [] no_world (device blank_disk) = Some (b', r).
Proof.
  destruct (superblock_create [] no_world (device blank_disk) blank_rdev) as (b' & r & E & _).
  exact (ex_intro _ b' (ex_intro _ r E)).
Defined.
