(* ===== verification/SbVersion.v ===== *)
(** * Versions of the superblocks of a group (admind/services/vrt/sb_version.c, vrt_utils.c)

    Each node keeps, for each group, the version of the superblocks in use,
    the next version to give, and the transaction that is pending, in a text
    file that it rewrites at each change. The steps of a transaction, what
    a node does with its file when it comes back, and how it takes into
    account the versions of the other nodes. The file is the environment: it
    is written as a whole. *)
From S2P Require Import Prelude Bytes.
From stdpp Require Import options.

(** ** Decimal numbers in texts

    A C string is the list of its characters, without the final ['\0']. *)

Definition digit (d : Z) : ascii := Ascii.ascii_of_nat (Z.to_nat (48 + d)).

Definition digit_val (c : ascii) : option Z :=
  let n := Z.of_nat (Ascii.nat_of_ascii c) in
  if (48 <=? n) && (n <=? 57) then Some (n - 48) else None.

(** [printf ("%u", v)]; a 64 bit number has at most 20 digits. *)
Fixpoint decimal (fuel : nat) (v : Z) : list ascii :=
  match fuel with
  | O => []
  | S fuel' => if v <? 10 then [digit v] else decimal fuel' (v / 10) ++ [digit (v mod 10)]
  end.

Definition print_u64 (v : Z) : list ascii := decimal 20 v.

Definition is_space (c : ascii) : bool :=
  let n := Z.of_nat (Ascii.nat_of_ascii c) in (n =? 32) || ((9 <=? n) && (n <=? 13)).

Fixpoint skip_spaces (s : list ascii) : list ascii :=
  match s with
  | c :: s' => if is_space c then skip_spaces s' else s
  | [] => []
  end.

(** The digits at the head of [s], as a number, and what follows them. *)
Fixpoint scan_digits (v : Z) (s : list ascii) : Z * list ascii :=
  match s with
  | c :: s' => match digit_val c with Some d => scan_digits (v * 10 + d) s' | None => (v, s) end
  | [] => (v, [])
  end.

(** [strtoull]: an optional sign, at least one digit, saturation. *)
Definition scan_number (s : list ascii) : option (Z * list ascii) :=
  let s := skip_spaces s in
  let '(negative, s) :=
    match s with
    | "-"%char :: s' => (true, s')
    | "+"%char :: s' => (false, s')
    | _ => (false, s)
    end in
  match s with
  | c :: _ =>
      match digit_val c with
      | None => None
      | Some _ =>
          let '(v, s') := scan_digits 0 s in
          let v := if 2 ^ 64 <=? v then 2 ^ 64 - 1 else if negative : bool then u64 (- v) else v in
          Some (v, s')
      end
  | [] => None
  end.

(** The directives of a [scanf] format: a character, white space, a number. *)
Inductive directive := DChar (c : ascii) | DSpace | DNumber.

Fixpoint sscanf (format : list directive) (s : list ascii) : list Z :=
  match format with
  | [] => []
  | DChar c :: format' =>
      match s with
      | c' :: s' => if bool_decide (c = c') then sscanf format' s' else []
      | [] => []
      end
  | DSpace :: format' => sscanf format' (skip_spaces s)
  | DNumber :: format' =>
      match scan_number s with
      | Some (v, s') => v :: sscanf format' s'
      | None => []
      end
  end.

Definition text (s : string) : list ascii := String.list_ascii_of_string s.

Definition newline : ascii := Ascii.ascii_of_nat 10.

(** ** The metadata *)

Inductive step_t := SBV_PREPARED | SBV_DONE | SBV_COMMITED.

#[export] Instance step_eq_dec : EqDecision step_t.
Proof. solve_decision. Defined.

Definition step_to_Z (s : step_t) : Z :=
  match s with SBV_PREPARED => 1 | SBV_DONE => 2 | SBV_COMMITED => 3 end.

(** [STEP_IS_VALID] *)
Definition step_of_Z (x : Z) : option step_t :=
  if x =? 1 then Some SBV_PREPARED else if x =? 2 then Some SBV_DONE
  else if x =? 3 then Some SBV_COMMITED else None.

Record sb_metadata_t := mk_metadata {
  version : Z;
  next_version : Z;
  pending_step : step_t;
  pending_version : Z
}.

#[export] Instance sb_metadata_eq_dec : EqDecision sb_metadata_t.
Proof. solve_decision. Defined.

Definition SB_METADATA_FILE_SIZE : Z := 4096.
Definition SB_METADATA_FORMAT_VERSION : Z := 1.

(** A line of [SB_METADATA_FORMAT], as it is scanned and as it is printed. *)
Definition scan_line (name : string) (format : list directive) : list directive :=
  map DChar (text name) ++ DNumber :: DSpace :: format.

Definition print_line (name : string) (v : Z) (rest : list ascii) : list ascii :=
  text name ++ print_u64 v ++ newline :: rest.

Definition SB_METADATA_FORMAT : list directive :=
  scan_line "format_version=" (scan_line "sb_version=" (scan_line "next_version="
    (scan_line "pending_step=" (scan_line "pending_version=" [])))).

(** The characters [os_snprintf] writes, its result being their number. *)
Definition print_metadata (m : sb_metadata_t) : list ascii :=
  print_line "format_version=" SB_METADATA_FORMAT_VERSION
    (print_line "sb_version=" (version m)
      (print_line "next_version=" (next_version m)
        (print_line "pending_step=" (step_to_Z (pending_step m))
          (print_line "pending_version=" (pending_version m) [])))).

Definition NUL : ascii := Ascii.ascii_of_nat 0.

(** [sb_metadata_to_text]: the [size] characters of the buffer. *)
Definition sb_metadata_to_text (m : sb_metadata_t) (size : Z) : result (list ascii) :=
  let s := print_metadata m in
  if size <=? Z.of_nat (length s) then Err ENOSPC
  else Ok (s ++ replicate (Z.to_nat size - length s) NUL).

(** The C string at the start of a buffer. *)
Fixpoint c_string (s : list ascii) : list ascii :=
  match s with
  | c :: s' => if bool_decide (c = NUL) then [] else c :: c_string s'
  | [] => []
  end.

Definition sb_metadata_from_text (s : list ascii) : result sb_metadata_t :=
  match sscanf SB_METADATA_FORMAT (c_string s) with
  | [format_version; version; next_version; pending_step; pending_version] =>
      if negb (i32 format_version =? SB_METADATA_FORMAT_VERSION) then Err EINVAL
      else
        match step_of_Z (u32 pending_step) with
        | None => Err EINVAL
        | Some step => Ok (mk_metadata version next_version step pending_version)
        end
  | _ => Err EINVAL
  end.

(** ** The file of a group

    [fmap] is what the file holds. *)
Record sb_version_t := mk_sb_version { fmap : list ascii; metadata : sb_metadata_t }.

(** [__sb_version_new]; [created] tells whether memory, directory and file
    could be had. *)
Definition sb_version_create (created valid : bool) : option sb_version_t :=
  if negb created then None
  else
    let m := if valid then mk_metadata 1 2 SBV_PREPARED 2 else mk_metadata 0 0 SBV_PREPARED 0 in
    match sb_metadata_to_text m SB_METADATA_FILE_SIZE with
    | Err _ => None
    | Ok contents => Some (mk_sb_version contents m)
    end.

Definition sb_version_new (created : bool) : option sb_version_t := sb_version_create created true.
Definition sb_version_new_invalid (created : bool) : option sb_version_t :=
  sb_version_create created false.

(** [file] is what the file holds, if it can be opened. *)
Definition sb_version_load (allocated : bool) (file : option (list ascii)) : option sb_version_t :=
  if negb allocated then None
  else
    match file with
    | None => None
    | Some contents =>
        if Z.of_nat (length contents) <? SB_METADATA_FILE_SIZE then None
        else
          match sb_metadata_from_text (take (Z.to_nat SB_METADATA_FILE_SIZE) contents) with
          | Err _ => None
          | Ok m => Some (mk_sb_version contents m)
          end
    end.

(** [None] is the failure of the assertion. *)
Definition sb_version_write_metadata (m : sb_metadata_t) : option sb_version_t :=
  match sb_metadata_to_text m SB_METADATA_FILE_SIZE with
  | Ok contents => Some (mk_sb_version contents m)
  | Err _ => None
  end.

Definition sb_version_new_version_prepare (s : sb_version_t) : option (sb_version_t * Z) :=
  let m := metadata s in
  let m := mk_metadata (version m) (u64 (next_version m + 1)) SBV_PREPARED (next_version m) in
  s ← sb_version_write_metadata m;
  Some (s, pending_version (metadata s)).

Definition sb_version_new_version_done (s : sb_version_t) : option sb_version_t :=
  let m := metadata s in
  sb_version_write_metadata (mk_metadata (version m) (next_version m) SBV_DONE (pending_version m)).

Definition sb_version_new_version_commit (s : sb_version_t) : option sb_version_t :=
  let m := metadata s in
  sb_version_write_metadata
    (mk_metadata (pending_version m) (next_version m) SBV_COMMITED (pending_version m)).

Definition sb_version_get_version (s : sb_version_t) : Z := version (metadata s).

Definition sb_version_is_valid (s : sb_version_t) : bool := 0 <? version (metadata s).

Definition sb_version_local_recover (s : sb_version_t) : option sb_version_t :=
  match pending_step (metadata s) with
  | SBV_PREPARED => Some s
  | SBV_DONE => sb_version_new_version_commit s
  | SBV_COMMITED => Some s
  end.

(** The structure in memory, with the four bytes of padding after the step. *)
Definition sb_version_serialize (padding : list Z) (s : sb_version_t) : list Z :=
  let m := metadata s in
  le_bytes 8 (version m) ++ le_bytes 8 (next_version m)
  ++ le_bytes 4 (step_to_Z (pending_step m)) ++ padding ++ le_bytes 8 (pending_version m).

Definition SB_VERSION_SERIALIZED_SIZE : Z := 32.

(** The structure read from a buffer; a step that is none of the enumeration
    cannot be represented. *)
Definition sb_deserialized (buffer : list Z) : option sb_metadata_t :=
  step ← step_of_Z (le_val (slice 16 4 buffer));
  Some (mk_metadata (le_val (slice 0 8 buffer)) (le_val (slice 8 8 buffer)) step
          (le_val (slice 24 8 buffer))).

Definition sb_metadata_matches (md1 md2 : sb_metadata_t) : bool :=
  (version md1 =? version md2) && (next_version md1 =? next_version md2).

(** The first write of [sb_version_update_from]. *)
Definition raise_next (s : sb_version_t) (m : sb_metadata_t) : option sb_version_t :=
  let l := metadata s in
  if next_version l <? next_version m
  then sb_version_write_metadata
         (mk_metadata (version l) (next_version m) (pending_step l) (pending_version l))
  else Some s.

Definition sb_version_update_from (s : sb_version_t) (buffer : list Z) : option sb_version_t :=
  m ← sb_deserialized buffer;
  if (version m <? version (metadata s)) || (next_version m <? next_version (metadata s)) then Some s
  else
    s ← raise_next s m;
    if version (metadata s) <? version m then sb_version_write_metadata m
    else (assert! (sb_metadata_matches m (metadata s)); Some s).

(** ** Exchanges between the nodes

    [replies] are the messages of the nodes, in the order they come; [None]
    stands for a node that is down. *)

Fixpoint update_loop (s : sb_version_t) (replies : list (option (list Z))) : option sb_version_t :=
  match replies with
  | [] => Some s
  | None :: replies' => update_loop s replies'
  | Some sb_ser :: replies' =>
      s ← sb_version_update_from s sb_ser;
      update_loop s replies'
  end.

(** The result is the one of the last reply. *)
Definition vrt_group_sync_sb_versions (s : sb_version_t) (replies : list (option (list Z)))
    : option (sb_version_t * result unit) :=
  s ← sb_version_local_recover s;
  s ← update_loop s replies;
  assert! (sb_version_is_valid s);
  Some (s, match last replies with Some None => Err ADMIND_ERR_NODE_DOWN | _ => Ok tt end).

Record sync_info := mk_sync_info {
  group_is_started : bool;
  can_write : bool;
  have_disk_in_group : bool
}.

Record adm_disk := mk_adm_disk { disk_node_id : Z; up_in_vrt : bool }.

Definition local_sync_info (started : bool) (adm_my_id : Z) (disks : list adm_disk) : sync_info :=
  let mine d := disk_node_id d =? adm_my_id in
  mk_sync_info started (existsb (λ d, mine d && up_in_vrt d) disks) (existsb mine disks).

Definition count_if {A} (f : A → bool) (l : list A) : Z := Z.of_nat (length (List.filter f l)).

(** The part of [adm_vrt_group_sync_sb] that decides, from the replies,
    whether superblocks are written. *)
Definition sync_sb_decision (replies : list (option sync_info)) : option (result bool) :=
  let infos := omap id replies in
  if existsb (λ r, match r with None => true | Some _ => false end) replies then Some (Err ADMIND_ERR_NODE_DOWN)
  else if negb (existsb group_is_started infos) then Some (Ok false)
  else
    half ← quotient_ceil64 (count_if have_disk_in_group infos) 2;
    if count_if can_write infos <? half then Some (Err VRT_ERR_GROUP_NOT_ADMINISTRABLE)
    else Some (Ok true).

(** A transaction on one node: [sync_sb old new] is the answer of the
    virtualizer that writes the superblocks, [barrier1] and [barrier2] what
    the barriers return when the node reaches them. *)
Definition adm_vrt_group_sync_sb (started : bool) (replies : list (option sync_info))
    (sync_sb : Z → Z → result unit) (barrier1 barrier2 : result unit) (s : sb_version_t)
    : option (sb_version_t * result unit) :=
  d ← sync_sb_decision replies;
  match d with
  | Err e => Some (s, Err e)
  | Ok false => Some (s, Ok tt)
  | Ok true =>
      let old_sb_version := sb_version_get_version s in
      '(s, new_sb_version) ← sb_version_new_version_prepare s;
      let ret := if started then sync_sb old_sb_version new_sb_version else Ok tt in
      assert! (match ret with Ok _ => true | Err e => bool_decide (e = ADMIND_ERR_NODE_DOWN) end);
      match barrier1 with
      | Err e => Some (s, Err e)
      | Ok _ =>
          s ← sb_version_new_version_done s;
          s ← sb_version_new_version_commit s;
          Some (s, barrier2)
      end
  end.

(** ** Texts *)

Lemma digit_val_digit d : 0 <= d < 10 → digit_val (digit d) = Some d.
Proof.
  intros H. unfold digit_val, digit. rewrite Ascii.nat_ascii_embedding by lia.
  rewrite Z2Nat.id by lia. rewrite (proj2 (Z.leb_le _ _)), (proj2 (Z.leb_le _ _)) by lia.
  simpl. f_equal. lia.
Qed.

(** The value of a list of digits. *)
Definition digits_value (s : list ascii) : Z :=
  foldl (λ v c, v * 10 + default 0 (digit_val c)) 0 s.

Definition all_digits (s : list ascii) : Prop := Forall (λ c, is_Some (digit_val c)) s.

Lemma scan_all a s rest :
  all_digits s → (match rest with c :: _ => digit_val c = None | [] => True end) →
  scan_digits a (s ++ rest) = (foldl (λ v c, v * 10 + default 0 (digit_val c)) a s, rest).
Proof.
  intros Hs Hr. revert a. induction Hs as [|c s [d Hd] _ IH]; intros a; simpl.
  - destruct rest; [done|]. simpl. by rewrite Hr.
  - rewrite Hd. simpl. apply IH.
Qed.

Lemma decimal_ok fuel v :
  0 <= v < 10 ^ Z.of_nat fuel → (0 < fuel)%nat →
  all_digits (decimal fuel v) ∧ digits_value (decimal fuel v) = v ∧ decimal fuel v ≠ [].
Proof.
  revert v. induction fuel as [|fuel IH]; intros v Hv Hf; [lia|]. cbn [decimal]. case_if.
  { assert (E : digit_val (digit v) = Some v) by (apply digit_val_digit; lia).
    split_and!; [|unfold digits_value; simpl; rewrite E; done|done].
    constructor; [by rewrite E|constructor]. }
  destruct fuel as [|fuel]; [simpl in Hv; lia|].
  assert (E : digit_val (digit (v mod 10)) = Some (v mod 10))
    by (apply digit_val_digit; apply Z.mod_pos_bound; lia).
  destruct (IH (v / 10)) as (Hd & Hval & Hne); [|lia|].
  { rewrite Nat2Z.inj_succ, Z.pow_succ_r in Hv by lia.
    split; [apply Z.div_pos; lia|apply Z.div_lt_upper_bound; lia]. }
  split_and!.
  - apply Forall_app. split; [done|]. constructor; [by rewrite E|constructor].
  - unfold digits_value in *. rewrite foldl_app. cbn [foldl]. rewrite Hval, E. simpl.
    pose proof (Z.div_mod v 10). lia.
  - by destruct (decimal (S fuel) (v / 10)).
Qed.

Lemma scan_unsigned c s d :
  digit_val c = Some d →
  scan_number (c :: s) = let '(v, s') := scan_digits 0 (c :: s) in
    Some (if 2 ^ 64 <=? v then 2 ^ 64 - 1 else v, s').
Proof.
  intros Hc. unfold scan_number.
  destruct c as [[] [] [] [] [] [] [] []]; try discriminate Hc; simpl; by destruct (scan_digits _ s).
Qed.

Lemma scan_printed v rest :
  fits 64 v → (match rest with c :: _ => digit_val c = None | [] => True end) →
  scan_number (print_u64 v ++ rest) = Some (v, rest).
Proof.
  intros Hv Hr. unfold fits in Hv. unfold print_u64.
  destruct (decimal_ok 20 v) as (Hd & Hval & Hne); [cbn; lia|lia|].
  pose proof (scan_all 0 _ rest Hd Hr) as Hs. fold (digits_value (decimal 20 v)) in Hs.
  rewrite Hval in Hs. destruct (decimal 20 v) as [|c s]; [done|].
  inversion Hd as [|? ? [d Hc] _]; subst. cbn [app] in Hs |- *.
  rewrite (scan_unsigned c _ d Hc), Hs. rewrite (proj2 (Z.leb_gt _ _)) by lia. done.
Qed.

Lemma sscanf_line name v format rest :
  fits 64 v → (match rest with c :: _ => is_space c = false | [] => True end) →
  sscanf (scan_line name format) (print_line name v rest) = v :: sscanf format rest.
Proof.
  intros Hv Hr. unfold scan_line, print_line, text.
  induction name as [|c name IH]; cbn [String.list_ascii_of_string map app sscanf].
  - rewrite scan_printed by done. f_equal. simpl. destruct rest as [|c rest]; [done|]. simpl. by rewrite Hr.
  - by rewrite bool_decide_eq_true_2 by done.
Qed.

Definition metadata_wf (m : sb_metadata_t) : Prop :=
  fits 64 (version m) ∧ fits 64 (next_version m) ∧ fits 64 (pending_version m).

Lemma sscanf_printed m :
  metadata_wf m →
  sscanf SB_METADATA_FORMAT (print_metadata m)
  = [SB_METADATA_FORMAT_VERSION; version m; next_version m; step_to_Z (pending_step m); pending_version m].
Proof.
  intros (Hv & Hn & Hp). unfold SB_METADATA_FORMAT, print_metadata.
  assert (Hs : fits 64 (step_to_Z (pending_step m))) by (destruct (pending_step m); done).
  by rewrite !sscanf_line.
Qed.

Lemma c_string_app s k : NUL ∉ s → c_string (s ++ replicate k NUL) = s.
Proof.
  intros Hs. induction s as [|c s IH].
  - by destruct k.
  - cbn [app c_string]. apply not_elem_of_cons in Hs as [Hc Hs].
    rewrite bool_decide_eq_false_2 by congruence. by rewrite IH.
Qed.

Lemma print_line_no_nul name v rest :
  fits 64 v → NUL ∉ text name → NUL ∉ rest → NUL ∉ print_line name v rest.
Proof.
  intros Hv Hn Hr. unfold print_line, print_u64.
  destruct (decimal_ok 20 v) as (Hd & _); [unfold fits in Hv; cbn; lia|lia|].
  rewrite !not_elem_of_app, not_elem_of_cons. split_and!; try done.
  intros Hin. unfold all_digits in Hd. rewrite Forall_forall in Hd. apply Hd in Hin.
  by destruct Hin.
Qed.

Lemma length_decimal fuel v : (length (decimal fuel v) <= fuel)%nat.
Proof.
  revert v. induction fuel as [|fuel IH]; intros v; simpl; [done|]. case_if; simpl; [lia|].
  rewrite length_app. simpl. specialize (IH (v / 10)). lia.
Qed.

Lemma length_print_line name v rest k :
  (length (text name) <= 16)%nat → Z.of_nat (length rest) <= k - 37 →
  Z.of_nat (length (print_line name v rest)) <= k.
Proof.
  intros Hn Hk. unfold print_line, print_u64. rewrite !length_app. cbn [length].
  pose proof (length_decimal 20 v). lia.
Qed.

Lemma print_metadata_ok m :
  metadata_wf m → NUL ∉ print_metadata m ∧ Z.of_nat (length (print_metadata m)) <= 185.
Proof.
  intros (Hv & Hn & Hp). split; unfold print_metadata.
  - assert (Hs : fits 64 (step_to_Z (pending_step m))) by (destruct (pending_step m); done).
    repeat (apply print_line_no_nul; [done|by apply (bool_decide_unpack _)|]). apply not_elem_of_nil.
  - do 5 (apply length_print_line; [cbn; lia|]). done.
Qed.

(** *** The file holds the metadata *)

(** The file of a version in memory. *)
Definition in_sync (s : sb_version_t) : Prop :=
  metadata_wf (metadata s) ∧ sb_metadata_to_text (metadata s) SB_METADATA_FILE_SIZE = Ok (fmap s).

Lemma to_text_ok m :
  metadata_wf m →
  ∃ contents, sb_metadata_to_text m SB_METADATA_FILE_SIZE = Ok contents ∧
    Z.of_nat (length contents) = SB_METADATA_FILE_SIZE ∧ sb_metadata_from_text contents = Ok m.
Proof.
  intros Hm. destruct (print_metadata_ok m Hm) as [Hnul Hlen]. unfold sb_metadata_to_text.
  unfold SB_METADATA_FILE_SIZE. rewrite (proj2 (Z.leb_gt _ _)) by lia. eexists. split; [reflexivity|].
  split; [rewrite length_app, length_replicate; lia|].
  unfold sb_metadata_from_text. rewrite c_string_app, sscanf_printed by done.
  destruct m as [v n st pv]. by destruct st.
Qed.

Lemma write_metadata_ok m :
  metadata_wf m → ∃ s, sb_version_write_metadata m = Some s ∧ in_sync s ∧ metadata s = m.
Proof.
  intros Hm. destruct (to_text_ok m Hm) as (contents & E & _ & _).
  unfold sb_version_write_metadata, in_sync. rewrite E. by eexists.
Qed.

Lemma load_ok s allocated :
  in_sync s → sb_version_load allocated (Some (fmap s)) = if allocated then Some s else None.
Proof.
  intros [Hm E]. destruct (to_text_ok _ Hm) as (contents & E' & Hl & Hf). rewrite E in E'.
  injection E' as <-. unfold sb_version_load. destruct allocated; [|done]. cbn [negb].
  rewrite Hl. cbn [Z.ltb Z.compare]. rewrite Z.ltb_irrefl, take_ge by lia. rewrite Hf. by destruct s.
Qed.

(** *** The operations on the metadata *)

Definition prepared (m : sb_metadata_t) : sb_metadata_t :=
  mk_metadata (version m) (next_version m + 1) SBV_PREPARED (next_version m).
Definition done_of (m : sb_metadata_t) : sb_metadata_t :=
  mk_metadata (version m) (next_version m) SBV_DONE (pending_version m).
Definition commited (m : sb_metadata_t) : sb_metadata_t :=
  mk_metadata (pending_version m) (next_version m) SBV_COMMITED (pending_version m).
Definition recovered (m : sb_metadata_t) : sb_metadata_t :=
  match pending_step m with SBV_DONE => commited m | _ => m end.
Definition raised (l m : sb_metadata_t) : sb_metadata_t :=
  mk_metadata (version l) (Z.max (next_version l) (next_version m)) (pending_step l) (pending_version l).
Definition updated (l m : sb_metadata_t) : sb_metadata_t :=
  if (version m <? version l) || (next_version m <? next_version l) then l
  else if version l <? version m then m else raised l m.

Definition yields (r : option sb_version_t) (m : sb_metadata_t) : Prop :=
  ∃ s, r = Some s ∧ in_sync s ∧ metadata s = m.

Lemma written_yields m : metadata_wf m → yields (sb_version_write_metadata m) m.
Proof. apply write_metadata_ok. Qed.

Lemma sb_prepare_ok s :
  in_sync s → next_version (metadata s) + 1 < 2 ^ 64 →
  ∃ s', sb_version_new_version_prepare s = Some (s', next_version (metadata s)) ∧ in_sync s' ∧
    metadata s' = prepared (metadata s).
Proof.
  intros [(Hv & Hn & Hp) _] Hlt. unfold sb_version_new_version_prepare.
  rewrite u64_id by (unfold fits in *; lia).
  destruct (write_metadata_ok (prepared (metadata s))) as (s' & E & Hs & Em).
  { unfold metadata_wf, fits in *. cbn. lia. }
  unfold prepared in E. rewrite E. returned. exists s'. rewrite Em. by split_and!.
Qed.

Lemma done_ok s : in_sync s → yields (sb_version_new_version_done s) (done_of (metadata s)).
Proof. intros [Hm _]. by apply written_yields. Qed.

Lemma commit_ok s : in_sync s → yields (sb_version_new_version_commit s) (commited (metadata s)).
Proof. intros [(? & ? & ?) _]. by apply written_yields. Qed.

Lemma recover_ok s : in_sync s → yields (sb_version_local_recover s) (recovered (metadata s)).
Proof.
  intros Hs. unfold sb_version_local_recover, recovered.
  destruct (pending_step (metadata s)); [by exists s|by apply commit_ok|by exists s].
Qed.

Lemma serialized_ok padding s :
  in_sync s → len padding = 4 →
  len (sb_version_serialize padding s) = SB_VERSION_SERIALIZED_SIZE ∧
  sb_deserialized (sb_version_serialize padding s) = Some (metadata s).
Proof.
  intros [(Hv & Hn & Hp) _] Hpad. unfold sb_version_serialize, sb_deserialized, len in *.
  split; [rewrite !length_app, !length_le_bytes; unfold SB_VERSION_SERIALIZED_SIZE; lia|].
  destruct (metadata s) as [v n st pv]. cbn [version next_version pending_step pending_version] in *.
  assert (Hst : fits 32 (step_to_Z st)) by (by destruct st).
  read_fields. rewrite (slice_skip padding 4 8 _ 4) by done. change (4 - 4) with 0.
  rewrite <- (app_nil_r (le_bytes 8 pv)). read_fields. rewrite !le_val_bytes by assumption.
  by destruct st.
Qed.

Lemma raise_ok s m :
  in_sync s → metadata_wf m → yields (raise_next s m) (raised (metadata s) m).
Proof.
  intros Hs (_ & Hm & _). pose proof Hs as [(Hv & Hn & Hp) _]. unfold raise_next, raised.
  case_if; [rewrite Z.max_r by lia; by apply written_yields|].
  rewrite Z.max_l by lia. exists s. split_and!; try done. by destruct (metadata s).
Qed.

(** The assertion of [sb_version_update_from] never fails. *)
Lemma update_ok padding s s' :
  in_sync s → in_sync s' → len padding = 4 →
  yields (sb_version_update_from s (sb_version_serialize padding s')) (updated (metadata s) (metadata s')).
Proof.
  intros Hs Hs' Hpad. unfold sb_version_update_from, updated.
  destruct (serialized_ok padding s' Hs' Hpad) as [_ ->]. returned.
  destruct (_ || _) eqn:E; [by exists s|]. bool_to_prop.
  destruct (raise_ok s (metadata s') Hs (proj1 Hs')) as (s1 & -> & Hs1 & Em). returned. rewrite Em.
  cbn [raised version]. case_if; [apply written_yields, Hs'|].
  assert (Hma : sb_metadata_matches (metadata s') (raised (metadata s) (metadata s')) = true).
  { unfold sb_metadata_matches. cbn. rewrite Z.max_r, !Z.eqb_refl, andb_true_r by lia. apply Z.eqb_eq. lia. }
  rewrite Hma. exists s1. by split_and!.
Qed.

(** ** Theorems *)

(** What happens to the version of a group on a node. *)
Inductive sb_event :=
  | EvPrepare | EvDone | EvCommit | EvRecover
  | EvUpdate (padding : list Z) (peer : sb_version_t)
  | EvRestart.

Definition sb_event_run (s : sb_version_t) (e : sb_event) : option sb_version_t :=
  match e with
  | EvPrepare => '(s, _) ← sb_version_new_version_prepare s; Some s
  | EvDone => sb_version_new_version_done s
  | EvCommit => sb_version_new_version_commit s
  | EvRecover => sb_version_local_recover s
  | EvUpdate padding peer => sb_version_update_from s (sb_version_serialize padding peer)
  | EvRestart => sb_version_load true (Some (fmap s))
  end.

Fixpoint sb_events_run (s : sb_version_t) (l : list sb_event) : option sb_version_t :=
  match l with
  | [] => Some s
  | e :: l' => s ← sb_event_run s e; sb_events_run s l'
  end.

Definition event_ok (bound : Z) (e : sb_event) : Prop :=
  match e with
  | EvUpdate padding peer =>
      len padding = 4 ∧ in_sync peer ∧ next_version (metadata peer) <= bound
  | _ => True
  end.

Lemma event_run_ok bound s e :
  in_sync s → event_ok bound e → next_version (metadata s) <= bound → bound + 1 < 2 ^ 64 →
  ∃ s', sb_event_run s e = Some s' ∧ in_sync s' ∧ next_version (metadata s') <= bound + 1.
Proof.
  intros Hs He Hn Hb.
  assert (Hy : ∀ r m, yields r m → next_version m <= bound + 1 →
    ∃ s', r = Some s' ∧ in_sync s' ∧ next_version (metadata s') <= bound + 1).
  { intros r m (s' & -> & Hs' & <-) Hm. by exists s'. }
  destruct e as [| | | |padding peer|]; cbn [sb_event_run].
  - destruct (sb_prepare_ok s Hs) as (s' & -> & Hs' & Em); [lia|]. returned. exists s'.
    split_and!; [done..|]. rewrite Em. cbn. lia.
  - eapply Hy; [by apply done_ok|]. cbn. lia.
  - eapply Hy; [by apply commit_ok|]. cbn. lia.
  - eapply Hy; [by apply recover_ok|]. unfold recovered. case_match; cbn; lia.
  - destruct He as (Hp & Hpeer & Hb'). eapply Hy; [by apply update_ok|].
    unfold updated. repeat case_if; cbn; lia.
  - exists s. rewrite load_ok by done. split_and!; [done..|lia].
Qed.

Lemma event_ok_mono bound bound' e : bound <= bound' → event_ok bound e → event_ok bound' e.
Proof. intros Hb. destruct e; try done. intros (? & ? & ?). split_and!; [done..|]. lia. Qed.

Lemma events_run_ok l bound s :
  in_sync s → Forall (event_ok bound) l → next_version (metadata s) <= bound →
  bound + Z.of_nat (length l) < 2 ^ 64 → ∃ s', sb_events_run s l = Some s' ∧ in_sync s'.
Proof.
  revert bound s. induction l as [|e l IH]; intros bound s Hs Hl Hn Hb; [by exists s|].
  inversion Hl as [|? ? He Hl']; subst. cbn [length] in Hb. cbn [sb_events_run].
  destruct (event_run_ok bound s e Hs He Hn) as (s1 & -> & Hs1 & Hn1); [lia|]. returned.
  apply (IH (bound + 1)); [done| |done|lia].
  eapply Forall_impl; [done|]. intros e'. by apply event_ok_mono; lia.
Qed.

(** C29: from its creation on, whatever the transactions, the recoveries, the
    restarts and the versions received from other nodes, no assertion of the
    version of a group fails (as long as fewer than 2^64 versions were given),
    and a node that restarts reads back from its file what it had in
    memory. *)
Theorem sb_version_persists l bound :
  Forall (event_ok bound) l → 2 <= bound → bound + Z.of_nat (length l) < 2 ^ 64 →
  ∃ s0 s, sb_version_new true = Some s0 ∧ sb_events_run s0 l = Some s ∧
    sb_version_load true (Some (fmap s)) = Some s.
Proof.
  intros Hl H2 Hb.
  destruct (write_metadata_ok (mk_metadata 1 2 SBV_PREPARED 2)) as (s0 & E0 & Hs0 & Em); [done|].
  destruct (events_run_ok l bound s0) as (s & E & Hs); [done|done|by rewrite Em|done|].
  exists s0, s. split; [|split; [done|by rewrite load_ok]].
  revert E0. unfold sb_version_new, sb_version_create, sb_version_write_metadata. cbn [negb].
  by destruct (sb_metadata_to_text _ _).
Qed.

Lemma sb_version_persists_witness :
  ∃ s0 s, sb_version_new true = Some s0 ∧
    sb_events_run s0 [EvPrepare; EvDone; EvRestart; EvRecover; EvPrepare] = Some s ∧
    sb_version_load true (Some (fmap s)) = Some s.
Proof.
  apply (sb_version_persists [EvPrepare; EvDone; EvRestart; EvRecover; EvPrepare] 2).
  - repeat constructor.
  - done.
  - done.
Defined.
