(* ===== verification/SbProtocol.v ===== *)
(** * Agreement of the nodes on the version of the superblocks

    The transactions of [SbVersion] on a cluster: nodes stop, come back in
    the next generation of the membership, exchange their versions
    ([vrt_group_sync_sb_versions], called by the recovery of admind) and run
    transactions ([adm_vrt_group_sync_sb]) whose broadcasts and barriers are
    the only exchanges. Messages are kept with their generation; a node that
    is late goes on in its own generation. *)
From S2P Require Import Prelude Bytes SbVersion.
From stdpp Require Import options.

(** ** The quorum (admind/src/evmgr/evmgr_mship.c) *)

Definition quorum (nb_nodes : Z) : Z := nb_nodes / 2 + 1.

Definition evmgr_has_quorum (nb_nodes : Z) (have_token : bool) (membership : gset Z) : bool :=
  let num_voices := Z.of_nat (size membership) in
  let num_voices := if have_token then num_voices + 1 else num_voices in
  quorum nb_nodes <=? num_voices.

(** Without the token, two memberships that have the quorum share a node. *)
Lemma quorums_meet nodes m1 m2 :
  m1 ⊆ nodes → m2 ⊆ nodes →
  evmgr_has_quorum (Z.of_nat (size nodes)) false m1 = true →
  evmgr_has_quorum (Z.of_nat (size nodes)) false m2 = true → ∃ n, n ∈ m1 ∧ n ∈ m2.
Proof.
  unfold evmgr_has_quorum, quorum. rewrite !Z.leb_le. intros H1 H2 Q1 Q2.
  destruct (decide (m1 ∩ m2 = ∅)) as [E|E].
  - exfalso. assert (Hd : m1 ## m2) by set_solver.
    pose proof (size_union m1 m2 Hd). pose proof (subseteq_size (m1 ∪ m2) nodes ltac:(set_solver)).
    pose proof (Z.div_mod (Z.of_nat (size nodes)) 2). pose proof (Z.mod_pos_bound (Z.of_nat (size nodes)) 2).
    lia.
  - apply set_choose_L in E as [n Hn]. exists n. set_solver.
Qed.

(** ** The cluster *)

Inductive phase :=
  | Out                        (* stopped, or waiting for a recovery *)
  | Syncing (heard : gset Z)   (* [vrt_group_sync_sb_versions] *)
  | Synced                     (* at the barrier that ends it *)
  | Ready
  | Asked                      (* broadcast of [sync_info] *)
  | Prepared
  | Written                    (* superblocks written, at the first barrier *)
  | Done.                      (* at the second barrier *)

#[export] Instance phase_eq_dec : EqDecision phase.
Proof. solve_decision. Defined.

Record node := mk_node {
  n_gen : nat;
  n_calls : nat;               (* calls of [adm_vrt_group_sync_sb] in the generation *)
  n_phase : phase;
  n_sb : sb_version_t
}.

(** The messages sent so far, by generation, node and call; those of barriers
    come with the version of the sender at that time, for the proofs. *)
Record cluster := mk_cluster {
  nodes : gmap Z node;
  snaps : gmap (nat * Z) sb_version_t;
  synced : gmap (nat * Z) sb_version_t;
  asked : gmap (nat * Z * nat) (sync_info * sb_version_t);
  written : gset (nat * Z * nat);
  dones : gmap (nat * Z * nat) sb_version_t
}.

Definition set_node (n : Z) (x : node) (s : cluster) : cluster :=
  mk_cluster (<[n := x]> (nodes s)) (snaps s) (synced s) (asked s) (written s) (dones s).
Definition post_snap k v (s : cluster) : cluster :=
  mk_cluster (nodes s) (<[k := v]> (snaps s)) (synced s) (asked s) (written s) (dones s).
Definition post_synced k v (s : cluster) : cluster :=
  mk_cluster (nodes s) (snaps s) (<[k := v]> (synced s)) (asked s) (written s) (dones s).
Definition post_asked k v (s : cluster) : cluster :=
  mk_cluster (nodes s) (snaps s) (synced s) (<[k := v]> (asked s)) (written s) (dones s).
Definition post_written k (s : cluster) : cluster :=
  mk_cluster (nodes s) (snaps s) (synced s) (asked s) ({[k]} ∪ written s) (dones s).
Definition post_done k v (s : cluster) : cluster :=
  mk_cluster (nodes s) (snaps s) (synced s) (asked s) (written s) (<[k := v]> (dones s)).

Section protocol.

(** [mship g]: the membership of generation [g].  [reliable]: no node fails
    between the first barrier of a transaction and the record of its end. *)
Context (mship : nat → gset Z) (reliable : bool).

(** Whether the replies of call [k] lead to a transaction. *)
Definition goes (replies : list sync_info) : bool :=
  match sync_sb_decision (map Some replies) with Some (Ok true) => true | _ => false end.

Definition replies_of (s : cluster) (g k : nat) : option (list sync_info) :=
  mapM (λ m, fst <$> asked s !! (g, m, k)) (elements (mship g)).

(** Node [m] has recorded the end of transaction [k], or is about to. *)
Definition passes (s : cluster) (g : nat) (m : Z) (k : nat) : Prop :=
  is_Some (dones s !! (g, m, k)) ∨
  ∃ x, nodes s !! m = Some x ∧ n_gen x = g ∧ n_phase x = Written ∧ n_calls x = k.

Definition may_fail (s : cluster) (x : node) : Prop :=
  reliable = true → n_phase x = Written → ∀ m, dones s !! (n_gen x, m, n_calls x) = None.

Inductive cluster_step (s : cluster) : cluster → Prop :=
  | st_join n x g sb :
      nodes s !! n = Some x → n ∈ mship g → (n_gen x < g)%nat → may_fail s x →
      sb_version_local_recover (n_sb x) = Some sb →
      cluster_step s (post_snap (g, n) sb (set_node n (mk_node g 0 (Syncing ∅) sb) s))
  | st_hear n x heard m peer padding sb :
      nodes s !! n = Some x → n_phase x = Syncing heard → m ∈ mship (n_gen x) → m ∉ heard →
      snaps s !! (n_gen x, m) = Some peer → len padding = 4 →
      sb_version_update_from (n_sb x) (sb_version_serialize padding peer) = Some sb →
      cluster_step s (set_node n (mk_node (n_gen x) (n_calls x) (Syncing ({[m]} ∪ heard)) sb) s)
  | st_synced n x heard :
      nodes s !! n = Some x → n_phase x = Syncing heard → mship (n_gen x) ⊆ heard →
      sb_version_is_valid (n_sb x) = true →
      cluster_step s (post_synced (n_gen x, n) (n_sb x)
        (set_node n (mk_node (n_gen x) (n_calls x) Synced (n_sb x)) s))
  | st_ready n x :
      nodes s !! n = Some x → n_phase x = Synced →
      (∀ m, m ∈ mship (n_gen x) → is_Some (synced s !! (n_gen x, m))) →
      cluster_step s (set_node n (mk_node (n_gen x) (n_calls x) Ready (n_sb x)) s)
  | st_ask n x info :
      nodes s !! n = Some x → n_phase x = Ready →
      cluster_step s (post_asked (n_gen x, n, S (n_calls x)) (info, n_sb x)
        (set_node n (mk_node (n_gen x) (S (n_calls x)) Asked (n_sb x)) s))
  | st_skip n x replies :
      nodes s !! n = Some x → n_phase x = Asked →
      replies_of s (n_gen x) (n_calls x) = Some replies → goes replies = false →
      cluster_step s (set_node n (mk_node (n_gen x) (n_calls x) Ready (n_sb x)) s)
  | st_prepare n x replies sb v :
      nodes s !! n = Some x → n_phase x = Asked →
      replies_of s (n_gen x) (n_calls x) = Some replies → goes replies = true →
      next_version (metadata (n_sb x)) + 1 < 2 ^ 64 →
      sb_version_new_version_prepare (n_sb x) = Some (sb, v) →
      cluster_step s (set_node n (mk_node (n_gen x) (n_calls x) Prepared sb) s)
  | st_write n x :
      nodes s !! n = Some x → n_phase x = Prepared →
      cluster_step s (post_written (n_gen x, n, n_calls x)
        (set_node n (mk_node (n_gen x) (n_calls x) Written (n_sb x)) s))
  | st_done n x sb :
      nodes s !! n = Some x → n_phase x = Written →
      (∀ m, m ∈ mship (n_gen x) → (n_gen x, m, n_calls x) ∈ written s) →
      (reliable = true → ∀ m, m ∈ mship (n_gen x) → passes s (n_gen x) m (n_calls x)) →
      sb_version_new_version_done (n_sb x) = Some sb →
      cluster_step s (post_done (n_gen x, n, n_calls x) sb
        (set_node n (mk_node (n_gen x) (n_calls x) Done sb) s))
  | st_commit n x sb :
      nodes s !! n = Some x → n_phase x = Done →
      sb_version_new_version_commit (n_sb x) = Some sb →
      cluster_step s (set_node n (mk_node (n_gen x) (n_calls x) Ready sb) s)
  | st_leave n x :
      nodes s !! n = Some x → may_fail s x →
      cluster_step s (set_node n (mk_node (n_gen x) (n_calls x) Out (n_sb x)) s).

(** Initially each node has the version of the creation of the group. *)
Definition cluster_init (all : gset Z) (s : cluster) : Prop :=
  ∃ sb, sb_version_new true = Some sb ∧
    s = mk_cluster (gset_to_gmap (mk_node 0 0 Out sb) all) ∅ ∅ ∅ ∅ ∅.

Definition cluster_reachable (all : gset Z) (s : cluster) : Prop :=
  ∃ s0, cluster_init all s0 ∧ rtc cluster_step s0 s.

(** ** Invariant *)

Definition ver (sb : sb_version_t) : Z := version (metadata sb).
Definition nxt (sb : sb_version_t) : Z := next_version (metadata sb).
Definition pnd (sb : sb_version_t) : Z := pending_version (metadata sb).

(** The version after the recovery of the node. *)
Definition rver (sb : sb_version_t) : Z := version (recovered (metadata sb)).

Definition same (a b : sb_version_t) : Prop := ver a = ver b ∧ nxt a = nxt b.
Definition leq (a b : sb_version_t) : Prop := ver a <= ver b ∧ nxt a <= nxt b.

(** All the members take the same decision for call [k]. *)
Definition decided (s : cluster) (g k : nat) (b : bool) : Prop :=
  ∃ replies, replies_of s g k = Some replies ∧ goes replies = b.

(** [x] was given by a transaction that started from a version at most [v]. *)
Definition given (s : cluster) (v x : Z) : Prop :=
  x = 2 ∨ ∃ g n k i sb, asked s !! (g, n, k) = Some (i, sb) ∧ decided s g k true ∧
    x = nxt sb + 1 ∧ ver sb <= v.

(** The version [v] was recorded as written. *)
Definition recorded (s : cluster) (v : Z) : Prop :=
  v = 1 ∨ ∃ g n k sb, dones s !! (g, n, k) = Some sb ∧ v = pnd sb.

Record version_ok (s : cluster) (sb : sb_version_t) : Prop := {
  vo_sync : in_sync sb;
  vo_ver : 1 <= ver sb < nxt sb;
  vo_given : given s (ver sb) (nxt sb);
  vo_recorded : recorded s (ver sb)
}.

(** State of a node whose last call is [k], asked with [sb0]. *)
Definition call_ok (s : cluster) (n : Z) (x : node) (P : sb_version_t → Prop) : Prop :=
  ∃ i sb0, asked s !! (n_gen x, n, n_calls x) = Some (i, sb0) ∧ P sb0.

Definition pending_of (sb0 sb : sb_version_t) : Prop :=
  ver sb = ver sb0 ∧ nxt sb = nxt sb0 + 1 ∧ pnd sb = nxt sb0.

Definition phase_ok (s : cluster) (n : Z) (x : node) : Prop :=
  let g := n_gen x in
  let sb := n_sb x in
  match n_phase x with
  | Out => True
  | Syncing heard =>
      n_calls x = 0%nat ∧
      (∃ m sm, snaps s !! (g, m) = Some sm ∧ same sm sb) ∧
      (∀ m, m ∈ heard → ∃ sm, snaps s !! (g, m) = Some sm ∧ leq sm sb)
  | Synced => n_calls x = 0%nat ∧ ∃ sb0, synced s !! (g, n) = Some sb0 ∧ same sb0 sb
  | Ready =>
      (n_calls x = 0%nat ∧ ∃ sb0, synced s !! (g, n) = Some sb0 ∧ same sb0 sb) ∨
      call_ok s n x (λ sb0, decided s g (n_calls x) true ∧ ver sb = nxt sb0 ∧ nxt sb = nxt sb0 + 1
                          ∨ decided s g (n_calls x) false ∧ same sb0 sb)
  | Asked => call_ok s n x (λ sb0, same sb0 sb)
  | Prepared | Written => call_ok s n x (λ sb0, decided s g (n_calls x) true ∧ pending_of sb0 sb)
  | Done => call_ok s n x (λ sb0, decided s g (n_calls x) true ∧ pending_of sb0 sb) ∧
            pending_step (metadata sb) = SBV_DONE
  end.

Definition step_ok (s : cluster) (n : Z) (x : node) : Prop :=
  pending_step (metadata (n_sb x)) = SBV_DONE →
  (n_phase x = Done ∨ n_phase x = Out) ∧ ver (n_sb x) <= pnd (n_sb x) < nxt (n_sb x) ∧
  ∃ sb, dones s !! (n_gen x, n, n_calls x) = Some sb ∧ pnd sb = pnd (n_sb x).

Record node_ok (s : cluster) (n : Z) (x : node) : Prop := {
  no_version : version_ok s (n_sb x);
  no_member : n_phase x ≠ Out → n ∈ mship (n_gen x);
  no_phase : phase_ok s n x;
  no_step : step_ok s n x
}.

(** The order of the phases of a call. *)
Definition rank (p : phase) : nat :=
  match p with
  | Syncing _ => 0 | Synced => 1 | Asked => 2 | Prepared => 3 | Written => 4 | Done => 5
  | Ready => 6 | Out => 7
  end.

Record snap_ok (s : cluster) (g : nat) (n : Z) (sb : sb_version_t) : Prop := {
  sn_version : version_ok s sb;
  sn_step : pending_step (metadata sb) ≠ SBV_DONE;
  sn_member : n ∈ mship g;
  sn_node : ∃ x, nodes s !! n = Some x ∧ (g <= n_gen x)%nat
}.

Record synced_ok (s : cluster) (g : nat) (n : Z) (sb : sb_version_t) : Prop := {
  sy_all m : m ∈ mship g → ∃ sm, snaps s !! (g, m) = Some sm ∧ leq sm sb;
  sy_one : ∃ m sm, m ∈ mship g ∧ snaps s !! (g, m) = Some sm ∧ same sm sb;
  sy_node : ∃ x, nodes s !! n = Some x ∧ (g <= n_gen x)%nat ∧
    (n_gen x = g → (0 < n_calls x)%nat ∨ (1 <= rank (n_phase x))%nat)
}.

Record asked_ok (s : cluster) (g : nat) (n : Z) (k : nat) (sb : sb_version_t) : Prop := {
  as_member : n ∈ mship g;
  as_ver : ver sb < nxt sb;
  as_node : ∃ x, nodes s !! n = Some x ∧ (g <= n_gen x)%nat ∧
    (n_gen x = g → (k <= n_calls x)%nat) ∧ nxt sb <= nxt (n_sb x);
  as_pos : (0 < k)%nat;
  as_first : k = 1%nat → ∃ sb0, synced s !! (g, n) = Some sb0 ∧ same sb0 sb;
  as_next k' : k = S (S k') → ∃ i sb0, asked s !! (g, n, S k') = Some (i, sb0) ∧
    (decided s g (S k') true ∧ ver sb = nxt sb0 ∧ nxt sb = nxt sb0 + 1
     ∨ decided s g (S k') false ∧ same sb0 sb)
}.

Record done_ok (s : cluster) (g : nat) (n : Z) (k : nat) (sb : sb_version_t) : Prop := {
  dn_asked : ∃ i sb0, asked s !! (g, n, k) = Some (i, sb0) ∧ pnd sb = nxt sb0;
  dn_decided : decided s g k true;
  dn_node : ∃ x, nodes s !! n = Some x ∧ (g <= n_gen x)%nat ∧ pnd sb <= rver (n_sb x) ∧
    (n_gen x = g → (k < n_calls x)%nat ∨ k = n_calls x ∧ (5 <= rank (n_phase x))%nat);
  dn_passes m : reliable = true → m ∈ mship g → passes s g m k
}.

Record inv (s : cluster) : Prop := {
  iv_node n x : nodes s !! n = Some x → node_ok s n x;
  iv_snap g n sb : snaps s !! (g, n) = Some sb → snap_ok s g n sb;
  iv_synced g n sb : synced s !! (g, n) = Some sb → synced_ok s g n sb;
  iv_asked g n k i sb : asked s !! (g, n, k) = Some (i, sb) → asked_ok s g n k sb;
  iv_done g n k sb : dones s !! (g, n, k) = Some sb → done_ok s g n k sb;
  iv_asked_snap g g' n k i sb sb' :
    asked s !! (g, n, k) = Some (i, sb) → snaps s !! (g', n) = Some sb' → (g < g')%nat →
    nxt sb <= nxt sb';
  iv_done_snap g g' n k sb sb' :
    dones s !! (g, n, k) = Some sb → snaps s !! (g', n) = Some sb' → (g < g')%nat →
    pnd sb <= ver sb'
}.

(** *** Consequences of the invariant *)

Section consequences.
Context (s : cluster) (Hs : inv s).
Context (Hmeet : ∀ g g', ∃ n, n ∈ mship g ∧ n ∈ mship g').

Lemma decided_asked g k b n :
  decided s g k b → n ∈ mship g → ∃ i sb, asked s !! (g, n, k) = Some (i, sb).
Proof using.
  intros (replies & Hr & _) Hn. unfold replies_of in Hr. apply mapM_Some in Hr.
  apply elem_of_elements in Hn. apply list_elem_of_lookup_1 in Hn as [j Hj].
  destruct (Forall2_lookup_l _ _ _ _ _ Hr Hj) as (info & _ & Hi).
  destruct (asked s !! (g, n, k)) as [[i sb]|]; [|done]. by exists i, sb.
Qed.

Lemma decided_same g k b b' : decided s g k b → decided s g k b' → b = b'.
Proof using. intros (r & Hr & <-) (r' & Hr' & <-). congruence. Qed.

Lemma same_sym a b : same a b → same b a.
Proof using. intros [? ?]. by split. Qed.

Lemma synced_leq g a b sa sb :
  synced s !! (g, a) = Some sa → synced s !! (g, b) = Some sb → leq sa sb.
Proof using Hs.
  intros Ha Hb. destruct (sy_one _ _ _ _ (iv_synced _ Hs _ _ _ Ha)) as (m & sm & Hm & Esm & [Ev En]).
  destruct (sy_all _ _ _ _ (iv_synced _ Hs _ _ _ Hb) m Hm) as (sm' & Esm' & [Lv Ln]).
  rewrite Esm in Esm'. injection Esm' as <-. split; lia.
Qed.

Lemma synced_agree g a b sa sb :
  synced s !! (g, a) = Some sa → synced s !! (g, b) = Some sb → same sa sb.
Proof using Hs.
  intros Ha Hb. destruct (synced_leq g a b sa sb Ha Hb), (synced_leq g b a sb sa Hb Ha). split; lia.
Qed.

Lemma asked_agree g a b k i j sa sb :
  asked s !! (g, a, k) = Some (i, sa) → asked s !! (g, b, k) = Some (j, sb) → same sa sb.
Proof using Hs.
  revert i j sa sb. induction k as [|k IH]; intros i j sa sb Ha Hb.
  { pose proof (as_pos _ _ _ _ _ (iv_asked _ Hs _ _ _ _ _ Ha)). lia. }
  pose proof (iv_asked _ Hs _ _ _ _ _ Ha) as Oa. pose proof (iv_asked _ Hs _ _ _ _ _ Hb) as Ob.
  destruct k as [|k].
  - destruct (as_first _ _ _ _ _ Oa eq_refl) as (s1 & E1 & [? ?]).
    destruct (as_first _ _ _ _ _ Ob eq_refl) as (s2 & E2 & [? ?]).
    destruct (synced_agree g a b s1 s2 E1 E2). split; lia.
  - destruct (as_next _ _ _ _ _ Oa k eq_refl) as (i1 & s1 & E1 & D1).
    destruct (as_next _ _ _ _ _ Ob k eq_refl) as (i2 & s2 & E2 & D2).
    destruct (IH _ _ _ _ E1 E2) as [Hv Hn]. unfold same.
    destruct D1 as [(D1 & ? & ?)|(D1 & ? & ?)], D2 as [(D2 & ? & ?)|(D2 & ? & ?)];
      pose proof (decided_same _ _ _ _ D1 D2); try done; lia.
Qed.

(** The version a node asks with only grows in a generation. *)
Lemma asked_synced g n k i sb :
  asked s !! (g, n, k) = Some (i, sb) → ∃ sb0, synced s !! (g, n) = Some sb0 ∧ leq sb0 sb.
Proof using Hs.
  revert i sb. induction k as [|k IH]; intros i sb Ha.
  { pose proof (as_pos _ _ _ _ _ (iv_asked _ Hs _ _ _ _ _ Ha)). lia. }
  pose proof (iv_asked _ Hs _ _ _ _ _ Ha) as Oa. destruct k as [|k].
  - destruct (as_first _ _ _ _ _ Oa eq_refl) as (s1 & E1 & [? ?]). exists s1. split; [done|split; lia].
  - destruct (as_next _ _ _ _ _ Oa k eq_refl) as (i1 & s1 & E1 & D1).
    destruct (IH _ _ E1) as (s0 & E0 & [Lv Ln]). exists s0. split; [done|].
    pose proof (as_ver _ _ _ _ _ (iv_asked _ Hs _ _ _ _ _ E1)).
    destruct D1 as [(_ & ? & ?)|(_ & ? & ?)]; split; lia.
Qed.

Lemma asked_grows g a b k d i j sa sb :
  asked s !! (g, a, k) = Some (i, sa) → asked s !! (g, b, (k + d)%nat) = Some (j, sb) →
  leq sa sb ∧ (decided s g k true → (0 < d)%nat → nxt sa <= ver sb).
Proof using Hs.
  intros Ha. revert j sb. induction d as [|d IH]; intros j sb Hb.
  { rewrite Nat.add_0_r in Hb. destruct (asked_agree _ _ _ _ _ _ _ _ Ha Hb). split; [split; lia|lia]. }
  pose proof (iv_asked _ Hs _ _ _ _ _ Hb) as Ob. pose proof (as_pos _ _ _ _ _ (iv_asked _ Hs _ _ _ _ _ Ha)).
  destruct (as_next _ _ _ _ _ Ob (k + d - 1)%nat ltac:(lia)) as (i1 & s1 & E1 & D1).
  replace (S (k + d - 1)) with (k + d)%nat in * by lia. destruct (IH _ _ E1) as [[Lv Ln] Hd].
  pose proof (as_ver _ _ _ _ _ (iv_asked _ Hs _ _ _ _ _ E1)). split.
  - destruct D1 as [(_ & ? & ?)|(_ & ? & ?)]; split; lia.
  - intros Hk _. destruct d as [|d].
    + rewrite Nat.add_0_r in *. destruct D1 as [(_ & ? & ?)|(D1 & _)]; [lia|].
      by pose proof (decided_same _ _ _ _ Hk D1).
    + specialize (Hd Hk ltac:(lia)). destruct D1 as [(_ & ? & ?)|(_ & ? & ?)]; lia.
Qed.

(** What was recorded, or given, in a generation is known in the later ones. *)
Lemma done_synced g g' m n k sd sn :
  reliable = true → dones s !! (g, m, k) = Some sd → synced s !! (g', n) = Some sn → (g < g')%nat →
  pnd sd <= ver sn.
Proof using Hs Hmeet.
  intros Hrel Hd Hn Hg. destruct (Hmeet g g') as (c & Hc & Hc').
  pose proof (iv_done _ Hs _ _ _ _ Hd) as Od. destruct (dn_asked _ _ _ _ _ Od) as (i & s0 & E0 & ->).
  destruct (sy_all _ _ _ _ (iv_synced _ Hs _ _ _ Hn) c Hc') as (sc & Esc & [Lv _]).
  destruct (dn_passes _ _ _ _ _ Od c Hrel Hc) as [[sd' Hd']|(x & Hx & <- & _)].
  - pose proof (iv_done _ Hs _ _ _ _ Hd') as Od'. destruct (dn_asked _ _ _ _ _ Od') as (i' & s0' & E0' & Ep).
    destruct (asked_agree _ _ _ _ _ _ _ _ E0 E0'). pose proof (iv_done_snap _ Hs _ _ _ _ _ _ Hd' Esc Hg). lia.
  - destruct (sn_node _ _ _ _ (iv_snap _ Hs _ _ _ Esc)) as (x' & Hx' & Hge).
    rewrite Hx in Hx'. injection Hx' as <-. lia.
Qed.

Lemma given_synced g g' a n k i sa sn :
  asked s !! (g, a, k) = Some (i, sa) → decided s g k true → synced s !! (g', n) = Some sn → (g < g')%nat →
  nxt sa <= nxt sn.
Proof using Hs Hmeet.
  intros Ha Hd Hn Hg. destruct (Hmeet g g') as (c & Hc & Hc').
  destruct (decided_asked _ _ _ _ Hd Hc) as (j & sc & Ec). destruct (asked_agree _ _ _ _ _ _ _ _ Ha Ec).
  destruct (sy_all _ _ _ _ (iv_synced _ Hs _ _ _ Hn) c Hc') as (sm & Esm & [_ Ln]).
  pose proof (iv_asked_snap _ Hs _ _ _ _ _ _ _ Ec Esm Hg). lia.
Qed.

(** A node with an older version gave no version beyond the newer one. *)
Lemma older_gave_less va xa vb :
  reliable = true → given s va xa → recorded s vb → 1 <= va < vb → xa <= vb + 1.
Proof using Hs Hmeet.
  intros Hrel Hg Hr Hlt. destruct Hr as [->|(g1 & n1 & k1 & sd & Hd & ->)]; [lia|].
  destruct Hg as [->|(g2 & n2 & k2 & i2 & s2 & H2 & D2 & -> & Hle)]; [lia|].
  pose proof (iv_done _ Hs _ _ _ _ Hd) as Od. destruct (dn_asked _ _ _ _ _ Od) as (i1 & s1 & E1 & Ep).
  destruct (lt_eq_lt_dec g1 g2) as [[Hlt'|<-]|Hlt'].
  - destruct (asked_synced _ _ _ _ _ H2) as (sy & Ey & [Lv _]).
    pose proof (done_synced _ _ _ _ _ _ _ Hrel Hd Ey Hlt'). lia.
  - destruct (le_lt_dec k2 k1) as [Hk|Hk].
    + replace k1 with (k2 + (k1 - k2))%nat in E1 by lia.
      destruct (asked_grows _ _ _ _ _ _ _ _ _ H2 E1) as [[_ Ln] _]. lia.
    + replace k2 with (k1 + (k2 - k1))%nat in H2 by lia.
      destruct (asked_grows _ _ _ _ _ _ _ _ _ E1 H2) as [_ Hnv].
      specialize (Hnv (dn_decided _ _ _ _ _ Od) ltac:(lia)). lia.
  - destruct (asked_synced _ _ _ _ _ E1) as (sy & Ey & [_ Ln]).
    pose proof (given_synced _ _ _ _ _ _ _ _ H2 D2 Ey Hlt'). lia.
Qed.
End consequences.

(** *** Preservation *)

Record node_le (x y : node) : Prop := {
  nl_gen : (n_gen x <= n_gen y)%nat;
  nl_calls : n_gen x = n_gen y → (n_calls x < n_calls y)%nat ∨
    n_calls x = n_calls y ∧ (rank (n_phase x) <= rank (n_phase y))%nat;
  nl_next : nxt (n_sb x) <= nxt (n_sb y);
  nl_version : rver (n_sb x) <= rver (n_sb y)
}.

#[local] Instance node_le_refl : Reflexive node_le.
Proof using. intros x. split; [done|by right|done|done]. Qed.

(** [s'] has all the messages of [s], and its nodes have progressed. *)
Record extends (s s' : cluster) : Prop := {
  ex_snaps : snaps s ⊆ snaps s';
  ex_synced : synced s ⊆ synced s';
  ex_asked : asked s ⊆ asked s';
  ex_dones : dones s ⊆ dones s';
  ex_nodes n x : nodes s !! n = Some x → ∃ y, nodes s' !! n = Some y ∧ node_le x y
}.

Section extension.
Context (s s' : cluster) (He : extends s s').

Lemma decided_extends g k b : decided s g k b → decided s' g k b.
Proof using He.
  intros (l & Hl & Hb). exists l. split; [|done]. unfold replies_of in *.
  apply mapM_Some. apply mapM_Some in Hl. eapply Forall2_impl; [exact Hl|].
  intros m info. cbv beta. rewrite !fmap_Some. intros (p & Hp & ->). exists p. split; [|done].
  exact (lookup_weaken _ _ _ _ Hp (ex_asked _ _ He)).
Qed.

Lemma given_extends v x : given s v x → given s' v x.
Proof using He.
  intros [?|(g & n & k & i & sb & Ha & Hd & ? & ?)]; [by left|]. right. exists g, n, k, i, sb.
  split_and!; [exact (lookup_weaken _ _ _ _ Ha (ex_asked _ _ He))|by apply decided_extends|done|done].
Qed.

Lemma recorded_extends v : recorded s v → recorded s' v.
Proof using He.
  intros [?|(g & n & k & sb & Hd & ?)]; [by left|]. right. exists g, n, k, sb.
  split; [exact (lookup_weaken _ _ _ _ Hd (ex_dones _ _ He))|done].
Qed.

Lemma version_ok_extends sb : version_ok s sb → version_ok s' sb.
Proof using He.
  intros []. split; [done|done|by apply given_extends|by apply recorded_extends].
Qed.

Lemma call_ok_extends n x (P P' : sb_version_t → Prop) :
  call_ok s n x P → (∀ sb0, P sb0 → P' sb0) → call_ok s' n x P'.
Proof using He.
  intros (i & sb0 & Ha & HP) HPP. exists i, sb0.
  split; [exact (lookup_weaken _ _ _ _ Ha (ex_asked _ _ He))|by apply HPP].
Qed.

Lemma synced_extends g n (P : sb_version_t → Prop) :
  (∃ sb0, synced s !! (g, n) = Some sb0 ∧ P sb0) → ∃ sb0, synced s' !! (g, n) = Some sb0 ∧ P sb0.
Proof using He.
  intros (sb0 & H & HP). exists sb0. split; [exact (lookup_weaken _ _ _ _ H (ex_synced _ _ He))|done].
Qed.

Lemma snap_extends g n (P : sb_version_t → Prop) :
  (∃ sb0, snaps s !! (g, n) = Some sb0 ∧ P sb0) → ∃ sb0, snaps s' !! (g, n) = Some sb0 ∧ P sb0.
Proof using He.
  intros (sb0 & H & HP). exists sb0. split; [exact (lookup_weaken _ _ _ _ H (ex_snaps _ _ He))|done].
Qed.

Lemma phase_ok_extends n x : phase_ok s n x → phase_ok s' n x.
Proof using He.
  unfold phase_ok. destruct (n_phase x).
  - done.
  - intros (Hc & (m & Hm) & Hall). split_and!; [done|exists m; by apply snap_extends|].
    intros m' Hm'. by apply snap_extends, Hall.
  - intros [Hc Hm]. split; [done|by apply synced_extends].
  - intros [[Hc Hm]|Hc]; [left; split; [done|by apply synced_extends]|right].
    eapply call_ok_extends; [exact Hc|]. intros sb0 [[? ?]|[? ?]]; [left|right];
      (split; [by apply decided_extends|done]).
  - intros Hc. by eapply call_ok_extends.
  - intros Hc. eapply call_ok_extends; [exact Hc|]. intros sb0 [? ?]. split; [by apply decided_extends|done].
  - intros Hc. eapply call_ok_extends; [exact Hc|]. intros sb0 [? ?]. split; [by apply decided_extends|done].
  - intros [Hc Hd]. split; [|done].
    eapply call_ok_extends; [exact Hc|]. intros sb0 [? ?]. split; [by apply decided_extends|done].
Qed.

Lemma node_ok_extends n x : node_ok s n x → node_ok s' n x.
Proof using He.
  intros [Hv Hm Hp Hst]. split; [by apply version_ok_extends|done|by apply phase_ok_extends|].
  intros Hd. destruct (Hst Hd) as (? & ? & sb & E & ?).
  split; [done|]. split; [done|]. exists sb.
  split; [exact (lookup_weaken _ _ _ _ E (ex_dones _ _ He))|done].
Qed.

Lemma snap_ok_extends g n sb : snap_ok s g n sb → snap_ok s' g n sb.
Proof using He.
  intros [Hv Hst Hm (x & Hx & Hg)]. split; [by apply version_ok_extends|done|done|].
  destruct (ex_nodes _ _ He _ _ Hx) as (y & Hy & []). exists y. split; [done|lia].
Qed.

Lemma synced_ok_extends g n sb : synced_ok s g n sb → synced_ok s' g n sb.
Proof using He.
  intros [Ha (m & sm & Hm & E & Hsm) (x & Hx & Hg & Hc)]. split.
  - intros m' Hm'. by apply snap_extends, Ha.
  - exists m, sm. split_and!; [done|exact (lookup_weaken _ _ _ _ E (ex_snaps _ _ He))|done].
  - destruct (ex_nodes _ _ He _ _ Hx) as (y & Hy & []). exists y. split; [done|]. split; [lia|].
    intros Eg. specialize (nl_calls0 ltac:(lia)). specialize (Hc ltac:(lia)). lia.
Qed.

Lemma asked_ok_extends g n k sb : asked_ok s g n k sb → asked_ok s' g n k sb.
Proof using He.
  intros [Hm Hv (x & Hx & Hg & Hc & Hn) Hp Hf Hnx]. split; try done.
  - destruct (ex_nodes _ _ He _ _ Hx) as (y & Hy & []). exists y. split_and!; [done|lia| |lia].
    intros E. specialize (nl_calls0 ltac:(lia)). specialize (Hc ltac:(lia)). lia.
  - intros E. by apply synced_extends, Hf.
  - intros k' E. destruct (Hnx k' E) as (i & sb0 & Ha & Hd). exists i, sb0.
    split; [exact (lookup_weaken _ _ _ _ Ha (ex_asked _ _ He))|].
    destruct Hd as [[? ?]|[? ?]]; [left|right]; (split; [by apply decided_extends|done]).
Qed.

Lemma done_ok_extends g n k sb :
  (∀ m, reliable = true → m ∈ mship g → passes s g m k → passes s' g m k) →
  done_ok s g n k sb → done_ok s' g n k sb.
Proof using He.
  intros Hp [(i & sb0 & Ha & E) Hd (x & Hx & Hg & Hv & Hc) Hpass]. split.
  - exists i, sb0. split; [exact (lookup_weaken _ _ _ _ Ha (ex_asked _ _ He))|done].
  - by apply decided_extends.
  - destruct (ex_nodes _ _ He _ _ Hx) as (y & Hy & []). exists y. split; [done|].
    split; [lia|]. split; [lia|].
    intros Eg. specialize (nl_calls0 ltac:(lia)). specialize (Hc ltac:(lia)). lia.
  - intros m Hr Hm. by apply Hp, Hpass.
Qed.
End extension.

Lemma inv_step s s' n x y :
  inv s → nodes s !! n = Some x → nodes s' = <[n := y]> (nodes s) → node_le x y →
  snaps s ⊆ snaps s' → synced s ⊆ synced s' → asked s ⊆ asked s' → dones s ⊆ dones s' →
  node_ok s' n y →
  (∀ g m k q sb, dones s !! (g, q, k) = Some sb → reliable = true → passes s g m k → passes s' g m k) →
  (∀ g m sb, snaps s' !! (g, m) = Some sb → snaps s !! (g, m) = Some sb ∨ snap_ok s' g m sb) →
  (∀ g m sb, synced s' !! (g, m) = Some sb → synced s !! (g, m) = Some sb ∨ synced_ok s' g m sb) →
  (∀ g m k i sb, asked s' !! (g, m, k) = Some (i, sb) →
     asked s !! (g, m, k) = Some (i, sb) ∨ asked_ok s' g m k sb) →
  (∀ g m k sb, dones s' !! (g, m, k) = Some sb → dones s !! (g, m, k) = Some sb ∨ done_ok s' g m k sb) →
  (∀ g g' m k i sb sb', asked s' !! (g, m, k) = Some (i, sb) → snaps s' !! (g', m) = Some sb' →
     (g < g')%nat → nxt sb <= nxt sb') →
  (∀ g g' m k sb sb', dones s' !! (g, m, k) = Some sb → snaps s' !! (g', m) = Some sb' →
     (g < g')%nat → pnd sb <= ver sb') →
  inv s'.
Proof using.
  intros Hs Hx Hn Hle E1 E2 E3 E4 Hy Hp Nsn Nsy Nas Ndn C1 C2.
  assert (He : extends s s').
  { split; try done. intros m z Hz. rewrite Hn. destruct (decide (m = n)) as [->|Hne].
    - rewrite lookup_insert_eq. rewrite Hx in Hz. injection Hz as <-. by exists y.
    - rewrite lookup_insert_ne by done. exists z. split; [done|reflexivity]. }
  split.
  - intros m z. rewrite Hn, lookup_insert_Some. intros [[<- <-]|[_ Hz]]; [done|].
    by apply (node_ok_extends s s' He), Hs.
  - intros g m sb H. destruct (Nsn _ _ _ H) as [H'|H']; [|done]. by apply (snap_ok_extends s s' He), Hs.
  - intros g m sb H. destruct (Nsy _ _ _ H) as [H'|H']; [|done]. by apply (synced_ok_extends s s' He), Hs.
  - intros g m k i sb H. destruct (Nas _ _ _ _ _ H) as [H'|H']; [|done].
    by eapply (asked_ok_extends s s' He), Hs.
  - intros g m k sb H. destruct (Ndn _ _ _ _ H) as [H'|H']; [|done].
    apply (done_ok_extends s s' He); [|by apply Hs]. intros q Hr Hq. by eapply Hp.
  - done.
  - done.
Qed.

(** A step of a node that sends nothing. *)
Lemma inv_set_node s n x y :
  inv s → nodes s !! n = Some x → node_le x y → node_ok (set_node n y s) n y →
  (reliable = true → n_phase x = Written → ∀ m, dones s !! (n_gen x, m, n_calls x) = None) →
  inv (set_node n y s).
Proof using.
  intros Hs Hx Hle Hy Hw. eapply (inv_step s _ n x y); try done; try by left.
  - intros g m k q sb Hd Hr [Hp|(z & Hz & <- & Hph & <-)]; [by left|]. right.
    destruct (decide (m = n)) as [->|Hne].
    + exfalso. rewrite Hx in Hz. injection Hz as <-. by rewrite (Hw Hr Hph) in Hd.
    + exists z. simpl. rewrite lookup_insert_ne by done. done.
  - intros g g' m k i sb sb'. apply (iv_asked_snap _ Hs).
  - intros g g' m k sb sb'. apply (iv_done_snap _ Hs).
Qed.

(** The messages are those of [s]: what only depends on them. *)
Lemma set_node_extends s n x y :
  nodes s !! n = Some x → node_le x y → extends s (set_node n y s).
Proof using.
  intros Hx Hle. split; try done. intros m z Hz. simpl. destruct (decide (m = n)) as [->|Hne].
  - rewrite lookup_insert_eq. rewrite Hx in Hz. injection Hz as <-. by exists y.
  - rewrite lookup_insert_ne by done. exists z. split; [done|reflexivity].
Qed.

Lemma yields_inv r m sb : yields r m → r = Some sb → in_sync sb ∧ metadata sb = m.
Proof using. intros (sb' & -> & Hs & Hm) [= <-]. done. Qed.

Lemma not_done s n x :
  node_ok s n x → n_phase x ≠ Done → n_phase x ≠ Out →
  pending_step (metadata (n_sb x)) ≠ SBV_DONE.
Proof using. intros [_ _ _ Hst] H1 H2 Hd. destruct (Hst Hd) as [[?|?] _]; done. Qed.

Lemma rver_id sb : pending_step (metadata sb) ≠ SBV_DONE → rver sb = ver sb.
Proof using. unfold rver, ver, recovered. by destruct (pending_step _). Qed.

(** A node that changes phase and keeps its version. *)
Lemma inv_set_phase s n x ph :
  inv s → nodes s !! n = Some x → n_phase x ≠ Done → n_phase x ≠ Out → n_phase x ≠ Written →
  ph ≠ Out → (rank (n_phase x) <= rank ph)%nat →
  let y := mk_node (n_gen x) (n_calls x) ph (n_sb x) in
  phase_ok s n y → inv (set_node n y s).
Proof using.
  intros Hs Hx H1 H2 H3 H4 Hrk y Hph. pose proof (iv_node _ Hs n x Hx) as Ox.
  assert (Hle : node_le x y) by (split; [done|by right|done|done]).
  pose proof (set_node_extends s n x y Hx Hle) as He.
  eapply (inv_set_node s n x y); try done.
  split; [exact (version_ok_extends _ _ He _ (no_version _ _ _ Ox))|intros _; by apply Ox| |].
  - exact (phase_ok_extends _ _ He _ _ Hph).
  - intros Hd. by destruct (not_done _ _ _ Ox H1 H2).
Qed.

Lemma step_ready s n x :
  inv s → nodes s !! n = Some x → n_phase x = Synced →
  inv (set_node n (mk_node (n_gen x) (n_calls x) Ready (n_sb x)) s).
Proof using.
  intros Hs Hx Hp. apply inv_set_phase; try done; try (rewrite Hp; done || cbn; lia).
  pose proof (no_phase _ _ _ (iv_node _ Hs n x Hx)) as H. unfold phase_ok in *. rewrite Hp in H. by left.
Qed.

Lemma step_skip s n x replies :
  inv s → nodes s !! n = Some x → n_phase x = Asked →
  replies_of s (n_gen x) (n_calls x) = Some replies → goes replies = false →
  inv (set_node n (mk_node (n_gen x) (n_calls x) Ready (n_sb x)) s).
Proof using.
  intros Hs Hx Hp Hr Hg. apply inv_set_phase; try done; try (rewrite Hp; done || cbn; lia).
  pose proof (no_phase _ _ _ (iv_node _ Hs n x Hx)) as H. unfold phase_ok in *. rewrite Hp in H. right.
  destruct H as (i & sb0 & Ha & Hsame). exists i, sb0. split; [done|]. right. split; [by exists replies|done].
Qed.

Lemma step_leave s n x :
  inv s → nodes s !! n = Some x → may_fail s x →
  inv (set_node n (mk_node (n_gen x) (n_calls x) Out (n_sb x)) s).
Proof using.
  intros Hs Hx Hf. pose proof (iv_node _ Hs n x Hx) as Ox.
  set (y := mk_node _ _ _ _).
  assert (Hle : node_le x y) by (split; [done|right; by destruct (n_phase x); cbn; lia|done|done]).
  pose proof (set_node_extends s n x y Hx Hle) as He.
  eapply (inv_set_node s n x y); try done.
  split; [exact (version_ok_extends _ _ He _ (no_version _ _ _ Ox))|done|done|].
  intros Hd. destruct (no_step _ _ _ Ox Hd) as (_ & Hb & Hsb). split; [by right|done].
Qed.

Lemma step_prepare s n x replies sb v :
  inv s → nodes s !! n = Some x → n_phase x = Asked →
  replies_of s (n_gen x) (n_calls x) = Some replies → goes replies = true →
  next_version (metadata (n_sb x)) + 1 < 2 ^ 64 →
  sb_version_new_version_prepare (n_sb x) = Some (sb, v) →
  inv (set_node n (mk_node (n_gen x) (n_calls x) Prepared sb) s).
Proof using.
  intros Hs Hx Hp Hr Hg Hlt E. pose proof (iv_node _ Hs n x Hx) as Ox.
  pose proof (no_version _ _ _ Ox) as [Hsy Hv Hgv Hrc].
  destruct (sb_prepare_ok _ Hsy Hlt) as (sb' & E' & Hsy' & Em). rewrite E in E'. injection E' as <- _.
  assert (Ev : ver sb = ver (n_sb x)) by (unfold ver; by rewrite Em).
  assert (En : nxt sb = nxt (n_sb x) + 1) by (unfold nxt; by rewrite Em).
  assert (Ep : pnd sb = nxt (n_sb x)) by (unfold pnd; by rewrite Em).
  assert (Est : pending_step (metadata sb) ≠ SBV_DONE) by (by rewrite Em).
  assert (Est0 : pending_step (metadata (n_sb x)) ≠ SBV_DONE)
    by (apply (not_done _ _ _ Ox); by rewrite Hp).
  pose proof (no_phase _ _ _ Ox) as H. unfold phase_ok in H. rewrite Hp in H.
  destruct H as (i & sb0 & Ha & [Sv Sn]).
  set (y := mk_node _ _ _ _).
  assert (Hle : node_le x y).
  { split; cbn; [done|rewrite Hp; cbn; lia|lia|]. rewrite !rver_id by done. lia. }
  pose proof (set_node_extends s n x y Hx Hle) as He.
  eapply (inv_set_node s n x y); try done; [|by rewrite Hp].
  split.
  - split; cbn [n_sb y]; [done|lia| |rewrite Ev; by apply (recorded_extends _ _ He)].
    right. exists (n_gen x), n, (n_calls x), i, sb0. split_and!; [done| |lia|lia].
    apply (decided_extends _ _ He). by exists replies.
  - intros _. apply Ox. by rewrite Hp.
  - exists i, sb0. split; [done|]. split; [apply (decided_extends _ _ He); by exists replies|].
    unfold pending_of. cbn [n_sb y]. lia.
  - intros Hd. done.
Qed.

Lemma step_commit s n x sb :
  inv s → nodes s !! n = Some x → n_phase x = Done →
  sb_version_new_version_commit (n_sb x) = Some sb →
  inv (set_node n (mk_node (n_gen x) (n_calls x) Ready sb) s).
Proof using.
  intros Hs Hx Hp E. pose proof (iv_node _ Hs n x Hx) as Ox.
  pose proof (no_version _ _ _ Ox) as [Hsy Hv Hgv Hrc].
  destruct (yields_inv _ _ _ (commit_ok _ Hsy) E) as [Hsy' Em].
  pose proof (no_phase _ _ _ Ox) as H. unfold phase_ok in H. rewrite Hp in H.
  destruct H as [(i & sb0 & Ha & Hdec & Pv & Pn & Pp) Hd].
  destruct (no_step _ _ _ Ox Hd) as (_ & Hb & sd & Esd & Epd).
  assert (Ev : ver sb = pnd (n_sb x)) by (unfold ver; by rewrite Em).
  assert (En : nxt sb = nxt (n_sb x)) by (unfold nxt; by rewrite Em).
  assert (Est : pending_step (metadata sb) ≠ SBV_DONE) by (by rewrite Em).
  set (y := mk_node _ _ _ _).
  assert (Hle : node_le x y).
  { split; cbn; [done|rewrite Hp; cbn; lia|lia|]. rewrite (rver_id sb), Ev by done. unfold rver, recovered. by rewrite Hd. }
  pose proof (set_node_extends s n x y Hx Hle) as He.
  eapply (inv_set_node s n x y); try done; [|by rewrite Hp].
  split.
  - split; cbn [n_sb y]; [done|lia| |].
    + apply (given_extends _ _ He) in Hgv. rewrite En.
      destruct Hgv as [?|(g & m & k & j & sb1 & ? & ? & ? & ?)]; [by left|].
      right. exists g, m, k, j, sb1. split_and!; [done..|lia].
    + right. exists (n_gen x), n, (n_calls x), sd. split; [done|lia].
  - intros _. apply Ox. by rewrite Hp.
  - right. exists i, sb0. split; [done|]. left. cbn [n_sb y n_calls n_gen].
    split; [by apply (decided_extends _ _ He)|lia].
  - intros Hd'. done.
Qed.

(** What a node takes from the message of another one. *)
Lemma updated_ok s sb peer :
  inv s → (∀ g g', ∃ n, n ∈ mship g ∧ n ∈ mship g') → reliable = true →
  version_ok s sb → version_ok s peer →
  let m := updated (metadata sb) (metadata peer) in
  (version m = ver sb ∧ next_version m = nxt sb ∨ version m = ver peer ∧ next_version m = nxt peer) ∧
  (ver sb <= version m ∧ nxt sb <= next_version m) ∧ (ver peer <= version m ∧ nxt peer <= next_version m).
Proof using.
  intros Hs Hmeet Hrel [_ Hv Hg Hr] [_ Hv' Hg' Hr'] m.
  assert (H1 : ver sb < ver peer → nxt sb <= nxt peer).
  { intros Hlt. pose proof (older_gave_less s Hs Hmeet _ _ _ Hrel Hg Hr'). lia. }
  assert (H2 : ver peer < ver sb → nxt peer <= nxt sb).
  { intros Hlt. pose proof (older_gave_less s Hs Hmeet _ _ _ Hrel Hg' Hr). lia. }
  subst m. unfold updated, ver, nxt in *. destruct (_ || _) eqn:E.
  - apply orb_true_iff in E. rewrite !Z.ltb_lt in E. lia.
  - bool_to_prop. case_if; [lia|]. cbn. lia.
Qed.

Lemma step_hear s n x heard m peer padding sb :
  inv s → (∀ g g', ∃ n, n ∈ mship g ∧ n ∈ mship g') → reliable = true →
  nodes s !! n = Some x → n_phase x = Syncing heard →
  snaps s !! (n_gen x, m) = Some peer → len padding = 4 →
  sb_version_update_from (n_sb x) (sb_version_serialize padding peer) = Some sb →
  inv (set_node n (mk_node (n_gen x) (n_calls x) (Syncing ({[m]} ∪ heard)) sb) s).
Proof using.
  intros Hs Hmeet Hrel Hx Hp Hpeer Hpad E. pose proof (iv_node _ Hs n x Hx) as Ox.
  pose proof (iv_snap _ Hs _ _ _ Hpeer) as [Vp Hsp _ _]. pose proof (no_version _ _ _ Ox) as Vx.
  destruct (yields_inv _ _ _ (update_ok padding _ _ (vo_sync _ _ Vx) (vo_sync _ _ Vp) Hpad) E) as [Hsy Em].
  destruct (updated_ok s _ _ Hs Hmeet Hrel Vx Vp) as (Hpair & [L1 L2] & [L3 L4]). rewrite <- Em in *.
  fold (ver sb) (nxt sb) in *.
  assert (Est0 : pending_step (metadata (n_sb x)) ≠ SBV_DONE)
    by (apply (not_done _ _ _ Ox); by rewrite Hp).
  assert (Est : pending_step (metadata sb) ≠ SBV_DONE)
    by (rewrite Em; unfold updated; repeat case_if; done).
  pose proof (no_phase _ _ _ Ox) as H. unfold phase_ok in H. rewrite Hp in H.
  destruct H as (Hc & (m0 & sm0 & Esm0 & [S1 S2]) & Hall).
  set (y := mk_node _ _ _ _).
  assert (Hle : node_le x y). { split; cbn; [done|rewrite Hp; cbn; lia|lia|]. rewrite !rver_id by done. lia. }
  pose proof (set_node_extends s n x y Hx Hle) as He.
  eapply (inv_set_node s n x y); try done; [|by rewrite Hp].
  split.
  - apply (version_ok_extends _ _ He). destruct Vx, Vp. cbn [n_sb y].
    destruct Hpair as [[E1 E2]|[E1 E2]]; split; rewrite ?E1, ?E2; done.
  - intros _. apply Ox. by rewrite Hp.
  - split; [done|]. cbn [n_gen n_sb y]. split.
    + destruct Hpair as [[E1 E2]|[E1 E2]]; [exists m0, sm0|exists m, peer]; (split; [done|split; lia]).
    + intros q [->%elem_of_singleton|Hq]%elem_of_union; [by exists peer|].
      destruct (Hall q Hq) as (sq & Esq & [? ?]). exists sq. split; [done|split; lia].
  - intros Hd. done.
Qed.

Lemma insert_new {K V} `{Countable K} (m : gmap K V) k v k' v' :
  <[k := v]> m !! k' = Some v' → m !! k' = Some v' ∨ k' = k ∧ v' = v.
Proof using. rewrite lookup_insert_Some. intros [[<- <-]|[_ ?]]; [by right|by left]. Qed.

(** Nodes other than [n] are at the first barrier as before. *)
Lemma passes_other s s' n x y :
  nodes s !! n = Some x → nodes s' = <[n := y]> (nodes s) → dones s ⊆ dones s' →
  (reliable = true → n_phase x = Written →
     is_Some (dones s' !! (n_gen x, n, n_calls x)) ∨ ∀ m, dones s !! (n_gen x, m, n_calls x) = None) →
  ∀ g m k q sb, dones s !! (g, q, k) = Some sb → reliable = true → passes s g m k → passes s' g m k.
Proof using.
  intros Hx Hn Hd Hw g m k q sb Hsb Hr [[sd Hp]|(z & Hz & <- & Hph & <-)].
  { left. exists sd. exact (lookup_weaken _ _ _ _ Hp Hd). }
  destruct (decide (m = n)) as [->|Hne].
  - rewrite Hx in Hz. injection Hz as <-. destruct (Hw Hr Hph) as [?|Hw']; [by left|].
    by rewrite Hw' in Hsb.
  - right. exists z. rewrite Hn, lookup_insert_ne by done. done.
Qed.

Lemma recovered_ok s n x sb :
  node_ok s n x → sb_version_local_recover (n_sb x) = Some sb →
  version_ok s sb ∧ pending_step (metadata sb) ≠ SBV_DONE ∧ ver sb = rver (n_sb x) ∧ nxt sb = nxt (n_sb x).
Proof using.
  intros Ox E. pose proof (no_version _ _ _ Ox) as [Hsy Hv Hg Hr].
  destruct (yields_inv _ _ _ (recover_ok _ Hsy) E) as [Hsy' Em].
  assert (Ev : ver sb = rver (n_sb x)) by (unfold ver; by rewrite Em).
  assert (En : nxt sb = nxt (n_sb x)) by (unfold nxt, recovered in *; rewrite Em; by case_match).
  assert (Est : pending_step (metadata sb) ≠ SBV_DONE).
  { rewrite Em. unfold recovered. destruct (pending_step (metadata (n_sb x))) eqn:Ep; cbn; congruence. }
  split; [|done]. destruct (decide (pending_step (metadata (n_sb x)) = SBV_DONE)) as [Hd|Hd].
  - destruct (no_step _ _ _ Ox Hd) as (_ & Hb & sd & Esd & Epd).
    assert (Er : rver (n_sb x) = pnd (n_sb x)) by (unfold rver, recovered; by rewrite Hd).
    split; [done|lia| |].
    + rewrite En, Ev, Er. destruct Hg as [?|(g & m & k & j & sb1 & ? & ? & ? & ?)]; [by left|].
      right. exists g, m, k, j, sb1. split_and!; [done..|lia].
    + right. exists (n_gen x), n, (n_calls x), sd. split; [done|lia].
  - rewrite rver_id in Ev by done. split; rewrite ?Ev, ?En; done.
Qed.

Lemma step_join s n x g sb :
  inv s → nodes s !! n = Some x → n ∈ mship g → (n_gen x < g)%nat → may_fail s x →
  sb_version_local_recover (n_sb x) = Some sb →
  inv (post_snap (g, n) sb (set_node n (mk_node g 0 (Syncing ∅) sb) s)).
Proof using.
  intros Hs Hx Hm Hg Hf E. pose proof (iv_node _ Hs n x Hx) as Ox.
  destruct (recovered_ok _ _ _ _ Ox E) as (Vsb & Est & Ev & En).
  assert (Hnew : snaps s !! (g, n) = None).
  { destruct (snaps s !! (g, n)) as [sn|] eqn:Esn; [|done]. exfalso.
    destruct (sn_node _ _ _ _ (iv_snap _ Hs _ _ _ Esn)) as (x' & Hx' & ?). simplify_eq. lia. }
  set (y := mk_node _ _ _ _). set (s' := post_snap _ _ _).
  assert (Hle : node_le x y).
  { split; cbn; [lia|lia|lia|]. rewrite (rver_id sb) by done. lia. }
  assert (He : extends s s').
  { destruct (set_node_extends s n x y Hx Hle) as [? ? ? ? Hn]. split; try done.
    by apply insert_subseteq. }
  pose proof (version_ok_extends _ _ He _ Vsb) as Vsb'.
  eapply (inv_step s s' n x y); try done; try (by left); try apply He.
  - split; [done|done| |done]. split; [done|]. split; [|set_solver].
    exists n, sb. split; [by apply lookup_insert_eq|by split].
  - eapply passes_other; try done. intros Hr Hph. right. by apply Hf.
  - intros g1 m1 sb1 H1. apply insert_new in H1 as [H1|[[= -> ->] ->]]; [by left|right].
    split; [done|done|done|]. exists y. split; [by apply lookup_insert_eq|done].
  - intros g1 g2 m k i sb1 sb2 H1 H2 Hlt. apply insert_new in H2 as [H2|[[= -> ->] ->]].
    + by eapply (iv_asked_snap _ Hs).
    + destruct (as_node _ _ _ _ _ (iv_asked _ Hs _ _ _ _ _ H1)) as (x' & Hx' & _ & _ & ?).
      simplify_eq. lia.
  - intros g1 g2 m k sb1 sb2 H1 H2 Hlt. apply insert_new in H2 as [H2|[[= -> ->] ->]].
    + by eapply (iv_done_snap _ Hs).
    + destruct (dn_node _ _ _ _ _ (iv_done _ Hs _ _ _ _ H1)) as (x' & Hx' & _ & ? & _).
      simplify_eq. lia.
Qed.

Lemma step_synced s n x heard :
  inv s → nodes s !! n = Some x → n_phase x = Syncing heard → mship (n_gen x) ⊆ heard →
  inv (post_synced (n_gen x, n) (n_sb x)
    (set_node n (mk_node (n_gen x) (n_calls x) Synced (n_sb x)) s)).
Proof using.
  intros Hs Hx Hp Hall. pose proof (iv_node _ Hs n x Hx) as Ox.
  pose proof (no_phase _ _ _ Ox) as H. unfold phase_ok in H. rewrite Hp in H.
  destruct H as (Hc & (m & sm & Esm & Hsm) & Hheard).
  assert (Hnew : synced s !! (n_gen x, n) = None).
  { destruct (synced s !! (n_gen x, n)) as [sn|] eqn:Esn; [|done]. exfalso.
    destruct (sy_node _ _ _ _ (iv_synced _ Hs _ _ _ Esn)) as (x' & Hx' & _ & Hr). simplify_eq.
    specialize (Hr eq_refl). rewrite Hp in Hr. cbn in Hr. lia. }
  set (y := mk_node _ _ _ _). set (s' := post_synced _ _ _).
  assert (Hle : node_le x y) by (split; cbn; [done|rewrite Hp; cbn; lia|done|done]).
  assert (He : extends s s').
  { destruct (set_node_extends s n x y Hx Hle) as [? ? ? ? Hn]. split; try done.
    by apply insert_subseteq. }
  eapply (inv_step s s' n x y); try done; try (by left); try apply He.
  - split; [apply (version_ok_extends _ _ He), Ox|intros _; apply Ox; by rewrite Hp| |].
    + split; [done|]. exists (n_sb x). split; [by apply lookup_insert_eq|by split].
    + intros Hd. by destruct (not_done _ _ _ Ox ltac:(by rewrite Hp) ltac:(by rewrite Hp)).
  - eapply passes_other; try done. by rewrite Hp.
  - intros g1 m1 sb1 H1. apply insert_new in H1 as [H1|[[= -> ->] ->]]; [by left|right]. split.
    + intros q Hq. apply (snap_extends _ _ He). apply Hheard. set_solver.
    + exists m, sm. split_and!; [|by apply (lookup_weaken _ _ _ _ Esm (ex_snaps _ _ He))|done..].
      apply (sn_member _ _ _ _ (iv_snap _ Hs _ _ _ Esm)).
    + exists y. split; [by apply lookup_insert_eq|]. cbn. split; [done|lia].
  - intros g1 g2 q k i sb1 sb2. apply (iv_asked_snap _ Hs).
  - intros g1 g2 q k sb1 sb2. apply (iv_done_snap _ Hs).
Qed.

Lemma step_write s n x :
  inv s → nodes s !! n = Some x → n_phase x = Prepared →
  inv (post_written (n_gen x, n, n_calls x)
    (set_node n (mk_node (n_gen x) (n_calls x) Written (n_sb x)) s)).
Proof using.
  intros Hs Hx Hp. pose proof (iv_node _ Hs n x Hx) as Ox.
  set (y := mk_node _ _ _ _). set (s' := post_written _ _).
  assert (Hle : node_le x y) by (split; cbn; [done|rewrite Hp; cbn; lia|done|done]).
  assert (He : extends s s') by (destruct (set_node_extends s n x y Hx Hle); by split).
  pose proof (no_phase _ _ _ Ox) as H. unfold phase_ok in H. rewrite Hp in H.
  eapply (inv_step s s' n x y); try done; try (by left); try apply He.
  - split; [apply (version_ok_extends _ _ He), Ox|intros _; apply Ox; by rewrite Hp| |].
    + apply (phase_ok_extends _ _ He). exact H.
    + intros Hd. by destruct (not_done _ _ _ Ox ltac:(by rewrite Hp) ltac:(by rewrite Hp)).
  - eapply passes_other; try done. by rewrite Hp.
  - intros g1 g2 q k i sb1 sb2. apply (iv_asked_snap _ Hs).
  - intros g1 g2 q k sb1 sb2. apply (iv_done_snap _ Hs).
Qed.


Lemma step_ask s n x info :
  inv s → nodes s !! n = Some x → n_phase x = Ready →
  inv (post_asked (n_gen x, n, S (n_calls x)) (info, n_sb x)
    (set_node n (mk_node (n_gen x) (S (n_calls x)) Asked (n_sb x)) s)).
Proof using.
  intros Hs Hx Hp. pose proof (iv_node _ Hs n x Hx) as Ox.
  assert (Hnew : asked s !! (n_gen x, n, S (n_calls x)) = None).
  { destruct (asked s !! (n_gen x, n, S (n_calls x))) as [[i sn]|] eqn:Esn; [|done]. exfalso.
    destruct (as_node _ _ _ _ _ (iv_asked _ Hs _ _ _ _ _ Esn)) as (x' & Hx' & _ & Hr & _). simplify_eq.
    specialize (Hr eq_refl). lia. }
  set (y := mk_node _ _ _ _). set (s' := post_asked _ _ _).
  assert (Hle : node_le x y) by (split; cbn; [done|lia|done|done]).
  assert (He : extends s s').
  { destruct (set_node_extends s n x y Hx Hle) as [? ? ? ? Hn]. split; try done.
    by apply insert_subseteq. }
  pose proof (phase_ok_extends _ _ He _ _ (no_phase _ _ _ Ox)) as H. unfold phase_ok in H. rewrite Hp in H.
  assert (Hpos : ∀ i sb0, asked s' !! (n_gen x, n, n_calls x) = Some (i, sb0) → (0 < n_calls x)%nat).
  { intros i sb0 Ha. apply insert_new in Ha as [Ha|[[= ?] _]]; [|lia].
    apply (as_pos _ _ _ _ _ (iv_asked _ Hs _ _ _ _ _ Ha)). }
  assert (Hm : n ∈ mship (n_gen x)) by (apply Ox; by rewrite Hp).
  eapply (inv_step s s' n x y); try done; try (by left); try apply He.
  - split; [apply (version_ok_extends _ _ He), Ox|done| |].
    + exists info, (n_sb x). split; [by apply lookup_insert_eq|by split].
    + intros Hd. by destruct (not_done _ _ _ Ox ltac:(by rewrite Hp) ltac:(by rewrite Hp)).
  - eapply passes_other; try done. by rewrite Hp.
  - intros g1 m1 k i sb1 H1. apply insert_new in H1 as [H1|[[= -> -> ->] [= -> ->]]]; [by left|right].
    split; [done|apply Ox| |lia| |].
    + exists y. split; [by apply lookup_insert_eq|]. by cbn.
    + intros E. destruct H as [[_ H]|(i & sb0 & Ha & _)]; [done|]. apply Hpos in Ha. lia.
    + intros k' E. injection E as E. destruct H as [[E0 _]|(i & sb0 & Ha & Hd)]; [lia|].
      exists i, sb0. rewrite <- E. done.
  - intros g1 g2 q k i sb1 sb2 H1 H2 Hlt. apply insert_new in H1 as [H1|[[= -> -> ->] _]].
    + by eapply (iv_asked_snap _ Hs).
    + destruct (sn_node _ _ _ _ (iv_snap _ Hs _ _ _ H2)) as (x' & Hx' & ?). simplify_eq. lia.
  - intros g1 g2 q k sb1 sb2. apply (iv_done_snap _ Hs).
Qed.

Lemma step_done s n x sb :
  inv s → nodes s !! n = Some x → n_phase x = Written →
  (reliable = true → ∀ m, m ∈ mship (n_gen x) → passes s (n_gen x) m (n_calls x)) →
  sb_version_new_version_done (n_sb x) = Some sb →
  inv (post_done (n_gen x, n, n_calls x) sb (set_node n (mk_node (n_gen x) (n_calls x) Done sb) s)).
Proof using.
  intros Hs Hx Hp Hpass E. pose proof (iv_node _ Hs n x Hx) as Ox.
  pose proof (no_version _ _ _ Ox) as [Hsy Hv Hg Hr].
  destruct (yields_inv _ _ _ (SbVersion.done_ok _ Hsy) E) as [Hsy' Em].
  pose proof (no_phase _ _ _ Ox) as H. unfold phase_ok in H. rewrite Hp in H.
  destruct H as (i & sb0 & Ha & Hdec & Pv & Pn & Pp).
  pose proof (as_ver _ _ _ _ _ (iv_asked _ Hs _ _ _ _ _ Ha)) as Hv0.
  assert (Ev : ver sb = ver (n_sb x)) by (unfold ver; by rewrite Em).
  assert (En : nxt sb = nxt (n_sb x)) by (unfold nxt; by rewrite Em).
  assert (Ep : pnd sb = pnd (n_sb x)) by (unfold pnd; by rewrite Em).
  assert (Est : pending_step (metadata sb) = SBV_DONE) by (by rewrite Em).
  assert (Er : rver sb = pnd sb) by (unfold rver, recovered; by rewrite Est).
  assert (Est0 : pending_step (metadata (n_sb x)) ≠ SBV_DONE)
    by (apply (not_done _ _ _ Ox); by rewrite Hp).
  assert (Hnew : dones s !! (n_gen x, n, n_calls x) = None).
  { destruct (dones s !! (n_gen x, n, n_calls x)) as [sn|] eqn:Esn; [|done]. exfalso.
    destruct (dn_node _ _ _ _ _ (iv_done _ Hs _ _ _ _ Esn)) as (x' & Hx' & _ & _ & Hrk). simplify_eq.
    specialize (Hrk eq_refl). rewrite Hp in Hrk. cbn in Hrk. lia. }
  set (y := mk_node _ _ _ _). set (s' := post_done _ _ _).
  assert (Hle : node_le x y).
  { split; cbn; [done|rewrite Hp; cbn; lia|lia|]. rewrite (rver_id (n_sb x)) by done. lia. }
  assert (He : extends s s').
  { destruct (set_node_extends s n x y Hx Hle) as [? ? ? ? Hn]. split; try done. by apply insert_subseteq. }
  assert (Hself : dones s' !! (n_gen x, n, n_calls x) = Some sb) by apply lookup_insert_eq.
  assert (Hpo : ∀ g m k, reliable = true → passes s g m k → passes s' g m k).
  { intros g m k Hrel [[sd Hd]|(z & Hz & <- & Hph & <-)].
    - left. exists sd. exact (lookup_weaken _ _ _ _ Hd (ex_dones _ _ He)).
    - destruct (decide (m = n)) as [->|Hne]; [simplify_eq; by left|].
      right. exists z. cbn. by rewrite lookup_insert_ne. }
  eapply (inv_step s s' n x y); try done; try (by left); try apply He.
  - split; [|intros _; apply Ox; by rewrite Hp| |].
    + apply (version_ok_extends _ _ He). split; cbn [n_sb y]; rewrite ?Ev, ?En; done.
    + split; [|done]. exists i, sb0. split; [done|]. split; [by apply (decided_extends _ _ He)|].
      unfold pending_of. cbn [n_sb y]. lia.
    + intros _. split; [by left|]. cbn [n_sb n_gen n_calls y]. split; [lia|]. by exists sb.
  - intros g m k q sb1 _ Hrel Hp1. by apply Hpo.
  - intros g1 m1 k sb1 H1. apply insert_new in H1 as [H1|[[= -> -> ->] ->]]; [by left|right]. split.
    + exists i, sb0. split; [done|lia].
    + by apply (decided_extends _ _ He).
    + exists y. split; [by apply lookup_insert_eq|]. cbn. split; [done|]. split; [lia|]. intros _. lia.
    + intros m Hrel Hm. by apply Hpo, Hpass.
  - intros g1 g2 q k j sb1 sb2. apply (iv_asked_snap _ Hs).
  - intros g1 g2 q k sb1 sb2 H1 H2 Hlt. apply insert_new in H1 as [H1|[[= -> -> ->] _]].
    + by eapply (iv_done_snap _ Hs).
    + destruct (sn_node _ _ _ _ (iv_snap _ Hs _ _ _ H2)) as (x' & Hx' & ?). simplify_eq. lia.
Qed.

Lemma cluster_step_inv s s' :
  (∀ g g', ∃ n, n ∈ mship g ∧ n ∈ mship g') → reliable = true →
  inv s → cluster_step s s' → inv s'.
Proof using.
  intros Hmeet Hrel Hs Hstep. destruct Hstep.
  - by apply (step_join s n x).
  - by eapply (step_hear s n x).
  - by apply (step_synced s n x heard).
  - by apply (step_ready s n x).
  - by apply (step_ask s n x).
  - by eapply (step_skip s n x).
  - by eapply (step_prepare s n x).
  - by apply (step_write s n x).
  - by apply (step_done s n x).
  - by apply (step_commit s n x).
  - by apply (step_leave s n x).
Qed.

Lemma new_version_ok sb : sb_version_new true = Some sb → in_sync sb ∧ metadata sb = mk_metadata 1 2 SBV_PREPARED 2.
Proof using.
  intros E. destruct (write_metadata_ok (mk_metadata 1 2 SBV_PREPARED 2)) as (sb' & E' & Hs & Em); [done|].
  revert E E'. unfold sb_version_new, sb_version_create, sb_version_write_metadata. cbn [negb].
  destruct (sb_metadata_to_text _ _); [|done]. intros [= <-] [= <-]. done.
Qed.

Lemma cluster_init_inv all s : cluster_init all s → inv s.
Proof using.
  intros (sb & E & ->). apply new_version_ok in E as [Hsy Em].
  split; cbn [nodes snaps synced asked dones]; try (intros *; rewrite lookup_empty; discriminate).
  intros n x (_ & <-)%lookup_gset_to_gmap_Some. split; [|done|done|].
  - unfold ver, nxt. split; cbn [n_sb]; [done|unfold ver, nxt; rewrite Em; cbn; lia|left|left];
      unfold ver, nxt; by rewrite Em.
  - intros Hd. cbn [n_sb] in Hd. by rewrite Em in Hd.
Qed.

Lemma cluster_reachable_inv all s :
  (∀ g g', ∃ n, n ∈ mship g ∧ n ∈ mship g') → reliable = true → cluster_reachable all s → inv s.
Proof using.
  intros Hmeet Hrel (s0 & H0 & Hr). apply cluster_init_inv in H0.
  induction Hr as [|s1 s2 s3 H12 _ IH]; [done|]. apply IH. by eapply cluster_step_inv.
Qed.

(** ** The steps of a node are the calls of the code *)

(** What the exchange of versions gets from node [m]. *)
Definition reply_of (s : cluster) (g : nat) (m : Z) (r : option (list Z)) : Prop :=
  ∃ peer padding, snaps s !! (g, m) = Some peer ∧ len padding = 4 ∧ r = Some (sb_version_serialize padding peer).

Definition hearing (s : cluster) (g : nat) (n : Z) (heard : gset Z) (sb : sb_version_t) : Prop :=
  ∃ sb0 sb1 l replies, sb_version_local_recover sb0 = Some sb1 ∧ snaps s !! (g, n) = Some sb1 ∧
    NoDup l ∧ (∀ m, m ∈ l ↔ m ∈ heard) ∧ heard ⊆ mship g ∧ Forall2 (reply_of s g) l replies ∧
    update_loop sb1 replies = Some sb.

(** The exchange that node [n] completed in generation [g] is a call of
    [vrt_group_sync_sb_versions] on the version it had, with the replies of the
    members in some order. *)
Definition exchanged (s : cluster) (g : nat) (n : Z) (sb : sb_version_t) : Prop :=
  ∃ sb0 l replies, sb_version_local_recover sb0 = snaps s !! (g, n) ∧ l ≡ₚ elements (mship g) ∧
    Forall2 (reply_of s g) l replies ∧ vrt_group_sync_sb_versions sb0 replies = Some (sb, Ok tt).

(** The last call of a node, with the version it had and the replies, leads to
    [sb]. *)
Definition called (s : cluster) (n : Z) (x : node) (P : sb_version_t → list sync_info → Prop) : Prop :=
  ∃ info sb0 replies, asked s !! (n_gen x, n, n_calls x) = Some (info, sb0) ∧
    replies_of s (n_gen x) (n_calls x) = Some replies ∧ P sb0 replies.

(** A transaction that a node completed is a call of [adm_vrt_group_sync_sb]
    whose superblocks were written and whose first barrier succeeded. *)
Definition transacted (s : cluster) (n : Z) (x : node) : Prop :=
  called s n x (λ sb0 replies, ∀ started barrier2, ∃ r,
    adm_vrt_group_sync_sb started (map Some replies) (λ _ _, Ok tt) (Ok tt) barrier2 sb0 = Some (n_sb x, r)).

Definition node_hist (s : cluster) (n : Z) (x : node) : Prop :=
  match n_phase x with
  | Out | Synced => True
  | Syncing heard => hearing s (n_gen x) n heard (n_sb x)
  | Asked => ∃ info, asked s !! (n_gen x, n, n_calls x) = Some (info, n_sb x)
  | Prepared | Written => called s n x (λ sb0 replies, goes replies = true ∧
      ∃ v, sb_version_new_version_prepare sb0 = Some (n_sb x, v))
  | Done => called s n x (λ sb0 replies, goes replies = true ∧
      ∃ sb1 v, sb_version_new_version_prepare sb0 = Some (sb1, v) ∧ sb_version_new_version_done sb1 = Some (n_sb x))
  | Ready => n_calls x = 0%nat ∨ transacted s n x
  end.

Record hist (s : cluster) : Prop := {
  hi_node n x : nodes s !! n = Some x → node_hist s n x;
  hi_synced g n sb : synced s !! (g, n) = Some sb → exchanged s g n sb
}.

Section history.
Context (s s' : cluster) (Hsn : snaps s ⊆ snaps s') (Has : asked s ⊆ asked s').

Lemma reply_more g m r : reply_of s g m r → reply_of s' g m r.
Proof using Hsn. intros (peer & pad & Hp & H). exists peer, pad. split; [exact (lookup_weaken _ _ _ _ Hp Hsn)|done]. Qed.

Lemma replies_more g k replies : replies_of s g k = Some replies → replies_of s' g k = Some replies.
Proof using Has.
  unfold replies_of. rewrite !mapM_Some. intros H. eapply Forall2_impl; [exact H|]. intros m info. cbv beta.
  rewrite !fmap_Some. intros (p & Hp & ->). exists p. split; [exact (lookup_weaken _ _ _ _ Hp Has)|done].
Qed.

Lemma hearing_more g n heard sb : hearing s g n heard sb → hearing s' g n heard sb.
Proof using Hsn.
  intros (sb0 & sb1 & l & replies & H1 & H2 & H3 & H4 & H5 & H6 & H7). exists sb0, sb1, l, replies.
  split_and!; try done; [exact (lookup_weaken _ _ _ _ H2 Hsn)|]. eapply Forall2_impl; [exact H6|]. apply reply_more.
Qed.

Lemma exchanged_more g n sb : exchanged s g n sb → exchanged s' g n sb.
Proof using Hsn.
  intros (sb0 & l & replies & H1 & H2 & H3 & H4). exists sb0, l, replies. split_and!; [|done| |done].
  - unfold vrt_group_sync_sb_versions in H4. destruct (sb_version_local_recover sb0) as [sb1|]; [|done].
    symmetry. by apply (lookup_weaken _ _ _ _ (eq_sym H1) Hsn).
  - eapply Forall2_impl; [exact H3|]. apply reply_more.
Qed.

Lemma called_more n x P : called s n x P → called s' n x P.
Proof using Has.
  intros (info & sb0 & replies & H1 & H2 & H3). exists info, sb0, replies.
  split_and!; [exact (lookup_weaken _ _ _ _ H1 Has)|by apply replies_more|done].
Qed.

Lemma node_hist_more n x : node_hist s n x → node_hist s' n x.
Proof using Hsn Has.
  unfold node_hist. destruct (n_phase x); eauto using hearing_more, called_more.
  - intros [?|H]; [by left|right]. by apply called_more.
  - intros [info H]. exists info. exact (lookup_weaken _ _ _ _ H Has).
Qed.

(** One node moves. *)
Lemma hist_step n y :
  hist s → nodes s' = <[n := y]> (nodes s) → node_hist s' n y →
  (∀ g m sb, synced s' !! (g, m) = Some sb → synced s !! (g, m) = Some sb ∨ exchanged s' g m sb) → hist s'.
Proof using Hsn Has.
  intros Hh En Hy Hsy. split.
  - intros m z. rewrite En. intros [[<- <-]|[_ Hz]]%lookup_insert_Some; [done|]. by apply node_hist_more, (hi_node _ Hh).
  - intros g m sb H. destruct (Hsy g m sb H) as [H'|H']; [|done]. by apply exchanged_more, (hi_synced _ Hh).
Qed.
End history.

Lemma update_loop_snoc sb l r :
  update_loop sb (l ++ [Some r]) = (sb' ← update_loop sb l; sb_version_update_from sb' r).
Proof using.
  revert sb. induction l as [|[a|] l IH]; intros sb; cbn; [by destruct (sb_version_update_from sb r)| |apply IH].
  destruct (sb_version_update_from sb a); [apply IH|done].
Qed.

(** A node that has heard all the members has made the whole call. *)
Lemma hearing_exchanged s g n heard sb :
  hearing s g n heard sb → mship g ⊆ heard → sb_version_is_valid sb = true → exchanged s g n sb.
Proof using.
  intros (sb0 & sb1 & l & replies & H1 & H2 & H3 & H4 & H5 & H6 & H7) Hsub Hv. exists sb0, l, replies.
  split_and!; [by rewrite H1, H2| |done|].
  - apply NoDup_Permutation; [done|apply NoDup_elements|]. intros m. rewrite H4, elem_of_elements. set_solver.
  - unfold vrt_group_sync_sb_versions. rewrite H1. cbn [mbind option_bind]. rewrite H7. cbn [mbind option_bind]. rewrite Hv.
    cbn [exa_assert]. do 2 f_equal. destruct (last replies) as [[r|]|] eqn:El; try done. exfalso.
    apply last_Some_elem_of, list_elem_of_lookup_1 in El as [j Hj].
    destruct (Forall2_lookup_r _ _ _ _ _ H6 Hj) as (m & _ & (peer & pad & _ & _ & Hr)). done.
Qed.

Lemma decision_not_goes replies sb started sync b1 b2 :
  goes replies = false → is_Some (sync_sb_decision (map Some replies)) →
  ∃ r, adm_vrt_group_sync_sb started (map Some replies) sync b1 b2 sb = Some (sb, r).
Proof using.
  unfold goes, adm_vrt_group_sync_sb. intros Hg [d Hd]. rewrite Hd in Hg |- *. cbn [mbind option_bind].
  destruct d as [[]|e]; [done|by eexists..].
Qed.

Lemma decision_returns replies : is_Some (sync_sb_decision replies).
Proof using.
  unfold sync_sb_decision, quotient_ceil64. case_if; [by eexists|]. case_if; [by eexists|].
  change (u32 2) with 2. cbn [Z.eqb Pos.eqb exa_assert negb mbind option_bind]. case_if; by eexists.
Qed.

Lemma step_hist s s' : inv s → hist s → cluster_step s s' → hist s'.
Proof using.
  intros Hs Hh Hst. destruct Hst as [n x g sb Hx Hm Hg _ Hr|n x heard m peer padding sb Hx Hp Hm Hnh Hpeer Hpad Hu
    |n x heard Hx Hp Hsub Hv|n x Hx Hp _|n x info Hx Hp|n x replies Hx Hp Hre Hgo|n x replies sb v Hx Hp Hre Hgo _ Hpr
    |n x Hx Hp|n x sb Hx Hp _ _ Hd|n x sb Hx Hp Hc|n x Hx _];
    pose proof (hi_node _ Hh n x Hx) as Hn; unfold node_hist in Hn; try rewrite Hp in Hn.
  - assert (Hnew : snaps s !! (g, n) = None).
    { destruct (snaps s !! (g, n)) as [sm|] eqn:E; [|done]. destruct (sn_node _ _ _ _ (iv_snap _ Hs _ _ _ E)) as (x' & Hx' & ?).
      rewrite Hx in Hx'. injection Hx' as <-. lia. }
    eapply (hist_step s _ (insert_subseteq _ _ _ Hnew)); [done|done|done| |by left].
    exists (n_sb x), sb, [], []. cbn. rewrite lookup_insert_eq. split_and!; try done; [constructor|set_solver..].
  - eapply (hist_step s _); [done|done|done|done| |by left].
    destruct Hn as (sb0 & sb1 & l & replies & H1 & H2 & H3 & H4 & H5 & H6 & H7).
    exists sb0, sb1, (l ++ [m]), (replies ++ [Some (sb_version_serialize padding peer)]). split_and!; try done.
    + apply NoDup_app. split_and!; [done|intros y Hy%H4; set_solver|apply NoDup_singleton].
    + intros y. rewrite elem_of_app, H4. set_solver.
    + set_solver.
    + apply Forall2_app; [done|]. constructor; [by exists peer, padding|done].
    + rewrite update_loop_snoc, H7. done.
  - eapply (hist_step s _); [done|done|done|done|done|]. intros g m sb. cbn. rewrite lookup_insert_Some.
    intros [[[= <- <-] <-]|[_ ?]]; [right|by left]. by eapply hearing_exchanged.
  - eapply (hist_step s _); [done|done|done|done| |by left]. left. cbn.
    pose proof (no_phase _ _ _ (iv_node _ Hs n x Hx)) as Hph. unfold phase_ok in Hph. rewrite Hp in Hph. by destruct Hph.
  - assert (Hnew : asked s !! (n_gen x, n, S (n_calls x)) = None).
    { destruct (asked s !! (n_gen x, n, S (n_calls x))) as [[i sm]|] eqn:E; [|done].
      destruct (as_node _ _ _ _ _ (iv_asked _ Hs _ _ _ _ _ E)) as (x' & Hx' & _ & Hk & _). rewrite Hx in Hx'. injection Hx' as <-.
      specialize (Hk eq_refl). lia. }
    eapply (hist_step s _); [done|by apply insert_subseteq|done|done| |by left].
    exists info. cbn. by rewrite lookup_insert_eq.
  - eapply (hist_step s _); [done|done|done|done| |by left]. right. destruct Hn as [info Hn]. exists info, (n_sb x), replies.
    split_and!; [done|done|]. intros started b2. apply decision_not_goes; [done|apply decision_returns].
  - eapply (hist_step s _); [done|done|done|done| |by left]. destruct Hn as [info Hn]. exists info, (n_sb x), replies.
    split_and!; [done|done|done|by exists v].
  - eapply (hist_step s _); [done|done|done|done| |by left]. exact Hn.
  - eapply (hist_step s _); [done|done|done|done| |by left]. destruct Hn as (info & sb0 & replies & H1 & H2 & H3 & v & H4).
    exists info, sb0, replies. split_and!; try done. by exists (n_sb x), v.
  - eapply (hist_step s _); [done|done|done|done| |by left]. right.
    destruct Hn as (info & sb0 & replies & H1 & H2 & H3 & sb1 & v & H4 & H5). exists info, sb0, replies. split_and!; [done|done|].
    intros started b2. exists b2. unfold goes in H3. unfold adm_vrt_group_sync_sb.
    destruct (sync_sb_decision (map Some replies)) as [[[]|]|]; [|done..]. cbn [mbind option_bind]. rewrite H4.
    cbn [mbind option_bind]. destruct started; cbn [exa_assert]; rewrite H5; cbn [mbind option_bind]; rewrite Hc; done.
  - eapply (hist_step s _); [done|done|done|done|done|by left].
Qed.

Lemma cluster_reachable_hist all s :
  (∀ g g', ∃ n, n ∈ mship g ∧ n ∈ mship g') → reliable = true → cluster_reachable all s → hist s.
Proof using.
  intros Hmeet Hrel (s0 & H0 & Hr). pose proof (cluster_init_inv _ _ H0) as Hi.
  assert (Hh : hist s0).
  { destruct H0 as (sb & _ & ->). split; cbn.
    - by intros n x (_ & <-)%lookup_gset_to_gmap_Some.
    - intros g n sb'. by rewrite lookup_empty. }
  clear H0. induction Hr as [|s1 s2 s3 H12 _ IH]; [done|]. apply IH; [by eapply cluster_step_inv|by eapply step_hist].
Qed.
End protocol.

(** ** Runs *)

Inductive action :=
  | AJoin (n : Z) (g : nat) | AHear (n m : Z) | ASynced (n : Z) | AReady (n : Z)
  | AAsk (n : Z) (info : sync_info) | ASkip (n : Z) | APrepare (n : Z) | AWrite (n : Z)
  | ADone (n : Z) | ACommit (n : Z) | ALeave (n : Z).

Section runs.
Context (mship : nat → gset Z) (reliable : bool).

Definition may_fail_b (s : cluster) (x : node) : bool :=
  negb reliable || negb (bool_decide (n_phase x = Written))
  || bool_decide (map_Forall (λ k _, k.1.1 = n_gen x → k.2 ≠ n_calls x) (dones s)).

Definition passes_b (s : cluster) (g : nat) (m : Z) (k : nat) : bool :=
  match dones s !! (g, m, k), nodes s !! m with
  | Some _, _ => true
  | None, Some x => bool_decide (n_gen x = g) && bool_decide (n_phase x = Written)
                    && bool_decide (n_calls x = k)
  | None, None => false
  end.

Definition members_all (g : nat) (f : Z → bool) : bool := forallb f (elements (mship g)).

Definition exec (s : cluster) (a : action) : option cluster :=
  let move n x ph sb := set_node n (mk_node (n_gen x) (n_calls x) ph sb) s in
  match a with
  | AJoin n g =>
      x ← nodes s !! n; sb ← sb_version_local_recover (n_sb x);
      if bool_decide (n ∈ mship g) && bool_decide (n_gen x < g)%nat && may_fail_b s x
      then Some (post_snap (g, n) sb (set_node n (mk_node g 0 (Syncing ∅) sb) s)) else None
  | AHear n m =>
      x ← nodes s !! n; peer ← snaps s !! (n_gen x, m);
      sb ← sb_version_update_from (n_sb x) (sb_version_serialize [0; 0; 0; 0] peer);
      match n_phase x with
      | Syncing heard =>
          if bool_decide (m ∈ mship (n_gen x)) && bool_decide (m ∉ heard)
          then Some (move n x (Syncing ({[m]} ∪ heard)) sb) else None
      | _ => None
      end
  | ASynced n =>
      x ← nodes s !! n;
      match n_phase x with
      | Syncing heard =>
          if bool_decide (mship (n_gen x) ⊆ heard) && sb_version_is_valid (n_sb x)
          then Some (post_synced (n_gen x, n) (n_sb x) (move n x Synced (n_sb x))) else None
      | _ => None
      end
  | AReady n =>
      x ← nodes s !! n;
      if bool_decide (n_phase x = Synced)
         && members_all (n_gen x) (λ m, bool_decide (is_Some (synced s !! (n_gen x, m))))
      then Some (move n x Ready (n_sb x)) else None
  | AAsk n info =>
      x ← nodes s !! n;
      if bool_decide (n_phase x = Ready)
      then Some (post_asked (n_gen x, n, S (n_calls x)) (info, n_sb x)
                   (set_node n (mk_node (n_gen x) (S (n_calls x)) Asked (n_sb x)) s)) else None
  | ASkip n =>
      x ← nodes s !! n; replies ← replies_of mship s (n_gen x) (n_calls x);
      if bool_decide (n_phase x = Asked) && negb (goes replies)
      then Some (move n x Ready (n_sb x)) else None
  | APrepare n =>
      x ← nodes s !! n; replies ← replies_of mship s (n_gen x) (n_calls x);
      '(sb, _) ← sb_version_new_version_prepare (n_sb x);
      if bool_decide (n_phase x = Asked) && goes replies
         && (next_version (metadata (n_sb x)) + 1 <? 2 ^ 64)
      then Some (move n x Prepared sb) else None
  | AWrite n =>
      x ← nodes s !! n;
      if bool_decide (n_phase x = Prepared)
      then Some (post_written (n_gen x, n, n_calls x) (move n x Written (n_sb x))) else None
  | ADone n =>
      x ← nodes s !! n; sb ← sb_version_new_version_done (n_sb x);
      if bool_decide (n_phase x = Written)
         && members_all (n_gen x) (λ m, bool_decide ((n_gen x, m, n_calls x) ∈ written s))
         && (negb reliable || members_all (n_gen x) (λ m, passes_b s (n_gen x) m (n_calls x)))
      then Some (post_done (n_gen x, n, n_calls x) sb (move n x Done sb)) else None
  | ACommit n =>
      x ← nodes s !! n; sb ← sb_version_new_version_commit (n_sb x);
      if bool_decide (n_phase x = Done) then Some (move n x Ready sb) else None
  | ALeave n =>
      x ← nodes s !! n;
      if may_fail_b s x then Some (move n x Out (n_sb x)) else None
  end.

Fixpoint exec_all (s : cluster) (l : list action) : option cluster :=
  match l with
  | [] => Some s
  | a :: l' => s ← exec s a; exec_all s l'
  end.

Lemma may_fail_b_ok s x : may_fail_b s x = true → may_fail reliable s x.
Proof using.
  unfold may_fail_b, may_fail. intros H Hr Hp m. rewrite Hr, Hp in H. cbn in H.
  apply bool_decide_eq_true_1 in H. destruct (dones s !! _) eqn:E; [|done].
  exfalso. by apply (map_Forall_lookup_1 _ _ _ _ H E).
Qed.

Lemma members_all_ok g f : members_all g f = true → ∀ m, m ∈ mship g → f m = true.
Proof using.
  unfold members_all. rewrite forallb_forall. intros H m Hm. apply H.
  by apply list_elem_of_In, elem_of_elements.
Qed.

Lemma members_decide g (P : Z → Prop) `{∀ m, Decision (P m)} :
  members_all g (λ m, bool_decide (P m)) = true → ∀ m, m ∈ mship g → P m.
Proof using. intros Hall m Hm. by apply (members_all_ok _ _ Hall), bool_decide_eq_true_1 in Hm. Qed.

Lemma passes_b_ok s g m k : passes_b s g m k = true → passes s g m k.
Proof using.
  unfold passes_b, passes. destruct (dones s !! _); [by left|]. destruct (nodes s !! m) as [x|]; [|done].
  intros H. bool_to_prop. right. by exists x.
Qed.

Lemma exec_sound s a s' : exec s a = Some s' → cluster_step mship reliable s s'.
Proof using.
  destruct a; cbn [exec]; intros H;
    repeat (apply bind_Some in H as (? & ? & H)); repeat case_match; simplify_eq; bool_to_prop.
  - eapply st_join; [done..|by apply may_fail_b_ok|done].
  - by eapply (st_hear _ _ s n x heard m _ [0; 0; 0; 0]).
  - by eapply st_synced.
  - eapply st_ready; [done..|]. by apply (members_decide _ (λ m, is_Some (synced s !! (n_gen x, m)))).
  - by eapply st_ask.
  - by eapply st_skip.
  - by eapply st_prepare.
  - by eapply st_write.
  - eapply st_done; [done|done| | |done].
    + by apply (members_decide _ (λ m, (n_gen x, m, n_calls x) ∈ written s)).
    + intros -> m Hm. by apply passes_b_ok, (members_all_ok (n_gen x) (λ m, passes_b s (n_gen x) m (n_calls x))).
  - by eapply st_commit.
  - eapply st_leave; [done|by apply may_fail_b_ok].
Qed.

Lemma exec_all_sound s l s' : exec_all s l = Some s' → rtc (cluster_step mship reliable) s s'.
Proof using.
  revert s. induction l as [|a l IH]; intros s; cbn [exec_all]; [intros [= ->]; reflexivity|].
  intros (s1 & H1 & H2)%bind_Some. eapply rtc_l; [by eapply exec_sound|by apply IH].
Qed.
End runs.

(** ** Theorems *)

(** The memberships of a cluster are made of its nodes and have the quorum. *)
Definition mships_ok (all : gset Z) (mship : nat → gset Z) : Prop :=
  ∀ g, mship g ⊆ all ∧ evmgr_has_quorum (Z.of_nat (size all)) false (mship g) = true.

Lemma mships_meet all mship : mships_ok all mship → ∀ g g', ∃ n, n ∈ mship g ∧ n ∈ mship g'.
Proof. intros Hok g g'. destruct (Hok g), (Hok g'). by eapply quorums_meet. Qed.

(** C5: a cluster whose memberships all have the quorum of the nodes, without the
    help of the token, and where no node fails between the first barrier of a
    transaction and the record of its end.  Every exchange of versions that a
    node completes is a call of [vrt_group_sync_sb_versions] with the versions
    that the members broadcast, and every transaction that it completes is a
    call of [adm_vrt_group_sync_sb] on the version it asked with.  The nodes that
    complete the exchange of versions of a generation end it with the same
    version and the same next version, and no version that a node has recorded
    as written is lost: the version that ends the exchange of a later
    generation is at least that one. *)
Theorem sb_versions_agree all mship s :
  mships_ok all mship → cluster_reachable mship true all s →
  (∀ g n sn, synced s !! (g, n) = Some sn → exchanged mship s g n sn) ∧
  (∀ n x, nodes s !! n = Some x → n_phase x = Ready → (0 < n_calls x)%nat → transacted mship s n x) ∧
  (∀ g a b sa sb, synced s !! (g, a) = Some sa → synced s !! (g, b) = Some sb →
     sb_version_get_version sa = sb_version_get_version sb ∧
     next_version (metadata sa) = next_version (metadata sb)) ∧
  (∀ g g' m n k sd sn, dones s !! (g, m, k) = Some sd → synced s !! (g', n) = Some sn → (g < g')%nat →
     pending_version (metadata sd) <= sb_version_get_version sn).
Proof.
  intros Hok Hr. pose proof (mships_meet _ _ Hok) as Hmeet.
  pose proof (cluster_reachable_inv mship true all s Hmeet eq_refl Hr) as Hs.
  pose proof (cluster_reachable_hist mship true all s Hmeet eq_refl Hr) as Hh. split_and!.
  - apply (hi_synced _ _ Hh).
  - intros n x Hx Hp Hc. pose proof (hi_node _ _ Hh n x Hx) as Hn. unfold node_hist in Hn. rewrite Hp in Hn.
    destruct Hn as [?|?]; [lia|done].
  - intros g a b sa sb Ha Hb. exact (synced_agree _ _ s Hs g a b sa sb Ha Hb).
  - intros g g' m n k sd sn Hd Hn Hg. exact (done_synced _ _ s Hs Hmeet g g' m n k sd sn eq_refl Hd Hn Hg).
Qed.

(** *** A cluster of three nodes *)

Definition three : gset Z := {[0; 1; 2]}.

Definition mship3 (g : nat) : gset Z :=
  match g with 1%nat => three | 2%nat => {[1; 2]} | _ => {[0; 1]} end.

Definition init3 : cluster :=
  mk_cluster (gset_to_gmap (mk_node 0 0 Out (default (mk_sb_version [] (mk_metadata 0 0 SBV_PREPARED 0))
    (sb_version_new true))) three) ∅ ∅ ∅ ∅ ∅.

Definition all_up : sync_info := mk_sync_info true true true.

Definition sync_run (l : list Z) (g : nat) : list action :=
  map (λ n, AJoin n g) l ++ concat (map (λ n, map (AHear n) l) l) ++ map ASynced l ++ map AReady l.

Definition write_run (l : list Z) : list action :=
  map (λ n, AAsk n all_up) l ++ map APrepare l ++ map AWrite l.

Lemma mships3_ok : mships_ok three mship3.
Proof.
  intros g. destruct g as [|[|[|g]]]; (split; [by apply (bool_decide_unpack _)|by vm_compute]).
Qed.

Lemma init3_ok : cluster_init three init3.
Proof. destruct (sb_version_new true) as [sb|] eqn:E; [|by vm_compute in E]. exists sb. split; [done|].
  unfold init3. by rewrite E.
Qed.

Lemma run3_reachable reliable l s :
  exec_all mship3 reliable init3 l = Some s → cluster_reachable mship3 reliable three s.
Proof. intros E. exists init3. split; [apply init3_ok|by eapply exec_all_sound]. Qed.

(** Nodes 1 and 2 stop after the first barrier of a transaction that node 0
    completes; they give the next version without it; node 1 then meets
    node 0. *)
Definition diverging_run : list action :=
  sync_run [0; 1; 2] 1 ++ write_run [0; 1; 2] ++ [ADone 0; ACommit 0]
  ++ sync_run [1; 2] 2 ++ write_run [1; 2]
  ++ sync_run [0; 1] 3.

Definition versions_at (s : cluster) (k : nat * Z) : option (Z * Z) :=
  sb ← synced s !! k; Some (sb_version_get_version sb, next_version (metadata sb)).

(** C35: when nodes fail between the first barrier of a transaction and the
    record of its end, an exchange of versions that all the members complete
    can leave them with different versions: each ignores the other, one for
    its older version and the other for its older next version. *)
Theorem sb_versions_diverge :
  ∃ s, mships_ok three mship3 ∧ cluster_reachable mship3 false three s ∧
    versions_at s (3%nat, 0) = Some (2, 3) ∧ versions_at s (3%nat, 1) = Some (1, 4).
Proof.
  assert (H : match exec_all mship3 false init3 diverging_run with
    | Some s => versions_at s (3%nat, 0) = Some (2, 3) ∧ versions_at s (3%nat, 1) = Some (1, 4)
    | None => False end) by (vm_compute; done).
  destruct (exec_all _ _ _ _) as [s|] eqn:E; [|destruct H].
  exact (ex_intro _ s (conj mships3_ok (conj (run3_reachable _ _ _ E) H))).
Qed.

Definition agreeing_run : list action :=
  sync_run [0; 1; 2] 1 ++ write_run [0; 1; 2] ++ map ADone [0; 1; 2] ++ [ACommit 0; ACommit 1]
  ++ sync_run [1; 2] 2.

Lemma sb_versions_agree_witness :
  ∃ s sd, dones s !! (1%nat, 0, 1%nat) = Some sd ∧ versions_at s (2%nat, 1) = Some (2, 3) ∧
    ∀ n sn, synced s !! (2%nat, n) = Some sn →
      pending_version (metadata sd) <= sb_version_get_version sn.
Proof.
  assert (H : match exec_all mship3 true init3 agreeing_run with
    | Some s => is_Some (dones s !! (1%nat, 0, 1%nat)) ∧ versions_at s (2%nat, 1) = Some (2, 3)
    | None => False end) by (vm_compute; split; [by eexists|done]).
  destruct (exec_all _ _ _ _) as [s|] eqn:E; [|destruct H]. destruct H as [[sd Hd] Hv].
  destruct (sb_versions_agree three mship3 s mships3_ok (run3_reachable _ _ _ E)) as (_ & _ & _ & Hdur).
  exact (ex_intro _ s (ex_intro _ sd (conj Hd (conj Hv (λ n sn Hn,
    Hdur 1%nat 2%nat 0 n 1%nat sd sn Hd Hn (Nat.lt_succ_diag_r 1)))))).
Defined.
