(* ===== verification/Serial.v ===== *)
(** * Serialisation of assemblies and storages

    Model of the functions that write extents, slots, volumes, assembly groups
    and storages to a stream and read them back
    ([vrt/assembly/src/extent.c], [assembly_slot.c], [assembly_volume.c],
    [assembly_group.c] and [vrt/virtualiseur/src/storage.c]), on any stream of
    [Stream].  A structure is written as its bytes, little-endian.  Reading a
    group back takes its chunks again from the devices of the storage. *)

From S2P Require Import Prelude Nodeset Extent Prediction Storage Assembly Bytes Stream.
From stdpp Require Import options.

(** ** Structures as bytes *)

Definition uuid_bytes (u : exa_uuid_t) : list Z := concat (map (λ i, le_bytes 4 (u !!! i)) (seq 0 UUID_LEN)).

Definition uuid_of (b : list Z) : exa_uuid_t :=
  map (λ i, le_val (slice (4 * Z.of_nat i) 4 b)) (seq 0 UUID_LEN).

(** [flat_extent_t] *)
Definition flat_extent_bytes (e : extent_t) : list Z := le_bytes 8 (e_start e) ++ le_bytes 8 (e_end e).

Record chunk_header_t := mk_chunk_header { ch_rdev_uuid : exa_uuid_t; ch_offset : Z }.

Definition chunk_header_bytes (h : chunk_header_t) : list Z :=
  uuid_bytes (ch_rdev_uuid h) ++ le_bytes 8 (ch_offset h).
Definition chunk_header_of (b : list Z) : chunk_header_t :=
  mk_chunk_header (uuid_of (slice 0 16 b)) (le_val (slice 16 8 b)).

(** [slot_header_t] is its width. *)

Definition AV_HEADER_MAGIC : Z := 0x77A44A22.

Record av_header_t := mk_av_header {
  avh_magic : Z;
  avh_reserved : Z;
  avh_uuid : exa_uuid_t;
  avh_total_slot_count : Z
}.

Definition av_header_bytes (h : av_header_t) : list Z :=
  le_bytes 4 (avh_magic h) ++ le_bytes 4 (avh_reserved h) ++ uuid_bytes (avh_uuid h)
  ++ le_bytes 8 (avh_total_slot_count h).
Definition av_header_of (b : list Z) : av_header_t :=
  mk_av_header (le_val (slice 0 4 b)) (le_val (slice 4 4 b)) (uuid_of (slice 8 16 b)) (le_val (slice 24 8 b)).

Definition AG_HEADER_MAGIC : Z := 0x66A33A11.
Definition AG_HEADER_FORMAT : Z := 1.

Record ag_header_t := mk_ag_header {
  agh_magic : Z;
  agh_format : Z;
  agh_slot_size : Z;
  agh_slot_width : Z;
  agh_num_subspaces : Z
}.

Definition ag_header_bytes (h : ag_header_t) : list Z :=
  le_bytes 4 (agh_magic h) ++ le_bytes 4 (agh_format h) ++ le_bytes 4 (agh_slot_size h)
  ++ le_bytes 4 (agh_slot_width h) ++ le_bytes 4 (agh_num_subspaces h).
Definition ag_header_of (b : list Z) : ag_header_t :=
  mk_ag_header (le_val (slice 0 4 b)) (le_val (slice 4 4 b)) (le_val (slice 8 4 b))
    (le_val (slice 12 4 b)) (le_val (slice 16 4 b)).

Definition STORAGE_HEADER_MAGIC : Z := 0x7700FFCC.
Definition STORAGE_HEADER_FORMAT : Z := 1.

Record storage_header_t := mk_storage_header {
  sh_magic : Z;
  sh_format : Z;
  sh_chunk_size : Z;
  sh_nb_rdevs : Z
}.

Definition storage_header_bytes (h : storage_header_t) : list Z :=
  le_bytes 4 (sh_magic h) ++ le_bytes 4 (sh_format h) ++ le_bytes 4 (sh_chunk_size h)
  ++ le_bytes 4 (sh_nb_rdevs h).
Definition storage_header_of (b : list Z) : storage_header_t :=
  mk_storage_header (le_val (slice 0 4 b)) (le_val (slice 4 4 b)) (le_val (slice 8 4 b))
    (le_val (slice 12 4 b)).

Record storage_rdev_header_t := mk_storage_rdev_header { srh_uuid : exa_uuid_t; srh_total_chunks_count : Z }.

Definition storage_rdev_header_bytes (h : storage_rdev_header_t) : list Z :=
  uuid_bytes (srh_uuid h) ++ le_bytes 8 (srh_total_chunks_count h).
Definition storage_rdev_header_of (b : list Z) : storage_rdev_header_t :=
  mk_storage_rdev_header (uuid_of (slice 0 16 b)) (le_val (slice 16 8 b)).

(** ** Calls that return an error or a value, with a state *)

Definition andthen {S A B} (c : option (S * result A)) (k : S → A → option (S * result B))
    : option (S * result B) :=
  '(s, r) ← c;
  match r with Ok a => k s a | Err e => Some (s, Err e) end.

Notation "'try!' ( s , x ) ':=' c ; k" := (andthen c (λ s x, k))
  (at level 20, s name, x name, c at level 100, k at level 200, right associativity,
   format "'try!'  ( s ,  x )  ':='  c ;  '//' k") : exa_scope.

(** ** Writing *)

Section serialize.
Context {W : Type} (stream : option (stream_t W)).

(** [stream_write] of a structure, and the test of its result. *)
Definition write_struct (w : W) (buf : list Z) : option (W * result unit) :=
  '(w, r) ← stream_write stream w buf;
  Some (w, match r with
           | Err e => Err e
           | Ok n => if n =? len buf then Ok tt else Err EIO
           end).

Definition extent_serialize (w : W) (e : extent_t) : option (W * result unit) :=
  write_struct w (flat_extent_bytes e).

Fixpoint extents_loop (w : W) (l : list extent_t) : option (W * result unit) :=
  match l with
  | [] => Some (w, Ok tt)
  | e :: l' => try! (w, _u) := extent_serialize w e; extents_loop w l'
  end.

Definition extent_list_serialize (w : W) (l : list extent_t) : option (W * result unit) :=
  try! (w, _u) := write_struct w (le_bytes 4 (extent_list_count l));
  extents_loop w l.

Definition chunk_serialize (m : mem) (w : W) (c : chunk_t) : option (W * result unit) :=
  r ← m !! chunk_get_rdev c;
  write_struct w (chunk_header_bytes (mk_chunk_header (r_uuid r) (c_offset c))).

Fixpoint chunks_loop (m : mem) (w : W) (l : list (option chunk_t)) : option (W * result unit) :=
  match l with
  | [] => Some (w, Ok tt)
  | c :: l' => c ← c; try! (w, _u) := chunk_serialize m w c; chunks_loop m w l'
  end.

(** The first [width] chunks; [None] when the array is shorter. *)
Definition slot_serialize (m : mem) (w : W) (s : slot_t) : option (W * result unit) :=
  try! (w, _u) := write_struct w (le_bytes 4 (width s));
  assert! bool_decide (Z.to_nat (width s) <= length (s_chunks s))%nat;
  chunks_loop m w (take (Z.to_nat (width s)) (s_chunks s)).

Fixpoint slots_loop (m : mem) (w : W) (l : list slot_t) : option (W * result unit) :=
  match l with
  | [] => Some (w, Ok tt)
  | s :: l' => try! (w, _u) := slot_serialize m w s; slots_loop m w l'
  end.

Definition assembly_volume_serialize (m : mem) (w : W) (av : assembly_volume_t) : option (W * result unit) :=
  try! (w, _u) := write_struct w (av_header_bytes (mk_av_header AV_HEADER_MAGIC 0 (av_uuid av) (total_slots_count av)));
  assert! bool_decide (Z.to_nat (total_slots_count av) <= length (slots av))%nat;
  slots_loop m w (take (Z.to_nat (total_slots_count av)) (slots av)).

Fixpoint volumes_loop (m : mem) (w : W) (l : list assembly_volume_t) : option (W * result unit) :=
  match l with
  | [] => Some (w, Ok tt)
  | av :: l' => try! (w, _u) := assembly_volume_serialize m w av; volumes_loop m w l'
  end.

Definition assembly_group_serialize (m : mem) (w : W) (ag : assembly_group_t) : option (W * result unit) :=
  try! (w, _u) := write_struct w (ag_header_bytes
    (mk_ag_header AG_HEADER_MAGIC AG_HEADER_FORMAT (slot_size ag) (slot_width ag) (num_subspaces ag)));
  volumes_loop m w (subspaces ag).

Definition storage_rdev_serialize (w : W) (r : vrt_realdev_t) : option (W * result unit) :=
  write_struct w (storage_rdev_header_bytes (mk_storage_rdev_header (r_uuid r) (total_chunks_count (chunks r)))).

Fixpoint storage_rdevs_loop (fuel : nat) (m : mem) (st : storage_t) (iter : storage_rdev_iter_t) (w : W)
    : option (W * result unit) :=
  match fuel with
  | O => None
  | S fuel' =>
      '(rdev, iter) ← storage_rdev_iterator_get (rdev_iter_fuel st) st iter;
      match rdev with
      | None => Some (w, Ok tt)
      | Some p =>
          r ← m !! p;
          try! (w, _u) := storage_rdev_serialize w r;
          storage_rdevs_loop fuel' m st iter w
      end
  end.

Definition storage_serialize (m : mem) (w : W) (st : storage_t) : option (W * result unit) :=
  try! (w, _u) := write_struct w (storage_header_bytes
    (mk_storage_header STORAGE_HEADER_MAGIC STORAGE_HEADER_FORMAT (s_chunk_size st) (storage_get_num_realdevs st)));
  storage_rdevs_loop (S (Z.to_nat (storage_get_num_realdevs st))) m st storage_rdev_iterator_begin w.
End serialize.

(** *** Sizes *)

Definition slot_serialized_size (s : slot_t) : Z := u64 (4 + width s * 24).

(** The size of the first slot counts for all; [None] without slots. *)
Definition assembly_volume_serialized_size (av : assembly_volume_t) : option Z :=
  s ← slots av !! 0%nat;
  Some (u64 (32 + u64 (total_slots_count av * slot_serialized_size s))).

Fixpoint volumes_size (l : list assembly_volume_t) (total : Z) : option Z :=
  match l with
  | [] => Some total
  | av :: l' => n ← assembly_volume_serialized_size av; volumes_size l' (u64 (total + n))
  end.

Definition assembly_group_serialized_size (ag : assembly_group_t) : option Z :=
  total ← volumes_size (subspaces ag) 0; Some (u64 (20 + total)).

Definition storage_rdev_serialized_size : Z := 24.

Fixpoint storage_size_loop (fuel : nat) (st : storage_t) (iter : storage_rdev_iter_t) (size : Z) : option Z :=
  match fuel with
  | O => None
  | S fuel' =>
      '(rdev, iter) ← storage_rdev_iterator_get (rdev_iter_fuel st) st iter;
      match rdev with
      | None => Some size
      | Some _ => storage_size_loop fuel' st iter (u64 (size + storage_rdev_serialized_size))
      end
  end.

Definition storage_serialized_size (st : storage_t) : option Z :=
  storage_size_loop (S (Z.to_nat (storage_get_num_realdevs st))) st storage_rdev_iterator_begin 16.

(** ** Reading *)

(** The stream, the devices, and the number of allocations so far. *)
Record ds (W : Type) := mk_ds { ds_w : W; ds_mem : mem; ds_allocs : nat }.
Arguments mk_ds {W} _ _ _.
Arguments ds_w {W} _.
Arguments ds_mem {W} _.
Arguments ds_allocs {W} _.

Section deserialize.
Context {W : Type} (alloc : nat → bool) (stream : option (stream_t W)).
Implicit Types s : ds W.

(** [stream_read] of a structure of [n] bytes, and the test of its result. *)
Definition read_struct s (n : Z) : option (ds W * result (list Z)) :=
  '(w, r) ← stream_read stream (ds_w s) n;
  Some (mk_ds w (ds_mem s) (ds_allocs s),
        match r with
        | Err e => Err e
        | Ok b => if len b =? n then Ok b else Err EIO
        end).

Definition with_mem s (m : mem) : ds W := mk_ds (ds_w s) m (ds_allocs s).

(** [os_malloc]: whether it succeeds. *)
Definition os_malloc s : bool * ds W := (alloc (ds_allocs s), mk_ds (ds_w s) (ds_mem s) (S (ds_allocs s))).

Definition extent_deserialize s : option (ds W * result extent_t) :=
  try! (s, b) := read_struct s 16;
  let '(ok, s) := os_malloc s in
  Some (s, if ok then Ok (mk_extent (le_val (slice 0 8 b)) (le_val (slice 8 8 b))) else Err ENOMEM).

Fixpoint extent_list_loop (n : nat) s : option (ds W * result (list extent_t)) :=
  match n with
  | O => Some (s, Ok [])
  | S n' =>
      try! (s, e) := extent_deserialize s;
      try! (s, l) := extent_list_loop n' s;
      Some (s, Ok (e :: l))
  end.

Definition extent_list_deserialize s : option (ds W * result (list extent_t)) :=
  try! (s, b) := read_struct s 4;
  extent_list_loop (Z.to_nat (le_val b)) s.

Definition chunk_header_read s : option (ds W * result chunk_header_t) :=
  try! (s, b) := read_struct s 24; Some (s, Ok (chunk_header_of b)).

Definition chunk_deserialize (st : storage_t) s : option (ds W * result chunk_t) :=
  try! (s, h) := chunk_header_read s;
  rdev ← storage_get_rdev (ds_mem s) st (ch_rdev_uuid h);
  match rdev with
  | None => Some (s, Err VRT_ERR_SB_CORRUPTION)
  | Some p =>
      '(m, c) ← chunk_get_from_rdev_at_offset (ds_mem s) p (ch_offset h);
      Some (with_mem s m, Ok c)
  end.

Definition slot_header_read s : option (ds W * result Z) :=
  try! (s, b) := read_struct s 4; Some (s, Ok (le_val b)).

(** The chunks read so far, and the error if one could not be read. *)
Fixpoint chunks_read_loop (n : nat) (st : storage_t) s : option (ds W * list chunk_t * result unit) :=
  match n with
  | O => Some (s, [], Ok tt)
  | S n' =>
      '(s, r) ← chunk_deserialize st s;
      match r with
      | Err e => Some (s, [], Err e)
      | Ok c => '(s, l, r) ← chunks_read_loop n' st s; Some (s, c :: l, r)
      end
  end.

(** The caller does not initialise the pointer to the slot: testing it when
    the header could not be read has no meaning; neither has using the slot
    that was freed when its array could not be allocated. *)
Definition slot_deserialize (st : storage_t) s : option (ds W * result slot_t) :=
  '(s, r) ← slot_header_read s;
  match r with
  | Err _ => None
  | Ok w =>
      let '(ok, s) := os_malloc s in
      if negb ok then Some (s, Err ENOMEM)
      else
        let '(ok, s) := os_malloc s in
        if negb ok then None
        else
          '(s, l, r) ← chunks_read_loop (Z.to_nat w) st s;
          match r with
          | Ok _ => Some (s, Ok (mk_slot (Some <$> l) w))
          | Err e => m ← put_chunks (ds_mem s) (Some <$> l); Some (with_mem s m, Err e)
          end
  end.

Definition assembly_volume_header_read s : option (ds W * result av_header_t) :=
  try! (s, b) := read_struct s 32; Some (s, Ok (av_header_of b)).

Fixpoint slots_read_loop (n : nat) (st : storage_t) s : option (ds W * list slot_t * result unit) :=
  match n with
  | O => Some (s, [], Ok tt)
  | S n' =>
      '(s, r) ← slot_deserialize st s;
      match r with
      | Err e => Some (s, [], Err e)
      | Ok x => '(s, l, r) ← slots_read_loop n' st s; Some (s, x :: l, r)
      end
  end.

Definition assembly_volume_deserialize (st : storage_t) s : option (ds W * result assembly_volume_t) :=
  try! (s, h) := assembly_volume_header_read s;
  if negb (avh_magic h =? AV_HEADER_MAGIC) then Some (s, Err VRT_ERR_SB_MAGIC)
  else if negb (avh_reserved h =? 0) then Some (s, Err VRT_ERR_SB_CORRUPTION)
  else
    let '(ok, s) := os_malloc s in
    match assembly_volume_alloc ok (avh_uuid h) with
    | None => Some (s, Err ENOMEM)
    | Some av =>
        let '(ok, s) := os_malloc s in
        if negb ok then m ← assembly_volume_free (ds_mem s) av; Some (with_mem s m, Err ENOMEM)
        else
          '(s, l, r) ← slots_read_loop (Z.to_nat (avh_total_slot_count h)) st s;
          let av := mk_av (av_uuid av) l (Z.of_nat (length l)) in
          match r with
          | Ok _ => Some (s, Ok av)
          | Err e => m ← assembly_volume_free (ds_mem s) av; Some (with_mem s m, Err e)
          end
    end.

Definition assembly_group_header_read s : option (ds W * result ag_header_t) :=
  try! (s, b) := read_struct s 20; Some (s, Ok (ag_header_of b)).

(** The group with the volumes read so far. *)
Fixpoint volumes_read_loop (n : nat) (st : storage_t) s (ag : assembly_group_t)
    : option (ds W * assembly_group_t * result unit) :=
  match n with
  | O => Some (s, ag, Ok tt)
  | S n' =>
      '(s, r) ← assembly_volume_deserialize st s;
      match r with
      | Err e => Some (s, ag, Err e)
      | Ok av => volumes_read_loop n' st s (assembly_group_insert_volume ag av)
      end
  end.

Definition assembly_group_deserialize (st : storage_t) s : option (ds W * result assembly_group_t) :=
  try! (s, h) := assembly_group_header_read s;
  if negb (agh_magic h =? AG_HEADER_MAGIC) then Some (s, Err VRT_ERR_SB_MAGIC)
  else if negb (agh_format h =? AG_HEADER_FORMAT) then Some (s, Err VRT_ERR_SB_FORMAT)
  else
    '(s, ag, r) ← volumes_read_loop (Z.to_nat (agh_num_subspaces h)) st s
                    (mk_ag true (agh_slot_size h) (agh_slot_width h) [] 0);
    match r with
    | Ok _ => Some (s, Ok ag)
    | Err e => '(m, _) ← assembly_group_cleanup (ds_mem s) ag; Some (with_mem s m, Err e)
    end.

Definition storage_rdev_header_read s : option (ds W * result storage_rdev_header_t) :=
  try! (s, b) := read_struct s 24; Some (s, Ok (storage_rdev_header_of b)).

Definition storage_rdev_deserialize (st : storage_t) s : option (ds W * result Z) :=
  try! (s, h) := storage_rdev_header_read s;
  rdev ← storage_get_rdev (ds_mem s) st (srh_uuid h);
  match rdev with
  | None => Some (s, Err VRT_ERR_SB_CORRUPTION)
  | Some p =>
      m ← storage_initialize_rdev_chunks_info (ds_mem s) st p (srh_total_chunks_count h);
      Some (with_mem s m, Ok p)
  end.

Definition storage_header_read s : option (ds W * result storage_header_t) :=
  try! (s, b) := read_struct s 16; Some (s, Ok (storage_header_of b)).

Fixpoint storage_rdevs_read_loop (n : nat) (st : storage_t) s : option (ds W * result unit) :=
  match n with
  | O => Some (s, Ok tt)
  | S n' => try! (s, _p) := storage_rdev_deserialize st s; storage_rdevs_read_loop n' st s
  end.

(** The storage is changed in place; the result of [storage_set_chunk_size] is
    not tested. *)
Definition storage_deserialize (st : storage_t) s : option (ds W * storage_t * result unit) :=
  '(s, r) ← storage_header_read s;
  match r with
  | Err e => Some (s, st, Err e)
  | Ok h =>
      if negb (sh_magic h =? STORAGE_HEADER_MAGIC) then Some (s, st, Err VRT_ERR_SB_MAGIC)
      else if negb (sh_format h =? STORAGE_HEADER_FORMAT) then Some (s, st, Err VRT_ERR_SB_FORMAT)
      else if negb (sh_nb_rdevs h =? u32 (storage_get_num_realdevs st)) then
        Some (s, st, Err VRT_ERR_SB_CORRUPTION)
      else
        res ← storage_set_chunk_size st (sh_chunk_size h);
        let st := match res with Ok st' => st' | Err _ => st end in
        '(s, r) ← storage_rdevs_read_loop (Z.to_nat (sh_nb_rdevs h)) st s;
        Some (s, st, r)
  end.
End deserialize.

(** ** Serialisation writes a sequence of buffers *)

Section buffers.
Context {W : Type} (stream : option (stream_t W)).
Implicit Types w : W.

Lemma andthen_assoc {S A B C} (c : option (S * result A)) (k : S → A → option (S * result B))
    (k' : S → B → option (S * result C)) :
  andthen (andthen c k) k' = andthen c (λ s a, andthen (k s a) k').
Proof. destruct c as [[s [a|e]]|]; done. Qed.

Lemma andthen_ok {S A B} (s : S) (a : A) (k : S → A → option (S * result B)) : andthen (Some (s, Ok a)) k = k s a.
Proof. done. Qed.

Lemma write_all_cons w b l :
  write_all stream w (b :: l) = try! (w, _u) := write_struct stream w b; write_all stream w l.
Proof.
  cbn [write_all]. unfold write_struct, andthen.
  destruct (stream_write stream w b) as [[w' [n|e]]|]; [|done..]. cbn. by destruct (n =? len b).
Qed.

Lemma write_all_one w b : write_struct stream w b = write_all stream w [b].
Proof.
  rewrite write_all_cons. unfold andthen. destruct (write_struct stream w b) as [[w' [[]|e]]|]; done.
Qed.

Lemma write_all_app w l l' :
  write_all stream w (l ++ l') = try! (w, _u) := write_all stream w l; write_all stream w l'.
Proof.
  revert w. induction l as [|b l IH]; intros w; [done|].
  rewrite <- app_comm_cons, !write_all_cons, andthen_assoc. unfold andthen.
  destruct (write_struct stream w b) as [[w' [[]|e]]|]; [|done..]. cbn. apply IH.
Qed.

(** Buffers written one list per element. *)
Lemma write_all_concat {A} (ser : W → A → option (W * result unit)) (bufs : A → list (list Z)) (l : list A)
    (loop : W → list A → option (W * result unit)) w :
  (∀ w, loop w [] = Some (w, Ok tt)) →
  (∀ w a l', loop w (a :: l') = try! (w, _u) := ser w a; loop w l') →
  (∀ w a, a ∈ l → ser w a = write_all stream w (bufs a)) →
  loop w l = write_all stream w (concat (map bufs l)).
Proof.
  intros H0 H1. revert w. induction l as [|a l IH]; intros w Hser; [apply H0|].
  rewrite H1. cbn [map concat]. rewrite write_all_app, Hser by (by left). unfold andthen.
  destruct (write_all stream w (bufs a)) as [[w' [[]|e]]|]; [|done..]. cbn. apply IH.
  intros w'' b Hb. apply Hser. by right.
Qed.

Definition extent_list_bufs (l : list extent_t) : list (list Z) :=
  le_bytes 4 (extent_list_count l) :: map flat_extent_bytes l.

Lemma extent_list_writes w l :
  extent_list_serialize stream w l = write_all stream w (extent_list_bufs l).
Proof.
  unfold extent_list_serialize, extent_list_bufs. rewrite write_all_cons. unfold andthen.
  destruct (write_struct stream w _) as [[w' [[]|e]]|]; [|done..]. cbn.
  rewrite (write_all_concat (extent_serialize stream) (λ e, [flat_extent_bytes e]) l (extents_loop stream)).
  - f_equal. induction l as [|e l IH]; [done|]. simpl. by rewrite IH.
  - done.
  - done.
  - intros w'' e _. apply write_all_one.
Qed.

(** The chunk of a device that is known. *)
Definition chunk_buf (m : mem) (c : chunk_t) : list Z :=
  chunk_header_bytes (mk_chunk_header (from_option r_uuid [] (m !! c_rdev c)) (c_offset c)).

Definition slot_bufs (m : mem) (s : slot_t) : list (list Z) :=
  le_bytes 4 (width s) :: map (chunk_buf m) (slot_chunks s).

Definition volume_bufs (m : mem) (av : assembly_volume_t) : list (list Z) :=
  av_header_bytes (mk_av_header AV_HEADER_MAGIC 0 (av_uuid av) (total_slots_count av))
  :: concat (map (slot_bufs m) (slots av)).

Definition ag_bufs (m : mem) (ag : assembly_group_t) : list (list Z) :=
  ag_header_bytes (mk_ag_header AG_HEADER_MAGIC AG_HEADER_FORMAT (slot_size ag) (slot_width ag) (num_subspaces ag))
  :: concat (map (volume_bufs m) (subspaces ag)).

Definition rdev_buf (m : mem) (p : Z) : list Z :=
  from_option (λ r, storage_rdev_header_bytes (mk_storage_rdev_header (r_uuid r) (total_chunks_count (chunks r))))
    [] (m !! p).

Definition storage_bufs (m : mem) (st : storage_t) : list (list Z) :=
  storage_header_bytes
    (mk_storage_header STORAGE_HEADER_MAGIC STORAGE_HEADER_FORMAT (s_chunk_size st) (storage_get_num_realdevs st))
  :: map (rdev_buf m) (storage_rdevs st).

Definition known (m : mem) (cs : list chunk_t) : Prop := ∀ c, c ∈ cs → is_Some (m !! c_rdev c).

Lemma slot_writes m st wd w s :
  slot_wf st wd s → known m (slot_chunks s) → slot_serialize stream m w s = write_all stream w (slot_bufs m s).
Proof.
  intros [Hc Hw Hl _] Hk. unfold slot_serialize, slot_bufs. rewrite write_all_cons. unfold andthen.
  destruct (write_struct stream w _) as [[w' [[]|e]]|]; [|done..]. cbn.
  rewrite bool_decide_true by lia. cbn [exa_assert]. rewrite take_ge by lia. rewrite Hc.
  revert w' Hk. generalize (slot_chunks s). clear. intros l. induction l as [|c l IH]; intros w Hk; [done|].
  cbn [fmap list_fmap chunks_loop map]. rewrite write_all_cons. destruct (Hk c) as [r Hr]; [by left|].
  simpl. unfold chunk_serialize, chunk_buf, chunk_get_rdev. rewrite Hr. simpl. unfold andthen.
  destruct (write_struct stream w _) as [[w' [[]|e]]|]; [|done..]. cbn. apply IH.
  intros d Hd. apply Hk. by right.
Qed.

Lemma volume_writes m st wd w av :
  volume_wf st wd av → known m (volume_chunks av) →
  assembly_volume_serialize stream m w av = write_all stream w (volume_bufs m av).
Proof.
  intros [Ht Hs] Hk. unfold assembly_volume_serialize, volume_bufs. rewrite write_all_cons. unfold andthen.
  destruct (write_struct stream w _) as [[w' [[]|e]]|]; [|done..]. cbn.
  rewrite bool_decide_true by lia. cbn [exa_assert]. rewrite take_ge by lia.
  apply (write_all_concat (slot_serialize stream m)); [done|done|]. intros w'' s Hin.
  apply (slot_writes m st wd); [by apply (proj1 (Forall_forall _ _) Hs)|].
  intros c Hc. apply Hk. unfold volume_chunks. apply list_elem_of_In, in_concat. exists (slot_chunks s).
  split; [apply in_map|]; by apply list_elem_of_In.
Qed.

Lemma ag_writes m st w ag :
  ag_wf st ag → known m (ag_chunks ag) →
  assembly_group_serialize stream m w ag = write_all stream w (ag_bufs m ag).
Proof.
  intros [_ Hv] Hk. unfold assembly_group_serialize, ag_bufs. rewrite write_all_cons. unfold andthen.
  destruct (write_struct stream w _) as [[w' [[]|e]]|]; [|done..]. cbn.
  apply (write_all_concat (assembly_volume_serialize stream m)); [done|done|]. intros w'' av Hin.
  apply (volume_writes m st (slot_width ag)); [by apply (proj1 (Forall_forall _ _) Hv)|].
  intros c Hc. apply Hk. unfold ag_chunks. apply list_elem_of_In, in_concat. exists (volume_chunks av).
  split; [apply in_map|]; by apply list_elem_of_In.
Qed.

Lemma storage_rdevs_loop_writes fuel m st it w :
  storage_wf st → 0 <= spof_group_index it → 0 <= realdev_index it →
  (length (iter_rest st it) < fuel)%nat → (∀ p, p ∈ iter_rest st it → is_Some (m !! p)) →
  storage_rdevs_loop stream fuel m st it w = write_all stream w (map (rdev_buf m) (iter_rest st it)).
Proof.
  intros Hs. revert it w. induction fuel as [|fuel IH]; intros it w Hi Hj Hf Hm; [lia|].
  cbn [storage_rdevs_loop]. destruct (iterator_next st it Hs Hi Hj) as (it' & -> & Hr & Hi' & Hj'). returned.
  destruct (iter_rest st it) as [|p l] eqn:El; cbn [head]; [done|]. simpl in Hr.
  destruct (Hm p) as [r Hmr]; [by left|]. rewrite Hmr. returned. cbn [map]. rewrite write_all_cons.
  unfold rdev_buf at 1. rewrite Hmr. simpl. unfold storage_rdev_serialize, andthen.
  destruct (write_struct stream w _) as [[w' [[]|e]]|]; [|done..]. cbn.
  rewrite IH; [by rewrite Hr|done|done|rewrite Hr; simpl in Hf; lia|rewrite Hr; intros; apply Hm; by right].
Qed.

Lemma storage_writes m st w :
  storage_wf st → (∀ p, p ∈ storage_rdevs st → is_Some (m !! p)) →
  storage_serialize stream m w st = write_all stream w (storage_bufs m st).
Proof.
  intros Hs Hm. unfold storage_serialize, storage_bufs. rewrite write_all_cons.
  destruct (write_struct stream w _) as [[w' [[]|e]]|]; [|done..]. rewrite !andthen_ok.
  rewrite storage_rdevs_loop_writes; rewrite ?iter_begin_rest; [done|done|done|done| |done].
  rewrite num_realdevs_ok by done. lia.
Qed.
End buffers.

(** ** Structures read back *)

Definition uuid_ok (u : exa_uuid_t) : Prop := length u = UUID_LEN ∧ Forall (fits 32) u.

Lemma uuid_cases u : uuid_ok u → ∃ a b c d, u = [a; b; c; d] ∧ fits 32 a ∧ fits 32 b ∧ fits 32 c ∧ fits 32 d.
Proof.
  intros [Hl Hf]. destruct u as [|a [|b [|c [|d [|e u]]]]]; try done.
  rewrite !Forall_cons in Hf. exists a, b, c, d. tauto.
Qed.

Lemma le4 x : fits 32 x → le_val (le_bytes 4 x) = x.
Proof. intros H. by apply le_val_bytes. Qed.

Lemma le8 x : fits 64 x → le_val (le_bytes 8 x) = x.
Proof. intros H. by apply le_val_bytes. Qed.

Lemma len_uuid u : len (uuid_bytes u) = 16.
Proof. unfold uuid_bytes. cbn [UUID_LEN seq map concat]. by rewrite !len_app, !len_le_bytes. Qed.

Lemma bytes_ok_app l l' : bytes_ok l → bytes_ok l' → bytes_ok (l ++ l').
Proof. intros. by apply Forall_app. Qed.

Lemma uuid_bytes_ok u : bytes_ok (uuid_bytes u).
Proof.
  unfold uuid_bytes. cbn [UUID_LEN seq map concat].
  repeat (apply bytes_ok_app; [apply le_bytes_ok|]). constructor.
Qed.

Lemma uuid_roundtrip u l : uuid_ok u → uuid_of (uuid_bytes u ++ l) = u.
Proof.
  intros Hu. destruct (uuid_cases u Hu) as (a & b & c & d & -> & Ha & Hb & Hc & Hd).
  unfold uuid_of, uuid_bytes. cbn [UUID_LEN seq map concat]. rewrite <- !app_assoc.
  change (4 * Z.of_nat 0) with 0. change (4 * Z.of_nat 1) with 4.
  change (4 * Z.of_nat 2) with 8. change (4 * Z.of_nat 3) with 12. read_fields.
  by rewrite !le4.
Qed.

Lemma slice_uuid u l : slice 0 16 (uuid_bytes u ++ l) = uuid_bytes u.
Proof.
  unfold slice. change (Z.to_nat 0) with 0%nat. rewrite drop_0.
  assert (length (uuid_bytes u) = Z.to_nat 16) as H by (pose proof (len_uuid u); unfold len in *; lia).
  rewrite <- H. apply take_app_length.
Qed.

Lemma slice_exact l n : len l = n → slice 0 n l = l.
Proof. intros <-. apply slice_all. Qed.

Lemma len_chunk_header h : len (chunk_header_bytes h) = 24.
Proof. unfold chunk_header_bytes. by rewrite len_app, len_uuid, len_le_bytes. Qed.

Lemma len_rdev_header h : len (storage_rdev_header_bytes h) = 24.
Proof. unfold storage_rdev_header_bytes. by rewrite len_app, len_uuid, len_le_bytes. Qed.

Lemma len_av_header h : len (av_header_bytes h) = 32.
Proof. unfold av_header_bytes. by rewrite !len_app, len_uuid, !len_le_bytes. Qed.

Lemma len_ag_header h : len (ag_header_bytes h) = 20.
Proof. unfold ag_header_bytes. by rewrite !len_app, !len_le_bytes. Qed.

Lemma len_storage_header h : len (storage_header_bytes h) = 16.
Proof. unfold storage_header_bytes. by rewrite !len_app, !len_le_bytes. Qed.

Definition chunk_header_ok (h : chunk_header_t) : Prop := uuid_ok (ch_rdev_uuid h) ∧ fits 64 (ch_offset h).

Lemma chunk_header_roundtrip h : chunk_header_ok h → chunk_header_of (chunk_header_bytes h) = h.
Proof.
  intros [Hu Ho]. unfold chunk_header_of, chunk_header_bytes.
  rewrite slice_uuid, <- (app_nil_r (uuid_bytes _)) at 1. rewrite uuid_roundtrip by done.
  rewrite (slice_skip _ 16 8 _ 16) by (apply len_uuid || lia). change (16 - 16) with 0.
  rewrite (slice_exact _ 8) by (apply len_le_bytes). rewrite le8 by done. by destruct h.
Qed.

Lemma storage_rdev_header_roundtrip h :
  uuid_ok (srh_uuid h) → fits 64 (srh_total_chunks_count h) → storage_rdev_header_of (storage_rdev_header_bytes h) = h.
Proof.
  intros Hu Ho. unfold storage_rdev_header_of, storage_rdev_header_bytes.
  rewrite slice_uuid, <- (app_nil_r (uuid_bytes _)) at 1. rewrite uuid_roundtrip by done.
  rewrite (slice_skip _ 16 8 _ 16) by (apply len_uuid || lia). change (16 - 16) with 0.
  rewrite (slice_exact _ 8) by (apply len_le_bytes). rewrite le8 by done. by destruct h.
Qed.

Lemma av_header_roundtrip h :
  fits 32 (avh_magic h) → fits 32 (avh_reserved h) → uuid_ok (avh_uuid h) → fits 64 (avh_total_slot_count h) →
  av_header_of (av_header_bytes h) = h.
Proof.
  intros Hm Hr Hu Ht. unfold av_header_of, av_header_bytes. read_fields.
  rewrite slice_uuid, <- (app_nil_r (uuid_bytes _)) at 1. rewrite uuid_roundtrip by done.
  rewrite (slice_skip _ 16 8 _ 16) by (apply len_uuid || lia). change (16 - 16) with 0.
  rewrite (slice_exact _ 8) by (apply len_le_bytes). rewrite !le4, le8 by done. by destruct h.
Qed.

Lemma ag_header_roundtrip h :
  fits 32 (agh_magic h) → fits 32 (agh_format h) → fits 32 (agh_slot_size h) → fits 32 (agh_slot_width h) →
  fits 32 (agh_num_subspaces h) → ag_header_of (ag_header_bytes h) = h.
Proof.
  intros H1 H2 H3 H4 H5. unfold ag_header_of, ag_header_bytes. read_fields.
  rewrite (slice_exact _ 4) by (apply len_le_bytes). rewrite !le4 by done. by destruct h.
Qed.

Lemma storage_header_roundtrip h :
  fits 32 (sh_magic h) → fits 32 (sh_format h) → fits 32 (sh_chunk_size h) → fits 32 (sh_nb_rdevs h) →
  storage_header_of (storage_header_bytes h) = h.
Proof.
  intros H1 H2 H3 H4. unfold storage_header_of, storage_header_bytes. read_fields.
  rewrite (slice_exact _ 4) by (apply len_le_bytes). rewrite !le4 by done. by destruct h.
Qed.

(** ** Devices that only differ by their free chunks *)

Definition shape (m : mem) : mem := (λ r, with_free r 0 []) <$> m.

Lemma shape_lookup m m' p r :
  shape m' = shape m → m !! p = Some r → ∃ r', m' !! p = Some r' ∧ with_free r' 0 [] = with_free r 0 [].
Proof.
  intros Hs Hp. assert (E : shape m' !! p = shape m !! p) by (by rewrite Hs).
  unfold shape in E. rewrite !lookup_fmap, Hp in E. destruct (m' !! p) as [r'|]; [|done].
  exists r'. by apply (inj Some) in E.
Qed.

Lemma same_shape r r' :
  with_free r 0 [] = with_free r' 0 [] →
  r_uuid r = r_uuid r' ∧ chunk_size (chunks r) = chunk_size (chunks r') ∧
  total_chunks_count (chunks r) = total_chunks_count (chunks r') ∧ ∀ idx, chunk_off r idx = chunk_off r' idx.
Proof. destruct r as [? []], r' as [? []]. unfold chunk_off. simpl. intros [=]. by subst. Qed.

Lemma shape_insert m p r count free :
  m !! p = Some r → shape (<[p := with_free r count free]> m) = shape m.
Proof.
  intros Hp. unfold shape. rewrite fmap_insert. apply insert_id. by rewrite lookup_fmap, Hp.
Qed.

Lemma same_extents (lo t : Z) l l' :
  extents_from lo l → extents_from lo l' → (∀ v, has l v = true → 0 <= v < t) → (∀ v, has l' v = true → 0 <= v < t) →
  (∀ v, 0 <= v < t → has l v = false ↔ has l' v = false) → l = l'.
Proof.
  intros H1 H2 R1 R2 Hv. apply (extents_ext lo); [done..|]. intros x.
  specialize (R1 x). specialize (R2 x). specialize (Hv x).
  destruct (has l x), (has l' x); try done; exfalso; [destruct (R1 eq_refl)|destruct (R2 eq_refl)]; naive_solver lia.
Qed.

(** The chunks out determine the free ones. *)
Lemma ledger_unique m m' out : ledger m out → ledger m' out → shape m = shape m' → m = m'.
Proof.
  intros L L' Hs. apply map_eq. intros p. destruct (m !! p) as [r|] eqn:Hp.
  - destruct (shape_lookup m m' p r) as (r' & Hp' & E); [done..|]. rewrite Hp'. f_equal.
    pose proof (lg_rdev _ _ L p r Hp) as [_ _ Hw Hr Hc]. pose proof (lg_rdev _ _ L' p r' Hp') as [_ _ Hw' Hr' Hc'].
    destruct (same_shape _ _ E) as (_ & _ & Ht & Ho). rewrite Ht in Hr'.
    assert (Hf : free_chunks (chunks r) = free_chunks (chunks r')).
    { apply (same_extents 0 (total_chunks_count (chunks r))); [done..|]. intros v Hv.
      rewrite <- (lg_out _ _ L p r v Hp Hv), <- (lg_out _ _ L' p r' v Hp') by (by rewrite Ht). by rewrite Ho. }
    rewrite Hf, <- Hc' in Hc. clear -E Hf Hc. destruct r as [? []], r' as [? []]. simpl in *.
    unfold with_free, set_chunks in E. simpl in E. injection E. intros. by subst.
  - destruct (m' !! p) as [r'|] eqn:Hp'; [|done].
    destruct (shape_lookup m' m p r') as (r & E & _); [done..|congruence].
Qed.

(** *** The device of an identifier *)

Definition distinct_uuids (m : mem) (st : storage_t) : Prop :=
  ∀ p q r r', p ∈ storage_rdevs st → q ∈ storage_rdevs st → m !! p = Some r → m !! q = Some r' →
  uuid_is_equal (r_uuid r) (r_uuid r') = true → p = q.

Lemma uuid_is_equal_refl u : uuid_is_equal u u = true.
Proof. apply forallb_forall. intros i _. apply Z.eqb_refl. Qed.

Lemma storage_get_rdev_found m st p r :
  storage_wf st → (∀ q, q ∈ storage_rdevs st → is_Some (m !! q)) → distinct_uuids m st →
  p ∈ storage_rdevs st → m !! p = Some r → storage_get_rdev m st (r_uuid r) = Some (Some p).
Proof.
  intros Hst Hm Hu Hp Hr. unfold storage_get_rdev.
  rewrite get_rdev_loop_ok; rewrite ?iter_begin_rest; try done; [|rewrite num_realdevs_ok by done; lia].
  do 2 f_equal. set (P := λ q : Z, _).
  destruct (list_find_elem_of P (storage_rdevs st) p) as [[i q] E]; [done|unfold P; rewrite Hr; apply uuid_is_equal_refl|].
  rewrite E. apply list_find_Some in E as (Hq & HP & _). apply list_elem_of_lookup_2 in Hq.
  destruct (Hm q Hq) as [r' Hr']. unfold P in HP. rewrite Hr' in HP. simpl in *. f_equal. by eapply Hu.
Qed.

(** The identifiers are all that matters. *)
Lemma distinct_ids m m' st : r_uuid <$> m' = r_uuid <$> m → distinct_uuids m st → distinct_uuids m' st.
Proof.
  intros Hs Hu p q r r' Hp Hq Hr Hr' E.
  assert (H : ∀ i x, m' !! i = Some x → ∃ y, m !! i = Some y ∧ r_uuid x = r_uuid y).
  { intros i x Hx. assert (Ei : (r_uuid <$> m') !! i = (r_uuid <$> m) !! i) by (by rewrite Hs).
    rewrite !lookup_fmap, Hx in Ei. destruct (m !! i) as [y|]; [|done]. exists y. by injection Ei. }
  destruct (H p r Hr) as (r1 & H1 & E1). destruct (H q r' Hr') as (r2 & H2 & E2).
  apply (Hu p q r1 r2); [done..|]. by rewrite <- E1, <- E2.
Qed.

Lemma shape_ids m m' : shape m' = shape m → r_uuid <$> m' = r_uuid <$> m.
Proof.
  intros H. assert (E : ∀ x, r_uuid <$> shape x = r_uuid <$> x); [|by rewrite <- (E m), <- (E m'), H].
  intros x. unfold shape. rewrite <- map_fmap_compose. by apply map_fmap_ext.
Qed.

(** ** Reading back what was written

    [reads c m D m' res]: run where the stream bytes_at the bytes [D], with the
    devices [m], [c] consumes them and returns [res] with the devices [m']. *)

Section reading.
Context {W : Type} (alloc : nat → bool) (stream : option (stream_t W)).
Context (inv : W → Prop) (bytes : W → list Z) (pos : W → Z) (ok : W → Prop).
Context `{!ByteStream stream inv bytes pos ok} (Halloc : ∀ n, alloc n = true).

Record at_pos (B : list Z) (p : Z) (s : ds W) : Prop := {
  ap_inv : inv (ds_w s);
  ap_ok : ok (ds_w s);
  ap_bytes : bytes (ds_w s) = B;
  ap_pos : pos (ds_w s) = p
}.

Definition bytes_at (B : list Z) (p : Z) (D : list Z) : Prop := p + len D <= len B ∧ slice p (len D) B = D.

Definition reads {R} (c : ds W → option R) (m : mem) (D : list Z) (m' : mem) (res : ds W → R) : Prop :=
  ∀ s B p, at_pos B p s → bytes_at B p D → ds_mem s = m →
  ∃ s', c s = Some (res s') ∧ at_pos B (p + len D) s' ∧ ds_mem s' = m'.

Lemma bytes_at_app B p D D' : 0 <= p → bytes_at B p (D ++ D') ↔ bytes_at B p D ∧ bytes_at B (p + len D) D'.
Proof.
  intros Hp. unfold bytes_at. rewrite len_app. pose proof (len_nonneg D). pose proof (len_nonneg D').
  rewrite slice_app by lia. split.
  - intros [Hl E]. assert (len (slice p (len D) B) = len D) as Hd by (apply len_slice; lia).
    apply app_inj_1 in E as [E1 E2]; [|by apply Nat2Z.inj]. split_and!; try done; lia.
  - intros [[Hl E] [Hl' E']]. rewrite E, E'. split; [lia|done].
Qed.

Lemma at_pos_nonneg B p s : at_pos B p s → 0 <= p.
Proof using stream ByteStream0. intros [Hi _ _ <-]. by apply bs_pos. Qed.

Lemma reads_bind {R R'} (c : ds W → option R) (k : R → option R') m D1 m1 D2 m2 res1 res2 :
  reads c m D1 m1 res1 → reads (λ s, k (res1 s)) m1 D2 m2 res2 →
  reads (λ s, c s ≫= k) m (D1 ++ D2) m2 res2.
Proof using stream ByteStream0.
  intros H1 H2 s B p Hs Hh Hm. apply bytes_at_app in Hh as [Hh1 Hh2]; [|by eapply at_pos_nonneg].
  destruct (H1 s B p Hs Hh1 Hm) as (s1 & E1 & Hs1 & Hm1).
  destruct (H2 s1 B _ Hs1 Hh2 Hm1) as (s2 & E2 & Hs2 & Hm2).
  exists s2. rewrite E1, len_app, Z.add_assoc. done.
Qed.

Lemma reads_last {R R'} (c : ds W → option R) (k : R → option R') m D m1 m2 res1 res2 :
  reads c m D m1 res1 → reads (λ s, k (res1 s)) m1 [] m2 res2 → reads (λ s, c s ≫= k) m D m2 res2.
Proof using stream ByteStream0. intros H1 H2. rewrite <- (app_nil_r D). by eapply reads_bind. Qed.

Lemma reads_andthen {A R} (c : ds W → option (ds W * result A)) k m D1 m1 D2 m2 (a : A) (res : ds W → ds W * result R) :
  reads c m D1 m1 (λ s, (s, Ok a)) → reads (λ s, k s a) m1 D2 m2 res →
  reads (λ s, andthen (c s) k) m (D1 ++ D2) m2 res.
Proof using stream ByteStream0. intros H1 H2. unfold andthen. by eapply reads_bind. Qed.

Lemma reads_ret {R} (m : mem) (res : ds W → R) : reads (λ s, Some (res s)) m [] m res.
Proof. intros s B p Hs _ Hm. exists s. rewrite Z.add_0_r. done. Qed.

Lemma reads_malloc {R} (k : bool * ds W → option R) m D m' res :
  reads (λ s, k (true, s)) m D m' res → reads (λ s, k (os_malloc alloc s)) m D m' res.
Proof using Halloc.
  intros H s B p Hs Hh Hm. unfold os_malloc. rewrite Halloc. apply (H (mk_ds _ _ _) B p); [|done..].
  by destruct Hs.
Qed.

Lemma reads_with_mem {R} (m m' : mem) (res : ds W → R) : reads (λ s, Some (res (with_mem s m'))) m [] m' res.
Proof.
  intros s B p Hs _ Hm. exists (with_mem s m'). rewrite Z.add_0_r. split_and!; [done| |done]. by destruct Hs.
Qed.

Lemma reads_struct n m D : len D = n → reads (λ s, read_struct stream s n) m D m (λ s, (s, Ok D)).
Proof using ByteStream0.
  intros <- s B p [Hi Hk HB Hp] [Hl E] Hm. unfold read_struct. subst B p.
  destruct (bs_read (ds_w s) (len D)) as (w & r & -> & Hi' & Hb' & Hk' & Hr); [done|apply len_nonneg|done|].
  destruct r as [d|e]; [|done]. destruct Hr as [-> Hp']. rewrite E. cbn [mbind option_bind].
  rewrite Z.eqb_refl. eexists. split; [done|]. split; [|done]. split; simpl; auto.
Qed.
(** *** Chunks are taken again

    [restores c D cs res]: from any state of the devices in which the chunks
    [cs] are free, [c] consumes [D], takes them, and returns [res]. *)

Context (m0 : mem) (st : storage_t).

Definition restores {R} (c : ds W → option R) (D : list Z) (cs : list chunk_t) (res : ds W → R) : Prop :=
  ∀ m out, ledger m out → shape m = shape m0 → NoDup (cs ++ out) →
  ∃ m', reads c m D m' res ∧ ledger m' (cs ++ out) ∧ shape m' = shape m0.

Lemma restores_bind {R R'} (c : ds W → option R) (k : R → option R') D1 D2 cs1 cs2 res1 res2 :
  restores c D1 cs1 res1 → restores (λ s, k (res1 s)) D2 cs2 res2 →
  restores (λ s, c s ≫= k) (D1 ++ D2) (cs1 ++ cs2) res2.
Proof using ByteStream0.
  intros H1 H2 m out L Hs Hn. assert (Hp : cs2 ++ cs1 ++ out ≡ₚ (cs1 ++ cs2) ++ out) by solve_Permutation.
  destruct (H1 m out L Hs) as (m1 & R1 & L1 & S1).
  { rewrite <- Hp in Hn. by apply NoDup_app in Hn as (_ & _ & ?). }
  destruct (H2 m1 (cs1 ++ out) L1 S1) as (m2 & R2 & L2 & S2); [by rewrite Hp|].
  exists m2. rewrite Hp in L2. split; [|done]. by eapply reads_bind.
Qed.

Lemma restores_pure {R} (c : ds W → option R) D res :
  (∀ m, shape m = shape m0 → reads c m D m res) → restores c D [] res.
Proof. intros H m out L Hs _. exists m. by split; [apply H|]. Qed.

(** A step that takes no chunk, before or after others. *)
Lemma restores_head {R R'} (c : ds W → option R) (k : R → option R') D1 D2 cs res1 res2 :
  (∀ m, shape m = shape m0 → reads c m D1 m res1) → restores (λ s, k (res1 s)) D2 cs res2 →
  restores (λ s, c s ≫= k) (D1 ++ D2) cs res2.
Proof using ByteStream0. intros H1 H2. apply (restores_bind c k D1 D2 [] cs res1 res2); [by apply restores_pure|done]. Qed.

Lemma restores_last {R R'} (c : ds W → option R) (k : R → option R') D cs res1 res2 :
  restores c D cs res1 → (∀ s, k (res1 s) = Some (res2 s)) → restores (λ s, c s ≫= k) D cs res2.
Proof using ByteStream0.
  intros H1 H2. rewrite <- (app_nil_r D), <- (app_nil_r cs). apply (restores_bind c k D [] cs [] res1 res2); [done|].
  apply restores_pure. intros m _ s B p Hs _ Hm. exists s. rewrite Z.add_0_r. done.
Qed.

Lemma restores_malloc {R} (k : bool * ds W → option R) D cs res :
  restores (λ s, k (true, s)) D cs res → restores (λ s, k (os_malloc alloc s)) D cs res.
Proof using Halloc.
  intros H m out L Hs Hn. destruct (H m out L Hs Hn) as (m' & R1 & L1 & S1). exists m'.
  split; [by apply reads_malloc|done].
Qed.

(** The devices of the storage, which only lost their free chunks. *)
Record devices_ok (m : mem) : Prop := {
  dv_known : ∀ q, q ∈ storage_rdevs st → ∃ r, m !! q = Some r ∧ uuid_ok (r_uuid r);
  dv_distinct : distinct_uuids m st
}.

Lemma devices_shape m m' : shape m' = shape m → devices_ok m → devices_ok m'.
Proof.
  intros Hs [Hk Hu]. split; [|eapply distinct_ids; [by apply shape_ids|done]]. intros q Hq. destruct (Hk q Hq) as (r & Hr & Hw).
  destruct (shape_lookup m m' q r) as (r' & Hr' & E); [done..|]. apply same_shape in E as [E _].
  exists r'. by rewrite E.
Qed.

Definition chunk_ok (c : chunk_t) : Prop :=
  c_rdev c ∈ storage_rdevs st ∧
  ∃ r idx, m0 !! c_rdev c = Some r ∧ 0 <= idx < total_chunks_count (chunks r) ∧ c_offset c = chunk_off r idx.

Context (Hst : storage_wf st) (Hdv : devices_ok m0).

Lemma chunk_off_fits r idx : rdev_ok r → 0 <= idx < total_chunks_count (chunks r) → fits 64 (chunk_off r idx).
Proof.
  intros [Hs Ht _ _ _] Hi. unfold fits, chunk_off, VRT_SB_AREA_SIZE in *.
  assert (0 <= idx * chunk_size (chunks r) <= (2 ^ 32 - 1) * (2 ^ 32 - 1)) by nia. lia.
Qed.

Lemma restores_chunk c :
  chunk_ok c → restores (chunk_deserialize stream st) (chunk_buf m0 c) [c] (λ s, (s, Ok c)).
Proof using Hst Hdv ByteStream0.
  intros (Hin & r0 & idx & Hr0 & Hi & Ho) m out L Hs [Hc _]%NoDup_cons.
  destruct (shape_lookup m0 m (c_rdev c) r0) as (r & Hr & E); [done..|].
  destruct (same_shape _ _ E) as (Eu & _ & Et & Eo). pose proof (lg_rdev _ _ L _ _ Hr) as Hok.
  destruct (devices_shape m0 m Hs Hdv) as [Hk Hu]. destruct (Hk _ Hin) as (r' & Hr' & Hw). simplify_eq.
  rewrite <- Et in Hi. rewrite <- Eo in Ho. pose proof (chunk_off_fits r idx Hok Hi) as Hf.
  assert (has (free_chunks (chunks r)) idx = true) as Hfree.
  { apply not_false_iff_true. rewrite <- (lg_out _ _ L _ r idx Hr Hi), <- Ho. destruct c. done. }
  exists (<[c_rdev c := take_chunk r idx]> m). split_and!.
  - unfold chunk_deserialize, chunk_header_read, chunk_buf. rewrite Hr0. cbn [from_option]. rewrite <- Eu.
    rewrite <- (app_nil_r (chunk_header_bytes _)).
    eapply reads_andthen; [eapply (reads_last _ _ _ _ m m); [apply reads_struct, len_chunk_header|apply reads_ret]|].
    rewrite chunk_header_roundtrip by (split; [done|simpl; by rewrite Ho]). cbn [ch_rdev_uuid ch_offset].
    intros s B p Hat Hh Hm. rewrite Hm, (storage_get_rdev_found m st (c_rdev c) r); try done; cycle 1.
    { intros q Hq. destruct (Hk q Hq) as (x & -> & _). done. }
    cbn [mbind option_bind]. rewrite Ho, (chunk_get_at_ok m (c_rdev c) r idx) by done. cbn [mbind option_bind].
    rewrite <- Ho. destruct c as [q o]. exact (reads_with_mem m _ (λ s, (s, Ok (mk_chunk q o))) s B p Hat Hh Hm).
  - destruct c as [p o]. simpl in *. subst o. by apply ledger_take.
  - rewrite <- Hs. by apply shape_insert.
Qed.

Lemma restores_chunks cs :
  Forall chunk_ok cs →
  restores (chunks_read_loop stream (length cs) st) (concat (map (chunk_buf m0) cs)) cs (λ s, (s, cs, Ok tt)).
Proof using Hst Hdv ByteStream0.
  induction 1 as [|c cs Hc _ IH]; cbn [length chunks_read_loop map concat].
  { apply restores_pure. intros m _. apply (reads_ret m (λ s, (s, [], Ok tt))). }
  apply (restores_bind _ _ _ _ [c] cs (λ s, (s, Ok c))); [by apply restores_chunk|].
  by eapply restores_last.
Qed.

Lemma restores_slot wd sl :
  slot_wf st wd sl → fits 32 wd → Forall chunk_ok (slot_chunks sl) →
  restores (slot_deserialize alloc stream st) (concat (slot_bufs m0 sl)) (slot_chunks sl) (λ s, (s, Ok sl)).
Proof using Hst Hdv Halloc ByteStream0.
  intros [Hc Hw Hl _] Hf Hok. unfold slot_deserialize, slot_bufs. cbn [concat].
  apply (restores_head _ _ _ _ _ (λ s, (s, Ok wd))).
  { intros m _. unfold slot_header_read. rewrite <- (app_nil_r (le_bytes 4 _)).
    eapply reads_andthen; [apply reads_struct, len_le_bytes|]. rewrite Hw, le4 by done.
    apply (reads_ret m (λ s, (s, Ok wd))). }
  apply (restores_malloc (λ '(ok0, s), if negb ok0 then _ else _)). cbn [negb].
  apply (restores_malloc (λ '(ok0, s), if negb ok0 then _ else _)). cbn [negb].
  assert (Hn : Z.to_nat wd = length (slot_chunks sl)).
  { rewrite <- Hl, Nat2Z.id, Hc at 1. apply length_fmap. }
  rewrite Hn. eapply restores_last; [by apply restores_chunks|]. intros s. cbn. rewrite <- Hc. by destruct sl; simplify_eq/=.
Qed.

Lemma restores_slots wd ss :
  Forall (slot_wf st wd) ss → fits 32 wd → Forall chunk_ok (concat (map slot_chunks ss)) →
  restores (slots_read_loop alloc stream (length ss) st) (concat (concat (map (slot_bufs m0) ss)))
    (concat (map slot_chunks ss)) (λ s, (s, ss, Ok tt)).
Proof using Hst Hdv Halloc ByteStream0.
  intros Hw Hf. induction Hw as [|sl ss Hsl _ IH]; cbn [length slots_read_loop map concat]; intros Hok.
  { apply restores_pure. intros m _. apply (reads_ret m (λ s, (s, [], Ok tt))). }
  apply Forall_app in Hok as [H1 H2]. rewrite concat_app.
  eapply restores_bind; [by eapply restores_slot|]. eapply restores_last; [by apply IH|]. done.
Qed.

Definition volume_ok (av : assembly_volume_t) : Prop := uuid_ok (av_uuid av) ∧ fits 64 (total_slots_count av).

Lemma restores_volume wd av :
  volume_wf st wd av → volume_ok av → fits 32 wd → Forall chunk_ok (volume_chunks av) →
  restores (assembly_volume_deserialize alloc stream st) (concat (volume_bufs m0 av)) (volume_chunks av)
    (λ s, (s, Ok av)).
Proof using Hst Hdv Halloc ByteStream0.
  intros [Ht Hs] [Hu Hf] Hwd Hok. unfold assembly_volume_deserialize, volume_bufs, andthen. cbn [concat].
  set (h := mk_av_header _ _ _ _).
  apply (restores_head _ _ _ _ _ (λ s, (s, Ok h))).
  { intros m _. unfold assembly_volume_header_read. rewrite <- (app_nil_r (av_header_bytes _)).
    eapply reads_andthen; [apply reads_struct, len_av_header|].
    rewrite av_header_roundtrip by done. apply (reads_ret m (λ s, (s, Ok h))). }
  cbn [avh_magic avh_reserved avh_uuid avh_total_slot_count h]. rewrite Z.eqb_refl. cbn [negb Z.eqb].
  apply (restores_malloc (λ '(ok0, s), match assembly_volume_alloc ok0 _ with Some _ => _ | None => _ end)).
  cbn [assembly_volume_alloc].
  apply (restores_malloc (λ '(ok0, s), if negb ok0 then _ else _)). cbn [negb].
  rewrite Ht, Nat2Z.id. eapply restores_last; [by apply (restores_slots wd)|]. intros s. cbn.
  rewrite <- Ht. by destruct av.
Qed.

Lemma restores_volumes wd avs ag :
  Forall (volume_wf st wd) avs → Forall volume_ok avs → fits 32 wd → Forall chunk_ok (concat (map volume_chunks avs)) →
  num_subspaces ag = Z.of_nat (length (subspaces ag)) → fits 32 (num_subspaces ag + Z.of_nat (length avs)) →
  restores (λ s, volumes_read_loop alloc stream (length avs) st s ag) (concat (concat (map (volume_bufs m0) avs)))
    (concat (map volume_chunks avs))
    (λ s, (s, mk_ag (initialized ag) (slot_size ag) (slot_width ag) (subspaces ag ++ avs)
                (num_subspaces ag + Z.of_nat (length avs)), Ok tt)).
Proof using Hst Hdv Halloc ByteStream0.
  intros Hw. revert ag. induction Hw as [|av avs Hav _ IH]; intros ag Hv Hf Hok Hn Hb.
  { cbn. rewrite app_nil_r, Z.add_0_r. apply restores_pure. intros m _.
    destruct ag. apply (reads_ret m (λ s, (s, _, Ok tt))). }
  cbn [length volumes_read_loop map concat] in *. apply Forall_app in Hok as [H1 H2]. apply Forall_cons in Hv as [Hv1 Hv2].
  rewrite concat_app. eapply restores_bind; [by eapply restores_volume|].
  assert (E : u32 (num_subspaces ag + 1) = num_subspaces ag + 1) by (apply u32_id; unfold fits in *; lia).
  specialize (IH (assembly_group_insert_volume ag av) Hv2 Hf H2). unfold assembly_group_insert_volume in *.
  cbn [initialized slot_size slot_width subspaces num_subspaces] in *. rewrite E in *.
  rewrite <- app_assoc in IH. replace (num_subspaces ag + Z.of_nat (S (length avs)))
    with (num_subspaces ag + 1 + Z.of_nat (length avs)) in * by lia.
  apply IH; [rewrite length_app; simpl; lia|done].
Qed.

(** What a group satisfies whose description is written whole. *)
Record group_saved (ag : assembly_group_t) : Prop := {
  gs_init : initialized ag = true;
  gs_wf : ag_wf st ag;
  gs_size : fits 32 (slot_size ag);
  gs_width : fits 32 (slot_width ag);
  gs_num : num_subspaces ag = Z.of_nat (length (subspaces ag));
  gs_fits : fits 32 (num_subspaces ag);
  gs_vols : Forall volume_ok (subspaces ag)
}.

Lemma restores_group ag :
  group_saved ag → Forall chunk_ok (ag_chunks ag) →
  restores (assembly_group_deserialize alloc stream st) (concat (ag_bufs m0 ag)) (ag_chunks ag) (λ s, (s, Ok ag)).
Proof using Hst Hdv Halloc ByteStream0.
  intros [Hi [_ Hw] Hs Hwd Hn Hf Hv] Hok. unfold assembly_group_deserialize, ag_bufs, andthen. cbn [concat].
  set (h := mk_ag_header _ _ _ _ _).
  apply (restores_head _ _ _ _ _ (λ s, (s, Ok h))).
  { intros m _. unfold assembly_group_header_read. rewrite <- (app_nil_r (ag_header_bytes _)).
    eapply reads_andthen; [apply reads_struct, len_ag_header|].
    rewrite ag_header_roundtrip by done. apply (reads_ret m (λ s, (s, Ok h))). }
  cbn [agh_magic agh_format agh_slot_size agh_slot_width agh_num_subspaces h]. rewrite !Z.eqb_refl. cbn [negb].
  rewrite Hn, Nat2Z.id. eapply restores_last.
  - eapply (restores_volumes (slot_width ag)); [done..|]. cbn. by rewrite <- Hn.
  - intros s. cbn. rewrite <- Hn, <- Hi. by destruct ag.
Qed.

(** *** The chunks of the devices are described again *)

(** A device of a storage that was not described yet. *)
Definition blank (r : vrt_realdev_t) : vrt_realdev_t := set_chunks r (mk_chunks 0 0 0 []).

Definition all_free (r : vrt_realdev_t) : vrt_realdev_t :=
  let n := total_chunks_count (chunks r) in with_free r n (if n =? 0 then [] else [mk_extent 0 (n - 1)]).

Definition sized (r : vrt_realdev_t) : Prop := chunk_size (chunks r) = KBYTES_2_SECTORS (s_chunk_size st).

Lemma reads_rdev m p r :
  p ∈ storage_rdevs st → m0 !! p = Some r → m !! p = Some (blank r) → r_uuid <$> m = r_uuid <$> m0 →
  rdev_ok r → sized r →
  reads (storage_rdev_deserialize stream st) m (rdev_buf m0 p) (<[p := all_free r]> m) (λ s, (s, Ok p)).
Proof using Hst Hdv ByteStream0.
  intros Hp Hr Hm Hid [_ Ht _ _ _] Hsz. destruct Hdv as [Hk Hu].
  assert (Hin : ∀ q, q ∈ storage_rdevs st → is_Some (m !! q)).
  { intros q Hq. destruct (Hk q Hq) as (x & Hx & _). apply (fmap_is_Some r_uuid). rewrite <- lookup_fmap, Hid, lookup_fmap, Hx.
    by eexists. }
  destruct (Hk p Hp) as (r' & Hr' & Hw). simplify_eq.
  unfold storage_rdev_deserialize, storage_rdev_header_read, rdev_buf. rewrite Hr. cbn [from_option].
  rewrite <- (app_nil_r (storage_rdev_header_bytes _)).
  eapply reads_andthen; [eapply (reads_last _ _ _ _ m m); [apply reads_struct, len_rdev_header|apply reads_ret]|].
  rewrite storage_rdev_header_roundtrip by (done || (simpl; unfold fits in *; lia)). cbn [srh_uuid srh_total_chunks_count].
  intros s B o Hat Hh Hs. change (r_uuid r) with (r_uuid (blank r)).
  rewrite Hs, (storage_get_rdev_found m st p (blank r)); [|done|done|by eapply distinct_ids|done|done].
  cbn [mbind option_bind]. unfold storage_initialize_rdev_chunks_info. rewrite Hm. cbn [mbind option_bind].
  cbn [blank set_chunks chunks free_chunks]. rewrite init_free_ok by (unfold fits in Ht; lia). cbn [mbind option_bind].
  rewrite <- Hsz, u32_id by done. exact (reads_with_mem m _ (λ s, (s, Ok p)) s B o Hat Hh Hs).
Qed.

Lemma reads_rdevs ps m :
  NoDup ps → (∀ p, p ∈ ps → p ∈ storage_rdevs st ∧ ∃ r, m0 !! p = Some r ∧ m !! p = Some (blank r) ∧ rdev_ok r ∧ sized r) →
  r_uuid <$> m = r_uuid <$> m0 →
  ∃ m', reads (storage_rdevs_read_loop stream (length ps) st) m (concat (map (rdev_buf m0) ps)) m' (λ s, (s, Ok tt)) ∧
    ∀ p, m' !! p = if bool_decide (p ∈ ps) then all_free <$> m0 !! p else m !! p.
Proof using Hst Hdv ByteStream0.
  intros Hn. revert m. induction Hn as [|p ps Hp Hn IH]; intros m Hps Hid; cbn [length storage_rdevs_read_loop map concat].
  { exists m. split; [apply (reads_ret m (λ s, (s, Ok tt)))|done]. }
  destruct (Hps p) as (Hin & r & Hr & Hm & Hok & Hsz); [by left|].
  destruct (IH (<[p := all_free r]> m)) as (m' & R' & Hm').
  { intros q Hq. destruct (Hps q) as (Hin' & r' & Hr' & Hm' & Hok' & Hsz'); [by right|]. split; [done|].
    exists r'. rewrite lookup_insert_ne by congruence. done. }
  { rewrite fmap_insert, insert_id; [done|]. rewrite lookup_fmap, Hm. done. }
  exists m'. split; [eapply reads_andthen; [by eapply reads_rdev|done]|].
  intros q. rewrite Hm'. destruct (decide (q = p)) as [->|Hne].
  - rewrite bool_decide_false, bool_decide_true by (done || by left). by rewrite lookup_insert_eq, Hr.
  - rewrite lookup_insert_ne by congruence.
    rewrite (bool_decide_ext (q ∈ p :: ps) (q ∈ ps)); [done|]. rewrite elem_of_cons. tauto.
Qed.

(** The storage before it is read, and its devices. *)
Definition unread : storage_t := mk_storage (spof_groups st) (num_spof_groups st) 0.

Definition fresh_devices (m : mem) : Prop :=
  ∀ p, m !! p = if bool_decide (p ∈ storage_rdevs st) then blank <$> m0 !! p else m0 !! p.

Definition revived (m : mem) : Prop :=
  ∀ p, m !! p = if bool_decide (p ∈ storage_rdevs st) then all_free <$> m0 !! p else m0 !! p.

Lemma fresh_ids m : fresh_devices m → r_uuid <$> m = r_uuid <$> m0.
Proof.
  intros H. apply map_eq. intros p. rewrite !lookup_fmap, H. case_bool_decide; [|done].
  by destruct (m0 !! p).
Qed.

Lemma num_realdevs_fits : fits 32 (storage_get_num_realdevs st).
Proof using Hst.
  rewrite num_realdevs_ok by done. destruct Hst as [Hn Hmax Hg _ _]. rewrite Hn in Hmax. unfold fits.
  assert (Z.of_nat (length (storage_rdevs st)) <= 64 * Z.of_nat (length (spof_groups st))); [|unfold EXA_MAX_NODES_NUMBER in *; lia].
  unfold storage_rdevs. clear -Hg. induction Hg as [|sg l Hsg _ IH]; [done|]. cbn [map concat length].
  rewrite length_app. assert (Z.of_nat (length (sg_rdevs sg)) <= 64); [|lia].
  unfold sg_rdevs. assert (Ho : ∀ l : list (option Z), (length (omap id l) <= length l)%nat).
  { clear. intros l. induction l as [|[x|] l IHl]; [done|..]; cbn in *; lia. }
  specialize (Ho (take (Z.to_nat (nb_realdevs sg)) (realdevs sg))). rewrite length_take in Ho. pose proof (gw_nb sg Hsg). unfold NBMAX_DISKS_PER_SPOF_GROUP in *. lia.
Qed.

Lemma reads_storage m :
  fresh_devices m → NoDup (storage_rdevs st) → fits 32 (s_chunk_size st) → s_chunk_size st ≠ 0 →
  (∀ p r, p ∈ storage_rdevs st → m0 !! p = Some r → rdev_ok r ∧ sized r) →
  ∃ m', reads (storage_deserialize stream unread) m (concat (storage_bufs m0 st)) m' (λ s, (s, st, Ok tt)) ∧ revived m'.
Proof using Hst Hdv ByteStream0.
  intros Hm Hn Hc Hc0 Hok. unfold storage_deserialize, storage_bufs. cbn [concat].
  destruct (reads_rdevs (storage_rdevs st) m) as (m' & R' & Hm'); [done| |by apply fresh_ids|].
  { intros p Hp. split; [done|]. destruct (dv_known _ Hdv p Hp) as (r & Hr & _). exists r.
    rewrite Hm, bool_decide_true, Hr by done. split; [done|]. split; [done|]. by eapply Hok. }
  exists m'. split.
  2:{ intros p. rewrite Hm'. case_bool_decide; [done|]. rewrite Hm. by rewrite bool_decide_false. }
  set (h := mk_storage_header _ _ _ _). pose proof num_realdevs_fits as Hf.
  apply (reads_bind _ _ m _ m _ m' (λ s, (s, Ok h))).
  { unfold storage_header_read. rewrite <- (app_nil_r (storage_header_bytes _)).
    eapply reads_andthen; [apply reads_struct, len_storage_header|].
    rewrite storage_header_roundtrip by done. apply (reads_ret m (λ s, (s, Ok h))). }
  cbn [sh_magic sh_format sh_nb_rdevs sh_chunk_size h]. rewrite !Z.eqb_refl. cbn [negb].
  change (storage_get_num_realdevs unread) with (storage_get_num_realdevs st).
  rewrite u32_id, Z.eqb_refl by done. cbn [negb]. unfold storage_set_chunk_size. cbn [unread s_chunk_size Z.eqb orb exa_assert].
  rewrite (proj2 (Z.eqb_neq _ _) Hc0). cbn [mbind option_bind spof_groups num_spof_groups unread].
  rewrite num_realdevs_ok, Nat2Z.id by done.
  destruct st as [gs n cs]. cbn in *. eapply reads_last; [exact R'|]. apply (reads_ret m' (λ s, (s, _, Ok tt))).
Qed.

Lemma all_free_ok r :
  rdev_ok r → rdev_ok (all_free r) ∧ ∀ v, has (free_chunks (chunks (all_free r))) v = true ↔ 0 <= v < total_chunks_count (chunks r).
Proof.
  intros [Hs Ht _ _ _]. unfold fits in Ht. unfold all_free. set (n := total_chunks_count (chunks r)) in *.
  assert (Hv : ∀ v, has (if n =? 0 then [] else [mk_extent 0 (n - 1)]) v = true ↔ 0 <= v < n).
  { intros v. destruct (Z.eqb_spec n 0) as [->|]; [split; [done|lia]|]. rewrite has_cons. simpl. lia. }
  split; [|exact Hv]. split; simpl.
  - done.
  - unfold fits. lia.
  - destruct (Z.eqb_spec n 0); [done|]. unfold extents_wf, extents_from, MAX_VALUE. simpl. lia.
  - intros v. apply Hv.
  - destruct (Z.eqb_spec n 0); unfold num_values; simpl; lia.
Qed.

Lemma revived_ok m out :
  revived m → ledger m0 out → Forall (λ c, c_rdev c ∈ storage_rdevs st) out → ledger m [] ∧ shape m = shape m0.
Proof.
  intros Hm L Hout. rewrite Forall_forall in Hout. split.
  2:{ apply map_eq. intros p. unfold shape. rewrite !lookup_fmap, Hm. case_bool_decide; [|done]. by destruct (m0 !! p). }
  assert (Hno : ∀ p r, p ∉ storage_rdevs st → m0 !! p = Some r →
    (∀ idx, 0 <= idx < total_chunks_count (chunks r) → has (free_chunks (chunks r)) idx = true) ∧
    free_chunks_count (chunks r) = total_chunks_count (chunks r)).
  { intros p r Hp Hr. split.
    - intros idx Hi. apply not_false_iff_true. rewrite <- (lg_out _ _ L p r idx Hr Hi). intros Hc.
      apply Hp. apply (Hout _ Hc).
    - rewrite <- (lg_count _ _ L p r Hr). destruct (filter _ out) as [|c l] eqn:E; [simpl; lia|].
      assert (Hc : c ∈ filter (λ c, c_rdev c = p) out) by (rewrite E; by left).
      apply list_elem_of_filter in Hc as [<- Hc]. by apply Hout in Hc. }
  assert (H : ∀ p r, m !! p = Some r → rdev_ok r ∧
    (∀ idx, 0 <= idx < total_chunks_count (chunks r) → has (free_chunks (chunks r)) idx = true) ∧
    free_chunks_count (chunks r) = total_chunks_count (chunks r)).
  { intros p r. rewrite Hm. case_bool_decide as Hp; [|intros Hr; split; [by apply L in Hr|by eapply Hno]].
    destruct (m0 !! p) as [r0|] eqn:Hr0; [|done]. intros [= <-].
    destruct (all_free_ok r0 (lg_rdev _ _ L p r0 Hr0)) as [H1 H2]. split; [done|]. split; [|done]. intros idx Hi. by apply H2. }
  split.
  - intros p r Hr. by apply (H p r).
  - constructor.
  - intros p r idx Hr Hi. rewrite (proj1 (proj2 (H p r Hr)) idx Hi). split; [by intros ?%elem_of_nil|done].
  - by intros c ?%elem_of_nil.
  - intros p r Hr. rewrite (proj2 (proj2 (H p r Hr))). simpl. lia.
Qed.

(** Reading a storage then its group on fresh devices gives them back, and the
    devices as they were. *)
Lemma reads_storage_group m ag :
  fresh_devices m → pool m0 st (ag_chunks ag) → group_saved ag → fits 32 (s_chunk_size st) → s_chunk_size st ≠ 0 →
  (∀ p r, p ∈ storage_rdevs st → m0 !! p = Some r → sized r) →
  ∃ m1, reads (storage_deserialize stream unread) m (concat (storage_bufs m0 st)) m1 (λ s, (s, st, Ok tt)) ∧
    reads (assembly_group_deserialize alloc stream st) m1 (concat (ag_bufs m0 ag)) m0 (λ s, (s, Ok ag)).
Proof using Hst Hdv Halloc ByteStream0.
  intros Hm P Hag Hc Hc0 Hsz. pose proof (po_lg _ _ _ P) as L.
  destruct (ag_chunks_in st ag (gs_wf _ Hag)) as [Hin _].
  destruct (reads_storage m) as (m1 & R1 & Hm1); [done|apply P|done|done| |].
  { intros p r Hp Hr. split; [by apply L in Hr|by eapply Hsz]. }
  destruct (revived_ok m1 (ag_chunks ag) Hm1 L Hin) as [L1 S1].
  destruct (restores_group ag Hag) with (m := m1) (out := @nil chunk_t) as (m2 & R2 & L2 & S2).
  { apply Forall_forall. intros c Hc'. split; [by eapply Forall_forall in Hin|]. apply (lg_valid _ _ L c Hc'). }
  { done. } { done. } { rewrite app_nil_r. apply L. }
  rewrite app_nil_r in L2. rewrite (ledger_unique m2 m0 _ L2 L S2) in R2. by exists m1.
Qed.
End reading.

(** ** Sizes are those of what is written *)

Lemma len_concat_map {A} (f : A → list Z) n l : (∀ a, len (f a) = n) → len (concat (map f l)) = n * Z.of_nat (length l).
Proof. intros H. induction l as [|a l IH]; [simpl; unfold len; simpl; lia|]. cbn [map concat length]. rewrite len_app, H, IH. lia. Qed.

Lemma len_chunk_buf m c : len (chunk_buf m c) = 24.
Proof. apply len_chunk_header. Qed.

Lemma len_slot m st wd s : slot_wf st wd s → len (concat (slot_bufs m s)) = 4 + wd * 24.
Proof.
  intros Hs. destruct (slot_chunks_in _ _ _ Hs) as [_ Hl]. unfold slot_bufs. cbn [concat].
  rewrite len_app, len_le_bytes, (len_concat_map _ 24) by apply len_chunk_buf. lia.
Qed.

Lemma len_volume m st wd av :
  volume_wf st wd av → len (concat (volume_bufs m av)) = 32 + total_slots_count av * (4 + wd * 24).
Proof.
  intros [Ht Hs]. unfold volume_bufs. cbn [concat]. rewrite len_app.
  rewrite len_av_header, Ht. f_equal. clear Ht. induction Hs as [|s l Hs _ IH]; [done|]. cbn [map concat length].
  rewrite concat_app, len_app, IH, (len_slot m st wd) by done. lia.
Qed.

Lemma volume_size m st wd av :
  volume_wf st wd av → slots av ≠ [] → 0 <= wd → total_slots_count av * wd < 2 ^ 31 → total_slots_count av < 2 ^ 31 →
  assembly_volume_serialized_size av = Some (len (concat (volume_bufs m av))) ∧
  len (concat (volume_bufs m av)) < 2 ^ 40.
Proof.
  intros Hav Hne Hw Hb Ht. rewrite (len_volume m st wd av Hav). destruct Hav as [Hn Hs].
  unfold assembly_volume_serialized_size. destruct (slots av) as [|s l]; [done|]. simpl in Hn.
  apply Forall_cons in Hs as [[_ Hwd _ _] _].
  cbn [mbind option_bind lookup list_lookup]. unfold slot_serialized_size. rewrite Hwd.
  assert (wd < 2 ^ 31) by nia. assert (0 <= total_slots_count av * wd) by nia.
  assert (Ed : total_slots_count av * (4 + wd * 24) = 4 * total_slots_count av + 24 * (total_slots_count av * wd)) by ring.
  rewrite (u64_id (4 + wd * 24)) by (unfold fits; lia). rewrite (u64_id (_ * _)) by (unfold fits; lia).
  rewrite u64_id by (unfold fits; lia). split; [done|lia].
Qed.

Lemma volumes_size_ok m st wd avs n :
  Forall (volume_wf st wd) avs → Forall (λ av, slots av ≠ []) avs → 0 < wd →
  zsum (map total_slots_count avs) * wd < 2 ^ 31 → 0 <= n → n + Z.of_nat (length avs) * 2 ^ 40 < 2 ^ 63 →
  volumes_size avs n = Some (n + len (concat (concat (map (volume_bufs m) avs)))) ∧
  len (concat (concat (map (volume_bufs m) avs))) <= Z.of_nat (length avs) * 2 ^ 40.
Proof.
  intros Hv. revert n. induction Hv as [|av avs Hav Hv IH]; intros n Hne Hw Hb Hn Hmax.
  { cbn. rewrite Z.add_0_r. done. }
  apply Forall_cons in Hne as [Hne Hnes]. cbn [map zsum foldr] in Hb. fold (zsum (map total_slots_count avs)) in Hb.
  assert (0 <= zsum (map total_slots_count avs)).
  { apply zsum_nonneg, Forall_forall. intros x (a & -> & Ha)%list_elem_of_fmap.
    rewrite (vw_total _ _ _ (proj1 (Forall_forall _ _) Hv a Ha)). lia. }
  pose proof (vw_total _ _ _ Hav) as Ht. rewrite Z.mul_add_distr_r in Hb.
  assert (0 <= total_slots_count av * wd) by nia. assert (0 <= zsum (map total_slots_count avs) * wd) by nia.
  destruct (volume_size m st wd av Hav Hne) as [E Hl]; [lia|lia|nia|].
  cbn [volumes_size map concat length]. rewrite E.
  pose proof (len_nonneg (concat (volume_bufs m av))).
  rewrite concat_app, len_app. cbn [mbind option_bind]. cbn [length] in Hmax.
  rewrite u64_id by (unfold fits; lia).
  destruct (IH (n + len (concat (volume_bufs m av)))) as [-> Hl']; [done|done|lia|lia|lia|]. split; [f_equal; lia|lia].
Qed.

Lemma group_size m st ag :
  pool m st (ag_chunks ag) → ag_wf st ag → Forall (λ av, slots av ≠ []) (subspaces ag) →
  Z.of_nat (length (subspaces ag)) < 2 ^ 16 →
  assembly_group_serialized_size ag = Some (len (concat (ag_bufs m ag))) ∧ len (concat (ag_bufs m ag)) < 2 ^ 57.
Proof.
  intros P Hag Hne Hn. destruct (ag_chunks_in st ag Hag) as [Hin Hlen]. pose proof (out_bound _ _ _ P Hin) as Hb.
  rewrite Hlen in Hb. unfold used_slots in Hb. destruct Hag as [Hw Hv].
  destruct (volumes_size_ok m st (slot_width ag) (subspaces ag) 0) as [E Hl]; [done..|lia|lia|].
  unfold assembly_group_serialized_size. rewrite E. cbn [mbind option_bind]. unfold ag_bufs. cbn [concat]. rewrite len_app.
  rewrite len_ag_header, u64_id; [split; [done|lia]|]. pose proof (len_nonneg (concat (concat (map (volume_bufs m) (subspaces ag))))).
  unfold fits. lia.
Qed.

Lemma storage_size_loop_ok fuel st it n :
  storage_wf st → 0 <= spof_group_index it → 0 <= realdev_index it → (length (iter_rest st it) < fuel)%nat →
  0 <= n → n + 24 * Z.of_nat (length (iter_rest st it)) < 2 ^ 64 →
  storage_size_loop fuel st it n = Some (n + 24 * Z.of_nat (length (iter_rest st it))).
Proof.
  intros Hs. revert it n. induction fuel as [|fuel IH]; intros it n Hi Hj Hf Hn Hb; [lia|].
  cbn [storage_size_loop]. destruct (iterator_next st it Hs Hi Hj) as (it' & -> & Hr & Hi' & Hj'). returned.
  destruct (iter_rest st it) as [|p l] eqn:El; cbn [head]; [simpl; f_equal; lia|]. simpl in Hr.
  unfold storage_rdev_serialized_size. cbn [length] in *. rewrite u64_id by (unfold fits; lia).
  rewrite IH; rewrite ?Hr; try done; try lia. f_equal. lia.
Qed.

Lemma storage_size m st :
  storage_wf st → (∀ p, p ∈ storage_rdevs st → is_Some (m !! p)) →
  storage_serialized_size st = Some (len (concat (storage_bufs m st))) ∧ len (concat (storage_bufs m st)) < 2 ^ 40.
Proof.
  intros Hs Hm. pose proof (num_realdevs_fits st Hs) as Hf. rewrite num_realdevs_ok in Hf by done.
  assert (E : len (concat (storage_bufs m st)) = 16 + 24 * Z.of_nat (length (storage_rdevs st))).
  { unfold storage_bufs. cbn [concat]. rewrite len_app, len_storage_header. f_equal. clear Hs Hf.
    induction (storage_rdevs st) as [|p l IH]; [done|]. cbn [map concat length].
    rewrite len_app, IH by (intros; apply Hm; by right). destruct (Hm p) as [r Hr]; [by left|].
    unfold rdev_buf. rewrite Hr. cbn [from_option]. rewrite len_rdev_header. lia. }
  rewrite E. unfold fits in Hf. split; [|lia]. unfold storage_serialized_size.
  rewrite storage_size_loop_ok; rewrite ?iter_begin_rest; try done; rewrite ?num_realdevs_ok by done; lia.
Qed.

(** ** Bytes of the buffers *)

Create HintDb bytes_db.
#[export] Hint Resolve bytes_ok_app le_bytes_ok uuid_bytes_ok : bytes_db.

Lemma storage_bufs_ok m st : Forall bytes_ok (storage_bufs m st).
Proof.
  constructor; [unfold storage_header_bytes; auto with bytes_db|]. apply Forall_map, Forall_forall. intros p _.
  unfold rdev_buf. destruct (m !! p); simpl; [unfold storage_rdev_header_bytes; auto with bytes_db|constructor].
Qed.

Lemma ag_bufs_ok m ag : Forall bytes_ok (ag_bufs m ag).
Proof.
  constructor; [unfold ag_header_bytes; auto 8 with bytes_db|].
  apply Forall_concat, Forall_map, Forall_forall. intros av _.
  constructor; [unfold av_header_bytes; auto 8 with bytes_db|].
  apply Forall_concat, Forall_map, Forall_forall. intros s _.
  constructor; [auto with bytes_db|]. apply Forall_map, Forall_forall. intros c _.
  unfold chunk_buf, chunk_header_bytes. auto with bytes_db.
Qed.

Lemma bytes_ok_concat l : Forall bytes_ok l → bytes_ok (concat l).
Proof. apply Forall_concat. Qed.

(** A stream that does not fail takes the buffers one after the other. *)
Lemma write_all_stream {W} (stream : option (stream_t W)) inv bytes pos ok dom
    `{!ByteStream stream inv bytes pos ok, !WritableStream stream inv bytes pos ok dom} bufs w :
  inv w → ok w → Forall bytes_ok bufs → pos w + len (concat bufs) <= len (bytes w) →
  (∀ i, pos w <= i < pos w + len (concat bufs) → dom i) →
  ∃ w', write_all stream w bufs = Some (w', Ok tt) ∧ inv w' ∧ ok w' ∧
    bytes w' = splice (pos w) (concat bufs) (bytes w) ∧ pos w' = pos w + len (concat bufs).
Proof.
  intros Hi Hk Hb. revert w Hi Hk. induction Hb as [|b bufs Hb Hbs IH]; intros w Hi Hk Hl Hd.
  { exists w. cbn. rewrite splice_nil, Z.add_0_r by (by apply bs_pos). done. }
  cbn [concat] in *. rewrite len_app in *. pose proof (len_nonneg (concat bufs)). pose proof (len_nonneg b).
  pose proof (bs_pos w Hi) as Hp.
  destruct (ws_write w b) as (w1 & r & E & Hi1 & Hk1 & Hr); [done|done|lia|intros; apply Hd; lia|].
  destruct r as [n|e]; [|by destruct Hr]. destruct Hr as (-> & Hb1 & Hp1).
  assert (len (bytes w1) = len (bytes w)) by (rewrite Hb1; apply len_splice; lia).
  destruct (IH w1) as (w2 & E2 & Hi2 & Hk2 & Hb2 & Hp2); [done|auto|lia|intros; apply Hd; lia|].
  exists w2. cbn [write_all]. rewrite E. cbn [mbind option_bind]. rewrite Z.eqb_refl. cbn [negb]. rewrite E2.
  split_and!; try done; [|lia]. rewrite Hb2, Hb1, Hp1. apply splice_app; lia.
Qed.

(** ** The round trip *)

(** A storage and its group, as they stand when their description is saved. *)
Record described (m : mem) (st : storage_t) (ag : assembly_group_t) : Prop := {
  sv_pool : pool m st (ag_chunks ag);
  sv_group : group_saved st ag;
  sv_devices : devices_ok st m;
  sv_size : fits 32 (s_chunk_size st) ∧ s_chunk_size st ≠ 0;
  sv_sized : ∀ p r, p ∈ storage_rdevs st → m !! p = Some r → sized st r
}.

Lemma described_known m st ag : described m st ag → ∀ p, p ∈ storage_rdevs st → is_Some (m !! p).
Proof. intros [_ _ [Hk _] _ _] p Hp. destruct (Hk p Hp) as (r & -> & _). done. Qed.

Lemma described_chunks m st ag : described m st ag → known m (ag_chunks ag).
Proof.
  intros H c Hc. destruct (lg_valid _ _ (po_lg _ _ _ (sv_pool _ _ _ H)) c Hc) as (r & _ & -> & _). done.
Qed.

(** C25: a storage and the group of volumes on it, written one after the other
    on any stream with the room that the size functions announce, use exactly
    that room.  Read back from there after a restart, when the devices know
    nothing of their chunks, they are returned as they were: same volumes, same
    slots, same chunks, and on every device the same free chunks. *)
Theorem storage_group_roundtrip {W} (alloc : nat → bool) (stream : option (stream_t W)) inv bytes pos ok dom
    (BS : ByteStream stream inv bytes pos ok) (WS : WritableStream stream inv bytes pos ok dom) m st ag w n1 n2 :
  (∀ n, alloc n = true) → described m st ag → inv w → ok w →
  Forall (λ av, slots av ≠ []) (subspaces ag) → Z.of_nat (length (subspaces ag)) < 2 ^ 16 →
  storage_serialized_size st = Some n1 → assembly_group_serialized_size ag = Some n2 →
  pos w + n1 + n2 <= len (bytes w) → (∀ i, pos w <= i < pos w + n1 + n2 → dom i) →
  ∃ w1 w2, storage_serialize stream m w st = Some (w1, Ok tt) ∧
    assembly_group_serialize stream m w1 ag = Some (w2, Ok tt) ∧ inv w2 ∧ pos w2 = pos w + n1 + n2 ∧
    ∀ w3 m3 k, inv w3 → ok w3 → bytes w3 = bytes w2 → pos w3 = pos w → fresh_devices m st m3 →
    ∃ s1 s2, storage_deserialize stream (unread st) (mk_ds w3 m3 k) = Some (s1, st, Ok tt) ∧
      assembly_group_deserialize alloc stream st s1 = Some (s2, Ok ag) ∧ ds_mem s2 = m.
Proof.
  intros Ha Hsv Hi Hk Hne Hnum E1 E2 Hl Hd. pose proof (po_st _ _ _ (sv_pool _ _ _ Hsv)) as Hst.
  pose proof (gs_wf _ _ (sv_group _ _ _ Hsv)) as Hag.
  destruct (storage_size m st Hst (described_known _ _ _ Hsv)) as [E1' _].
  destruct (group_size m st ag (sv_pool _ _ _ Hsv) Hag Hne Hnum) as [E2' _]. 
  rewrite E1 in E1'. rewrite E2 in E2'. apply (inj Some) in E1' as ->. apply (inj Some) in E2' as ->.
  set (D1 := concat (storage_bufs m st)) in *. set (D2 := concat (ag_bufs m ag)) in *.
  pose proof (len_nonneg D1). pose proof (len_nonneg D2). pose proof (bs_pos w Hi) as Hp.
  destruct (write_all_stream stream inv bytes pos ok dom (storage_bufs m st) w) as (w1 & W1 & Hi1 & Hk1 & Hb1 & Hp1);
    [done|done|apply storage_bufs_ok|unfold D1 in *; lia|intros; apply Hd; unfold D1 in *; lia|].
  change (concat (storage_bufs m st)) with D1 in Hb1, Hp1. assert (len (bytes w1) = len (bytes w)) as Hl1 by (rewrite Hb1; apply len_splice; lia).
  destruct (write_all_stream stream inv bytes pos ok dom (ag_bufs m ag) w1) as (w2 & W2 & Hi2 & Hk2 & Hb2 & Hp2);
    [done|done|apply ag_bufs_ok|unfold D2 in *; lia|intros; apply Hd; unfold D2 in *; lia|].
  change (concat (ag_bufs m ag)) with D2 in Hb2, Hp2.
  exists w1, w2. rewrite (storage_writes stream m st w Hst (described_known _ _ _ Hsv)).
  rewrite (ag_writes stream m st w1 ag Hag (described_chunks _ _ _ Hsv)). split_and!; [done|done|done|lia|].
  intros w3 m3 k Hi3 Hk3 Hb3 Hp3 Hfresh.
  destruct (reads_storage_group alloc stream inv bytes pos ok Ha m st Hst (sv_devices _ _ _ Hsv) m3 ag)
    as (m1 & R1 & R2); [done|apply Hsv..|].
  assert (HB : bytes_at (bytes w2) (pos w) (D1 ++ D2)).
  { rewrite Hp1 in Hb2. rewrite Hb1, splice_app in Hb2 by lia. rewrite Hb2. unfold bytes_at. rewrite len_splice, len_app by (rewrite ?len_app; lia).
    split; [lia|]. rewrite <- len_app. apply slice_splice_same; rewrite ?len_app; lia. }
  apply bytes_at_app in HB as [HB1 HB2]; [|lia].
  destruct (R1 (mk_ds w3 m3 k) (bytes w2) (pos w)) as (s1 & -> & At1 & M1); [by split|done|done|].
  destruct (R2 s1 (bytes w2) (pos w + len D1)) as (s2 & F2 & _ & M2); [done|done|done|]. by exists s1, s2.
Qed.

(** *** A group of one volume, on a memory stream *)

Definition whole : lens memory_stream_context_t memory_stream_context_t := mk_lens (λ w, w) (λ c _, c).

#[export] Instance whole_lens : Lens whole.
Proof. by split. Qed.

Definition scratch : option (stream_t memory_stream_context_t) := Some (mk_stream (memory_stream_ops whole) STREAM_ACCESS_RW).

Lemma one_volume_devices p : p ∈ storage_rdevs slot_storage → p = 1 ∨ p = 2 ∨ p = 3.
Proof. change (storage_rdevs slot_storage) with [1; 2; 3]. rewrite !elem_of_cons, elem_of_nil. tauto. Qed.

Lemma uuid_example x : fits 32 x → uuid_ok [x; 0; 0; 0].
Proof. intros. split; [done|]. apply Forall_cons. split; [done|]. by repeat constructor. Qed.

Lemma one_volume_rdev p :
  p ∈ storage_rdevs slot_storage →
  ∃ r, one_volume.1 !! p = Some r ∧ r_uuid r = [11 * p; 0; 0; 0] ∧ chunk_size (chunks r) = 8.
Proof.
  intros [->|[->| ->]]%one_volume_devices;
    [destruct (one_volume.1 !! 1) as [r|] eqn:E|destruct (one_volume.1 !! 2) as [r|] eqn:E
    |destruct (one_volume.1 !! 3) as [r|] eqn:E]; vm_compute in E; try discriminate E;
    apply (inj Some) in E; subst r; by eexists.
Qed.

Lemma one_volume_described : described one_volume.1 slot_storage one_volume.2.
Proof.
  destruct one_volume_ok as [P Hag]. split; [done| | | |].
  - split; [by vm_compute|done|by vm_compute|by vm_compute|by vm_compute|by vm_compute|].
    apply Forall_forall. intros av Hav. apply list_elem_of_lookup in Hav as [[|i] Hi]; vm_compute in Hi;
      [|discriminate Hi]. apply (inj Some) in Hi. subst av.
    split; [by apply uuid_example|by vm_compute].
  - split.
    + intros q Hq. destruct (one_volume_rdev q Hq) as (r & Hr & Hu & _). exists r. rewrite Hu. split; [done|].
      apply uuid_example. apply one_volume_devices in Hq. unfold fits. lia.
    + intros p q r r' Hp Hq Hr Hr' E. destruct (one_volume_rdev p Hp) as (x & Hx & Hu & _).
      destruct (one_volume_rdev q Hq) as (y & Hy & Hu' & _). rewrite Hr in Hx. rewrite Hr' in Hy. injection Hx as <-. injection Hy as <-.
      rewrite Hu, Hu' in E. cbn in E. rewrite !andb_true_r, Z.eqb_eq in E. lia.
  - by split.
  - intros p r Hp Hr. destruct (one_volume_rdev p Hp) as (x & Hx & _ & Hs). rewrite Hr in Hx. injection Hx as <-. exact Hs.
Qed.

Lemma one_volume_fresh : fresh_devices one_volume.1 slot_storage (blank <$> slot_mem).
Proof.
  intros p. case_bool_decide as Hp.
  { apply one_volume_devices in Hp as [->|[->| ->]]; by vm_compute. }
  assert (Hd : p ∉ (dom slot_mem : gset Z) ∧ p ∉ (dom one_volume.1 : gset Z)).
  { assert (dom one_volume.1 = (dom slot_mem : gset Z)) as -> by (by vm_compute).
    assert (p ∉ (dom slot_mem : gset Z)); [|done]. unfold slot_mem. rewrite !dom_insert_L, dom_empty_L.
    change (storage_rdevs slot_storage) with [1; 2; 3] in Hp. set_solver. }
  destruct Hd as [H1%not_elem_of_dom H2%not_elem_of_dom]. by rewrite lookup_fmap, H1, H2.
Qed.

Lemma storage_group_roundtrip_witness :
  ∃ w1 w2 s1 s2,
    storage_serialize scratch one_volume.1 (mk_msc (replicate 300 0) 300 10) slot_storage = Some (w1, Ok tt) ∧
    assembly_group_serialize scratch one_volume.1 w1 one_volume.2 = Some (w2, Ok tt) ∧ ms_ofs w2 = 254 ∧
    storage_deserialize scratch (unread slot_storage) (mk_ds (mk_msc (ms_bytes w2) (ms_size w2) 10) (blank <$> slot_mem) 0)
      = Some (s1, slot_storage, Ok tt) ∧
    assembly_group_deserialize (λ _, true) scratch slot_storage s1 = Some (s2, Ok one_volume.2) ∧
    ds_mem s2 = one_volume.1.
Proof.
  destruct (storage_group_roundtrip (λ _, true) scratch (memory_ok whole) (memory_bytes whole) (memory_pos whole)
    (λ _, True) (λ _, True) (memory_stream_byte whole STREAM_ACCESS_RW eq_refl)
    (memory_stream_writable whole STREAM_ACCESS_RW eq_refl) one_volume.1 slot_storage one_volume.2 (mk_msc (replicate 300 0) 300 10) 88 156)
    as (w1 & w2 & E1 & E2 & Hi & Hp & H).
  - done.
  - exact one_volume_described.
  - split; [apply Forall_replicate; by vm_compute|by vm_compute].
  - done.
  - apply Forall_forall. intros av Hav. apply list_elem_of_lookup in Hav as [[|i] Hv]; vm_compute in Hv;
      [|discriminate Hv]. apply (inj Some) in Hv. by subst av.
  - by vm_compute.
  - by vm_compute.
  - by vm_compute.
  - by vm_compute.
  - done.
  - destruct (H (mk_msc (ms_bytes w2) (ms_size w2) 10) (blank <$> slot_mem) O) as (s1 & s2 & F1 & F2 & Hm).
    + destruct Hi as (Hb & Hs & Ho & Hm). unfold memory_pos in Hp. clear -Hp Hb Hs Ho Hm.
      refine (conj Hb (conj Hs (conj _ Hm))). cbn in *. lia.
    + done.
    + done.
    + done.
    + exact one_volume_fresh.
    + exact (ex_intro _ w1 (ex_intro _ w2 (ex_intro _ s1 (ex_intro _ s2
        (conj E1 (conj E2 (conj Hp (conj F1 (conj F2 Hm))))))))).
Defined.
