(* ===== verification/GroupSb.v ===== *)
(** * The description of a group in its superblocks

    Model of the functions that write a disk group to a stream and read it
    back: [vrt/virtualiseur/src/vrt_group.c] and [vrt_volume.c], and the data of
    the layouts in [vrt/layout/rain1/src/lay_rain1_superblock.c] and
    [vrt/layout/sstriping/src/lay_sstriping_superblock.c].  The headers are
    local variables that the code does not clear: their padding, and what
    follows the end of a name, hold arbitrary bytes. *)

From S2P Require Import Prelude Nodeset Extent Prediction Storage Assembly SyncTag Rain1 Bytes Stream Serial.
From stdpp Require Import options.

(** ** Names

    The characters of a string of C, without the final zero. *)

Abbreviation name_t := (list Z) (only parsing).

(** [os_strlcpy (dst, src, sizeof (dst))]: the array afterwards. *)
Definition os_strlcpy (dst : list Z) (src : name_t) : list Z :=
  let s := take (length dst - 1) src in s ++ [0] ++ drop (length s + 1) dst.

(** The string in an array; [None] when it is not terminated. *)
Fixpoint cstring (a : list Z) : option name_t :=
  match a with
  | [] => None
  | c :: a' => if c =? 0 then Some [] else s ← cstring a'; Some (c :: s)
  end.

Definition tolower (c : Z) : Z := if (65 <=? c) && (c <=? 90) then c + 32 else c.

(** [os_strcasecmp (a, b) == 0] *)
Definition os_strcaseeq (a b : name_t) : bool := bool_decide (map tolower a = map tolower b).

Definition EXA_MAXSIZE_GROUPNAME : Z := 15.
Definition EXA_MAXSIZE_VOLUMENAME : Z := 15.
Definition EXA_MAXSIZE_LAYOUTNAME : Z := 15.
Definition NBMAX_VOLUMES_PER_GROUP : Z := 256.

(** ["rain1"] and ["sstriping"] *)
Definition RAIN1_NAME : name_t := [114; 97; 105; 110; 49].
Definition SSTRIPING_NAME : name_t := [115; 115; 116; 114; 105; 112; 105; 110; 103].

(** ** Layouts *)

Record sstriping_group_t := mk_ssg {
  ss_assembly_group : assembly_group_t;
  ss_su_size : Z;
  ss_logical_slot_size : Z
}.

Inductive vrt_layout := RAIN1 | SSTRIPING.

#[export] Instance vrt_layout_eq_dec : EqDecision vrt_layout.
Proof. solve_decision. Defined.

Inductive layout_data_t := RAIN1_DATA (rxg : rain1_group_t) | SSTRIPING_DATA (ssg : sstriping_group_t).

Definition layout_name (l : vrt_layout) : name_t :=
  match l with RAIN1 => RAIN1_NAME | SSTRIPING => SSTRIPING_NAME end.

(** Both layouts are registered when the module starts. *)
Definition vrt_get_layout (name : name_t) : option vrt_layout :=
  head (filter (λ l, os_strcaseeq name (layout_name l) = true) [SSTRIPING; RAIN1]).

Definition get_assembly_group (d : layout_data_t) : assembly_group_t :=
  match d with RAIN1_DATA rxg => assembly_group rxg | SSTRIPING_DATA ssg => ss_assembly_group ssg end.

(** ** Volumes and groups *)

Inductive exa_volume_status_t := EXA_VOLUME_STARTED | EXA_VOLUME_STOPPED.

(** [v_av] is the rank of its assembly volume in the group of assemblies. *)
Record vrt_volume_t := mk_vol {
  v_uuid : exa_uuid_t;
  v_name : name_t;
  v_size : Z;
  v_status : exa_volume_status_t;
  v_av : option nat
}.

Record vrt_group_t := mk_group {
  g_uuid : exa_uuid_t;
  g_name : name_t;
  g_storage : option storage_t;
  nb_volumes : Z;
  g_volumes : list (option vrt_volume_t);
  g_layout : vrt_layout;
  g_layout_data : option layout_data_t;
  g_sb_version : Z
}.

Definition vrt_volume_alloc (alloc : bool) (uuid : exa_uuid_t) (name : name_t) (size : Z) : option vrt_volume_t :=
  if alloc then Some (mk_vol uuid (take (Z.to_nat EXA_MAXSIZE_VOLUMENAME) name) size EXA_VOLUME_STOPPED None)
  else None.

Definition vrt_group_alloc (alloc : bool) (name : name_t) (uuid : exa_uuid_t) (l : vrt_layout)
    : option vrt_group_t :=
  if alloc then
    Some (mk_group uuid (take (Z.to_nat EXA_MAXSIZE_GROUPNAME) name) None 0
            (replicate (Z.to_nat NBMAX_VOLUMES_PER_GROUP) None) l None 0)
  else None.

Fixpoint first_null (l : list (option vrt_volume_t)) : option nat :=
  match l with
  | [] => None
  | None :: _ => Some O
  | Some _ :: l' => S <$> first_null l'
  end.

(** [__insert_volume] *)
Definition insert_volume (g : vrt_group_t) (v : vrt_volume_t) : result vrt_group_t :=
  match first_null (g_volumes g) with
  | Some i => Ok (mk_group (g_uuid g) (g_name g) (g_storage g) (u32 (nb_volumes g + 1))
                    (<[i := Some v]> (g_volumes g)) (g_layout g) (g_layout_data g) (g_sb_version g))
  | None => Err VRT_ERR_NB_VOLUMES_CREATED
  end.

Definition set_layout_data (g : vrt_group_t) (d : option layout_data_t) : vrt_group_t :=
  mk_group (g_uuid g) (g_name g) (g_storage g) (nb_volumes g) (g_volumes g) (g_layout g) d (g_sb_version g).

Definition set_storage (g : vrt_group_t) (st : option storage_t) : vrt_group_t :=
  mk_group (g_uuid g) (g_name g) st (nb_volumes g) (g_volumes g) (g_layout g) (g_layout_data g) (g_sb_version g).

(** ** Headers *)

Definition nodeset_bytes (s : exa_nodeset_t) : list Z := le_bytes 8 (cells s !!! 0%nat) ++ le_bytes 8 (cells s !!! 1%nat).
Definition nodeset_of (b : list Z) : exa_nodeset_t := mk_nodeset [le_val (slice 0 8 b); le_val (slice 8 8 b)].

Record rain1_rdev_header_t := mk_rain1_rdev_header { rrh_uuid : exa_uuid_t; rrh_sync_tag : Z }.

Definition rain1_rdev_header_bytes (h : rain1_rdev_header_t) (junk : list Z) : list Z :=
  uuid_bytes (rrh_uuid h) ++ le_bytes 2 (rrh_sync_tag h) ++ slice 0 2 junk.
Definition rain1_rdev_header_of (b : list Z) : rain1_rdev_header_t :=
  mk_rain1_rdev_header (uuid_of (slice 0 16 b)) (le_val (slice 16 2 b)).

Definition RAIN1_HEADER_MAGIC : Z := 0xA2A3A4A5.

Record rain1_header_t := mk_rain1_header {
  rh_magic : Z;
  rh_blended_stripes : Z;
  rh_su_size : Z;
  rh_max_sectors : Z;
  rh_sync_tag : Z;
  rh_logical_slot_size : Z;
  rh_dirty_zone_size : Z;
  rh_nodes_resync : exa_nodeset_t;
  rh_nodes_update : exa_nodeset_t;
  rh_nb_rdevs : Z
}.

Definition rain1_header_bytes (h : rain1_header_t) (junk : list Z) : list Z :=
  le_bytes 4 (rh_magic h) ++ le_bytes 4 (rh_blended_stripes h) ++ le_bytes 4 (rh_su_size h)
  ++ le_bytes 4 (rh_max_sectors h) ++ le_bytes 2 (rh_sync_tag h) ++ slice 0 6 junk
  ++ le_bytes 8 (rh_logical_slot_size h) ++ le_bytes 4 (rh_dirty_zone_size h) ++ slice 6 4 junk
  ++ nodeset_bytes (rh_nodes_resync h) ++ nodeset_bytes (rh_nodes_update h)
  ++ le_bytes 4 (rh_nb_rdevs h) ++ slice 10 4 junk.
Definition rain1_header_of (b : list Z) : rain1_header_t :=
  mk_rain1_header (le_val (slice 0 4 b)) (le_val (slice 4 4 b)) (le_val (slice 8 4 b)) (le_val (slice 12 4 b))
    (le_val (slice 16 2 b)) (le_val (slice 24 8 b)) (le_val (slice 32 4 b)) (nodeset_of (slice 40 16 b))
    (nodeset_of (slice 56 16 b)) (le_val (slice 72 4 b)).

Definition SSTRIPING_HEADER_MAGIC : Z := 0xB1B6B8B7.

Record sstriping_header_t := mk_sstriping_header { ssh_magic : Z; ssh_su_size : Z; ssh_logical_slot_size : Z }.

Definition sstriping_header_bytes (h : sstriping_header_t) : list Z :=
  le_bytes 4 (ssh_magic h) ++ le_bytes 4 (ssh_su_size h) ++ le_bytes 8 (ssh_logical_slot_size h).
Definition sstriping_header_of (b : list Z) : sstriping_header_t :=
  mk_sstriping_header (le_val (slice 0 4 b)) (le_val (slice 4 4 b)) (le_val (slice 8 8 b)).

Definition VOLUME_HEADER_MAGIC : Z := 0x7700FF11.

(** [vh_name] is the array. *)
Record volume_header_t := mk_volume_header {
  vh_magic : Z;
  vh_reserved : Z;
  vh_uuid : exa_uuid_t;
  vh_name : list Z;
  vh_size : Z;
  vh_assembly_volume_uuid : exa_uuid_t
}.

Definition volume_header_bytes (h : volume_header_t) : list Z :=
  le_bytes 4 (vh_magic h) ++ le_bytes 4 (vh_reserved h) ++ uuid_bytes (vh_uuid h) ++ vh_name h
  ++ le_bytes 8 (vh_size h) ++ uuid_bytes (vh_assembly_volume_uuid h).
Definition volume_header_of (b : list Z) : volume_header_t :=
  mk_volume_header (le_val (slice 0 4 b)) (le_val (slice 4 4 b)) (uuid_of (slice 8 16 b)) (slice 24 16 b)
    (le_val (slice 40 8 b)) (uuid_of (slice 48 16 b)).

Definition GROUP_HEADER_MAGIC : Z := 0x7700FF22.
Definition GROUP_HEADER_FORMAT : Z := 1.

Record group_header_t := mk_group_header {
  gh_magic : Z;
  gh_format : Z;
  gh_reserved : Z;
  gh_uuid : exa_uuid_t;
  gh_name : list Z;
  gh_nb_volumes : Z;
  gh_layout_name : list Z;
  gh_data_size : Z
}.

Definition group_header_bytes (h : group_header_t) : list Z :=
  le_bytes 4 (gh_magic h) ++ le_bytes 4 (gh_format h) ++ le_bytes 4 (gh_reserved h) ++ uuid_bytes (gh_uuid h)
  ++ gh_name h ++ le_bytes 4 (gh_nb_volumes h) ++ gh_layout_name h ++ le_bytes 8 (gh_data_size h).
Definition group_header_of (b : list Z) : group_header_t :=
  mk_group_header (le_val (slice 0 4 b)) (le_val (slice 4 4 b)) (le_val (slice 8 4 b)) (uuid_of (slice 12 16 b))
    (slice 28 16 b) (le_val (slice 44 4 b)) (slice 48 16 b) (le_val (slice 64 8 b)).

(** ** Writing *)

Section serialize_group.
Context {W : Type} (stream : option (stream_t W)) (m : mem).

Definition rain1_rdev_serialize (w : W) (junk : list Z) (lr : rain1_realdev_t) : option (W * result unit) :=
  write_struct stream w (rain1_rdev_header_bytes (mk_rain1_rdev_header (lr_uuid lr) (lr_sync_tag lr)) junk).

(** [junk k] is what the stack holds when the [k]th header is filled. *)
Fixpoint rain1_rdevs_loop (w : W) (junk : nat → list Z) (k : nat) (l : list (option rain1_realdev_t))
    : option (W * result unit) :=
  match l with
  | [] => Some (w, Ok tt)
  | lr :: l' =>
      lr ← lr;
      try! (w, _u) := rain1_rdev_serialize w (junk k) lr;
      rain1_rdevs_loop w junk (S k) l'
  end.

Definition rain1_group_serialize (w : W) (junk : nat → list Z) (rxg : rain1_group_t) : option (W * result unit) :=
  let h := mk_rain1_header RAIN1_HEADER_MAGIC (blended_stripes rxg) (su_size rxg) (max_sectors rxg)
             (rxg_sync_tag rxg) (logical_slot_size rxg) (dirty_zone_size rxg) (exa_nodeset_copy (nodes_resync rxg))
             (exa_nodeset_copy (nodes_update rxg)) (nb_rain1_rdevs rxg) in
  try! (w, _u) := write_struct stream w (rain1_header_bytes h (junk 0%nat));
  assert! bool_decide (Z.to_nat (nb_rain1_rdevs rxg) <= length (rain1_rdevs rxg))%nat;
  try! (w, _u) := rain1_rdevs_loop w junk 1 (take (Z.to_nat (nb_rain1_rdevs rxg)) (rain1_rdevs rxg));
  assembly_group_serialize stream m w (assembly_group rxg).

Definition sstriping_group_serialize (w : W) (ssg : sstriping_group_t) : option (W * result unit) :=
  try! (w, _u) := write_struct stream w (sstriping_header_bytes
    (mk_sstriping_header SSTRIPING_HEADER_MAGIC (ss_su_size ssg) (ss_logical_slot_size ssg)));
  assembly_group_serialize stream m w (ss_assembly_group ssg).

Definition layout_serialize (w : W) (junk : nat → list Z) (d : layout_data_t) : option (W * result unit) :=
  match d with
  | RAIN1_DATA rxg => rain1_group_serialize w junk rxg
  | SSTRIPING_DATA ssg => sstriping_group_serialize w ssg
  end.

(** The volume has an assembly volume, whose identifier is written. *)
Definition vrt_volume_serialize (ag : assembly_group_t) (w : W) (junk : list Z) (v : vrt_volume_t)
    : option (W * result unit) :=
  i ← v_av v;
  av ← subspaces ag !! i;
  write_struct stream w (volume_header_bytes
    (mk_volume_header VOLUME_HEADER_MAGIC 0 (v_uuid v) (os_strlcpy (slice 0 16 junk) (v_name v)) (v_size v)
       (av_uuid av))).
End serialize_group.

(** *** Sizes *)

Definition rain1_rdev_serialized_size : Z := 20.
Definition vrt_volume_serialized_size : Z := 64.

Definition rain1_group_serialized_size (rxg : rain1_group_t) : option Z :=
  ag ← assembly_group_serialized_size (assembly_group rxg);
  Some (u64 (u64 (80 + foldl (λ n _, u64 (n + rain1_rdev_serialized_size)) 0 (seqZ 0 (nb_rain1_rdevs rxg))) + ag)).

Definition sstriping_group_serialized_size (ssg : sstriping_group_t) : option Z :=
  ag ← assembly_group_serialized_size (ss_assembly_group ssg); Some (u64 (16 + ag)).

Definition layout_serialized_size (d : layout_data_t) : option Z :=
  match d with
  | RAIN1_DATA rxg => rain1_group_serialized_size rxg
  | SSTRIPING_DATA ssg => sstriping_group_serialized_size ssg
  end.

Definition vrt_group_serialized_size (g : vrt_group_t) : option Z :=
  st ← g_storage g;
  d ← g_layout_data g;
  s1 ← storage_serialized_size st;
  s2 ← layout_serialized_size d;
  let vols := foldl (λ n v, match v with Some _ => u64 (n + vrt_volume_serialized_size) | None => n end) 0 (g_volumes g) in
  Some (u64 (u64 (u64 (72 + s1) + s2) + vols)).

Section serialize_vrt_group.
Context {W : Type} (stream : option (stream_t W)) (m : mem).

Fixpoint group_volumes_loop (ag : assembly_group_t) (w : W) (junk : nat → list Z) (l : list (option vrt_volume_t))
    : option (W * result unit) :=
  match l with
  | [] => Some (w, Ok tt)
  | None :: l' => group_volumes_loop ag w junk l'
  | Some v :: l' =>
      try! (w, _u) := vrt_volume_serialize stream ag w (junk (length l')) v;
      group_volumes_loop ag w junk l'
  end.

(** [junk1] is for the header, [junk2] for the layout and [junk3] for the
    volumes. *)
Definition vrt_group_serialize (w : W) (junk1 : list Z) (junk2 junk3 : nat → list Z) (g : vrt_group_t)
    : option (W * result unit) :=
  size ← vrt_group_serialized_size g;
  let h := mk_group_header GROUP_HEADER_MAGIC GROUP_HEADER_FORMAT 0 (g_uuid g) (os_strlcpy (slice 0 16 junk1) (g_name g))
             (nb_volumes g) (os_strlcpy (slice 16 16 junk1) (layout_name (g_layout g))) (u64 (size - 72)) in
  try! (w, _u) := write_struct stream w (group_header_bytes h);
  st ← g_storage g;
  try! (w, _u) := storage_serialize stream m w st;
  d ← g_layout_data g;
  try! (w, _u) := layout_serialize stream m w junk2 d;
  group_volumes_loop (get_assembly_group d) w junk3 (g_volumes g).
End serialize_vrt_group.

(** ** Reading *)

(** [rain1_group_free]: every volume is released, the rest is memory.
    [None] when a volume is released without a storage. *)
Fixpoint rain1_free_subspaces `{!Qsort} (alloc : bool) (m : mem) (storage : option storage_t) (ag : assembly_group_t)
    (l : list assembly_volume_t) : option (mem * assembly_group_t) :=
  match l with
  | [] => Some (m, ag)
  | _ :: l' =>
      st ← storage;
      '(m, ag) ← assembly_group_release_volume alloc m st ag 0;
      rain1_free_subspaces alloc m storage ag l'
  end.

Definition rain1_group_free `{!Qsort} (alloc : bool) (m : mem) (storage : option storage_t) (rxg : rain1_group_t)
    : option mem :=
  '(m, ag) ← rain1_free_subspaces alloc m storage (assembly_group rxg) (subspaces (assembly_group rxg));
  '(m, _) ← assembly_group_cleanup m ag;
  Some m.

Definition sstriping_group_free (m : mem) (ssg : sstriping_group_t) : option mem :=
  '(m, _) ← assembly_group_cleanup m (ss_assembly_group ssg); Some m.

(** The [group_cleanup] of the layouts. *)
Definition layout_group_cleanup `{!Qsort} (alloc : bool) (m : mem) (storage : option storage_t) (d : option layout_data_t)
    : option mem :=
  match d with
  | None => Some m
  | Some (RAIN1_DATA rxg) => rain1_group_free alloc m storage rxg
  | Some (SSTRIPING_DATA ssg) => sstriping_group_free m ssg
  end.

Section deserialize_group.
Context `{!Qsort} {W : Type} (alloc : nat → bool) (stream : option (stream_t W)).
Implicit Types s : ds W.

Definition rain1_rdev_header_read s : option (ds W * result rain1_rdev_header_t) :=
  try! (s, b) := read_struct stream s 20; Some (s, Ok (rain1_rdev_header_of b)).

Definition rain1_rdev_deserialize (st : storage_t) s : option (ds W * result rain1_realdev_t) :=
  try! (s, h) := rain1_rdev_header_read s;
  rdev ← storage_get_rdev (ds_mem s) st (rrh_uuid h);
  match rdev with
  | None => Some (s, Err VRT_ERR_SB_CORRUPTION)
  | Some p =>
      r ← ds_mem s !! p;
      let '(ok, s) := os_malloc alloc s in
      match rain1_alloc_rdev_layout_data ok p r with
      | None => Some (s, Err ENOMEM)
      | Some lr => Some (s, Ok (set_sync_tag lr (rrh_sync_tag h)))
      end
  end.

(** The devices read so far are in the array, at their index. *)
Fixpoint rain1_rdevs_read_loop (n : nat) (st : storage_t) s (l : list (option rain1_realdev_t))
    : option (ds W * list (option rain1_realdev_t) * result unit) :=
  match n with
  | O => Some (s, l, Ok tt)
  | S n' =>
      '(s, r) ← rain1_rdev_deserialize st s;
      match r with
      | Err e => Some (s, l, Err e)
      | Ok lr =>
          rd ← ds_mem s !! lr_rdev lr;
          assert! bool_decide (Z.to_nat (r_index rd) < length l)%nat;
          rain1_rdevs_read_loop n' st s (<[Z.to_nat (r_index rd) := Some lr]> l)
      end
  end.

Definition rain1_header_read s : option (ds W * result rain1_header_t) :=
  try! (s, b) := read_struct stream s 80; Some (s, Ok (rain1_header_of b)).

(** The loops that give the slots of the volumes their private data. *)
Fixpoint slots_private_loop (n i : nat) (slots : list slot_t) (tag : Z) s
    : option (ds W * list slot_desync_info_t) :=
  match n with
  | O => Some (s, [])
  | S n' =>
      let '(ok, s) := os_malloc alloc s in
      private ← slot_desync_info_alloc ok tag;
      _ ← slots !! i;
      '(s, l) ← slots_private_loop n' (S i) slots tag s;
      Some (s, private :: l)
  end.

Fixpoint subspaces_private_loop (avs : list assembly_volume_t) (tag : Z) s
    : option (ds W * list (list slot_desync_info_t)) :=
  match avs with
  | [] => Some (s, [])
  | av :: avs' =>
      '(s, l) ← slots_private_loop (Z.to_nat (total_slots_count av)) 0 (slots av) tag s;
      '(s, ls) ← subspaces_private_loop avs' tag s;
      Some (s, l :: ls)
  end.

(** A number of devices larger than the array overruns it. *)
Definition rain1_group_deserialize (st : storage_t) s : option (ds W * result rain1_group_t) :=
  try! (s, h) := rain1_header_read s;
  if negb (rh_magic h =? RAIN1_HEADER_MAGIC) then Some (s, Err VRT_ERR_SB_MAGIC)
  else
    let '(ok, s) := os_malloc alloc s in
    match rain1_group_alloc ok with
    | None => Some (s, Err ENOMEM)
    | Some rxg =>
        assert! (rh_nb_rdevs h <=? NBMAX_DISKS_PER_GROUP);
        let set ag l private := mk_rxg ag (rh_blended_stripes h) (rh_su_size h) (rh_max_sectors h) (rh_sync_tag h)
                          (rh_logical_slot_size h) (rh_dirty_zone_size h) (rh_nb_rdevs h) l
                          (exa_nodeset_copy (rh_nodes_resync h)) (exa_nodeset_copy (rh_nodes_update h)) private in
        '(s, l, r) ← rain1_rdevs_read_loop (Z.to_nat (rh_nb_rdevs h)) st s (rain1_rdevs rxg);
        match r with
        | Err e => m ← rain1_group_free true (ds_mem s) (Some st) (set (assembly_group rxg) l []); Some (with_mem s m, Err e)
        | Ok _ =>
            '(s, r) ← assembly_group_deserialize alloc stream st s;
            match r with
            | Err e => m ← rain1_group_free true (ds_mem s) (Some st) (set assembly_group_init l []); Some (with_mem s m, Err e)
            | Ok ag =>
                '(s, private) ← subspaces_private_loop (subspaces ag) (rh_sync_tag h) s;
                Some (s, Ok (set ag l private))
            end
        end
    end.

Definition sstriping_group_deserialize (st : storage_t) s : option (ds W * result sstriping_group_t) :=
  try! (s, b) := read_struct stream s 16;
  let h := sstriping_header_of b in
  if negb (ssh_magic h =? SSTRIPING_HEADER_MAGIC) then Some (s, Err VRT_ERR_SB_MAGIC)
  else
    let '(ok, s) := os_malloc alloc s in
    if negb ok then Some (s, Err ENOMEM)
    else
      '(s, r) ← assembly_group_deserialize alloc stream st s;
      match r with
      | Err e => m ← sstriping_group_free (ds_mem s) (mk_ssg assembly_group_init (ssh_su_size h) (ssh_logical_slot_size h));
                 Some (with_mem s m, Err e)
      | Ok ag => Some (s, Ok (mk_ssg ag (ssh_su_size h) (ssh_logical_slot_size h)))
      end.

Definition layout_deserialize (l : vrt_layout) (st : storage_t) s : option (ds W * result layout_data_t) :=
  match l with
  | RAIN1 => try! (s, rxg) := rain1_group_deserialize st s; Some (s, Ok (RAIN1_DATA rxg))
  | SSTRIPING => try! (s, ssg) := sstriping_group_deserialize st s; Some (s, Ok (SSTRIPING_DATA ssg))
  end.

Definition vrt_volume_header_read s : option (ds W * result volume_header_t) :=
  try! (s, b) := read_struct stream s 64; Some (s, Ok (volume_header_of b)).

Definition vrt_volume_deserialize (ag : assembly_group_t) s : option (ds W * result vrt_volume_t) :=
  try! (s, h) := vrt_volume_header_read s;
  if negb (vh_magic h =? VOLUME_HEADER_MAGIC) then Some (s, Err VRT_ERR_SB_MAGIC)
  else if negb (vh_reserved h =? 0) then Some (s, Err VRT_ERR_SB_CORRUPTION)
  else
    name ← cstring (vh_name h);
    let '(ok, s) := os_malloc alloc s in
    match vrt_volume_alloc ok (vh_uuid h) name (vh_size h) with
    | None => Some (s, Err ENOMEM)
    | Some v =>
        match assembly_group_lookup_volume (subspaces ag) (vh_assembly_volume_uuid h) with
        | None => Some (s, Err VRT_ERR_SB_CORRUPTION)
        | Some i => Some (s, Ok (mk_vol (v_uuid v) (v_name v) (v_size v) (v_status v) (Some i)))
        end
    end.

(** The result of [__insert_volume] is not tested. *)
Fixpoint volumes_insert_loop (n : nat) (ag : assembly_group_t) s (g : vrt_group_t)
    : option (ds W * vrt_group_t * result unit) :=
  match n with
  | O => Some (s, g, Ok tt)
  | S n' =>
      '(s, r) ← vrt_volume_deserialize ag s;
      match r with
      | Err e => Some (s, g, Err e)
      | Ok v => volumes_insert_loop n' ag s (match insert_volume g v with Ok g' => g' | Err _ => g end)
      end
  end.

Definition vrt_group_header_read s : option (ds W * result group_header_t) :=
  try! (s, b) := read_struct stream s 72; Some (s, Ok (group_header_of b)).

(** [vrt_group_free] of a group without storage. *)
Definition group_failed s (st : storage_t) (d : option layout_data_t) (e : exa_error)
    : option (ds W * storage_t * result vrt_group_t) :=
  m ← layout_group_cleanup true (ds_mem s) None d; Some (with_mem s m, st, Err e).

(** The storage is changed in place. *)
Definition vrt_group_deserialize (st : storage_t) (group_uuid : exa_uuid_t) s
    : option (ds W * storage_t * result vrt_group_t) :=
  '(s, r) ← vrt_group_header_read s;
  match r with
  | Err e => Some (s, st, Err e)
  | Ok h =>
      if negb (gh_magic h =? GROUP_HEADER_MAGIC) then Some (s, st, Err VRT_ERR_SB_MAGIC)
      else if negb (gh_format h =? GROUP_HEADER_FORMAT) then Some (s, st, Err VRT_ERR_SB_FORMAT)
      else if negb (gh_reserved h =? 0) then Some (s, st, Err VRT_ERR_SB_CORRUPTION)
      else if negb (uuid_is_equal group_uuid (gh_uuid h)) then Some (s, st, Err VRT_ERR_SB_UUID_MISMATCH)
      else
        lname ← cstring (gh_layout_name h);
        match vrt_get_layout lname with
        | None => Some (s, st, Err VRT_ERR_UNKNOWN_LAYOUT)
        | Some l =>
            name ← cstring (gh_name h);
            let '(ok, s) := os_malloc alloc s in
            match vrt_group_alloc ok name (gh_uuid h) l with
            | None => Some (s, st, Err ENOMEM)
            | Some g =>
                '(s, st, r) ← storage_deserialize stream st s;
                match r with
                | Err e => group_failed s st None e
                | Ok _ =>
                    '(s, r) ← layout_deserialize l st s;
                    match r with
                    | Err e => group_failed s st None e
                    | Ok d =>
                        '(s, g, r) ← volumes_insert_loop (Z.to_nat (gh_nb_volumes h)) (get_assembly_group d) s
                                       (set_layout_data g (Some d));
                        match r with
                        | Err e => group_failed s st (Some d) e
                        | Ok _ =>
                            if negb (nb_volumes g =? gh_nb_volumes h) then
                              group_failed s st (Some d) VRT_ERR_SB_CORRUPTION
                            else Some (s, st, Ok (set_storage g (Some st)))
                        end
                    end
                end
            end
        end
  end.
End deserialize_group.

(** ** Headers read back *)

Lemma slice_here a n l : len a = n → slice 0 n (a ++ l) = a.
Proof.
  intros <-. unfold slice, len. rewrite Nat2Z.id. change (Z.to_nat 0) with O. rewrite drop_0. apply take_app_length.
Qed.

Lemma le_2 x : fits 16 x → le_val (le_bytes 2 x) = x.
Proof. intros H. by apply le_val_bytes. Qed.

Lemma len_nodeset s : len (nodeset_bytes s) = 16.
Proof. unfold nodeset_bytes. by rewrite len_app, !len_le_bytes. Qed.

(** Lengths of the fields of a header. *)
Ltac field_len :=
  rewrite ?len_le_bytes, ?len_uuid, ?len_nodeset;
  first [assumption | reflexivity | (rewrite len_slice; lia) | lia].

Ltac size_of a :=
  lazymatch a with
  | le_bytes ?n _ => eval vm_compute in (Z.of_nat n)
  | slice _ ?n _ => n
  | _ => constr:(16)
  end.

(** Read the fields of a header, in a goal where their lengths are known. *)
Ltac fields :=
  rewrite <- ?app_assoc;
  repeat match goal with
  | |- context [ slice 0 ?n (?a ++ ?l) ] => rewrite (slice_here a n l) by field_len
  | |- context [ slice ?o ?n (?a ++ ?l) ] =>
      let k := size_of a in
      rewrite (slice_skip a o n l k) by first [field_len | (vm_compute; discriminate)];
      let o' := eval vm_compute in (o - k) in change (o - k) with o'
  | |- context [ slice 0 ?n ?a ] =>
      lazymatch a with _ ++ _ => fail | _ => rewrite (slice_exact a n) by field_len end
  end.

Definition nodeset_ok (s : exa_nodeset_t) : Prop := ∃ a b, s = mk_nodeset [a; b] ∧ fits 64 a ∧ fits 64 b.

Lemma nodeset_header s : nodeset_ok s → nodeset_of (nodeset_bytes s) = s.
Proof.
  intros (a & b & -> & Ha & Hb). unfold nodeset_of, nodeset_bytes. cbn [cells lookup_total list_lookup_total].
  fields. by rewrite !le8.
Qed.

Lemma uuid_header u : uuid_ok u → uuid_of (uuid_bytes u) = u.
Proof. intros H. rewrite <- (app_nil_r (uuid_bytes u)). by apply uuid_roundtrip. Qed.

Lemma rain1_rdev_header_roundtrip h junk :
  uuid_ok (rrh_uuid h) → fits 16 (rrh_sync_tag h) → len junk = 32 →
  rain1_rdev_header_of (rain1_rdev_header_bytes h junk) = h.
Proof.
  intros Hu Ht Hj. unfold rain1_rdev_header_of, rain1_rdev_header_bytes. fields.
  rewrite uuid_header, le_2 by done. by destruct h.
Qed.

Record rain1_header_ok (h : rain1_header_t) : Prop := {
  ro_magic : fits 32 (rh_magic h);
  ro_blended : fits 32 (rh_blended_stripes h);
  ro_su : fits 32 (rh_su_size h);
  ro_max : fits 32 (rh_max_sectors h);
  ro_tag : fits 16 (rh_sync_tag h);
  ro_slot : fits 64 (rh_logical_slot_size h);
  ro_dzone : fits 32 (rh_dirty_zone_size h);
  ro_resync : nodeset_ok (rh_nodes_resync h);
  ro_update : nodeset_ok (rh_nodes_update h);
  ro_nb : fits 32 (rh_nb_rdevs h)
}.

Lemma rain1_header_roundtrip h junk :
  rain1_header_ok h → len junk = 32 → rain1_header_of (rain1_header_bytes h junk) = h.
Proof.
  intros [] Hj. unfold rain1_header_of, rain1_header_bytes. fields.
  rewrite !nodeset_header, !le4, le8, le_2 by done. by destruct h.
Qed.

Lemma sstriping_header_roundtrip h :
  fits 32 (ssh_magic h) → fits 32 (ssh_su_size h) → fits 64 (ssh_logical_slot_size h) →
  sstriping_header_of (sstriping_header_bytes h) = h.
Proof.
  intros. unfold sstriping_header_of, sstriping_header_bytes. fields. rewrite !le4, le8 by done. by destruct h.
Qed.

Lemma volume_header_roundtrip h :
  fits 32 (vh_magic h) → fits 32 (vh_reserved h) → uuid_ok (vh_uuid h) → len (vh_name h) = 16 → fits 64 (vh_size h) →
  uuid_ok (vh_assembly_volume_uuid h) → volume_header_of (volume_header_bytes h) = h.
Proof.
  intros. unfold volume_header_of, volume_header_bytes. fields. rewrite !uuid_header, !le4, le8 by done. by destruct h.
Qed.

Lemma group_header_roundtrip h :
  fits 32 (gh_magic h) → fits 32 (gh_format h) → fits 32 (gh_reserved h) → uuid_ok (gh_uuid h) → len (gh_name h) = 16 →
  fits 32 (gh_nb_volumes h) → len (gh_layout_name h) = 16 → fits 64 (gh_data_size h) →
  group_header_of (group_header_bytes h) = h.
Proof.
  intros. unfold group_header_of, group_header_bytes. fields. rewrite uuid_header, !le4, le8 by done. by destruct h.
Qed.

(** *** Names *)

Definition name_ok (s : name_t) : Prop := Forall (λ c, 0 < c < 256) s ∧ (length s <= 15)%nat.

Lemma strlcpy_len dst src : (0 < length dst)%nat → length (os_strlcpy dst src) = length dst.
Proof.
  intros H. unfold os_strlcpy. assert ((length (take (length dst - 1) src) <= length dst - 1)%nat) as Ht.
  { rewrite length_take. lia. }
  rewrite !length_app, length_drop. cbn [length]. lia.
Qed.

Lemma cstring_app s l : Forall (λ c, 0 < c < 256) s → cstring (s ++ 0 :: l) = Some s.
Proof.
  induction 1 as [|c s Hc _ IH]; [done|]. cbn [app cstring]. rewrite IH. cbn in Hc. by destruct (Z.eqb_spec c 0); [lia|].
Qed.

Lemma strlcpy_name dst s : name_ok s → length dst = 16%nat → cstring (os_strlcpy dst s) = Some s.
Proof.
  intros [Hs Hl] Hd. unfold os_strlcpy. rewrite Hd, take_ge by lia. by apply cstring_app.
Qed.

Lemma strlcpy_ok dst s : name_ok s → bytes_ok dst → bytes_ok (os_strlcpy dst s).
Proof.
  intros [Hs _] Hd. unfold os_strlcpy, bytes_ok. rewrite !Forall_app. split_and!.
  - apply Forall_take. eapply Forall_impl; [done|]. intros c Hc. cbn in Hc. unfold fits. lia.
  - repeat constructor; unfold fits; lia.
  - by apply Forall_drop.
Qed.

Lemma layout_found l : vrt_get_layout (layout_name l) = Some l.
Proof. by destruct l. Qed.

Lemma layout_name_ok l : name_ok (layout_name l).
Proof. destruct l; (split; [repeat (constructor; [lia|]); constructor|simpl; lia]). Qed.

(** ** Groups whose description is complete *)

(** Where a device of a group is found: its rank in the array of the layout is
    its index. *)
Record lr_described (m : mem) (st : storage_t) (i : nat) (lr : rain1_realdev_t) : Prop := {
  ld_in : lr_rdev lr ∈ storage_rdevs st;
  ld_rdev : ∃ r, m !! lr_rdev lr = Some r ∧ Z.to_nat (r_index r) = i ∧ r_uuid r = lr_uuid lr ∧ r_local r = mine lr;
  ld_tag : fits 16 (lr_sync_tag lr)
}.

Definition rain1_header_for (rxg : rain1_group_t) : rain1_header_t :=
  mk_rain1_header RAIN1_HEADER_MAGIC (blended_stripes rxg) (su_size rxg) (max_sectors rxg)
    (rxg_sync_tag rxg) (logical_slot_size rxg) (dirty_zone_size rxg) (nodes_resync rxg)
    (nodes_update rxg) (nb_rain1_rdevs rxg).

(** The devices of the group are the first ones of the array. *)
Record rain1_described (m : mem) (st : storage_t) (rxg : rain1_group_t) (lrs : list rain1_realdev_t) : Prop := {
  rd_header : rain1_header_ok (rain1_header_for rxg);
  rd_nb : nb_rain1_rdevs rxg = Z.of_nat (length lrs);
  rd_max : (length lrs <= Z.to_nat NBMAX_DISKS_PER_GROUP)%nat;
  rd_array : rain1_rdevs rxg = (Some <$> lrs) ++ replicate (Z.to_nat NBMAX_DISKS_PER_GROUP - length lrs) None;
  rd_lrs : ∀ i lr, lrs !! i = Some lr → lr_described m st i lr
}.

Definition layout_described (m : mem) (st : storage_t) (l : vrt_layout) (d : layout_data_t) : Prop :=
  match d with
  | RAIN1_DATA rxg => l = RAIN1 ∧ ∃ lrs, rain1_described m st rxg lrs
  | SSTRIPING_DATA ssg => l = SSTRIPING ∧ fits 32 (ss_su_size ssg) ∧ fits 64 (ss_logical_slot_size ssg)
  end.

Record vol_described (ag : assembly_group_t) (v : vrt_volume_t) : Prop := {
  vd_uuid : uuid_ok (v_uuid v);
  vd_name : name_ok (v_name v);
  vd_size : fits 64 (v_size v);
  vd_av : ∃ i av, v_av v = Some i ∧ subspaces ag !! i = Some av ∧ uuid_ok (av_uuid av) ∧
    assembly_group_lookup_volume (subspaces ag) (av_uuid av) = Some i
}.

Definition volumes_of (g : vrt_group_t) : list vrt_volume_t := omap id (g_volumes g).

Record group_described (m : mem) (st : storage_t) (g : vrt_group_t) (d : layout_data_t) : Prop := {
  gd_storage : g_storage g = Some st;
  gd_data : g_layout_data g = Some d;
  gd_layout : layout_described m st (g_layout g) d;
  gd_assembly : described m st (get_assembly_group d);
  gd_slots : Forall (λ av, slots av ≠ []) (subspaces (get_assembly_group d));
  gd_subspaces : Z.of_nat (length (subspaces (get_assembly_group d))) < 2 ^ 16;
  gd_uuid : uuid_ok (g_uuid g);
  gd_name : name_ok (g_name g);
  gd_nb : nb_volumes g = Z.of_nat (length (volumes_of g));
  gd_max : (length (g_volumes g) <= Z.to_nat NBMAX_VOLUMES_PER_GROUP)%nat;
  gd_volumes : Forall (vol_described (get_assembly_group d)) (volumes_of g)
}.

(** What the stack holds. *)
Definition junk_ok (junk : list Z) : Prop := len junk = 32 ∧ bytes_ok junk.

(** ** Buffers *)

Definition lr_buf (junk : list Z) (lr : rain1_realdev_t) : list Z :=
  rain1_rdev_header_bytes (mk_rain1_rdev_header (lr_uuid lr) (lr_sync_tag lr)) junk.

Fixpoint lrs_bufs (junk : nat → list Z) (k : nat) (lrs : list rain1_realdev_t) : list (list Z) :=
  match lrs with [] => [] | lr :: lrs' => lr_buf (junk k) lr :: lrs_bufs junk (S k) lrs' end.

Definition layout_bufs (m : mem) (junk : nat → list Z) (d : layout_data_t) : list (list Z) :=
  match d with
  | RAIN1_DATA rxg =>
      rain1_header_bytes (rain1_header_for rxg) (junk 0%nat)
      :: lrs_bufs junk 1 (omap id (take (Z.to_nat (nb_rain1_rdevs rxg)) (rain1_rdevs rxg)))
      ++ ag_bufs m (assembly_group rxg)
  | SSTRIPING_DATA ssg =>
      sstriping_header_bytes (mk_sstriping_header SSTRIPING_HEADER_MAGIC (ss_su_size ssg) (ss_logical_slot_size ssg))
      :: ag_bufs m (ss_assembly_group ssg)
  end.

Definition vol_header (ag : assembly_group_t) (junk : list Z) (v : vrt_volume_t) : volume_header_t :=
  mk_volume_header VOLUME_HEADER_MAGIC 0 (v_uuid v) (os_strlcpy (slice 0 16 junk) (v_name v)) (v_size v)
    (from_option (λ i, from_option av_uuid [] (subspaces ag !! i)) [] (v_av v)).

Fixpoint vols_bufs (ag : assembly_group_t) (junk : nat → list Z) (l : list (option vrt_volume_t)) : list (list Z) :=
  match l with
  | [] => []
  | None :: l' => vols_bufs ag junk l'
  | Some v :: l' => volume_header_bytes (vol_header ag (junk (length l')) v) :: vols_bufs ag junk l'
  end.

Definition group_header_for (g : vrt_group_t) (junk1 : list Z) (size : Z) : group_header_t :=
  mk_group_header GROUP_HEADER_MAGIC GROUP_HEADER_FORMAT 0 (g_uuid g) (os_strlcpy (slice 0 16 junk1) (g_name g))
    (nb_volumes g) (os_strlcpy (slice 16 16 junk1) (layout_name (g_layout g))) (u64 (size - 72)).

Definition group_bufs (m : mem) (junk1 : list Z) (junk2 junk3 : nat → list Z) (size : Z) (st : storage_t)
    (d : layout_data_t) (g : vrt_group_t) : list (list Z) :=
  group_header_bytes (group_header_for g junk1 size) :: storage_bufs m st ++ layout_bufs m junk2 d
  ++ vols_bufs (get_assembly_group d) junk3 (g_volumes g).

Section group_writes.
Context {W : Type} (stream : option (stream_t W)) (m : mem) (st : storage_t).

(** A structure followed by the buffers of the rest. *)
Lemma write_struct_then w b l (k : W → unit → option (W * result unit)) :
  (∀ w, k w tt = write_all stream w l) → andthen (write_struct stream w b) k = write_all stream w (b :: l).
Proof.
  intros H. rewrite write_all_cons. destruct (write_struct stream w b) as [[w' [[]|e]]|]; [|done..].
  rewrite !andthen_ok. apply H.
Qed.

Lemma write_all_then w l1 l2 (k : W → unit → option (W * result unit)) :
  (∀ w, k w tt = write_all stream w l2) → andthen (write_all stream w l1) k = write_all stream w (l1 ++ l2).
Proof.
  intros H. rewrite write_all_app. destruct (write_all stream w l1) as [[w' [[]|e]]|]; [|done..].
  rewrite !andthen_ok. apply H.
Qed.

Lemma lrs_writes junk k lrs w :
  rain1_rdevs_loop stream w junk k (Some <$> lrs) = write_all stream w (lrs_bufs junk k lrs).
Proof.
  revert k w. induction lrs as [|lr lrs IH]; intros k w; [done|]. cbn [fmap list_fmap rain1_rdevs_loop lrs_bufs mbind option_bind].
  unfold rain1_rdev_serialize. apply write_struct_then. intros w'. apply IH.
Qed.

Lemma layout_writes l d junk w :
  layout_described m st l d → described m st (get_assembly_group d) →
  layout_serialize stream m w junk d = write_all stream w (layout_bufs m junk d).
Proof.
  intros Hl Hd. pose proof (gs_wf _ _ (sv_group _ _ _ Hd)) as Hag. pose proof (described_chunks _ _ _ Hd) as Hk.
  destruct d as [rxg|ssg]; cbn [layout_serialize layout_bufs get_assembly_group] in *.
  - destruct Hl as [_ (lrs & [_ Hnb _ Ha _])]. unfold rain1_group_serialize. apply write_struct_then. intros w1.
    rewrite bool_decide_true by (rewrite Ha, length_app, length_fmap; lia). cbn [exa_assert].
    rewrite Hnb, Nat2Z.id, Ha, take_app_length' by (by rewrite length_fmap).
    rewrite omap_id_Some, lrs_writes. apply write_all_then. intros w2. by apply (ag_writes stream m st).
  - unfold sstriping_group_serialize. apply write_struct_then. intros w1. by apply (ag_writes stream m st).
Qed.

Lemma vols_writes ag junk l w :
  Forall (vol_described ag) (omap id l) → group_volumes_loop stream ag w junk l = write_all stream w (vols_bufs ag junk l).
Proof.
  revert w. induction l as [|[v|] l IH]; intros w Hl; [done| |by apply IH].
  cbn [omap list_omap id] in Hl. apply Forall_cons in Hl as [[_ _ _ (i & av & Hi & Hav & _)] Hl].
  cbn [group_volumes_loop vols_bufs]. unfold vrt_volume_serialize, vol_header. rewrite Hi. cbn [mbind option_bind from_option].
  rewrite Hav. cbn [mbind option_bind from_option]. apply write_struct_then. intros w'. by apply IH.
Qed.

Lemma group_writes g d junk1 junk2 junk3 size w :
  group_described m st g d → vrt_group_serialized_size g = Some size →
  vrt_group_serialize stream m w junk1 junk2 junk3 g = write_all stream w (group_bufs m junk1 junk2 junk3 size st d g).
Proof.
  intros [Hst Hda Hl Hd _ _ _ _ _ _ Hv] Hs. unfold vrt_group_serialize. rewrite Hs. cbn [mbind option_bind].
  apply write_struct_then. intros w1. rewrite Hst. cbn [mbind option_bind].
  rewrite (storage_writes stream m st w1 (po_st _ _ _ (sv_pool _ _ _ Hd)) (described_known _ _ _ Hd)).
  apply write_all_then. intros w2. rewrite Hda. cbn [mbind option_bind]. rewrite (layout_writes (g_layout g)) by done.
  apply write_all_then. intros w3. by apply vols_writes.
Qed.
End group_writes.

(** ** The group after a restart *)

(** The progress of a rebuild is not saved. *)
Definition restart_lr (lr : rain1_realdev_t) : rain1_realdev_t :=
  mk_lr (lr_uuid lr) (lr_rdev lr) (mine lr) (lr_sync_tag lr) (mk_rebuild_desc EXA_RDEV_REBUILD_NONE 0) (mk_progress false 0).

(** The private data of the slots is new, for the tag of the group. *)
Definition restart_private (tag : Z) (av : assembly_volume_t) : list slot_desync_info_t :=
  replicate (Z.to_nat (total_slots_count av))
    (mk_slot_desync false false (dzone_metadata_block_init tag) (dzone_metadata_block_init tag)).

Definition restart_rxg (rxg : rain1_group_t) : rain1_group_t :=
  mk_rxg (assembly_group rxg) (blended_stripes rxg) (su_size rxg) (max_sectors rxg) (rxg_sync_tag rxg)
    (logical_slot_size rxg) (dirty_zone_size rxg) (nb_rain1_rdevs rxg) (map (option_map restart_lr) (rain1_rdevs rxg))
    (nodes_resync rxg) (nodes_update rxg)
    (map (restart_private (rxg_sync_tag rxg)) (subspaces (assembly_group rxg))).

Definition restart_data (d : layout_data_t) : layout_data_t :=
  match d with
  | RAIN1_DATA rxg => RAIN1_DATA (restart_rxg rxg)
  | SSTRIPING_DATA ssg => SSTRIPING_DATA ssg
  end.

Definition restart_vol (v : vrt_volume_t) : vrt_volume_t :=
  mk_vol (v_uuid v) (v_name v) (v_size v) EXA_VOLUME_STOPPED (v_av v).

(** The volumes are stopped and at the start of the array. *)
Definition restart_group (g : vrt_group_t) (st : storage_t) (d : layout_data_t) : vrt_group_t :=
  let vols := map restart_vol (volumes_of g) in
  mk_group (g_uuid g) (g_name g) (Some st) (nb_volumes g)
    ((Some <$> vols) ++ replicate (Z.to_nat NBMAX_VOLUMES_PER_GROUP - length vols) None)
    (g_layout g) (Some (restart_data d)) 0.

Lemma restart_assembly d : get_assembly_group (restart_data d) = get_assembly_group d.
Proof. by destruct d. Qed.

(** *** Inserting volumes *)

Lemma first_null_app (vs : list vrt_volume_t) l : first_null ((Some <$> vs) ++ None :: l) = Some (length vs).
Proof. induction vs as [|v vs IH]; [done|]. cbn [fmap list_fmap app first_null length]. by rewrite IH. Qed.

Definition with_volumes (g : vrt_group_t) (vs : list vrt_volume_t) : vrt_group_t :=
  mk_group (g_uuid g) (g_name g) (g_storage g) (Z.of_nat (length vs))
    ((Some <$> vs) ++ replicate (Z.to_nat NBMAX_VOLUMES_PER_GROUP - length vs) None) (g_layout g) (g_layout_data g)
    (g_sb_version g).

Lemma insert_volume_ok g vs v :
  (length vs < Z.to_nat NBMAX_VOLUMES_PER_GROUP)%nat →
  insert_volume (with_volumes g vs) v = Ok (with_volumes g (vs ++ [v])).
Proof.
  intros Hl. unfold insert_volume, with_volumes. cbn [g_volumes nb_volumes g_uuid g_name g_storage g_layout g_layout_data g_sb_version].
  destruct (Z.to_nat NBMAX_VOLUMES_PER_GROUP - length vs)%nat as [|k] eqn:E; [lia|].
  cbn [replicate]. rewrite first_null_app, u32_id by (unfold fits, NBMAX_VOLUMES_PER_GROUP in *; lia).
  do 2 f_equal; rewrite ?length_app; cbn [length]; [lia|].
  rewrite fmap_app, <- app_assoc. replace (length vs) with (length (Some <$> vs) + 0)%nat at 1 by (rewrite length_fmap; lia).
  rewrite insert_app_r. cbn [fmap list_fmap app]. replace (Z.to_nat NBMAX_VOLUMES_PER_GROUP - (length vs + 1))%nat with k by lia. done.
Qed.

Section group_reads.
Context (Q : Qsort) {W : Type} (alloc : nat → bool) (stream : option (stream_t W)).
Context (inv : W → Prop) (bytes : W → list Z) (pos : W → Z) (ok : W → Prop).
Context `{!ByteStream stream inv bytes pos ok} (Halloc : ∀ n, alloc n = true).
Context (m0 : mem) (st : storage_t) (Hst : storage_wf st) (Hdv : devices_ok st m0).

Local Abbreviation reads := (reads inv bytes pos ok).
Local Abbreviation restores := (restores inv bytes pos ok m0).

Lemma reads_header {A} n (dec : list Z → A) D h m :
  len D = n → dec D = h → reads (λ s, try! (s, b) := read_struct stream s n; Some (s, Ok (dec b))) m D m (λ s, (s, Ok h)).
Proof using ByteStream0.
  intros Hl <-. rewrite <- (app_nil_r D) at 1. eapply (reads_andthen stream inv bytes pos ok); [by apply reads_struct|].
  apply (reads_ret _ _ _ _ m (λ s, (s, Ok (dec D)))).
Qed.

Lemma len_lr_header h junk : len junk = 32 → len (rain1_rdev_header_bytes h junk) = 20.
Proof.
  intros. unfold rain1_rdev_header_bytes. rewrite !len_app, len_uuid, len_le_bytes, len_slice by lia. done.
Qed.

Lemma reads_lr i lr junk m :
  lr_described m0 st i lr → junk_ok junk → shape m = shape m0 →
  reads (rain1_rdev_deserialize alloc stream st) m (lr_buf junk lr) m (λ s, (s, Ok (restart_lr lr))) ∧
  ∃ r, m !! lr_rdev lr = Some r ∧ Z.to_nat (r_index r) = i.
Proof using Hst Hdv Halloc ByteStream0.
  intros [Hin (r0 & Hr0 & Hi & Hu & Hmi) Ht] [Hj _] Hs.
  destruct (shape_lookup m0 m (lr_rdev lr) r0) as (r & Hr & E); [done..|].
  assert (Er : r_uuid r = lr_uuid lr ∧ r_local r = mine lr ∧ r_index r = r_index r0).
  { rewrite <- Hu, <- Hmi. destruct r as [? []], r0 as [? []]. simpl in *. by injection E as -> -> -> -> -> -> ->. }
  destruct Er as (Eu & Em & Ei). split; [|exists r; by rewrite Ei].
  destruct (devices_shape st m0 m Hs Hdv) as [Hk Hd]. destruct (Hk _ Hin) as (r' & Hr' & Hw). simplify_eq.
  unfold rain1_rdev_deserialize, rain1_rdev_header_read, lr_buf.
  rewrite <- (app_nil_r (rain1_rdev_header_bytes _ _)).
  eapply (reads_andthen stream inv bytes pos ok); [apply reads_header; [by apply len_lr_header|]|].
  { apply rain1_rdev_header_roundtrip; [cbn; by rewrite <- Eu|done|done]. }
  cbn [rrh_uuid rrh_sync_tag]. intros s B p Hat Hh Hm. rewrite Hm, <- Eu.
  rewrite (storage_get_rdev_found m st (lr_rdev lr) r); try done; cycle 1.
  { intros q Hq. destruct (Hk q Hq) as (x & -> & _). done. }
  cbn [mbind option_bind]. rewrite Hr. cbn [mbind option_bind]. unfold os_malloc. rewrite Halloc. cbn [rain1_alloc_rdev_layout_data].
  eexists. split; [unfold restart_lr, set_sync_tag; cbn; by rewrite Eu, Em|]. split; [|done]. rewrite Z.add_0_r. by destruct Hat.
Qed.
(** The array of the layout when the devices [lrs] have been read. *)
Definition lrs_array (lrs : list rain1_realdev_t) : list (option rain1_realdev_t) :=
  (Some <$> map restart_lr lrs) ++ replicate (Z.to_nat NBMAX_DISKS_PER_GROUP - length lrs) None.

Lemma length_lrs_array lrs :
  (length lrs <= Z.to_nat NBMAX_DISKS_PER_GROUP)%nat → length (lrs_array lrs) = Z.to_nat NBMAX_DISKS_PER_GROUP.
Proof. intros H. unfold lrs_array. rewrite length_app, length_fmap, length_map, length_replicate. lia. Qed.

Lemma lrs_array_insert lrs lr :
  (length lrs < Z.to_nat NBMAX_DISKS_PER_GROUP)%nat →
  <[length lrs := Some (restart_lr lr)]> (lrs_array lrs) = lrs_array (lrs ++ [lr]).
Proof.
  intros Hl. unfold lrs_array. rewrite map_app, fmap_app, length_app, <- app_assoc. cbn [length].
  replace (length lrs) with (length (Some <$> map restart_lr lrs) + 0)%nat at 1 by (rewrite length_fmap, length_map; lia).
  rewrite insert_app_r. f_equal.
  replace (Z.to_nat NBMAX_DISKS_PER_GROUP - length lrs)%nat
    with (S (Z.to_nat NBMAX_DISKS_PER_GROUP - (length lrs + 1))) by lia. done.
Qed.

Lemma restart_array lrs :
  map (option_map restart_lr) ((Some <$> lrs) ++ replicate (Z.to_nat NBMAX_DISKS_PER_GROUP - length lrs) None) = lrs_array lrs.
Proof.
  unfold lrs_array. rewrite map_app. f_equal; [|by induction (Z.to_nat NBMAX_DISKS_PER_GROUP - length lrs)%nat as [|k IH]; [|simpl; f_equal]].
  induction lrs as [|lr lrs IH]; [done|]. cbn. f_equal. exact IH.
Qed.

Lemma reads_lrs junk rest done_ m :
  (∀ k, junk_ok (junk k)) → shape m = shape m0 → (length (done_ ++ rest) <= Z.to_nat NBMAX_DISKS_PER_GROUP)%nat →
  (∀ i lr, (done_ ++ rest) !! i = Some lr → lr_described m0 st i lr) →
  reads (λ s, rain1_rdevs_read_loop alloc stream (length rest) st s (lrs_array done_)) m
    (concat (lrs_bufs junk (S (length done_)) rest)) m (λ s, (s, lrs_array (done_ ++ rest), Ok tt)).
Proof using Hst Hdv Halloc ByteStream0.
  intros Hj Hs. revert done_. induction rest as [|lr rest IH]; intros done_ Hl Hd.
  { cbn. rewrite app_nil_r. apply (reads_ret _ _ _ _ m (λ s, (s, lrs_array done_, Ok tt))). }
  cbn [length rain1_rdevs_read_loop lrs_bufs concat].
  assert (Hi : lr_described m0 st (length done_) lr).
  { apply Hd. rewrite lookup_app_r, Nat.sub_diag by lia. done. }
  destruct (reads_lr (length done_) lr (junk (S (length done_))) m Hi (Hj _) Hs) as [Hr (r & Hm & Hx)].
  eapply (reads_bind stream inv bytes pos ok); [exact Hr|]. rewrite length_app in Hl. cbn [length] in Hl.
  specialize (IH (done_ ++ [lr])). rewrite <- app_assoc in IH. cbn [app] in IH.
  rewrite !length_app in IH. cbn [length] in IH. rewrite Nat.add_1_r in IH.
  intros s B p Hat Hh Hms. cbn [restart_lr lr_rdev]. rewrite Hms, Hm. cbn [mbind option_bind]. rewrite Hx.
  rewrite bool_decide_true by (rewrite length_lrs_array; lia). cbn [exa_assert].
  rewrite lrs_array_insert by lia. apply (IH ltac:(lia) Hd s B p Hat Hh Hms).
Qed.

Lemma len_rain1_header h junk : len junk = 32 → len (rain1_header_bytes h junk) = 80.
Proof.
  intros. unfold rain1_header_bytes. rewrite !len_app, !len_nodeset, !len_le_bytes, !len_slice by lia. done.
Qed.

Lemma reads_slots_private m n i sls tag :
  (i + n <= length sls)%nat →
  reads (slots_private_loop alloc n i sls tag) m [] m (λ s, (s, replicate n
    (mk_slot_desync false false (dzone_metadata_block_init tag) (dzone_metadata_block_init tag)))).
Proof using Halloc.
  revert i. induction n as [|n IH]; intros i Hn; [apply (reads_ret _ _ _ _ m (λ s, (s, [])))|].
  intros s B p Hs Hh Hm. cbn [slots_private_loop os_malloc]. rewrite Halloc. cbn [slot_desync_info_alloc exa_assert mbind option_bind].
  destruct (lookup_lt_is_Some_2 sls i) as [sl ->]; [lia|]. cbn [mbind option_bind].
  destruct (IH (S i) ltac:(lia) (mk_ds (ds_w s) (ds_mem s) (S (ds_allocs s))) B p) as (s' & -> & H); [by destruct Hs|done|done|].
  exists s'. done.
Qed.

Lemma reads_private m avs tag :
  Forall (λ av, total_slots_count av = Z.of_nat (length (slots av))) avs →
  reads (subspaces_private_loop alloc avs tag) m [] m (λ s, (s, map (restart_private tag) avs)).
Proof using Halloc.
  intros Hav. induction Hav as [|av avs Ha _ IH]; [apply (reads_ret _ _ _ _ m (λ s, (s, [])))|].
  intros s B p Hs Hh Hm. cbn [subspaces_private_loop map]. unfold restart_private at 1.
  destruct (reads_slots_private m (Z.to_nat (total_slots_count av)) 0 (slots av) tag) with (s := s) (B := B) (p := p)
    as (s1 & -> & H1 & Hm1); [lia|done..|]. cbn [mbind option_bind].
  rewrite Z.add_0_r in H1. destruct (IH s1 B p) as (s2 & -> & H2); [done|done|done|]. exists s2. done.
Qed.

Lemma restores_layout l d junk :
  (∀ k, junk_ok (junk k)) → layout_described m0 st l d → group_saved st (get_assembly_group d) →
  Forall (chunk_ok m0 st) (ag_chunks (get_assembly_group d)) →
  restores (layout_deserialize alloc stream l st) (concat (layout_bufs m0 junk d)) (ag_chunks (get_assembly_group d))
    (λ s, (s, Ok (restart_data d))).
Proof using Hst Hdv Halloc ByteStream0.
  intros Hj Hl Hg Hc. pose proof (restores_group alloc stream inv bytes pos ok Halloc m0 st Hst Hdv _ Hg Hc) as Hag.
  destruct d as [rxg|ssg]; cbn [layout_described layout_bufs get_assembly_group restart_data] in *.
  - destruct Hl as [-> (lrs & [Hh Hnb Hmax Ha Hlrs])]. unfold layout_deserialize. cbv iota. unfold andthen at 1.
    eapply (restores_last stream inv bytes pos ok m0 _ _ _ _ (λ s, (s, Ok (restart_rxg rxg)))); [|done]. unfold rain1_group_deserialize, andthen at 1. cbn [concat].
    eapply (restores_head stream inv bytes pos ok).
    { intros m _. apply reads_header; [apply len_rain1_header, Hj|by apply rain1_header_roundtrip; [|apply Hj]]. }
    cbn [rh_magic rain1_header_for rh_nb_rdevs rh_blended_stripes rh_su_size rh_max_sectors rh_sync_tag
      rh_logical_slot_size rh_dirty_zone_size rh_nodes_resync rh_nodes_update exa_nodeset_copy].
    rewrite Z.eqb_refl. cbn [negb].
    apply (restores_malloc alloc inv bytes pos ok Halloc m0 (λ '(ok0, s), match rain1_group_alloc ok0 with Some _ => _ | None => _ end)).
    cbn [rain1_group_alloc]. assert (E : nb_rain1_rdevs rxg <=? NBMAX_DISKS_PER_GROUP = true).
    { apply Z.leb_le. rewrite Hnb. unfold NBMAX_DISKS_PER_GROUP in *. lia. }
    rewrite E. cbn [exa_assert rain1_rdevs]. rewrite Ha, Hnb, Nat2Z.id, take_app_length' by (by rewrite length_fmap).
    rewrite omap_id_Some, concat_app. change (replicate (Z.to_nat NBMAX_DISKS_PER_GROUP) None) with (lrs_array []).
    eapply (restores_head stream inv bytes pos ok); [intros m Hs; by apply (reads_lrs junk lrs [])|].
    rewrite <- (app_nil_r (concat (ag_bufs _ _))), <- (app_nil_r (ag_chunks _)).
    eapply (restores_bind stream inv bytes pos ok); [exact Hag|]. cbv beta iota.
    eapply (restores_last stream inv bytes pos ok).
    + apply restores_pure. intros m _. apply reads_private. eapply Forall_impl; [exact (aw_vols _ _ (gs_wf _ _ Hg))|]. by intros av [? _].
    + intros s. cbv beta iota. unfold restart_rxg. rewrite Hnb, Ha, restart_array. done.
  - destruct Hl as (-> & Hsu & Hls). unfold layout_deserialize. cbv iota. unfold andthen at 1.
    eapply (restores_last stream inv bytes pos ok m0 _ _ _ _ (λ s, (s, Ok ssg))); [|done]. unfold sstriping_group_deserialize, andthen. cbn [concat].
    eapply (restores_head stream inv bytes pos ok).
    { intros m _. apply (reads_struct stream inv bytes pos ok). unfold sstriping_header_bytes. by rewrite !len_app, !len_le_bytes. }
    cbv beta iota zeta. rewrite sstriping_header_roundtrip by done. cbn [ssh_magic ssh_su_size ssh_logical_slot_size].
    rewrite Z.eqb_refl. cbn [negb].
    apply (restores_malloc alloc inv bytes pos ok Halloc m0 (λ '(ok0, s), if negb ok0 then _ else _)). cbn [negb].
    eapply (restores_last stream inv bytes pos ok); [exact Hag|]. intros s. by destruct ssg.
Qed.

Lemma name_array junk o s : junk_ok junk → 0 <= o <= 16 → len (os_strlcpy (slice o 16 junk) s) = 16 ∧ length (slice o 16 junk) = 16%nat.
Proof.
  intros [Hj _] Ho. assert (Hl : len (slice o 16 junk) = 16) by (apply len_slice; lia). unfold len in *.
  rewrite strlcpy_len by lia. lia.
Qed.

Lemma vol_header_ok ag junk v :
  vol_described ag v → junk_ok junk → volume_header_of (volume_header_bytes (vol_header ag junk v)) = vol_header ag junk v.
Proof.
  intros [Hu Hn Hs (i & av & Hi & Hav & Hau & _)] Hj. apply volume_header_roundtrip; try done; cbn.
  - by apply name_array.
  - by rewrite Hi; cbn; rewrite Hav.
Qed.

Lemma len_vol_header ag junk v : junk_ok junk → len (volume_header_bytes (vol_header ag junk v)) = 64.
Proof.
  intros Hj. unfold volume_header_bytes. rewrite !len_app, !len_uuid, !len_le_bytes.
  cbn [vh_name vol_header]. by rewrite (proj1 (name_array junk 0 _ Hj ltac:(lia))).
Qed.

Lemma reads_vol ag junk v m :
  vol_described ag v → junk_ok junk →
  reads (vrt_volume_deserialize alloc stream ag) m (volume_header_bytes (vol_header ag junk v)) m
    (λ s, (s, Ok (restart_vol v))).
Proof using Halloc ByteStream0.
  intros Hv Hj. unfold vrt_volume_deserialize, vrt_volume_header_read. rewrite <- (app_nil_r (volume_header_bytes _)).
  eapply (reads_andthen stream inv bytes pos ok).
  { apply reads_header; [by apply len_vol_header|by apply vol_header_ok]. }
  destruct Hv as [_ Hn _ (i & av & Hi & Hav & _ & Hlk)]. cbn [vh_magic vh_reserved vh_name vh_uuid vh_size vol_header].
  rewrite Z.eqb_refl. cbn [negb Z.eqb].
  rewrite (strlcpy_name _ _ Hn) by (by apply (name_array junk 0 (v_name v))). cbn [mbind option_bind].
  apply (reads_malloc alloc inv bytes pos ok Halloc (λ '(ok0, s), match vrt_volume_alloc ok0 _ _ _ with Some _ => _ | None => _ end)).
  cbn [vrt_volume_alloc v_uuid v_name v_size v_status vh_assembly_volume_uuid vol_header]. rewrite Hi. cbn [from_option]. rewrite Hav. cbn [from_option].
  rewrite Hlk, take_ge by (destruct Hn as [_ Hn]; unfold EXA_MAXSIZE_VOLUMENAME; lia).
  unfold restart_vol. rewrite Hi. apply (reads_ret _ _ _ _ m (λ s, (s, Ok _))).
Qed.

Lemma reads_vols ag junk l vs g m :
  (∀ k, junk_ok (junk k)) → Forall (vol_described ag) (omap id l) →
  (length vs + length (omap id l) <= Z.to_nat NBMAX_VOLUMES_PER_GROUP)%nat →
  reads (λ s, volumes_insert_loop alloc stream (length (omap id l)) ag s (with_volumes g vs)) m
    (concat (vols_bufs ag junk l)) m (λ s, (s, with_volumes g (vs ++ map restart_vol (omap id l)), Ok tt)).
Proof using Halloc ByteStream0.
  intros Hj. revert vs. induction l as [|[v|] l IH]; intros vs Hl Hn.
  - cbn. rewrite app_nil_r. apply (reads_ret _ _ _ _ m (λ s, (s, with_volumes g vs, Ok tt))).
  - cbn [omap list_omap id length map volumes_insert_loop vols_bufs concat] in *. apply Forall_cons in Hl as [Hv Hl].
    eapply (reads_bind stream inv bytes pos ok); [by apply reads_vol|]. cbv beta iota.
    specialize (IH (vs ++ [restart_vol v])). rewrite <- app_assoc, length_app in IH. cbn [app length] in IH.
    rewrite insert_volume_ok by lia. apply IH; [done|lia].
  - cbn [omap list_omap id vols_bufs] in *. by apply IH.
Qed.

Lemma group_header_ok g junk1 size :
  uuid_ok (g_uuid g) → fits 32 (nb_volumes g) → junk_ok junk1 →
  group_header_of (group_header_bytes (group_header_for g junk1 size)) = group_header_for g junk1 size ∧
  len (group_header_bytes (group_header_for g junk1 size)) = 72.
Proof.
  intros Hu Hn Hj. pose proof (proj1 (name_array junk1 0 (g_name g) Hj ltac:(lia))) as H1.
  pose proof (proj1 (name_array junk1 16 (layout_name (g_layout g)) Hj ltac:(lia))) as H2. split.
  - apply group_header_roundtrip; try done. cbn. pose proof (Z.mod_pos_bound (size - 72) (2 ^ 64)). unfold fits, u64. lia.
  - unfold group_header_bytes. rewrite !len_app, len_uuid, !len_le_bytes. cbn [gh_name gh_layout_name group_header_for].
    by rewrite H1, H2.
Qed.

(** Reading a group on fresh devices gives it back, restarted, and the devices
    as they were. *)
Lemma reads_group g d junk1 junk2 junk3 size m uuid :
  group_described m0 st g d → junk_ok junk1 → (∀ k, junk_ok (junk2 k)) → (∀ k, junk_ok (junk3 k)) →
  fresh_devices m0 st m → uuid_is_equal uuid (g_uuid g) = true →
  reads (vrt_group_deserialize alloc stream (unread st) uuid) m (concat (group_bufs m0 junk1 junk2 junk3 size st d g)) m0
    (λ s, (s, st, Ok (restart_group g st d))).
Proof using Hst Hdv Halloc ByteStream0.
  intros [Hs Hda Hl Hd _ _ Hu Hna Hnb Hmax Hv] Hj1 Hj2 Hj3 Hm Hid.
  pose proof (po_lg _ _ _ (sv_pool _ _ _ Hd)) as L. destruct (ag_chunks_in st _ (gs_wf _ _ (sv_group _ _ _ Hd))) as [Hin _].
  assert (Hlen : (length (volumes_of g) <= length (g_volumes g))%nat).
  { unfold volumes_of. clear. induction (g_volumes g) as [|[v|] l IH]; cbn in *; lia. }
  assert (Hf : fits 32 (nb_volumes g)) by (rewrite Hnb; unfold fits, NBMAX_VOLUMES_PER_GROUP in *; lia).
  destruct (group_header_ok g junk1 size Hu Hf Hj1) as [Eh Eln].
  destruct (reads_storage stream inv bytes pos ok m0 st Hst Hdv m Hm) as (m1 & R1 & Hm1); [apply (sv_pool _ _ _ Hd)|apply (sv_size _ _ _ Hd)..| |].
  { intros p r Hp Hr. split; [by apply L in Hr|by eapply (sv_sized _ _ _ Hd)]. }
  destruct (revived_ok m0 st m1 _ Hm1 L Hin) as [L1 S1].
  destruct (restores_layout (g_layout g) d junk2 Hj2 Hl (sv_group _ _ _ Hd)) with (m := m1) (out := @nil chunk_t)
    as (m2 & R2 & L2 & S2).
  { apply Forall_forall. intros c Hc. split; [by eapply Forall_forall in Hin|]. apply (lg_valid _ _ L c Hc). }
  { done. } { done. } { rewrite app_nil_r. apply L. }
  rewrite app_nil_r in L2. rewrite (ledger_unique m2 m0 _ L2 L S2) in R2. clear S2 L2.
  unfold vrt_group_deserialize, group_bufs. cbn [concat]. rewrite !concat_app.
  eapply (reads_bind stream inv bytes pos ok); [by apply reads_header|].
  cbn [gh_magic gh_format gh_reserved gh_uuid gh_layout_name gh_name gh_nb_volumes group_header_for].
  rewrite !Z.eqb_refl, Hid. cbn [negb].
  rewrite (strlcpy_name _ _ (layout_name_ok _)) by (by apply (name_array junk1 16 [])). cbn [mbind option_bind].
  rewrite layout_found, (strlcpy_name _ _ Hna) by (by apply (name_array junk1 0 [])). cbn [mbind option_bind].
  apply (reads_malloc alloc inv bytes pos ok Halloc (λ '(ok0, s), match vrt_group_alloc ok0 _ _ _ with Some _ => _ | None => _ end)).
  cbn [vrt_group_alloc]. eapply (reads_bind stream inv bytes pos ok); [exact R1|]. cbv beta iota.
  eapply (reads_bind stream inv bytes pos ok); [exact R2|]. cbv beta iota.
  rewrite restart_assembly, Hnb, Nat2Z.id. unfold volumes_of in *.
  set (g0 := mk_group (g_uuid g) (take (Z.to_nat EXA_MAXSIZE_GROUPNAME) (g_name g)) None 0 [] (g_layout g)
    (Some (restart_data d)) 0).
  change (set_layout_data _ _) with (with_volumes g0 []).
  eapply (reads_last stream inv bytes pos ok).
  { apply (reads_vols (get_assembly_group d) junk3 (g_volumes g) [] g0 m0); [done|done|]. simpl. lia. }
  cbv beta iota. cbn [nb_volumes with_volumes app]. rewrite length_map, Z.eqb_refl. cbn [negb].
  unfold set_storage, with_volumes, restart_group, volumes_of. cbn. rewrite length_map, Hnb.
  rewrite (take_ge (g_name g)) by (destruct Hna as [_ Hna]; unfold EXA_MAXSIZE_GROUPNAME; lia).
  apply (reads_ret _ _ _ _ m0 (λ s, (s, st, Ok _))).
Qed.
End group_reads.

(** ** Sizes and bytes of the buffers *)

Lemma foldl_sum {A} (f : Z → A → Z) (c : Z) l n :
  (∀ n a, 0 <= n → n + c < 2 ^ 64 → f n a = n + c) → 0 <= c → 0 <= n → n + c * Z.of_nat (length l) < 2 ^ 64 →
  foldl f n l = n + c * Z.of_nat (length l).
Proof.
  intros Hf Hc. revert n. induction l as [|a l IH]; intros n Hn Hb; cbn [foldl length] in *; [lia|].
  assert (0 <= c * Z.of_nat (length l)) by nia. rewrite Hf by lia. rewrite IH by lia. lia.
Qed.

Lemma foldl_vols l n :
  0 <= n → n + 64 * Z.of_nat (length (omap id l)) < 2 ^ 64 →
  foldl (λ n (v : option vrt_volume_t), match v with Some _ => u64 (n + vrt_volume_serialized_size) | None => n end) n l
  = n + 64 * Z.of_nat (length (omap id l)).
Proof.
  revert n. induction l as [|[v|] l IH]; intros n Hn Hb; cbn [foldl omap list_omap id length] in *; [lia| |by apply IH].
  unfold vrt_volume_serialized_size. rewrite u64_id by (unfold fits; lia).
  rewrite IH by (unfold omap in *; lia). lia.
Qed.

Lemma len_lrs_bufs junk k lrs :
  (∀ k, junk_ok (junk k)) → len (concat (lrs_bufs junk k lrs)) = 20 * Z.of_nat (length lrs).
Proof.
  intros Hj. revert k. induction lrs as [|lr lrs IH]; intros k; [done|]. cbn [lrs_bufs concat length].
  rewrite len_app, IH. unfold lr_buf. rewrite len_lr_header by apply Hj. lia.
Qed.

Lemma len_vols_bufs ag junk l :
  (∀ k, junk_ok (junk k)) → len (concat (vols_bufs ag junk l)) = 64 * Z.of_nat (length (omap id l)).
Proof.
  intros Hj. induction l as [|[v|] l IH]; [done| |exact IH]. cbn [vols_bufs concat omap list_omap id length].
  rewrite len_app, IH, len_vol_header by apply Hj. unfold omap. lia.
Qed.

Lemma layout_size m st l d junk n :
  (∀ k, junk_ok (junk k)) → layout_described m st l d →
  assembly_group_serialized_size (get_assembly_group d) = Some n → n = len (concat (ag_bufs m (get_assembly_group d))) →
  n < 2 ^ 57 →
  layout_serialized_size d = Some (len (concat (layout_bufs m junk d))) ∧ len (concat (layout_bufs m junk d)) < 2 ^ 58.
Proof.
  intros Hj Hl En Hn Hb. pose proof (len_nonneg (concat (ag_bufs m (get_assembly_group d)))) as H0.
  destruct d as [rxg|ssg]; cbn [layout_described layout_bufs get_assembly_group layout_serialized_size concat] in *.
  - destruct Hl as [_ (lrs & [_ Hnb Hmax Ha _])]. unfold rain1_group_serialized_size. rewrite En. cbn [mbind option_bind].
    assert (Hk : (length lrs <= 512)%nat) by (unfold NBMAX_DISKS_PER_GROUP in Hmax; lia).
    rewrite (foldl_sum _ 20) by (intros; rewrite ?u64_id, ?length_seqZ; unfold fits, rain1_rdev_serialized_size; lia).
    rewrite length_seqZ, Hnb, Nat2Z.id, Ha, take_app_length' by (by rewrite length_fmap). rewrite omap_id_Some, len_app, concat_app, len_app.
    rewrite len_rain1_header, len_lrs_bufs, <- Hn by (intros; apply Hj). rewrite (u64_id (80 + _)), u64_id by (unfold fits; lia).
    split; [f_equal; lia|lia].
  - unfold sstriping_group_serialized_size. rewrite En. cbn [mbind option_bind].
    rewrite len_app. unfold sstriping_header_bytes. rewrite !len_app, !len_le_bytes, <- Hn, u64_id by (unfold fits; lia).
    split; [f_equal; lia|lia].
Qed.

(** The size of a group is that of what is written. *)
Lemma group_sized m st g d junk1 junk2 junk3 size :
  group_described m st g d → junk_ok junk1 → (∀ k, junk_ok (junk2 k)) → (∀ k, junk_ok (junk3 k)) →
  vrt_group_serialized_size g = Some (len (concat (group_bufs m junk1 junk2 junk3 size st d g))) ∧
  len (concat (group_bufs m junk1 junk2 junk3 size st d g)) < 2 ^ 60.
Proof.
  intros [Hst Hda Hl Hd Hsl Hsub Hu Hna Hnb Hmax Hv] Hj1 Hj2 Hj3.
  assert (Hlen : (length (omap id (g_volumes g)) <= 256)%nat).
  { transitivity (length (g_volumes g)); [|unfold NBMAX_VOLUMES_PER_GROUP in Hmax; lia].
    clear. induction (g_volumes g) as [|[v|] l IH]; cbn in *; lia. }
  assert (Hf : fits 32 (nb_volumes g)) by (rewrite Hnb; unfold fits, volumes_of; lia).
  destruct (group_size m st _ (sv_pool _ _ _ Hd) (gs_wf _ _ (sv_group _ _ _ Hd)) Hsl Hsub) as [E2 B2].
  destruct (layout_size m st (g_layout g) d junk2 _ Hj2 Hl E2 eq_refl B2) as [E3 B3].
  destruct (storage_size m st (po_st _ _ _ (sv_pool _ _ _ Hd)) (described_known _ _ _ Hd)) as [E1 B1].
  unfold vrt_group_serialized_size. rewrite Hst, Hda. cbn [mbind option_bind]. rewrite E1. cbn [mbind option_bind].
  rewrite E3. cbn [mbind option_bind]. unfold group_bufs. cbn [concat]. rewrite !concat_app, !len_app.
  rewrite (proj2 (group_header_ok g junk1 size Hu Hf Hj1)), (len_vols_bufs _ _ _ Hj3), foldl_vols by lia.
  pose proof (len_nonneg (concat (storage_bufs m st))). pose proof (len_nonneg (concat (layout_bufs m junk2 d))).
  rewrite (u64_id (72 + _)) by (unfold fits; lia). rewrite (u64_id (72 + _ + _)) by (unfold fits; lia).
  rewrite u64_id by (unfold fits; lia).
  split; [f_equal; lia|lia].
Qed.

Lemma bytes_ok_slice_junk junk o n : junk_ok junk → bytes_ok (slice o n junk).
Proof. intros [_ Hj]. by apply bytes_ok_slice. Qed.

Lemma nodeset_bytes_ok s : bytes_ok (nodeset_bytes s).
Proof. unfold nodeset_bytes. auto with bytes_db. Qed.

#[export] Hint Resolve bytes_ok_slice_junk nodeset_bytes_ok strlcpy_ok layout_name_ok : bytes_db.

Lemma group_bufs_ok m st g d junk1 junk2 junk3 size :
  group_described m st g d → junk_ok junk1 → (∀ k, junk_ok (junk2 k)) → (∀ k, junk_ok (junk3 k)) →
  Forall bytes_ok (group_bufs m junk1 junk2 junk3 size st d g).
Proof.
  intros [_ _ _ _ _ _ _ Hna _ _ Hv] Hj1 Hj2 Hj3. constructor;
    [unfold group_header_bytes; cbn [gh_name gh_layout_name group_header_for]; auto 12 with bytes_db|].
  apply Forall_app. split; [apply storage_bufs_ok|]. apply Forall_app. split.
  - destruct d as [rxg|ssg]; cbn [layout_bufs].
    + constructor; [unfold rain1_header_bytes; auto 20 with bytes_db|]. apply Forall_app. split; [|apply ag_bufs_ok].
      generalize 1%nat. induction (omap id _) as [|lr lrs IH]; intros k; constructor; [|apply IH].
      unfold lr_buf, rain1_rdev_header_bytes. auto with bytes_db.
    + constructor; [unfold sstriping_header_bytes; auto with bytes_db|apply ag_bufs_ok].
  - unfold volumes_of in Hv. induction (g_volumes g) as [|[v|] l IH]; [constructor| |by apply IH].
    cbn [omap list_omap id] in Hv. apply Forall_cons in Hv as [[_ Hn _ _] Hv].
    constructor; [unfold volume_header_bytes; cbn [vh_name vol_header]; auto 12 with bytes_db|by apply IH].
Qed.
