(* ===== verification/GroupSync.v ===== *)
(** * A group in the superblocks of its devices

    Model of [vrt_group_sync_sb] and [vrt_group_read_sb] of
    [vrt/virtualiseur/src/vrt_group.c], which save a group in the superblocks of
    its local devices and find it again when it is started.  The description
    ([GroupSb]) goes through the superblock operations and their streams
    ([Superblock]) down to the sectors of the devices. *)

From S2P Require Import Prelude Nodeset Extent Prediction Storage Assembly SyncTag Rain1 Bytes Checksum Stream.
From S2P Require Import BdevStream Superblock Serial GroupSb.
From stdpp Require Import options.

(** The streams of the superblocks of the devices that are open. *)
Abbreviation sb_devs := (gmap Z (sb_streams * sb_world)).

(** ** Saving *)

(** What the stack holds when the headers are filled. *)
Record stack_t := mk_stack { st_header : list Z; st_layout : nat → list Z; st_volumes : nat → list Z }.

Definition sync_rdev (m : mem) (s : sb_streams) (w : sb_world) (stack : stack_t) (g : vrt_group_t)
    (old_sb_version new_sb_version : Z) : option (sb_world * result unit) :=
  '(w, r) ← vrt_rdev_begin_superblock_write s w old_sb_version new_sb_version;
  match r with
  | Err e => Some (w, Err e)
  | Ok op =>
      '(w, r) ← vrt_group_serialize (checksum_sb_streams s (wo_position op)) m w
                  (st_header stack) (st_layout stack) (st_volumes stack) g;
      match r with
      | Err e => Some (w, Err e)
      | Ok _ => vrt_rdev_end_superblock_write s w op
      end
  end.

Fixpoint sync_sb_loop (fuel : nat) (m : mem) (ws : sb_devs) (stack : Z → stack_t) (g : vrt_group_t) (st : storage_t)
    (iter : storage_rdev_iter_t) (old_sb_version new_sb_version : Z) : option (sb_devs * result unit) :=
  match fuel with
  | O => None
  | S fuel' =>
      '(rdev, iter) ← storage_rdev_iterator_get (rdev_iter_fuel st) st iter;
      match rdev with
      | None => Some (ws, Ok tt)
      | Some p =>
          r ← m !! p;
          if negb (rdev_is_local r) || negb (rdev_is_ok r) then
            sync_sb_loop fuel' m ws stack g st iter old_sb_version new_sb_version
          else
            '(s, w) ← ws !! p;
            '(w, err) ← sync_rdev m s w (stack p) g old_sb_version new_sb_version;
            match err with
            | Err e => Some (<[p := (s, w)]> ws, Err e)
            | Ok _ => sync_sb_loop fuel' m (<[p := (s, w)]> ws) stack g st iter old_sb_version new_sb_version
            end
      end
  end.

Definition vrt_group_sync_sb (m : mem) (ws : sb_devs) (stack : Z → stack_t) (g : vrt_group_t)
    (old_sb_version new_sb_version : Z) : option (sb_devs * vrt_group_t * result unit) :=
  let g := mk_group (g_uuid g) (g_name g) (g_storage g) (nb_volumes g) (g_volumes g) (g_layout g) (g_layout_data g)
             new_sb_version in
  st ← g_storage g;
  '(ws, r) ← sync_sb_loop (S (Z.to_nat (storage_get_num_realdevs st))) m ws stack g st storage_rdev_iterator_begin
               old_sb_version new_sb_version;
  Some (ws, g, r).

(** ** Reading *)

Section reading_group.
Context `{!Qsort} (alloc : nat → bool).

Definition read_rdev (s : sb_streams) (x : ds sb_world) (st : storage_t) (group_uuid : exa_uuid_t) (sb_version : Z)
    : option (ds sb_world * storage_t * result vrt_group_t) :=
  '(w, r) ← vrt_rdev_begin_superblock_read s (ds_w x) sb_version;
  let x := mk_ds w (ds_mem x) (ds_allocs x) in
  match r with
  | Err e => Some (x, st, Err e)
  | Ok op =>
      '(x, st, r) ← vrt_group_deserialize alloc (sb_data_streams s (ro_position op)) st group_uuid x;
      match r with
      | Err e => Some (x, st, Err e)
      | Ok g =>
          Some (x, st, match vrt_rdev_end_superblock_read s (ds_w x) op with Ok _ => Ok g | Err e => Err e end)
      end
  end.

Definition set_corrupted (m : mem) (p : Z) : mem :=
  alter (λ r, mk_rdev (r_uuid r) (chunks r) (r_node_id r) (real_size r) (r_local r) (r_up r) true (r_index r)) p m.

(** The devices are tried one after the other; the storage keeps what the
    failed attempts have put in it. *)
Fixpoint read_sb_loop (fuel : nat) (m : mem) (n : nat) (ws : sb_devs) (st : storage_t) (iter : storage_rdev_iter_t)
    (group_uuid : exa_uuid_t) (sb_version : Z) (err : exa_error) : option (mem * nat * storage_t * result vrt_group_t) :=
  match fuel with
  | O => None
  | S fuel' =>
      '(rdev, iter) ← storage_rdev_iterator_get (rdev_iter_fuel st) st iter;
      match rdev with
      | None => Some (m, n, st, Err err)
      | Some p =>
          r ← m !! p;
          if negb (rdev_is_ok r) then read_sb_loop fuel' m n ws st iter group_uuid sb_version err
          else
            '(s, w) ← ws !! p;
            '(x, st, res) ← read_rdev s (mk_ds w m n) st group_uuid sb_version;
            match res with
            | Ok g => Some (ds_mem x, ds_allocs x, st, Ok g)
            | Err e =>
                let m := if bool_decide (e = VRT_ERR_SB_UUID_MISMATCH) then set_corrupted (ds_mem x) p else ds_mem x in
                read_sb_loop fuel' m (ds_allocs x) (<[p := (s, ds_w x)]> ws) st iter group_uuid sb_version e
            end
      end
  end.

Definition vrt_group_read_sb (m : mem) (ws : sb_devs) (st : storage_t) (group_uuid : exa_uuid_t) (sb_version : Z)
    : option (mem * nat * storage_t * result vrt_group_t) :=
  read_sb_loop (S (Z.to_nat (storage_get_num_realdevs st))) m 0 ws st storage_rdev_iterator_begin group_uuid sb_version
    VRT_ERR_NO_RDEV_TO_READ.
End reading_group.

(** ** One device *)

Definition stack_ok (stack : stack_t) : Prop :=
  junk_ok (st_header stack) ∧ (∀ k, junk_ok (st_layout stack k)) ∧ ∀ k, junk_ok (st_volumes stack k).

(** What is written for a group. *)
Definition group_data (m : mem) (stack : stack_t) (st : storage_t) (d : layout_data_t) (g : vrt_group_t) : list (list Z) :=
  group_bufs m (st_header stack) (st_layout stack) (st_volumes stack)
    (default 0 (vrt_group_serialized_size g)) st d g.

Lemma sync_rdev_saves m s w stack st g d old new :
  group_described m st g d → stack_ok stack →
  sync_rdev m s w stack g old new = save_superblock s w old new (group_data m stack st d g).
Proof.
  intros Hg (H1 & H2 & H3). unfold sync_rdev, save_superblock, group_data.
  destruct (group_sized m st g d (st_header stack) (st_layout stack) (st_volumes stack) 0 Hg H1 H2 H3) as [Es _].
  destruct (vrt_rdev_begin_superblock_write s w old new) as [[w1 [op|e]]|]; [|done..]. returned. returned.
  by rewrite (group_writes _ m st g d _ _ _ _ w1 Hg Es), Es.
Qed.

Lemma group_data_ok m stack st g d :
  group_described m st g d → stack_ok stack →
  Forall bytes_ok (group_data m stack st d g) ∧ Forall (λ b, len b < 2 ^ 62) (group_data m stack st d g).
Proof.
  intros Hg (H1 & H2 & H3). unfold group_data. split; [by apply group_bufs_ok|].
  destruct (group_sized m st g d (st_header stack) (st_layout stack) (st_volumes stack)
    (default 0 (vrt_group_serialized_size g)) Hg H1 H2 H3) as [_ Hb].
  revert Hb. generalize (group_bufs m (st_header stack) (st_layout stack) (st_volumes stack)
    (default 0 (vrt_group_serialized_size g)) st d g). intros l Hb.
  induction l as [|b l IH]; constructor; cbn [concat] in Hb; rewrite len_app in Hb;
    pose proof (len_nonneg b); pose proof (len_nonneg (concat l)); [lia|apply IH; lia].
Qed.

Section device.
Context (Q : Qsort) (alloc : nat → bool) (Halloc : ∀ n, alloc n = true).
Context (m : mem) (st : storage_t) (g : vrt_group_t) (d : layout_data_t) (Hg : group_described m st g d).
Context (stack : stack_t) (Hstack : stack_ok stack).
Context (uuid : exa_uuid_t) (Huuid : uuid_is_equal uuid (g_uuid g) = true).

(** The group is read from streams whose area holds it. *)
Lemma read_rdev_ok s w d0 v m3 n :
  streams_ok STREAM_ACCESS_RW s → sb_ok nowhere d0 (λ _, True) w → raw_reliable raw_lens w →
  lookup_sb (slice 0 SB_AREA d0) v = Ok (concat (group_data m stack st d g)) → fresh_devices m st m3 →
  ∃ x, read_rdev alloc s (mk_ds w m3 n) (unread st) uuid v = Some (x, st, Ok (restart_group g st d)) ∧ ds_mem x = m.
Proof using All.
  intros Hs Hw Hrel HD Hm. destruct Hstack as (Hj1 & Hj2 & Hj3). unfold read_rdev. cbn [ds_w ds_mem ds_allocs].
  destruct (begin_read_ok d0 (λ _, True) (λ _ _, I) STREAM_ACCESS_RW eq_refl s w v _ Hs Hw Hrel HD)
    as (w1 & i & -> & Hi & Hh & Hd & Hw1 & Hrel1 & Hp1). returned. cbn [ro_position ro_header].
  rewrite (so_data _ _ Hs i Hi).
  pose proof (data_byte nowhere d0 (λ _, True) (λ _ _, I) STREAM_ACCESS_RW eq_refl i) as BS.
  pose proof (gd_assembly _ _ _ _ Hg) as Hde. pose proof (po_st _ _ _ (sv_pool _ _ _ Hde)) as Hst.
  pose proof (reads_group Q alloc (the_data STREAM_ACCESS_RW i) _ _ _ _ Halloc m st Hst (sv_devices _ _ _ Hde) g d
    (st_header stack) (st_layout stack) (st_volumes stack) (default 0 (vrt_group_serialized_size g)) m3 uuid
    Hg Hj1 Hj2 Hj3 Hm Huuid) as HR.
  change (group_bufs _ _ _ _ _ _ _ _) with (group_data m stack st d g) in HR.
  set (D := concat (group_data m stack st d g)) in *.
  set (Bi := slice (data_start i) PER_SB (slice 0 SB_AREA d0)).
  pose proof (header_at_wf _ i (proj1 (B_ok _ _ w Hw)) (proj2 (B_ok _ _ w Hw)) Hi) as Hwf.
  pose proof (hw_size _ Hwf) as Hsz. unfold fits in Hsz.
  pose proof (holds_size d0 v i Hh ltac:(lia)) as Hsz'. pose proof (data_start_bounds i Hi) as Hb. pose proof sb_sizes as Hss.
  assert (Hlb : len (slice 0 SB_AREA d0) = SB_AREA) by exact (proj2 (B_ok _ _ w Hw)).
  assert (HlD : len D = h_data_size (header_at (slice 0 SB_AREA d0) i)).
  { rewrite <- Hd. unfold data_of. apply len_slice; lia. }
  destruct (HR (mk_ds w1 m3 n) Bi 0) as (x & E & Hat & Hmx).
  - split; [exact (proj1 (sb_cinv _ _ _ w1 i Hi Hw1))|exact Hrel1|exact (data_const d0 _ w1 i Hw1)|exact Hp1].
  - split; [unfold Bi; rewrite len_slice; lia|]. change (slice 0 (len D) Bi = D). unfold Bi. rewrite HlD, data_slice by (exact Hi || lia). exact Hd.
  - reflexivity.
  - rewrite E. returned. exists x. split; [|exact Hmx].
    unfold vrt_rdev_end_superblock_read. cbn [ro_position ro_header]. rewrite (so_data _ _ Hs i Hi).
    rewrite (bs_tell (s := the_data STREAM_ACCESS_RW i) (ds_w x) (ap_inv _ _ _ _ _ _ _ Hat)), (ap_pos _ _ _ _ _ _ _ Hat).
    rewrite HlD, Z.add_0_l, Z.eqb_refl. reflexivity.
Qed.
End device.

(** A device that is opened, and a group written to it or read from it. *)
Definition group_store (garbage : list Z) (w0 : sb_world) (b : blockdevice_t) (m : mem) (stack : stack_t) (g : vrt_group_t)
    (old new : Z) : option (blockdevice_t * result unit) :=
  '(w, r) ← vrt_rdev_open_superblock_streams (λ _, true) garbage true (Some b) w0;
  match r with
  | Err e => Some (ctx_bdev (w_raw w), Err e)
  | Ok s => '(w, r) ← sync_rdev m s w stack g old new; Some (ctx_bdev (w_raw w), r)
  end.

Definition group_load `{!Qsort} (garbage : list Z) (w0 : sb_world) (b : blockdevice_t) (m : mem) (st : storage_t)
    (uuid : exa_uuid_t) (v : Z) : option (mem * storage_t * result vrt_group_t) :=
  '(w, r) ← vrt_rdev_open_superblock_streams (λ _, true) garbage true (Some b) w0;
  match r with
  | Err e => Some (m, st, Err e)
  | Ok s => '(x, st, r) ← read_rdev (λ _, true) s (mk_ds w m 0) st uuid v; Some (ds_mem x, st, r)
  end.

Lemma group_store_eq garbage w0 b m stack st g d old new :
  group_described m st g d → stack_ok stack →
  group_store garbage w0 b m stack g old new = store garbage w0 b old new (group_data m stack st d g).
Proof.
  intros Hg Hs. unfold group_store, store.
  destruct (vrt_rdev_open_superblock_streams _ garbage true (Some b) w0) as [[w [s|e]]|]; [|done..].
  returned. returned. by rewrite (sync_rdev_saves m s w stack st g d old new Hg Hs).
Qed.

(** A device that holds the data of a group gives it back. *)
Lemma group_load_ok (Q : Qsort) garbage w0 b m stack st g d uuid v m3 :
  Superblock.rdev_ok b → (∀ n, b_io b n = IO_DONE) → group_described m st g d → stack_ok stack →
  uuid_is_equal uuid (g_uuid g) = true → fresh_devices m st m3 →
  reload garbage w0 b v = Some (Ok (concat (group_data m stack st d g))) →
  group_load garbage w0 b m3 (unread st) uuid v = Some (m, st, Ok (restart_group g st d)).
Proof.
  intros Hb Hio Hg Hst Hu Hm HD. rewrite (reload_ok garbage w0 b v Hb Hio) in HD. apply some_inj in HD.
  destruct Hb as [Hdev Hlog Hlen]. unfold group_load.
  destruct (open_ok b garbage w0 (λ _, True) Hdev Hlog Hlen) as (w & s & -> & Hs & Hw & Hr). returned.
  assert (Hrel : raw_reliable raw_lens w).
  { unfold raw_reliable, reliable. cbn [get raw_lens]. rewrite Hr. exact Hio. }
  destruct (read_rdev_ok Q (λ _, true) (λ _, eq_refl) m st g d Hg stack Hst uuid Hu s w (disk b) v m3 0 Hs Hw Hrel HD Hm)
    as (x & -> & <-). by returned.
Qed.

(** C1: the saving of a group in the superblock of a device is atomic.  A group
    [g1] was saved with version [v1].  Another one, [g2], is saved as version
    [v2]: whatever the I/Os do, and whichever of the sectors that were sent the
    device has kept when it stops, starting with version [v1] gives [g1] again;
    and if the save succeeds, starting with version [v2] gives [g2].  In both
    cases the chunks of the volumes are taken again on the devices, which are
    as they were. *)
Theorem group_sync_atomic (Q : Qsort) garbage w0 m1 m2 st1 st2 g1 g2 d1 d2 stack1 stack2 b0 b1 b v0 v1 v2 u1 u2 :
  group_described m1 st1 g1 d1 → group_described m2 st2 g2 d2 → stack_ok stack1 → stack_ok stack2 →
  uuid_is_equal u1 (g_uuid g1) = true → uuid_is_equal u2 (g_uuid g2) = true →
  Superblock.rdev_ok b0 → formatted (slice 0 SB_AREA (disk b0)) → fits 64 v1 → fits 64 v2 → v0 ≠ v1 → v1 ≠ 0 → v1 ≠ v2 →
  group_store garbage w0 b0 m1 stack1 g1 v0 v1 = Some (b1, Ok tt) → Superblock.rdev_ok b → disk b = disk b1 →
  ∃ b2 r, group_store garbage w0 b m2 stack2 g2 v1 v2 = Some (b2, r) ∧
    (∀ c m3, crash_disk (disk b) (b_log b2) c → bytes_ok c → fresh_devices m1 st1 m3 →
       group_load garbage w0 (device c) m3 (unread st1) u1 v1 = Some (m1, st1, Ok (restart_group g1 st1 d1))) ∧
    (r = Ok tt → ∀ m3, fresh_devices m2 st2 m3 →
       group_load garbage w0 (device (disk b2)) m3 (unread st2) u2 v2 = Some (m2, st2, Ok (restart_group g2 st2 d2))).
Proof.
  intros Hg1 Hg2 Hs1 Hs2 Hu1 Hu2 Hb0 Hf0 Hv1 Hv2 Hne0 Hnz Hne E1 Hb Ed.
  rewrite (group_store_eq garbage w0 b0 m1 stack1 st1 g1 d1 v0 v1 Hg1 Hs1) in E1.
  destruct (group_data_ok m1 stack1 st1 g1 d1 Hg1 Hs1) as [By1 Bl1]. destruct (group_data_ok m2 stack2 st2 g2 d2 Hg2 Hs2) as [By2 Bl2].
  destruct (store_saved garbage w0 b0 v0 v1 _ Hb0 Hf0 Hv1 Hne0 By1 Bl1) as (b1' & r1 & E1' & H1).
  rewrite E1 in E1'. apply some_inj in E1'. injection E1' as <- <-. destruct H1 as (Hf1 & HD1 & _). rewrite <- Ed in Hf1, HD1.
  rewrite (group_store_eq garbage w0 b m2 stack2 st2 g2 d2 v1 v2 Hg2 Hs2).
  destruct (store_crash_safe garbage w0 b v1 v2 _ _ Hb Hf1 Hv2 Hnz Hne By2 Bl2 HD1) as (b2 & r & E2 & Hc).
  destruct (store_saved garbage w0 b v1 v2 _ Hb Hf1 Hv2 Hne By2 Bl2) as (b2' & r' & E2' & H2).
  rewrite E2 in E2'. apply some_inj in E2'. injection E2' as <- <-.
  exists b2, r. split; [exact E2|]. split.
  - intros c m3 Hcr Hbc Hm. destruct (Hc c Hcr Hbc) as [_ HDc].
    apply (group_load_ok Q garbage w0 (device c) m1 stack1 st1 g1 d1 u1 v1 m3); try assumption.
    + exact (device_rdev b c Hb Hbc (proj1 Hcr)).
    + reflexivity.
  - intros -> m3 Hm. destruct H2 as (_ & HD2 & _).
    apply (group_load_ok Q garbage w0 (device (disk b2)) m2 stack2 st2 g2 d2 u2 v2 m3); try assumption; [|reflexivity].
    exact (store_rdev garbage w0 b v1 v2 _ b2 Hb Hf1 Hv2 By2 Bl2 E2).
Qed.
(** ** The devices of a group *)

(** The streams of a device that was just opened. *)
Definition opened (garbage : list Z) (w0 : sb_world) (b : blockdevice_t) (sw : sb_streams * sb_world) : Prop :=
  vrt_rdev_open_superblock_streams (λ _, true) garbage true (Some b) w0 = Some (sw.2, Ok sw.1).

Definition usable (m : mem) (p : Z) : bool :=
  match m !! p with Some r => rdev_is_local r && rdev_is_ok r | None => false end.

Section syncing.
Context (garbage : list Z) (w0 : sb_world) (m : mem) (st : storage_t) (g : vrt_group_t) (d : layout_data_t).
Context (Hg : group_described m st g d) (stack : Z → stack_t) (Hstack : ∀ p, stack_ok (stack p)).
Context (old new : Z) (Hnew : fits 64 new) (Hne : old ≠ new).

(** The devices [l] that are used are open and formatted. *)
Definition all_open (bs : Z → blockdevice_t) (ws : sb_devs) (l : list Z) : Prop :=
  ∀ p, p ∈ l → usable m p = true → ∃ sw, ws !! p = Some sw ∧ opened garbage w0 (bs p) sw ∧
    Superblock.rdev_ok (bs p) ∧ formatted (slice 0 SB_AREA (disk (bs p))).

(** The group is on the devices [l] that are used, as the version [new]. *)
Definition all_saved (bs : Z → blockdevice_t) (ws : sb_devs) (l : list Z) : Prop :=
  ∀ p, p ∈ l → usable m p = true → ∃ s w, ws !! p = Some (s, w) ∧
    group_store garbage w0 (bs p) m (stack p) g old new = Some (ctx_bdev (w_raw w), Ok tt).

Lemma sync_opened b s w p :
  opened garbage w0 b (s, w) → Superblock.rdev_ok b → formatted (slice 0 SB_AREA (disk b)) →
  ∃ w' r, sync_rdev m s w (stack p) g old new = Some (w', r) ∧
    group_store garbage w0 b m (stack p) g old new = Some (ctx_bdev (w_raw w'), r).
Proof using All.
  intros Ho Hb Hf. destruct (group_data_ok m (stack p) st g d Hg (Hstack p)) as [By Bl].
  destruct (store_saved garbage w0 b old new _ Hb Hf Hnew Hne By Bl) as (b' & r & E & _).
  rewrite <- (group_store_eq garbage w0 b m (stack p) st g d old new Hg (Hstack p)) in E.
  revert E. unfold group_store. unfold opened in Ho. cbn [fst snd] in Ho. rewrite Ho. returned.
  destruct (sync_rdev m s w (stack p) g old new) as [[w' r']|]; [|discriminate].
  intros _. exact (ex_intro _ w' (ex_intro _ r' (conj eq_refl eq_refl))).
Qed.

Lemma sync_loop_ok bs fuel ws it :
  storage_wf st → 0 <= spof_group_index it → 0 <= realdev_index it → (length (iter_rest st it) < fuel)%nat →
  NoDup (iter_rest st it) → (∀ p, p ∈ iter_rest st it → is_Some (m !! p)) → all_open bs ws (iter_rest st it) →
  ∃ ws' r, sync_sb_loop fuel m ws stack g st it old new = Some (ws', r) ∧
    (∀ p, p ∉ iter_rest st it → ws' !! p = ws !! p) ∧ (r = Ok tt → all_saved bs ws' (iter_rest st it)).
Proof using All.
  intros Hst. revert ws it. induction fuel as [|fuel IH]; intros ws it Hi Hj Hf Hnd Hm Ho; [lia|].
  cbn [sync_sb_loop]. destruct (iterator_next st it Hst Hi Hj) as (it' & -> & Hr & Hi' & Hj'). returned.
  destruct (iter_rest st it) as [|p l] eqn:El; cbn [head].
  { exists ws, (Ok tt). split; [done|]. split; [done|]. intros _ p Hp. by apply elem_of_nil in Hp. }
  simpl in Hr. destruct (Hm p) as [r Hmr]; [by left|]. rewrite Hmr. returned.
  apply NoDup_cons in Hnd as [Hpl Hnd]. simpl in Hf.
  assert (Hrest : ∀ ws2, (∀ q, q ≠ p → ws2 !! q = ws !! q) →
    ∃ ws' r', sync_sb_loop fuel m ws2 stack g st it' old new = Some (ws', r') ∧
      (∀ q, q ∉ iter_rest st it' → ws' !! q = ws2 !! q) ∧ (r' = Ok tt → all_saved bs ws' (iter_rest st it'))).
  { intros ws2 H2. apply IH; [done|done|rewrite Hr; lia|by rewrite Hr|rewrite Hr; intros; apply Hm; by right|].
    rewrite Hr. intros q Hq Hu. rewrite H2 by (by intros ->). apply Ho; [by right|done]. }
  rewrite Hr in Hrest. destruct (negb (rdev_is_local r) || negb (rdev_is_ok r)) eqn:Eu.
  - destruct (Hrest ws) as (ws' & r' & -> & Hk & Hs); [done|]. exists ws', r'. split; [done|]. split.
    + intros q Hq. apply Hk. set_solver.
    + intros Er q Hq Hu. apply elem_of_cons in Hq as [-> |Hq]; [|by apply (Hs Er)].
      exfalso. unfold usable in Hu. rewrite Hmr in Hu. by destruct (rdev_is_local r), (rdev_is_ok r).
  - assert (Hu : usable m p = true).
    { unfold usable. rewrite Hmr. by destruct (rdev_is_local r), (rdev_is_ok r). }
    destruct (Ho p) as ([s w] & -> & Hop & Hb & Hfm); [by left|done|]. returned.
    destruct (sync_opened (bs p) s w p Hop Hb Hfm) as (w' & r' & -> & Est). returned. destruct r' as [[]|e].
    + destruct (Hrest (<[p:=(s, w')]> ws)) as (ws' & r' & -> & Hk & Hs);
        [intros q Hq; by apply lookup_insert_ne|]. exists ws', r'. split; [done|]. split.
      * intros q Hq. apply not_elem_of_cons in Hq as [Hq1 Hq2]. rewrite (Hk q Hq2). by apply lookup_insert_ne.
      * intros Er q Hq Hu'. apply elem_of_cons in Hq as [-> |Hq]; [|by apply (Hs Er)].
        exists s, w'. split; [|exact Est]. rewrite (Hk p Hpl). apply lookup_insert_eq.
    + exists (<[p:=(s, w')]> ws), (Err e). split; [done|]. split; [|discriminate].
      intros q Hq. apply not_elem_of_cons in Hq as [Hq _]. by apply lookup_insert_ne.
Qed.
End syncing.


Section starting.
Context (Q : Qsort) (garbage : list Z) (w0 : sb_world) (m m3 : mem) (st : storage_t) (g : vrt_group_t) (d : layout_data_t).
Context (Hg : group_described m st g d) (stack : stack_t) (Hstack : stack_ok stack).
Context (uuid : exa_uuid_t) (Huuid : uuid_is_equal uuid (g_uuid g) = true) (v : Z) (ws : sb_devs).
Context (Hfresh : fresh_devices m st m3).

(** A device that works, was just opened, and gives [r] for the version [v]. *)
Definition finds (p : Z) (r : result (list Z)) : Prop :=
  ∃ b sw, ws !! p = Some sw ∧ opened garbage w0 b sw ∧ Superblock.rdev_ok b ∧ (∀ n, b_io b n = IO_DONE) ∧
    reload garbage w0 b v = Some r.

(** A device that is passed over: it is down or corrupted, or it does not have
    the version. *)
Definition passed (p : Z) : Prop :=
  ∃ r, m3 !! p = Some r ∧ (rdev_is_ok r = false ∨ finds p (Err VRT_ERR_SB_NOT_FOUND)).

Lemma opened_ok b s w :
  opened garbage w0 b (s, w) → Superblock.rdev_ok b → (∀ n, b_io b n = IO_DONE) →
  streams_ok STREAM_ACCESS_RW s ∧ sb_ok nowhere (disk b) (λ _, True) w ∧ raw_reliable raw_lens w.
Proof using.
  intros Ho [Hdev Hlog Hlen] Hio.
  destruct (open_ok b garbage w0 (λ _, True) Hdev Hlog Hlen) as (w' & s' & E & Hs & Hw & Hr).
  unfold opened in Ho. cbn [fst snd] in Ho. rewrite Ho in E. apply some_inj in E. injection E as <- <-.
  refine (conj Hs (conj Hw _)). unfold raw_reliable, reliable. cbn [get raw_lens]. rewrite Hr. exact Hio.
Qed.

Lemma read_sb_loop_passes l p l' fuel ws' it n err :
  iter_rest st it = l ++ p :: l' → storage_wf st → 0 <= spof_group_index it → 0 <= realdev_index it →
  (length (l ++ p :: l') < fuel)%nat → NoDup (l ++ p :: l') → (∀ q, q ∈ l ++ p :: l' → ws' !! q = ws !! q) →
  Forall passed l → (∃ r, m3 !! p = Some r ∧ rdev_is_ok r = true) → finds p (Ok (concat (group_data m stack st d g))) →
  ∃ n', read_sb_loop (λ _, true) fuel m3 n ws' (unread st) it uuid v err = Some (m, n', st, Ok (restart_group g st d)).
Proof using All.
  intros Hit Hst. revert fuel it ws' n err Hit. 
  assert (Hstu : storage_wf (unread st)) by (destruct Hst; by split).
  induction l as [|q l IH]; intros [|fuel] it ws' n err Hit Hi Hj Hf Hnd Hws Hp Hpok Hfind; [simpl in Hf; lia| |simpl in Hf; lia|];
    cbn [read_sb_loop]; destruct (iterator_next (unread st) it Hstu Hi Hj) as (it' & -> & Hr & Hi' & Hj'); returned;
    change (iter_rest (unread st)) with (iter_rest st) in *; rewrite Hit in Hr |- *; cbn [app head tail] in Hr |- *.
  - destruct Hpok as (r & -> & Hok). returned. rewrite Hok. cbn [negb]. rewrite Hws by (left).
    destruct Hfind as (b & [s w] & -> & Ho & Hb & Hio & HD). returned.
    destruct (opened_ok b s w Ho Hb Hio) as (Hs & Hw & Hrel).
    rewrite (reload_ok garbage w0 b v Hb Hio) in HD. apply some_inj in HD.
    destruct (read_rdev_ok Q (λ _, true) (λ _, eq_refl) m st g d Hg stack Hstack uuid Huuid s w (disk b) v m3 n
      Hs Hw Hrel HD Hfresh) as (x & -> & <-). returned. by eexists.
  - apply Forall_cons in Hp as [(r & -> & Hq) Hp]. returned. cbn [app] in Hnd, Hf, Hws. apply NoDup_cons in Hnd as [Hql Hnd].
    assert (Hgo : ∀ ws2 n2 err2, (∀ x, x ∈ l ++ p :: l' → ws2 !! x = ws !! x) →
      ∃ n', read_sb_loop (λ _, true) fuel m3 n2 ws2 (unread st) it' uuid v err2 = Some (m, n', st, Ok (restart_group g st d))).
    { intros ws2 n2 err2 H2. apply IH; try assumption. simpl in Hf. lia. }
    destruct (rdev_is_ok r) eqn:Eok; cbn [negb].
    + destruct Hq as [?|(b & [s w] & E & Ho & Hb & Hio & HD)]; [done|]. rewrite Hws by (left). rewrite E. returned.
      destruct (opened_ok b s w Ho Hb Hio) as (Hs & Hw & Hrel).
      rewrite (reload_ok garbage w0 b v Hb Hio) in HD. apply some_inj in HD. unfold read_rdev. cbn [ds_w ds_mem ds_allocs].
      destruct (begin_read_none (disk b) (λ _, True) (λ _ _, I) STREAM_ACCESS_RW eq_refl s w v Hs Hw Hrel HD) as (w1 & ->).
      returned. returned. cbn [ds_mem ds_allocs ds_w]. rewrite bool_decide_false by discriminate. apply Hgo.
      intros x Hx. rewrite lookup_insert_ne by (intros Ex; apply Hql; rewrite Ex; exact Hx). apply Hws. by right.
    + apply Hgo. intros x Hx. apply Hws. by right.
Qed.
End starting.

Definition with_sb_version (g : vrt_group_t) (v : Z) : vrt_group_t :=
  mk_group (g_uuid g) (g_name g) (g_storage g) (nb_volumes g) (g_volumes g) (g_layout g) (g_layout_data g) v.

Lemma described_version m st g d v : group_described m st g d → group_described m st (with_sb_version g v) d.
Proof. by intros []; split. Qed.

(** A save that succeeded is read back from the device. *)
Lemma saved_finds garbage w0 m st g d stack old new bs ws ws3 p sw :
  group_described m st g d → stack_ok (stack p) → fits 64 new → old ≠ new →
  Superblock.rdev_ok (bs p) → formatted (slice 0 SB_AREA (disk (bs p))) →
  group_store garbage w0 (bs p) m (stack p) g old new = Some (ws, Ok tt) →
  ws3 !! p = Some sw → opened garbage w0 (device (disk ws)) sw →
  finds garbage w0 new ws3 p (Ok (concat (group_data m (stack p) st d g))).
Proof.
  intros Hg Hs Hn Hne Hb Hf E H3 Ho. rewrite (group_store_eq _ _ _ _ _ _ _ _ _ _ Hg Hs) in E.
  destruct (group_data_ok m (stack p) st g d Hg Hs) as [By Bl].
  destruct (store_saved garbage w0 (bs p) old new _ Hb Hf Hn Hne By Bl) as (b' & r & E' & H).
  rewrite E in E'. apply some_inj in E'. injection E' as <- <-. destruct H as (_ & HD & _).
  exists (device (disk ws)), sw. split; [exact H3|]. split; [exact Ho|].
  split; [exact (store_rdev _ _ _ _ _ _ _ Hb Hf Hn By Bl E)|]. split; [reflexivity|exact HD].
Qed.

(** C17: a group that was saved is found again when it is started.  The local
    devices that work are open and formatted, and the group is saved on all of
    them as version [new].  Whatever the I/Os do, [vrt_group_sync_sb] returns; if
    it succeeds, then after a restart the group is started from the first device
    that has this version: the devices before it in the storage are down,
    corrupted or without it.  The storage, the devices, the volumes, the slots
    and the chunks are then those of the group that was saved. *)
Theorem group_started_as_synced (Q : Qsort) garbage w0 m st g d stack bs ws old new :
  group_described m st g d → (∀ p, stack_ok (stack p)) → fits 64 new → old ≠ new →
  all_open garbage w0 m bs ws (storage_rdevs st) →
  ∃ ws' r, vrt_group_sync_sb m ws stack g old new = Some (ws', with_sb_version g new, r) ∧
    (r = Ok tt → ∀ l p l', storage_rdevs st = l ++ p :: l' → usable m p = true → ∃ s w, ws' !! p = Some (s, w) ∧
      ∀ uuid m3 ws3 sw, uuid_is_equal uuid (g_uuid g) = true → fresh_devices m st m3 →
      Forall (passed garbage w0 m3 new ws3) l → ws3 !! p = Some sw →
      opened garbage w0 (device (disk (ctx_bdev (w_raw w)))) sw →
      ∃ n, vrt_group_read_sb (λ _, true) m3 ws3 (unread st) uuid new = Some (m, n, st, Ok (restart_group g st d))).
Proof.
  intros Hg Hs Hn Hne Ho. pose proof (gd_assembly _ _ _ _ Hg) as Hde. pose proof (po_st _ _ _ (sv_pool _ _ _ Hde)) as Hst.
  pose proof (po_nodup _ _ _ (sv_pool _ _ _ Hde)) as Hnd. pose proof (num_realdevs_ok st Hst) as Hnum.
  unfold vrt_group_sync_sb. change (mk_group _ _ _ _ _ _ _ new) with (with_sb_version g new).
  change (g_storage (with_sb_version g new)) with (g_storage g). rewrite (gd_storage _ _ _ _ Hg). returned.
  destruct (sync_loop_ok garbage w0 m st (with_sb_version g new) d (described_version _ _ _ _ new Hg) stack Hs old new Hn Hne bs
    (S (Z.to_nat (storage_get_num_realdevs st))) ws storage_rdev_iterator_begin Hst) as (ws' & r & -> & _ & Hsv);
    rewrite ?iter_begin_rest; try assumption; try done; [lia|exact (described_known _ _ _ Hde)|].
  returned. exists ws', r. split; [reflexivity|]. intros -> l p l' El Hp.
  rewrite iter_begin_rest in Hsv. destruct (Hsv eq_refl p) as (s & w & Hws' & Est); [rewrite El; set_solver|done|].
  exists s, w. split; [exact Hws'|]. intros uuid m3 ws3 sw Hu Hm Hl H3 Hopen. destruct (Ho p) as (sw1 & _ & _ & Hb & Hf); [rewrite El; set_solver|done|].
  unfold vrt_group_read_sb. change (storage_get_num_realdevs (unread st)) with (storage_get_num_realdevs st).
  apply (read_sb_loop_passes Q garbage w0 m m3 st (with_sb_version g new) d (described_version _ _ _ _ new Hg) (stack p) (Hs p)
    uuid Hu new ws3 Hm l p l'); rewrite <- ?El; try assumption; try done.
  - apply iter_begin_rest.
  - lia.
  - unfold usable in Hp. specialize (Hm p). rewrite bool_decide_true in Hm by (rewrite El; set_solver).
    destruct (m !! p) as [r|]; [|done]. exists (blank r). split; [exact Hm|]. by apply andb_true_iff in Hp as [_ ?].
  - exact (saved_finds garbage w0 m st _ d stack old new bs _ ws3 p sw (described_version _ _ _ _ new Hg) (Hs p) Hn Hne Hb Hf Est H3 Hopen).
Qed.

(** *** A group with one volume *)

Definition zero_stack : stack_t := mk_stack (replicate 32 0) (λ _, replicate 32 0) (λ _, replicate 32 0).

Definition one_lr (tag : Z) : rain1_realdev_t :=
  mk_lr [11; 0; 0; 0] 1 true tag (mk_rebuild_desc EXA_RDEV_REBUILD_NONE 0) (mk_progress false 0).

Definition one_data (tag : Z) : layout_data_t :=
  RAIN1_DATA (mk_rxg one_volume.2 1 8 32 tag 8 4 1 (Some (one_lr tag) :: replicate 511 None) EXA_NODESET_EMPTY EXA_NODESET_EMPTY []).

Definition one_group (tag : Z) : vrt_group_t :=
  mk_group [9; 0; 0; 0] [103; 48] (Some slot_storage) 1
    (Some (mk_vol [8; 0; 0; 0] [118; 49] 12 EXA_VOLUME_STARTED (Some 0%nat)) :: replicate 255 None) RAIN1 (Some (one_data tag)) 1.

Lemma zero_stack_ok : stack_ok zero_stack.
Proof.
  assert (H : junk_ok (replicate 32 0)) by (split; [done|apply Forall_replicate; by vm_compute]).
  exact (conj H (conj (λ _, H) (λ _, H))).
Qed.

Lemma one_group_described tag : fits 16 tag → group_described one_volume.1 slot_storage (one_group tag) (one_data tag).
Proof.
  intros Ht. assert (Hn : nodeset_ok EXA_NODESET_EMPTY) by (exists 0, 0; by split).
  split; [reflexivity|reflexivity| |exact one_volume_described| |reflexivity| | |reflexivity| |].
  - split; [reflexivity|]. exists [one_lr tag]. split; [by split|reflexivity|apply Nat.leb_le; reflexivity|reflexivity|].
    intros [|i] lr E; [|discriminate E]. apply (inj Some) in E. subst lr.
    split; [by left| |done]. destruct (one_volume.1 !! 1) as [r|] eqn:E; vm_compute in E; [|discriminate E].
    apply (inj Some) in E. subst r. by eexists.
  - apply Forall_forall. intros av Hav. apply list_elem_of_lookup in Hav as [[|i] Hi]; vm_compute in Hi;
      [|discriminate Hi]. apply (inj Some) in Hi. by subst av.
  - by apply uuid_example.
  - split; [|simpl; lia]. by repeat (constructor; [lia|]); constructor.
  - apply Nat.leb_le. reflexivity.
  - apply Forall_cons. split; [|by apply Forall_nil]. split; [by apply uuid_example| |by split|].
    { split; [|simpl; lia]. by repeat (constructor; [lia|]); constructor. }
    destruct (subspaces one_volume.2) as [|av l] eqn:E; [vm_compute in E; discriminate E|].
    exists 0%nat, av. split; [done|]. change (get_assembly_group (one_data tag)) with one_volume.2. rewrite E.
    assert (av_uuid av = [7; 0; 0; 0]) as Hu by (vm_compute in E; injection E as <- _; reflexivity).
    split; [done|]. rewrite Hu. split; [by apply uuid_example|]. cbn. by rewrite Hu.
Qed.

Lemma one_group_stored :
  ∃ b, group_store [] no_world (device first_disk) one_volume.1 zero_stack (one_group 5) 1 2 = Some (b, Ok tt).
Proof.
  rewrite (group_store_eq [] no_world _ _ _ _ _ _ _ _ (one_group_described 5 ltac:(by split)) zero_stack_ok).
  destruct (group_data_ok one_volume.1 zero_stack slot_storage (one_group 5) (one_data 5)
    (one_group_described 5 ltac:(by split)) zero_stack_ok) as [By Bl].
  destruct (store_saved [] no_world (device first_disk) 1 2 _ first_rdev first_formatted ltac:(by split) ltac:(done) By Bl)
    as (b & [[]|e] & E & H); [exact (ex_intro _ b E)|]. exfalso. destruct H as [H|[H|[_ H]]].
  - exact (H (λ _, eq_refl)).
  - apply Z.lt_nge in H. apply H, Z.leb_le. vm_compute. reflexivity.
  - specialize (H 1 (or_intror eq_refl)). cbn [device disk] in H.
    rewrite (proj2 (proj2 first_disk_ok) 1 (or_intror eq_refl)) in H.
    cbn [Z.eqb] in H. rewrite (initial_header_eq 1 (or_intror eq_refl)) in H. discriminate H.
Qed.

Lemma group_sync_atomic_witness :
  ∃ b1 b2 r,
    group_store [] no_world (device first_disk) one_volume.1 zero_stack (one_group 5) 1 2 = Some (b1, Ok tt) ∧
    group_store [] no_world (device (disk b1)) one_volume.1 zero_stack (one_group 6) 2 3 = Some (b2, r) ∧
    ∀ c, crash_disk (disk b1) (b_log b2) c → bytes_ok c →
      @group_load isort_qsort [] no_world (device c) (blank <$> slot_mem) (unread slot_storage) [9; 0; 0; 0] 2 =
      Some (one_volume.1, slot_storage, Ok (restart_group (one_group 5) slot_storage (one_data 5))).
Proof.
  destruct one_group_stored as [b1 E1].
  pose proof (one_group_described 5 ltac:(by split)) as H5. pose proof (one_group_described 6 ltac:(by split)) as H6.
  assert (Hb1 : Superblock.rdev_ok (device (disk b1))).
  { rewrite (group_store_eq [] no_world _ _ _ _ _ _ _ _ H5 zero_stack_ok) in E1.
    destruct (group_data_ok _ _ _ _ _ H5 zero_stack_ok) as [By Bl].
    exact (store_rdev [] no_world (device first_disk) 1 2 _ b1 first_rdev first_formatted ltac:(by split) By Bl E1). }
  destruct (group_sync_atomic isort_qsort [] no_world one_volume.1 one_volume.1 slot_storage slot_storage (one_group 5)
    (one_group 6) (one_data 5) (one_data 6) zero_stack zero_stack (device first_disk) b1 (device (disk b1)) 1 2 3
    [9; 0; 0; 0] [9; 0; 0; 0] H5 H6 zero_stack_ok zero_stack_ok eq_refl eq_refl first_rdev first_formatted
    ltac:(by split) ltac:(by split) ltac:(done) ltac:(done) ltac:(done) E1 Hb1 eq_refl) as (b2 & r & E2 & Hc & _).
  refine (ex_intro _ b1 (ex_intro _ b2 (ex_intro _ r (conj E1 (conj E2 _))))).
  intros c Hcr Hbc. exact (Hc c (blank <$> slot_mem) Hcr Hbc one_volume_fresh).
Defined.

Lemma group_started_as_synced_witness :
  ∃ ws ws' r,
    vrt_group_sync_sb one_volume.1 ws (λ _, zero_stack) (one_group 5) 1 2 = Some (ws', with_sb_version (one_group 5) 2, r) ∧
    (r = Ok tt → ∃ s w, ws' !! 1 = Some (s, w) ∧ ∀ sw,
      opened [] no_world (device (disk (ctx_bdev (w_raw w)))) sw →
      ∃ n, @vrt_group_read_sb isort_qsort (λ _, true) (blank <$> slot_mem) {[ 1 := sw ]} (unread slot_storage) [9; 0; 0; 0] 2 =
        Some (one_volume.1, n, slot_storage, Ok (restart_group (one_group 5) slot_storage (one_data 5)))).
Proof.
  destruct (open_ok (device first_disk) [] no_world (λ _, True) (rd_ok _ first_rdev) (rd_log _ first_rdev) (rd_len _ first_rdev))
    as (w & s & Ho & _).
  destruct (group_started_as_synced isort_qsort [] no_world one_volume.1 slot_storage (one_group 5) (one_data 5)
    (λ _, zero_stack) (λ _, device first_disk) {[ 1 := (s, w); 2 := (s, w); 3 := (s, w) ]} 1 2
    (one_group_described 5 ltac:(by split)) (λ _, zero_stack_ok) ltac:(by split) ltac:(done)) as (ws' & r & E & H).
  { intros p Hp _. exists (s, w). split; [|exact (conj Ho (conj first_rdev first_formatted))].
    by apply one_volume_devices in Hp as [->|[->| ->]]. }
  refine (ex_intro _ _ (ex_intro _ ws' (ex_intro _ r (conj E _)))). intros Hr.
  destruct (H Hr [] 1 [2; 3] eq_refl ltac:(by vm_compute)) as (s' & w' & Hw & H').
  refine (ex_intro _ s' (ex_intro _ w' (conj Hw _))). intros sw Hsw.
  exact (H' [9; 0; 0; 0] (blank <$> slot_mem) {[ 1 := sw ]} sw eq_refl one_volume_fresh (Forall_nil_2 _) (lookup_singleton_eq 1 sw) Hsw).
Defined.
