(* ===== verification/PrReserve.v ===== *)
(** * SCSI persistent reservations (target/iscsi/src/scsi_persistent_reservations.c)

    For each logical unit, the table of the sessions that registered a key,
    the persistent reservation (its type and the slot of its holder) or the
    older SPC-2 reservation, and the commands on them. Who may access the
    unit, and what the commands do to the table. Notifications to other
    sessions are outputs, a failed assertion or an access out of an array is
    [None]. Log messages are not modelled. *)
From S2P Require Import Prelude.
From stdpp Require Import options.

(** ** Constants *)

Definition PR_TYPE_NONE : Z := 0.
Definition PR_TYPE_WRITE_EXCLUSIVE : Z := 1.
Definition PR_TYPE_EXCLUSIVE_ACCESS : Z := 3.
Definition PR_TYPE_WRITE_EXCLUSIVE_REGISTRANTS_ONLY : Z := 5.
Definition PR_TYPE_EXCLUSIVE_ACCESS_REGISTRANTS_ONLY : Z := 6.
Definition PR_TYPE_WRITE_EXCLUSIVE_ALL_REGISTRANTS : Z := 7.
Definition PR_TYPE_EXCLUSIVE_ACCESS_ALL_REGISTRANTS : Z := 8.

Definition PR_OUT_REGISTER : Z := 0.
Definition PR_OUT_RESERVE : Z := 1.
Definition PR_OUT_RELEASE : Z := 2.
Definition PR_OUT_CLEAR : Z := 3.
Definition PR_OUT_PREEMPT : Z := 4.
Definition PR_OUT_PREEMPT_AND_ABORT : Z := 5.
Definition PR_OUT_REGISTER_AND_IGNORE_EXISTING_KEY : Z := 6.
Definition PR_OUT_REGISTER_AND_MOVE : Z := 7.

Definition PR_LU_SCOPE : Z := 0.

Definition PR_NEXUS_LOSS_REGISTRATION_DATA : Z := 64.
Definition CONFIG_TARGET_MAX_SESSIONS : Z := 32.
Definition WRONG_MAX_NODES : Z := 32.
Definition MAX_GLOBAL_SESSION : Z := WRONG_MAX_NODES * CONFIG_TARGET_MAX_SESSIONS.
Definition MAX_GLOBAL_SESSION_PLUS_EXTRA : Z := MAX_GLOBAL_SESSION + PR_NEXUS_LOSS_REGISTRATION_DATA.
Definition MAX_REGISTRATIONS : Z := 32.
Definition SESSION_ID_NONE : Z := MAX_GLOBAL_SESSION_PLUS_EXTRA + 1.
Definition SPC2_RESERVE_NONE : Z := u32 (-1).
Definition MAX_LUNS : Z := 256.

(** Commands and results of the SCSI standard (scsi.h) *)
Definition WRITE_6 : Z := 0x0A.
Definition WRITE_10 : Z := 0x2A.
Definition WRITE_12 : Z := 0xAA.
Definition WRITE_16 : Z := 0x8A.
Definition INQUIRY : Z := 0x12.
Definition RESERVE_6 : Z := 0x16.
Definition RELEASE_6 : Z := 0x17.
Definition PERSISTENT_RESERVE_IN : Z := 0x5E.
Definition PERSISTENT_RESERVE_OUT : Z := 0x5F.
Definition SCSI_CDB_MAX_FIXED_LENGTH : Z := 16.

Definition SCSI_STATUS_GOOD : Z := 0.
Definition SCSI_STATUS_CHECK_CONDITION : Z := 2.
Definition SCSI_STATUS_RESERVATION_CONFLICT : Z := 0x18.
Definition SCSI_SENSE_ILLEGAL_REQUEST : Z := 5.
Definition SCSI_SENSE_UNIT_ATTENTION : Z := 6.
Definition SCSI_SENSE_ASC_INVALID_FIELD_IN_CDB : Z := 0x2400.
Definition SCSI_SENSE_ASC_INVALID_RELEASE_OF_PERSISTENT_RESERVATION : Z := 0x2604.
Definition SCSI_SENSE_ASC_RESERVATIONS_RELEASED : Z := 0x2a04.
Definition SCSI_SENSE_ASC_INVALID_FIELD_IN_PARAMETER_LIST : Z := 0x2600.

(** What a command answers. *)
Inductive scsi_command_status_t :=
  | SCSI_STATUS_OK (length : Z)
  | SCSI_STATUS_ERROR (status sense asc_ascq : Z).

Definition CONFLICT : scsi_command_status_t := SCSI_STATUS_ERROR SCSI_STATUS_RESERVATION_CONFLICT 0 0.
Definition ILLEGAL (asc_ascq : Z) : scsi_command_status_t :=
  SCSI_STATUS_ERROR SCSI_STATUS_CHECK_CONDITION SCSI_SENSE_ILLEGAL_REQUEST asc_ascq.

(** ** Data *)

Record pr_registration_t := mk_reg { session_id : Z; key : Z }.

#[export] Instance pr_registration_eq_dec : EqDecision pr_registration_t.
Proof. solve_decision. Defined.

Record pr_info_t := mk_pr_info {
  reservation_type : Z;
  pr_generation : Z;
  spc2_reserve : Z;
  holder_index : Z;
  registrations : list pr_registration_t
}.

Record pr_context_t := mk_pr_context {
  pr_info : list pr_info_t;
  session_id_used : list bool
}.

(** The notification of a session, by [send_sense_data]. *)
Record sense_t := mk_sense { to_session : Z; s_status : Z; s_sense : Z; s_asc_ascq : Z }.

Definition set_registrations (p : pr_info_t) (l : list pr_registration_t) : pr_info_t :=
  mk_pr_info (reservation_type p) (pr_generation p) (spc2_reserve p) (holder_index p) l.
Definition set_reservation (p : pr_info_t) (type holder : Z) : pr_info_t :=
  mk_pr_info type (pr_generation p) (spc2_reserve p) holder (registrations p).
Definition set_spc2 (p : pr_info_t) (s : Z) : pr_info_t :=
  mk_pr_info (reservation_type p) (pr_generation p) s (holder_index p) (registrations p).

Definition no_registration : pr_registration_t := mk_reg SESSION_ID_NONE 0.

(** ** The table of registrations *)

(** [callback_send_sense_data]: what is sent does not depend on its last
    arguments. *)
Definition callback_send_sense_data (session : Z) : option (list sense_t) :=
  assert! (session <? MAX_GLOBAL_SESSION_PLUS_EXTRA);
  if MAX_GLOBAL_SESSION <? session then Some []
  else Some [mk_sense session SCSI_STATUS_CHECK_CONDITION SCSI_SENSE_UNIT_ATTENTION
               SCSI_SENSE_ASC_RESERVATIONS_RELEASED].

(** The slot of a session, as the loops find it. *)
Fixpoint find_session (l : list pr_registration_t) (s : Z) : option nat :=
  match l with
  | [] => None
  | r :: l' => if session_id r =? s then Some 0%nat else S <$> find_session l' s
  end.

(** The loop of [pr_info_add_registration]: the slot of the session, or else
    the first free one. *)
Fixpoint add_loop (l : list pr_registration_t) (i : nat) (s : Z) (first_free : option nat)
    : option nat :=
  match l with
  | [] => first_free
  | r :: l' =>
      if session_id r =? s then Some i
      else
        let first_free :=
          match first_free with
          | None => if session_id r =? SESSION_ID_NONE then Some i else None
          | Some j => Some j
          end in
        add_loop l' (S i) s first_free
  end.

(** [Some None] when there is no free slot. *)
Definition pr_info_add_registration (p : pr_info_t) (s k : Z) : option (option pr_info_t) :=
  assert! (s <? MAX_GLOBAL_SESSION);
  Some (i ← add_loop (registrations p) 0 s None;
        Some (set_registrations p (<[i := mk_reg s k]> (registrations p)))).

Definition pr_info_move_registration (p : pr_info_t) (to from : Z) : option pr_info_t :=
  assert! ((MAX_GLOBAL_SESSION <=? to) && (to <? MAX_GLOBAL_SESSION_PLUS_EXTRA)
           && (from <? MAX_GLOBAL_SESSION));
  Some (match find_session (registrations p) from with
        | Some i =>
            set_registrations p
              (alter (λ r, mk_reg to (key r)) i (registrations p))
        | None => p
        end).

Definition pr_info_del_registration (p : pr_info_t) (s : Z) : option pr_info_t :=
  assert! (s <? MAX_GLOBAL_SESSION);
  Some (match find_session (registrations p) s with
        | Some i => set_registrations p (<[i := no_registration]> (registrations p))
        | None => p
        end).

Definition pr_info_clear_registrations (p : pr_info_t) : pr_info_t :=
  mk_pr_info (reservation_type p) (pr_generation p) (spc2_reserve p) MAX_REGISTRATIONS
    (map (λ _, no_registration) (registrations p)).

Definition pr_info_has_registrations (p : pr_info_t) : bool :=
  existsb (λ r, negb (session_id r =? SESSION_ID_NONE)) (registrations p).

Definition pr_info_is_registered (p : pr_info_t) (s : Z) : option bool :=
  assert! (s <? MAX_GLOBAL_SESSION_PLUS_EXTRA);
  Some (existsb (λ r, (session_id r =? s) && negb (key r =? 0)) (registrations p)).

Definition pr_info_get_registration_key (p : pr_info_t) (s : Z) : option Z :=
  assert! (s <? MAX_GLOBAL_SESSION_PLUS_EXTRA);
  Some (match find_session (registrations p) s with
        | Some i => match registrations p !! i with Some r => key r | None => 0 end
        | None => 0
        end).

Definition holder_slot (p : pr_info_t) : option pr_registration_t :=
  assert! (holder_index p <? MAX_REGISTRATIONS);
  registrations p !! Z.to_nat (holder_index p).

Definition pr_info_get_holder_key (p : pr_info_t) : option Z := r ← holder_slot p; Some (key r).

Definition pr_info_get_holder_id (p : pr_info_t) : option Z := r ← holder_slot p; Some (session_id r).

Definition pr_info_set_holder (p : pr_info_t) (s : Z) : option pr_info_t :=
  assert! (s <? MAX_GLOBAL_SESSION_PLUS_EXTRA);
  i ← find_session (registrations p) s;
  Some (set_reservation p (reservation_type p) (Z.of_nat i)).

(** ** Commands *)

Definition check_registration (p : pr_info_t) (s reservation_key service_action : Z) : option Z :=
  is_registered ← pr_info_is_registered p s;
  current_key ← pr_info_get_registration_key p s;
  assert! (s <? MAX_GLOBAL_SESSION);
  Some (
    if negb (service_action =? PR_OUT_REGISTER_AND_IGNORE_EXISTING_KEY)
       && is_registered && negb (current_key =? reservation_key)
    then SCSI_STATUS_RESERVATION_CONFLICT
    else if negb (service_action =? PR_OUT_REGISTER_AND_IGNORE_EXISTING_KEY)
            && negb (service_action =? PR_OUT_REGISTER) && negb is_registered
    then SCSI_STATUS_RESERVATION_CONFLICT
    else SCSI_STATUS_GOOD).

Definition one_holder_type (t : Z) : bool :=
  (t =? PR_TYPE_WRITE_EXCLUSIVE) || (t =? PR_TYPE_EXCLUSIVE_ACCESS)
  || (t =? PR_TYPE_WRITE_EXCLUSIVE_REGISTRANTS_ONLY)
  || (t =? PR_TYPE_EXCLUSIVE_ACCESS_REGISTRANTS_ONLY).

Definition all_registrants_type (t : Z) : bool :=
  (t =? PR_TYPE_WRITE_EXCLUSIVE_ALL_REGISTRANTS) || (t =? PR_TYPE_EXCLUSIVE_ACCESS_ALL_REGISTRANTS).

Definition registrants_only_type (t : Z) : bool :=
  (t =? PR_TYPE_WRITE_EXCLUSIVE_REGISTRANTS_ONLY) || (t =? PR_TYPE_EXCLUSIVE_ACCESS_REGISTRANTS_ONLY).

Definition persistent_is_holder (p : pr_info_t) (s : Z) : option bool :=
  assert! (s <? MAX_GLOBAL_SESSION);
  if one_holder_type (reservation_type p) then
    id ← pr_info_get_holder_id p; Some (id =? s)
  else if all_registrants_type (reservation_type p) then pr_info_is_registered p s
  else Some false.

Definition get_holder_key (p : pr_info_t) : option Z :=
  if one_holder_type (reservation_type p) then pr_info_get_holder_key p else Some 0.

Definition is_lun_reserved (p : pr_info_t) : bool := negb (reservation_type p =? PR_TYPE_NONE).

(** [cdb0]: the operation code. *)
Definition pr_check_rights (p : pr_info_t) (cdb0 s : Z) : option bool :=
  assert! (s <? MAX_GLOBAL_SESSION);
  let write := (cdb0 =? WRITE_6) || (cdb0 =? WRITE_10) || (cdb0 =? WRITE_12) || (cdb0 =? WRITE_16) in
  let t := reservation_type p in
  if negb (spc2_reserve p =? SPC2_RESERVE_NONE) then
    Some (negb (negb (u32 s =? spc2_reserve p) && negb (cdb0 =? INQUIRY)))
  else if (cdb0 =? PERSISTENT_RESERVE_OUT) || (cdb0 =? PERSISTENT_RESERVE_IN) then Some true
  else if t =? PR_TYPE_NONE then Some true
  else if (t =? PR_TYPE_WRITE_EXCLUSIVE) || (t =? PR_TYPE_EXCLUSIVE_ACCESS) then
    if (t =? PR_TYPE_WRITE_EXCLUSIVE) && negb write then Some true else persistent_is_holder p s
  else if registrants_only_type t then
    if (t =? PR_TYPE_WRITE_EXCLUSIVE_REGISTRANTS_ONLY) && negb write then Some true
    else pr_info_is_registered p s
  else if all_registrants_type t then
    if (t =? PR_TYPE_WRITE_EXCLUSIVE_ALL_REGISTRANTS) && negb write then Some true
    else pr_info_is_registered p s
  else Some false.

(** [None]: assertion; [Some (p, false)]: conflict. *)
Definition persistent_reserve_lun (p : pr_info_t) (s access_type : Z) : option (pr_info_t * bool) :=
  assert! (s <? MAX_GLOBAL_SESSION);
  is_holder ← (if is_lun_reserved p then persistent_is_holder p s else Some false);
  if is_lun_reserved p && negb is_holder then Some (p, false)
  else if is_lun_reserved p && is_holder && negb (reservation_type p =? access_type) then Some (p, false)
  else
    p ← pr_info_set_holder (set_reservation p access_type (holder_index p)) s;
    Some (p, true).

(** The sessions of [ids] that are told. *)
Fixpoint notify (ids : list Z) : option (list sense_t) :=
  match ids with
  | [] => Some []
  | id :: ids' => n ← callback_send_sense_data id; l ← notify ids'; Some (n ++ l)
  end.

Definition other_sessions (p : pr_info_t) (s : Z) : list Z :=
  List.filter (λ id, negb (id =? SESSION_ID_NONE) && negb (id =? s)) (map session_id (registrations p)).

Definition persistent_release_lun (p : pr_info_t) (s type : Z)
    : option (pr_info_t * scsi_command_status_t * list sense_t) :=
  assert! (s <? MAX_GLOBAL_SESSION);
  is_holder ← (if is_lun_reserved p then persistent_is_holder p s else Some false);
  if is_lun_reserved p && negb is_holder then Some (p, CONFLICT, [])
  else if is_lun_reserved p && is_holder && negb (type =? reservation_type p) then
    Some (p, ILLEGAL SCSI_SENSE_ASC_INVALID_RELEASE_OF_PERSISTENT_RESERVATION, [])
  else
    told ← (if negb (reservation_type p =? PR_TYPE_WRITE_EXCLUSIVE)
               && negb (reservation_type p =? PR_TYPE_EXCLUSIVE_ACCESS)
            then notify (other_sessions p s) else Some []);
    Some (set_reservation p PR_TYPE_NONE MAX_REGISTRATIONS, SCSI_STATUS_OK 0, told).

(** Whether a preemption removes the registration. *)
Definition preempted (s service_action_key : Z) (r : pr_registration_t) : bool :=
  ((service_action_key =? key r) || (service_action_key =? 0))
  && negb (session_id r =? s) && negb (session_id r =? SESSION_ID_NONE).

Definition persistent_preempt_lun (p : pr_info_t) (s service_action_key access_type : Z)
    : option (pr_info_t * scsi_command_status_t * list sense_t) :=
  assert! (s <? MAX_GLOBAL_SESSION);
  let all_registrants := all_registrants_type (reservation_type p) in
  if negb all_registrants && (service_action_key =? 0) then
    Some (p, ILLEGAL SCSI_SENSE_ASC_INVALID_FIELD_IN_PARAMETER_LIST, [])
  else
    let removed := List.filter (preempted s service_action_key) (registrations p) in
    told ← notify (map session_id removed);
    let p := set_registrations p
      (map (λ r, if preempted s service_action_key r then no_registration else r) (registrations p)) in
    if negb (is_lun_reserved p) then Some (p, SCSI_STATUS_OK 0, told)
    else
      holder_key ← (if all_registrants then Some 0 else get_holder_key p);
      if (all_registrants && (service_action_key =? 0))
         || (negb all_registrants && (service_action_key =? holder_key))
      then
        p ← pr_info_set_holder p s;
        Some (set_reservation p access_type (holder_index p), SCSI_STATUS_OK 0, told)
      else Some (p, SCSI_STATUS_OK 0, told).

Definition persistent_clear_lun (p : pr_info_t) (s : Z)
    : option (pr_info_t * scsi_command_status_t * list sense_t) :=
  assert! (s <? MAX_GLOBAL_SESSION);
  told ← notify (other_sessions p s);
  let p := set_registrations p (map (λ _, no_registration) (registrations p)) in
  Some (set_reservation p PR_TYPE_NONE MAX_REGISTRATIONS, SCSI_STATUS_OK 0, told).

(** The other sessions of the table that are in use. *)
Fixpoint used_sessions (used : list bool) (ids : list Z) : option (list Z) :=
  match ids with
  | [] => Some []
  | id :: ids' =>
      u ← used !! Z.to_nat id;
      l ← used_sessions used ids';
      Some (if u : bool then id :: l else l)
  end.

Definition persistent_register_lun (used : list bool) (p : pr_info_t) (s service_action_key : Z)
    : option (pr_info_t * scsi_command_status_t * list sense_t) :=
  assert! (s <? MAX_GLOBAL_SESSION);
  if negb (service_action_key =? 0) then
    r ← pr_info_add_registration p s service_action_key;
    p ← r;
    Some (p, SCSI_STATUS_OK 0, [])
  else
    '(p, told) ←
      (if is_lun_reserved p then
         is_holder ← persistent_is_holder p s;
         '(remove_registration, told) ←
           (if all_registrants_type (reservation_type p) then
              others ← used_sessions used (other_sessions p s);
              Some (is_holder && bool_decide (others = []), [])
            else if registrants_only_type (reservation_type p) then
              others ← used_sessions used (other_sessions p s);
              told ← notify others;
              Some (is_holder, told)
            else Some (is_holder, []));
         Some (if remove_registration : bool
               then pr_info_clear_registrations (set_reservation p PR_TYPE_NONE (holder_index p)) else p,
               told)
       else Some (p, []));
    p ← pr_info_del_registration p s;
    Some (p, SCSI_STATUS_OK 0, told).

Definition can_use_spc2_reserve (p : pr_info_t) (s : Z) : option bool :=
  assert! (s <? MAX_GLOBAL_SESSION);
  Some (negb (is_lun_reserved p || pr_info_has_registrations p)).

Definition persistent_spc2_reserve_lun (p : pr_info_t) (s : Z) : option (pr_info_t * bool) :=
  assert! (s <? MAX_GLOBAL_SESSION);
  can ← can_use_spc2_reserve p s;
  if negb can then Some (p, false)
  else if negb (spc2_reserve p =? SPC2_RESERVE_NONE) && negb (spc2_reserve p =? u32 s) then Some (p, false)
  else Some (set_spc2 p (u32 s), true).

Definition persistent_spc2_release_lun (p : pr_info_t) (s : Z) : option (pr_info_t * bool) :=
  assert! (s <? MAX_GLOBAL_SESSION);
  can ← can_use_spc2_reserve p s;
  if negb can then Some (p, false)
  else if negb (spc2_reserve p =? SPC2_RESERVE_NONE) && negb (spc2_reserve p =? u32 s) then Some (p, false)
  else Some (set_spc2 p SPC2_RESERVE_NONE, true).

Definition pr_reset_lun_reservation (p : pr_info_t) : pr_info_t := set_spc2 p SPC2_RESERVE_NONE.

(** *** The command block (endianness.h) *)

Definition get_bigendian16 (b : list Z) (i : nat) : option Z :=
  b0 ← b !! i; b1 ← b !! (i + 1)%nat; Some (u16 (b1 + Z.shiftl b0 8)).

Definition get_bigendian32 (b : list Z) (i : nat) : option Z :=
  h ← get_bigendian16 b i; l ← get_bigendian16 b (i + 2); Some (Z.lor (u32 (Z.shiftl h 16)) l).

Definition get_bigendian64 (b : list Z) (i : nat) : option Z :=
  h ← get_bigendian32 b i; l ← get_bigendian32 b (i + 4); Some (Z.lor (u64 (Z.shiftl h 32)) l).

(** What [pr_reserve_out] reads in the block of [PERSISTENT RESERVE OUT]. *)
Record pr_out_t := mk_pr_out {
  service_action : Z;
  pr_scope : Z;
  pr_type : Z;
  reservation_key : Z;
  service_action_key : Z;
  spec_i_pt : Z
}.

Definition parse_pr_out (cdb : list Z) : option pr_out_t :=
  b1 ← cdb !! 1%nat;
  b2 ← cdb !! 2%nat;
  rk ← get_bigendian64 cdb (Z.to_nat SCSI_CDB_MAX_FIXED_LENGTH);
  sk ← get_bigendian64 cdb (Z.to_nat SCSI_CDB_MAX_FIXED_LENGTH + 8);
  flags ← cdb !! (Z.to_nat SCSI_CDB_MAX_FIXED_LENGTH + 20)%nat;
  Some (mk_pr_out (Z.land b1 0x1f) (Z.shiftr b2 4) (Z.land b2 0xf) rk sk (Z.land (Z.shiftr flags 3) 1)).

Definition status_of (ok : bool) : scsi_command_status_t := if ok then SCSI_STATUS_OK 0 else CONFLICT.

(** The service actions, once scope and registration are checked. *)
Definition pr_service_action (used : list bool) (p : pr_info_t) (s : Z) (c : pr_out_t)
    : option (pr_info_t * scsi_command_status_t * list sense_t) :=
  let a := service_action c in
  if a =? PR_OUT_REGISTER then
    if spec_i_pt c =? 0 then persistent_register_lun used p s (service_action_key c)
    else if negb (reservation_key c =? 0) then Some (p, ILLEGAL SCSI_SENSE_ASC_INVALID_FIELD_IN_CDB, [])
    else persistent_register_lun used p s (service_action_key c)
  else if a =? PR_OUT_REGISTER_AND_IGNORE_EXISTING_KEY then
    is_registered ← (if service_action_key c =? 0 then pr_info_is_registered p s else Some true);
    if (service_action_key c =? 0) && negb is_registered then Some (p, SCSI_STATUS_OK 0, [])
    else if spec_i_pt c =? 1 then Some (p, ILLEGAL SCSI_SENSE_ASC_INVALID_FIELD_IN_CDB, [])
    else persistent_register_lun used p s (service_action_key c)
  else if a =? PR_OUT_RESERVE then
    '(p, ok) ← persistent_reserve_lun p s (pr_type c); Some (p, status_of ok, [])
  else if a =? PR_OUT_RELEASE then persistent_release_lun p s (pr_type c)
  else if a =? PR_OUT_CLEAR then persistent_clear_lun p s
  else if (a =? PR_OUT_PREEMPT) || (a =? PR_OUT_PREEMPT_AND_ABORT) then
    persistent_preempt_lun p s (service_action_key c) (pr_type c)
  else Some (p, ILLEGAL 0, []).

Definition is_good (st : scsi_command_status_t) : bool :=
  match st with SCSI_STATUS_OK _ => true | SCSI_STATUS_ERROR st _ _ => st =? SCSI_STATUS_GOOD end.

Definition pr_persistent_reserve_out (used : list bool) (p : pr_info_t) (s : Z) (c : pr_out_t)
    : option (pr_info_t * scsi_command_status_t * list sense_t) :=
  let a := service_action c in
  if negb (pr_scope c =? PR_LU_SCOPE) && negb (a =? PR_OUT_REGISTER)
     && negb (a =? PR_OUT_REGISTER_AND_IGNORE_EXISTING_KEY) && negb (a =? PR_OUT_CLEAR)
  then Some (p, ILLEGAL SCSI_SENSE_ASC_INVALID_FIELD_IN_CDB, [])
  else
    ok ← check_registration p s (reservation_key c) a;
    if negb (ok =? SCSI_STATUS_GOOD) then Some (p, CONFLICT, [])
    else
      '(p, st, told) ← pr_service_action used p s c;
      let p := if is_good st && negb (a =? PR_OUT_RESERVE) && negb (a =? PR_OUT_RELEASE)
               then mk_pr_info (reservation_type p) (u32 (pr_generation p + 1)) (spc2_reserve p)
                      (holder_index p) (registrations p) else p in
      Some (p, st, told).

(** [pr_reserve_out]; a command of another kind does nothing. *)
Definition pr_reserve_out (ctx : pr_context_t) (lun : Z) (cdb : list Z) (s : Z)
    : option (pr_context_t * option scsi_command_status_t * list sense_t) :=
  assert! (s <? MAX_GLOBAL_SESSION);
  p ← pr_info ctx !! Z.to_nat lun;
  cdb0 ← cdb !! 0%nat;
  let back p := mk_pr_context (<[Z.to_nat lun := p]> (pr_info ctx)) (session_id_used ctx) in
  if cdb0 =? RESERVE_6 then
    '(p, ok) ← persistent_spc2_reserve_lun p s; Some (back p, Some (status_of ok), [])
  else if cdb0 =? RELEASE_6 then
    '(p, ok) ← persistent_spc2_release_lun p s; Some (back p, Some (status_of ok), [])
  else if cdb0 =? PERSISTENT_RESERVE_OUT then
    c ← parse_pr_out cdb;
    '(p, st, told) ← pr_persistent_reserve_out (session_id_used ctx) p s c;
    Some (back p, Some st, told)
  else Some (ctx, None, []).

(** *** What an initiator reads *)

Definition PR_IN_READ_KEYS : Z := 0.
Definition PR_IN_READ_RESERVATION : Z := 1.
Definition PR_IN_REPORT_CAPABILITIES : Z := 2.
Definition PR_IN_READ_REPORT_CAPABILITIES_WR_EX_RO : Z := 0x20.
Definition PR_IN_READ_REPORT_CAPABILITIES_SIP_C : Z := 0x08.

(** Bytes stored from an offset on; none may fall outside the buffer. *)
Definition store (bs : list Z) (off : nat) (b : list Z) : option (list Z) :=
  assert! bool_decide (off + length bs <= length b)%nat;
  Some (list_inserts off bs b).

Definition byte_of (v n : Z) : Z := Z.land (Z.shiftr v n) 0xff.

Definition set_bigendian16 (v : Z) : nat → list Z → option (list Z) :=
  store [Z.shiftr (u16 v) 8; Z.land (u16 v) 0xff].
Definition set_bigendian32 (v : Z) : nat → list Z → option (list Z) :=
  store (map (byte_of (u32 v)) [24; 16; 8; 0]).
Definition set_bigendian64 (v : Z) : nat → list Z → option (list Z) :=
  store (map (byte_of (u64 v)) [56; 48; 40; 32; 24; 16; 8; 0]).

(** The loop of READ KEYS. *)
Fixpoint read_keys_loop (used : list bool) (l : list pr_registration_t) (data_out : list Z) (add_len : nat)
    : option (list Z * nat) :=
  match l with
  | [] => Some (data_out, add_len)
  | r :: l' =>
      active ← (if negb (session_id r =? SESSION_ID_NONE) && negb (key r =? 0)
                then used !! Z.to_nat (session_id r) else Some false);
      if active : bool then
        data_out ← set_bigendian64 (key r) (add_len + 8) data_out;
        read_keys_loop used l' data_out (add_len + 8)
      else read_keys_loop used l' data_out add_len
  end.

Definition pr_reserve_in (ctx : pr_context_t) (lun : Z) (cdb data_out : list Z) (s : Z)
    : option (list Z * scsi_command_status_t) :=
  p ← pr_info ctx !! Z.to_nat lun;
  b1 ← cdb !! 1%nat;
  alloc_len ← get_bigendian16 cdb 7;
  assert! (s <? MAX_GLOBAL_SESSION);
  let service_action := Z.land b1 0x1f in
  if service_action =? PR_IN_READ_KEYS then
    data_out ← set_bigendian32 (pr_generation p) 0 data_out;
    '(data_out, add_len) ← read_keys_loop (session_id_used ctx) (registrations p) data_out 0;
    data_out ← set_bigendian32 (Z.of_nat add_len) 4 data_out;
    Some (data_out, SCSI_STATUS_OK ((Z.of_nat add_len + 8) `min` alloc_len))
  else if service_action =? PR_IN_READ_RESERVATION then
    data_out ← set_bigendian32 (pr_generation p) 0 data_out;
    if negb (is_lun_reserved p) then
      data_out ← set_bigendian32 0 4 data_out;
      Some (data_out, SCSI_STATUS_OK 8)
    else
      data_out ← set_bigendian32 16 4 data_out;
      holder ← get_holder_key p;
      data_out ← set_bigendian64 holder 8 data_out;
      data_out ← set_bigendian64 0 16 data_out;
      data_out ← store [Z.land (Z.lor (Z.shiftl PR_LU_SCOPE 4) (reservation_type p)) 0xff] 21 data_out;
      Some (data_out, SCSI_STATUS_OK (24 `min` alloc_len))
  else if service_action =? PR_IN_REPORT_CAPABILITIES then
    data_out ← set_bigendian16 8 0 data_out;
    data_out ← store [PR_IN_READ_REPORT_CAPABILITIES_SIP_C] 2 data_out;
    data_out ← store [0] 3 data_out;
    data_out ← set_bigendian16 PR_IN_READ_REPORT_CAPABILITIES_WR_EX_RO 4 data_out;
    data_out ← set_bigendian16 0 6 data_out;
    Some (data_out, SCSI_STATUS_OK 8)
  else Some (data_out, ILLEGAL 0).

(** ** Sessions *)

Definition pr_context_alloc : pr_context_t :=
  mk_pr_context
    (replicate (Z.to_nat MAX_LUNS)
       (pr_info_clear_registrations
          (mk_pr_info PR_TYPE_NONE 0 SPC2_RESERVE_NONE 0
             (replicate (Z.to_nat MAX_REGISTRATIONS) (mk_reg 0 0)))))
    (replicate (Z.to_nat MAX_GLOBAL_SESSION_PLUS_EXTRA) false).

(** An element of [session_id_used] is set. *)
Definition set_used (used : list bool) (s : Z) (u : bool) : option (list bool) :=
  assert! bool_decide (Z.to_nat s < length used)%nat;
  Some (<[Z.to_nat s := u]> used).

Definition pr_add_session (ctx : pr_context_t) (s : Z) : option pr_context_t :=
  assert! (s <? MAX_GLOBAL_SESSION);
  infos ← mapM (λ p, pr_info_del_registration p s) (pr_info ctx);
  used ← set_used (session_id_used ctx) s true;
  Some (mk_pr_context infos used).

Definition session_has_reserve_data (ctx : pr_context_t) (s : Z) : option bool :=
  assert! (s <? MAX_GLOBAL_SESSION_PLUS_EXTRA);
  u ← session_id_used ctx !! Z.to_nat s;
  if negb u then Some false
  else
    foldr (λ p (rest : bool → option bool) pending_registration,
             r ← pr_info_is_registered p s; rest (if r : bool then false else pending_registration))
          Some (pr_info ctx) false.

Definition move_in_lun (from to : Z) (p : pr_info_t) : option pr_info_t :=
  p ← pr_info_move_registration p to from;
  Some (if spc2_reserve p =? u32 from then set_spc2 p (u32 to) else p).

Definition persistent_reserve_move_session (ctx : pr_context_t) (from to : Z) : option pr_context_t :=
  assert! (from <? MAX_GLOBAL_SESSION);
  assert! (to <? MAX_GLOBAL_SESSION_PLUS_EXTRA);
  u ← session_id_used ctx !! Z.to_nat from;
  used ← set_used (session_id_used ctx) to u;
  used ← set_used used from false;
  infos ← mapM (move_in_lun from to) (pr_info ctx);
  Some (mk_pr_context infos used).

(** The first identifier from [id] on, of [n], that keeps no registration. *)
Fixpoint find_free_session (ctx : pr_context_t) (n : nat) (id : Z) : option Z :=
  match n with
  | O => Some id
  | S n' =>
      has ← session_has_reserve_data ctx id;
      if negb has then Some id else find_free_session ctx n' (id + 1)
  end.

Definition pr_del_session (ctx : pr_context_t) (s : Z) : option pr_context_t :=
  assert! (s <? MAX_GLOBAL_SESSION);
  has ← session_has_reserve_data ctx s;
  if negb has then
    used ← set_used (session_id_used ctx) s false;
    Some (mk_pr_context (pr_info ctx) used)
  else
    free_session_id ← find_free_session ctx (Z.to_nat PR_NEXUS_LOSS_REGISTRATION_DATA) MAX_GLOBAL_SESSION;
    if MAX_GLOBAL_SESSION_PLUS_EXTRA <=? free_session_id then Some ctx
    else persistent_reserve_move_session ctx s free_session_id.

(** [pr_reset_lun_reservation] on the context. *)
Definition pr_reset_lun (ctx : pr_context_t) (lun : Z) : option pr_context_t :=
  p ← pr_info ctx !! Z.to_nat lun;
  Some (mk_pr_context (<[Z.to_nat lun := pr_reset_lun_reservation p]> (pr_info ctx)) (session_id_used ctx)).
