(* ===== verification/PrUnit.v ===== *)
(** * The unit that the reservations implement

    The table of a unit as a map from sessions to keys and a holder, what
    SPC-3 says the commands do to it, and each command of PrReserve.v
    against that, with the two that do otherwise ([wipes],
    [preempts_holder]) set apart. *)
From S2P Require Import Prelude PrReserve.
From stdpp Require Import options.

(** ** The table and the keys it holds *)

(** The key of each registered session: what an initiator can see of a table,
    whatever the slots. *)
Fixpoint keys_of (l : list pr_registration_t) : gmap Z Z :=
  match l with
  | [] => ∅
  | r :: l' => if session_id r =? SESSION_ID_NONE then keys_of l' else <[session_id r := key r]> (keys_of l')
  end.

Definition slot_ok (r : pr_registration_t) : Prop :=
  r = no_registration ∨ (0 <= session_id r < MAX_GLOBAL_SESSION ∧ key r ≠ 0 ∧ fits 64 (key r)).

Definition one_slot_each (l : list pr_registration_t) : Prop :=
  ∀ i j r r', l !! i = Some r → l !! j = Some r' → session_id r = session_id r' →
    session_id r ≠ SESSION_ID_NONE → i = j.

(** A table: no session twice, keys of the sessions not null. *)
Record table_ok (l : list pr_registration_t) : Prop := {
  table_length : length l = Z.to_nat MAX_REGISTRATIONS;
  table_slots : Forall slot_ok l;
  table_once : one_slot_each l
}.

(** Some slots of [l] are freed. *)
Definition freed (l l' : list pr_registration_t) : Prop :=
  Forall2 (λ r r', r' = r ∨ r' = no_registration) l l'.

Definition table_full (l : list pr_registration_t) : bool :=
  forallb (λ r, negb (session_id r =? SESSION_ID_NONE)) l.

Definition valid_session (s : Z) : Prop := 0 <= s < MAX_GLOBAL_SESSION.

Lemma session_not_none s : valid_session s → s ≠ SESSION_ID_NONE.
Proof. intros H ->. by destruct H as [_ H]. Qed.

Lemma session_below s : valid_session s → (s <? MAX_GLOBAL_SESSION) = true.
Proof. unfold valid_session. lia. Qed.

Lemma session_below_extra s : valid_session s → (s <? MAX_GLOBAL_SESSION_PLUS_EXTRA) = true.
Proof.
  unfold valid_session, MAX_GLOBAL_SESSION_PLUS_EXTRA, PR_NEXUS_LOSS_REGISTRATION_DATA. lia.
Qed.

Create HintDb pr.
#[export] Hint Resolve session_not_none session_below session_below_extra : pr.

Lemma one_slot_each_tail r l : one_slot_each (r :: l) → one_slot_each l.
Proof. intros H i j a b Hi Hj He Hn. specialize (H (S i) (S j) a b Hi Hj He Hn). lia. Qed.

Lemma lookup_keys_of l s k :
  one_slot_each l → s ≠ SESSION_ID_NONE →
  keys_of l !! s = Some k ↔ ∃ i, l !! i = Some (mk_reg s k).
Proof.
  intros Hu Hs. induction l as [|r l IH]; simpl.
  { rewrite lookup_empty. split; [done|]. by intros [i Hi]; rewrite lookup_nil in Hi. }
  specialize (IH (one_slot_each_tail _ _ Hu)).
  destruct (session_id r =? SESSION_ID_NONE) eqn:E.
  - rewrite IH. split; [intros [i Hi]; by exists (S i)|].
    intros [[|i] Hi]; [|by exists i]. simpl in Hi. simplify_eq. simpl in E. lia.
  - destruct (decide (session_id r = s)) as [<-|Hne].
    + rewrite lookup_insert_eq. split.
      * intros [= <-]. exists 0%nat. by destruct r.
      * intros [i Hi]. assert (i = 0%nat) as -> by (eapply (Hu i 0%nat); [exact Hi|done|done|done]).
        injection Hi as Hr. by rewrite Hr.
    + rewrite lookup_insert_ne, IH by done. split; [intros [i Hi]; by exists (S i)|].
      intros [[|i] Hi]; [|by exists i]. simpl in Hi. by simplify_eq/=.
Qed.

Lemma keys_of_none l : keys_of l !! SESSION_ID_NONE = None.
Proof.
  induction l as [|r l IH]; simpl; [done|].
  destruct (session_id r =? SESSION_ID_NONE) eqn:E; [done|]. rewrite lookup_insert_ne; [done|lia].
Qed.

Lemma find_session_Some l s i :
  find_session l s = Some i → ∃ k, l !! i = Some (mk_reg s k).
Proof.
  revert i. induction l as [|r l IH]; simpl; [done|]. intros i.
  destruct (session_id r =? s) eqn:E.
  - intros [= <-]. exists (key r). destruct r. simpl in *. do 2 f_equal. lia.
  - destruct (find_session l s) as [j|]; simpl; [|done]. intros [= <-]. by apply IH.
Qed.

Lemma find_session_None l s :
  find_session l s = None ↔ ∀ i r, l !! i = Some r → session_id r ≠ s.
Proof.
  induction l as [|r l IH]; simpl; [done|].
  destruct (session_id r =? s) eqn:E.
  - split; [done|]. intros H. exfalso. apply (H 0%nat r); [done|lia].
  - rewrite fmap_None, IH. split.
    + intros H [|i] r' Hi; [simplify_eq/=; lia|by apply (H i)].
    + intros H i r' Hi. by apply (H (S i)).
Qed.

Lemma find_session_keys l s :
  one_slot_each l → s ≠ SESSION_ID_NONE →
  keys_of l !! s = (i ← find_session l s; r ← l !! i; Some (key r)).
Proof.
  intros Hu Hs. destruct (find_session l s) as [i|] eqn:E; simpl.
  - destruct (find_session_Some _ _ _ E) as [k Hk]. rewrite Hk. simpl. apply lookup_keys_of; [done..|by exists i].
  - destruct (keys_of l !! s) as [k|] eqn:Ek; [|done].
    apply lookup_keys_of in Ek as [i Hi]; [|done..].
    by apply (proj1 (find_session_None _ _) E) in Hi.
Qed.

Lemma is_registered_keys p s :
  table_ok (registrations p) → valid_session s →
  pr_info_is_registered p s = Some (bool_decide (is_Some (keys_of (registrations p) !! s))).
Proof.
  intros [Hl Hs Hu] Hv. unfold pr_info_is_registered. rewrite (session_below_extra s Hv). simpl. f_equal.
  apply eq_true_iff_eq. rewrite existsb_exists, bool_decide_eq_true. split.
  - intros (r & [i Hi]%list_elem_of_In%list_elem_of_lookup & Hr).
    apply andb_true_iff in Hr as [Hid _]. exists (key r).
    apply lookup_keys_of; [done|by apply session_not_none|]. exists i. rewrite Hi.
    destruct r. simpl in *. do 2 f_equal. lia.
  - intros [k [i Hi]%lookup_keys_of]; [|done|by apply session_not_none].
    exists (mk_reg s k). split; [by apply list_elem_of_In, list_elem_of_lookup; exists i|].
    destruct (proj1 (Forall_lookup _ _) Hs i _ Hi) as [[= -> ->]|(_ & Hk & _)]; simpl in *.
    + by destruct (session_not_none _ Hv).
    + rewrite Z.eqb_refl. simpl. lia.
Qed.

Lemma registration_key_keys p s :
  table_ok (registrations p) → valid_session s →
  pr_info_get_registration_key p s = Some (default 0 (keys_of (registrations p) !! s)).
Proof.
  intros [Hl Hs Hu] Hv. unfold pr_info_get_registration_key. rewrite (session_below_extra s Hv). simpl. f_equal.
  rewrite find_session_keys by eauto with pr.
  destruct (find_session _ s) as [i|]; simpl; [|done]. by destruct (registrations p !! i).
Qed.

(** *** Changes of the table *)

Lemma one_slot_each_insert l i s k :
  one_slot_each l → (∀ j r, l !! j = Some r → session_id r = s → j = i) →
  one_slot_each (<[i := mk_reg s k]> l).
Proof.
  intros Hu Hi a b r r' Ha Hb He Hn.
  apply list_lookup_insert_Some in Ha as [(<- & <- & _)|[Ha1 Ha]];
    apply list_lookup_insert_Some in Hb as [(<- & <- & _)|[Hb1 Hb]]; [done| | |].
  - symmetry. by eapply Hi.
  - by eapply Hi.
  - by eapply Hu.
Qed.

Lemma freed_table l l' : freed l l' → table_ok l → table_ok l'.
Proof.
  intros Hf [Hl Hs Hu]. split.
  - by rewrite <- (Forall2_length _ _ _ Hf).
  - apply Forall_lookup. intros i r' Hr'.
    destruct (Forall2_lookup_r _ _ _ _ _ Hf Hr') as (r & Hr & [->| ->]); [|by left].
    by apply (proj1 (Forall_lookup _ _) Hs i).
  - intros i j r r' Hr Hr' He Hn.
    destruct (Forall2_lookup_r _ _ _ _ _ Hf Hr) as (a & Ha & [->| ->]); [|done].
    destruct (Forall2_lookup_r _ _ _ _ _ Hf Hr') as (b & Hb & [->| ->]); [|by rewrite He in Hn].
    by eapply Hu.
Qed.

(** The keys left: of the slots kept. *)
Lemma freed_keys l l' s k :
  freed l l' → table_ok l → valid_session s →
  keys_of l' !! s = Some k ↔
  ∃ i, l !! i = Some (mk_reg s k) ∧ l' !! i = Some (mk_reg s k).
Proof.
  intros Hf Hok Hv. rewrite lookup_keys_of; [|by apply (freed_table l)|by apply session_not_none].
  split; [|by intros (i & _ & Hi); exists i]. intros [i Hi]. exists i. split; [|done].
  destruct (Forall2_lookup_r _ _ _ _ _ Hf Hi) as (r & Hr & [->|[= -> ->]]); [done|].
  by destruct (session_not_none _ Hv).
Qed.

Lemma keys_of_valid l s : table_ok l → is_Some (keys_of l !! s) → valid_session s.
Proof.
  intros [Hl Hs Hu] [k Hk]. destruct (decide (s = SESSION_ID_NONE)) as [->|Hn].
  { by rewrite keys_of_none in Hk. }
  apply lookup_keys_of in Hk as [i Hi]; [|done..].
  destruct (proj1 (Forall_lookup _ _) Hs i _ Hi) as [[= -> ->]|[? _]]; done.
Qed.

Lemma keys_ext l m :
  table_ok l → (∀ s, is_Some (m !! s) → valid_session s) →
  (∀ s k, valid_session s → keys_of l !! s = Some k ↔ m !! s = Some k) → keys_of l = m.
Proof.
  intros Hok Hm H. apply map_eq. intros s. apply option_eq. intros k. split; intros Hk.
  - apply H; [|done]. by apply (keys_of_valid l); [|exists k].
  - apply H; [|done]. by apply Hm; exists k.
Qed.

Lemma add_loop_spec l i s ff :
  add_loop l i s ff =
  match find_session l s with
  | Some j => Some (i + j)%nat
  | None => match ff with Some j => Some j | None => Nat.add i <$> find_session l SESSION_ID_NONE end
  end.
Proof.
  revert i ff. induction l as [|r l IH]; intros i ff; simpl; [by destruct ff|].
  destruct (session_id r =? s); [by rewrite Nat.add_0_r|]. rewrite IH.
  destruct (find_session l s) as [j|]; simpl; [f_equal; lia|].
  destruct ff as [j|]; [done|].
  destruct (session_id r =? SESSION_ID_NONE); simpl; [f_equal; lia|].
  destruct (find_session l SESSION_ID_NONE); simpl; [f_equal; lia|done].
Qed.

Lemma table_full_find l : table_full l = false ↔ is_Some (find_session l SESSION_ID_NONE).
Proof.
  unfold table_full. induction l as [|r l IH]; simpl; [split; [done|by intros []]|].
  destruct (session_id r =? SESSION_ID_NONE); simpl; [done|]. by rewrite fmap_is_Some.
Qed.

(** The slot that a registration takes: the one of the session, or a free
    one. *)
Definition takes (l : list pr_registration_t) (s : Z) (i : nat) : Prop :=
  (∃ k, l !! i = Some (mk_reg s k)) ∨
  (keys_of l !! s = None ∧ find_session l SESSION_ID_NONE = Some i ∧ l !! i = Some no_registration).

Lemma add_registration_takes p s k :
  table_ok (registrations p) → valid_session s →
  (table_full (registrations p) = false ∨ is_Some (keys_of (registrations p) !! s)) →
  ∃ i, takes (registrations p) s i ∧
    pr_info_add_registration p s k
    = Some (Some (set_registrations p (<[i := mk_reg s k]> (registrations p)))).
Proof.
  intros [Hl Hs Hu] Hv Hfree. unfold pr_info_add_registration. rewrite (session_below s Hv), add_loop_spec. simpl.
  pose proof (find_session_keys _ s Hu (session_not_none _ Hv)) as Hk.
  destruct (find_session (registrations p) s) as [i|] eqn:E; simpl in *.
  { exists i. split; [by left; apply find_session_Some|done]. }
  destruct Hfree as [Hfree|[k' Hk']]; [|by rewrite Hk in Hk'].
  apply table_full_find in Hfree as [i Hi]. rewrite Hi. simpl. exists i. split; [|done].
  right. split; [done|split; [done|]]. destruct (find_session_Some _ _ _ Hi) as [k' Hk'].
  destruct (proj1 (Forall_lookup _ _) Hs i _ Hk') as [E'|[[_ H] _]]; [by rewrite Hk', E'|by simpl in H].
Qed.

Lemma takes_only l s i j r :
  table_ok l → valid_session s → takes l s i → l !! j = Some r → session_id r = s → j = i.
Proof.
  intros [Hl Hs Hu] Hv [[k Hi]|(Hk & _ & Hi)] Hj Hr.
  - eapply Hu; [exact Hj|exact Hi|done|]. rewrite Hr. by apply session_not_none.
  - exfalso. destruct r as [s' k]. simpl in Hr. subst s'.
    rewrite (proj2 (lookup_keys_of l s k Hu (session_not_none _ Hv))) in Hk; [done|by exists j].
Qed.

Lemma add_table l s k i :
  table_ok l → valid_session s → k ≠ 0 → fits 64 k → takes l s i →
  table_ok (<[i := mk_reg s k]> l) ∧ keys_of (<[i := mk_reg s k]> l) = <[s := k]> (keys_of l).
Proof.
  intros Hok Hv Hk Hf Ht. pose proof Hok as [Hl Hs Hu].
  assert (table_ok (<[i := mk_reg s k]> l)) as Hok'.
  { split; [by rewrite length_insert| |].
    - apply Forall_insert; [done|]. by right.
    - apply one_slot_each_insert; [done|]. intros j r. by apply (takes_only l s). }
  split; [done|]. pose proof Hok' as [_ _ Hu'].
  assert (i < length l)%nat as Hi.
  { destruct Ht as [[k' Hi]|(_ & _ & Hi)]; by apply lookup_lt_Some in Hi. }
  apply keys_ext; [done| |].
  { intros t. destruct (decide (t = s)) as [->|Hne]; [done|]. rewrite lookup_insert_ne by done.
    by apply keys_of_valid. }
  intros t k' Hvt. rewrite lookup_keys_of by eauto with pr.
  destruct (decide (t = s)) as [->|Hne].
  - rewrite lookup_insert_eq. split.
    + intros [j Hj]. apply list_lookup_insert_Some in Hj as [(<- & [= <-] & _)|[Hne Hj]]; [done|].
      by destruct Hne; symmetry; apply (takes_only l s i j _ Hok Hv Ht Hj).
    + intros [= <-]. exists i. by rewrite list_lookup_insert_eq.
  - rewrite lookup_insert_ne, lookup_keys_of by eauto with pr. split; intros [j Hj].
    + apply list_lookup_insert_Some in Hj as [(_ & [= <- _] & _)|[_ Hj]]; [done|by exists j].
    + exists j. rewrite list_lookup_insert_ne; [done|]. intros <-.
      destruct Ht as [[k'' Hi']|(_ & _ & Hi')]; rewrite Hi' in Hj; [by injection Hj|].
      injection Hj as <- _. by destruct (session_not_none _ Hvt).
Qed.

Lemma del_freed p s p' :
  valid_session s → pr_info_del_registration p s = Some p' → freed (registrations p) (registrations p').
Proof.
  intros Hv H. unfold pr_info_del_registration in H. rewrite (session_below s Hv) in H. simpl in H.
  injection H as <-. destruct (find_session _ s) as [i|]; simpl; apply Forall2_same_length_lookup_2.
  - by rewrite length_insert.
  - intros j r r' Hr Hr'. apply list_lookup_insert_Some in Hr' as [(_ & <- & _)|[_ Hr']]; [by right|].
    left. congruence.
  - done.
  - intros j r r' Hr Hr'. left. congruence.
Qed.

Lemma del_registration p s :
  table_ok (registrations p) → valid_session s →
  ∃ l, pr_info_del_registration p s = Some (set_registrations p l) ∧ freed (registrations p) l ∧
    keys_of l = delete s (keys_of (registrations p)).
Proof.
  intros Hok Hv.
  assert (∃ l, pr_info_del_registration p s = Some (set_registrations p l)
             ∧ ∀ j r, l !! j = Some r ↔ match find_session (registrations p) s with
                 | Some i => (j = i ∧ r = no_registration ∧ (i < length (registrations p))%nat)
                             ∨ (j ≠ i ∧ registrations p !! j = Some r)
                 | None => registrations p !! j = Some r end) as (l & Hdel & Hlk).
  { unfold pr_info_del_registration. rewrite (session_below s Hv). simpl.
    destruct (find_session _ s) as [i|]; simpl; [|by exists (registrations p); destruct p].
    eexists. split; [done|]. intros j r. rewrite list_lookup_insert_Some. naive_solver. }
  pose proof (del_freed p s _ Hv Hdel) as Hf. simpl in Hf. exists l. split; [done|split; [done|]].
  apply keys_ext; [by apply (freed_table (registrations p))| |].
  { intros t Ht. apply (keys_of_valid (registrations p)); [done|].
    destruct (decide (t = s)) as [->|Hne]; [by rewrite lookup_delete_eq in Ht; destruct Ht|].
    by rewrite lookup_delete_ne in Ht. }
  pose proof Hok as [_ _ Hu]. intros t k Hvt. rewrite (freed_keys (registrations p)) by done.
  destruct (find_session (registrations p) s) as [i|] eqn:E.
  - destruct (find_session_Some _ _ _ E) as [ks Hks]. destruct (decide (t = s)) as [->|Hne].
    + rewrite lookup_delete_eq. split; [|done]. intros (j & Hj & [(-> & [= Hn _] & _)|[Hji _]]%Hlk).
      * by destruct (session_not_none _ Hv).
      * destruct Hji. eapply Hu; [exact Hj|exact Hks|done|by apply session_not_none].
    + rewrite lookup_delete_ne, lookup_keys_of by eauto with pr. split; [intros (j & Hj & _); by exists j|].
      intros [j Hj]. exists j. split; [done|]. apply Hlk. right. split; [|done]. intros ->. congruence.
  - assert (keys_of (registrations p) !! s = None) as Hs
      by (rewrite find_session_keys by eauto with pr; by rewrite E).
    rewrite delete_id by done. rewrite lookup_keys_of by eauto with pr.
    split; [intros (j & Hj & _); by exists j|]. intros [j Hj]. exists j. split; [done|by apply Hlk].
Qed.

Lemma freed_map l (f : pr_registration_t → bool) :
  freed l (map (λ r, if f r then no_registration else r) l).
Proof.
  apply Forall2_same_length_lookup_2; [by rewrite length_map|]. intros i r r' Hr Hr'.
  rewrite list_lookup_fmap, Hr in Hr'. simpl in Hr'. injection Hr' as <-. destruct (f r); [by right|by left].
Qed.

Lemma map_freed_keys l (f : pr_registration_t → bool) :
  table_ok l →
  keys_of (map (λ r, if f r then no_registration else r) l)
  = filter (λ sk, f (mk_reg sk.1 sk.2) = false) (keys_of l).
Proof.
  intros Hok. pose proof Hok as [_ _ Hu]. apply keys_ext.
  { by apply (freed_table l), Hok; apply freed_map. }
  { intros s [k [Hk _]%map_lookup_filter_Some]. apply (keys_of_valid l); [done|by exists k]. }
  intros s k Hv. rewrite (freed_keys l) by (eauto using freed_map).
  rewrite map_lookup_filter_Some, lookup_keys_of by eauto with pr. simpl. split.
  - intros (i & Hi & Hi'). split; [by exists i|]. rewrite list_lookup_fmap, Hi in Hi'. simpl in Hi'.
    destruct (f (mk_reg s k)); [|done]. injection Hi' as Hn _. by destruct (session_not_none _ Hv).
  - intros [[i Hi] Hf]. exists i. split; [done|]. rewrite list_lookup_fmap, Hi. simpl. by rewrite Hf.
Qed.

Lemma clear_keys (l : list pr_registration_t) : keys_of (map (λ _, no_registration) l) = ∅.
Proof. by induction l. Qed.

(** *** Notifications *)

Lemma notify_returns ids : Forall valid_session ids → is_Some (notify ids).
Proof.
  induction 1 as [|id ids Hv _ [l IH]]; simpl; [done|].
  unfold callback_send_sense_data. rewrite (session_below_extra id Hv). simpl. rewrite IH.
  assert (MAX_GLOBAL_SESSION <? id = false) as -> by (unfold valid_session in Hv; lia). done.
Qed.

Lemma other_sessions_keys p s t :
  table_ok (registrations p) →
  t ∈ other_sessions p s ↔ t ≠ s ∧ is_Some (keys_of (registrations p) !! t).
Proof.
  intros Hok. pose proof Hok as [_ _ Hu]. unfold other_sessions.
  rewrite list_elem_of_In, filter_In, <- list_elem_of_In, list_elem_of_fmap. split.
  - intros [(r & -> & [i Hi]%list_elem_of_lookup) Hb]. apply andb_true_iff in Hb as [H1 H2].
    split; [lia|]. exists (key r). apply lookup_keys_of; [done|lia|]. exists i. by destruct r.
  - intros [Hne [k Hk]]. assert (valid_session t) as Hv by (apply (keys_of_valid (registrations p)); [done|by exists k]).
    apply lookup_keys_of in Hk as [i Hi]; [|by eauto with pr..]. split.
    + exists (mk_reg t k). split; [done|]. apply list_elem_of_lookup. by exists i.
    + pose proof (session_not_none _ Hv). lia.
Qed.

Lemma other_sessions_valid p s : table_ok (registrations p) → Forall valid_session (other_sessions p s).
Proof.
  intros Hok. apply Forall_forall. intros t [_ Ht]%other_sessions_keys; [|done].
  by apply (keys_of_valid (registrations p)).
Qed.

Lemma used_sessions_returns used ids :
  length used = Z.to_nat MAX_GLOBAL_SESSION_PLUS_EXTRA → Forall valid_session ids →
  used_sessions used ids = Some (List.filter (λ id, default false (used !! Z.to_nat id)) ids).
Proof.
  intros Hl. induction 1 as [|id ids Hv _ IH]; simpl; [done|].
  destruct (lookup_lt_is_Some_2 used (Z.to_nat id)) as [u Hu].
  { rewrite Hl. destruct Hv as [H1 H2]. apply Z2Nat.inj_lt; [done|done|].
    apply (Z.lt_trans _ _ _ H2). done. }
  rewrite Hu, IH. simpl. by destruct u.
Qed.

(** ** What a unit promises

    The registered keys, the type of the reservation ([PR_TYPE_NONE]: none)
    and the session that holds it, when its type has one holder: the commands
    on sets of keys, without the slots of the table.  This is what this target
    does, in the terms of SPC-3 (5.6), and not the text of SPC-3: PREEMPT AND
    ABORT is PREEMPT, as it aborts no task; REGISTER AND MOVE is refused;
    RESERVE takes a type that is not defined; PREEMPT with a key that no
    session has answers GOOD; and RELEASE by a session that does not hold the
    reservation is a conflict. *)

Record unit_spec := mk_unit {
  u_keys : gmap Z Z;
  u_type : Z;
  u_holder : option Z;
  u_generation : Z
}.

Definition holds (u : unit_spec) (s : Z) : bool :=
  if one_holder_type (u_type u) then bool_decide (u_holder u = Some s)
  else all_registrants_type (u_type u) && bool_decide (is_Some (u_keys u !! s)).

Definition reserved_by (keys : gmap Z Z) (t s gen : Z) : unit_spec :=
  mk_unit keys t (if one_holder_type t then Some s else None) gen.

Definition released (keys : gmap Z Z) (gen : Z) : unit_spec := mk_unit keys PR_TYPE_NONE None gen.

Definition with_keys (u : unit_spec) (keys : gmap Z Z) : unit_spec :=
  mk_unit keys (u_type u) (u_holder u) (u_generation u).

(** Whether the session may read or write the medium. *)
Definition may_access (u : unit_spec) (write : bool) (s : Z) : bool :=
  let t := u_type u in
  if t =? PR_TYPE_NONE then true
  else if t =? PR_TYPE_WRITE_EXCLUSIVE then negb write || bool_decide (u_holder u = Some s)
  else if t =? PR_TYPE_EXCLUSIVE_ACCESS then bool_decide (u_holder u = Some s)
  else if (t =? PR_TYPE_WRITE_EXCLUSIVE_REGISTRANTS_ONLY) || (t =? PR_TYPE_WRITE_EXCLUSIVE_ALL_REGISTRANTS)
  then negb write || bool_decide (is_Some (u_keys u !! s))
  else if (t =? PR_TYPE_EXCLUSIVE_ACCESS_REGISTRANTS_ONLY) || (t =? PR_TYPE_EXCLUSIVE_ACCESS_ALL_REGISTRANTS)
  then bool_decide (is_Some (u_keys u !! s))
  else false.

(** RESERVE: a free unit is taken; the holder may repeat itself. *)
Definition spec_reserve (u : unit_spec) (s t : Z) : unit_spec * scsi_command_status_t :=
  if u_type u =? PR_TYPE_NONE then (reserved_by (u_keys u) t s (u_generation u), SCSI_STATUS_OK 0)
  else if holds u s && (u_type u =? t) then (u, SCSI_STATUS_OK 0)
  else (u, CONFLICT).

(** RELEASE: by the holder, with the type it has. *)
Definition spec_release (u : unit_spec) (s t : Z) : unit_spec * scsi_command_status_t :=
  if u_type u =? PR_TYPE_NONE then (u, SCSI_STATUS_OK 0)
  else if negb (holds u s) then (u, CONFLICT)
  else if u_type u =? t then (released (u_keys u) (u_generation u), SCSI_STATUS_OK 0)
  else (u, ILLEGAL SCSI_SENSE_ASC_INVALID_RELEASE_OF_PERSISTENT_RESERVATION).

(** CLEAR: no key and no reservation left. *)
Definition spec_clear (u : unit_spec) : unit_spec * scsi_command_status_t :=
  (released ∅ (u_generation u), SCSI_STATUS_OK 0).

(** PREEMPT: the other sessions with the key are unregistered; when it is the
    key of the holder, the reservation passes to the session. *)
Definition spec_preempt (u : unit_spec) (s sak t : Z) : unit_spec * scsi_command_status_t :=
  let all := all_registrants_type (u_type u) in
  if negb all && (sak =? 0) then (u, ILLEGAL SCSI_SENSE_ASC_INVALID_FIELD_IN_PARAMETER_LIST)
  else
    let keys := filter (λ sk, sk.1 = s ∨ (sak ≠ sk.2 ∧ sak ≠ 0)) (u_keys u) in
    if (all && (sak =? 0)) || bool_decide ((h ← u_holder u; u_keys u !! h) = Some sak)
    then (reserved_by keys t s (u_generation u), SCSI_STATUS_OK 0)
    else (with_keys u keys, SCSI_STATUS_OK 0).

(** REGISTER: a key is set, or with the null key removed; the reservation goes
    with its last holder. *)
Definition spec_register (u : unit_spec) (s sak : Z) : unit_spec * scsi_command_status_t :=
  if negb (sak =? 0) then (with_keys u (<[s := sak]> (u_keys u)), SCSI_STATUS_OK 0)
  else
    let keys := delete s (u_keys u) in
    if holds u s && (one_holder_type (u_type u) || bool_decide (keys = ∅))
    then (released keys (u_generation u), SCSI_STATUS_OK 0)
    else (with_keys u keys, SCSI_STATUS_OK 0).

Definition spec_service_action (u : unit_spec) (s : Z) (c : pr_out_t) : unit_spec * scsi_command_status_t :=
  let a := service_action c in
  let invalid := (u, ILLEGAL SCSI_SENSE_ASC_INVALID_FIELD_IN_CDB) in
  if a =? PR_OUT_REGISTER then
    if negb (spec_i_pt c =? 0) && negb (reservation_key c =? 0) then invalid
    else spec_register u s (service_action_key c)
  else if a =? PR_OUT_REGISTER_AND_IGNORE_EXISTING_KEY then
    if (service_action_key c =? 0) && bool_decide (u_keys u !! s = None) then (u, SCSI_STATUS_OK 0)
    else if spec_i_pt c =? 1 then invalid
    else spec_register u s (service_action_key c)
  else if a =? PR_OUT_RESERVE then spec_reserve u s (pr_type c)
  else if a =? PR_OUT_RELEASE then spec_release u s (pr_type c)
  else if a =? PR_OUT_CLEAR then spec_clear u
  else if (a =? PR_OUT_PREEMPT) || (a =? PR_OUT_PREEMPT_AND_ABORT) then
    spec_preempt u s (service_action_key c) (pr_type c)
  else (u, ILLEGAL 0).

(** A command: refused for its scope, or for the key that it presents, or
    executed; the generation counts the ones that change registrations. *)
Definition spec_out (u : unit_spec) (s : Z) (c : pr_out_t) : unit_spec * scsi_command_status_t :=
  let a := service_action c in
  let registering := (a =? PR_OUT_REGISTER) || (a =? PR_OUT_REGISTER_AND_IGNORE_EXISTING_KEY) in
  if negb (pr_scope c =? PR_LU_SCOPE) && negb (registering || (a =? PR_OUT_CLEAR))
  then (u, ILLEGAL SCSI_SENSE_ASC_INVALID_FIELD_IN_CDB)
  else if negb (a =? PR_OUT_REGISTER_AND_IGNORE_EXISTING_KEY)
          && match u_keys u !! s with
             | Some k => negb (k =? reservation_key c)
             | None => negb (a =? PR_OUT_REGISTER)
             end
  then (u, CONFLICT)
  else
    let '(u, st) := spec_service_action u s c in
    (if is_good st && negb (a =? PR_OUT_RESERVE) && negb (a =? PR_OUT_RELEASE)
     then mk_unit (u_keys u) (u_type u) (u_holder u) (u32 (u_generation u + 1)) else u, st).

(** *** The table as the unit of the specification *)

Definition holder_session (p : pr_info_t) : option Z :=
  r ← registrations p !! Z.to_nat (holder_index p);
  if session_id r =? SESSION_ID_NONE then None else Some (session_id r).

Definition abs (p : pr_info_t) : unit_spec :=
  mk_unit (keys_of (registrations p)) (reservation_type p)
    (if one_holder_type (reservation_type p) then holder_session p else None) (pr_generation p).

Record pr_ok (p : pr_info_t) : Prop := {
  ok_table : table_ok (registrations p);
  ok_holder : is_lun_reserved p = true → 0 <= holder_index p < MAX_REGISTRATIONS;
  ok_generation : fits 32 (pr_generation p)
}.

(** The slot of the holder is the one of a registered session. *)
Definition live (p : pr_info_t) : Prop :=
  one_holder_type (reservation_type p) = true → is_Some (holder_session p).

Lemma one_holder_reserved t : one_holder_type t = true → (t =? PR_TYPE_NONE) = false.
Proof. intros H. apply Z.eqb_neq. by intros ->. Qed.

Lemma one_holder_not_all t : one_holder_type t = true → all_registrants_type t = false.
Proof.
  unfold one_holder_type, all_registrants_type. rewrite !orb_true_iff, orb_false_iff, !Z.eqb_eq, !Z.eqb_neq.
  intros [[[-> | ->]| ->]| ->]; done.
Qed.

Lemma holder_slot_ok p :
  pr_ok p → one_holder_type (reservation_type p) = true →
  ∃ r, holder_slot p = Some r ∧ registrations p !! Z.to_nat (holder_index p) = Some r.
Proof.
  intros [[Hl _ _] Hh _] Ht. unfold holder_slot.
  assert (is_lun_reserved p = true) as Hr by (unfold is_lun_reserved; by rewrite one_holder_reserved).
  specialize (Hh Hr). assert (holder_index p <? MAX_REGISTRATIONS = true) as -> by lia. simpl.
  destruct (lookup_lt_is_Some_2 (registrations p) (Z.to_nat (holder_index p))) as [r Hr'].
  { rewrite Hl. apply Z2Nat.inj_lt; [lia|done|lia]. }
  by exists r.
Qed.

Lemma is_holder_holds p s :
  pr_ok p → valid_session s → persistent_is_holder p s = Some (holds (abs p) s).
Proof.
  intros Hok Hv. unfold persistent_is_holder, holds. rewrite (session_below s Hv). simpl.
  destruct (one_holder_type (reservation_type p)) eqn:Et.
  - destruct (holder_slot_ok p Hok Et) as (r & Hs & Hr). unfold pr_info_get_holder_id, holder_session.
    rewrite Hs, Hr. simpl. f_equal. apply eq_true_iff_eq. rewrite bool_decide_eq_true.
    destruct (session_id r =? SESSION_ID_NONE) eqn:En.
    + split; [|done]. apply Z.eqb_eq in En. rewrite En. intros E%Z.eqb_eq. by destruct (session_not_none s Hv).
    + split; [by intros ->%Z.eqb_eq|intros [= ->]; apply Z.eqb_refl].
  - destruct (all_registrants_type (reservation_type p)); [|done]. simpl.
    by rewrite (is_registered_keys p s (ok_table p Hok) Hv).
Qed.

(** Who has access: exactly whom the specification gives it to. *)
Definition medium_command (op : Z) : bool :=
  negb ((op =? PERSISTENT_RESERVE_OUT) || (op =? PERSISTENT_RESERVE_IN) || (op =? INQUIRY)).

Definition is_write (op : Z) : bool :=
  (op =? WRITE_6) || (op =? WRITE_10) || (op =? WRITE_12) || (op =? WRITE_16).

Lemma check_rights_access p op s :
  pr_ok p → valid_session s → spc2_reserve p = SPC2_RESERVE_NONE → medium_command op = true →
  pr_check_rights p op s = Some (may_access (abs p) (is_write op) s).
Proof.
  intros Hok Hv Hs Hop. unfold pr_check_rights, medium_command in *.
  rewrite (session_below s Hv), Hs. simpl.
  apply negb_true_iff, orb_false_iff in Hop as [-> _].
  fold (is_write op). rewrite (is_holder_holds p s Hok Hv), (is_registered_keys p s (ok_table p Hok) Hv).
  unfold may_access, holds, registrants_only_type, all_registrants_type. simpl.
  destruct (reservation_type p =? PR_TYPE_NONE) eqn:E0; [done|].
  destruct (reservation_type p =? PR_TYPE_WRITE_EXCLUSIVE) eqn:E1.
  { apply Z.eqb_eq in E1. rewrite E1. by destruct (is_write op). }
  destruct (reservation_type p =? PR_TYPE_EXCLUSIVE_ACCESS) eqn:E3.
  { apply Z.eqb_eq in E3. by rewrite E3. }
  destruct (reservation_type p =? PR_TYPE_WRITE_EXCLUSIVE_REGISTRANTS_ONLY) eqn:E5; simpl.
  { by destruct (is_write op). }
  destruct (reservation_type p =? PR_TYPE_EXCLUSIVE_ACCESS_REGISTRANTS_ONLY) eqn:E6; simpl.
  { apply Z.eqb_eq in E6. by rewrite E6. }
  destruct (reservation_type p =? PR_TYPE_WRITE_EXCLUSIVE_ALL_REGISTRANTS) eqn:E7; simpl.
  { by destruct (is_write op). }
  by destruct (reservation_type p =? PR_TYPE_EXCLUSIVE_ACCESS_ALL_REGISTRANTS).
Qed.

(** *** The commands, each against its specification *)

Lemma set_holder_finds p s :
  table_ok (registrations p) → valid_session s → is_Some (keys_of (registrations p) !! s) →
  ∃ i k, pr_info_set_holder p s = Some (set_reservation p (reservation_type p) (Z.of_nat i)) ∧
    registrations p !! i = Some (mk_reg s k) ∧ 0 <= Z.of_nat i < MAX_REGISTRATIONS.
Proof.
  intros [Hl _ Hu] Hv Hk. unfold pr_info_set_holder. rewrite (session_below_extra s Hv). simpl.
  rewrite find_session_keys in Hk by eauto with pr.
  destruct (find_session (registrations p) s) as [i|] eqn:E; [|by destruct Hk]. simpl.
  destruct (find_session_Some _ _ _ E) as [k Hi]. exists i, k. split; [done|split; [done|]].
  apply lookup_lt_Some in Hi. rewrite Hl in Hi. unfold MAX_REGISTRATIONS in *. lia.
Qed.

Lemma holder_session_at p i s k :
  registrations p !! i = Some (mk_reg s k) → valid_session s → holder_index p = Z.of_nat i →
  holder_session p = Some s.
Proof.
  intros Hi Hv Hh. unfold holder_session. rewrite Hh, Nat2Z.id, Hi. simpl.
  pose proof (session_not_none s Hv). by destruct (s =? SESSION_ID_NONE) eqn:E; [lia|].
Qed.

(** The reservation is taken by a session of the table. *)
Lemma taken_by p p' i s k t :
  pr_ok p → valid_session s → registrations p !! i = Some (mk_reg s k) →
  0 <= Z.of_nat i < MAX_REGISTRATIONS → p' = set_reservation p t (Z.of_nat i) →
  pr_ok p' ∧ live p' ∧ abs p' = reserved_by (keys_of (registrations p)) t s (pr_generation p).
Proof.
  intros [Ht Hh Hg] Hv Hi Hb ->.
  assert (holder_session (set_reservation p t (Z.of_nat i)) = Some s) as Hhs by (by eapply holder_session_at).
  split; [by split|split; [intros _; by rewrite Hhs|]].
  unfold abs, reserved_by. rewrite Hhs. done.
Qed.

Lemma reserve_refines p s t :
  pr_ok p → valid_session s → is_Some (keys_of (registrations p) !! s) →
  ∃ p' ok, persistent_reserve_lun p s t = Some (p', ok) ∧ pr_ok p' ∧ (live p → live p') ∧
    (abs p', status_of ok) = spec_reserve (abs p) s t.
Proof.
  intros Hok Hv Hk. unfold persistent_reserve_lun, spec_reserve. rewrite (session_below s Hv). simpl.
  rewrite (is_holder_holds p s Hok Hv).
  destruct (set_holder_finds (set_reservation p t (holder_index p)) s (ok_table p Hok) Hv Hk)
    as (i & k & Hset & Hi & Hb).
  pose proof (taken_by p _ i s k t Hok Hv Hi Hb eq_refl) as (H1 & H2 & H3).
  unfold is_lun_reserved. destruct (reservation_type p =? PR_TYPE_NONE) eqn:En; simpl.
  { rewrite Hset. simpl. eexists _, true. split; [done|]. split; [done|split; [done|]]. f_equal. exact H3. }
  destruct (holds (abs p) s) eqn:Eh; simpl; [|by exists p, false].
  destruct (reservation_type p =? t) eqn:Et; simpl; [|by exists p, false].
  rewrite Hset. simpl. eexists _, true. split; [done|]. split; [done|split; [done|]]. f_equal.
  etransitivity; [exact H3|]. apply Z.eqb_eq in Et. subst t. unfold reserved_by, abs. f_equal.
  unfold holds in Eh. simpl in Eh. destruct (one_holder_type (reservation_type p)); [|done].
  by apply bool_decide_eq_true in Eh.
Qed.

Lemma released_ok p l :
  pr_ok p → table_ok l →
  let p' := set_reservation (set_registrations p l) PR_TYPE_NONE MAX_REGISTRATIONS in
  pr_ok p' ∧ live p' ∧ abs p' = released (keys_of l) (pr_generation p).
Proof. intros [Ht Hh Hg] Hl p'. split; [by split|by split]. Qed.

Lemma release_refines p s t :
  pr_ok p → valid_session s →
  ∃ p' st told, persistent_release_lun p s t = Some (p', st, told) ∧ pr_ok p' ∧ (live p → live p') ∧
    (abs p', st) = spec_release (abs p) s t.
Proof.
  intros Hok Hv. unfold persistent_release_lun, spec_release. rewrite (session_below s Hv). simpl.
  rewrite (is_holder_holds p s Hok Hv). unfold is_lun_reserved.
  destruct (notify_returns _ (other_sessions_valid p s (ok_table p Hok))) as [told Htold].
  assert (∃ told', (if negb (reservation_type p =? PR_TYPE_WRITE_EXCLUSIVE)
      && negb (reservation_type p =? PR_TYPE_EXCLUSIVE_ACCESS)
     then notify (other_sessions p s) else Some []) = Some told') as [told' Htold'].
  { destruct (negb _ && negb _); [by exists told|by exists []]. }
  pose proof (released_ok p (registrations p) Hok (ok_table p Hok)) as (H1 & H2 & H3).
  destruct (reservation_type p =? PR_TYPE_NONE) eqn:En; simpl.
  { rewrite Htold'. simpl. eexists _, _, _. split; [done|split; [exact H1|split; [done|]]]. f_equal.
    unfold abs. simpl. apply Z.eqb_eq in En. by rewrite En. }
  destruct (holds (abs p) s) eqn:Eh; simpl; [|by eexists _, _, _].
  rewrite (Z.eqb_sym t). destruct (reservation_type p =? t) eqn:Et; simpl; [|by eexists _, _, _].
  rewrite Htold'. simpl. eexists _, _, _. split; [done|split; [exact H1|split; [done|]]]. done.
Qed.

Lemma clear_table (l : list pr_registration_t) : table_ok l → table_ok (map (λ _, no_registration) l).
Proof. apply freed_table. exact (freed_map l (λ _, true)). Qed.

Lemma clear_refines p s :
  pr_ok p → valid_session s →
  ∃ p' st told, persistent_clear_lun p s = Some (p', st, told) ∧ pr_ok p' ∧ live p' ∧
    (abs p', st) = spec_clear (abs p).
Proof.
  intros Hok Hv. unfold persistent_clear_lun, spec_clear. rewrite (session_below s Hv). simpl.
  destruct (notify_returns _ (other_sessions_valid p s (ok_table p Hok))) as [told ->]. simpl.
  pose proof (released_ok p _ Hok (clear_table _ (ok_table p Hok))) as (H1 & H2 & H3).
  eexists _, _, _. split; [done|split; [exact H1|split; [exact H2|]]]. f_equal. etransitivity; [exact H3|].
  by rewrite clear_keys.
Qed.

Definition preempt_table (s sak : Z) (l : list pr_registration_t) : list pr_registration_t :=
  map (λ r, if preempted s sak r then no_registration else r) l.

Lemma preempt_table_keys s sak l :
  table_ok l →
  keys_of (preempt_table s sak l) = filter (λ sk, sk.1 = s ∨ (sak ≠ sk.2 ∧ sak ≠ 0)) (keys_of l).
Proof.
  intros Hok. unfold preempt_table. rewrite (map_freed_keys l _ Hok). apply map_filter_ext. intros t k Hk. simpl.
  assert (t ≠ SESSION_ID_NONE) by (apply session_not_none, (keys_of_valid l); [done|by exists k]).
  unfold preempted. simpl. lia.
Qed.

Lemma preempt_table_ok s sak l : table_ok l → table_ok (preempt_table s sak l).
Proof. apply freed_table. apply freed_map. Qed.

Lemma preempt_notifies s sak l :
  table_ok l → Forall valid_session (map session_id (List.filter (preempted s sak) l)).
Proof.
  intros [_ Hs _]. apply Forall_map, Forall_forall. intros r Hr.
  apply list_elem_of_In, filter_In in Hr as [Hr Hp]. apply list_elem_of_In in Hr.
  destruct (proj1 (Forall_forall _ _) Hs r Hr) as [->|[? _]]; [|done].
  unfold preempted in Hp. rewrite !andb_true_iff in Hp. by destruct Hp as [_ ?].
Qed.

Lemma set_registrations_ok p l : pr_ok p → table_ok l → pr_ok (set_registrations p l).
Proof. intros [Ht Hh Hg] Hl. by split. Qed.

Lemma get_holder_key_returns p : pr_ok p → is_Some (get_holder_key p).
Proof.
  intros Hok. unfold get_holder_key. destruct (one_holder_type _) eqn:E; [|done].
  destruct (holder_slot_ok p Hok E) as (r & Hs & _). unfold pr_info_get_holder_key. by rewrite Hs.
Qed.

(** What PREEMPT does once the keys are removed. *)
Lemma preempt_unfold p s sak t :
  pr_ok p → valid_session s → is_Some (keys_of (registrations p) !! s) →
  negb (all_registrants_type (reservation_type p)) && (sak =? 0) = false →
  let p1 := set_registrations p (preempt_table s sak (registrations p)) in
  ∃ told hk, get_holder_key p1 = Some hk ∧
  ∃ i k, registrations p1 !! i = Some (mk_reg s k) ∧ 0 <= Z.of_nat i < MAX_REGISTRATIONS ∧
  persistent_preempt_lun p s sak t =
    Some (if is_lun_reserved p
             && (if all_registrants_type (reservation_type p) then sak =? 0 else sak =? hk)
          then set_reservation p1 t (Z.of_nat i) else p1, SCSI_STATUS_OK 0, told).
Proof.
  intros Hok Hv Hk Hlegal p1. unfold persistent_preempt_lun. rewrite (session_below s Hv). simpl.
  rewrite Hlegal. fold (preempt_table s sak (registrations p)). fold p1.
  destruct (notify_returns _ (preempt_notifies s sak _ (ok_table p Hok))) as [told ->]. simpl.
  assert (pr_ok p1) as Hok1 by (apply set_registrations_ok; [done|by apply preempt_table_ok, ok_table]).
  destruct (get_holder_key_returns p1 Hok1) as [hk Hhk].
  assert (is_Some (keys_of (registrations p1) !! s)) as Hk1.
  { simpl. rewrite preempt_table_keys by (by apply ok_table). destruct Hk as [k Hk]. exists k.
    apply map_lookup_filter_Some. split; [done|by left]. }
  destruct (set_holder_finds p1 s (ok_table p1 Hok1) Hv Hk1) as (i & k & Hset & Hi & Hb).
  exists told, hk. split; [done|]. exists i, k. split; [done|split; [done|]].
  change (is_lun_reserved p1) with (is_lun_reserved p). destruct (is_lun_reserved p); simpl; [|done].
  destruct (all_registrants_type (reservation_type p)); simpl.
  - destruct (sak =? 0); simpl; [by rewrite Hset|done].
  - rewrite Hhk. simpl. destruct (sak =? hk); simpl; [by rewrite Hset|done].
Qed.

(** The command names the key of another session that holds the unit. *)
Definition preempts_holder (u : unit_spec) (s sak : Z) : Prop :=
  ∃ h, u_holder u = Some h ∧ h ≠ s ∧ u_keys u !! h = Some sak.

Lemma preempt_returns p s sak t :
  pr_ok p → valid_session s → is_Some (keys_of (registrations p) !! s) →
  ∃ p' st told, persistent_preempt_lun p s sak t = Some (p', st, told) ∧ pr_ok p'.
Proof.
  intros Hok Hv Hk. destruct (negb (all_registrants_type (reservation_type p)) && (sak =? 0)) eqn:E.
  { unfold persistent_preempt_lun. rewrite (session_below s Hv). simpl. rewrite E. by eexists _, _, _. }
  destruct (preempt_unfold p s sak t Hok Hv Hk E) as (told & hk & Hhk & i & k & Hi & Hb & ->).
  eexists _, _, _. split; [done|].
  assert (pr_ok (set_registrations p (preempt_table s sak (registrations p)))) as Hok1
    by (apply set_registrations_ok; [done|by apply preempt_table_ok, ok_table]).
  destruct (is_lun_reserved p && _); [|done].
  by destruct (taken_by _ _ i s k t Hok1 Hv Hi Hb eq_refl) as [? _].
Qed.

Lemma live_holder p :
  pr_ok p → live p → one_holder_type (reservation_type p) = true →
  ∃ h k, registrations p !! Z.to_nat (holder_index p) = Some (mk_reg h k) ∧ valid_session h ∧ k ≠ 0 ∧
    holder_session p = Some h ∧ keys_of (registrations p) !! h = Some k.
Proof.
  intros Hok Hl Ht. destruct (holder_slot_ok p Hok Ht) as (r & _ & Hr).
  destruct (Hl Ht) as [h Hh]. pose proof Hh as Hh'. unfold holder_session in Hh. rewrite Hr in Hh. simpl in Hh.
  destruct (session_id r =? SESSION_ID_NONE) eqn:E; [done|]. injection Hh as <-.
  destruct Hok as [[Hlen Hs Hu] _ _].
  destruct (proj1 (Forall_lookup _ _) Hs _ _ Hr) as [->|(Hv & Hk & _)]; [done|].
  exists (session_id r), (key r). destruct r as [h k]. simpl in *. split; [done|].
  split; [done|split; [done|split; [done|]]]. apply lookup_keys_of; [done|by apply session_not_none|eauto].
Qed.

(** The slot of the holder outlives the change. *)
Lemma holder_kept p s sak :
  pr_ok p → live p → one_holder_type (reservation_type p) = true → sak ≠ 0 → ¬ preempts_holder (abs p) s sak →
  let p1 := set_registrations p (preempt_table s sak (registrations p)) in
  holder_session p1 = holder_session p ∧ is_Some (holder_session p) ∧
  get_holder_key p1 = (h ← u_holder (abs p); u_keys (abs p) !! h).
Proof.
  intros Hok Hl Ht Hsak Hno p1. destruct (live_holder p Hok Hl Ht) as (h & k & Hslot & Hv & Hk & Hh & Hkey).
  assert (preempted s sak (mk_reg h k) = false) as Hp.
  { unfold preempted. simpl. destruct (decide (h = s)) as [->|Hne]; [rewrite Z.eqb_refl; simpl; lia|].
    destruct (decide (sak = k)) as [->|]; [|lia].
    destruct Hno. exists h. unfold abs. rewrite Ht. simpl. done. }
  assert (registrations p1 !! Z.to_nat (holder_index p) = Some (mk_reg h k)) as Hslot1.
  { unfold p1, preempt_table. simpl. rewrite list_lookup_fmap, Hslot. simpl. by rewrite Hp. }
  split; [|split; [by rewrite Hh|]].
  - unfold holder_session at 1. change (holder_index p1) with (holder_index p). rewrite Hslot1, Hh. simpl.
    pose proof (session_not_none h Hv). by destruct (h =? SESSION_ID_NONE) eqn:E; [lia|].
  - unfold abs, get_holder_key, pr_info_get_holder_key, holder_slot. simpl.
    rewrite Ht, Hh. simpl. rewrite Hkey. unfold p1 in Hslot1. simpl in Hslot1. rewrite Hslot1.
    assert (is_lun_reserved p = true) as Hr by (unfold is_lun_reserved; by rewrite one_holder_reserved).
    pose proof (ok_holder p Hok Hr). by assert (holder_index p <? MAX_REGISTRATIONS = true) as -> by lia.
Qed.

Lemma preempt_refines p s sak t :
  pr_ok p → live p → valid_session s → is_Some (keys_of (registrations p) !! s) →
  ¬ preempts_holder (abs p) s sak →
  ∃ p' st told, persistent_preempt_lun p s sak t = Some (p', st, told) ∧ pr_ok p' ∧ live p' ∧
    (abs p', st) = spec_preempt (abs p) s sak t.
Proof.
  intros Hok Hl Hv Hk Hno. unfold spec_preempt.
  change (u_type (abs p)) with (reservation_type p). change (u_generation (abs p)) with (pr_generation p).
  destruct (negb (all_registrants_type (reservation_type p)) && (sak =? 0)) eqn:E.
  { unfold persistent_preempt_lun. rewrite (session_below s Hv). simpl. rewrite E. by eexists _, _, _. }
  destruct (preempt_unfold p s sak t Hok Hv Hk E) as (told & hk & Hhk & i & k & Hi & Hb & ->).
  eexists _, _, _. split; [done|].
  pose proof (preempt_table_keys s sak (registrations p) (ok_table p Hok)) as Hkeys.
  change (keys_of (registrations p)) with (u_keys (abs p)) in Hkeys. rewrite <- Hkeys. clear Hkeys.
  set (p1 := set_registrations p (preempt_table s sak (registrations p))) in *.
  assert (pr_ok p1) as Hok1 by (apply set_registrations_ok; [done|by apply preempt_table_ok, ok_table]).
  destruct (taken_by p1 _ i s k t Hok1 Hv Hi Hb eq_refl) as (H1 & H2 & H3).
  destruct (one_holder_type (reservation_type p)) eqn:Et.
  - rewrite (one_holder_not_all _ Et) in E |- *. simpl in E. rewrite andb_false_l, orb_false_l.
    destruct (holder_kept p s sak Hok Hl Et ltac:(lia) Hno) as (Hh & Hsome & Hkey). fold p1 in Hh, Hkey.
    assert (is_lun_reserved p = true) as -> by (unfold is_lun_reserved; by rewrite one_holder_reserved).
    rewrite andb_true_l, <- Hkey, Hhk. destruct (sak =? hk) eqn:Eh.
    + rewrite bool_decide_true by (f_equal; lia). split; [done|split; [done|]]. by rewrite H3.
    + rewrite bool_decide_false by (intros [= ->]; lia).
      split; [done|split; [by intros _; rewrite Hh|]]. unfold abs, with_keys. f_equal.
      change (reservation_type p1) with (reservation_type p). by rewrite Et, Hh.
  - assert (u_holder (abs p) = None) as Hn by (unfold abs; by rewrite Et). rewrite Hn. simpl.
    rewrite orb_false_r.
    assert (hk = 0) as ->.
    { unfold get_holder_key in Hhk. change (reservation_type p1) with (reservation_type p) in Hhk.
      rewrite Et in Hhk. by injection Hhk. }
    assert (live p1) as Hl1 by (by intros Ht1; change (reservation_type p) with (reservation_type p1) in Et; congruence).
    assert (abs p1 = with_keys (abs p) (keys_of (registrations p1))) as Hp1.
    { unfold abs, with_keys. change (reservation_type p1) with (reservation_type p). by rewrite Et. }
    unfold is_lun_reserved. destruct (all_registrants_type (reservation_type p)) eqn:Ea; simpl.
    + assert (reservation_type p =? PR_TYPE_NONE = false) as ->.
      { apply Z.eqb_neq. intros H0. by rewrite H0 in Ea. }
      simpl. destruct (sak =? 0); [split; [done|split; [done|by rewrite H3]]|].
      split; [done|split; [done|by rewrite Hp1]].
    + simpl in E. rewrite E, andb_false_r. split; [done|split; [done|by rewrite Hp1]].
Qed.

(** *** Registering *)

Lemma add_refines p s sak :
  pr_ok p → valid_session s → sak ≠ 0 → fits 64 sak →
  (table_full (registrations p) = false ∨ is_Some (keys_of (registrations p) !! s)) →
  ∃ p', pr_info_add_registration p s sak = Some (Some p') ∧ pr_ok p' ∧
    (live p → live p' ∧ abs p' = with_keys (abs p) (<[s := sak]> (keys_of (registrations p)))).
Proof.
  intros Hok Hv Hne Hf Hfree.
  destruct (add_registration_takes p s sak (ok_table p Hok) Hv Hfree) as (i & Ht & ->).
  destruct (add_table _ s sak i (ok_table p Hok) Hv Hne Hf Ht) as [Hok' Hkeys].
  eexists. split; [done|]. split; [by apply set_registrations_ok|]. intros Hl.
  set (p' := set_registrations p _).
  assert (one_holder_type (reservation_type p) = true → holder_session p' = holder_session p) as Hhs.
  { intros Hty. destruct (live_holder p Hok Hl Hty) as (h & k & Hslot & Hvh & _ & Hh & _).
    destruct (decide (i = Z.to_nat (holder_index p))) as [Hi|Hi].
    - assert (h = s) as ->.
      { destruct Ht as [[k' Hi']|(_ & _ & Hi')]; rewrite Hi, Hslot in Hi'; [by injection Hi'|].
        injection Hi' as -> _. by destruct (session_not_none _ Hvh). }
      rewrite Hh. eapply (holder_session_at _ i); [|done|].
      + simpl. apply list_lookup_insert_eq. apply lookup_lt_Some in Hslot. by rewrite Hi.
      + simpl. assert (is_lun_reserved p = true) as Hr by (unfold is_lun_reserved; by rewrite one_holder_reserved).
        pose proof (ok_holder p Hok Hr). lia.
    - unfold holder_session. simpl. by rewrite list_lookup_insert_ne. }
  split.
  - intros Hty. change (reservation_type p') with (reservation_type p) in Hty. rewrite Hhs by done. by apply Hl.
  - unfold abs, with_keys. simpl. f_equal; [done|].
    destruct (one_holder_type (reservation_type p)); [by apply Hhs|done].
Qed.

Definition in_use (used : list bool) (t : Z) : bool := default false (used !! Z.to_nat t).

Definition other_used (used : list bool) (p : pr_info_t) (s : Z) : list Z :=
  List.filter (in_use used) (other_sessions p s).

(** Whether unregistering ends the reservation. *)
Definition unreserves (used : list bool) (p : pr_info_t) (s : Z) : bool :=
  is_lun_reserved p && holds (abs p) s
  && (negb (all_registrants_type (reservation_type p)) || bool_decide (other_used used p s = [])).

Lemma unregister_unfold used p s :
  pr_ok p → valid_session s → length used = Z.to_nat MAX_GLOBAL_SESSION_PLUS_EXTRA →
  ∃ told, persistent_register_lun used p s 0 =
    (p' ← pr_info_del_registration
            (if unreserves used p s
             then pr_info_clear_registrations (set_reservation p PR_TYPE_NONE (holder_index p)) else p) s;
     Some (p', SCSI_STATUS_OK 0, told)).
Proof.
  intros Hok Hv Hlen. unfold persistent_register_lun, unreserves. rewrite (session_below s Hv). simpl.
  destruct (is_lun_reserved p); simpl; [|by exists []].
  rewrite (is_holder_holds p s Hok Hv). simpl.
  pose proof (other_sessions_valid p s (ok_table p Hok)) as Hvs.
  rewrite (used_sessions_returns used _ Hlen Hvs). fold (in_use used). fold (other_used used p s). simpl.
  destruct (all_registrants_type (reservation_type p)); simpl; [by eexists|]. rewrite andb_true_r.
  destruct (registrants_only_type (reservation_type p)); simpl; [|by eexists].
  destruct (notify_returns (other_used used p s)) as [told Htold].
  { apply Forall_forall. intros t Ht. apply list_elem_of_In, filter_In in Ht as [Ht _].
    apply (proj1 (Forall_forall _ _) Hvs). by apply list_elem_of_In. }
  unfold other_used, in_use in Htold |- *. rewrite Htold. by eexists.
Qed.

(** The holder unregisters, and the keys of other sessions go as well. *)
Definition wipes (used : list bool) (u : unit_spec) (s : Z) : Prop :=
  holds u s = true ∧ (∃ t, t ≠ s ∧ is_Some (u_keys u !! t)) ∧
  (all_registrants_type (u_type u) = true → ∀ t, t ≠ s → is_Some (u_keys u !! t) → in_use used t = false).

Lemma other_used_nil used p s :
  pr_ok p →
  other_used used p s = [] ↔ ∀ t, t ≠ s → is_Some (keys_of (registrations p) !! t) → in_use used t = false.
Proof.
  intros Hok. unfold other_used. split.
  - intros Hnil t Hne Hk. destruct (in_use used t) eqn:E; [|done].
    assert (t ∈ List.filter (in_use used) (other_sessions p s)) as Hin; [|by rewrite Hnil in Hin; apply not_elem_of_nil in Hin].
    apply list_elem_of_In, filter_In. split; [|done]. apply list_elem_of_In, other_sessions_keys; [|done].
    by apply ok_table.
  - intros H. destruct (List.filter _ _) as [|t l] eqn:E; [done|].
    assert (In t (List.filter (in_use used) (other_sessions p s))) as Hin by (rewrite E; by left).
    apply filter_In in Hin as [Hin Hu]. apply list_elem_of_In, other_sessions_keys in Hin as [Hne Hk]; [|by apply ok_table].
    by rewrite (H t Hne Hk) in Hu.
Qed.

Lemma unregister_returns used p s :
  pr_ok p → valid_session s → length used = Z.to_nat MAX_GLOBAL_SESSION_PLUS_EXTRA →
  ∃ p' told, persistent_register_lun used p s 0 = Some (p', SCSI_STATUS_OK 0, told) ∧ pr_ok p' ∧
    (if unreserves used p s then abs p' = released ∅ (pr_generation p)
     else ∃ l, p' = set_registrations p l ∧ freed (registrations p) l
               ∧ keys_of l = delete s (keys_of (registrations p))).
Proof.
  intros Hok Hv Hlen. destruct (unregister_unfold used p s Hok Hv Hlen) as [told ->].
  destruct (unreserves used p s).
  - set (p0 := pr_info_clear_registrations _).
    assert (table_ok (registrations p0)) as H0 by exact (clear_table _ (ok_table p Hok)).
    destruct (del_registration p0 s H0 Hv) as (l & Hd & Hf & Hk). rewrite Hd. simpl.
    eexists _, told. split; [done|]. split.
    + split; [by apply (freed_table (registrations p0))|done|apply Hok].
    + unfold abs, released. simpl. f_equal. rewrite Hk. simpl. rewrite clear_keys. apply delete_empty.
  - destruct (del_registration p s (ok_table p Hok) Hv) as (l & Hd & Hf & Hk). rewrite Hd. simpl.
    eexists _, told. split; [done|]. split.
    + apply set_registrations_ok; [done|]. by apply (freed_table (registrations p)), ok_table.
    + by exists l.
Qed.

Lemma holder_session_freed p l h k :
  pr_ok p → freed (registrations p) l → registrations p !! Z.to_nat (holder_index p) = Some (mk_reg h k) →
  valid_session h → keys_of l !! h = Some k → holder_session (set_registrations p l) = Some h.
Proof.
  intros Hok Hf Hslot Hv Hk. pose proof (ok_table p Hok) as Ht.
  apply (freed_keys (registrations p)) in Hk as (i & Hi & Hi'); [|done..].
  assert (i = Z.to_nat (holder_index p)) as ->.
  { eapply (table_once _ Ht); [exact Hi|exact Hslot|done|by apply session_not_none]. }
  unfold holder_session. simpl. rewrite Hi'. simpl. pose proof (session_not_none h Hv).
  by destruct (h =? SESSION_ID_NONE) eqn:E; [lia|].
Qed.

Lemma holds_reserved p s : holds (abs p) s = true → is_lun_reserved p = true.
Proof.
  unfold is_lun_reserved. destruct (reservation_type p =? PR_TYPE_NONE) eqn:E; [|done].
  apply Z.eqb_eq in E. unfold holds. simpl. by rewrite E.
Qed.

Lemma unreserves_spec used p s :
  pr_ok p → ¬ wipes used (abs p) s →
  unreserves used p s
  = holds (abs p) s && (one_holder_type (reservation_type p)
                        || bool_decide (delete s (keys_of (registrations p)) = ∅)).
Proof.
  intros Hok Hno. unfold unreserves. destruct (holds (abs p) s) eqn:Hh; [|by rewrite andb_false_r].
  rewrite (holds_reserved p s Hh). simpl.
  destruct (one_holder_type (reservation_type p)) eqn:Ht; simpl; [by rewrite one_holder_not_all|].
  assert (all_registrants_type (reservation_type p) = true) as Hall.
  { unfold holds in Hh. simpl in Hh. rewrite Ht in Hh. by apply andb_true_iff in Hh as [? _]. }
  rewrite Hall. simpl. apply bool_decide_ext. rewrite other_used_nil by done. split.
  - intros Hunused. apply map_empty. intros t. destruct (decide (t = s)) as [->|Hne]; [apply lookup_delete_eq|].
    rewrite lookup_delete_ne by done. destruct (keys_of (registrations p) !! t) as [k|] eqn:E; [|done].
    destruct Hno. split; [done|]. split; [exists t; split; [done|by exists k]|]. done.
  - intros Hnil t Hne [k Hk]. rewrite <- (lookup_delete_ne _ s) in Hk by done. by rewrite Hnil in Hk.
Qed.

(** Only the holder is left: its key is the last one. *)
Lemma unreserves_last used p s :
  pr_ok p → ¬ wipes used (abs p) s → unreserves used p s = true → delete s (keys_of (registrations p)) = ∅.
Proof.
  intros Hok Hno Hun. pose proof Hun as Hun'. rewrite unreserves_spec in Hun by done.
  apply andb_true_iff in Hun as [Hh [Ht|Hb]%orb_true_iff]; [|by apply bool_decide_eq_true in Hb].
  apply map_empty. intros t. destruct (decide (t = s)) as [->|Hne]; [apply lookup_delete_eq|].
  rewrite lookup_delete_ne by done. destruct (keys_of (registrations p) !! t) as [k|] eqn:E; [|done].
  destruct Hno. split; [done|]. split; [exists t; split; [done|by exists k]|].
  simpl. by rewrite one_holder_not_all.
Qed.

Lemma unregister_refines used p s :
  pr_ok p → live p → valid_session s → length used = Z.to_nat MAX_GLOBAL_SESSION_PLUS_EXTRA →
  ¬ wipes used (abs p) s →
  ∃ p' told, persistent_register_lun used p s 0 = Some (p', SCSI_STATUS_OK 0, told) ∧ pr_ok p' ∧ live p' ∧
    (abs p', SCSI_STATUS_OK 0) = spec_register (abs p) s 0.
Proof.
  intros Hok Hl Hv Hlen Hno.
  destruct (unregister_returns used p s Hok Hv Hlen) as (p' & told & Hret & Hok' & Hres).
  exists p', told. split; [done|split; [done|]]. unfold spec_register. simpl.
  rewrite <- (unreserves_spec used p s Hok Hno).
  destruct (unreserves used p s) eqn:Hun.
  - rewrite (unreserves_last used p s Hok Hno Hun). split; [|by rewrite Hres]. intros Ht.
    assert (reservation_type p' = PR_TYPE_NONE) as H0 by (change (reservation_type p') with (u_type (abs p')); by rewrite Hres).
    by rewrite H0 in Ht.
  - destruct Hres as (l & -> & Hf & Hk).
    assert (one_holder_type (reservation_type p) = true →
            holder_session (set_registrations p l) = holder_session p) as Hhs.
    { intros Ht. destruct (live_holder p Hok Hl Ht) as (h & k & Hslot & Hvh & _ & Hh & Hkey).
      rewrite Hh. apply (holder_session_freed p l h k); [done..|]. rewrite Hk, lookup_delete_ne; [done|].
      intros <-. unfold unreserves, holds, is_lun_reserved, abs in Hun. simpl in Hun.
      rewrite Ht, Hh, (one_holder_reserved _ Ht), (one_holder_not_all _ Ht), bool_decide_true in Hun by done. done. }
    split; [intros Ht; simpl in Ht; rewrite Hhs by done; by apply Hl|].
    unfold abs, with_keys. simpl. do 2 f_equal; [done|]. destruct (one_holder_type _); [by apply Hhs|done].
Qed.

(** *** A whole command *)

Definition registering (c : pr_out_t) : bool :=
  (service_action c =? PR_OUT_REGISTER) || (service_action c =? PR_OUT_REGISTER_AND_IGNORE_EXISTING_KEY).

Definition preempting (c : pr_out_t) : bool :=
  (service_action c =? PR_OUT_PREEMPT) || (service_action c =? PR_OUT_PREEMPT_AND_ABORT).

(** The SPEC_I_PT bit does not forbid to register. *)
Definition may_register (c : pr_out_t) : bool :=
  if service_action c =? PR_OUT_REGISTER then (spec_i_pt c =? 0) || (reservation_key c =? 0)
  else negb (spec_i_pt c =? 1).

(** A new registration finds a free slot. *)
Definition room (p : pr_info_t) (s : Z) (c : pr_out_t) : Prop :=
  registering c = true → may_register c = true → service_action_key c ≠ 0 →
  table_full (registrations p) = false ∨ is_Some (keys_of (registrations p) !! s).

(** Not one of the two commands that go wrong: the holder unregisters while
    others are registered, or another session preempts the holder. *)
Definition regular (used : list bool) (u : unit_spec) (s : Z) (c : pr_out_t) : Prop :=
  (registering c = true → service_action_key c = 0 → ¬ wipes used u s) ∧
  (preempting c = true → ¬ preempts_holder u s (service_action_key c)).

(** *** What holds of every command of the specification *)

Ltac spec_cases :=
  unfold spec_out, spec_service_action, spec_register, spec_reserve, spec_release, spec_clear, spec_preempt;
  repeat (case_match; cbn [fst snd is_good u_keys u_type u_holder negb andb orb] in *; simplify_eq; try done).

(** A command that is refused changes nothing. *)
Lemma spec_refused u s c : is_good (spec_out u s c).2 = false → (spec_out u s c).1 = u.
Proof. spec_cases. Qed.

(** A session without a key is refused, unless it registers one. *)
Lemma spec_unregistered u s c :
  u_keys u !! s = None → registering c = false → is_good (spec_out u s c).2 = false.
Proof.
  unfold registering, spec_out. intros -> [H0 H6]%orb_false_iff. rewrite H0, H6. simpl.
  destruct (negb (pr_scope c =? PR_LU_SCOPE) && negb (service_action c =? PR_OUT_CLEAR)); done.
Qed.

(** Only CLEAR and PREEMPT touch what other sessions have: their keys, and the
    reservation that one of them holds. *)
Lemma spec_others u s c :
  service_action c ≠ PR_OUT_CLEAR → preempting c = false →
  (∀ t, t ≠ s → u_keys (spec_out u s c).1 !! t = u_keys u !! t) ∧
  (∀ h, h ≠ s → one_holder_type (u_type u) = true → u_holder u = Some h →
   u_type (spec_out u s c).1 = u_type u ∧ u_holder (spec_out u s c).1 = Some h).
Proof.
  intros Hc%Z.eqb_neq Hp. unfold preempting in Hp. split.
  - intros t Ht. unfold spec_out, spec_service_action, spec_register, spec_reserve, spec_release. rewrite Hc, Hp.
    repeat (case_match; simplify_eq/=; try done); by rewrite ?lookup_insert_ne, ?lookup_delete_ne.
  - intros h Hh Ht Hu. assert (holds u s = false) as Hs.
    { unfold holds. rewrite Ht, Hu. apply bool_decide_eq_false. congruence. }
    pose proof (one_holder_reserved _ Ht) as Hn.
    unfold spec_out, spec_service_action, spec_register, spec_reserve, spec_release. rewrite Hc, Hp, Hs, Hn. simpl.
    repeat (case_match; simplify_eq/=; try done).
Qed.

Section Commands.
Context (used : list bool) (p : pr_info_t) (s : Z) (c : pr_out_t).
Context (Hok : pr_ok p) (Hv : valid_session s).
Context (Hlen : length used = Z.to_nat MAX_GLOBAL_SESSION_PLUS_EXTRA).
Context (Hkey : fits 64 (service_action_key c)) (Hroom : room p s c).

(** What the command returns, and when the specification follows. *)
Definition executes (op : option (pr_info_t * scsi_command_status_t * list sense_t))
    (spec : unit_spec * scsi_command_status_t) : Prop :=
  ∃ p' st told, op = Some (p', st, told) ∧ pr_ok p' ∧
    (live p → regular used (abs p) s c → live p' ∧ (abs p', st) = spec).

Lemma executes_refused st : executes (Some (p, st, [])) (abs p, st).
Proof using Hok. exists p, st, []. by split; [|split]. Qed.

Lemma executes_register :
  registering c = true → may_register c = true →
  executes (persistent_register_lun used p s (service_action_key c)) (spec_register (abs p) s (service_action_key c)).
Proof using Hok Hv Hlen Hkey Hroom.
  intros Hr Hm. destruct (decide (service_action_key c = 0)) as [Hz|Hz].
  - rewrite Hz. destruct (unregister_returns used p s Hok Hv Hlen) as (p' & told & Hret & Hok' & _).
    exists p', (SCSI_STATUS_OK 0), told. split; [done|split; [done|]]. intros Hl [Hreg _].
    destruct (unregister_refines used p s Hok Hl Hv Hlen (Hreg Hr Hz)) as (p'' & told' & Hret' & _ & H).
    rewrite Hret in Hret'. by injection Hret' as <- <-.
  - destruct (add_refines p s _ Hok Hv Hz Hkey (Hroom Hr Hm Hz)) as (p' & Hadd & Hok' & H).
    unfold persistent_register_lun, spec_register. rewrite (session_below s Hv).
    apply Z.eqb_neq in Hz. rewrite Hz. simpl. rewrite Hadd. simpl.
    eexists _, _, _. split; [done|split; [done|]]. intros Hl _. destruct (H Hl) as [H1 H2].
    split; [done|by rewrite H2].
Qed.

Lemma service_action_executes :
  (registering c = false → is_Some (keys_of (registrations p) !! s)) →
  executes (pr_service_action used p s c) (spec_service_action (abs p) s c).
Proof using Hok Hv Hlen Hkey Hroom.
  intros Hmine. unfold pr_service_action, spec_service_action, registering in *.
  pose proof executes_register as Hregister. unfold registering, may_register in Hregister.
  destruct (service_action c =? PR_OUT_REGISTER) eqn:E0.
  { destruct (spec_i_pt c =? 0); simpl; [by apply Hregister|].
    destruct (reservation_key c =? 0); simpl; [by apply Hregister|apply executes_refused]. }
  destruct (service_action c =? PR_OUT_REGISTER_AND_IGNORE_EXISTING_KEY) eqn:E6.
  { rewrite (is_registered_keys p s (ok_table p Hok) Hv).
    change (u_keys (abs p)) with (keys_of (registrations p)).
    assert (bool_decide (keys_of (registrations p) !! s = None)
            = negb (bool_decide (is_Some (keys_of (registrations p) !! s)))) as ->.
    { by destruct (keys_of (registrations p) !! s). }
    destruct (service_action_key c =? 0); simpl.
    - destruct (bool_decide (is_Some (keys_of (registrations p) !! s))); simpl; [|apply executes_refused].
      destruct (spec_i_pt c =? 1); [apply executes_refused|by apply Hregister].
    - destruct (spec_i_pt c =? 1); [apply executes_refused|by apply Hregister]. }
  specialize (Hmine eq_refl).
  destruct (service_action c =? PR_OUT_RESERVE).
  { destruct (reserve_refines p s (pr_type c) Hok Hv Hmine) as (p' & ok & -> & H1 & H2 & H3). simpl.
    eexists _, _, _. split; [done|]. split; [done|]. by intros Hl _; split; [apply H2|]. }
  destruct (service_action c =? PR_OUT_RELEASE).
  { destruct (release_refines p s (pr_type c) Hok Hv) as (p' & st & told & -> & H1 & H2 & H3).
    eexists _, _, _. split; [done|]. split; [done|]. by intros Hl _; split; [apply H2|]. }
  destruct (service_action c =? PR_OUT_CLEAR).
  { destruct (clear_refines p s Hok Hv) as (p' & st & told & -> & H1 & H2 & H3).
    eexists _, _, _. split; [done|]. by split. }
  destruct ((service_action c =? PR_OUT_PREEMPT) || (service_action c =? PR_OUT_PREEMPT_AND_ABORT)) eqn:Ep;
    [|apply executes_refused].
  destruct (preempt_returns p s (service_action_key c) (pr_type c) Hok Hv Hmine) as (p' & st & told & Hret & Hok').
  exists p', st, told. split; [done|]. split; [done|]. intros Hl [_ Hp].
  destruct (preempt_refines p s (service_action_key c) (pr_type c) Hok Hl Hv Hmine (Hp Ep))
    as (p'' & st' & told' & Hret' & _ & H).
  rewrite Hret in Hret'. by injection Hret' as <- <- <-.
Qed.

(** The check of the key that the command presents. *)
Definition presents_key : bool :=
  (service_action c =? PR_OUT_REGISTER_AND_IGNORE_EXISTING_KEY)
  || match keys_of (registrations p) !! s with
     | Some k => k =? reservation_key c
     | None => service_action c =? PR_OUT_REGISTER
     end.

Lemma check_registration_key :
  check_registration p s (reservation_key c) (service_action c)
  = Some (if presents_key then SCSI_STATUS_GOOD else SCSI_STATUS_RESERVATION_CONFLICT).
Proof using Hok Hv.
  unfold check_registration, presents_key.
  rewrite (is_registered_keys p s (ok_table p Hok) Hv), (registration_key_keys p s (ok_table p Hok) Hv).
  rewrite (session_below s Hv). simpl. f_equal.
  destruct (service_action c =? PR_OUT_REGISTER_AND_IGNORE_EXISTING_KEY); simpl; [done|].
  destruct (keys_of (registrations p) !! s) as [k|]; simpl.
  - rewrite andb_false_r. by destruct (k =? reservation_key c).
  - rewrite andb_true_r.
    by destruct (service_action c =? PR_OUT_REGISTER).
Qed.

Lemma presents_key_registered :
  presents_key = true → registering c = false → is_Some (keys_of (registrations p) !! s).
Proof using.
  unfold presents_key, registering. intros H [E1 E2]%orb_false_iff. rewrite E2, E1 in H. simpl in H.
  by destruct (keys_of (registrations p) !! s).
Qed.

Lemma reserve_out_executes :
  executes (pr_persistent_reserve_out used p s c) (spec_out (abs p) s c).
Proof using Hok Hv Hlen Hkey Hroom.
  unfold pr_persistent_reserve_out, spec_out. rewrite check_registration_key.
  assert (∀ a b d e, negb a && negb b && negb d && negb e = negb a && negb (b || d || e)) as Hb
    by (by intros [] [] [] []).
  rewrite Hb. fold (registering c).
  destruct (negb (pr_scope c =? PR_LU_SCOPE) && negb (registering c || (service_action c =? PR_OUT_CLEAR)));
    [apply executes_refused|]. simpl.
  assert (negb (service_action c =? PR_OUT_REGISTER_AND_IGNORE_EXISTING_KEY) &&
          match keys_of (registrations p) !! s with
          | Some k => negb (k =? reservation_key c)
          | None => negb (service_action c =? PR_OUT_REGISTER)
          end = negb presents_key) as ->.
  { unfold presents_key. rewrite negb_orb. f_equal. by destruct (keys_of (registrations p) !! s). }
  destruct presents_key eqn:Ek; simpl; [|apply executes_refused].
  destruct (service_action_executes (presents_key_registered Ek)) as (p' & st & told & -> & Hok' & H). simpl.
  eexists _, st, told. split; [done|]. split.
  { destruct (is_good st && _ && _); [|done]. destruct Hok' as [H1 H2 H3].
    split; [exact H1|exact H2|apply u32_fits]. }
  intros Hl Hr. destruct (H Hl Hr) as [H1 H2]. rewrite <- H2. 
  by destruct (is_good st && _ && _).
Qed.
End Commands.
