(* ===== verification/PrTarget.v ===== *)
(** * The reservations of a target

    The numbers in command blocks and buffers, the context of all the units
    under commands, sessions and resets, and the properties of the
    persistent reservations. *)
From S2P Require Import Prelude PrReserve PrUnit.
From stdpp Require Import options.

(** ** Big-endian numbers in buffers *)

Lemma lor_shiftl_add h l n : 0 <= n → fits n l → Z.lor (Z.shiftl h n) l = h * 2 ^ n + l.
Proof.
  intros Hn [Hl Hl'].
  assert (Z.land (Z.shiftl h n) l = 0) as H0.
  { apply Z.bits_inj'. intros i Hi. rewrite Z.bits_0, Z.land_spec.
    destruct (Z.ltb_spec i n); [by rewrite Z.shiftl_spec_low|].
    rewrite <- (Z.mod_small l (2 ^ n)), Z.mod_pow2_bits_high by lia. apply andb_false_r. }
  by rewrite <- (Z.shiftl_mul_pow2 h n Hn), Z.add_nocarry_lxor, Z.lxor_lor.
Qed.

Lemma get_bigendian16_val b i b0 b1 :
  b !! i = Some b0 → b !! (i + 1)%nat = Some b1 → fits 8 b0 → fits 8 b1 →
  get_bigendian16 b i = Some (b0 * 2 ^ 8 + b1).
Proof.
  intros H0 H1 [] []. unfold get_bigendian16. rewrite H0, H1. simpl. rewrite Z.shiftl_mul_pow2 by lia.
  rewrite u16_id by (split; lia). f_equal. lia.
Qed.

Lemma fits_join n m h l : 0 <= n → 0 <= m → fits n h → fits m l → fits (n + m) (h * 2 ^ m + l).
Proof. unfold fits. intros Hn Hm. rewrite Z.pow_add_r by done. nia. Qed.

Lemma get_bigendian32_val b i h l :
  get_bigendian16 b i = Some h → get_bigendian16 b (i + 2) = Some l → fits 16 h → fits 16 l →
  get_bigendian32 b i = Some (h * 2 ^ 16 + l).
Proof.
  intros Hh Hl Fh Fl. unfold get_bigendian32. rewrite Hh, Hl. simpl. f_equal.
  rewrite u32_id, lor_shiftl_add; [done|lia|done|].
  rewrite Z.shiftl_mul_pow2 by lia. destruct Fh. split; lia.
Qed.

Lemma get_bigendian64_val b i h l :
  get_bigendian32 b i = Some h → get_bigendian32 b (i + 4) = Some l → fits 32 h → fits 32 l →
  get_bigendian64 b i = Some (h * 2 ^ 32 + l).
Proof.
  intros Hh Hl Fh Fl. unfold get_bigendian64. rewrite Hh, Hl. simpl. f_equal.
  rewrite u64_id, lor_shiftl_add; [done|lia|done|].
  rewrite Z.shiftl_mul_pow2 by lia. destruct Fh. split; lia.
Qed.

Lemma get_bigendian16_fits b i v : get_bigendian16 b i = Some v → fits 16 v.
Proof.
  unfold get_bigendian16. destruct (b !! i); simpl; [|done]. destruct (b !! (i + 1)%nat); simpl; [|done].
  intros [= <-]. unfold fits, u16. by apply Z.mod_pos_bound.
Qed.

Lemma get_bigendian32_fits b i v : get_bigendian32 b i = Some v → fits 32 v.
Proof.
  intros H. unfold get_bigendian32 in H. destruct (get_bigendian16 b i) as [h|] eqn:Eh; [|done].
  destruct (get_bigendian16 b (i + 2)) as [l|] eqn:El; [|done].
  pose proof (get_bigendian16_fits _ _ _ Eh) as Fh. pose proof (get_bigendian16_fits _ _ _ El) as Fl.
  pose proof (get_bigendian32_val b i h l Eh El Fh Fl) as H'. unfold get_bigendian32 in H'.
  rewrite Eh, El in H'. rewrite H in H'. injection H' as ->. by apply (fits_join 16 16).
Qed.

Lemma get_bigendian64_fits b i v : get_bigendian64 b i = Some v → fits 64 v.
Proof.
  intros H. unfold get_bigendian64 in H. destruct (get_bigendian32 b i) as [h|] eqn:Eh; [|done].
  destruct (get_bigendian32 b (i + 4)) as [l|] eqn:El; [|done].
  pose proof (get_bigendian32_fits _ _ _ Eh) as Fh. pose proof (get_bigendian32_fits _ _ _ El) as Fl.
  pose proof (get_bigendian64_val b i h l Eh El Fh Fl) as H'. unfold get_bigendian64 in H'.
  rewrite Eh, El in H'. rewrite H in H'. injection H' as ->. by apply (fits_join 32 32).
Qed.

Lemma get_bigendian64_returns b i : (i + 8 <= length b)%nat → is_Some (get_bigendian64 b i).
Proof.
  intros Hl. unfold get_bigendian64, get_bigendian32, get_bigendian16.
  repeat match goal with
  | |- context [b !! ?j] => destruct (lookup_lt_is_Some_2 b j) as [? ->]; [lia|]
  end. done.
Qed.

Lemma parse_pr_out_returns cdb :
  (37 <= length cdb)%nat → ∃ c, parse_pr_out cdb = Some c ∧ fits 64 (service_action_key c).
Proof.
  intros Hl. unfold parse_pr_out. change (Z.to_nat SCSI_CDB_MAX_FIXED_LENGTH) with 16%nat.
  destruct (lookup_lt_is_Some_2 cdb 1) as [b1 ->]; [lia|].
  destruct (lookup_lt_is_Some_2 cdb 2) as [b2 ->]; [lia|].
  destruct (get_bigendian64_returns cdb 16) as [rk ->]; [lia|].
  destruct (get_bigendian64_returns cdb (16 + 8)) as [sk Hsk]; [lia|]. rewrite Hsk.
  destruct (lookup_lt_is_Some_2 cdb (16 + 20)) as [fl ->]; [lia|].
  simpl. eexists. split; [done|]. by apply (get_bigendian64_fits _ _ _ Hsk).
Qed.


(** ** The whole target *)

Record ctx_ok (ctx : pr_context_t) : Prop := {
  ctx_luns : length (pr_info ctx) = Z.to_nat MAX_LUNS;
  ctx_units : Forall pr_ok (pr_info ctx);
  ctx_sessions : length (session_id_used ctx) = Z.to_nat MAX_GLOBAL_SESSION_PLUS_EXTRA
}.

Lemma ctx_insert ctx lun p :
  ctx_ok ctx → pr_ok p → ctx_ok (mk_pr_context (<[lun := p]> (pr_info ctx)) (session_id_used ctx)).
Proof. intros [H1 H2 H3] Hp. split; simpl; [by rewrite length_insert|by apply Forall_insert|exact H3]. Qed.

Lemma set_spc2_ok p s : pr_ok p → pr_ok (set_spc2 p s).
Proof. by intros [H1 H2 H3]. Qed.

Lemma spc2_commands p s :
  pr_ok p → valid_session s →
  (∃ p' ok, persistent_spc2_reserve_lun p s = Some (p', ok) ∧ pr_ok p') ∧
  (∃ p' ok, persistent_spc2_release_lun p s = Some (p', ok) ∧ pr_ok p').
Proof.
  intros Hok Hv. unfold persistent_spc2_reserve_lun, persistent_spc2_release_lun, can_use_spc2_reserve.
  rewrite (session_below s Hv). simpl. destruct (negb _); simpl; [by split; eexists _, _|].
  destruct (negb _ && negb _); split; eexists _, _; split; try done; by apply set_spc2_ok.
Qed.

(** A command registers one session too many. *)
Definition overflows (p : pr_info_t) (cdb : list Z) (s : Z) : Prop :=
  cdb !! 0%nat = Some PERSISTENT_RESERVE_OUT ∧
  ∃ c, parse_pr_out cdb = Some c ∧ registering c = true ∧ may_register c = true ∧ service_action_key c ≠ 0 ∧
    table_full (registrations p) = true ∧ keys_of (registrations p) !! s = None.

#[export] Instance overflows_dec p cdb s : Decision (overflows p cdb s).
Proof.
  destruct (parse_pr_out cdb) as [c|] eqn:E; [|right; by intros (_ & c & Hc & _); rewrite Hc in E].
  destruct (decide (cdb !! 0%nat = Some PERSISTENT_RESERVE_OUT ∧ registering c = true ∧ may_register c = true ∧
    service_action_key c ≠ 0 ∧ table_full (registrations p) = true ∧ keys_of (registrations p) !! s = None))
    as [[H0 H]|H]; [left; split; [done|by exists c]|right].
  intros (H0 & c' & Hc' & H'). rewrite Hc' in E. injection E as ->. apply H. by split.
Defined.

Lemma not_overflows_room p cdb s c :
  ¬ overflows p cdb s → cdb !! 0%nat = Some PERSISTENT_RESERVE_OUT → parse_pr_out cdb = Some c → room p s c.
Proof.
  intros Hno H0 Hc Hr Hm Hk. destruct (table_full (registrations p)) eqn:Ef; [|by left]. right.
  destruct (keys_of (registrations p) !! s) eqn:Ek; [done|]. destruct Hno. split; [done|]. by exists c.
Qed.

Lemma full_add p s k :
  table_ok (registrations p) → valid_session s → table_full (registrations p) = true →
  keys_of (registrations p) !! s = None → pr_info_add_registration p s k = Some None.
Proof.
  intros [Hl Hs Hu] Hv Hf Hk. unfold pr_info_add_registration. rewrite (session_below s Hv), add_loop_spec. simpl.
  rewrite find_session_keys in Hk by eauto with pr.
  destruct (find_session (registrations p) s) as [i|] eqn:E; simpl in Hk.
  { destruct (find_session_Some _ _ _ E) as [k' Hi]. by rewrite Hi in Hk. }
  destruct (find_session (registrations p) SESSION_ID_NONE) eqn:En; [|done].
  by rewrite (proj2 (table_full_find _)) in Hf by (by rewrite En).
Qed.

Definition valid_lun (lun : Z) : Prop := 0 <= lun < MAX_LUNS.

Lemma ctx_lookup ctx lun :
  ctx_ok ctx → valid_lun lun → ∃ p, pr_info ctx !! Z.to_nat lun = Some p ∧ pr_ok p.
Proof.
  intros [Hl Hu _] Hv. destruct (lookup_lt_is_Some_2 (pr_info ctx) (Z.to_nat lun)) as [p Hp].
  { rewrite Hl. apply Z2Nat.inj_lt; [apply Hv|done|apply Hv]. }
  exists p. split; [done|]. by apply (proj1 (Forall_lookup _ _) Hu (Z.to_nat lun)).
Qed.

Lemma reserve_out_returns ctx lun cdb s p :
  ctx_ok ctx → pr_info ctx !! Z.to_nat lun = Some p → valid_session s → (37 <= length cdb)%nat →
  ¬ overflows p cdb s →
  ∃ ctx' st told, pr_reserve_out ctx lun cdb s = Some (ctx', st, told) ∧ ctx_ok ctx'.
Proof.
  intros Hok Hp Hv Hlen Hno. unfold pr_reserve_out. rewrite (session_below s Hv), Hp. simpl.
  assert (pr_ok p) as Hpok by (by apply (proj1 (Forall_lookup _ _) (ctx_units _ Hok) _ _ Hp)).
  destruct (lookup_lt_is_Some_2 cdb 0) as [b0 Hb0]; [lia|]. rewrite Hb0. simpl.
  destruct (spc2_commands p s Hpok Hv) as [(p1 & ok1 & H1 & Hok1) (p2 & ok2 & H2 & Hok2)].
  destruct (b0 =? RESERVE_6); [rewrite H1; eexists _, _, _; split; [done|by apply ctx_insert]|].
  destruct (b0 =? RELEASE_6); [rewrite H2; eexists _, _, _; split; [done|by apply ctx_insert]|].
  destruct (b0 =? PERSISTENT_RESERVE_OUT) eqn:E; [|by eexists _, _, _].
  apply Z.eqb_eq in E. subst b0.
  destruct (parse_pr_out_returns cdb Hlen) as (c & Hc & Hf). rewrite Hc. simpl.
  destruct (reserve_out_executes (session_id_used ctx) p s c Hpok Hv (ctx_sessions _ Hok) Hf
              (not_overflows_room p cdb s c Hno Hb0 Hc)) as (p' & st & told & -> & Hok' & _). simpl.
  eexists _, _, _. split; [done|by apply ctx_insert].
Qed.

Lemma overflows_aborts ctx lun cdb s p :
  ctx_ok ctx → pr_info ctx !! Z.to_nat lun = Some p → valid_session s →
  overflows p cdb s → pr_reserve_out ctx lun cdb s = None.
Proof.
  intros Hok Hp Hv (H0 & c & Hc & Hr & Hm & Hk & Hf & Hn). unfold pr_reserve_out.
  rewrite (session_below s Hv), Hp, H0. simpl. rewrite Hc. simpl.
  assert (pr_ok p) as Hpok by (by apply (proj1 (Forall_lookup _ _) (ctx_units _ Hok) _ _ Hp)).
  assert (pr_persistent_reserve_out (session_id_used ctx) p s c = None) as ->; [|done].
  assert (persistent_register_lun (session_id_used ctx) p s (service_action_key c) = None) as Hreg.
  { unfold persistent_register_lun. rewrite (session_below s Hv). apply Z.eqb_neq in Hk. rewrite Hk. simpl.
    by rewrite (full_add p s _ (ok_table p Hpok) Hv Hf Hn). }
  unfold pr_persistent_reserve_out. rewrite (check_registration_key p s c Hpok Hv).
  unfold presents_key. rewrite Hn, orb_comm. fold (registering c). rewrite Hr.
  unfold registering in Hr. unfold pr_service_action, may_register in *. apply Z.eqb_neq in Hk. rewrite Hk.
  destruct (service_action c =? PR_OUT_REGISTER) eqn:E0; simpl in *.
  - rewrite andb_false_r. simpl. destruct (spec_i_pt c =? 0); simpl in *; [by rewrite Hreg|]. by rewrite Hm, Hreg.
  - rewrite Hr, andb_false_r. simpl. destruct (spec_i_pt c =? 1); [done|by rewrite Hreg].
Qed.

Lemma add_session_returns ctx s :
  ctx_ok ctx → valid_session s → ∃ ctx', pr_add_session ctx s = Some ctx' ∧ ctx_ok ctx'.
Proof.
  intros Hok Hv. unfold pr_add_session. rewrite (session_below s Hv). simpl.
  assert (∀ l, Forall pr_ok l → ∃ l', mapM (λ p, pr_info_del_registration p s) l = Some l'
                                 ∧ Forall pr_ok l' ∧ length l' = length l) as Hmap.
  { induction 1 as [|p l Hp _ (l' & IH & H1 & H2)]; [by exists []|].
    destruct (del_registration p s (ok_table p Hp) Hv) as (t & Hd & Hf & _).
    exists (set_registrations p t :: l'). simpl. rewrite Hd. simpl. rewrite IH. split; [done|]. split; [|simpl; lia].
    constructor; [|done]. apply set_registrations_ok; [done|]. by apply (freed_table (registrations p)), ok_table. }
  destruct (Hmap _ (ctx_units _ Hok)) as (l' & -> & Hu & Hl). simpl. unfold set_used.
  rewrite bool_decide_true.
  - simpl. eexists. split; [done|]. split; simpl; [by rewrite Hl; apply Hok|done|].
    rewrite length_insert. exact (ctx_sessions _ Hok).
  - rewrite (ctx_sessions _ Hok). destruct Hv as [H1 H2]. apply Z2Nat.inj_lt; [done|done|].
    apply (Z.lt_trans _ _ _ H2). done.
Qed.

(** No registration counts as one to keep. *)
Lemma nothing_kept ctx s :
  ctx_ok ctx → valid_session s → session_has_reserve_data ctx s = Some false.
Proof.
  intros Hok Hv. unfold session_has_reserve_data. rewrite (session_below_extra s Hv). simpl.
  destruct (lookup_lt_is_Some_2 (session_id_used ctx) (Z.to_nat s)) as [u ->].
  { rewrite (ctx_sessions _ Hok). destruct Hv as [H1 H2]. apply Z2Nat.inj_lt; [done|done|].
    apply (Z.lt_trans _ _ _ H2). done. }
  simpl. destruct u; simpl; [|done]. pose proof (ctx_units _ Hok) as Hu.
  induction Hu as [|p l Hp _ IH]; simpl; [done|].
  rewrite (is_registered_keys p s (ok_table p Hp) Hv). simpl. by destruct (bool_decide _).
Qed.

Lemma del_session_returns ctx s :
  ctx_ok ctx → valid_session s →
  pr_del_session ctx s = Some (mk_pr_context (pr_info ctx) (<[Z.to_nat s := false]> (session_id_used ctx)))
  ∧ ctx_ok (mk_pr_context (pr_info ctx) (<[Z.to_nat s := false]> (session_id_used ctx))).
Proof.
  intros Hok Hv. unfold pr_del_session. rewrite (session_below s Hv), (nothing_kept ctx s Hok Hv). simpl.
  unfold set_used. rewrite bool_decide_true.
  - split; [done|]. destruct Hok as [H1 H2 H3]. split; [exact H1|exact H2|]. simpl. by rewrite length_insert.
  - rewrite (ctx_sessions _ Hok). destruct Hv as [H1 H2]. apply Z2Nat.inj_lt; [done|done|].
    apply (Z.lt_trans _ _ _ H2). done.
Qed.

Lemma reset_lun_returns ctx lun :
  ctx_ok ctx → valid_lun lun → ∃ ctx', pr_reset_lun ctx lun = Some ctx' ∧ ctx_ok ctx'.
Proof.
  intros Hok Hv. unfold pr_reset_lun. destruct (ctx_lookup ctx lun Hok Hv) as (p & -> & Hp). simpl.
  eexists. split; [done|]. by apply ctx_insert, set_spc2_ok.
Qed.

Lemma alloc_ok : ctx_ok pr_context_alloc.
Proof.
  split; [apply length_replicate| |apply length_replicate].
  apply Forall_replicate. split; [|done|done]. split; [done| |].
  - apply Forall_map, Forall_true. by left.
  - intros i j r r' Hr _ _ Hn. exfalso. apply Hn. simpl in Hr.
    by repeat (destruct i as [|i]; simpl in Hr; [by injection Hr as <-|]).
Qed.

(** What can happen to the target: commands of the initiators, sessions that
    come and go, resets of units. *)
Inductive pr_step (ctx : pr_context_t) : pr_context_t → Prop :=
  | step_out lun cdb s ctx' st told :
      valid_lun lun → valid_session s → (37 <= length cdb)%nat →
      pr_reserve_out ctx lun cdb s = Some (ctx', st, told) → pr_step ctx ctx'
  | step_add s ctx' : valid_session s → pr_add_session ctx s = Some ctx' → pr_step ctx ctx'
  | step_del s ctx' : valid_session s → pr_del_session ctx s = Some ctx' → pr_step ctx ctx'
  | step_reset lun ctx' : valid_lun lun → pr_reset_lun ctx lun = Some ctx' → pr_step ctx ctx'.

Lemma pr_step_ok ctx ctx' : ctx_ok ctx → pr_step ctx ctx' → ctx_ok ctx'.
Proof.
  intros Hok [lun cdb s ctx1 st told Hl Hv Hlen H|s ctx1 Hv H|s ctx1 Hv H|lun ctx1 Hl H].
  - destruct (ctx_lookup ctx lun Hok Hl) as (p & Hp & _).
    assert (¬ overflows p cdb s) as Hno.
    { intros Ho. by rewrite (overflows_aborts ctx lun cdb s p Hok Hp Hv Ho) in H. }
    destruct (reserve_out_returns ctx lun cdb s p Hok Hp Hv Hlen Hno) as (ctx2 & st2 & told2 & H2 & Hok2).
    rewrite H in H2. by injection H2 as <- <- <-.
  - destruct (add_session_returns ctx s Hok Hv) as (ctx2 & H2 & Hok2). rewrite H in H2. by injection H2 as <-.
  - destruct (del_session_returns ctx s Hok Hv) as (H2 & Hok2). rewrite H in H2. by injection H2 as ->.
  - destruct (reset_lun_returns ctx lun Hok Hl) as (ctx2 & H2 & Hok2). rewrite H in H2. by injection H2 as <-.
Qed.

Lemma pr_reachable_ok ctx : rtc pr_step pr_context_alloc ctx → ctx_ok ctx.
Proof.
  assert (∀ c c', rtc pr_step c c' → ctx_ok c → ctx_ok c') as H.
  { induction 1 as [|c c1 c2 Hs _ IH]; [done|]. intros Hc. by apply IH, (pr_step_ok c). }
  intros Hr. by apply (H _ _ Hr), alloc_ok.
Qed.

(** ** Reading the keys *)

Lemma store_returns bs off b :
  (off + length bs <= length b)%nat → store bs off b = Some (list_inserts off bs b).
Proof. intros H. unfold store. by rewrite bool_decide_true. Qed.

Lemma store_inv bs off b b' :
  store bs off b = Some b' →
  length b' = length b ∧ (off + length bs <= length b)%nat ∧
  (∀ i x, bs !! i = Some x → b' !! (off + i)%nat = Some x) ∧
  (∀ i, (i < off)%nat ∨ (off + length bs <= i)%nat → b' !! i = b !! i).
Proof.
  unfold store. case_bool_decide as H; simpl; [|done]. intros [= <-].
  split; [by apply length_inserts|]. split; [done|]. split.
  - intros i x Hx. pose proof (lookup_lt_Some _ _ _ Hx). rewrite list_lookup_inserts; [|lia|lia].
    by replace (off + i - off)%nat with i by lia.
  - intros i [Hi|Hi]; [by apply list_lookup_inserts_lt|by apply list_lookup_inserts_ge].
Qed.

Lemma byte_of_val v n : 0 <= n → byte_of v n = (v / 2 ^ n) mod 2 ^ 8.
Proof. intros Hn. unfold byte_of. rewrite Z.shiftr_div_pow2 by done. apply (Z.land_ones _ 8). lia. Qed.

Lemma byte_of_fits v n : 0 <= n → fits 8 (byte_of v n).
Proof. intros. rewrite byte_of_val by done. by apply Z.mod_pos_bound. Qed.

(** Two bytes, or two halves, make the number again. *)
Lemma join_halves v n m k j : 0 <= n → 0 <= m → k = n + m → j = m + m →
  ((v / 2 ^ k) mod 2 ^ m) * 2 ^ m + (v / 2 ^ n) mod 2 ^ m = (v / 2 ^ n) mod 2 ^ j.
Proof.
  intros Hn Hm -> ->. rewrite !Z.pow_add_r by done. rewrite <- Z.div_div by lia.
  rewrite (Z.rem_mul_r (v / 2 ^ n)) by lia. lia.
Qed.

Lemma get16_bytes b off v n :
  0 <= n → b !! off = Some (byte_of v (n + 8)) → b !! (off + 1)%nat = Some (byte_of v n) →
  get_bigendian16 b off = Some ((v / 2 ^ n) mod 2 ^ 16).
Proof.
  intros Hn H0 H1. rewrite (get_bigendian16_val _ _ _ _ H0 H1) by (apply byte_of_fits; lia).
  rewrite !byte_of_val by lia. f_equal. apply (join_halves v n 8 (n + 8) 16); lia.
Qed.

Lemma get32_set v off b b' :
  fits 32 v → set_bigendian32 v off b = Some b' → get_bigendian32 b' off = Some v.
Proof.
  intros Hf H. unfold set_bigendian32 in H. rewrite u32_id in H by done.
  apply store_inv in H as (_ & _ & Hb & _).
  pose proof (Hb 0%nat _ eq_refl) as H0. pose proof (Hb 1%nat _ eq_refl) as H1.
  pose proof (Hb 2%nat _ eq_refl) as H2. pose proof (Hb 3%nat _ eq_refl) as H3. clear Hb.
  rewrite Nat.add_0_r in H0. replace (off + 3)%nat with (off + 2 + 1)%nat in H3 by lia.
  pose proof (get16_bytes b' off v 16 ltac:(lia) H0 H1) as Hh.
  pose proof (get16_bytes b' (off + 2) v 0 ltac:(lia) H2 H3) as Hl.
  rewrite (get_bigendian32_val _ _ _ _ Hh Hl) by (by apply Z.mod_pos_bound).
  f_equal. rewrite (join_halves v 0 16 16 32) by lia. rewrite Z.div_1_r. by apply Z.mod_small.
Qed.

Lemma get64_set v off b b' :
  fits 64 v → set_bigendian64 v off b = Some b' → get_bigendian64 b' off = Some v.
Proof.
  intros Hf H. unfold set_bigendian64 in H. rewrite u64_id in H by done.
  apply store_inv in H as (_ & _ & Hb & _).
  pose proof (Hb 0%nat _ eq_refl) as H0. pose proof (Hb 1%nat _ eq_refl) as H1.
  pose proof (Hb 2%nat _ eq_refl) as H2. pose proof (Hb 3%nat _ eq_refl) as H3.
  pose proof (Hb 4%nat _ eq_refl) as H4. pose proof (Hb 5%nat _ eq_refl) as H5.
  pose proof (Hb 6%nat _ eq_refl) as H6. pose proof (Hb 7%nat _ eq_refl) as H7. clear Hb.
  rewrite Nat.add_0_r in H0. replace (off + 3)%nat with (off + 2 + 1)%nat in H3 by lia.
  replace (off + 5)%nat with (off + 4 + 1)%nat in H5 by lia.
  replace (off + 6)%nat with (off + 4 + 2)%nat in H6 by lia.
  replace (off + 7)%nat with (off + 4 + 2 + 1)%nat in H7 by lia.
  pose proof (get16_bytes b' off v 48 ltac:(lia) H0 H1) as G0.
  pose proof (get16_bytes b' (off + 2) v 32 ltac:(lia) H2 H3) as G1.
  pose proof (get16_bytes b' (off + 4) v 16 ltac:(lia) H4 H5) as G2.
  pose proof (get16_bytes b' (off + 4 + 2) v 0 ltac:(lia) H6 H7) as G3.
  pose proof (get_bigendian32_val _ _ _ _ G0 G1) as Hh. pose proof (get_bigendian32_val _ _ _ _ G2 G3) as Hl.
  rewrite (join_halves v 32 16 48 32) in Hh by lia. rewrite (join_halves v 0 16 16 32) in Hl by lia.
  rewrite (get_bigendian64_val _ _ _ _ (Hh ltac:(by apply Z.mod_pos_bound) ltac:(by apply Z.mod_pos_bound))
             (Hl ltac:(by apply Z.mod_pos_bound) ltac:(by apply Z.mod_pos_bound))) by (by apply Z.mod_pos_bound).
  f_equal. rewrite (join_halves v 0 32 32 64) by lia. rewrite Z.div_1_r. by apply Z.mod_small.
Qed.

Lemma get64_local b b' off :
  (∀ i, (off <= i < off + 8)%nat → b !! i = b' !! i) → get_bigendian64 b off = get_bigendian64 b' off.
Proof.
  intros H. unfold get_bigendian64, get_bigendian32, get_bigendian16.
  rewrite !H by lia. done.
Qed.

Lemma get32_local b b' off :
  (∀ i, (off <= i < off + 4)%nat → b !! i = b' !! i) → get_bigendian32 b off = get_bigendian32 b' off.
Proof. intros H. unfold get_bigendian32, get_bigendian16. rewrite !H by lia. done. Qed.

(** The keys of the sessions that are connected. *)
Definition active (used : list bool) (r : pr_registration_t) : bool :=
  negb (session_id r =? SESSION_ID_NONE) && negb (key r =? 0) && in_use used (session_id r).

Definition active_keys (used : list bool) (l : list pr_registration_t) : list Z :=
  map key (List.filter (active used) l).

Lemma set_bigendian64_returns v off b : (off + 8 <= length b)%nat → is_Some (set_bigendian64 v off b).
Proof. intros H. unfold set_bigendian64. by rewrite store_returns. Qed.

Lemma set_bigendian32_returns v off b : (off + 4 <= length b)%nat → is_Some (set_bigendian32 v off b).
Proof. intros H. unfold set_bigendian32. by rewrite store_returns. Qed.

Lemma read_keys_loop_spec used l d n :
  length used = Z.to_nat MAX_GLOBAL_SESSION_PLUS_EXTRA → Forall slot_ok l →
  (n + 8 + length l * 8 <= length d)%nat →
  let ks := active_keys used l in
  ∃ d', read_keys_loop used l d n = Some (d', (n + length ks * 8)%nat) ∧ length d' = length d ∧
    (∀ i, (i < n + 8)%nat → d' !! i = d !! i) ∧
    ∀ j k, ks !! j = Some k → get_bigendian64 d' (n + 8 + j * 8) = Some k.
Proof.
  intros Hlen Hs. revert d n. induction Hs as [|r l Hr _ IH]; intros d n Hn ks; simpl in Hn.
  { exists d. simpl. rewrite Nat.add_0_r. done. }
  assert ((if negb (session_id r =? SESSION_ID_NONE) && negb (key r =? 0)
           then used !! Z.to_nat (session_id r) else Some false) = Some (active used r)) as Ha.
  { unfold active, in_use. destruct (negb (session_id r =? SESSION_ID_NONE) && negb (key r =? 0)) eqn:E; [|done].
    destruct Hr as [->|[[H1 H2] _]]; [done|].
    destruct (lookup_lt_is_Some_2 used (Z.to_nat (session_id r))) as [u ->]; [|done].
    rewrite Hlen. apply Z2Nat.inj_lt; [done|done|]. apply (Z.lt_trans _ _ _ H2). done. }
  simpl. rewrite Ha. simpl. unfold ks, active_keys. simpl. destruct (active used r) eqn:Er; simpl.
  - assert (fits 64 (key r)) as Hf by (by destruct Hr as [->|(_ & _ & ?)]).
    destruct (set_bigendian64_returns (key r) (n + 8) d) as [d1 Hd1]; [lia|]. rewrite Hd1. simpl.
    pose proof (get64_set _ _ _ _ Hf Hd1) as Hget.
    unfold set_bigendian64 in Hd1. apply store_inv in Hd1 as (Hl1 & _ & _ & Hout). simpl in Hout.
    destruct (IH d1 (n + 8)%nat) as (d' & Hret & Hl' & Hlow & Hks); [lia|].
    exists d'. split; [rewrite Hret; do 2 f_equal; fold (active_keys used l); lia|]. split; [lia|]. split.
    + intros i Hi. rewrite Hlow by lia. apply Hout. by left.
    + intros [|j] k Hk; simpl in Hk.
      * injection Hk as <-. rewrite <- Hget, Nat.add_0_r.
        apply get64_local. intros i Hi. apply Hlow. lia.
      * replace (n + 8 + S j * 8)%nat with (n + 8 + 8 + j * 8)%nat by lia. by apply Hks.
  - destruct (IH d n) as (d' & Hret & Hl' & Hlow & Hks); [lia|]. by exists d'.
Qed.

Lemma read_keys_spec ctx lun p cdb data_out s :
  ctx_ok ctx → pr_info ctx !! Z.to_nat lun = Some p → valid_session s →
  (9 <= length cdb)%nat → (264 <= length data_out)%nat →
  (∀ b, cdb !! 1%nat = Some b → Z.land b 0x1f = PR_IN_READ_KEYS) →
  let ks := active_keys (session_id_used ctx) (registrations p) in
  ∃ d n, pr_reserve_in ctx lun cdb data_out s = Some (d, SCSI_STATUS_OK n) ∧
    get_bigendian32 d 0 = Some (pr_generation p) ∧
    get_bigendian32 d 4 = Some (8 * Z.of_nat (length ks)) ∧
    ∀ j k, ks !! j = Some k → get_bigendian64 d (8 + j * 8) = Some k.
Proof.
  intros Hok Hp Hv Hcdb Hlen Hact ks.
  assert (pr_ok p) as Hpok by (by apply (proj1 (Forall_lookup _ _) (ctx_units _ Hok) _ _ Hp)).
  pose proof (ok_table p Hpok) as [Ht Hslots _].
  assert (length ks <= 32)%nat as Hks.
  { unfold ks, active_keys. rewrite length_map. etransitivity; [apply List.filter_length_le|].
    by rewrite Ht. }
  unfold pr_reserve_in. rewrite Hp, (session_below s Hv). simpl.
  destruct (lookup_lt_is_Some_2 cdb 1) as [b1 Hb1]; [lia|]. rewrite Hb1. simpl. rewrite (Hact b1 Hb1).
  destruct (get_bigendian16 cdb 7) as [al|] eqn:Eal.
  2: { unfold get_bigendian16 in Eal. simpl in Eal.
       destruct (lookup_lt_is_Some_2 cdb 7) as [x7 Hx]; [lia|]. rewrite Hx in Eal.
       destruct (lookup_lt_is_Some_2 cdb 8) as [x8 Hy]; [lia|]. by rewrite Hy in Eal. }
  simpl. destruct (set_bigendian32_returns (pr_generation p) 0 data_out) as [d0 Hd0]; [lia|]. rewrite Hd0. simpl.
  pose proof (get32_set _ _ _ _ (ok_generation p Hpok) Hd0) as Hgen.
  apply store_inv in Hd0 as (Hl0 & _ & _ & _).
  destruct (read_keys_loop_spec (session_id_used ctx) (registrations p) d0 0 (ctx_sessions _ Hok) Hslots)
    as (d1 & Hret & Hl1 & Hlow1 & Hkeys).
  { rewrite Ht. change (Z.to_nat MAX_REGISTRATIONS) with 32%nat. lia. }
  fold ks in Hret, Hkeys. rewrite Hret. simpl.
  destruct (set_bigendian32_returns (Z.of_nat (length ks * 8)) 4 d1) as [d2 Hd2]; [lia|].
  rewrite Hd2. simpl. eexists _, _. split; [done|].
  pose proof Hd2 as Hd2'. apply store_inv in Hd2 as (_ & _ & _ & Hout). simpl in Hout.
  split; [|split].
  - rewrite <- Hgen. apply get32_local. intros i Hi. rewrite Hout by lia. apply Hlow1. lia.
  - etransitivity; [apply (get32_set _ _ _ _) in Hd2' as ->; [done|split; lia]|]. f_equal. lia.
  - intros j k Hk. rewrite <- (Hkeys j k Hk). apply get64_local. intros i Hi. apply Hout. lia.
Qed.

Lemma set_returns (op : nat → list Z → option (list Z)) bs off b :
  op = store bs → (off + length bs <= length b)%nat → ∃ b', op off b = Some b' ∧ length b' = length b.
Proof.
  intros -> H. rewrite store_returns by done. eexists. split; [done|by apply length_inserts].
Qed.

Ltac stores :=
  repeat match goal with
  | |- context [set_bigendian16 ?v ?off ?d] =>
      let d' := fresh "d" in let H := fresh "H" in
      destruct (set_returns (set_bigendian16 v) _ off d eq_refl) as (d' & H & ?); [simpl; lia|]; rewrite H; simpl
  | |- context [set_bigendian32 ?v ?off ?d] =>
      let d' := fresh "d" in let H := fresh "H" in
      destruct (set_returns (set_bigendian32 v) _ off d eq_refl) as (d' & H & ?); [simpl; lia|]; rewrite H; simpl
  | |- context [set_bigendian64 ?v ?off ?d] =>
      let d' := fresh "d" in let H := fresh "H" in
      destruct (set_returns (set_bigendian64 v) _ off d eq_refl) as (d' & H & ?); [simpl; lia|]; rewrite H; simpl
  | |- context [store ?bs ?off ?d] =>
      let d' := fresh "d" in let H := fresh "H" in
      destruct (set_returns (store bs) _ off d eq_refl) as (d' & H & ?); [simpl; lia|]; rewrite H; simpl
  end.

Lemma reserve_in_returns ctx lun cdb data_out s :
  ctx_ok ctx → valid_lun lun → valid_session s → (9 <= length cdb)%nat → (264 <= length data_out)%nat →
  is_Some (pr_reserve_in ctx lun cdb data_out s).
Proof.
  intros Hok Hlun Hv Hcdb Hlen. destruct (ctx_lookup ctx lun Hok Hlun) as (p & Hp & Hpok).
  destruct (lookup_lt_is_Some_2 cdb 1) as [b1 Hb1]; [lia|].
  destruct (decide (Z.land b1 0x1f = PR_IN_READ_KEYS)) as [Hrk|Hrk].
  { destruct (read_keys_spec ctx lun p cdb data_out s Hok Hp Hv Hcdb Hlen) as (d & n & -> & _); [|done].
    intros b Hb. by rewrite Hb1 in Hb; injection Hb as <-. }
  unfold pr_reserve_in. rewrite Hp, Hb1, (session_below s Hv). simpl.
  unfold get_bigendian16. destruct (lookup_lt_is_Some_2 cdb 7) as [x7 ->]; [lia|].
  destruct (lookup_lt_is_Some_2 cdb (7 + 1)) as [x8 ->]; [lia|]. simpl.
  apply Z.eqb_neq in Hrk. rewrite Hrk.
  destruct (_ =? PR_IN_READ_RESERVATION).
  - stores. destruct (negb (is_lun_reserved p)); stores; [done|].
    destruct (get_holder_key_returns p Hpok) as [hk ->]. simpl. by stores.
  - destruct (_ =? PR_IN_REPORT_CAPABILITIES); [by stores|done].
Qed.

Lemma check_rights_returns p op s : pr_ok p → valid_session s → is_Some (pr_check_rights p op s).
Proof.
  intros Hok Hv. unfold pr_check_rights. rewrite (session_below s Hv). simpl.
  rewrite (is_holder_holds p s Hok Hv), (is_registered_keys p s (ok_table p Hok) Hv).
  repeat (match goal with |- is_Some (if ?b then _ else _) => destruct b end; try done).
Qed.

(** ** Properties *)

(** C19: whatever the commands of the initiators, the sessions that come and
    go and the resets, no assertion of the target fails and no access is out
    of a table, except on a command that registers a session in a unit whose
    32 slots are taken, which always stops the target; the tables stay well
    formed: no session twice, no null key, the holder in the table. *)
Theorem pr_target_sound ctx lun cdb data_out op s :
  rtc pr_step pr_context_alloc ctx →
  valid_lun lun → valid_session s → (37 <= length cdb)%nat → (264 <= length data_out)%nat →
  ctx_ok ctx ∧
  (pr_reserve_out ctx lun cdb s = None ↔
   ∃ p, pr_info ctx !! Z.to_nat lun = Some p ∧ overflows p cdb s) ∧
  is_Some (pr_reserve_in ctx lun cdb data_out s) ∧
  is_Some (pr_add_session ctx s) ∧ is_Some (pr_del_session ctx s) ∧ is_Some (pr_reset_lun ctx lun) ∧
  ∃ p, pr_info ctx !! Z.to_nat lun = Some p ∧ is_Some (pr_check_rights p op s).
Proof.
  intros Hr Hl Hv Hc Hd. pose proof (pr_reachable_ok ctx Hr) as Hok.
  destruct (ctx_lookup ctx lun Hok Hl) as (p & Hp & Hpok).
  split; [done|]. split; [|split; [|split; [|split; [|split]]]].
  - split; [|intros (p' & Hp' & Ho); by apply (overflows_aborts ctx lun cdb s p')].
    intros Hnone. exists p. split; [done|]. apply dec_stable. intros Hno.
    by destruct (reserve_out_returns ctx lun cdb s p Hok Hp Hv Hc Hno) as (? & ? & ? & H & _); rewrite H in Hnone.
  - apply reserve_in_returns; [done..|lia|done].
  - by destruct (add_session_returns ctx s Hok Hv) as (? & -> & _).
  - by destruct (del_session_returns ctx s Hok Hv) as [-> _].
  - by destruct (reset_lun_returns ctx lun Hok Hl) as (? & -> & _).
  - exists p. split; [done|by apply check_rights_returns].
Qed.


(** C20: who may read or write a unit: the owner of its SPC-2 reservation when
    there is one, and else the sessions to which the type of the reservation
    gives access. Two sessions never both have access to a unit reserved by
    SPC-2 or with exclusive access, and never both write to one reserved with
    exclusive writing. *)
Theorem pr_rights_exclusive p op s s' :
  pr_ok p → valid_session s → valid_session s' → medium_command op = true →
  pr_check_rights p op s
  = Some (if spc2_reserve p =? SPC2_RESERVE_NONE then may_access (abs p) (is_write op) s
          else u32 s =? spc2_reserve p) ∧
  (pr_check_rights p op s = Some true → pr_check_rights p op s' = Some true →
   spc2_reserve p ≠ SPC2_RESERVE_NONE ∨ reservation_type p = PR_TYPE_EXCLUSIVE_ACCESS
     ∨ (reservation_type p = PR_TYPE_WRITE_EXCLUSIVE ∧ is_write op = true) →
   s = s').
Proof.
  intros Hok Hv Hv' Hop.
  assert (∀ t, valid_session t → pr_check_rights p op t
    = Some (if spc2_reserve p =? SPC2_RESERVE_NONE then may_access (abs p) (is_write op) t
            else u32 t =? spc2_reserve p)) as Hrights.
  { intros t Ht. destruct (Z.eqb_spec (spc2_reserve p) SPC2_RESERVE_NONE) as [E|E].
    - by apply check_rights_access.
    - unfold pr_check_rights, medium_command in *. rewrite (session_below t Ht). apply Z.eqb_neq in E. rewrite E.
      apply negb_true_iff, orb_false_iff in Hop as [_ ->]. simpl. by rewrite andb_true_r, negb_involutive. }
  split; [by apply Hrights|]. rewrite !Hrights by done. intros [= H1] [= H2].
  destruct (Z.eqb_spec (spc2_reserve p) SPC2_RESERVE_NONE) as [E|E].
  - intros [Hn|Ht]; [done|]. unfold may_access in H1, H2. simpl in H1, H2.
    destruct Ht as [Ht|[Ht Hw]]; rewrite Ht in H1, H2; simpl in H1, H2; [|rewrite Hw in H1, H2; simpl in H1, H2];
      apply bool_decide_eq_true in H1, H2; congruence.
  - intros _. apply Z.eqb_eq in H1, H2. rewrite <- H2 in H1.
    rewrite !u32_id in H1; [done|split; [apply Hv'|by apply (Z.lt_trans _ _ _ (proj2 Hv'))]
      |split; [apply Hv|by apply (Z.lt_trans _ _ _ (proj2 Hv))]].
Qed.

Lemma preempt_holder_slot p s k h :
  pr_ok p → live p → one_holder_type (reservation_type p) = true →
  holder_session p = Some h → h ≠ s → keys_of (registrations p) !! h = Some k →
  preempt_table s k (registrations p) !! Z.to_nat (holder_index p) = Some no_registration.
Proof.
  intros Hok Hl Ht Hh Hne Hk. destruct (live_holder p Hok Hl Ht) as (h' & k' & Hslot & Hv & _ & Hh' & Hk').
  rewrite Hh in Hh'. injection Hh' as <-. rewrite Hk in Hk'. injection Hk' as <-.
  unfold preempt_table. rewrite list_lookup_fmap, Hslot. simpl. unfold preempted. simpl.
  rewrite Z.eqb_refl. pose proof (session_not_none h Hv). simpl.
  assert (negb (h =? s) && negb (h =? SESSION_ID_NONE) = true) as -> by lia. done.
Qed.

(** C37: a session that preempts the holder of a unit does not get the
    reservation: it keeps its type and has no holder, so that with exclusive
    access no session at all reads or writes any more; and when the slot that
    the holder left is the first free one, the next session that registers
    there, with any key, finds itself the holder. *)
Theorem pr_preempt_orphans p s h k t access_type :
  pr_ok p → live p → one_holder_type (reservation_type p) = true →
  valid_session s → is_Some (keys_of (registrations p) !! s) →
  holder_session p = Some h → h ≠ s → keys_of (registrations p) !! h = Some k →
  ∃ p' told, persistent_preempt_lun p s k access_type = Some (p', SCSI_STATUS_OK 0, told) ∧
    reservation_type p' = reservation_type p ∧ u_holder (abs p') = None ∧
    (∀ op t', reservation_type p = PR_TYPE_EXCLUSIVE_ACCESS → spc2_reserve p = SPC2_RESERVE_NONE →
       medium_command op = true → valid_session t' → pr_check_rights p' op t' = Some false) ∧
    (valid_session t → keys_of (registrations p') !! t = None →
     find_session (registrations p') SESSION_ID_NONE = Some (Z.to_nat (holder_index p')) →
     ∀ k', k' ≠ 0 → fits 64 k' →
       ∃ p'', pr_info_add_registration p' t k' = Some (Some p'') ∧ u_holder (abs p'') = Some t).
Proof.
  intros Hok Hl Ht Hv Hreg Hh Hne Hk.
  pose proof (preempt_holder_slot p s k h Hok Hl Ht Hh Hne Hk) as Hslot.
  destruct (live_holder p Hok Hl Ht) as (h' & k' & _ & _ & Hk0 & Hh' & Hk').
  rewrite Hh in Hh'. injection Hh' as <-. rewrite Hk in Hk'. injection Hk' as <-.
  assert (negb (all_registrants_type (reservation_type p)) && (k =? 0) = false) as Hlegal by lia.
  destruct (preempt_unfold p s k access_type Hok Hv Hreg Hlegal) as (told & hk & Hhk & i & ki & Hi & Hb & ->).
  set (p1 := set_registrations p (preempt_table s k (registrations p))) in *.
  assert (pr_ok p1) as Hok1 by (apply set_registrations_ok; [done|by apply preempt_table_ok, ok_table]).
  assert (hk = 0) as ->.
  { destruct (holder_slot_ok p1 Hok1 Ht) as (r & Hs & Hr). unfold get_holder_key, pr_info_get_holder_key in Hhk.
    change (reservation_type p1) with (reservation_type p) in Hhk. rewrite Ht, Hs in Hhk.
    change (registrations p1 !! Z.to_nat (holder_index p) = Some r) in Hr.
    change (registrations p1) with (preempt_table s k (registrations p)) in Hr. rewrite Hslot in Hr.
    injection Hr as <-. by injection Hhk. }
  rewrite (one_holder_not_all _ Ht). apply Z.eqb_neq in Hk0. rewrite Hk0, andb_false_r.
  assert (u_holder (abs p1) = None) as Hnone.
  { unfold abs, holder_session. simpl. rewrite Ht, Hslot. done. }
  exists p1, told. split; [done|]. split; [done|]. split; [done|]. split.
  - intros op t' Hea Hspc Hop Hvt. rewrite check_rights_access by done. f_equal.
    unfold may_access. change (u_type (abs p1)) with (reservation_type p). by rewrite Hea, Hnone.
  - intros Hvt Hnew Hfree key' Hkey' Hf.
    destruct (add_registration_takes p1 t key' (ok_table p1 Hok1) Hvt) as (j & Htk & ->).
    { left. apply table_full_find. by rewrite Hfree. }
    eexists. split; [done|]. unfold abs. simpl. rewrite Ht. eapply (holder_session_at _ j); [|done|].
    + simpl. apply list_lookup_insert_eq. destruct Htk as [[? Hj]|(_ & _ & Hj)]; by apply lookup_lt_Some in Hj.
    + simpl. destruct Htk as [[ks Hj]|(_ & Hj & _)].
      * by rewrite (proj2 (lookup_keys_of _ t ks (table_once _ (ok_table p1 Hok1)) (session_not_none _ Hvt))) in Hnew;
          [|exists j].
      * rewrite Hfree in Hj. injection Hj as <-.
        assert (is_lun_reserved p1 = true) as Hr by (unfold is_lun_reserved; by rewrite one_holder_reserved).
        pose proof (ok_holder p1 Hok1 Hr) as Hb1. change (holder_index p1) with (holder_index p) in Hb1 |- *. lia.
Qed.

(** When the holder of a unit unregisters, the keys of every other
    session go with its own. *)
Theorem pr_unregister_wipes used p s :
  pr_ok p → valid_session s → length used = Z.to_nat MAX_GLOBAL_SESSION_PLUS_EXTRA →
  wipes used (abs p) s →
  ∃ p' told, persistent_register_lun used p s 0 = Some (p', SCSI_STATUS_OK 0, told) ∧
    u_keys (abs p') = ∅ ∧ u_keys (spec_register (abs p) s 0).1 ≠ ∅.
Proof.
  intros Hok Hv Hlen (Hh & (t & Hne & k & Hk) & Hall).
  destruct (unregister_returns used p s Hok Hv Hlen) as (p' & told & Hret & _ & Hres).
  assert (unreserves used p s = true) as Hun.
  { unfold unreserves. rewrite Hh, (holds_reserved p s Hh). simpl. change (u_type (abs p)) with (reservation_type p) in Hall.
    destruct (all_registrants_type (reservation_type p)); [simpl|done]. apply bool_decide_eq_true, other_used_nil; [done|].
    by apply Hall. }
  rewrite Hun in Hres. exists p', told. split; [done|]. split; [by rewrite Hres|].
  intros Hnil. assert (delete s (u_keys (abs p)) = ∅) as Hd.
  { unfold spec_register in Hnil. simpl in Hnil. by destruct (holds (abs p) s && _) in Hnil. }
  rewrite <- (lookup_delete_ne _ s) in Hk by done. by rewrite Hd in Hk.
Qed.

(** READ KEYS returns, in a buffer of 264 bytes or more, the generation
    of the unit and the keys of all its registered sessions that are
    connected, in the order of the slots, as big-endian numbers. *)
Theorem pr_read_keys ctx lun p cdb data_out s :
  rtc pr_step pr_context_alloc ctx → pr_info ctx !! Z.to_nat lun = Some p → valid_session s →
  (9 <= length cdb)%nat → (264 <= length data_out)%nat →
  (∀ b, cdb !! 1%nat = Some b → Z.land b 0x1f = PR_IN_READ_KEYS) →
  let ks := active_keys (session_id_used ctx) (registrations p) in
  ∃ d n, pr_reserve_in ctx lun cdb data_out s = Some (d, SCSI_STATUS_OK n) ∧
    get_bigendian32 d 0 = Some (pr_generation p) ∧
    get_bigendian32 d 4 = Some (8 * Z.of_nat (length ks)) ∧
    ∀ j k, ks !! j = Some k → get_bigendian64 d (8 + j * 8) = Some k.
Proof. intros Hr. apply read_keys_spec. by apply pr_reachable_ok. Qed.

(** *** Runs *)

Inductive pr_event := Out (lun : Z) (cdb : list Z) (s : Z) | Add (s : Z) | Del (s : Z) | ResetLun (lun : Z).

Definition event_ok (e : pr_event) : bool :=
  let lun_ok l := (0 <=? l) && (l <? MAX_LUNS) in
  let session_ok s := (0 <=? s) && (s <? MAX_GLOBAL_SESSION) in
  match e with
  | Out l cdb s => lun_ok l && session_ok s && (37 <=? length cdb)%nat
  | Add s | Del s => session_ok s
  | ResetLun l => lun_ok l
  end.

Definition exec (ctx : pr_context_t) (e : pr_event) : option pr_context_t :=
  assert! event_ok e;
  match e with
  | Out l cdb s => '(ctx, _, _) ← pr_reserve_out ctx l cdb s; Some ctx
  | Add s => pr_add_session ctx s
  | Del s => pr_del_session ctx s
  | ResetLun l => pr_reset_lun ctx l
  end.

Fixpoint exec_all (ctx : pr_context_t) (l : list pr_event) : option pr_context_t :=
  match l with [] => Some ctx | e :: l' => ctx' ← exec ctx e; exec_all ctx' l' end.

Lemma pr_exec_sound ctx e ctx' : exec ctx e = Some ctx' → pr_step ctx ctx'.
Proof.
  unfold exec. destruct (event_ok e) eqn:E; simpl; [|done]. unfold event_ok in E.
  destruct e as [l cdb s|s|s|l]; simpl in E.
  - rewrite !andb_true_iff in E. destruct (pr_reserve_out ctx l cdb s) as [[[c st] told]|] eqn:Er; simpl; [|done].
    intros [= <-]. eapply step_out; [| | |exact Er]; [unfold valid_lun; lia|unfold valid_session; lia|].
    apply Nat.leb_le, E.
  - intros H. eapply step_add; [|exact H]. unfold valid_session. lia.
  - intros H. eapply step_del; [|exact H]. unfold valid_session. lia.
  - intros H. eapply step_reset; [|exact H]. unfold valid_lun. lia.
Qed.

Lemma pr_run_sound ctx l ctx' : exec_all ctx l = Some ctx' → rtc pr_step ctx ctx'.
Proof.
  revert ctx. induction l as [|e l IH]; simpl; intros ctx; [by intros [= <-]|].
  destruct (exec ctx e) as [c|] eqn:E; simpl; [|done]. intros H.
  eapply rtc_l; [by eapply pr_exec_sound|by apply IH].
Qed.

(** The block of a command: action, type, key presented, key of the action. *)
Definition out_cdb (a t rk sak : Z) : list Z :=
  [PERSISTENT_RESERVE_OUT; a; t] ++ replicate 13 0 ++ map (byte_of rk) [56; 48; 40; 32; 24; 16; 8; 0]
  ++ map (byte_of sak) [56; 48; 40; 32; 24; 16; 8; 0] ++ replicate 8 0.

(** Two sessions register, the first one reserves with exclusive access. *)
Definition two_sessions : list pr_event :=
  [Add 1; Add 2; Out 0 (out_cdb PR_OUT_REGISTER 0 0 11) 1; Out 0 (out_cdb PR_OUT_REGISTER 0 0 22) 2;
   Out 0 (out_cdb PR_OUT_RESERVE PR_TYPE_EXCLUSIVE_ACCESS 11 0) 1].

(** Its unit. *)
Definition reserved_unit : pr_info_t :=
  mk_pr_info PR_TYPE_EXCLUSIVE_ACCESS 2 SPC2_RESERVE_NONE 0
    (mk_reg 1 11 :: mk_reg 2 22 :: replicate 30 no_registration).

Lemma two_sessions_run :
  ∃ ctx, exec_all pr_context_alloc two_sessions = Some ctx ∧ pr_info ctx !! 0%nat = Some reserved_unit.
Proof.
  assert (match exec_all pr_context_alloc two_sessions with
          | Some c => pr_info c !! 0%nat | None => None end = Some reserved_unit) as H by (vm_compute; reflexivity).
  destruct (exec_all pr_context_alloc two_sessions) as [c|]; [|discriminate H]. exists c. split; [reflexivity|exact H].
Defined.

Lemma reserved_unit_ok : pr_ok reserved_unit ∧ live reserved_unit.
Proof.
  destruct two_sessions_run as (ctx & Hrun & Hp). split; [|intros _; by exists 1].
  pose proof (ctx_units _ (pr_reachable_ok ctx (pr_run_sound _ _ _ Hrun))) as Hu.
  exact (proj1 (Forall_lookup _ _) Hu 0%nat _ Hp).
Qed.

Lemma pr_target_sound_witness :
  ∃ ctx, exec_all pr_context_alloc two_sessions = Some ctx ∧ ctx_ok ctx.
Proof.
  destruct two_sessions_run as (ctx & Hrun & _). exists ctx. split; [exact Hrun|].
  refine (proj1 (pr_target_sound ctx 0 (replicate 37 0) (replicate 264 0) WRITE_10 1
            (pr_run_sound _ _ _ Hrun) _ _ _ _)); by vm_compute.
Defined.


Lemma pr_rights_exclusive_witness :
  pr_check_rights reserved_unit WRITE_10 1 = Some true ∧ pr_check_rights reserved_unit WRITE_10 2 = Some false.
Proof.
  destruct (pr_rights_exclusive reserved_unit WRITE_10 1 2 (proj1 reserved_unit_ok) ltac:(by vm_compute)
    ltac:(by vm_compute) eq_refl) as [H1 _].
  split; [exact H1|reflexivity].
Defined.

(** The second session preempts the first one: nobody has access left. *)
Lemma pr_preempt_orphans_witness :
  ∃ p' told, persistent_preempt_lun reserved_unit 2 11 PR_TYPE_EXCLUSIVE_ACCESS = Some (p', SCSI_STATUS_OK 0, told) ∧
    pr_check_rights p' WRITE_10 2 = Some false.
Proof.
  destruct (pr_preempt_orphans reserved_unit 2 1 11 3 PR_TYPE_EXCLUSIVE_ACCESS (proj1 reserved_unit_ok)
    (proj2 reserved_unit_ok) eq_refl ltac:(by vm_compute) ltac:(by exists 22) eq_refl ltac:(discriminate) eq_refl)
    as (p' & told & H & _ & _ & Hr & _).
  exists p', told. split; [exact H|]. by apply (Hr WRITE_10 2 eq_refl eq_refl eq_refl).
Defined.

Lemma pr_unregister_wipes_witness :
  ∃ p' told, persistent_register_lun (replicate 1088 true) reserved_unit 1 0 = Some (p', SCSI_STATUS_OK 0, told) ∧
    u_keys (abs p') = ∅.
Proof.
  destruct (pr_unregister_wipes (replicate 1088 true) reserved_unit 1 (proj1 reserved_unit_ok) ltac:(by vm_compute)
    ltac:(by vm_compute)) as (p' & told & H & Hk & _).
  { split; [reflexivity|]. split; [exists 2; split; [discriminate|by exists 22]|]. intros H. discriminate H. }
  by exists p', told.
Defined.

Lemma pr_read_keys_witness :
  ∃ ctx d n, pr_reserve_in ctx 0 (replicate 9 0) (replicate 264 0) 1 = Some (d, SCSI_STATUS_OK n) ∧
    get_bigendian32 d 0 = Some 2.
Proof.
  destruct two_sessions_run as (ctx & Hrun & Hp). exists ctx.
  destruct (pr_read_keys ctx 0 reserved_unit (replicate 9 0) (replicate 264 0) 1 (pr_run_sound _ _ _ Hrun) Hp
    ltac:(by vm_compute) ltac:(by vm_compute; lia) ltac:(vm_compute; lia) ltac:(intros b Hb; by injection Hb as <-))
    as (d & n & H & Hg & _).
  exists d, n. split; [exact H|exact Hg].
Defined.
