(* ===== verification/PrLock.v ===== *)
(** * The lock of the persistent reservations (target/iscsi/src/pr_lock_algo.c)

    The reservations are replicated on the nodes of the cluster.  A node that
    executes a command takes a lock that one node, the lock server, hands out,
    executes the command, sends it to the other nodes, waits for them and gives
    the lock back.  When the membership changes, every node tells the new lock
    server that it is ready, and the oldest node sends all the reservations to the
    others.

    This file has the handlers of the thread of a node, one definition per
    function.  A node is a record of what the thread and its lists hold;
    messages for other nodes are collected in [n_out], messages for the node
    itself go to its own list, as in [algopr_send_data].  The elements of the
    lists come from a pool of [MAX_MESSAGE]; [n_used] counts those that are
    taken, and [new_element] waits when they all are.  A failed assertion, an
    access out of an array and a wait are [None]: the thread that waits in a turn
    waits for ever, as only itself gives elements back, while a caller of
    [algopr_pr_new_pr] or [algopr_new_msg] waits for the thread.

    The target (scsi_command.c) is an interface, which [PrLockTarget] implements:
    [scsi_pr_write_metadata] executes a command on the reservations and gives the
    data for the other nodes, [scsi_pr_read_metadata] applies this data. *)

From S2P Require Import Prelude Nodeset.
From stdpp Require Import options.

(** ** Data *)

Inductive msg_type_t :=
  | ALGOPR_MESSAGE_LOCKSERVER_OK
  | ALGOPR_MESSAGE_PR_CMD
  | ALGOPR_MESSAGE_PR_CMD_DONE
  | ALGOPR_MESSAGE_LOCK
  | ALGOPR_MESSAGE_LOCKED
  | ALGOPR_MESSAGE_UNLOCK
  | ALGOPR_MESSAGE_LOCK_UPDATE_OTHER_NODE.

#[export] Instance msg_type_eq_dec : EqDecision msg_type_t.
Proof. solve_decision. Defined.

(** Data of [algopr_message_t] that was sent: the incarnations are those of the
    network message, 16 bits wide.  [data] is [None] when the size is 0. *)
Record algopr_message_t {P : Type} := mk_message {
  type : msg_type_t;
  from_lockserver : bool;
  from_node_id : Z;
  to_lockserver : bool;
  to_node_id : Z;
  emitter_sequency : Z;
  to_membership_incarnation : Z;
  from_membership_incarnation : Z;
  data : option P
}.
Arguments algopr_message_t : clear implicits.
Arguments mk_message {_}.

(** What is given to the target: a command, or [ALGOPR_PRIVATE_DATA], which
    stands for all the reservations. *)
Inductive pr_private {D : Type} := ALGOPR_PRIVATE_DATA | COMMAND (d : D).
Arguments pr_private : clear implicits.
Arguments ALGOPR_PRIVATE_DATA {_}.
Arguments COMMAND {_}.

Inductive algopr_op_t {D P : Type} :=
  | ALGOPR_NEW_MEMBERSHIP (membership : exa_nodeset_t)
  | ALGOPR_SUSPEND
  | ALGOPR_RESUME
  | ALGOPR_LOCAL_TARGET_NEW_PR (new_pr_data : D)
  | ALGOPR_MESSAGE (message : algopr_message_t P).
Arguments algopr_op_t : clear implicits.
Arguments ALGOPR_NEW_MEMBERSHIP {_ _}.
Arguments ALGOPR_SUSPEND {_ _}.
Arguments ALGOPR_RESUME {_ _}.
Arguments ALGOPR_LOCAL_TARGET_NEW_PR {_ _}.
Arguments ALGOPR_MESSAGE {_ _}.

Record algopr_shared_t := mk_shared {
  this_node_id : Z;
  membership_incarnation : list Z;
  membership : exa_nodeset_t;
  PR_lockserver : Z;
  suspended : bool
}.

Inductive lockclient_state_t :=
  | ALGOPR_LOCKCLIENT_STATE_PASSIVE
  | ALGOPR_LOCKCLIENT_STATE_WAIT_PROCESS_REMOTE.

#[export] Instance lockclient_state_eq_dec : EqDecision lockclient_state_t.
Proof. solve_decision. Defined.

Record algopr_lockclient_t {D : Type} := mk_client {
  PR_read_membership : exa_nodeset_t;
  PR_read_membership_ok : exa_nodeset_t;
  PR_read_incarnation_at_beginning : Z;
  PR_pending : Z;
  PR_pending_private : pr_private D;
  c_state : lockclient_state_t;
  msg_new_pr : list D
}.
Arguments algopr_lockclient_t : clear implicits.
Arguments mk_client {_}.

Inductive lockserver_state_t :=
  | ALGOPR_LOCKSERVER_STATE_STANDBY
  | ALGOPR_LOCKSERVER_STATE_WAIT_ALL_OK
  | ALGOPR_LOCKSERVER_STATE_READY_UNLOCKED
  | ALGOPR_LOCKSERVER_STATE_READY_LOCKED.

#[export] Instance lockserver_state_eq_dec : EqDecision lockserver_state_t.
Proof. solve_decision. Defined.

Record algopr_lockserver_t {P : Type} := mk_server {
  s_state : lockserver_state_t;
  s_membership : exa_nodeset_t;
  node_with_lock : Z;
  msg_lock : list (algopr_message_t P);
  msg_lock_nb : Z;
  best_incarnation_node : Z;
  best_incarnation_incarnation : Z
}.
Arguments algopr_lockserver_t : clear implicits.
Arguments mk_server {_}.

(** The number of elements of the pool. *)
Definition MAX_MESSAGE : Z := 5000.

(** The thread of a node, its lists and the reservations [X] of its target.
    [n_finished] has the commands that are reported as done to the target. *)
Record node_t {X D P : Type} := mk_node {
  n_shared : algopr_shared_t;
  n_client : algopr_lockclient_t D;
  n_server : algopr_lockserver_t P;
  n_sequency : Z;
  n_ctx : X;
  n_msgs : list (algopr_op_t D P);
  n_future : list (algopr_op_t D P);
  n_out : list (algopr_message_t P);
  n_used : Z;
  n_finished : list (pr_private D)
}.
Arguments node_t : clear implicits.
Arguments mk_node {_ _ _}.

Definition with_suspended (s : algopr_shared_t) (b : bool) : algopr_shared_t :=
  mk_shared (this_node_id s) (membership_incarnation s) (membership s) (PR_lockserver s) b.

Section setters.
Context {X D P : Type}.
Implicit Types (n : node_t X D P) (c : algopr_lockclient_t D) (ls : algopr_lockserver_t P).

Definition with_reading c (read ok : exa_nodeset_t) : algopr_lockclient_t D :=
  mk_client read ok (PR_read_incarnation_at_beginning c) (PR_pending c) (PR_pending_private c) (c_state c) (msg_new_pr c).
Definition with_beginning c (inc : Z) : algopr_lockclient_t D :=
  mk_client (PR_read_membership c) (PR_read_membership_ok c) inc (PR_pending c) (PR_pending_private c) (c_state c)
    (msg_new_pr c).
Definition with_pending c (nb : Z) (l : list D) : algopr_lockclient_t D :=
  mk_client (PR_read_membership c) (PR_read_membership_ok c) (PR_read_incarnation_at_beginning c) nb
    (PR_pending_private c) (c_state c) l.
Definition with_private c (p : pr_private D) : algopr_lockclient_t D :=
  mk_client (PR_read_membership c) (PR_read_membership_ok c) (PR_read_incarnation_at_beginning c) (PR_pending c)
    p (c_state c) (msg_new_pr c).
Definition with_c_state c (st : lockclient_state_t) : algopr_lockclient_t D :=
  mk_client (PR_read_membership c) (PR_read_membership_ok c) (PR_read_incarnation_at_beginning c) (PR_pending c)
    (PR_pending_private c) st (msg_new_pr c).

Definition with_s_state ls (st : lockserver_state_t) : algopr_lockserver_t P :=
  mk_server st (s_membership ls) (node_with_lock ls) (msg_lock ls) (msg_lock_nb ls) (best_incarnation_node ls)
    (best_incarnation_incarnation ls).
Definition with_acked ls (m : exa_nodeset_t) : algopr_lockserver_t P :=
  mk_server (s_state ls) m (node_with_lock ls) (msg_lock ls) (msg_lock_nb ls) (best_incarnation_node ls)
    (best_incarnation_incarnation ls).
Definition with_owner ls (node : Z) : algopr_lockserver_t P :=
  mk_server (s_state ls) (s_membership ls) node (msg_lock ls) (msg_lock_nb ls) (best_incarnation_node ls)
    (best_incarnation_incarnation ls).
Definition with_locks ls (l : list (algopr_message_t P)) (nb : Z) : algopr_lockserver_t P :=
  mk_server (s_state ls) (s_membership ls) (node_with_lock ls) l nb (best_incarnation_node ls)
    (best_incarnation_incarnation ls).
Definition with_best ls (node inc : Z) : algopr_lockserver_t P :=
  mk_server (s_state ls) (s_membership ls) (node_with_lock ls) (msg_lock ls) (msg_lock_nb ls) node inc.

Definition with_shared n (s : algopr_shared_t) : node_t X D P :=
  mk_node s (n_client n) (n_server n) (n_sequency n) (n_ctx n) (n_msgs n) (n_future n) (n_out n) (n_used n) (n_finished n).
Definition with_client n c : node_t X D P :=
  mk_node (n_shared n) c (n_server n) (n_sequency n) (n_ctx n) (n_msgs n) (n_future n) (n_out n) (n_used n) (n_finished n).
Definition with_server n ls : node_t X D P :=
  mk_node (n_shared n) (n_client n) ls (n_sequency n) (n_ctx n) (n_msgs n) (n_future n) (n_out n) (n_used n) (n_finished n).
Definition with_sequency n (q : Z) : node_t X D P :=
  mk_node (n_shared n) (n_client n) (n_server n) q (n_ctx n) (n_msgs n) (n_future n) (n_out n) (n_used n) (n_finished n).
Definition with_ctx n (x : X) : node_t X D P :=
  mk_node (n_shared n) (n_client n) (n_server n) (n_sequency n) x (n_msgs n) (n_future n) (n_out n) (n_used n) (n_finished n).
Definition with_lists n (msgs future : list (algopr_op_t D P)) : node_t X D P :=
  mk_node (n_shared n) (n_client n) (n_server n) (n_sequency n) (n_ctx n) msgs future (n_out n) (n_used n) (n_finished n).
Definition with_out n (l : list (algopr_message_t P)) : node_t X D P :=
  mk_node (n_shared n) (n_client n) (n_server n) (n_sequency n) (n_ctx n) (n_msgs n) (n_future n) l (n_used n) (n_finished n).
Definition with_used n (u : Z) : node_t X D P :=
  mk_node (n_shared n) (n_client n) (n_server n) (n_sequency n) (n_ctx n) (n_msgs n) (n_future n) (n_out n) u (n_finished n).
Definition scsi_pr_finished n (p : pr_private D) : node_t X D P :=
  mk_node (n_shared n) (n_client n) (n_server n) (n_sequency n) (n_ctx n) (n_msgs n) (n_future n) (n_out n) (n_used n)
    (n_finished n ++ [p]).
End setters.

(** The target: what it gives for a command is [None] when the command fails,
    [Some None] for a size of 0, [Some (Some p)] otherwise. *)
Class Target (X D P : Type) := {
  scsi_pr_write_metadata : X → pr_private D → X * option (option P);
  scsi_pr_read_metadata : X → P → X
}.

(** The pool of elements: whether one is free when so many are taken.
    [message_pool] is the one of the code; [endless_pool] is never empty, and
    serves to state what a thread does when it does not wait. *)
Class Pool := { free_element : Z → bool }.

Definition message_pool : Pool := {| free_element used := used <? MAX_MESSAGE |}.
Definition endless_pool : Pool := {| free_element _ := true |}.

(** ** Handlers *)

Section handlers.
Context {X D P : Type} `{!Target X D P} {pool : Pool}.
Implicit Types (n : node_t X D P) (msg : algopr_message_t P).

(** An element is taken from the pool, and posted in the list of the thread; an
    element goes back to the pool. *)
Definition new_element n : option (node_t X D P) :=
  if free_element (n_used n) then Some (with_used n (n_used n + 1)) else None.
Definition post n (op : algopr_op_t D P) : option (node_t X D P) :=
  n ← new_element n; Some (with_lists n (n_msgs n ++ [op]) (n_future n)).
Definition release_element n : node_t X D P := with_used n (n_used n - 1).

Definition algopr_pr_new_pr n (private_data : D) : option (node_t X D P) := post n (ALGOPR_LOCAL_TARGET_NEW_PR private_data).
Definition algopr_new_membership n (m : exa_nodeset_t) : option (node_t X D P) := post n (ALGOPR_NEW_MEMBERSHIP m).
Definition algopr_suspend n : option (node_t X D P) := post n ALGOPR_SUSPEND.
Definition algopr_resume n : option (node_t X D P) := post n ALGOPR_RESUME.

Definition algopr_new_msg n msg : option (node_t X D P) :=
  assert! (EXA_NODEID_VALID (from_node_id msg));
  assert! (EXA_NODEID_VALID (to_node_id msg));
  post n (ALGOPR_MESSAGE msg).

Definition algopr_send_data n (node_id : Z) msg : option (node_t X D P) :=
  assert! (EXA_NODEID_VALID node_id);
  if node_id =? this_node_id (n_shared n) then algopr_new_msg n msg
  else Some (with_out n (n_out n ++ [msg])).

Definition incarnation n (node_id : Z) : option Z := membership_incarnation (n_shared n) !! Z.to_nat node_id.

Definition algopr_send_back n msg (msg_type : msg_type_t) : option (node_t X D P) :=
  to_inc ← incarnation n (from_node_id msg);
  from_inc ← incarnation n (this_node_id (n_shared n));
  algopr_send_data n (from_node_id msg)
    (mk_message msg_type (to_lockserver msg) (to_node_id msg) (from_lockserver msg) (from_node_id msg)
       (emitter_sequency msg) (u16 to_inc) (u16 from_inc) None).

Definition algopr_send_msg n (from_ls : bool) (node_id : Z) (to_ls : bool) (msg_type : msg_type_t) (d : option P)
    : option (node_t X D P) :=
  to_inc ← incarnation n node_id;
  from_inc ← incarnation n (this_node_id (n_shared n));
  algopr_send_data n node_id
    (mk_message msg_type from_ls (this_node_id (n_shared n)) to_ls node_id (n_sequency n) (u16 to_inc) (u16 from_inc) d).

Fixpoint bcast_loop n (nodes : list Z) (msg_type : msg_type_t) (d : option P) : option (node_t X D P) :=
  match nodes with
  | [] => Some n
  | node_id :: nodes' => n ← algopr_send_msg n false node_id false msg_type d; bcast_loop n nodes' msg_type d
  end.

Definition algopr_bcast_msg n (to : exa_nodeset_t) (msg_type : msg_type_t) (d : option P) : option (node_t X D P) :=
  nodes ← exa_nodeset_foreach to; bcast_loop n nodes msg_type d.

Definition send_to_lockserver n (msg_type : msg_type_t) : option (node_t X D P) :=
  algopr_send_msg n false (PR_lockserver (n_shared n)) true msg_type None.

(** *** Membership *)

Definition algopr_update_incarnation_from_membership (inc : list Z) (m : exa_nodeset_t) : option (list Z) :=
  mapM (λ node_id, b ← exa_nodeset_contains m node_id; i ← inc !! Z.to_nat node_id;
                   Some (if b : bool then i + 1 else 0)) all_nodes.

Definition algopr_shared_update (s : algopr_shared_t) (m : exa_nodeset_t) : option algopr_shared_t :=
  assert! (negb (exa_nodeset_is_empty m));
  inc ← algopr_update_incarnation_from_membership (membership_incarnation s) m;
  ls ← exa_nodeset_first m;
  Some (mk_shared (this_node_id s) inc (exa_nodeset_copy m) ls (suspended s)).

(** The second loop of [algopr_update_messages]. *)
Fixpoint update_messages_loop n (m : exa_nodeset_t) (ops : list (algopr_op_t D P)) : option (node_t X D P) :=
  match ops with
  | [] => Some (with_lists n (n_msgs n) [])
  | op :: ops' =>
      drop ← match op with
             | ALGOPR_MESSAGE msg => b ← exa_nodeset_contains m (from_node_id msg); Some (negb b)
             | _ => Some false
             end;
      if drop : bool then update_messages_loop (release_element n) m ops'
      else update_messages_loop (with_lists n (n_msgs n ++ [op]) (n_future n)) m ops'
  end.

Definition algopr_update_messages n (m : exa_nodeset_t) : option (node_t X D P) :=
  let n := with_lists n [] (n_future n ++ n_msgs n) in
  update_messages_loop n m (n_future n).

(** *** Client *)

(** The loop of [algopr_lockclient_process_local]: it ends with the data to send
    to the other nodes, or with nothing to do.  Each turn but the first takes a
    command, so that [PR_pending + 2] turns are enough. *)
Fixpoint process_local_loop (fuel : nat) n (update_other_node alone : bool)
    : option (node_t X D P * option (option P)) :=
  match fuel with
  | O => None
  | S fuel' =>
      '(n, private) ←
        (if negb update_other_node && (0 <? PR_pending (n_client n)) then
           match msg_new_pr (n_client n) with
           | [] => None
           | d :: l =>
               Some (release_element (with_client n (with_pending (n_client n) (PR_pending (n_client n) - 1) l)), COMMAND d)
           end
         else Some (n, ALGOPR_PRIVATE_DATA));
      let n := with_client n (with_private (n_client n) private) in
      let '(x, size) := scsi_pr_write_metadata (n_ctx n) private in
      let n := with_ctx n x in
      let n := match size with Some _ => if alone then scsi_pr_finished n private else n | None => n end in
      match size, alone with
      | Some buffer, false => Some (n, Some buffer)
      | _, _ =>
          assert! (negb update_other_node || match size with Some (Some _) => true | _ => false end);
          if 0 <? PR_pending (n_client n) then process_local_loop fuel' n false alone else Some (n, None)
      end
  end.

Definition algopr_lockclient_process_local n (update_other_node : bool) : option (node_t X D P) :=
  let this := this_node_id (n_shared n) in
  read ← exa_nodeset_del (membership (n_shared n)) this;
  let n := with_client n (with_reading (n_client n) read (PR_read_membership_ok (n_client n))) in
  '(n, todo) ← process_local_loop (Z.to_nat (PR_pending (n_client n)) + 2) n update_other_node (exa_nodeset_is_empty read);
  match todo with
  | None => send_to_lockserver n ALGOPR_MESSAGE_UNLOCK
  | Some buffer =>
      inc ← incarnation n this;
      let n := with_client n (with_beginning (n_client n) inc) in
      n ← algopr_bcast_msg n read ALGOPR_MESSAGE_PR_CMD buffer;
      read ← exa_nodeset_add read this;
      ok ← exa_nodeset_add EXA_NODESET_EMPTY this;
      Some (with_client n (with_c_state (with_reading (n_client n) read ok) ALGOPR_LOCKCLIENT_STATE_WAIT_PROCESS_REMOTE))
  end.

Definition algopr_lockclient_process_check_finished n : option (node_t X D P) :=
  assert! (bool_decide (c_state (n_client n) = ALGOPR_LOCKCLIENT_STATE_WAIT_PROCESS_REMOTE));
  let m := membership (n_shared n) in
  let read := exa_nodeset_intersect (PR_read_membership (n_client n)) m in
  let ok := exa_nodeset_intersect (PR_read_membership_ok (n_client n)) m in
  let n := with_client n (with_reading (n_client n) read ok) in
  if negb (exa_nodeset_equals read ok) then Some n
  else
    let n := with_sequency n (u16 (n_sequency n + 1)) in
    let n := scsi_pr_finished n (PR_pending_private (n_client n)) in
    inc ← incarnation n (this_node_id (n_shared n));
    n ← (if inc =? PR_read_incarnation_at_beginning (n_client n) then send_to_lockserver n ALGOPR_MESSAGE_UNLOCK
         else send_to_lockserver n ALGOPR_MESSAGE_LOCKSERVER_OK);
    let n := with_client n (with_c_state (n_client n) ALGOPR_LOCKCLIENT_STATE_PASSIVE) in
    if 0 <? PR_pending (n_client n) then send_to_lockserver n ALGOPR_MESSAGE_LOCK else Some n.

Definition algopr_lockclient n msg : option (node_t X D P) :=
  match c_state (n_client n) with
  | ALGOPR_LOCKCLIENT_STATE_PASSIVE =>
      match type msg with
      | ALGOPR_MESSAGE_PR_CMD =>
          d ← data msg;
          algopr_send_back (with_ctx n (scsi_pr_read_metadata (n_ctx n) d)) msg ALGOPR_MESSAGE_PR_CMD_DONE
      | ALGOPR_MESSAGE_LOCKED => algopr_lockclient_process_local n false
      | ALGOPR_MESSAGE_LOCK_UPDATE_OTHER_NODE => algopr_lockclient_process_local n true
      | _ => None
      end
  | ALGOPR_LOCKCLIENT_STATE_WAIT_PROCESS_REMOTE =>
      match type msg with
      | ALGOPR_MESSAGE_PR_CMD_DONE =>
          assert! (emitter_sequency msg =? n_sequency n);
          ok ← exa_nodeset_add (PR_read_membership_ok (n_client n)) (from_node_id msg);
          algopr_lockclient_process_check_finished
            (with_client n (with_reading (n_client n) (PR_read_membership (n_client n)) ok))
      | _ => None
      end
  end.

(** *** Server *)

(** [while (msg_lock_nb > 0)]: as many turns as the count says. *)
Fixpoint flush_loop (nb : nat) n : option (node_t X D P) :=
  match nb with
  | O => Some n
  | S nb' =>
      match msg_lock (n_server n) with
      | [] => None
      | _ :: l => flush_loop nb' (release_element (with_server n (with_locks (n_server n) l (msg_lock_nb (n_server n) - 1))))
      end
  end.

Definition algopr_lockserver_flush_msg_lock n : option (node_t X D P) :=
  flush_loop (Z.to_nat (msg_lock_nb (n_server n))) n.

Definition algopr_lockserver_add_msg_lock n msg : node_t X D P :=
  with_server n (with_locks (n_server n) (msg_lock (n_server n) ++ [msg]) (msg_lock_nb (n_server n) + 1)).

(** [None] in the result: no demand is waiting. *)
Definition algopr_lockserver_get_msg_lock n : option (node_t X D P * option (algopr_message_t P)) :=
  if msg_lock_nb (n_server n) =? 0 then Some (n, None)
  else
    match msg_lock (n_server n) with
    | [] => None
    | msg :: l => Some (with_server n (with_locks (n_server n) l (msg_lock_nb (n_server n) - 1)), Some msg)
    end.

Definition state_wait_all_ok_handle_msg n msg : option (node_t X D P) :=
  match type msg with
  | ALGOPR_MESSAGE_LOCK => Some (algopr_lockserver_add_msg_lock n msg)
  | ALGOPR_MESSAGE_LOCKSERVER_OK =>
      let ls := n_server n in
      let ls := if best_incarnation_incarnation ls <? from_membership_incarnation msg
                then with_best ls (from_node_id msg) (from_membership_incarnation msg) else ls in
      b ← exa_nodeset_contains (s_membership ls) (from_node_id msg);
      assert! (negb b);
      acked ← exa_nodeset_add (s_membership ls) (from_node_id msg);
      let ls := with_acked ls acked in
      if negb (exa_nodeset_equals (membership (n_shared n)) acked) then Some (release_element (with_server n ls))
      else
        let ls := with_owner ls (best_incarnation_node ls) in
        assert! (negb (best_incarnation_node ls =? EXA_NODEID_NONE));
        n ← algopr_send_msg (with_server n ls) true (best_incarnation_node ls) false
              ALGOPR_MESSAGE_LOCK_UPDATE_OTHER_NODE None;
        Some (release_element (with_server n (with_s_state (n_server n) ALGOPR_LOCKSERVER_STATE_READY_LOCKED)))
  | _ => None
  end.

Definition state_ready_locked_handle_msg n msg : option (node_t X D P) :=
  match type msg with
  | ALGOPR_MESSAGE_LOCK => Some (algopr_lockserver_add_msg_lock n msg)
  | ALGOPR_MESSAGE_UNLOCK =>
      assert! (node_with_lock (n_server n) =? from_node_id msg);
      '(n, next) ← algopr_lockserver_get_msg_lock n;
      match next with
      | Some msg_temp =>
          let n := with_server n (with_owner (n_server n) (from_node_id msg_temp)) in
          n ← algopr_send_back n msg_temp ALGOPR_MESSAGE_LOCKED;
          let n := with_server n (with_s_state (n_server n) ALGOPR_LOCKSERVER_STATE_READY_LOCKED) in
          Some (release_element (release_element n))
      | None =>
          Some (release_element (with_server n (with_s_state (n_server n) ALGOPR_LOCKSERVER_STATE_READY_UNLOCKED)))
      end
  | _ => None
  end.

Definition state_ready_unlocked_handle_msg n msg : option (node_t X D P) :=
  match type msg with
  | ALGOPR_MESSAGE_LOCK =>
      let n := with_server n (with_owner (n_server n) (from_node_id msg)) in
      n ← algopr_send_back n msg ALGOPR_MESSAGE_LOCKED;
      Some (release_element (with_server n (with_s_state (n_server n) ALGOPR_LOCKSERVER_STATE_READY_LOCKED)))
  | _ => None
  end.

Definition algopr_lockserver n msg : option (node_t X D P) :=
  match s_state (n_server n) with
  | ALGOPR_LOCKSERVER_STATE_STANDBY => None
  | ALGOPR_LOCKSERVER_STATE_WAIT_ALL_OK => state_wait_all_ok_handle_msg n msg
  | ALGOPR_LOCKSERVER_STATE_READY_UNLOCKED => state_ready_unlocked_handle_msg n msg
  | ALGOPR_LOCKSERVER_STATE_READY_LOCKED => state_ready_locked_handle_msg n msg
  end.

(** *** The thread *)

Definition handle_new_membership n (m : exa_nodeset_t) : option (node_t X D P) :=
  shared ← algopr_shared_update (n_shared n) m;
  let n := with_shared n shared in
  let n := with_server n (with_best (n_server n) EXA_NODEID_NONE (-1)) in
  n ← algopr_lockserver_flush_msg_lock n;
  let n := with_server n (with_acked (n_server n) EXA_NODESET_EMPTY) in
  let n := with_server n (with_s_state (n_server n)
             (if negb (PR_lockserver (n_shared n) =? this_node_id (n_shared n))
              then ALGOPR_LOCKSERVER_STATE_STANDBY else ALGOPR_LOCKSERVER_STATE_WAIT_ALL_OK)) in
  match c_state (n_client n) with
  | ALGOPR_LOCKCLIENT_STATE_PASSIVE =>
      n ← send_to_lockserver n ALGOPR_MESSAGE_LOCKSERVER_OK;
      if 0 <? PR_pending (n_client n) then send_to_lockserver n ALGOPR_MESSAGE_LOCK else Some n
  | ALGOPR_LOCKCLIENT_STATE_WAIT_PROCESS_REMOTE => algopr_lockclient_process_check_finished n
  end.

Definition handle_local_target_new_pr n (d : D) : option (node_t X D P) :=
  let c := with_pending (n_client n) (PR_pending (n_client n) + 1) (msg_new_pr (n_client n) ++ [d]) in
  let n := with_client n c in
  match c_state c with
  | ALGOPR_LOCKCLIENT_STATE_PASSIVE =>
      if PR_pending c =? 1 then send_to_lockserver n ALGOPR_MESSAGE_LOCK else Some n
  | ALGOPR_LOCKCLIENT_STATE_WAIT_PROCESS_REMOTE => Some n
  end.

Definition postpone n (op : algopr_op_t D P) : node_t X D P := with_lists n (n_msgs n) (n_future n ++ [op]).

Definition handle_message n (op : algopr_op_t D P) : option (node_t X D P) :=
  match op with
  | ALGOPR_SUSPEND => Some (with_shared n (with_suspended (n_shared n) true))
  | ALGOPR_RESUME | ALGOPR_NEW_MEMBERSHIP _ => None
  | ALGOPR_LOCAL_TARGET_NEW_PR d => handle_local_target_new_pr n d
  | ALGOPR_MESSAGE msg =>
      assert! (to_node_id msg =? this_node_id (n_shared n));
      inc ← incarnation n (from_node_id msg);
      if (to_membership_incarnation msg <? inc) && (from_lockserver msg || to_lockserver msg) then
        Some (release_element n)
      else if inc <? to_membership_incarnation msg then Some (postpone n op)
      else if to_lockserver msg then algopr_lockserver n msg
      else n ← algopr_lockclient n msg; Some (release_element n)
  end.

Definition handle_message_when_suspended n (op : algopr_op_t D P) : option (node_t X D P) :=
  match op with
  | ALGOPR_NEW_MEMBERSHIP m => n ← handle_new_membership n m; Some (release_element n)
  | ALGOPR_SUSPEND => Some n
  | ALGOPR_RESUME =>
      let n := with_shared n (with_suspended (n_shared n) false) in
      algopr_update_messages n (membership (n_shared n))
  | ALGOPR_LOCAL_TARGET_NEW_PR _ | ALGOPR_MESSAGE _ => Some (postpone n op)
  end.

(** A turn of the loop of [algopr_thread]; without a message the thread waits. *)
Definition algopr_thread_turn n : option (node_t X D P) :=
  match n_msgs n with
  | [] => Some n
  | op :: msgs =>
      let n := with_lists n msgs (n_future n) in
      if suspended (n_shared n) then handle_message_when_suspended n op else handle_message n op
  end.

(** What the thread starts with. *)
Definition algopr_thread_init (nodeid : Z) (x : X) : node_t X D P :=
  mk_node (mk_shared nodeid (replicate (Z.to_nat EXA_MAX_NODES_NUMBER) 0) EXA_NODESET_EMPTY 0 true)
    (mk_client EXA_NODESET_EMPTY EXA_NODESET_EMPTY 0 0 ALGOPR_PRIVATE_DATA ALGOPR_LOCKCLIENT_STATE_PASSIVE [])
    (mk_server ALGOPR_LOCKSERVER_STATE_STANDBY EXA_NODESET_EMPTY 0 [] 0 0 0) 64 x [] [] [] 0 [].
End handlers.
