(* ===== verification/PrLockNode.v ===== *)
(** * What the handlers of the reservation lock do to a node

    The handlers of [PrLock] as equations: for a node whose fields are
    consistent, each of them returns, and the node it returns is written out.
    The laws of the target that the algorithm relies on are a class. *)

From S2P Require Import Prelude Nodeset PrLock.
From stdpp Require Import options.

(** ** The target *)

(** A command that fails changes nothing; one that succeeds gives data, which
    has the same effect on the same reservations; all the reservations can be
    sent, and replace those of the receiver. *)
Class TargetLaws (X D P : Type) `{!Target X D P} := {
  write_failed x d x' : scsi_pr_write_metadata x d = (x', None) → x' = x;
  write_not_empty x d x' : scsi_pr_write_metadata x d ≠ (x', Some None);
  write_read x d x' p : scsi_pr_write_metadata x d = (x', Some (Some p)) → scsi_pr_read_metadata x p = x';
  write_all x : ∃ p, scsi_pr_write_metadata x ALGOPR_PRIVATE_DATA = (x, Some (Some p)) ∧
    ∀ y, scsi_pr_read_metadata y p = x
}.

(** The handlers are described for a pool that is not empty. *)
#[local] Existing Instance endless_pool.

Section node.
Context {X D P : Type} `{!Target X D P} `{!TargetLaws X D P}.
Implicit Types (n : node_t X D P) (m : algopr_message_t P) (op : algopr_op_t D P) (l : list (algopr_message_t P)).

(** ** Messages and operations of a node *)

Definition op_msg op : option (algopr_message_t P) := match op with ALGOPR_MESSAGE m => Some m | _ => None end.
Definition op_pr op : option D := match op with ALGOPR_LOCAL_TARGET_NEW_PR d => Some d | _ => None end.
Definition is_ctl op : bool :=
  match op with ALGOPR_NEW_MEMBERSHIP _ | ALGOPR_SUSPEND | ALGOPR_RESUME => true | _ => false end.

Definition msgs_of n : list (algopr_message_t P) := omap op_msg (n_msgs n) ++ omap op_msg (n_future n).
Definition ctl_of n : list (algopr_op_t D P) := filter is_ctl (n_msgs n).

Abbreviation this n := (this_node_id (n_shared n)).

Definition inc_of n (j : Z) : Z := membership_incarnation (n_shared n) !!! Z.to_nat j.

(** Sending a list of messages: those for the node itself go to its own list. *)
Definition sends n (l : list (algopr_message_t P)) : node_t X D P :=
  mk_node (n_shared n) (n_client n) (n_server n) (n_sequency n) (n_ctx n)
    (n_msgs n ++ (ALGOPR_MESSAGE <$> filter (λ m, to_node_id m = this n) l)) (n_future n)
    (n_out n ++ filter (λ m, to_node_id m ≠ this n) l)
    (n_used n + Z.of_nat (length (filter (λ m, to_node_id m = this n) l))) (n_finished n).

Lemma sends_app n l l' : sends (sends n l) l' = sends n (l ++ l').
Proof.
  unfold sends. cbn [n_shared n_client n_server n_sequency n_ctx n_msgs n_future n_out n_used n_finished].
  rewrite !filter_app, fmap_app, length_app, <- !(assoc_L (++)). f_equal. lia.
Qed.

Lemma sends_nil n : sends n [] = n.
Proof. destruct n. unfold sends. cbn. rewrite !app_nil_r. f_equal. lia. Qed.

Lemma sends_shared n l : n_shared (sends n l) = n_shared n. Proof. done. Qed.
Lemma sends_client n l : n_client (sends n l) = n_client n. Proof. done. Qed.
Lemma sends_server n l : n_server (sends n l) = n_server n. Proof. done. Qed.
Lemma sends_sequency n l : n_sequency (sends n l) = n_sequency n. Proof. done. Qed.
Lemma sends_ctx n l : n_ctx (sends n l) = n_ctx n. Proof. done. Qed.
Lemma sends_future n l : n_future (sends n l) = n_future n. Proof. done. Qed.

Lemma omap_messages l : omap op_msg (ALGOPR_MESSAGE <$> l) = l.
Proof. induction l as [|m l IH]; [done|]. simpl. by f_equal. Qed.

Lemma filter_ctl_messages l : filter is_ctl (ALGOPR_MESSAGE <$> l) = [].
Proof. induction l as [|m l IH]; [done|]. simpl. done. Qed.

Lemma sends_msgs n l : msgs_of (sends n l) ++ n_out (sends n l) ≡ₚ (msgs_of n ++ n_out n) ++ l.
Proof.
  unfold msgs_of, sends. cbn. rewrite omap_app, omap_messages.
  rewrite <- (filter_app_complement (λ m, to_node_id m = this n) l) at 3.
  solve_Permutation.
Qed.

Lemma sends_ctl n l : ctl_of (sends n l) = ctl_of n.
Proof. unfold ctl_of, sends. cbn. by rewrite filter_app, filter_ctl_messages, app_nil_r. Qed.

(** ** Consistent fields *)

Record node_wf n : Prop := {
  nw_this : valid_node (this n);
  nw_len : length (membership_incarnation (n_shared n)) = 128%nat;
  nw_inc : ∀ j, valid_node j → fits 16 (inc_of n j);
  nw_mship : nodeset_wf (membership (n_shared n));
  nw_read : nodeset_wf (PR_read_membership (n_client n));
  nw_ok : nodeset_wf (PR_read_membership_ok (n_client n));
  nw_pending : PR_pending (n_client n) = Z.of_nat (length (msg_new_pr (n_client n)));
  nw_acked : nodeset_wf (s_membership (n_server n));
  nw_locks : msg_lock_nb (n_server n) = Z.of_nat (length (msg_lock (n_server n)))
}.

Lemma incarnation_ok n j : node_wf n → valid_node j → incarnation n j = Some (inc_of n j).
Proof.
  intros H Hj. unfold incarnation, inc_of. unfold valid_node, EXA_MAX_NODES_NUMBER in Hj. pose proof (nw_len n H).
  destruct (lookup_lt_is_Some_2 (membership_incarnation (n_shared n)) (Z.to_nat j)) as [x Hx]; [lia|].
  by rewrite Hx, (list_lookup_total_correct _ _ _ Hx).
Qed.

(** The node after an operation was posted. *)
Definition posted n op : node_t X D P := with_lists (with_used n (n_used n + 1)) (n_msgs n ++ [op]) (n_future n).

Lemma post_ok n op : post n op = Some (posted n op).
Proof. done. Qed.

(** The message that a node sends. *)
Definition the_msg n (from_ls : bool) (to : Z) (to_ls : bool) (t : msg_type_t) (d : option P) : algopr_message_t P :=
  mk_message t from_ls (this n) to_ls to (n_sequency n) (inc_of n to) (inc_of n (this n)) d.

Definition to_server n (t : msg_type_t) : algopr_message_t P := the_msg n false (PR_lockserver (n_shared n)) true t None.

Lemma send_data_ok n m :
  valid_node (to_node_id m) → valid_node (from_node_id m) → algopr_send_data n (to_node_id m) m = Some (sends n [m]).
Proof.
  intros Ht Hf. unfold algopr_send_data, algopr_new_msg. rewrite !valid_nodeid by done. cbn [exa_assert].
  unfold sends. destruct (Z.eqb_spec (to_node_id m) (this n)) as [E|E].
  - rewrite filter_cons_True, filter_cons_False by (done || tauto). rewrite !filter_nil. unfold post, new_element, with_used, with_lists. cbn.
    by rewrite app_nil_r.
  - rewrite filter_cons_False, filter_cons_True by done. rewrite !filter_nil. unfold with_out. cbn. rewrite app_nil_r, Z.add_0_r. done.
Qed.

Lemma send_msg_ok n from_ls to to_ls t d :
  node_wf n → valid_node to → algopr_send_msg n from_ls to to_ls t d = Some (sends n [the_msg n from_ls to to_ls t d]).
Proof.
  intros H Ht. unfold algopr_send_msg. rewrite !incarnation_ok by (done || apply H). returned. returned.
  rewrite !u16_id by (by apply nw_inc; [|done || apply H]).
  exact (send_data_ok n (the_msg n from_ls to to_ls t d) Ht (nw_this n H)).
Qed.

Lemma send_back_ok n m t :
  node_wf n → valid_node (from_node_id m) → to_node_id m = this n →
  algopr_send_back n m t =
  Some (sends n [mk_message t (to_lockserver m) (this n) (from_lockserver m) (from_node_id m) (emitter_sequency m)
    (inc_of n (from_node_id m)) (inc_of n (this n)) None]).
Proof.
  intros H Hf Ht. unfold algopr_send_back. rewrite !incarnation_ok by (done || apply H). returned. returned.
  rewrite !u16_id by (by apply nw_inc; [|done || apply H]). rewrite Ht. set (m' := mk_message _ _ _ _ _ _ _ _ _).
  change (from_node_id m) with (to_node_id m'). apply send_data_ok; [exact Hf|apply H].
Qed.

Lemma send_to_lockserver_ok n t :
  node_wf n → valid_node (PR_lockserver (n_shared n)) → send_to_lockserver n t = Some (sends n [to_server n t]).
Proof. intros. by apply send_msg_ok. Qed.

Lemma bcast_loop_ok n nodes t d :
  node_wf n → Forall valid_node nodes →
  bcast_loop n nodes t d = Some (sends n ((λ j, the_msg n false j false t d) <$> nodes)).
Proof.
  revert n. induction nodes as [|j nodes IH]; intros n H Hv; cbn [bcast_loop]; [by rewrite sends_nil|].
  apply Forall_cons in Hv as [Hj Hv]. rewrite send_msg_ok by done. returned. rewrite IH; [|by destruct H|done].
  by rewrite sends_app.
Qed.

Lemma bcast_msg_ok n set t d :
  node_wf n → algopr_bcast_msg n set t d = Some (sends n ((λ j, the_msg n false j false t d) <$> nodes_list set)).
Proof.
  intros H. unfold algopr_bcast_msg. rewrite foreach_spec. returned. apply bcast_loop_ok; [done|].
  apply Forall_forall. intros j Hj. apply elem_of_nodes_list, elem_of_nodes in Hj. apply Hj.
Qed.

(** ** Client *)

(** The node after the loop of [algopr_lockclient_process_local]. *)
Definition looped n (l : list D) (private : pr_private D) (x : X) (f : list (pr_private D)) : node_t X D P :=
  let c := n_client n in
  mk_node (n_shared n)
    (mk_client (PR_read_membership c) (PR_read_membership_ok c) (PR_read_incarnation_at_beginning c)
       (Z.of_nat (length l)) private (c_state c) l)
    (n_server n) (n_sequency n) x (n_msgs n) (n_future n) (n_out n)
    (n_used n - (PR_pending c - Z.of_nat (length l))) f.

(** What the loop leaves: the commands [l] that were not taken, the reservations
    [x], and the data to send. *)
Definition local_outcome n (update alone : bool) (l : list D) (x : X) (todo : option (option P)) : Prop :=
  let l0 := msg_new_pr (n_client n) in
  (length l <= length l0)%nat ∧ (update = false → l0 ≠ [] → (length l < length l0)%nat) ∧
  match todo with
  | None => l = [] ∧ (alone = true ∨ x = n_ctx n ∧ update = false)
  | Some buffer => alone = false ∧ ∃ p, buffer = Some p ∧ scsi_pr_read_metadata (n_ctx n) p = x ∧
      (update = true ∨ l0 = [] → ∀ y, scsi_pr_read_metadata y p = x)
  end.

Local Ltac same_node := unfold looped, scsi_pr_finished, with_ctx, with_client, with_private, with_pending, release_element, with_used;
  cbn [n_client PR_read_membership PR_read_membership_ok
  PR_read_incarnation_at_beginning PR_pending c_state n_shared n_server n_sequency n_msgs n_future n_out n_used n_ctx n_finished msg_new_pr length];
  repeat (lia || f_equal).

(** The commands are taken one after the other while they fail, or while the
    node is alone. *)
Lemma process_commands fuel n alone :
  msg_new_pr (n_client n) ≠ [] → PR_pending (n_client n) = Z.of_nat (length (msg_new_pr (n_client n))) →
  (length (msg_new_pr (n_client n)) <= fuel)%nat →
  ∃ (l : list D) private x f todo,
    process_local_loop fuel n false alone = Some (looped n l private x f, todo) ∧ local_outcome n false alone l x todo.
Proof using TargetLaws0.
  revert n. induction fuel as [|fuel IH]; intros n Hl Hp Hf; [destruct (msg_new_pr (n_client n)); simpl in *; (done || lia)|].
  destruct n as [sh [rd ok bg pd pv st l0] sv q x ms fu ou us fi]. cbn in Hl, Hp, Hf. subst pd.
  destruct l0 as [|d l0]; [done|]. cbn [process_local_loop n_client PR_pending msg_new_pr negb andb].
  rewrite (proj2 (Z.ltb_lt _ _)) by (simpl; lia). returned. cbn.
  replace (Z.of_nat (S (length l0)) - 1) with (Z.of_nat (length l0)) by lia.
  destruct (scsi_pr_write_metadata x (COMMAND d)) as [x' size] eqn:Ew.
  assert (Hdone : ∀ x2 fi2, (alone = false → x2 = x) → ∃ (l : list D) private x3 f todo,
    (if 0 <? Z.of_nat (length l0) then
       process_local_loop fuel (mk_node sh (mk_client rd ok bg (Z.of_nat (length l0)) (COMMAND d) st l0) sv q x2 ms fu ou (us - 1) fi2)
         false alone
     else Some (mk_node sh (mk_client rd ok bg (Z.of_nat (length l0)) (COMMAND d) st l0) sv q x2 ms fu ou (us - 1) fi2, None)) =
    Some (looped (mk_node sh (mk_client rd ok bg (Z.of_nat (length (d :: l0))) pv st (d :: l0)) sv q x ms fu ou us fi) l private x3 f, todo)
    ∧ local_outcome (mk_node sh (mk_client rd ok bg (Z.of_nat (length (d :: l0))) pv st (d :: l0)) sv q x ms fu ou us fi)
        false alone l x3 todo).
  { intros x2 fi2 Hx2. destruct l0 as [|d' l0].
    - exists [], (COMMAND d), x2, fi2, None. split.
      + by same_node.
      + split; [simpl; lia|]. split; [simpl; lia|]. split; [done|]. cbn. destruct alone; [by left|right]. by rewrite Hx2.
    - rewrite (proj2 (Z.ltb_lt _ _)) by (simpl; lia).
      destruct (IH (mk_node sh (mk_client rd ok bg (Z.of_nat (length (d' :: l0))) (COMMAND d) st (d' :: l0)) sv q x2 ms fu ou (us - 1) fi2))
        as (l & pr & x3 & f & todo & -> & (Ho1 & Ho2 & Ho3)); [done|done|simpl in *; lia|].
      exists l, pr, x3, f, todo. split.
      + by same_node.
      + cbn in Ho1, Ho2, Ho3 |- *. split; [simpl in *; lia|]. split; [simpl in *; lia|].
        destruct todo as [b|].
        * destruct Ho3 as (-> & p & -> & Hr & _). rewrite Hx2 in Hr by done. split; [done|]. exists p. split; [done|].
          split; [done|]. by intros [|].
        * destruct Ho3 as [-> [-> |[-> _]]]; (split; [done|]); [by left|]. destruct alone; [by left|right]. by rewrite Hx2. }
  destruct size as [[p|]|]; [| |].
  - destruct alone; cbn [negb orb exa_assert].
    + by apply Hdone.
    + exists l0, (COMMAND d), x', fi, (Some (Some p)). split; [by same_node|].
      split; [simpl; lia|]. split; [simpl; lia|]. split; [done|]. exists p. split; [done|]. split; [by eapply write_read|]. by intros [|].
  - by destruct (write_not_empty _ _ _ Ew).
  - cbn [negb orb exa_assert]. apply write_failed in Ew as ->. destruct alone; by apply Hdone.
Qed.

Lemma process_local_loop_ok n update alone :
  node_wf n →
  ∃ (l : list D) private x f todo,
    process_local_loop (Z.to_nat (PR_pending (n_client n)) + 2) n update alone = Some (looped n l private x f, todo) ∧
    local_outcome n update alone l x todo.
Proof using TargetLaws0.
  intros H. pose proof (nw_pending n H) as Hp.
  assert (Hfuel : (length (msg_new_pr (n_client n)) <= Z.to_nat (PR_pending (n_client n)) + 1)%nat) by lia.
  destruct (decide (update = false ∧ msg_new_pr (n_client n) ≠ [])) as [[-> Hl]|Hno].
  { apply process_commands; [done|done|lia]. }
  replace (Z.to_nat (PR_pending (n_client n)) + 2)%nat with (S (Z.to_nat (PR_pending (n_client n)) + 1)) by lia.
  clear H. destruct n as [sh [rd ok bg pd pv st l0] sv q x ms fu ou us fi]. cbn in Hp, Hfuel, Hno |- *. subst pd.
  assert (Eb : negb update && (0 <? Z.of_nat (length l0)) = false).
  { destruct update; [done|]. destruct l0 as [|]; [done|]. exfalso. apply Hno. by split. }
  rewrite Eb. returned. cbn. destruct (write_all x) as (p & Ew & Hr). rewrite Ew.
  destruct alone; cbn [negb orb exa_assert].
  - rewrite orb_true_r. cbn [exa_assert]. destruct (decide (l0 = [])) as [-> |Hl0].
    + exists [], ALGOPR_PRIVATE_DATA, x, (fi ++ [ALGOPR_PRIVATE_DATA]), None. split; [by same_node|].
      split; [done|]. split; [done|]. split; [done|]. by left.
    + destruct update; [|exfalso; apply Hno; by split].
      rewrite (proj2 (Z.ltb_lt _ _)) by (destruct l0; simpl in *; (done || lia)).
      destruct (process_commands (Z.to_nat (Z.of_nat (length l0)) + 1)
        (mk_node sh (mk_client rd ok bg (Z.of_nat (length l0)) ALGOPR_PRIVATE_DATA st l0) sv q x ms fu ou us
          (fi ++ [ALGOPR_PRIVATE_DATA])) true) as (l & pr & x3 & f & todo & E & (Ho1 & Ho2 & Ho3)); [done|done|simpl in *; lia|].
      exists l, pr, x3, f, todo. split; [etransitivity; [exact E|by same_node]|]. split; [done|]. split; [done|].
      destruct todo as [b|]; [by destruct Ho3|]. destruct Ho3 as [-> _]. split; [done|]. by left.
  - exists l0, ALGOPR_PRIVATE_DATA, x, fi, (Some (Some p)). split; [by same_node|].
    split; [done|]. split.
    { intros -> Hl0. exfalso. apply Hno. by split. }
    split; [done|]. exists p. split; [done|]. by split.
Qed.

(** A node whose client side has changed and that has sent the messages [l]. *)
Definition acted n (c : algopr_lockclient_t D) (x : X) (q u : Z) (f : list (pr_private D)) l : node_t X D P :=
  sends (mk_node (n_shared n) c (n_server n) q x (n_msgs n) (n_future n) (n_out n) u f) l.

Definition members n : gset Z := nodes_of (membership (n_shared n)).

Definition server_msg n (q : Z) (t : msg_type_t) : algopr_message_t P :=
  mk_message t false (this n) true (PR_lockserver (n_shared n)) q (inc_of n (PR_lockserver (n_shared n))) (inc_of n (this n)) None.

Definition cmd_msg n (p : P) (j : Z) : algopr_message_t P := the_msg n false j false ALGOPR_MESSAGE_PR_CMD (Some p).

(** The node after [algopr_lockclient_process_local]. *)
Definition local_done n (read : exa_nodeset_t) (l : list D) (private : pr_private D) (x : X) (f : list (pr_private D))
    (u : Z) (todo : option P) : node_t X D P :=
  let c := n_client n in
  match todo with
  | None =>
      acted n (mk_client read (PR_read_membership_ok c) (PR_read_incarnation_at_beginning c) (Z.of_nat (length l)) private
        (c_state c) l) x (n_sequency n) u f [server_msg n (n_sequency n) ALGOPR_MESSAGE_UNLOCK]
  | Some p =>
      acted n (mk_client (default EXA_NODESET_EMPTY (exa_nodeset_add read (this n)))
        (default EXA_NODESET_EMPTY (exa_nodeset_add EXA_NODESET_EMPTY (this n))) (inc_of n (this n))
        (Z.of_nat (length l)) private ALGOPR_LOCKCLIENT_STATE_WAIT_PROCESS_REMOTE l) x (n_sequency n) u f
        (cmd_msg n p <$> nodes_list read)
  end.

Lemma looped_wf n read ok (l : list D) private x f :
  node_wf n → nodeset_wf read → nodeset_wf ok →
  node_wf (looped (with_client n (with_reading (n_client n) read ok)) l private x f).
Proof. intros [] ??. by split. Qed.

Lemma process_local_ok n update :
  node_wf n → valid_node (PR_lockserver (n_shared n)) →
  ∃ read (l : list D) private x f u todo,
    algopr_lockclient_process_local n update = Some (local_done n read l private x f u todo) ∧
    nodeset_wf read ∧ nodes_of read = members n ∖ {[this n]} ∧
    local_outcome n update (bool_decide (members n ∖ {[this n]} = ∅)) l x (Some <$> todo) ∧
    u = n_used n - (PR_pending (n_client n) - Z.of_nat (length l)).
Proof using TargetLaws0.
  intros H Hls. unfold algopr_lockclient_process_local.
  destruct (del_spec (membership (n_shared n)) (this n) (nw_mship n H) (nw_this n H)) as (read & -> & Hwf & Hr). returned.
  rewrite (is_empty_spec read Hwf), Hr. fold (members n).
  set (n0 := with_client n (with_reading (n_client n) read (PR_read_membership_ok (n_client n)))).
  assert (H0 : node_wf n0) by (destruct H; by split).
  destruct (process_local_loop_ok n0 update (bool_decide (members n ∖ {[this n]} = ∅)) H0)
    as (l & pr & x & f & todo & E & Ho).
  change (PR_pending (n_client n)) with (PR_pending (n_client n0)). rewrite E. returned.
  assert (H1 : node_wf (looped n0 l pr x f)) by (apply looped_wf; [done|done|apply H]).
  exists read, l, pr, x, f, (n_used n - (PR_pending (n_client n) - Z.of_nat (length l))).
  destruct todo as [b|].
  - destruct Ho as (Ho1 & Ho2 & Ha & p & -> & Hp). exists (Some p). split; [|by split_and!; [..|split; [done|split; [done|split; [done|by exists p]]]|]].
    rewrite incarnation_ok by (done || apply H). returned.
    rewrite bcast_msg_ok by (destruct H1; by split). returned.
    destruct (add_spec read (this n) Hwf (nw_this n H)) as (read' & Er & _). rewrite Er. returned.
    destruct (add_spec EXA_NODESET_EMPTY (this n) empty_wf (nw_this n H)) as (ok' & Eo & _). rewrite Eo. returned.
    unfold local_done. rewrite Er, Eo. reflexivity.
  - exists None. split; [|by split_and!]. by rewrite send_to_lockserver_ok.
Qed.

(** The node after [algopr_lockclient_process_check_finished]. *)
Definition finish_type n : msg_type_t :=
  if inc_of n (this n) =? PR_read_incarnation_at_beginning (n_client n)
  then ALGOPR_MESSAGE_UNLOCK else ALGOPR_MESSAGE_LOCKSERVER_OK.

Definition lock_demand n (q : Z) : list (algopr_message_t P) :=
  if 0 <? PR_pending (n_client n) then [server_msg n q ALGOPR_MESSAGE_LOCK] else [].

Definition checked n (read ok : exa_nodeset_t) : node_t X D P :=
  let c := with_reading (n_client n) read ok in
  let q := u16 (n_sequency n + 1) in
  if bool_decide (nodes_of read = nodes_of ok) then
    acted n (with_c_state c ALGOPR_LOCKCLIENT_STATE_PASSIVE) (n_ctx n) q (n_used n)
      (n_finished n ++ [PR_pending_private c]) (server_msg n q (finish_type n) :: lock_demand n q)
  else acted n c (n_ctx n) (n_sequency n) (n_used n) (n_finished n) [].

Lemma check_finished_ok n :
  node_wf n → valid_node (PR_lockserver (n_shared n)) →
  c_state (n_client n) = ALGOPR_LOCKCLIENT_STATE_WAIT_PROCESS_REMOTE →
  let m := membership (n_shared n) in
  algopr_lockclient_process_check_finished n =
  Some (checked n (exa_nodeset_intersect (PR_read_membership (n_client n)) m)
    (exa_nodeset_intersect (PR_read_membership_ok (n_client n)) m)).
Proof.
  intros H Hls Hst m. unfold algopr_lockclient_process_check_finished, checked. rewrite Hst, bool_decide_true by done. cbn [exa_assert].
  destruct (intersect_spec _ m (nw_read n H) (nw_mship n H)) as [Hr _].
  destruct (intersect_spec _ m (nw_ok n H) (nw_mship n H)) as [Ho _].
  fold m. set (read := exa_nodeset_intersect (PR_read_membership _) m) in *.
  set (ok := exa_nodeset_intersect (PR_read_membership_ok _) m) in *.
  rewrite (equals_spec read ok Hr Ho). case_bool_decide as Eq; cbn [negb].
  2:{ unfold acted. rewrite sends_nil. by destruct n. }
  unfold with_client, with_sequency, scsi_pr_finished.
  cbn [n_shared n_client n_server n_sequency n_ctx n_msgs n_future n_out n_used n_finished].
  set (n1 := mk_node _ _ _ _ _ _ _ _ _ _). assert (H1 : node_wf n1) by (destruct H; by split).
  rewrite (incarnation_ok n1 (this n) H1 (nw_this n H)). returned. unfold finish_type, lock_demand.
  change (inc_of n1 (this n)) with (inc_of n (this n)).
  cbn [n_client n1 PR_read_incarnation_at_beginning with_reading PR_pending].
  destruct (_ =? PR_read_incarnation_at_beginning (n_client n)); rewrite send_to_lockserver_ok by done; returned;
    unfold sends; cbn [n_client with_c_state with_reading PR_pending n1 n_shared n_server n_sequency n_ctx n_msgs n_future n_out n_used n_finished];
    (destruct (0 <? PR_pending (n_client n)); [rewrite send_to_lockserver_ok by (done || (destruct H; by split))|]).
  - f_equal. exact (sends_app (mk_node _ _ _ _ _ _ _ _ _ _) [_] [_]).
  - reflexivity.
  - f_equal. exact (sends_app (mk_node _ _ _ _ _ _ _ _ _ _) [_] [_]).
  - reflexivity.
Qed.

(** ** Server *)

(** A node whose server side has changed and that has sent the messages [l]. *)
Definition served n (ls : algopr_lockserver_t P) (u : Z) l : node_t X D P :=
  sends (mk_node (n_shared n) (n_client n) ls (n_sequency n) (n_ctx n) (n_msgs n) (n_future n) (n_out n) u (n_finished n)) l.

Lemma served_server n ls : with_server n ls = served n ls (n_used n) [].
Proof. unfold served. by rewrite sends_nil. Qed.

Lemma served_with n ls u l ls' : with_server (served n ls u l) ls' = served n ls' u l.
Proof. reflexivity. Qed.

Lemma served_release n ls u l : release_element (served n ls u l) = served n ls (u - 1) l.
Proof.
  unfold release_element, with_used, served, sends.
  cbn [n_shared n_client n_server n_sequency n_ctx n_msgs n_future n_out n_used n_finished].
  f_equal. apply Z.add_sub_swap.
Qed.

Lemma served_sends n ls u l l' : sends (served n ls u l) l' = served n ls u (l ++ l').
Proof. apply sends_app. Qed.

Lemma served_wf n ls u l :
  node_wf n → nodeset_wf (s_membership ls) → msg_lock_nb ls = Z.of_nat (length (msg_lock ls)) → node_wf (served n ls u l).
Proof. intros [] ??. by split. Qed.

Definition better (ls : algopr_lockserver_t P) m : algopr_lockserver_t P :=
  if best_incarnation_incarnation ls <? from_membership_incarnation m
  then with_best ls (from_node_id m) (from_membership_incarnation m) else ls.

(** The node after a "ready" of the node that sent [m]; [acked] is the set of the
    nodes that are ready. *)
Definition acknowledged n m (acked : exa_nodeset_t) : node_t X D P :=
  let ls := with_acked (better (n_server n) m) acked in
  let best := best_incarnation_node ls in
  if bool_decide (members n = nodes_of acked) then
    served n (with_s_state (with_owner ls best) ALGOPR_LOCKSERVER_STATE_READY_LOCKED) (n_used n - 1)
      [the_msg n true best false ALGOPR_MESSAGE_LOCK_UPDATE_OTHER_NODE None]
  else served n ls (n_used n - 1) [].

Lemma better_acked ls m : s_membership (better ls m) = s_membership ls.
Proof. unfold better. by destruct (_ <? _). Qed.

Lemma valid_not_none j : valid_node j → j =? EXA_NODEID_NONE = false.
Proof. unfold valid_node, EXA_NODEID_NONE, EXA_MAX_NODES_NUMBER. lia. Qed.

Lemma wait_all_ok_ok n m :
  node_wf n → valid_node (from_node_id m) → type m = ALGOPR_MESSAGE_LOCKSERVER_OK →
  from_node_id m ∉ nodes_of (s_membership (n_server n)) → valid_node (best_incarnation_node (better (n_server n) m)) →
  ∃ acked, state_wait_all_ok_handle_msg n m = Some (acknowledged n m acked) ∧ nodeset_wf acked ∧
    nodes_of acked = {[from_node_id m]} ∪ nodes_of (s_membership (n_server n)).
Proof.
  intros H Hf Ht Hn Hb. unfold state_wait_all_ok_handle_msg. rewrite Ht. fold (better (n_server n) m).
  rewrite better_acked, contains_spec by done. returned. rewrite bool_decide_false by done. cbn [negb exa_assert].
  destruct (add_spec _ _ (nw_acked n H) Hf) as (acked & -> & Hwf & Ha). returned. exists acked. split; [|done].
  unfold acknowledged. rewrite (equals_spec _ _ (nw_mship n H) Hwf). fold (members n).
  set (ls := with_acked (better (n_server n) m) acked).
  change (best_incarnation_node (better (n_server n) m)) with (best_incarnation_node ls) in Hb.
  rewrite !served_server. case_bool_decide; cbn [negb]; [|by rewrite served_release].
  change (best_incarnation_node (with_owner ls (best_incarnation_node ls))) with (best_incarnation_node ls).
  rewrite valid_not_none by done. cbn [negb exa_assert].
  rewrite send_msg_ok; [|apply served_wf; [done|done|unfold ls, better; destruct (_ <? _); apply H]|done].
  returned. by rewrite served_sends, served_with, served_release.
Qed.

(** The lock goes to the node that asked for it with [m]. *)
Definition locked_msg n m : algopr_message_t P :=
  mk_message ALGOPR_MESSAGE_LOCKED (to_lockserver m) (this n) (from_lockserver m) (from_node_id m) (emitter_sequency m)
    (inc_of n (from_node_id m)) (inc_of n (this n)) None.

Lemma ready_unlocked_ok n m :
  node_wf n → valid_node (from_node_id m) → to_node_id m = this n → type m = ALGOPR_MESSAGE_LOCK →
  state_ready_unlocked_handle_msg n m =
  Some (served n (with_s_state (with_owner (n_server n) (from_node_id m)) ALGOPR_LOCKSERVER_STATE_READY_LOCKED)
    (n_used n - 1) [locked_msg n m]).
Proof.
  intros H Hf Hto Ht. unfold state_ready_unlocked_handle_msg. rewrite Ht.
  rewrite served_server, send_back_ok by (done || (apply served_wf; apply H || done)). returned.
  by rewrite served_sends, served_with, served_release.
Qed.

Lemma ready_locked_ok n m :
  node_wf n → type m = ALGOPR_MESSAGE_UNLOCK → node_with_lock (n_server n) = from_node_id m →
  Forall (λ m', valid_node (from_node_id m') ∧ to_node_id m' = this n) (msg_lock (n_server n)) →
  state_ready_locked_handle_msg n m =
  Some (match msg_lock (n_server n) with
        | [] => served n (with_s_state (n_server n) ALGOPR_LOCKSERVER_STATE_READY_UNLOCKED) (n_used n - 1) []
        | m' :: l =>
            served n (with_s_state (with_owner (with_locks (n_server n) l (msg_lock_nb (n_server n) - 1)) (from_node_id m'))
              ALGOPR_LOCKSERVER_STATE_READY_LOCKED) (n_used n - 2) [locked_msg n m']
        end).
Proof.
  intros H Ht Ho Hl. unfold state_ready_locked_handle_msg, algopr_lockserver_get_msg_lock. rewrite Ht, Ho, Z.eqb_refl. cbn [exa_assert].
  pose proof (nw_locks n H) as Hnb. destruct (msg_lock (n_server n)) as [|m' l] eqn:El.
  - rewrite (proj2 (Z.eqb_eq _ _)) by (rewrite Hnb; done). returned. by rewrite served_server, served_release.
  - apply Forall_cons in Hl as [[Hf Hto] _]. rewrite (proj2 (Z.eqb_neq _ _)) by (simpl in Hnb; lia). returned.
    rewrite (served_server n), served_with.
    rewrite send_back_ok; [|apply served_wf; [done|apply H|cbn; simpl in Hnb; lia]|done|done]. returned.
    rewrite served_sends, served_with, !served_release. by rewrite <- Z.sub_add_distr.
Qed.

(** ** Membership *)

Definition next_inc (inc : list Z) (mb : exa_nodeset_t) : list Z :=
  (λ j, if bool_decide (j ∈ nodes_of mb) then inc !!! Z.to_nat j + 1 else 0) <$> all_nodes.

Lemma update_incarnation_ok inc (mb : exa_nodeset_t) :
  length inc = 128%nat → algopr_update_incarnation_from_membership inc mb = Some (next_inc inc mb).
Proof.
  intros Hl. unfold algopr_update_incarnation_from_membership, next_inc.
  assert (Hv : ∀ j, j ∈ all_nodes → valid_node j) by (intros j; apply elem_of_all_nodes). revert Hv.
  induction all_nodes as [|j nodes IH]; intros Hv; [done|].
  assert (Hj : valid_node j) by (apply Hv; left). unfold valid_node, EXA_MAX_NODES_NUMBER in Hj.
  cbn [mapM]. rewrite contains_spec by (apply Hv; left). cbn [mbind option_bind].
  destruct (lookup_lt_is_Some_2 inc (Z.to_nat j)) as [x Hx]; [lia|]. rewrite Hx. cbn [mbind option_bind].
  rewrite IH by (intros; apply Hv; by right). cbn. by rewrite (list_lookup_total_correct _ _ _ Hx).
Qed.

Lemma next_inc_lookup inc (mb : exa_nodeset_t) j :
  valid_node j → next_inc inc mb !!! Z.to_nat j = if bool_decide (j ∈ nodes_of mb) then inc !!! Z.to_nat j + 1 else 0.
Proof.
  intros Hj. apply list_lookup_total_correct. unfold next_inc. rewrite list_lookup_fmap.
  assert (all_nodes !! Z.to_nat j = Some j) as -> by (apply lookup_seqZ; unfold valid_node, EXA_MAX_NODES_NUMBER in *; lia).
  done.
Qed.

Lemma length_next_inc inc (mb : exa_nodeset_t) : length (next_inc inc mb) = 128%nat.
Proof. unfold next_inc. by rewrite length_fmap. Qed.

(** The node after the first part of [handle_new_membership]. *)
Definition renewed n (mb : exa_nodeset_t) (ls : Z) : node_t X D P :=
  mk_node (mk_shared (this n) (next_inc (membership_incarnation (n_shared n)) mb) mb ls (suspended (n_shared n)))
    (n_client n)
    (mk_server (if ls =? this n then ALGOPR_LOCKSERVER_STATE_WAIT_ALL_OK else ALGOPR_LOCKSERVER_STATE_STANDBY)
       EXA_NODESET_EMPTY (node_with_lock (n_server n)) [] 0 EXA_NODEID_NONE (-1))
    (n_sequency n) (n_ctx n) (n_msgs n) (n_future n) (n_out n) (n_used n - msg_lock_nb (n_server n)) (n_finished n).

Lemma flush_loop_ok n :
  msg_lock_nb (n_server n) = Z.of_nat (length (msg_lock (n_server n))) →
  algopr_lockserver_flush_msg_lock n = Some (served n (with_locks (n_server n) [] 0) (n_used n - msg_lock_nb (n_server n)) []).
Proof.
  unfold algopr_lockserver_flush_msg_lock. intros Hnb. rewrite Hnb, Nat2Z.id.
  assert (Hgo : ∀ (l : list (algopr_message_t P)) u, flush_loop (length l) (served n (with_locks (n_server n) l (Z.of_nat (length l))) u []) =
    Some (served n (with_locks (n_server n) [] 0) (u - Z.of_nat (length l)) [])).
  { intros l. induction l as [|mb l IH]; intros u; cbn [length flush_loop].
    - f_equal. f_equal. simpl. lia.
    - cbn [served sends n_server msg_lock with_locks msg_lock_nb].
      replace (Z.of_nat (S (length l)) - 1) with (Z.of_nat (length l)) by lia.
      change (with_server _ _) with (served n (with_locks (n_server n) l (Z.of_nat (length l))) u []).
      rewrite served_release, IH. do 2 f_equal. lia. }
  rewrite <- Hgo. f_equal. destruct n as [? ? []]. cbn in *. unfold served. rewrite sends_nil. unfold with_locks. cbn. by rewrite Hnb.
Qed.

Lemma renewed_wf n (mb : exa_nodeset_t) ls :
  node_wf n → nodeset_wf mb → (∀ j, valid_node j → inc_of n j < 2 ^ 16 - 1) → node_wf (renewed n mb ls).
Proof.
  intros H Hm Hinc. destruct H. split; try assumption; [apply length_next_inc| |apply empty_wf|reflexivity].
  intros j Hj. unfold inc_of. cbn. rewrite next_inc_lookup by done. pose proof (nw_inc0 j Hj) as Hf. pose proof (Hinc j Hj) as Hlt.
  unfold inc_of, fits in Hf, Hlt |- *. case_bool_decide; lia.
Qed.

Lemma new_membership_ok n (mb : exa_nodeset_t) ls :
  node_wf n → nodeset_wf mb → nodes_of mb ≠ ∅ → exa_nodeset_first mb = Some ls → valid_node ls →
  (∀ j, valid_node j → inc_of n j < 2 ^ 16 - 1) →
  handle_new_membership n mb =
  Some (match c_state (n_client n) with
        | ALGOPR_LOCKCLIENT_STATE_PASSIVE =>
            sends (renewed n mb ls)
              (server_msg (renewed n mb ls) (n_sequency n) ALGOPR_MESSAGE_LOCKSERVER_OK :: lock_demand (renewed n mb ls) (n_sequency n))
        | ALGOPR_LOCKCLIENT_STATE_WAIT_PROCESS_REMOTE =>
            checked (renewed n mb ls) (exa_nodeset_intersect (PR_read_membership (n_client n)) mb)
              (exa_nodeset_intersect (PR_read_membership_ok (n_client n)) mb)
        end).
Proof.
  intros H Hm Hne Hls Hv Hinc. pose proof (renewed_wf n mb ls H Hm Hinc) as Hr.
  unfold handle_new_membership, algopr_shared_update. rewrite (is_empty_spec mb Hm), bool_decide_false by done. cbn [negb exa_assert].
  rewrite update_incarnation_ok by apply H. returned. rewrite Hls. returned. returned.
  rewrite flush_loop_ok by apply H. returned. rewrite !served_with.
  match goal with |- context [ match c_state (n_client ?n1) with _ => _ end ] =>
    replace n1 with (renewed n mb ls) end.
  2:{ unfold served. rewrite sends_nil. unfold renewed. cbn. by destruct (ls =? this n). }
  cbn [n_client renewed]. destruct (c_state (n_client n)) eqn:Est.
  - fold (renewed n mb ls). rewrite send_to_lockserver_ok by done. returned. unfold lock_demand.
    change (PR_pending (n_client (renewed n mb ls))) with (PR_pending (n_client n)).
    change (PR_pending (n_client (sends _ _))) with (PR_pending (n_client n)).
    destruct (0 <? PR_pending (n_client n)); [|done].
    rewrite send_to_lockserver_ok by (done || (destruct Hr; by split)). f_equal. exact (sends_app (renewed n mb ls) [_] [_]).
  - fold (renewed n mb ls). by rewrite check_finished_ok.
Qed.

(** The operations that [algopr_update_messages] keeps. *)
Definition keeps (mb : exa_nodeset_t) op : bool :=
  match op with ALGOPR_MESSAGE m => bool_decide (from_node_id m ∈ nodes_of mb) | _ => true end.

Definition sorted_out n (mb : exa_nodeset_t) : node_t X D P :=
  let ops := n_future n ++ n_msgs n in
  mk_node (n_shared n) (n_client n) (n_server n) (n_sequency n) (n_ctx n) (filter (keeps mb) ops) [] (n_out n)
    (n_used n - Z.of_nat (length (filter (λ op, keeps mb op = false) ops))) (n_finished n).

Definition valid_op op : Prop := ∀ m, op_msg op = Some m → valid_node (from_node_id m).

Lemma update_messages_ok n (mb : exa_nodeset_t) :
  Forall valid_op (n_future n ++ n_msgs n) → algopr_update_messages n mb = Some (sorted_out n mb).
Proof.
  unfold algopr_update_messages, sorted_out. cbn [n_future with_lists]. intros Hv.
  assert (Hgo : ∀ ops msgs u, Forall valid_op ops → update_messages_loop
    (mk_node (n_shared n) (n_client n) (n_server n) (n_sequency n) (n_ctx n) msgs (n_future n ++ n_msgs n) (n_out n) u (n_finished n)) mb ops =
    Some (mk_node (n_shared n) (n_client n) (n_server n) (n_sequency n) (n_ctx n) (msgs ++ filter (keeps mb) ops) [] (n_out n)
      (u - Z.of_nat (length (filter (λ op, keeps mb op = false) ops))) (n_finished n))).
  { intros ops. induction ops as [|op ops IH]; intros msgs u Hops.
    - cbn. unfold with_lists. cbn. rewrite app_nil_r, Z.sub_0_r. done.
    - apply Forall_cons in Hops as [Hop Hops]. cbn [update_messages_loop].
      assert (Ek : match op with ALGOPR_MESSAGE m => b ← exa_nodeset_contains mb (from_node_id m); Some (negb b) | _ => Some false end =
        Some (negb (keeps mb op))).
      { destruct op as [| | | |m]; try done. cbn. rewrite contains_spec by (by apply Hop). done. }
      rewrite Ek. returned. destruct (keeps mb op) eqn:E; cbn [negb].
      + rewrite filter_cons_True, filter_cons_False by (rewrite E; (exact I || reflexivity || (intros []; done) || discriminate)). unfold with_lists. cbn. rewrite IH by done.
        by rewrite <- (assoc_L (++)).
      + rewrite filter_cons_False, filter_cons_True by (rewrite E; (exact I || reflexivity || (intros []; done) || discriminate)). unfold release_element, with_used. cbn.
        rewrite IH by done. do 2 f_equal. cbn [length]. lia. }
  specialize (Hgo (n_future n ++ n_msgs n) [] (n_used n) Hv). cbn [app] in Hgo. exact Hgo.
Qed.
End node.
