(* ===== verification/PrLockTarget.v ===== *)
(** * The target of the reservation lock (target/iscsi/src/scsi_command.c)

    What the lock of [PrLock] asks of the target, with the reservations of
    [PrReserve]: [scsi_pr_write_metadata] executes a command and packs it, or
    all the reservations, for the other nodes; [scsi_pr_read_metadata] applies
    what was packed.  The laws of [TargetLaws] hold.

    The reservations are [None] once an assertion of the target has failed,
    where the code stops.  The commands of a unit that a reset aborts are in
    [lun_data], which is not modelled: whether a command is aborted is part of
    the command.  [scsi_new_session], [scsi_del_session] and
    [scsi_logical_unit_reset] apply their command to the reservations of the node
    at once, before they give it to the lock; the model has the command of the
    lock only. *)

From S2P Require Import Prelude Nodeset PrReserve PrLock PrLockNode.
From stdpp Require Import options.

(** ** Packing *)

Definition SCSI_PACK_NEW_SESSION : Z := 1.
Definition SCSI_PACK_DEL_SESSION : Z := 2.
Definition SCSI_PACK_CDB : Z := 3.
Definition SCSI_PACK_LOGICAL_UNIT_RESET : Z := 4.
Definition PACK_BUFFER_TEMP : Z := 64.
Definition SCSI_PERSISTENT_RESERVE_OUT_CDB_SIZE : Z := 40.
Definition RESET_ALL_LUNS : Z := MAX_LUNS + 1.

Definition SCSI_PACK_TYPE_IS_VALID (spt : Z) : bool := (SCSI_PACK_NEW_SESSION <=? spt) && (spt <=? SCSI_PACK_LOGICAL_UNIT_RESET).

(** The bytes of [set_bigendian16]. *)
Definition bigendian16 (v : Z) : list Z := [Z.shiftr (u16 v) 8; Z.land (u16 v) 0xff].

(** The bytes that are written; [Some None] when they do not fit. *)
Definition scsi_pack (lun session_id : Z) (cdb : list Z) (scsi_type size max_size : Z) : option (option (list Z)) :=
  assert! (SCSI_PACK_TYPE_IS_VALID scsi_type);
  if max_size <? size + 5 then Some None
  else
    assert! (bool_decide (Z.to_nat size <= length cdb)%nat);
    Some (Some (bigendian16 lun ++ bigendian16 session_id ++ [Z.land scsi_type 0xff] ++ take (Z.to_nat size) cdb)).

Definition scsi_unpack (buffer : list Z) : option (Z * Z * list Z * Z) :=
  lun ← get_bigendian16 buffer 0;
  session_id ← get_bigendian16 buffer 2;
  scsi_type ← buffer !! 4%nat;
  assert! (SCSI_PACK_TYPE_IS_VALID scsi_type);
  Some (lun, session_id, drop 5 buffer, scsi_type).

(** A session of a node among those of the cluster. *)
Definition scsi_global_session_id (this_node_id local_session_id : Z) : Z :=
  Z.rem local_session_id CONFIG_TARGET_MAX_SESSIONS + CONFIG_TARGET_MAX_SESSIONS * this_node_id.

(** What a reset does to the reservations. *)
Definition scsi_lun_local_logical_unit_reset (ctx : pr_context_t) (lun : Z) : option pr_context_t :=
  if MAX_LUNS <=? lun then Some ctx else pr_reset_lun ctx lun.

Definition reset_all_luns (ctx : pr_context_t) : option pr_context_t :=
  foldl (λ o lun, c ← o; scsi_lun_local_logical_unit_reset c lun) (Some ctx) (seqZ 0 MAX_LUNS).

Definition scsi_process_packed_data (ctx : pr_context_t) (packed_data : list Z) : option pr_context_t :=
  '(lun, session_id, scsi_cdb, scsi_pack_type) ← scsi_unpack packed_data;
  if scsi_pack_type =? SCSI_PACK_CDB then
    '(ctx, status, _) ← pr_reserve_out ctx lun scsi_cdb session_id;
    st ← status;
    assert! (is_good st);
    Some ctx
  else if scsi_pack_type =? SCSI_PACK_NEW_SESSION then pr_add_session ctx session_id
  else if scsi_pack_type =? SCSI_PACK_DEL_SESSION then pr_del_session ctx session_id
  else if lun =? RESET_ALL_LUNS then reset_all_luns ctx
  else scsi_lun_local_logical_unit_reset ctx lun.

(** ** The target *)

(** What a target gives to the lock: a session or a reset ([sam.command]), or a
    command of a session of the node on a unit; the data is the block of the
    command and its parameters. *)
Inductive target_cmd_t :=
  | SAM_COMMAND (temp : list Z)
  | TARGET_CMD (abort : bool) (lun this_node_id sess : Z) (data : list Z).

(** What is sent to the other nodes: a command, or all the reservations, which
    the receiver tells apart by their size. *)
Inductive packed_t := PACKED_NONE | PACKED_DATA (bytes : list Z) | PACKED_CONTEXT (ctx : pr_context_t).

(** The result of a write, for the lock; a failed assertion. *)
Abbreviation written := (option pr_context_t * option (option packed_t))%type.
Definition failed : written := (None, Some (Some PACKED_NONE)).

(** The command of a session: its unit and its session exist, as the target
    has checked, and [PACK_BUFFER_TEMP] bytes are enough for what is sent. *)
Definition write_command (ctx : pr_context_t) (lun session_id : Z) (data : list Z) : written :=
  match (assert! ((0 <=? lun) && (lun <? MAX_LUNS) && (0 <=? session_id)); pr_reserve_out ctx lun data session_id) with
  | Some (ctx, Some status, _) =>
      if negb (is_good status) then (Some ctx, None)
      else
        match scsi_pack lun session_id data SCSI_PACK_CDB SCSI_PERSISTENT_RESERVE_OUT_CDB_SIZE PACK_BUFFER_TEMP with
        | Some temp => (Some ctx, Some (PACKED_DATA <$> temp))
        | None => failed
        end
  | _ => failed
  end.

Definition write_metadata (x : option pr_context_t) (private_data : pr_private target_cmd_t) : written :=
  match x, private_data with
  | None, _ => failed
  | Some ctx, ALGOPR_PRIVATE_DATA => (x, Some (Some (PACKED_CONTEXT ctx)))
  | Some ctx, COMMAND (SAM_COMMAND temp) =>
      match scsi_process_packed_data ctx temp with
      | Some ctx => (Some ctx, Some (Some (PACKED_DATA temp)))
      | None => failed
      end
  | Some ctx, COMMAND (TARGET_CMD abort lun this_node_id sess data) =>
      if abort then (x, None)
      else write_command ctx lun (scsi_global_session_id this_node_id sess) data
  end.

Definition read_metadata (x : option pr_context_t) (packed : packed_t) : option pr_context_t :=
  match packed with
  | PACKED_NONE => None
  | PACKED_DATA cdb => ctx ← x; scsi_process_packed_data ctx cdb
  | PACKED_CONTEXT ctx => Some ctx
  end.

#[export] Instance scsi_target : Target (option pr_context_t) target_cmd_t packed_t := {|
  scsi_pr_write_metadata := write_metadata;
  scsi_pr_read_metadata := read_metadata
|}.

(** ** A command that is refused changes nothing *)

Local Ltac returns_same :=
  repeat match goal with
  | H : (_ ≫= _) = Some _ |- _ => apply bind_Some in H as (? & ? & H)
  | H : Some _ = Some _ |- _ => discriminate H || (injection H as <- <- <-) || (injection H as <- <-) || (injection H as <-)
  | H : (let '_ := ?x in _) = _ |- _ => destruct x
  | H : (if ?b then _ else _) = Some _ |- _ => destruct b
  | H : (exa_assert ?b _) = Some _ |- _ => destruct b; cbn in H
  end; try done.

Lemma service_action_refused used p s c p' st told :
  pr_service_action used p s c = Some (p', st, told) → is_good st = false → p' = p.
Proof.
  unfold pr_service_action, persistent_register_lun, persistent_reserve_lun, persistent_release_lun, persistent_clear_lun, persistent_preempt_lun.
  intros H Hst. returns_same.
Qed.

Lemma reserve_out_refused ctx lun cdb s ctx' st told :
  pr_reserve_out ctx lun cdb s = Some (ctx', Some st, told) → is_good st = false → ctx' = ctx.
Proof.
  unfold pr_reserve_out. intros H Hst. destruct (exa_assert _); [|done]. apply bind_Some in H as (p & Hp & H).
  assert (Hback : ∀ p', p' = p → mk_pr_context (<[Z.to_nat lun := p']> (pr_info ctx)) (session_id_used ctx) = ctx).
  { intros p' ->. rewrite list_insert_id by done. by destruct ctx. }
  apply bind_Some in H as (cdb0 & _ & H). unfold persistent_spc2_reserve_lun, persistent_spc2_release_lun in H.
  destruct (cdb0 =? RESERVE_6); [|destruct (cdb0 =? RELEASE_6)].
  - apply bind_Some in H as ([p' ok] & H' & [= <- <- <-]). apply Hback. destruct ok; [done|]. returns_same.
  - apply bind_Some in H as ([p' ok] & H' & [= <- <- <-]). apply Hback. destruct ok; [done|]. returns_same.
  - destruct (cdb0 =? PERSISTENT_RESERVE_OUT); [|done]. apply bind_Some in H as (c & _ & ([[p' st'] told'] & H' & [= <- <- <-])%bind_Some).
    apply Hback. unfold pr_persistent_reserve_out in H'. destruct (_ && _); [by injection H' as <- _ _|].
    apply bind_Some in H' as (ok & _ & H'). destruct (negb _); [by injection H' as <- _ _|].
    apply bind_Some in H' as ([[p1 st1] told1] & H1 & [= <- <- <-]). rewrite Hst. cbn. by eapply service_action_refused.
Qed.

(** ** A command is read as it was written *)

Lemma reserve_out_take ctx lun cdb s :
  (40 <= length cdb)%nat → pr_reserve_out ctx lun (take 40 cdb) s = pr_reserve_out ctx lun cdb s.
Proof.
  intros Hl. assert (Hi : ∀ i, (i < 40)%nat → take 40 cdb !! i = cdb !! i) by (intros i Hi; by rewrite lookup_take_lt).
  assert (Hp : parse_pr_out (take 40 cdb) = parse_pr_out cdb).
  { unfold parse_pr_out, get_bigendian64, get_bigendian32, get_bigendian16. change (Z.to_nat SCSI_CDB_MAX_FIXED_LENGTH) with 16%nat.
    rewrite !Hi by lia. done. }
  unfold pr_reserve_out. rewrite Hp, Hi by lia. done.
Qed.

Lemma bigendian16_get v : fits 16 v → ∀ l, get_bigendian16 (bigendian16 v ++ l) 0 = Some v.
Proof.
  intros Hv l. unfold bigendian16. rewrite (u16_id v Hv). unfold get_bigendian16. cbn -[Z.land Z.shiftl Z.shiftr]. f_equal.
  rewrite Z.shiftl_mul_pow2, Z.shiftr_div_pow2 by lia. change 0xff with (Z.ones 8). rewrite Z.land_ones by lia.
  rewrite (Z.add_comm (v mod 2 ^ 8)), (Z.mul_comm (v / 2 ^ 8)), <- Z_div_mod_eq_full. by apply u16_id.
Qed.

Lemma unpack_pack lun s cdb temp :
  fits 16 lun → fits 16 s →
  scsi_pack lun s cdb SCSI_PACK_CDB SCSI_PERSISTENT_RESERVE_OUT_CDB_SIZE PACK_BUFFER_TEMP = Some (Some temp) →
  scsi_unpack temp = Some (lun, s, take 40 cdb, SCSI_PACK_CDB) ∧ (40 <= length cdb)%nat.
Proof.
  intros Hlun Hs. unfold scsi_pack. case_bool_decide as Hl; [|discriminate]. set (l := [Z.land SCSI_PACK_CDB 0xff] ++ _). intros H.
  assert (temp = bigendian16 lun ++ bigendian16 s ++ l) as -> by (by apply (inj Some), (inj Some) in H). split; [|done].
  unfold scsi_unpack. rewrite bigendian16_get by done. change (get_bigendian16 (bigendian16 lun ++ bigendian16 s ++ l) 2)
    with (get_bigendian16 (bigendian16 s ++ l) 0). rewrite bigendian16_get by done. done.
Qed.

Lemma session_fits ctx lun cdb s r : pr_reserve_out ctx lun cdb s = Some r → 0 <= s → fits 16 s.
Proof.
  unfold pr_reserve_out. intros H Hs. destruct (Z.ltb_spec s MAX_GLOBAL_SESSION) as [Hlt|]; [|done].
  split; [done|]. apply (Z.lt_trans _ _ _ Hlt). done.
Qed.

#[export] Instance scsi_laws : TargetLaws (option pr_context_t) target_cmd_t packed_t.
Proof.
  split; cbn [scsi_pr_write_metadata scsi_pr_read_metadata scsi_target]; unfold write_metadata, write_command.
  - intros [ctx|] [|[temp|[] lun node sess cdb]] x'; try done.
    + by destruct (scsi_process_packed_data ctx temp).
    + by intros [= <-].
    + destruct (_ && _); cbn -[scsi_pack]; [|done]. destruct (pr_reserve_out _ _ _ _) as [[[ctx' [st|]] told]|] eqn:E; [|done..].
      destruct (is_good st) eqn:Hst; cbn -[scsi_pack]; [by destruct (scsi_pack _ _ _ _ _ _)|]. intros [= <-]. f_equal. by eapply reserve_out_refused.
  - intros [ctx|] [|[temp|[] lun node sess cdb]] x'; try done.
    + by destruct (scsi_process_packed_data ctx temp).
    + destruct (_ && _); cbn -[scsi_pack]; [|done]. destruct (pr_reserve_out _ _ _ _) as [[[ctx' [st|]] told]|]; [|done..].
      destruct (is_good st); cbn -[scsi_pack]; [|done]. unfold scsi_pack. cbn -[bigendian16 take length]. by case_bool_decide.
  - intros [ctx|] [|[temp|[] lun node sess cdb]] x' p; try (by intros [= <- <-]); try done.
    + destruct (scsi_process_packed_data ctx temp) eqn:E; intros [= <- <-]; [|done]. exact E.
    + set (s := scsi_global_session_id node sess). destruct (_ && _) eqn:Hok; cbn -[scsi_pack]; [|by intros [= <- <-]].
      apply andb_true_iff in Hok as [[H1%Z.leb_le H2%Z.ltb_lt]%andb_true_iff H3%Z.leb_le].
      destruct (pr_reserve_out _ _ _ _) as [[[ctx' [st|]] told]|] eqn:E; [|by intros [= <- <-]..].
      destruct (is_good st) eqn:Hst; cbn -[scsi_pack]; [|done]. destruct (scsi_pack _ _ _ _ _ _) as [[b|]|] eqn:Eb; intros [= <- <-]; [|done].
      destruct (unpack_pack lun s cdb b) as [Hu Hl]; [split; [done|apply (Z.lt_trans _ _ _ H2); done]|by eapply session_fits|done|].
      unfold read_metadata, scsi_process_packed_data. cbn [mbind option_bind]. rewrite Hu. cbn [mbind option_bind]. rewrite reserve_out_take by done.
      change (SCSI_PACK_CDB =? SCSI_PACK_CDB) with true. cbv iota. rewrite E. cbn. by rewrite Hst.
  - intros [ctx|]; eexists; done.
Qed.
