(* ===== verification/PrLockProto.v ===== *)
(** * The protocol of the reservation lock

    What the nodes of [PrLockSys] do to the lock, without their lists and their
    bit fields: a node is a [core], the messages of the system are one bag, and
    a step of a thread is one of the actions below.  The membership and the one
    before are an environment [env]; a node that has not been told the last
    membership still acts in the one before.

    The invariant says where the lock is: a [token] is a grant on its way, a
    command in progress, or a release on its way, and there is one at most. *)

From S2P Require Import Prelude Nodeset PrLock.
From stdpp Require Import options.

(** ** Nodes, messages, environment *)

(** [k_stage] is the number of operations of the recovery that the node has
    handled: it is told the membership by the second one. *)
Record core {X P : Type} := mk_core {
  k_stage : nat;
  k_wait : bool;
  k_read : gset Z;
  k_ok : gset Z;
  k_beg : Z;
  k_pending : nat;
  k_seq : Z;
  k_state : lockserver_state_t;
  k_acked : gset Z;
  k_owner : Z;
  k_locks : list (algopr_message_t P);
  k_ctx : X
}.
Arguments core : clear implicits.
Arguments mk_core {_ _}.

Record env := mk_env {
  e_new : gset Z;
  e_old : gset Z;
  e_inc : Z → Z → Z;
  e_oldinc : Z → Z → Z;
  e_srv : Z;
  e_oldsrv : Z
}.

Record env_ok (e : env) : Prop := {
  eo_inc a b : e_inc e a b = if bool_decide (a ∈ e_new e ∧ b ∈ e_new e) then e_oldinc e a b + 1 else 0;
  eo_old a b : 0 <= e_oldinc e a b ∧ e_oldinc e a b = e_oldinc e b a ∧ (0 < e_oldinc e a b ↔ a ∈ e_old e ∧ b ∈ e_old e);
  eo_srv : e_new e ≠ ∅ → e_srv e ∈ e_new e;
  eo_oldsrv : e_old e ≠ ∅ → e_oldsrv e ∈ e_old e
}.

Lemma inc_member e a b : env_ok e → a ∈ e_new e → b ∈ e_new e → e_inc e a b = e_oldinc e a b + 1.
Proof. intros He ??. by rewrite (eo_inc e He), bool_decide_true. Qed.

Lemma inc_sym e a b : env_ok e → e_inc e a b = e_inc e b a.
Proof.
  intros He. rewrite !(eo_inc e He), (proj1 (proj2 (eo_old e He a b))). repeat case_bool_decide; tauto.
Qed.

Lemma oldinc_sym e a b : env_ok e → e_oldinc e a b = e_oldinc e b a.
Proof. intros He. apply (eo_old e He a b). Qed.

Lemma inc_pos e a b : env_ok e → 0 < e_inc e a b → a ∈ e_new e ∧ b ∈ e_new e.
Proof. intros He. rewrite (eo_inc e He). case_bool_decide; [done|lia]. Qed.

Lemma oldinc_pos e a b : env_ok e → 0 < e_oldinc e a b → a ∈ e_old e ∧ b ∈ e_old e.
Proof. intros He. apply (eo_old e He a b). Qed.

Lemma filter_length_mono {A} (Q Q' : A → Prop) `{!∀ x, Decision (Q x)} `{!∀ x, Decision (Q' x)} (l : list A) :
  (∀ x, x ∈ l → Q x → Q' x) → (length (filter Q l) <= length (filter Q' l))%nat.
Proof.
  intros HQ. induction l as [|x l IH]; [done|]. rewrite !filter_cons.
  assert (Hle : (length (filter Q l) <= length (filter Q' l))%nat) by (apply IH; intros y Hy; apply HQ; by right).
  destruct (decide (Q x)) as [Hq|Hq].
  - rewrite decide_True by (apply HQ; [by left|done]). simpl. lia.
  - case_decide; simpl; lia.
Qed.

Lemma filter_ext_in {A} (Q Q' : A → Prop) `{!∀ x, Decision (Q x)} `{!∀ x, Decision (Q' x)} (l : list A) :
  (∀ x, x ∈ l → (Q x ↔ Q' x)) → filter Q l = filter Q' l.
Proof.
  intros HQ. induction l as [|x l IH]; [done|]. rewrite !filter_cons. rewrite IH by (intros; apply HQ; by right).
  rewrite (decide_ext (Q x) (Q' x)) by (apply HQ; by left). done.
Qed.

Definition is_grant_type (t : msg_type_t) : bool :=
  match t with ALGOPR_MESSAGE_LOCKED | ALGOPR_MESSAGE_LOCK_UPDATE_OTHER_NODE => true | _ => false end.
Definition is_xchg_type (t : msg_type_t) : bool :=
  match t with ALGOPR_MESSAGE_PR_CMD | ALGOPR_MESSAGE_PR_CMD_DONE => true | _ => false end.

Section protocol.
Context {X P : Type}.
Implicit Types (k : core X P) (cs : gmap Z (core X P)) (m : algopr_message_t P) (F R L : list (algopr_message_t P)).

Abbreviation to := to_node_id.
Abbreviation from := from_node_id.
Abbreviation tinc := to_membership_incarnation.

(** The membership, its counts and its lock server, as the node knows them. *)
Definition is_done k : bool := (2 <=? k_stage k)%nat.
Definition mem_of e k : gset Z := if is_done k then e_new e else e_old e.
Definition inc_at e (i : Z) k (j : Z) : Z := if is_done k then e_inc e i j else e_oldinc e i j.
Definition srv_at e k : Z := if is_done k then e_srv e else e_oldsrv e.

(** A node that is not suspended. *)
Definition running e (i : Z) k : Prop := k_stage k = 3%nat ∨ k_stage k = 0%nat ∧ i ∈ e_old e.

Definition is_ok m : bool := bool_decide (type m = ALGOPR_MESSAGE_LOCKSERVER_OK).
Definition is_unlock m : bool := bool_decide (type m = ALGOPR_MESSAGE_UNLOCK).
Definition is_grant m : bool := is_grant_type (type m).
Definition is_tok m : bool := is_grant m || is_unlock m.
Definition is_xchg m : bool := is_xchg_type (type m).

(** The node that executes the command of an exchange, and the other one. *)
Definition x_owner m : Z := if bool_decide (type m = ALGOPR_MESSAGE_PR_CMD) then from m else to m.
Definition x_peer m : Z := if bool_decide (type m = ALGOPR_MESSAGE_PR_CMD) then to m else from m.

Definition stage_of cs (i : Z) : nat := match cs !! i with Some k => k_stage k | None => 0%nat end.

(** A message that will be handled: those of nodes that have left are not, once
    the node is suspended; those about the lock are not when they are older than
    the membership that the node knows. *)
Definition hears e cs m : Prop := from m ∈ e_new e ∨ stage_of cs (to m) = 0%nat.
Definition arrives e cs m : Prop := match cs !! to m with Some k => inc_at e (to m) k (from m) <= tinc m | None => False end.
Definition live_tok e cs m : Prop := is_tok m = true ∧ hears e cs m ∧ arrives e cs m.

#[global] Instance hears_dec e cs m : Decision (hears e cs m) := _.
#[global] Instance arrives_dec e cs m : Decision (arrives e cs m).
Proof. unfold arrives. destruct (cs !! to m); apply _. Defined.
#[global] Instance live_tok_dec e cs m : Decision (live_tok e cs m) := _.

(** ** Where the lock is *)

Inductive token := NoTok | TGrant (m : algopr_message_t P) | TWait (i : Z) | TRelease (m : algopr_message_t P).

Definition toks (t : token) : list (algopr_message_t P) := match t with TGrant m | TRelease m => [m] | _ => [] end.
Definition tok_kind (t : token) : Prop :=
  match t with TGrant m => is_grant m = true | TRelease m => is_unlock m = true | _ => True end.
Definition owner (t : token) : option Z :=
  match t with NoTok => None | TGrant m => Some (to m) | TWait i => Some i | TRelease m => Some (from m) end.

(** The node has not the lock and will not get it. *)
Definition clear (t : token) (j : Z) : Prop := match t with TGrant m => to m ≠ j | TWait i => i ≠ j | _ => True end.

(** The token was given in the last membership. *)
Definition new_tok e cs (t : token) : Prop :=
  match t with
  | NoTok => False
  | TGrant m | TRelease m => from m ∈ e_new e ∧ tinc m = e_inc e (from m) (to m)
  | TWait i => ∃ k, cs !! i = Some k ∧ is_done k = true ∧ k_beg k = e_inc e i i
  end.

(** ** The invariant *)

Record reading_ok e (i : Z) k : Prop := {
  ro_self : i ∈ k_ok k;
  ro_ok : k_ok k ⊆ k_read k;
  ro_read : k_read k ⊆ mem_of e k;
  ro_more : k_read k ≠ k_ok k;
  ro_beg : k_beg k <= inc_at e i k i;
  ro_first : i ∉ e_old e → is_done k = true ∧ k_beg k = e_inc e i i
}.

(** What a server has received and not yet received: the messages that can be on
    their way while it is in its state, and where the token can be. *)
Definition admits e (x : Z) k m : Prop :=
  match k_state k with
  | ALGOPR_LOCKSERVER_STATE_STANDBY => True
  | ALGOPR_LOCKSERVER_STATE_WAIT_ALL_OK =>
      (is_ok m = true → to m = x → from m ∈ k_acked k → tinc m ≠ inc_at e x k (from m)) ∧
      (is_unlock m = true → to m = x → tinc m ≠ inc_at e x k (from m)) ∧
      (is_grant m = true → from m = x → tinc m ≠ inc_at e x k (to m))
  | _ => is_ok m = true → to m = x → tinc m ≠ inc_at e x k (from m)
  end.

Definition holds (t : token) k : Prop :=
  match k_state k with
  | ALGOPR_LOCKSERVER_STATE_STANDBY => True
  | ALGOPR_LOCKSERVER_STATE_WAIT_ALL_OK => ∀ j, j ∈ k_acked k → clear t j
  | ALGOPR_LOCKSERVER_STATE_READY_UNLOCKED => t = NoTok
  | ALGOPR_LOCKSERVER_STATE_READY_LOCKED => ∀ o, owner t = Some o → o = k_owner k
  end.

Definition is_ready k : bool :=
  match k_state k with
  | ALGOPR_LOCKSERVER_STATE_READY_UNLOCKED | ALGOPR_LOCKSERVER_STATE_READY_LOCKED => true
  | _ => false
  end.

Record lock_inv e cs F (t : token) : Prop := {
  li_tok : filter (live_tok e cs) F ≡ₚ toks t;
  li_kind : tok_kind t;
  li_wait i k : cs !! i = Some k → k_wait k = true → t = TWait i ∧ reading_ok e i k;
  li_waits i k : t = TWait i → cs !! i = Some k → k_wait k = true;
  li_dead i : t = TWait i → i ∈ e_new e ∨ i ∈ e_old e;
  li_xchg m : m ∈ F → hears e cs m → is_xchg m = true → t = TWait (x_owner m) ∧
    ∀ k, cs !! x_owner m = Some k → x_peer m ∈ k_read k ∖ k_ok k ∧ emitter_sequency m = k_seq k;
  li_once a b : (length (filter (λ m, hears e cs m ∧ is_xchg m = true ∧ x_owner m = a ∧ x_peer m = b) F) <= 1)%nat;
  li_admits x k m : cs !! x = Some k → m ∈ F → admits e x k m;
  li_holds x k : cs !! x = Some k → holds t k;
  li_acked x k j : cs !! x = Some k → k_state k = ALGOPR_LOCKSERVER_STATE_WAIT_ALL_OK → is_done k = true → j ∈ k_acked k →
    (2 <= stage_of cs j)%nat;
  li_oks m : m ∈ F → is_ok m = true → hears e cs m → arrives e cs m → clear t (from m);
  li_ok_once a b c : (length (filter (λ m, is_ok m = true ∧ from m = a ∧ to m = b ∧ tinc m = c) F) <= 1)%nat;
  li_late i k m : cs !! i = Some k → k_wait k = true → k_beg k ≠ inc_at e i k i → m ∈ F → is_ok m = true → from m = i →
    tinc m ≠ inc_at e i k (to m);
  li_beg x i kx k : cs !! x = Some kx → cs !! i = Some k → is_ready kx = true → k_wait k = true → is_done k = is_done kx →
    k_beg k = inc_at e i k i;
  li_ready x i kx k : cs !! x = Some kx → cs !! i = Some k → k_wait k = true → k_beg k = inc_at e i k i → x = srv_at e k →
    is_done kx = is_done k → k_state kx = ALGOPR_LOCKSERVER_STATE_READY_LOCKED;
  li_new : new_tok e cs t → ∃ k, cs !! e_srv e = Some k ∧ is_done k = true ∧ k_state k = ALGOPR_LOCKSERVER_STATE_READY_LOCKED;
  li_all x k : cs !! x = Some k → is_done k = true → is_ready k = true → ∀ i ki, cs !! i = Some ki → is_done ki = true
}.

(** The server of the last membership has given the lock away: the token is
    where it went. *)
Definition exact e cs (t : token) : Prop :=
  ∀ k, cs !! e_srv e = Some k → is_done k = true → k_state k = ALGOPR_LOCKSERVER_STATE_READY_LOCKED → new_tok e cs t.

(** ** Messages that come and go *)

Lemma live_perm e cs F t m : lock_inv e cs F t → m ∈ F → live_tok e cs m → toks t = [m].
Proof.
  intros H Hm Hl. assert (Hi : m ∈ toks t) by (rewrite <- (li_tok _ _ _ _ H); by apply list_elem_of_filter).
  destruct t; cbn in *; set_solver.
Qed.

Lemma li_perm e cs F F' t : F ≡ₚ F' → lock_inv e cs F t → lock_inv e cs F' t.
Proof.
  intros HF []. split; try done; intros *; rewrite <- HF; eauto.
Qed.

Lemma li_remove e cs m R t : ¬ live_tok e cs m → lock_inv e cs (m :: R) t → lock_inv e cs R t.
Proof.
  intros Hl []. split; eauto using list_elem_of_further.
  - by rewrite filter_cons_False in li_tok0.
  - intros a b. etransitivity; [|apply (li_once0 a b)]. rewrite filter_cons. case_decide; simpl; lia.
  - intros a b c. etransitivity; [|apply (li_ok_once0 a b c)]. rewrite filter_cons. case_decide; simpl; lia.
Qed.

Lemma clear_no j : clear NoTok j.
Proof. done. Qed.

(** Without the token. *)
Lemma holds_no k t : holds t k → holds NoTok k.
Proof. unfold holds. destruct (k_state k); naive_solver. Qed.

Lemma li_none e cs F t :
  (∀ i k, cs !! i = Some k → k_wait k = true → False) → (∀ m, m ∈ F → hears e cs m → is_xchg m = true → False) →
  filter (live_tok e cs) F = [] → lock_inv e cs F t → lock_inv e cs F NoTok.
Proof.
  intros Hw Hx HF []. split; eauto using clear_no; try done; try congruence.
  - by rewrite HF.
  - intros i k Hi Hwk. by destruct (Hw i k).
  - intros m Hm Hh Hxm. by destruct (Hx m).
  - intros x k Hk. by apply (holds_no _ t), (li_holds0 x).
Qed.

Lemma live_kind e cs F t m : lock_inv e cs F t → m ∈ F → live_tok e cs m →
  t = TGrant m ∧ is_grant m = true ∨ t = TRelease m ∧ is_unlock m = true.
Proof.
  intros H Hm Hl. pose proof (live_perm e cs F t m H Hm Hl) as E. pose proof (li_kind _ _ _ _ H) as Hk.
  destruct t; cbn in *; simplify_eq; auto.
Qed.

(** The token is taken out of the bag. *)
Lemma li_take e cs m R t : live_tok e cs m → lock_inv e cs (m :: R) t → lock_inv e cs R NoTok.
Proof.
  intros Hl H. pose proof (live_kind e cs _ t m H (list_elem_of_here _ _) Hl) as Hk.
  pose proof (li_tok _ _ _ _ H) as HF. rewrite filter_cons_True in HF by done.
  assert (HR : filter (live_tok e cs) R = []).
  { destruct Hk as [[-> _]|[-> _]]; cbn in HF; apply Permutation_cons_inv in HF; by apply Permutation_nil. }
  assert (Ht : ∀ i, t ≠ TWait i) by naive_solver. clear HF Hk.
  destruct H. split; eauto using clear_no, list_elem_of_further; try done; try congruence.
  - by rewrite HR.
  - intros i k Hi Hw. destruct (li_wait0 i k Hi Hw) as [E _]. by destruct (Ht i).
  - intros m' Hm Hh Hx. destruct (li_xchg0 m' (list_elem_of_further _ _ _ Hm) Hh Hx) as [E _]. by destruct (Ht (x_owner m')).
  - intros a b. etransitivity; [|apply (li_once0 a b)]. rewrite filter_cons. case_decide; simpl; lia.
  - intros x k Hx. by apply (holds_no _ t), (li_holds0 x).
  - intros a b c. etransitivity; [|apply (li_ok_once0 a b c)]. rewrite filter_cons. case_decide; simpl; lia.
Qed.

(** A demand of the lock says nothing about the token. *)
Definition is_plain m : Prop := is_tok m = false ∧ is_xchg m = false ∧ is_ok m = false.

Lemma plain_admits e x k m : is_plain m → admits e x k m.
Proof.
  intros (Ht & _ & Ho). unfold is_tok in Ht. apply orb_false_iff in Ht as [Hg Hu]. unfold admits.
  destruct (k_state k); rewrite ?Hg, ?Hu, ?Ho; split_and?; done.
Qed.

Lemma not_ok_admits e x k m : is_xchg m = true → admits e x k m.
Proof.
  unfold is_xchg, admits, is_ok, is_unlock, is_grant. intros H.
  destruct (type m); try done; destruct (k_state k); split_and?; done.
Qed.

Lemma li_plain e cs m R t : is_plain m → lock_inv e cs R t → lock_inv e cs (m :: R) t.
Proof.
  intros Hp H. pose proof Hp as (Ht & Hx & Ho). destruct H. split; try done.
  - rewrite filter_cons_False; [done|]. unfold live_tok. naive_solver congruence.
  - intros m' [-> |Hm]%elem_of_cons; [congruence|by apply li_xchg0].
  - intros a b. rewrite filter_cons_False; [done|]. naive_solver congruence.
  - intros x k m' Hk [-> |Hm]%elem_of_cons; [by apply plain_admits|by eapply li_admits0].
  - intros m' [-> |Hm]%elem_of_cons; [congruence|by apply li_oks0].
  - intros a b c. rewrite filter_cons_False; [done|]. naive_solver congruence.
  - intros i k m' Hk Hw Hb [-> |Hm]%elem_of_cons; [congruence|by eapply li_late0].
Qed.

(** A node tells the server that it is ready. *)
Lemma li_put_ok e cs m R t :
  is_ok m = true → clear t (from m) →
  (∀ k, cs !! to m = Some k → tinc m = inc_at e (to m) k (from m) → is_ready k = false ∧
     (k_state k = ALGOPR_LOCKSERVER_STATE_WAIT_ALL_OK → from m ∉ k_acked k)) →
  (∀ m', m' ∈ R → is_ok m' = true → from m' = from m → to m' = to m → tinc m' ≠ tinc m) →
  (∀ k, cs !! from m = Some k → k_wait k = false) →
  lock_inv e cs R t → lock_inv e cs (m :: R) t.
Proof.
  intros Ho Hc Hs Hu Hw H. unfold is_ok in Ho. apply bool_decide_eq_true in Ho.
  assert (Ht : is_tok m = false) by (unfold is_tok, is_grant, is_unlock; by rewrite Ho).
  assert (Hx : is_xchg m = false) by (unfold is_xchg; by rewrite Ho).
  assert (Ho' : is_ok m = true) by (unfold is_ok; by rewrite Ho).
  destruct H. split; try done.
  - rewrite filter_cons_False; [done|]. unfold live_tok. naive_solver congruence.
  - intros m' [-> |Hm]%elem_of_cons; [congruence|by apply li_xchg0].
  - intros a b. rewrite filter_cons_False; [done|]. naive_solver congruence.
  - intros x k m' Hk [-> |Hm]%elem_of_cons; [|by eapply li_admits0]. unfold is_tok in Ht. apply orb_false_iff in Ht as [Hg Hul].
    unfold admits. unfold is_ready in Hs. destruct (k_state k) eqn:Est; [done|..]; rewrite ?Hg, ?Hul.
    + split_and!; [|done..]. intros _ <- Ha Hi. destruct (Hs k Hk Hi) as [_ Hn]. by apply (Hn Est).
    + intros _ <- Hi. destruct (Hs k Hk Hi) as [Hn _]. by rewrite Est in Hn.
    + intros _ <- Hi. destruct (Hs k Hk Hi) as [Hn _]. by rewrite Est in Hn.
  - intros m' [-> |Hm]%elem_of_cons; [done|by apply li_oks0].
  - intros a b c. rewrite filter_cons. case_decide as Hd; [|done]. destruct Hd as (_ & <- & <- & <-).
    rewrite filter_none; [done|]. apply Forall_forall. intros m' Hm (Ho2 & Hf2 & Ht2 & Hi2). by apply (Hu m').
  - intros i k m' Hk Hwk Hb [-> |Hm]%elem_of_cons; [|by eapply li_late0]. intros _ <-. by rewrite (Hw k Hk) in Hwk.
Qed.

(** What is asked of a token message that a node sends, when nobody has the
    token: [tok m] is the token if the message will be handled. *)
Definition tok_of m : token := if is_grant m then TGrant m else TRelease m.

Record sendable e cs R m : Prop := {
  sb_admits x k : cs !! x = Some k → admits e x k m;
  sb_holds x k : live_tok e cs m → cs !! x = Some k → holds (tok_of m) k;
  sb_oks m' : live_tok e cs m → m' ∈ R → is_ok m' = true → hears e cs m' → arrives e cs m' → clear (tok_of m) (from m');
  sb_new : live_tok e cs m → new_tok e cs (tok_of m) →
    ∃ k, cs !! e_srv e = Some k ∧ is_done k = true ∧ k_state k = ALGOPR_LOCKSERVER_STATE_READY_LOCKED
}.

Lemma tok_not_xchg m : is_tok m = true → is_xchg m = false ∧ is_ok m = false.
Proof. unfold is_tok, is_grant, is_unlock, is_xchg, is_ok. by destruct (type m). Qed.

Lemma tok_of_kind m : is_tok m = true → tok_kind (tok_of m) ∧ toks (tok_of m) = [m] ∧ ∀ i, tok_of m ≠ TWait i.
Proof. unfold is_tok, tok_of. destruct (is_grant m) eqn:E; cbn; [by rewrite E|by intros ->]. Qed.

Lemma li_put_tok e cs m R :
  is_tok m = true → sendable e cs R m → lock_inv e cs R NoTok →
  lock_inv e cs (m :: R) (if bool_decide (live_tok e cs m) then tok_of m else NoTok).
Proof.
  intros Ht [] H. destruct (tok_not_xchg m Ht) as [Hx Ho]. destruct (tok_of_kind m Ht) as (Hk & Htk & Hnw).
  destruct H. set (t := if bool_decide _ then _ else _).
  assert (Htw : ∀ i, t ≠ TWait i) by (intros i; unfold t; case_bool_decide; [apply Hnw|done]). split.
  - unfold t. case_bool_decide as Hl; [rewrite filter_cons_True, li_tok0, Htk by done|rewrite filter_cons_False by done]; done.
  - unfold t. by case_bool_decide.
  - intros i k Hi Hw. by destruct (li_wait0 i k Hi Hw).
  - intros i k E. by destruct (Htw i).
  - intros i E. by destruct (Htw i).
  - intros m' [-> |Hm]%elem_of_cons Hh Hx'; [congruence|]. by destruct (li_xchg0 m' Hm Hh Hx').
  - intros a b. rewrite filter_cons_False; [done|]. intros (_ & Hx' & _). congruence.
  - intros x k m' Hk' [-> |Hm]%elem_of_cons; [by apply sb_admits0|by eapply li_admits0].
  - intros x k Hk'. unfold t. case_bool_decide; [by eapply sb_holds0|by eapply li_holds0].
  - done.
  - intros m' [-> |Hm]%elem_of_cons Ho' Hh Ha; [congruence|]. unfold t. case_bool_decide; [by apply sb_oks0|done].
  - intros a b c. rewrite filter_cons_False; [done|]. intros (Ho' & _). congruence.
  - intros i k m' Hk' Hwk Hb [-> |Hm]%elem_of_cons; [congruence|by eapply li_late0].
  - done.
  - done.
  - unfold t. case_bool_decide; [by apply sb_new0|done].
  - done.
Qed.

(** A command, or its answer. *)
Lemma li_put_xchg e cs m R t :
  is_xchg m = true →
  (hears e cs m → t = TWait (x_owner m) ∧
     (∀ k, cs !! x_owner m = Some k → x_peer m ∈ k_read k ∖ k_ok k ∧ emitter_sequency m = k_seq k) ∧
     ∀ m', m' ∈ R → hears e cs m' → is_xchg m' = true → x_owner m' = x_owner m → x_peer m' ≠ x_peer m) →
  lock_inv e cs R t → lock_inv e cs (m :: R) t.
Proof.
  intros Hx Hh H.
  assert (Ht : is_tok m = false) by (destruct (is_tok m) eqn:E; [|done]; apply tok_not_xchg in E as []; congruence).
  assert (Ho : is_ok m = false) by (revert Hx; unfold is_xchg, is_ok; by destruct (type m)).
  destruct H. split; try done.
  - rewrite filter_cons_False; [done|]. intros [E _]. congruence.
  - intros m' [-> |Hm]%elem_of_cons Hh' Hx'; [|by apply li_xchg0]. destruct (Hh Hh') as (-> & Hk & _). done.
  - intros a b. rewrite filter_cons. case_decide as Hd; [|done]. destruct Hd as (Hh' & _ & <- & <-).
    destruct (Hh Hh') as (_ & _ & Hu). rewrite filter_none; [done|]. apply Forall_forall. intros m' Hm (? & ? & ? & ?). by apply (Hu m').
  - intros x k m' Hk [-> |Hm]%elem_of_cons; [by apply not_ok_admits|by eapply li_admits0].
  - intros m' [-> |Hm]%elem_of_cons; [congruence|by apply li_oks0].
  - intros a b c. rewrite filter_cons_False; [done|]. intros (E & _). congruence.
  - intros i k m' Hk Hw Hb [-> |Hm]%elem_of_cons; [congruence|by eapply li_late0].
Qed.

(** ** A node that changes *)

(** The entry of the changed map is the new one, or one of the others. *)
Local Ltac pick H := apply lookup_insert_Some in H as [[<- <-]|[? H]].

Definition set_client k (w : bool) (r o : gset Z) (b : Z) (p : nat) (q : Z) (x : X) : core X P :=
  mk_core (k_stage k) w r o b p q (k_state k) (k_acked k) (k_owner k) (k_locks k) x.
Definition set_server k (st : lockserver_state_t) (a : gset Z) (o : Z) (l : list (algopr_message_t P)) : core X P :=
  mk_core (k_stage k) (k_wait k) (k_read k) (k_ok k) (k_beg k) (k_pending k) (k_seq k) st a o l (k_ctx k).

Section change.
Context (e : env) (cs : gmap Z (core X P)) (i : Z) (k k' : core X P).
Hypothesis Hi : cs !! i = Some k.
Hypothesis Hstage : k_stage k' = k_stage k.

Lemma change_done : is_done k' = is_done k.
Proof using Hstage. unfold is_done. by rewrite Hstage. Qed.

Lemma change_stage j : stage_of (<[i := k']> cs) j = stage_of cs j.
Proof using k Hstage Hi.
  unfold stage_of. destruct (decide (i = j)) as [<- |Hn]; [by rewrite lookup_insert_eq, Hi, Hstage|by rewrite lookup_insert_ne].
Qed.

Lemma change_hears m : hears e (<[i := k']> cs) m ↔ hears e cs m.
Proof using k Hstage Hi. unfold hears. by rewrite change_stage. Qed.

Lemma change_arrives m : arrives e (<[i := k']> cs) m ↔ arrives e cs m.
Proof using k Hstage Hi.
  unfold arrives. destruct (decide (i = to m)) as [<- |Hn]; [|by rewrite lookup_insert_ne].
  rewrite lookup_insert_eq, Hi. unfold inc_at. by rewrite change_done.
Qed.

Lemma change_live m : live_tok e (<[i := k']> cs) m ↔ live_tok e cs m.
Proof using k Hstage Hi. unfold live_tok. by rewrite change_hears, change_arrives. Qed.

Lemma change_filter F : filter (live_tok e (<[i := k']> cs)) F = filter (live_tok e cs) F.
Proof using k Hstage Hi. apply list_filter_iff. intros m. apply change_live. Qed.

Lemma change_inc j : inc_at e i k' j = inc_at e i k j.
Proof using Hstage. unfold inc_at. by rewrite change_done. Qed.

Lemma change_srv : srv_at e k' = srv_at e k.
Proof using Hstage. unfold srv_at. by rewrite change_done. Qed.

Lemma change_mem : mem_of e k' = mem_of e k.
Proof using Hstage. unfold mem_of. by rewrite change_done. Qed.

(** A property of the nodes after the change. *)
Lemma change_all (Q : Z → core X P → Prop) :
  (∀ j kj, j ≠ i → cs !! j = Some kj → Q j kj) → Q i k' → ∀ j kj, <[i := k']> cs !! j = Some kj → Q j kj.
Proof. intros Ho Hn j kj. destruct (decide (i = j)) as [<- |]; rewrite ?lookup_insert_eq, ?lookup_insert_ne by done; [by intros [= <-]|auto]. Qed.

Lemma change_once F a b :
  filter (λ m, hears e (<[i := k']> cs) m ∧ is_xchg m = true ∧ x_owner m = a ∧ x_peer m = b) F =
  filter (λ m, hears e cs m ∧ is_xchg m = true ∧ x_owner m = a ∧ x_peer m = b) F.
Proof using k Hstage Hi. apply list_filter_iff. intros m. by rewrite change_hears. Qed.

(** The server does not change, and the client waits or not as before. *)
Lemma li_client F t :
  k_state k' = k_state k → k_acked k' = k_acked k → k_owner k' = k_owner k → k_wait k' = k_wait k →
  (k_wait k = true → reading_ok e i k' ∧ k_beg k' = k_beg k ∧ k_seq k' = k_seq k ∧
     ∀ m, m ∈ F → hears e cs m → is_xchg m = true → x_owner m = i → x_peer m ∈ k_read k' ∖ k_ok k') →
  lock_inv e cs F t → lock_inv e (<[i := k']> cs) F t.
Proof using Hstage Hi.
  intros Hst Hac How Hw Hr H.
  assert (Hrd : is_ready k' = is_ready k) by (unfold is_ready; by rewrite Hst).
  pose proof change_done as Hd. destruct H. split.
  - by rewrite change_filter.
  - done.
  - intros j kj Hj. pick Hj; [|eauto]. rewrite Hw. intros Hwk. destruct (li_wait0 i k Hi Hwk). by destruct (Hr Hwk).
  - intros j kj -> Hj. pick Hj; [rewrite Hw|]; eauto.
  - done.
  - intros m Hm. rewrite change_hears. intros Hh Hx. destruct (li_xchg0 m Hm Hh Hx) as [Ht Hk]. split; [done|]. intros kj Hj.
    apply lookup_insert_Some in Hj as [[E <-]|[_ Hj]]; [|eauto]. rewrite <- E in Hk, Ht. destruct (Hk k Hi) as [_ Hq].
    destruct (Hr (li_waits0 i k Ht Hi)) as (_ & _ & -> & Hp). split; [|done]. by apply Hp.
  - intros a b. by rewrite change_once.
  - intros x kx m Hx Hm. pick Hx; [|eauto]. unfold admits. rewrite Hst, !change_inc, Hac. exact (li_admits0 i k m Hi Hm).
  - intros x kx Hx. pick Hx; [|eauto]. unfold holds. rewrite Hst, Hac, How. exact (li_holds0 i k Hi).
  - intros x kx j Hx. rewrite change_stage. pick Hx; [|eauto]. rewrite Hst, Hd, Hac. exact (li_acked0 i k j Hi).
  - intros m Hm Ho. rewrite change_hears, change_arrives. by apply li_oks0.
  - done.
  - intros j kj m Hj. pick Hj; [|eauto]. rewrite Hw, !change_inc. intros Hwk. destruct (Hr Hwk) as (_ & -> & _). exact (li_late0 i k m Hi Hwk).
  - intros x j kx kj Hx Hj. pick Hx; pick Hj; rewrite ?Hrd, ?Hw, ?Hd, ?change_inc; intros Hrx Hwk Hdd; try (destruct (Hr Hwk) as (_ & -> & _)); eauto.
  - intros x j kx kj Hx Hj. pick Hx; pick Hj; rewrite ?Hst, ?Hw, ?Hd, ?change_inc, ?change_srv; intros Hwk;
      try (destruct (Hr Hwk) as (_ & -> & _)); eauto.
  - intros Hn. destruct li_new0 as (kx & Hx & Hdx & Hsx).
    + destruct t; try done. destruct Hn as (kj & Hj & Hdj & Hb). apply lookup_insert_Some in Hj as [[<- <-]|[_ Hj]]; [|by exists kj].
      destruct (Hr (li_waits0 i k eq_refl Hi)) as (_ & Eb & _). exists k. by rewrite <- Eb, <- Hd.
    + destruct (decide (i = e_srv e)) as [E|Hn']; [exists k'|exists kx; by rewrite lookup_insert_ne].
      rewrite <- E in Hx |- *. rewrite lookup_insert_eq, Hd, Hst. by simplify_eq.
  - intros x kx Hx Hdx Hrx j kj Hj. pick Hx; pick Hj; rewrite ?Hd, ?Hrd in *; eauto.
Qed.

(** The client has executed a command, and waits for the others. *)
Lemma li_begin F :
  k_state k' = k_state k → k_acked k' = k_acked k → k_owner k' = k_owner k → k_wait k' = true →
  reading_ok e i k' → k_beg k' = inc_at e i k i → i ∈ e_new e →
  (∀ x kx, cs !! x = Some kx → holds (TWait i) kx) →
  (∀ m, m ∈ F → is_ok m = true → hears e cs m → arrives e cs m → from m ≠ i) →
  (∀ kx, cs !! srv_at e k = Some kx → is_done kx = is_done k → k_state kx = ALGOPR_LOCKSERVER_STATE_READY_LOCKED) →
  (is_done k = true → ∃ kx, cs !! e_srv e = Some kx ∧ is_done kx = true ∧ k_state kx = ALGOPR_LOCKSERVER_STATE_READY_LOCKED) →
  lock_inv e cs F NoTok → lock_inv e (<[i := k']> cs) F (TWait i).
Proof using Hstage Hi.
  intros Hst Hac How Hw Hr Hb Hin Hh Ho Hrdy Hnew H.
  assert (Hrd : is_ready k' = is_ready k) by (unfold is_ready; by rewrite Hst).
  pose proof change_done as Hd. destruct H.
  assert (Hno : ∀ j kj, cs !! j = Some kj → k_wait kj = true → False).
  { intros j kj Hj Hwj. by destruct (li_wait0 j kj Hj Hwj). }
  split.
  - by rewrite change_filter.
  - done.
  - intros j kj Hj. pick Hj; [done|]. intros Hwj. by destruct (Hno j kj).
  - intros j kj [= <-] Hj. rewrite lookup_insert_eq in Hj. by simplify_eq.
  - intros j [= <-]. by left.
  - intros m Hm. rewrite change_hears. intros Hhm Hx. by destruct (li_xchg0 m Hm Hhm Hx).
  - intros a b. by rewrite change_once.
  - intros x kx m Hx Hm. pick Hx; [|eauto]. unfold admits. rewrite Hst, !change_inc, Hac. exact (li_admits0 i k m Hi Hm).
  - intros x kx Hx. pick Hx; [|eauto]. unfold holds. rewrite Hst, Hac, How. exact (Hh i k Hi).
  - intros x kx j Hx. rewrite change_stage. pick Hx; [|eauto]. rewrite Hst, Hd, Hac. exact (li_acked0 i k j Hi).
  - intros m Hm Hok. rewrite change_hears, change_arrives. cbn. intros ?? E. by apply (Ho m).
  - done.
  - intros j kj m Hj. pick Hj; [by rewrite !change_inc|]. intros Hwj. by destruct (Hno j kj).
  - intros x j kx kj Hx Hj Hrx Hwj. pick Hj; [by rewrite change_inc|]. by destruct (Hno j kj).
  - intros x j kx kj Hx Hj Hwj _ -> Hdd. pick Hj; [|by destruct (Hno j kj)]. rewrite change_srv, Hd in *.
    apply lookup_insert_Some in Hx as [[Ex <-]|[_ Hx]]; [|eauto]. rewrite Hst. apply Hrdy; [by rewrite <- Ex|done].
  - intros (kj & Hj & Hdj & _). rewrite lookup_insert_eq in Hj. simplify_eq. rewrite Hd in Hdj.
    destruct (Hnew Hdj) as (kx & Hx & Hdx & Hsx). destruct (decide (i = e_srv e)) as [E|Hn'].
    + exists kj. rewrite <- E in Hx |- *. rewrite lookup_insert_eq, Hd, Hst. by simplify_eq.
    + exists kx. by rewrite lookup_insert_ne.
  - intros x kx Hx Hdx Hrx j kj Hj. pick Hx; pick Hj; rewrite ?Hd, ?Hrd in *; eauto.
Qed.

(** All the nodes have answered. *)
Lemma li_end F :
  k_state k' = k_state k → k_acked k' = k_acked k → k_owner k' = k_owner k → k_wait k' = false →
  (∀ m, m ∈ F → hears e cs m → is_xchg m = true → False) →
  lock_inv e cs F (TWait i) → lock_inv e (<[i := k']> cs) F NoTok.
Proof using Hstage Hi.
  intros Hst Hac How Hw Hx H.
  assert (Hrd : is_ready k' = is_ready k) by (unfold is_ready; by rewrite Hst).
  pose proof change_done as Hd. destruct H.
  assert (Hno : ∀ j kj, i ≠ j → cs !! j = Some kj → k_wait kj = true → False).
  { intros j kj Hij Hj Hwj. destruct (li_wait0 j kj Hj Hwj) as [E _]. naive_solver. }
  assert (Hno' : ∀ j kj, <[i := k']> cs !! j = Some kj → k_wait kj = true → False).
  { intros j kj Hj Hwj. pick Hj; [congruence|]. by eapply Hno. }
  split.
  - by rewrite change_filter.
  - done.
  - intros j kj Hj Hwj. by destruct (Hno' j kj).
  - done.
  - done.
  - intros m Hm. rewrite change_hears. intros Hhm Hxm. by destruct (Hx m).
  - intros a b. by rewrite change_once.
  - intros x kx m Hk Hm. pick Hk; [|eauto]. unfold admits. rewrite Hst, !change_inc, Hac. exact (li_admits0 i k m Hi Hm).
  - intros x kx Hk. apply (holds_no _ (TWait i)). pick Hk; [|eauto]. unfold holds. rewrite Hst, Hac, How. exact (li_holds0 i k Hi).
  - intros x kx j Hk. rewrite change_stage. pick Hk; [|eauto]. rewrite Hst, Hd, Hac. exact (li_acked0 i k j Hi).
  - done.
  - done.
  - intros j kj m Hj Hwj. by destruct (Hno' j kj).
  - intros x j kx kj Hk Hj Hrx Hwj. by destruct (Hno' j kj).
  - intros x j kx kj Hk Hj Hwj. by destruct (Hno' j kj).
  - done.
  - intros x kx Hk Hdx Hrx j kj Hj. pick Hk; pick Hj; rewrite ?Hd, ?Hrd in *; eauto.
Qed.

(** The server changes, the client does not. *)
Lemma li_serve F t :
  k_wait k' = k_wait k → k_read k' = k_read k → k_ok k' = k_ok k → k_beg k' = k_beg k → k_seq k' = k_seq k →
  (∀ m, m ∈ F → admits e i k' m) → holds t k' →
  (k_state k' = ALGOPR_LOCKSERVER_STATE_WAIT_ALL_OK → is_done k = true → ∀ j, j ∈ k_acked k' → (2 <= stage_of cs j)%nat) →
  (is_ready k' = true → ∀ j kj, cs !! j = Some kj → k_wait kj = true → is_done kj = is_done k → k_beg kj = inc_at e j kj j) →
  (∀ j kj, cs !! j = Some kj → k_wait kj = true → k_beg kj = inc_at e j kj j → i = srv_at e kj → is_done k = is_done kj →
     k_state k' = ALGOPR_LOCKSERVER_STATE_READY_LOCKED) →
  (new_tok e cs t → i = e_srv e → k_state k' = ALGOPR_LOCKSERVER_STATE_READY_LOCKED) →
  (is_done k = true → is_ready k' = true → ∀ j kj, cs !! j = Some kj → is_done kj = true) →
  lock_inv e cs F t → lock_inv e (<[i := k']> cs) F t.
Proof using Hstage Hi.
  intros Hw Hrd Hok Hbg Hsq Hadm Hh Hack Hbeg Hrdy Hnew Hall H.
  pose proof change_done as Hd. destruct H. split.
  - by rewrite change_filter.
  - done.
  - intros j kj Hj. pick Hj; [|eauto]. rewrite Hw. intros Hwk. destruct (li_wait0 i k Hi Hwk) as [Ht []]. split; [done|].
    split; rewrite ?Hok, ?Hrd, ?Hbg, ?change_mem, ?change_inc, ?Hd; done.
  - intros j kj -> Hj. pick Hj; [rewrite Hw|]; eauto.
  - done.
  - intros m Hm. rewrite change_hears. intros Hhm Hx. destruct (li_xchg0 m Hm Hhm Hx) as [Ht Hk]. split; [done|]. intros kj Hj.
    apply lookup_insert_Some in Hj as [[E <-]|[_ Hj]]; [|eauto]. rewrite Hrd, Hok, Hsq. rewrite <- E in Hk. eauto.
  - intros a b. by rewrite change_once.
  - intros x kx m Hx Hm. pick Hx; eauto.
  - intros x kx Hx. pick Hx; eauto.
  - intros x kx j Hx. rewrite change_stage. pick Hx; [|eauto]. rewrite Hd. eauto.
  - intros m Hm Ho. rewrite change_hears, change_arrives. by apply li_oks0.
  - done.
  - intros j kj m Hj. pick Hj; [|eauto]. rewrite Hw, !change_inc, Hbg. exact (li_late0 i k m Hi).
  - intros x j kx kj Hx Hj. pick Hx; pick Hj; rewrite ?Hw, ?Hd, ?change_inc, ?Hbg; eauto.
  - intros x j kx kj Hx Hj. pick Hx; pick Hj; rewrite ?Hw, ?Hd, ?change_inc, ?change_srv, ?Hbg; eauto.
  - intros Hn. assert (Hn0 : new_tok e cs t).
    { destruct t; try done. destruct Hn as (kj & Hj & Hdj & Hb). apply lookup_insert_Some in Hj as [[<- <-]|[_ Hj]]; [|by exists kj].
      exists k. by rewrite <- Hbg, <- Hd. }
    destruct (li_new0 Hn0) as (kx & Hx & Hdx & Hsx).
    destruct (decide (i = e_srv e)) as [E|Hn']; [exists k'|exists kx; by rewrite lookup_insert_ne].
    rewrite <- E in Hx |- *. rewrite lookup_insert_eq, Hd. simplify_eq. auto.
  - intros x kx Hx Hdx Hrx j kj Hj. pick Hx; pick Hj; rewrite ?Hd in *; eauto.
Qed.
End change.
End protocol.
