(* ===== verification/PrLockAct.v ===== *)
(** * The actions of the protocol of the reservation lock

    What a thread does with one operation of its list, on a [core] and on the
    bag of messages, and that it keeps the shape of the messages and the
    invariant of [PrLockProto]. *)

From S2P Require Import Prelude Nodeset PrLock PrLockProto.
From stdpp Require Import options.

Section act.
Context {X P : Type}.
Implicit Types (k kx kj : core X P) (cs : gmap Z (core X P)) (m : algopr_message_t P) (F R L : list (algopr_message_t P)).

Abbreviation to := to_node_id.
Abbreviation from := from_node_id.
Abbreviation tinc := to_membership_incarnation.

(** ** Shape of the nodes and of the messages *)

(** The messages of each type have these flags. *)
Definition flags_of (t : msg_type_t) : bool * bool :=
  match t with
  | ALGOPR_MESSAGE_LOCKSERVER_OK | ALGOPR_MESSAGE_LOCK | ALGOPR_MESSAGE_UNLOCK => (false, true)
  | ALGOPR_MESSAGE_LOCKED | ALGOPR_MESSAGE_LOCK_UPDATE_OTHER_NODE => (true, false)
  | ALGOPR_MESSAGE_PR_CMD | ALGOPR_MESSAGE_PR_CMD_DONE => (false, false)
  end.
Definition flags_ok m : Prop := (from_lockserver m, to_lockserver m) = flags_of (type m).
Definition lock_msg m : bool := from_lockserver m || to_lockserver m.

(** The messages for the lock server are for the one of the membership in which
    they were sent, and so are those that come from it. *)
Record msg_ok e cs m : Prop := {
  mo_to : to m ∈ e_new e;
  mo_from : valid_node (from m);
  mo_flags : flags_ok m;
  mo_pos : 1 <= tinc m;
  mo_member : from m ∈ e_new e → tinc m <= e_inc e (from m) (to m) ∧
    (tinc m = e_inc e (from m) (to m) → (2 <= stage_of cs (from m))%nat);
  mo_gone : from m ∉ e_new e → (stage_of cs (to m) < 3)%nat ∧ tinc m <= e_oldinc e (from m) (to m);
  mo_server : to_lockserver m = true → from m ∈ e_new e → tinc m = e_inc e (from m) (to m) → to m = e_srv e;
  mo_old_server : to_lockserver m = true → tinc m = e_oldinc e (from m) (to m) → to m = e_oldsrv e;
  mo_granted : from_lockserver m = true → from m ∈ e_new e → tinc m = e_inc e (from m) (to m) → from m = e_srv e;
  mo_old_granted : from_lockserver m = true → tinc m = e_oldinc e (from m) (to m) → from m = e_oldsrv e;
  mo_ok : type m = ALGOPR_MESSAGE_LOCKSERVER_OK → 0 <= from_membership_incarnation m;
  mo_cmd : type m = ALGOPR_MESSAGE_PR_CMD → is_Some (data m)
}.

Definition lock_demand_of e (i : Z) k m : Prop :=
  type m = ALGOPR_MESSAGE_LOCK ∧ flags_ok m ∧ to m = i ∧ from m ∈ mem_of e k.

Record core_ok e (i : Z) k : Prop := {
  co_stage : (k_stage k <= 3)%nat;
  co_fresh : is_done k = false → i ∉ e_old e → k_wait k = false ∧ k_state k = ALGOPR_LOCKSERVER_STATE_STANDBY;
  co_server : k_state k ≠ ALGOPR_LOCKSERVER_STATE_STANDBY → srv_at e k = i;
  co_standby : is_done k = true ∨ i ∈ e_old e → srv_at e k = i → k_state k ≠ ALGOPR_LOCKSERVER_STATE_STANDBY;
  co_locks : Forall (lock_demand_of e i k) (k_locks k);
  co_acked : k_state k = ALGOPR_LOCKSERVER_STATE_WAIT_ALL_OK → k_acked k ⊆ mem_of e k
}.

Record proto_ok e cs F : Prop := {
  po_env : env_ok e;
  po_valid i : i ∈ e_new e ∨ i ∈ e_old e → valid_node i;
  po_dom i : is_Some (cs !! i) ↔ i ∈ e_new e;
  po_core i k : cs !! i = Some k → core_ok e i k;
  po_msg m : m ∈ F → msg_ok e cs m
}.

(** ** Messages that a node sends *)

(** A node that was told its membership. *)
Definition acting e (i : Z) k : Prop := is_done k = true ∨ i ∈ e_old e.

Lemma running_acting e i k : running e i k → acting e i k.
Proof. unfold running, acting, is_done. intros [-> |[_ H]]; [by left|by right]. Qed.

Definition a_msg e (i : Z) k (t : msg_type_t) (j q : Z) (d : option P) : algopr_message_t P :=
  mk_message t (flags_of t).1 i (flags_of t).2 j q (inc_at e i k j) (inc_at e i k i) d.

(** Messages for a node that is not a member are lost. *)
Definition sentto e L : list (algopr_message_t P) := filter (λ m, to m ∈ e_new e) L.

Lemma inc_nonneg e i k j : env_ok e → 0 <= inc_at e i k j.
Proof.
  intros He. unfold inc_at. destruct (eo_old e He i j) as [H _]. destruct (is_done k); [|done].
  rewrite (eo_inc e He). case_bool_decide; lia.
Qed.

(** The next membership counts one more. *)
Lemma done_inc e i j : env_ok e → i ∈ e_new e → j ∈ e_new e → e_inc e i j ≠ e_oldinc e i j ∧ 1 <= e_inc e i j.
Proof. intros He Hi Hj. rewrite inc_member by done. destruct (eo_old e He i j) as [H _]. lia. Qed.

Lemma acting_inc e i k j : env_ok e → acting e i k → i ∈ e_new e → j ∈ e_new e → j ∈ mem_of e k → 1 <= inc_at e i k j.
Proof.
  intros He Ha Hi Hj Hm. unfold inc_at, mem_of, acting in *. destruct (is_done k).
  - by apply done_inc.
  - destruct Ha as [|Ho]; [done|]. destruct (eo_old e He i j) as (_ & _ & H). assert (0 < e_oldinc e i j) by (by apply H). lia.
Qed.

Lemma sent_ok e cs F i k t j q d :
  proto_ok e cs F → cs !! i = Some k → j ∈ e_new e → 1 <= inc_at e i k j →
  ((flags_of t).2 = true → j = srv_at e k) → ((flags_of t).1 = true → i = srv_at e k) →
  (t = ALGOPR_MESSAGE_PR_CMD → is_Some d) → msg_ok e cs (a_msg e i k t j q d).
Proof.
  intros [He Hv Hd _ _] Hi Hj H1 Hs Hg Hc. assert (Hin : i ∈ e_new e) by (apply Hd; by eexists).
  destruct (done_inc e i j He Hin Hj) as [Hne Hp].
  assert (Hcur : inc_at e i k j = e_inc e i j ↔ is_done k = true).
  { unfold inc_at. destruct (is_done k); [done|]. split; [|done]. intros E. by rewrite E in Hne. }
  assert (Hold : inc_at e i k j = e_oldinc e i j ↔ is_done k = false).
  { unfold inc_at. destruct (is_done k); [|done]. done. }
  unfold srv_at in *. split; cbn.
  - done.
  - apply Hv. by left.
  - unfold flags_ok. cbn. by destruct (flags_of t).
  - done.
  - intros _. split.
    + unfold inc_at. destruct (is_done k); [done|]. rewrite inc_member by done. lia.
    + intros E%Hcur. unfold stage_of. rewrite Hi. unfold is_done in E. by apply Nat.leb_le.
  - done.
  - intros Ht _ E%Hcur. rewrite (Hs Ht). by rewrite E.
  - intros Ht E%Hold. rewrite (Hs Ht). by rewrite E.
  - intros Ht _ E%Hcur. rewrite (Hg Ht). by rewrite E.
  - intros Ht E%Hold. rewrite (Hg Ht). by rewrite E.
  - intros _. by apply inc_nonneg.
  - done.
Qed.

(** ** Messages that a node handles *)

(** The node handles [m]: it runs, and [m] was sent in the membership that it
    knows. *)
Record accepts e (i : Z) k m : Prop := {
  ac_to : to m = i;
  ac_running : running e i k;
  ac_inc : tinc m = inc_at e i k (from m)
}.

Lemma inc_at_same e i k x kx :
  env_ok e → i ∈ e_new e → x ∈ e_new e → inc_at e x kx i = inc_at e i k x ↔ is_done kx = is_done k.
Proof.
  intros He Hi Hx. destruct (done_inc e i x He Hi Hx) as [Hne _]. unfold inc_at.
  rewrite (inc_sym e x i He), (oldinc_sym e x i He). destruct (is_done kx), (is_done k); naive_solver.
Qed.

Section facts.
Context (e : env) (cs : gmap Z (core X P)) (F : list (algopr_message_t P)) (Hp : proto_ok e cs F).

Lemma dom_new i k : cs !! i = Some k → i ∈ e_new e.
Proof using Hp F. intros Hi. apply (po_dom _ _ _ Hp). by eexists. Qed.

Lemma new_dom i : i ∈ e_new e → ∃ k, cs !! i = Some k.
Proof using Hp F. intros Hi. by apply (po_dom _ _ _ Hp) in Hi. Qed.

Lemma done_stage i k : cs !! i = Some k → (is_done k = true ↔ (2 <= stage_of cs i)%nat).
Proof. intros Hi. unfold stage_of, is_done. rewrite Hi. apply Nat.leb_le. Qed.

Lemma running_from m i k : m ∈ F → cs !! i = Some k → to m = i → running e i k → is_done k = true → from m ∈ e_new e.
Proof using Hp.
  intros Hm Hi Ht [Hs|[Hs _]] Hd; [|unfold is_done in Hd; by rewrite Hs in Hd].
  destruct (decide (from m ∈ e_new e)) as [|Hn]; [done|]. destruct (mo_gone _ _ _ (po_msg _ _ _ Hp m Hm) Hn) as [Hlt _].
  unfold stage_of in Hlt. rewrite Ht, Hi in Hlt. lia.
Qed.

Lemma accepts_hears m i k : m ∈ F → cs !! i = Some k → to m = i → running e i k → hears e cs m.
Proof using Hp.
  intros Hm Hi Ht Hr. destruct (is_done k) eqn:Hd; [left; by eapply running_from|]. right. unfold stage_of. rewrite Ht, Hi.
  destruct Hr as [Hs|[Hs _]]; [|done]. unfold is_done in Hd. by rewrite Hs in Hd.
Qed.

Lemma accepts_arrives m i k : cs !! i = Some k → accepts e i k m → arrives e cs m.
Proof. intros Hi [Ht _ Hinc]. unfold arrives. rewrite Ht, Hi. lia. Qed.

Lemma accepts_live m i k : m ∈ F → cs !! i = Some k → accepts e i k m → is_tok m = true → live_tok e cs m.
Proof using Hp.
  intros Hm Hi Ha Ht. split; [done|]. split; [|by eapply accepts_arrives]. destruct Ha. by eapply accepts_hears.
Qed.

Lemma accepts_server m i k : m ∈ F → cs !! i = Some k → accepts e i k m → to_lockserver m = true → i = srv_at e k.
Proof using Hp.
  intros Hm Hi [Ht Hr Hinc] Hs. pose proof (po_env _ _ _ Hp) as He. pose proof (po_msg _ _ _ Hp m Hm) as Ho. unfold inc_at, srv_at in *.
  rewrite (inc_sym e i _ He), (oldinc_sym e i _ He), <- Ht in Hinc. destruct (is_done k) eqn:Hd; rewrite <- Ht.
  - apply (mo_server _ _ _ Ho); [done| |done]. by eapply running_from.
  - by apply (mo_old_server _ _ _ Ho).
Qed.

Lemma accepts_granted m i k : m ∈ F → cs !! i = Some k → accepts e i k m → from_lockserver m = true → from m = srv_at e k.
Proof using Hp.
  intros Hm Hi [Ht Hr Hinc] Hs. pose proof (po_env _ _ _ Hp) as He. pose proof (po_msg _ _ _ Hp m Hm) as Ho. unfold inc_at, srv_at in *.
  rewrite (inc_sym e i _ He), (oldinc_sym e i _ He), <- Ht in Hinc. destruct (is_done k) eqn:Hd.
  - apply (mo_granted _ _ _ Ho); [done| |done]. by eapply running_from.
  - by apply (mo_old_granted _ _ _ Ho).
Qed.

Lemma accepts_serves m i k :
  m ∈ F → cs !! i = Some k → accepts e i k m → to_lockserver m = true → k_state k ≠ ALGOPR_LOCKSERVER_STATE_STANDBY.
Proof using Hp.
  intros Hm Hi Ha Hs. apply (co_standby _ _ _ (po_core _ _ _ Hp i k Hi)).
  - apply running_acting, Ha.
  - symmetry. by eapply accepts_server.
Qed.

(** ** The server gives the lock *)

Lemma server_unique x y kx ky :
  cs !! x = Some kx → cs !! y = Some ky → k_state kx ≠ ALGOPR_LOCKSERVER_STATE_STANDBY →
  k_state ky ≠ ALGOPR_LOCKSERVER_STATE_STANDBY → is_done kx = is_done ky → x = y.
Proof using e Hp F.
  intros Hx Hy Hsx Hsy Hd. rewrite <- (co_server _ _ _ (po_core _ _ _ Hp x kx Hx) Hsx).
  rewrite <- (co_server _ _ _ (po_core _ _ _ Hp y ky Hy) Hsy). unfold srv_at. by rewrite Hd.
Qed.

Lemma ready_not_standby k : is_ready k = true → k_state k ≠ ALGOPR_LOCKSERVER_STATE_STANDBY.
Proof. unfold is_ready. by destruct (k_state k). Qed.

(** One server only is ready. *)
Lemma ready_unique t x y kx ky :
  lock_inv e cs F t → cs !! x = Some kx → cs !! y = Some ky → is_ready kx = true → is_ready ky = true → x = y.
Proof using Hp.
  intros Hl Hx Hy Hrx Hry. apply (server_unique x y kx ky); auto using ready_not_standby.
  destruct (is_done kx) eqn:Ex; [by rewrite (li_all _ _ _ _ Hl x kx Hx Ex Hrx y ky Hy)|].
  destruct (is_done ky) eqn:Ey; [|done]. by rewrite (li_all _ _ _ _ Hl y ky Hy Ey Hry x kx Hx) in Ex.
Qed.

(** The server of the last membership is ready: it is the ready one. *)
Lemma ready_srv t x kx : lock_inv e cs F t → cs !! x = Some kx → is_done kx = true → is_ready kx = true → x = e_srv e.
Proof using Hp.
  intros Hl Hx Hd Hr. rewrite <- (co_server _ _ _ (po_core _ _ _ Hp x kx Hx) (ready_not_standby _ Hr)). unfold srv_at. by rewrite Hd.
Qed.

Lemma live_grant_done t m i k :
  lock_inv e cs F t → cs !! i = Some k → from m = i → to m ∈ e_new e → tinc m = inc_at e i k (to m) → arrives e cs m →
  (2 <= stage_of cs (to m))%nat → is_done k = true.
Proof using Hp.
  intros _ Hi Hf Ht Hinc Ha Hs. destruct (is_done k) eqn:Hd; [done|exfalso]. destruct (new_dom _ Ht) as [kj Hj].
  unfold arrives in Ha. rewrite Hj in Ha. apply (done_stage _ _ Hj) in Hs. pose proof (po_env _ _ _ Hp) as He.
  unfold inc_at in Ha, Hinc. rewrite Hs, Hf in Ha. rewrite Hd in Hinc. pose proof (dom_new _ _ Hi) as Hin.
  rewrite (inc_sym e (to m) i He), (inc_member e i (to m) He Hin Ht) in Ha. lia.
Qed.

Lemma ok_flags m : msg_ok e cs m → is_ok m = true → to_lockserver m = true.
Proof. intros Ho Hk. apply bool_decide_eq_true in Hk. pose proof (mo_flags _ _ _ Ho) as Hf. unfold flags_ok in Hf. rewrite Hk in Hf. by injection Hf. Qed.

(** A node that is ready again has not told it before the lock is given to it. *)
Lemma ready_no_ok m m' i k :
  lock_inv e cs F NoTok → cs !! i = Some k → k_state k = ALGOPR_LOCKSERVER_STATE_READY_LOCKED →
  from m = i → to m ∈ e_new e → tinc m = inc_at e i k (to m) → arrives e cs m →
  m' ∈ F → is_ok m' = true → arrives e cs m' → from m' = to m → False.
Proof using Hp.
  intros Hl Hi Hst Hf Ht Hinc Ha Hm' Hok' Ha' Ef. pose proof (po_env _ _ _ Hp) as He. pose proof (po_msg _ _ _ Hp m' Hm') as Ho.
  assert (Hrdy : is_ready k = true) by (unfold is_ready; by rewrite Hst).
  pose proof (ok_flags m' Ho Hok') as Hfl. pose proof (mo_to _ _ _ Ho) as Hto. destruct (new_dom _ Hto) as [ky Hy].
  assert (Hfn : from m' ∈ e_new e) by (by rewrite Ef). destruct (mo_member _ _ _ Ho Hfn) as [Hle Hcur].
  pose proof (li_admits _ _ _ _ Hl i k m' Hi Hm') as Had. unfold admits in Had. rewrite Hst in Had. specialize (Had Hok').
  assert (Hsame : to m' = i → tinc m' = inc_at e i k (from m') → False) by auto.
  unfold arrives in Ha'. rewrite Hy in Ha'. destruct (decide (tinc m' = e_inc e (from m') (to m'))) as [Ec|Ec].
  - assert (Hd : is_done k = true) by (eapply live_grant_done; eauto; rewrite <- Ef; auto).
    assert (Ei : to m' = i) by (rewrite (ready_srv NoTok i k) by done; by apply (mo_server _ _ _ Ho)).
    apply Hsame; [done|]. unfold inc_at. rewrite Hd, Ec, Ei. by apply inc_sym.
  - assert (Hdy : is_done ky = false).
    { destruct (is_done ky) eqn:Ey; [|done]. unfold inc_at in Ha'. rewrite Ey, (inc_sym e _ _ He) in Ha'. lia. }
    assert (Hd : is_done k = false).
    { destruct (is_done k) eqn:Ek; [|done]. by rewrite (li_all _ _ _ _ Hl i k Hi Ek Hrdy _ ky Hy) in Hdy. }
    unfold inc_at in Ha', Hsame. rewrite Hdy, (oldinc_sym e _ _ He) in Ha'. rewrite inc_member in Hle, Ec by done.
    assert (Eo : tinc m' = e_oldinc e (from m') (to m')) by lia.
    pose proof (mo_old_server _ _ _ Ho Hfl Eo) as Es.
    assert (Ei : to m' = i).
    { rewrite <- (co_server _ _ _ (po_core _ _ _ Hp i k Hi)) by (by rewrite Hst). unfold srv_at. by rewrite Hd. }
    apply Hsame; [done|]. rewrite Hd, Eo, Ei. by apply oldinc_sym.
Qed.

Lemma grant_sendable i k m :
  lock_inv e cs F NoTok → cs !! i = Some k → k_state k = ALGOPR_LOCKSERVER_STATE_READY_LOCKED → k_owner k = to m →
  is_grant m = true → from m = i → to m ∈ e_new e → tinc m = inc_at e i k (to m) → sendable e cs F m.
Proof using Hp.
  intros Hl Hi Hst Hown Hg Hf Ht Hinc. pose proof (po_env _ _ _ Hp) as He. pose proof (dom_new _ _ Hi) as Hin.
  assert (Hrdy : is_ready k = true) by (unfold is_ready; by rewrite Hst).
  assert (Hok : is_ok m = false) by (revert Hg; unfold is_grant, is_ok; by destruct (type m)).
  assert (Hul : is_unlock m = false) by (revert Hg; unfold is_grant, is_unlock; by destruct (type m)).
  assert (Htok : tok_of m = TGrant m) by (unfold tok_of; by rewrite Hg).
  split; rewrite ?Htok.
  - intros x kx Hx. unfold admits. rewrite Hok, Hul. destruct (k_state kx) eqn:Es; try done. split_and!; [done..|].
    intros _ Hfx. rewrite Hf in Hfx. subst x. simplify_eq. by rewrite Es in Hst.
  - intros x kx (_ & _ & Ha) Hx. unfold holds. destruct (k_state kx) eqn:Es; [done| | |].
    + intros j Hj. cbn. intros <-. assert (Hn : x ≠ i) by (intros ->; simplify_eq; by rewrite Es in Hst).
      destruct (is_done kx) eqn:Ex.
      * apply Hn, (server_unique x i kx k); [done|done|by rewrite Es|by rewrite Hst|]. rewrite Ex. symmetry.
        by eapply live_grant_done; [..|exact (li_acked _ _ _ _ Hl x kx _ Hx Es Ex Hj)].
      * apply Hn, (server_unique x i kx k); [done|done|by rewrite Es|by rewrite Hst|].
        destruct (is_done k) eqn:Ek; [|congruence]. by rewrite (li_all _ _ _ _ Hl i k Hi Ek Hrdy x kx Hx) in Ex.
    + assert (x = i) as -> by (eapply ready_unique; eauto; unfold is_ready; by rewrite Es). simplify_eq. by rewrite Es in Hst.
    + assert (x = i) as -> by (eapply ready_unique; eauto; unfold is_ready; by rewrite Es). simplify_eq. by intros o [= <-].
  - intros m' (_ & _ & Ha) Hm' Hok' Hh' Ha'. cbn. intros Et. by eapply (ready_no_ok m m').
  - intros _ [_ Hn]. rewrite Hf, Hinc in Hn. exists k. destruct (is_done k) eqn:Ek.
    + by rewrite <- (ready_srv NoTok i k).
    + unfold inc_at in Hn. rewrite Ek in Hn. by destruct (done_inc e i (to m) He Hin Ht).
Qed.

(** ** The client gives the lock back *)

Lemma release_sendable i k m :
  lock_inv e cs F NoTok → cs !! i = Some k → is_unlock m = true → from m = i → to m ∈ e_new e →
  tinc m = inc_at e i k (to m) →
  (∀ kx, cs !! to m = Some kx → is_done kx = is_done k → k_state kx = ALGOPR_LOCKSERVER_STATE_READY_LOCKED) →
  (∀ x kx, cs !! x = Some kx → holds (TRelease m) kx) →
  (is_done k = true → ∃ kx, cs !! e_srv e = Some kx ∧ is_done kx = true ∧ k_state kx = ALGOPR_LOCKSERVER_STATE_READY_LOCKED) →
  sendable e cs F m.
Proof using Hp.
  intros Hl Hi Hu Hf Ht Hinc Hsrv Hh Hnew. pose proof (po_env _ _ _ Hp) as He. pose proof (dom_new _ _ Hi) as Hin.
  assert (Hok : is_ok m = false) by (revert Hu; unfold is_unlock, is_ok; by destruct (type m)).
  assert (Hg : is_grant m = false) by (revert Hu; unfold is_grant, is_unlock; by destruct (type m)).
  assert (Htok : tok_of m = TRelease m) by (unfold tok_of; by rewrite Hg). split; rewrite ?Htok.
  - intros x kx Hx. unfold admits. rewrite Hok, Hg. destruct (k_state kx) eqn:Es; try done. split_and!; [done| |done].
    intros _ <- E. rewrite Hf, Hinc in E. symmetry in E. apply inc_at_same in E; [|done..].
    by rewrite (Hsrv kx Hx E) in Es.
  - intros x kx _. apply Hh.
  - done.
  - intros _ [_ E]. apply Hnew. destruct (is_done k) eqn:Ek; [done|]. rewrite Hf, Hinc in E. unfold inc_at in E. rewrite Ek in E.
    by destruct (done_inc e i (to m) He Hin Ht).
Qed.

(** The token that is sent is the one of the last membership, when its server
    has given it. *)
Lemma sent_exact t i k m :
  lock_inv e cs F t → cs !! i = Some k → is_tok m = true → from m = i → (is_done k = true → to m ∈ e_new e) →
  tinc m = inc_at e i k (to m) → exact e cs (if bool_decide (live_tok e cs m) then tok_of m else NoTok).
Proof using Hp.
  intros Hl Hi Htk Hf Hto Hinc kx Hx Hd Hst. pose proof (po_env _ _ _ Hp) as He. pose proof (dom_new _ _ Hi) as Hin.
  assert (Hall : ∀ j kj, cs !! j = Some kj → is_done kj = true).
  { eapply (li_all _ _ _ _ Hl); [done|done|]. unfold is_ready. by rewrite Hst. }
  pose proof (Hall i k Hi) as Hk. specialize (Hto Hk). destruct (new_dom _ Hto) as [kj Hj].
  unfold inc_at in Hinc. rewrite Hk in Hinc. rewrite bool_decide_true.
  - assert (Hn : from m ∈ e_new e ∧ tinc m = e_inc e (from m) (to m)) by (by rewrite Hf).
    unfold tok_of. by destruct (is_grant m).
  - split; [done|]. split; [left; by rewrite Hf|]. unfold arrives. rewrite Hj. unfold inc_at. rewrite (Hall _ _ Hj), Hf, Hinc.
    rewrite (inc_sym e (to m) i He). lia.
Qed.

Lemma send_tok i k m :
  lock_inv e cs F NoTok → cs !! i = Some k → is_tok m = true → from m = i → (is_done k = true → to m ∈ e_new e) →
  tinc m = inc_at e i k (to m) → (to m ∈ e_new e → sendable e cs F m) →
  ∃ t, lock_inv e cs (sentto e [m] ++ F) t ∧ exact e cs t ∧ (∀ j, t ≠ TWait j).
Proof using Hp.
  intros Hl Hi Htk Hf Hto Hinc Hs. exists (if bool_decide (live_tok e cs m) then tok_of m else NoTok). split; [|split].
  - unfold sentto. destruct (decide (to m ∈ e_new e)) as [Hin|Hout].
    + rewrite filter_cons_True, filter_nil by done. apply li_put_tok; auto.
    + rewrite filter_cons_False, filter_nil by done. rewrite bool_decide_false; [done|]. intros (_ & _ & Ha). unfold arrives in Ha.
      destruct (cs !! to m) eqn:E; [|done]. by apply Hout, (dom_new _ _ E).
  - by eapply sent_exact.
  - intros j. case_bool_decide; [|done]. by apply tok_of_kind.
Qed.
End facts.

(** ** The whole invariant *)

Record good e cs F : Prop := {
  go_proto : proto_ok e cs F;
  go_lock : ∃ t, lock_inv e cs F t ∧ exact e cs t
}.

Lemma po_sub e cs F F' : (∀ m, m ∈ F' → m ∈ F) → proto_ok e cs F → proto_ok e cs F'.
Proof. intros Hs []. split; auto. Qed.

Lemma good_perm e cs F F' : F ≡ₚ F' → good e cs F → good e cs F'.
Proof.
  intros HF [Hp (t & Hl & He)]. split; [eapply po_sub; [|done]; intros m; by rewrite HF|].
  exists t. split; [by eapply li_perm|done].
Qed.

Lemma msg_ok_change e cs i k k' m : cs !! i = Some k → k_stage k' = k_stage k → msg_ok e cs m → msg_ok e (<[i := k']> cs) m.
Proof. intros Hi Hs []. split; rewrite ?(change_stage cs i k k' Hi Hs); done. Qed.

Lemma po_change e cs F F' i k k' :
  proto_ok e cs F → cs !! i = Some k → k_stage k' = k_stage k → core_ok e i k' →
  (∀ m, m ∈ F' → m ∈ F ∨ msg_ok e cs m) → proto_ok e (<[i := k']> cs) F'.
Proof.
  intros Hp Hi Hs Hk HF. destruct Hp. split; try done.
  - intros j. rewrite <- po_dom0. destruct (decide (i = j)) as [<- |Hn]; [|by rewrite lookup_insert_ne].
    rewrite lookup_insert_eq, Hi. split; by eexists.
  - intros j kj [[<- <-]|[_ Hj]]%lookup_insert_Some; [done|auto].
  - intros m Hm. apply (msg_ok_change e cs i k k' m Hi Hs). destruct (HF m Hm); auto.
Qed.

(** The client side of a node changes. *)
Lemma co_client e i k k' :
  core_ok e i k → k_stage k' = k_stage k → k_state k' = k_state k → k_acked k' = k_acked k → k_locks k' = k_locks k →
  (k_wait k' = true → k_wait k = true ∨ acting e i k) → core_ok e i k'.
Proof.
  intros [] Hs Hst Ha Hlo Hw. pose proof (change_done k k' Hs) as Hd. split.
  - by rewrite Hs.
  - rewrite Hd, Hst. intros Hnd Hno. destruct (co_fresh0 Hnd Hno) as [Hkw ?]. split; [|done].
    destruct (k_wait k') eqn:E; [|done]. destruct (Hw eq_refl) as [|[]]; congruence.
  - rewrite Hst. unfold srv_at. rewrite Hd. done.
  - rewrite Hd, Hst. unfold srv_at. rewrite Hd. done.
  - rewrite Hlo. eapply Forall_impl; [done|]. unfold lock_demand_of, mem_of. by rewrite Hd.
  - unfold mem_of. by rewrite Hst, Ha, Hd.
Qed.

Lemma exact_client e cs i k k' t :
  cs !! i = Some k → k_stage k' = k_stage k → k_state k' = k_state k → (t = TWait i → k_beg k' = k_beg k) →
  exact e cs t → exact e (<[i := k']> cs) t.
Proof.
  intros Hi Hs Hst Hb Hex kx Hx Hd Hl. pose proof (change_done k k' Hs) as Hdd.
  assert (Hn : new_tok e cs t).
  { apply lookup_insert_Some in Hx as [[Ei <-]|[Hne Hx]]; [apply (Hex k); congruence|by apply (Hex kx)]. }
  destruct t as [|m|j|m]; try done. destruct Hn as (kj & Hj & Hdj & Hbj). destruct (decide (i = j)) as [<- |Hne].
  - exists k'. rewrite lookup_insert_eq. simplify_eq. rewrite Hdd, Hb by done. done.
  - exists kj. by rewrite lookup_insert_ne.
Qed.
End act.
