(* ===== verification/PrLockStep.v ===== *)
(** * The steps of the protocol of the reservation lock

    For each operation that a thread handles: what it does to its [core] and to
    the bag of messages keeps the invariant [good], and the assertions of the
    handler hold. *)

From S2P Require Import Prelude Nodeset PrLock PrLockProto PrLockAct.
From stdpp Require Import options.

Section step.
Context {X P : Type}.
Implicit Types (k kx kj : core X P) (cs : gmap Z (core X P)) (m : algopr_message_t P) (F R L : list (algopr_message_t P)).

Abbreviation to := to_node_id.
Abbreviation from := from_node_id.
Abbreviation tinc := to_membership_incarnation.

Lemma sentto_app e L L' : sentto e (L ++ L') = sentto e L ++ sentto e L'.
Proof. apply filter_app. Qed.

Lemma sentto_incl e L m : m ∈ sentto e L → m ∈ L ∧ to m ∈ e_new e.
Proof. intros [? ?]%list_elem_of_filter. done. Qed.

Lemma po_add e cs F F' : proto_ok e cs F → (∀ m, m ∈ F' → m ∈ F ∨ msg_ok e cs m) → proto_ok e cs F'.
Proof. intros [] HF. split; try done. intros m Hm. destruct (HF m Hm); auto. Qed.

(** A message that is not handled, or that comes from a node that has left. *)
Lemma good_remove e cs m R : (live_tok e cs m → from m ∉ e_new e) → good e cs (m :: R) → good e cs R.
Proof.
  intros Hm [Hp (t & Hl & Hex)]. split; [eapply po_sub; [|done]; intros; by right|].
  destruct (decide (live_tok e cs m)) as [Hlm|Hn]; [|exists t; split; [by eapply li_remove|done]].
  exists NoTok. split; [by eapply li_take|]. intros kx Hx Hd Hs. specialize (Hex kx Hx Hd Hs).
  destruct (live_kind _ _ _ _ m Hl (list_elem_of_here _ _) Hlm) as [[-> _]|[-> _]]; destruct Hex; by destruct (Hm Hlm).
Qed.

(** A client that does not wait. *)
Lemma good_client e cs F i k k' :
  cs !! i = Some k → k_stage k' = k_stage k → k_state k' = k_state k → k_acked k' = k_acked k → k_owner k' = k_owner k →
  k_locks k' = k_locks k → k_wait k = false → k_wait k' = false → good e cs F → good e (<[i := k']> cs) F.
Proof.
  intros Hi Hs Hst Ha Ho Hlo Hw Hw' [Hp (t & Hl & Hex)]. split.
  - apply (po_change e cs F F i k k'); auto. apply (co_client e i k k'); [by apply (po_core _ _ _ Hp)|done..|by rewrite Hw'].
  - exists t. split; [apply (li_client e cs i k k'); auto; congruence|]. apply (exact_client e cs i k k'); auto.
    intros ->. by rewrite (li_waits _ _ _ _ Hl i k eq_refl Hi) in Hw.
Qed.

(** Commands are added to those that wait. *)
Lemma good_pending e cs F i k p :
  cs !! i = Some k → good e cs F →
  good e (<[i := set_client k (k_wait k) (k_read k) (k_ok k) (k_beg k) p (k_seq k) (k_ctx k)]> cs) F.
Proof.
  intros Hi [Hp (t & Hl & Hex)]. set (k' := set_client _ _ _ _ _ _ _ _). split.
  - apply (po_change e cs F F i k k'); auto. apply (co_client e i k k'); [by apply (po_core _ _ _ Hp)|done..|by left].
  - exists t. split; [|by apply (exact_client e cs i k k')]. apply (li_client e cs i k k'); try done. intros Hw.
    destruct (li_wait _ _ _ _ Hl i k Hi Hw) as [-> Hro]. split; [by destruct Hro|]. split; [done|]. split; [done|].
    intros m Hm Hh Hx Ho. destruct (li_xchg _ _ _ _ Hl m Hm Hh Hx) as [_ Hk]. rewrite Ho in Hk. by destruct (Hk k Hi).
Qed.

(** Demands of the lock are sent. *)
Lemma good_plain e cs F L :
  (∀ m, m ∈ L → is_plain m ∧ (to m ∈ e_new e → msg_ok e cs m)) → good e cs F → good e cs (sentto e L ++ F).
Proof.
  intros HL [Hp (t & Hl & Hex)]. split.
  - apply (po_add e cs F); [done|]. intros m [Hm|Hm]%elem_of_app; [right|by left]. apply sentto_incl in Hm as [Hm Hin]. by apply HL.
  - exists t. split; [|done]. clear Hex Hp. induction L as [|m L IH]; [done|]. unfold sentto. rewrite filter_cons.
    case_decide; [cbn; apply li_plain|]; [by apply HL; left| |]; apply IH; intros; apply HL; by right.
Qed.

(** ** The lock is received *)

Lemma grant_flags e cs m : msg_ok e cs m → is_grant m = true → from_lockserver m = true.
Proof. intros Ho Hg. pose proof (mo_flags _ _ _ Ho) as Hf. unfold flags_ok in Hf. revert Hf Hg. unfold is_grant. by destruct (type m); intros [= -> _]. Qed.

Lemma unlock_flags e cs m : msg_ok e cs m → is_unlock m = true → to_lockserver m = true.
Proof. intros Ho Hg. pose proof (mo_flags _ _ _ Ho) as Hf. unfold flags_ok in Hf. revert Hf Hg. unfold is_unlock. by destruct (type m); intros [= _ ->]. Qed.

Definition locked_srv e cs : Prop :=
  ∃ kx, cs !! e_srv e = Some kx ∧ is_done kx = true ∧ k_state kx = ALGOPR_LOCKSERVER_STATE_READY_LOCKED.

Definition srv_locked e cs k : Prop :=
  ∀ kx, cs !! srv_at e k = Some kx → is_done kx = is_done k → k_state kx = ALGOPR_LOCKSERVER_STATE_READY_LOCKED.

Lemma granted e cs m R t i k :
  proto_ok e cs (m :: R) → lock_inv e cs (m :: R) t → cs !! i = Some k → accepts e i k m → is_grant m = true →
  t = TGrant m ∧ k_wait k = false ∧ lock_inv e cs R NoTok ∧ srv_locked e cs k ∧ (is_done k = true → locked_srv e cs).
Proof.
  intros Hp Hl Hi Ha Hg. pose proof (list_elem_of_here m R) as Hm. pose proof (po_msg _ _ _ Hp m Hm) as Ho.
  pose proof (po_env _ _ _ Hp) as He. pose proof (dom_new _ _ _ Hp _ _ Hi) as Hin.
  assert (Hlive : live_tok e cs m) by (eapply accepts_live; eauto; unfold is_tok; by rewrite Hg).
  assert (t = TGrant m) as ->.
  { destruct (live_kind _ _ _ _ m Hl Hm Hlive) as [[? _]|[_ Hu]]; [done|]. revert Hg Hu. unfold is_grant, is_unlock. by destruct (type m). }
  pose proof (accepts_granted e cs _ Hp m i k Hm Hi Ha (grant_flags _ _ _ Ho Hg)) as Hf. split; [done|]. split; [|split; [|split]].
  - destruct (k_wait k) eqn:E; [|done]. by destruct (li_wait _ _ _ _ Hl i k Hi E).
  - by eapply li_take.
  - intros kx Hx Hd. pose proof (li_admits _ _ _ _ Hl _ kx m Hx Hm) as Had. pose proof (li_holds _ _ _ _ Hl _ kx Hx) as Hh.
    unfold admits, holds in *. destruct (k_state kx) eqn:Es; [| |done|done].
    + destruct (co_standby _ _ _ (po_core _ _ _ Hp _ kx Hx)); [| |done].
      * destruct (running_acting _ _ _ (ac_running _ _ _ _ Ha)) as [Hdk|Hold]; [left; congruence|].
        destruct (is_done kx) eqn:Ex; [by left|right]. destruct Ha as [_ Hr Hinc]. unfold inc_at in Hinc. rewrite <- Hd in Hinc.
        rewrite <- Hf. pose proof (mo_pos _ _ _ Ho). eapply (proj2 (oldinc_pos e i (from m) He ltac:(lia))).
      * unfold srv_at. by rewrite Hd.
    + destruct Had as (_ & _ & Hng). exfalso. apply (Hng Hg Hf). rewrite (ac_to _ _ _ _ Ha), (ac_inc _ _ _ _ Ha), Hf.
      symmetry. apply inc_at_same; [done|done|eapply dom_new; eauto|done].
  - intros Hd. apply (li_new _ _ _ _ Hl). pose proof (running_from _ _ _ Hp m i k Hm Hi (ac_to _ _ _ _ Ha) (ac_running _ _ _ _ Ha) Hd) as Hfn.
    split; [done|]. destruct Ha as [Ht _ Hinc]. rewrite Hinc, Ht. unfold inc_at. rewrite Hd. by apply inc_sym.
Qed.

(** *** A command is executed and sent to the others *)

Definition cmds e (i : Z) k (q : Z) (d : P) (js : list Z) : list (algopr_message_t P) :=
  (λ j, a_msg e i k ALGOPR_MESSAGE_PR_CMD j q (Some d)) <$> js.

Lemma put_cmds e cs F i k k0 q d js :
  lock_inv e cs F (TWait i) → cs !! i = Some k → q = k_seq k → NoDup js → (∀ j, j ∈ js → j ∈ k_read k ∖ k_ok k) →
  (∀ m, m ∈ F → hears e cs m → is_xchg m = true → x_owner m = i → x_peer m ∉ js) →
  lock_inv e cs (sentto e (cmds e i k0 q d js) ++ F) (TWait i).
Proof.
  intros Hl Hi -> Hnd Hjs Hx. induction Hnd as [|j js Hj Hnd IH]; [done|]. unfold cmds, sentto. cbn [fmap list_fmap].
  assert (Hl' : lock_inv e cs (sentto e (cmds e i k0 (k_seq k) d js) ++ F) (TWait i)).
  { apply IH; [intros; apply Hjs; by right|]. intros m Hm Hh Hxm Ho Hin. apply (Hx m Hm Hh Hxm Ho). by right. }
  rewrite filter_cons. case_decide; [|exact Hl']. cbn. apply li_put_xchg; [done| |exact Hl']. intros _. split; [done|]. split.
  - intros k1 Hk1. change (cs !! i = Some k1) in Hk1. simplify_eq. split; [|done]. apply Hjs. by left.
  - intros m' [Hm|Hm]%elem_of_app Hh' Hx' Ho'.
    + apply sentto_incl in Hm as [Hm _]. apply list_elem_of_fmap in Hm as (j' & -> & Hj'). change (j' ≠ j). by intros ->.
    + intros E. apply (Hx m' Hm Hh' Hx' Ho'). rewrite E. by left.
Qed.

Lemma holds_wait m k i : to m = i → holds (TGrant m) k → holds (TWait i) k.
Proof. intros <-. unfold holds. destruct (k_state k); try done. Qed.

Lemma self_member e cs F i k : proto_ok e cs F → cs !! i = Some k → acting e i k → i ∈ mem_of e k.
Proof. intros Hp Hi [Hd|Ho]; unfold mem_of; [rewrite Hd; by eapply dom_new|]. destruct (is_done k); [by eapply dom_new|done]. Qed.

Lemma reading_begin e i k p x :
  acting e i k → i ∈ mem_of e k → mem_of e k ∖ {[i]} ≠ ∅ →
  reading_ok e i (set_client k true (mem_of e k) {[i]} (inc_at e i k i) p (k_seq k) x).
Proof.
  intros Hact Hself Hmem. split.
  - by apply elem_of_singleton.
  - cbn. intros j. by intros ->%elem_of_singleton.
  - done.
  - cbn. intros E. apply Hmem. rewrite E. apply difference_diag_L.
  - cbn. unfold inc_at, is_done. cbn. done.
  - intros Hno. destruct Hact as [Hd|]; [|done]. split; [exact Hd|]. cbn [k_beg set_client]. unfold inc_at. by rewrite Hd.
Qed.

Lemma act_begin e cs m R i k js d p x :
  good e cs (m :: R) → cs !! i = Some k → accepts e i k m → is_grant m = true → mem_of e k ∖ {[i]} ≠ ∅ →
  NoDup js → (∀ j, j ∈ js ↔ j ∈ mem_of e k ∖ {[i]}) →
  good e (<[i := set_client k true (mem_of e k) {[i]} (inc_at e i k i) p (k_seq k) x]> cs)
    (sentto e (cmds e i k (k_seq k) d js) ++ R).
Proof.
  intros [Hp (t & Hl & Hex)] Hi Ha Hg Hmem Hnd Hjs. set (k' := set_client _ _ _ _ _ _ _ _).
  destruct (granted e cs m R t i k Hp Hl Hi Ha Hg) as (-> & Hw & HlR & Hsrv & Hnew).
  pose proof (running_acting _ _ _ (ac_running _ _ _ _ Ha)) as Hact. pose proof (dom_new _ _ _ Hp _ _ Hi) as Hin.
  pose proof (self_member e cs _ i k Hp Hi Hact) as Hself. split.
  - apply (po_change e cs (m :: R) _ i k k'); [done|done|done| |].
    + apply (co_client e i k k'); [by apply (po_core _ _ _ Hp)|done..|by right].
    + intros m' [Hm'|Hm']%elem_of_app; [right|left; by right]. apply sentto_incl in Hm' as [Hm' Hto].
      apply list_elem_of_fmap in Hm' as (j & -> & Hj). apply Hjs in Hj. cbn in Hto. apply (sent_ok e cs (m :: R)); try done.
      apply elem_of_difference in Hj as [Hj _]. apply acting_inc; [apply Hp|done..].
  - exists (TWait i). assert (Hl' : lock_inv e (<[i := k']> cs) R (TWait i)).
    { apply (li_begin e cs i k k'); try done.
      - by apply reading_begin.
      - intros y ky Hy. apply (holds_wait m); [apply Ha|]. by apply (li_holds _ _ _ _ Hl y).
      - intros m' Hm' Hok Hh Har E. apply (li_oks _ _ _ _ Hl m'); [by right|done..|]. by rewrite (ac_to _ _ _ _ Ha). }
    split.
    + apply (put_cmds _ _ _ _ k'); [done|apply lookup_insert_eq|done|done|intros j; apply Hjs|].
      intros m' Hm' Hh Hx _. apply (change_hears e cs i k k') in Hh; [|done..].
      by destruct (li_xchg _ _ _ _ Hl m' (list_elem_of_further _ _ _ Hm') Hh Hx).
    + intros ky Hy Hdy Hsy. exists k'. rewrite lookup_insert_eq. split; [done|].
      assert (Hd : is_done k = true).
      { apply lookup_insert_Some in Hy as [[_ <-]|[_ Hy]]; [done|]. apply (li_all _ _ _ _ Hl _ ky Hy Hdy) with i; [|done].
        unfold is_ready. by rewrite Hsy. }
      split; [done|]. cbn. unfold inc_at. by rewrite Hd.
Qed.

(** *** The lock goes back to the server *)

Lemma srv_member e i k : env_ok e → i ∈ mem_of e k → srv_at e k ∈ mem_of e k.
Proof.
  intros He Hi. unfold mem_of, srv_at in *.
  destruct (is_done k); [apply (eo_srv e He)|apply (eo_oldsrv e He)]; intros E; rewrite E in Hi; by apply not_elem_of_empty in Hi.
Qed.

(** A message for the lock server. *)
Definition srv_msg e (i : Z) k (t : msg_type_t) (q : Z) : algopr_message_t P := a_msg e i k t (srv_at e k) q None.

Lemma srv_msg_ok e cs F i k t q :
  proto_ok e cs F → cs !! i = Some k → acting e i k → flags_of t = (false, true) → srv_at e k ∈ e_new e → msg_ok e cs (srv_msg e i k t q).
Proof.
  intros Hp Hi Ha Ht Hin. pose proof (self_member e cs F i k Hp Hi Ha) as Hself. apply (sent_ok e cs F); try done; [|by rewrite Ht|by intros ->].
  apply acting_inc; [apply Hp|done|by eapply dom_new|done|]. by apply (srv_member e i); [apply Hp|].
Qed.

Lemma holds_release t k m : owner t = Some (from m) → holds t k → holds (TRelease m) k.
Proof.
  unfold holds. intros Ho. destruct (k_state k); try done; [by intros ->|]. intros Hh o [= <-]. by apply Hh.
Qed.

Lemma good_release e cs F i k q :
  proto_ok e cs F → lock_inv e cs F NoTok → cs !! i = Some k → acting e i k → srv_locked e cs k →
  (is_done k = true → locked_srv e cs) → (∀ x kx, cs !! x = Some kx → holds (TWait i) kx) →
  good e cs (sentto e [srv_msg e i k ALGOPR_MESSAGE_UNLOCK q] ++ F).
Proof.
  intros Hp Hl Hi Ha Hsrv Hnew Hh. set (u := srv_msg _ _ _ _ _). split.
  - apply (po_add e cs F); [done|]. intros m' [Hm'|Hm']%elem_of_app; [right|by left]. apply sentto_incl in Hm' as [Hm' Hto].
    apply list_elem_of_singleton in Hm' as ->. by apply (srv_msg_ok e cs F).
  - destruct (send_tok e cs F Hp i k u) as (t & Hlt & Hex & _); try done.
    + intros Hd. cbn. assert (Hm : srv_at e k ∈ mem_of e k).
      { apply (srv_member e i); [apply Hp|]. by eapply self_member. }
      unfold mem_of in Hm. by rewrite Hd in Hm.
    + intros Hto. apply (release_sendable e cs F Hp i k); try done. intros x kx Hx. apply (holds_release (TWait i)); [done|by eapply Hh].
    + by exists t.
Qed.

Lemma act_release e cs m R i k q r o b p q' x :
  good e cs (m :: R) → cs !! i = Some k → accepts e i k m → is_grant m = true →
  good e (<[i := set_client k false r o b p q' x]> cs) (sentto e [srv_msg e i k ALGOPR_MESSAGE_UNLOCK q] ++ R).
Proof.
  intros [Hp (t & Hl & Hex)] Hi Ha Hg. destruct (granted e cs m R t i k Hp Hl Hi Ha Hg) as (-> & Hw & HlR & Hsrv & Hnew).
  eapply good_client; [done..|]. apply good_release; try done.
  - eapply po_sub; [|done]. intros; by right.
  - apply running_acting, Ha.
  - intros y ky Hy. apply (holds_wait m); [apply Ha|]. by apply (li_holds _ _ _ _ Hl y).
Qed.

(** ** A command of another node *)

Lemma cmd_passive e cs F t i k m :
  proto_ok e cs F → lock_inv e cs F t → cs !! i = Some k → m ∈ F → to m = i → hears e cs m → type m = ALGOPR_MESSAGE_PR_CMD →
  from m ≠ i ∧ k_wait k = false.
Proof.
  intros Hp Hl Hi Hm Hto Hh Hty. destruct (li_xchg _ _ _ _ Hl m Hm Hh) as [Ht Hk]; [unfold is_xchg; by rewrite Hty|].
  unfold x_owner, x_peer in Ht, Hk. rewrite Hty in Ht, Hk. cbn in Ht, Hk. assert (Hne : from m ≠ i).
  { intros E. rewrite E in Ht, Hk. destruct (Hk k Hi) as [[_ Hn]%elem_of_difference _]. apply Hn. rewrite Hto.
    apply (ro_self e i k). by apply (li_wait _ _ _ _ Hl i k Hi), (li_waits _ _ _ _ Hl i k). }
  split; [done|]. destruct (k_wait k) eqn:E; [|done]. destruct (li_wait _ _ _ _ Hl i k Hi E) as [Ht' _]. rewrite Ht in Ht'. by injection Ht'.
Qed.

(** Each exchange has one message. *)
Lemma once_unique e cs m m' R t :
  lock_inv e cs (m :: R) t → hears e cs m → is_xchg m = true → m' ∈ R → hears e cs m' → is_xchg m' = true →
  x_owner m' = x_owner m → x_peer m' ≠ x_peer m.
Proof.
  intros Hl Hh Hx Hm' Hh' Hx' Ho Hpe. pose proof (li_once _ _ _ _ Hl (x_owner m) (x_peer m)) as Hlen.
  rewrite filter_cons_True in Hlen by done. simpl in Hlen.
  assert (Hin : m' ∈ filter (λ m0, hears e cs m0 ∧ is_xchg m0 = true ∧ x_owner m0 = x_owner m ∧ x_peer m0 = x_peer m) R)
    by (by apply list_elem_of_filter).
  apply list_elem_of_split in Hin as (l1 & l2 & E). rewrite E, length_app in Hlen. simpl in Hlen. lia.
Qed.

Lemma ok_unique e cs m m' R t :
  lock_inv e cs (m :: R) t → is_ok m = true → m' ∈ R → is_ok m' = true → from m' = from m → to m' = to m → tinc m' ≠ tinc m.
Proof.
  intros Hl Hk Hm' Hk' Hf Ht Hc. pose proof (li_ok_once _ _ _ _ Hl (from m) (to m) (tinc m)) as Hlen.
  rewrite filter_cons_True in Hlen by done. simpl in Hlen.
  assert (Hin : m' ∈ filter (λ m0, is_ok m0 = true ∧ from m0 = from m ∧ to m0 = to m ∧ tinc m0 = tinc m) R)
    by (by apply list_elem_of_filter).
  apply list_elem_of_split in Hin as (l1 & l2 & E). rewrite E, length_app in Hlen. simpl in Hlen. lia.
Qed.

Lemma xchg_not_live e cs m : is_xchg m = true → ¬ live_tok e cs m.
Proof. intros Hx [Ht _]. apply tok_not_xchg in Ht as [Hn _]. congruence. Qed.

Definition done_msg e (i : Z) k m : algopr_message_t P :=
  a_msg e i k ALGOPR_MESSAGE_PR_CMD_DONE (from m) (emitter_sequency m) None.

Lemma act_cmd e cs m R i k x :
  good e cs (m :: R) → cs !! i = Some k → to m = i → running e i k → tinc m <= inc_at e i k (from m) →
  type m = ALGOPR_MESSAGE_PR_CMD →
  good e (<[i := set_client k false (k_read k) (k_ok k) (k_beg k) (k_pending k) (k_seq k) x]> cs) (sentto e [done_msg e i k m] ++ R).
Proof.
  intros [Hp (t & Hl & Hex)] Hi Hto Hr Hinc Hty. pose proof (list_elem_of_here m R) as Hm.
  pose proof (accepts_hears _ _ _ Hp m i k Hm Hi Hto Hr) as Hh. pose proof (po_msg _ _ _ Hp m Hm) as Ho.
  destruct (cmd_passive e cs _ t i k m Hp Hl Hi Hm Hto Hh Hty) as [Hne Hw]. pose proof (dom_new _ _ _ Hp _ _ Hi) as Hin.
  assert (Hx : is_xchg m = true) by (unfold is_xchg; by rewrite Hty).
  destruct (li_xchg _ _ _ _ Hl m Hm Hh Hx) as [Ht Hk]. assert (Eo : x_owner m = from m) by (unfold x_owner; by rewrite Hty).
  assert (Ep : x_peer m = i) by (unfold x_peer; rewrite Hty; done). rewrite Eo, Ep in *.
  eapply good_client; [done..|]. split.
  - apply (po_add e cs (m :: R)); [done|]. intros m' [Hm'|Hm']%elem_of_app; [right|left; by right].
    apply sentto_incl in Hm' as [Hm' Hto']. apply list_elem_of_singleton in Hm' as ->. cbn in Hto'.
    apply (sent_ok e cs (m :: R)); try done. pose proof (mo_pos _ _ _ Ho). lia.
  - exists t. split; [|done]. assert (HlR : lock_inv e cs R t) by (eapply li_remove; [by apply xchg_not_live|done]).
    unfold sentto. rewrite filter_cons, filter_nil. case_decide; [|done]. cbn. apply li_put_xchg; [done| |done]. intros _.
    change (x_owner (done_msg e i k m)) with (from m). change (x_peer (done_msg e i k m)) with i. split; [done|]. split; [done|].
    intros m' Hm' Hh' Hx' Eo'. rewrite <- Eo in Eo'. rewrite <- Ep. by eapply once_unique.
Qed.

(** ** An answer *)

Lemma done_facts e cs F t i k m :
  proto_ok e cs F → lock_inv e cs F t → cs !! i = Some k → m ∈ F → to m = i → running e i k → type m = ALGOPR_MESSAGE_PR_CMD_DONE →
  t = TWait i ∧ k_wait k = true ∧ reading_ok e i k ∧ from m ∈ k_read k ∖ k_ok k ∧ emitter_sequency m = k_seq k.
Proof.
  intros Hp Hl Hi Hm Hto Hr Hty. pose proof (accepts_hears _ _ _ Hp m i k Hm Hi Hto Hr) as Hh.
  destruct (li_xchg _ _ _ _ Hl m Hm Hh) as [Ht Hk]; [unfold is_xchg; by rewrite Hty|].
  unfold x_owner, x_peer in Ht, Hk. rewrite Hty in Ht, Hk. cbn in Ht, Hk. rewrite Hto in Ht, Hk.
  pose proof (li_waits _ _ _ _ Hl i k Ht Hi) as Hw. destruct (li_wait _ _ _ _ Hl i k Hi Hw) as [_ Hro]. destruct (Hk k Hi). done.
Qed.

Lemma act_done_more e cs m R i k :
  good e cs (m :: R) → cs !! i = Some k → to m = i → running e i k → type m = ALGOPR_MESSAGE_PR_CMD_DONE →
  k_read k ≠ {[from m]} ∪ k_ok k →
  good e (<[i := set_client k true (k_read k) ({[from m]} ∪ k_ok k) (k_beg k) (k_pending k) (k_seq k) (k_ctx k)]> cs) R.
Proof.
  intros [Hp (t & Hl & Hex)] Hi Hto Hr Hty Hmore. set (k' := set_client _ _ _ _ _ _ _ _). pose proof (list_elem_of_here m R) as Hm.
  destruct (done_facts e cs _ t i k m Hp Hl Hi Hm Hto Hr Hty) as (-> & Hw & Hro & Hfr & Hsq).
  pose proof (accepts_hears _ _ _ Hp m i k Hm Hi Hto Hr) as Hh. assert (Hx : is_xchg m = true) by (unfold is_xchg; by rewrite Hty).
  assert (Eo : x_owner m = i) by (unfold x_owner; by rewrite Hty). assert (Ep : x_peer m = from m) by (unfold x_peer; by rewrite Hty).
  split.
  - apply (po_change e cs (m :: R) _ i k k'); [done|done|done| |intros m' Hm'; left; by right].
    apply (co_client e i k k'); [by apply (po_core _ _ _ Hp)|done..|by left].
  - exists (TWait i). split; [|by apply (exact_client e cs i k k')].
    apply (li_client e cs i k k'); try done; [|eapply li_remove; [by apply xchg_not_live|done]]. intros _. split; [|split; [done|split; [done|]]].
    + destruct Hro. split; try done; cbn; [set_solver..].
    + intros m' Hm' Hh' Hx' Ho'. destruct (li_xchg _ _ _ _ Hl m' (list_elem_of_further _ _ _ Hm') Hh' Hx') as [_ Hk].
      rewrite Ho' in Hk. destruct (Hk k Hi) as [[? ?]%elem_of_difference _]. cbn. apply elem_of_difference. split; [done|].
      intros [E%elem_of_singleton|?]%elem_of_union; [|done]. rewrite <- Ep in E. revert E. eapply once_unique; eauto. congruence.
Qed.

(** A node is ready for the server. *)
Lemma good_ok e cs F t i k q :
  proto_ok e cs F → lock_inv e cs F t → exact e cs t → cs !! i = Some k → acting e i k → k_wait k = false → clear t i →
  (∀ kx, cs !! srv_at e k = Some kx → is_done kx = is_done k → is_ready kx = false ∧
     (k_state kx = ALGOPR_LOCKSERVER_STATE_WAIT_ALL_OK → i ∉ k_acked kx)) →
  (∀ m, m ∈ F → is_ok m = true → from m = i → to m = srv_at e k → tinc m ≠ inc_at e i k (srv_at e k)) →
  good e cs (sentto e [srv_msg e i k ALGOPR_MESSAGE_LOCKSERVER_OK q] ++ F).
Proof.
  intros Hp Hl Hex Hi Ha Hw Hc Hs Hu. split.
  - apply (po_add e cs F); [done|]. intros m' [Hm'|Hm']%elem_of_app; [right|by left]. apply sentto_incl in Hm' as [Hm' Hto].
    apply list_elem_of_singleton in Hm' as ->. by apply (srv_msg_ok e cs F).
  - exists t. split; [|done]. unfold sentto. rewrite filter_cons, filter_nil. case_decide as Hto; [|done]. cbn in Hto |- *.
    apply li_put_ok; try done; cbn.
    + intros kx Hx E. apply (Hs kx Hx). symmetry in E. apply inc_at_same in E; [done|apply Hp|by eapply dom_new|done].
    + intros k1 Hk1. by simplify_eq.
Qed.

Lemma change_locked_srv e cs i k k' :
  cs !! i = Some k → k_stage k' = k_stage k → k_state k' = k_state k → locked_srv e cs → locked_srv e (<[i := k']> cs).
Proof.
  intros Hi Hs Hst (kx & Hx & Hd & Hl). destruct (decide (i = e_srv e)) as [E|Hn].
  - exists k'. rewrite <- E in Hx |- *. simplify_eq. by rewrite lookup_insert_eq, (change_done k k' Hs), Hst.
  - exists kx. by rewrite lookup_insert_ne.
Qed.

Definition finish_of e (i : Z) k : msg_type_t :=
  if inc_at e i k i =? k_beg k then ALGOPR_MESSAGE_UNLOCK else ALGOPR_MESSAGE_LOCKSERVER_OK.

Lemma act_done_end e cs m R i k r o b p q q' x :
  good e cs (m :: R) → cs !! i = Some k → to m = i → running e i k → type m = ALGOPR_MESSAGE_PR_CMD_DONE →
  k_read k = {[from m]} ∪ k_ok k →
  good e (<[i := set_client k false r o b p q' x]> cs) (sentto e [srv_msg e i k (finish_of e i k) q] ++ R).
Proof.
  intros [Hp (t & Hl & Hex)] Hi Hto Hr Hty Hall. set (k' := set_client _ _ _ _ _ _ _ _). pose proof (list_elem_of_here m R) as Hm.
  destruct (done_facts e cs _ t i k m Hp Hl Hi Hm Hto Hr Hty) as (-> & Hw & Hro & Hfr & Hsq).
  pose proof (accepts_hears _ _ _ Hp m i k Hm Hi Hto Hr) as Hh. assert (Hx : is_xchg m = true) by (unfold is_xchg; by rewrite Hty).
  assert (Eo : x_owner m = i) by (unfold x_owner; by rewrite Hty). assert (Ep : x_peer m = from m) by (unfold x_peer; by rewrite Hty).
  assert (HlE : lock_inv e (<[i := k']> cs) R NoTok).
  { apply (li_end e cs i k k'); try done; [|eapply li_remove; [by apply xchg_not_live|done]]. intros m' Hm' Hh' Hx'.
    destruct (li_xchg _ _ _ _ Hl m' (list_elem_of_further _ _ _ Hm') Hh' Hx') as [E Hk]. injection E as E. rewrite <- E in Hk.
    destruct (Hk k Hi) as [[Hr1 Hr2]%elem_of_difference _]. rewrite Hall in Hr1.
    apply elem_of_union in Hr1 as [Hr1%elem_of_singleton|?]; [|done]. rewrite <- Ep in Hr1. revert Hr1. eapply once_unique; eauto. congruence. }
  assert (Hp' : proto_ok e (<[i := k']> cs) R).
  { apply (po_change e cs (m :: R) _ i k k'); [done|done|done| |intros m' Hm'; left; by right].
    by apply (co_client e i k k'); [by apply (po_core _ _ _ Hp)|..]. }
  change (srv_msg e i k (finish_of e i k) q) with (srv_msg e i k' (finish_of e i k) q). unfold finish_of.
  destruct (Z.eqb_spec (inc_at e i k i) (k_beg k)) as [Eb|Eb].
  - apply good_release; [done|done|apply lookup_insert_eq|by apply (running_acting e i k)|..].
    + intros kx Hkx Hd. apply lookup_insert_Some in Hkx as [[Ei <-]|[_ Hkx]].
      * by apply (li_ready _ _ _ _ Hl (srv_at e k) i k k); [by change (cs !! srv_at e k' = Some k); rewrite <- Ei|..].
      * by apply (li_ready _ _ _ _ Hl (srv_at e k) i kx k).
    + intros Hd. apply (change_locked_srv e cs i k k'); [done..|]. apply (li_new _ _ _ _ Hl). exists k. split; [done|]. split; [done|].
      unfold inc_at in Eb. change (is_done k') with (is_done k) in Hd. by rewrite Hd in Eb.
    + intros y ky [[_ <-]|[_ Hy]]%lookup_insert_Some; [exact (li_holds _ _ _ _ Hl i k Hi)|by apply (li_holds _ _ _ _ Hl y)].
  - apply (good_ok e _ R NoTok); try done; [|apply lookup_insert_eq|by apply (running_acting e i k)|..].
    + intros kx Hkx Hd Hs. apply lookup_insert_Some in Hkx as [[Ei <-]|[_ Hkx]].
      * destruct Eb. symmetry. apply (li_beg _ _ _ _ Hl i i k k); try done. unfold is_ready. change (k_state k) with (k_state k'). by rewrite Hs.
      * destruct Eb. symmetry. apply (li_beg _ _ _ _ Hl (e_srv e) i kx k); try done; [unfold is_ready; by rewrite Hs|].
        rewrite Hd. apply (li_all _ _ _ _ Hl _ kx Hkx Hd) with i; [|done]. unfold is_ready. by rewrite Hs.
    + intros kx Hkx Hd. change (is_done k') with (is_done k) in Hd.
      assert (Hy : ∃ ky, cs !! srv_at e k = Some ky ∧ is_ready ky = is_ready kx ∧ k_state ky = k_state kx ∧ k_acked ky = k_acked kx ∧ is_done ky = is_done k).
      { apply lookup_insert_Some in Hkx as [[Ei <-]|[_ Hkx]]; [exists k|by exists kx]. split; [|done]. change (srv_at e k') with (srv_at e k) in Ei. by rewrite <- Ei. }
      destruct Hy as (ky & Hky & <- & <- & <- & Hdy). split.
      * destruct (is_ready ky) eqn:Er; [|done]. destruct Eb. symmetry. by apply (li_beg _ _ _ _ Hl (srv_at e k) i ky k).
      * intros Hst Hin. pose proof (li_holds _ _ _ _ Hl _ ky Hky) as Hh'. unfold holds in Hh'. rewrite Hst in Hh'. by apply (Hh' i Hin).
    + intros m' Hm' Hok Hf Ht. rewrite <- Ht. by apply (li_late _ _ _ _ Hl i k m' Hi Hw (not_eq_sym Eb) (list_elem_of_further _ _ _ Hm')).
Qed.
End step.
