(* ===== verification/PrLockServe.v ===== *)
(** * The steps of the server of the reservation lock

    What the server does with a demand, a release and a "ready" of a node keeps
    the invariant [good] of the protocol. *)

From S2P Require Import Prelude Nodeset PrLock PrLockProto PrLockAct PrLockStep.
From stdpp Require Import options.

Section serve.
Context {X P : Type}.
Implicit Types (k kx kj : core X P) (cs : gmap Z (core X P)) (m : algopr_message_t P) (F R L : list (algopr_message_t P)).

Abbreviation to := to_node_id.
Abbreviation from := from_node_id.
Abbreviation tinc := to_membership_incarnation.

Lemma co_set_server e i k st a o l :
  core_ok e i k → acting e i k → srv_at e k = i → st ≠ ALGOPR_LOCKSERVER_STATE_STANDBY → Forall (lock_demand_of e i k) l →
  (st = ALGOPR_LOCKSERVER_STATE_WAIT_ALL_OK → a ⊆ mem_of e k) → core_ok e i (set_server k st a o l).
Proof.
  intros [] Ha Hs Hst Hl Hac. split; try done. intros Hd Hno. destruct Ha as [Hd'|]; [|done].
  change (is_done (set_server k st a o l)) with (is_done k) in Hd. congruence.
Qed.

Lemma accepts_member e cs F i k m : proto_ok e cs F → m ∈ F → cs !! i = Some k → accepts e i k m → from m ∈ mem_of e k.
Proof.
  intros Hp Hm Hi [Ht Hr Hinc]. unfold mem_of. destruct (is_done k) eqn:Hd; [by eapply running_from|].
  unfold inc_at in Hinc. rewrite Hd in Hinc. pose proof (mo_pos _ _ _ (po_msg _ _ _ Hp m Hm)).
  apply (oldinc_pos e i (from m) (po_env _ _ _ Hp)). lia.
Qed.

Lemma lock_plain m : type m = ALGOPR_MESSAGE_LOCK → is_plain m.
Proof. intros Ht. unfold is_plain, is_tok, is_grant, is_unlock, is_xchg, is_ok. by rewrite Ht. Qed.

Lemma lock_flags e cs m : msg_ok e cs m → type m = ALGOPR_MESSAGE_LOCK → from_lockserver m = false ∧ to_lockserver m = true.
Proof. intros Ho Ht. pose proof (mo_flags _ _ _ Ho) as Hf. unfold flags_ok in Hf. rewrite Ht in Hf. by injection Hf. Qed.

Lemma lock_demand_ok e cs F i k m :
  proto_ok e cs F → m ∈ F → cs !! i = Some k → accepts e i k m → type m = ALGOPR_MESSAGE_LOCK → lock_demand_of e i k m.
Proof.
  intros Hp Hm Hi Ha Ht. split; [done|]. split; [by apply (mo_flags e cs), (po_msg _ _ _ Hp)|]. split; [apply Ha|by eapply accepts_member].
Qed.

(** ** A demand of the lock *)

Lemma act_lock_queue e cs m R i k :
  good e cs (m :: R) → cs !! i = Some k → accepts e i k m → type m = ALGOPR_MESSAGE_LOCK →
  good e (<[i := set_server k (k_state k) (k_acked k) (k_owner k) (k_locks k ++ [m])]> cs) R.
Proof.
  intros Hg Hi Ha Hty. pose proof (go_proto _ _ _ Hg) as Hp. pose proof (list_elem_of_here m R) as Hm.
  pose proof (po_msg _ _ _ Hp m Hm) as Ho. destruct (lock_flags _ _ _ Ho Hty) as [_ Hto].
  pose proof (accepts_server e cs _ Hp m i k Hm Hi Ha Hto) as Hsrv. pose proof (accepts_serves e cs _ Hp m i k Hm Hi Ha Hto) as Hst.
  pose proof (po_core _ _ _ Hp i k Hi) as Hc. set (k' := set_server _ _ _ _ _).
  assert (HgR : good e cs R).
  { apply (good_remove e cs m R); [|done]. intros [Htk _]. destruct (lock_plain m Hty). congruence. }
  destruct HgR as [HpR (t & Hl & Hex)]. split.
  - apply (po_change e cs R _ i k k'); [done|done|done| |by left].
    apply co_set_server; [done|apply running_acting, Ha|done|done| |apply Hc].
    apply Forall_app. split; [apply Hc|]. apply Forall_singleton. exact (lock_demand_ok e cs (m :: R) i k m Hp Hm Hi Ha Hty).
  - exists t. split; [|by apply (exact_client e cs i k k')]. apply (li_client e cs i k k'); try done. intros Hw.
    destruct (li_wait _ _ _ _ Hl i k Hi Hw) as [-> Hro]. split; [by destruct Hro|]. split; [done|]. split; [done|].
    intros m' Hm' Hh' Hx' Ho'. destruct (li_xchg _ _ _ _ Hl m' Hm' Hh' Hx') as [_ Hk]. rewrite Ho' in Hk. by destruct (Hk k Hi).
Qed.

(** The lock is given to the node [o]. *)
Lemma good_grant e cs F i k t q o :
  proto_ok e cs F → lock_inv e cs F NoTok → cs !! i = Some k → acting e i k →
  k_state k = ALGOPR_LOCKSERVER_STATE_READY_LOCKED → k_owner k = o → o ∈ mem_of e k → is_grant_type t = true →
  good e cs (sentto e [a_msg e i k t o q None] ++ F).
Proof.
  intros Hp Hl Hi Ha Hst Hown Ho Ht. set (g := a_msg _ _ _ _ _ _ _).
  assert (Hg : is_grant g = true) by (unfold is_grant; done). split.
  - apply (po_add e cs F); [done|]. intros m' [Hm'|Hm']%elem_of_app; [right|by left]. apply sentto_incl in Hm' as [Hm' Hto].
    apply list_elem_of_singleton in Hm' as ->. cbn in Hto. apply (sent_ok e cs F); try done.
    + apply acting_inc; [apply Hp|done|by eapply dom_new|done..].
    + by destruct t.
    + intros _. symmetry. apply (co_server _ _ _ (po_core _ _ _ Hp i k Hi)). by rewrite Hst.
    + by intros ->.
  - destruct (send_tok e cs F Hp i k g) as (t' & Hlt & Hex & _); try done; [unfold is_tok; by rewrite Hg| | |by exists t'].
    + intros Hd. unfold mem_of in Ho. by rewrite Hd in Ho.
    + intros Hto. by apply (grant_sendable e cs F Hp i k).
Qed.

(** Nobody has the lock: the state of the server is free to change between the
    two states in which it is ready. *)
Lemma li_ready_change e cs F i k st a o l :
  lock_inv e cs F NoTok → cs !! i = Some k → is_ready k = true → is_ready (set_server k st a o l) = true →
  lock_inv e (<[i := set_server k st a o l]> cs) F NoTok.
Proof.
  intros Hl Hi Hr Hr'. set (k' := set_server _ _ _ _ _) in *.
  assert (Hno : ∀ j kj, cs !! j = Some kj → k_wait kj = true → False) by (intros j kj Hj Hw; by destruct (li_wait _ _ _ _ Hl j kj Hj Hw)).
  apply (li_serve e cs i k k'); try done.
  - intros m Hm. pose proof (li_admits _ _ _ _ Hl i k m Hi Hm) as Had. revert Had Hr Hr'. unfold admits, is_ready, inc_at. cbn.
    destruct (k_state k), st; done.
  - revert Hr'. unfold holds, is_ready. cbn. by destruct st.
  - revert Hr'. unfold is_ready. cbn. intros Hr' E. by rewrite E in Hr'.
  - intros _ j kj Hj Hw. by destruct (Hno j kj).
  - intros j kj Hj Hw. by destruct (Hno j kj).
  - intros Hd _. exact (li_all _ _ _ _ Hl i k Hi Hd Hr).
Qed.

Lemma po_server e cs F F' i k st a o l :
  proto_ok e cs F → cs !! i = Some k → acting e i k → srv_at e k = i → st ≠ ALGOPR_LOCKSERVER_STATE_STANDBY →
  Forall (lock_demand_of e i k) l → (st = ALGOPR_LOCKSERVER_STATE_WAIT_ALL_OK → a ⊆ mem_of e k) → (∀ m, m ∈ F' → m ∈ F) →
  proto_ok e (<[i := set_server k st a o l]> cs) F'.
Proof.
  intros Hp Hi Ha Hs Hst Hl Hac HF. apply (po_change e cs F _ i k); [done|done|done| |intros m Hm; left; auto].
  apply co_set_server; try done. by apply (po_core _ _ _ Hp).
Qed.

Lemma act_lock_grant e cs m R i k q :
  good e cs (m :: R) → cs !! i = Some k → accepts e i k m → type m = ALGOPR_MESSAGE_LOCK →
  k_state k = ALGOPR_LOCKSERVER_STATE_READY_UNLOCKED →
  good e (<[i := set_server k ALGOPR_LOCKSERVER_STATE_READY_LOCKED (k_acked k) (from m) (k_locks k)]> cs)
    (sentto e [a_msg e i k ALGOPR_MESSAGE_LOCKED (from m) q None] ++ R).
Proof.
  intros [Hp (t & Hl & Hex)] Hi Ha Hty Hst. pose proof (list_elem_of_here m R) as Hm. pose proof (po_msg _ _ _ Hp m Hm) as Ho.
  destruct (lock_flags _ _ _ Ho Hty) as [_ Hto]. pose proof (accepts_server e cs _ Hp m i k Hm Hi Ha Hto) as Hsrv.
  pose proof (li_holds _ _ _ _ Hl i k Hi) as Hh. unfold holds in Hh. rewrite Hst in Hh. subst t.
  set (k' := set_server _ _ _ _ _). apply (good_grant e _ R i k'); try done.
  - apply (po_server e cs (m :: R)); try done; [apply running_acting, Ha|apply (po_core _ _ _ Hp i k Hi)|intros; by right].
  - apply li_ready_change; [|done|unfold is_ready; by rewrite Hst|done].
    eapply li_remove; [|done]. intros [Htk _]. destruct (lock_plain m Hty). congruence.
  - apply lookup_insert_eq.
  - apply (running_acting e i k), Ha.
  - exact (accepts_member e cs _ i k m Hp Hm Hi Ha).
Qed.

(** ** A release *)

Lemma unlock_facts e cs m R t i k :
  proto_ok e cs (m :: R) → lock_inv e cs (m :: R) t → cs !! i = Some k → accepts e i k m → type m = ALGOPR_MESSAGE_UNLOCK →
  k_state k = ALGOPR_LOCKSERVER_STATE_READY_LOCKED ∧ k_owner k = from m ∧ lock_inv e cs R NoTok ∧ i = srv_at e k.
Proof.
  intros Hp Hl Hi Ha Hty. pose proof (list_elem_of_here m R) as Hm. pose proof (po_msg _ _ _ Hp m Hm) as Ho.
  assert (Hu : is_unlock m = true) by (unfold is_unlock; by rewrite Hty).
  assert (Hlive : live_tok e cs m) by (eapply accepts_live; eauto; unfold is_tok; rewrite Hu; apply orb_true_r).
  assert (t = TRelease m) as ->.
  { destruct (live_kind _ _ _ _ m Hl Hm Hlive) as [[_ Hg]|[? _]]; [|done]. revert Hg. unfold is_grant. by rewrite Hty. }
  pose proof (unlock_flags _ _ _ Ho Hu) as Hto. pose proof (accepts_serves e cs _ Hp m i k Hm Hi Ha Hto) as Hst.
  pose proof (li_holds _ _ _ _ Hl i k Hi) as Hh. pose proof (li_admits _ _ _ _ Hl i k m Hi Hm) as Had. unfold holds, admits in *.
  destruct (k_state k) eqn:Es; [done| |done|].
  - destruct Had as (_ & Hn & _). destruct (Hn Hu (ac_to _ _ _ _ Ha)). apply Ha.
  - split; [done|]. split; [symmetry; by apply Hh|]. split; [by eapply li_take|]. by eapply (accepts_server e cs _ Hp).
Qed.

Lemma act_unlock_last e cs m R i k :
  good e cs (m :: R) → cs !! i = Some k → accepts e i k m → type m = ALGOPR_MESSAGE_UNLOCK → k_locks k = [] →
  good e (<[i := set_server k ALGOPR_LOCKSERVER_STATE_READY_UNLOCKED (k_acked k) (k_owner k) (k_locks k)]> cs) R.
Proof.
  intros [Hp (t & Hl & Hex)] Hi Ha Hty Hlo. destruct (unlock_facts e cs m R t i k Hp Hl Hi Ha Hty) as (Hst & Hown & HlR & Hsrv).
  assert (Hr : is_ready k = true) by (unfold is_ready; by rewrite Hst). split.
  - apply (po_server e cs (m :: R)); try done; [apply running_acting, Ha|rewrite Hlo; constructor|intros; by right].
  - exists NoTok. split; [by apply li_ready_change|]. intros kx Hx Hd Hs.
    apply lookup_insert_Some in Hx as [[_ <-]|[Hne Hx]]; [done|]. destruct Hne.
    apply (ready_unique e cs _ Hp t i _ k kx); try done. unfold is_ready. by rewrite Hs.
Qed.

Lemma act_unlock_next e cs m R i k q m' l :
  good e cs (m :: R) → cs !! i = Some k → accepts e i k m → type m = ALGOPR_MESSAGE_UNLOCK → k_locks k = m' :: l →
  good e (<[i := set_server k ALGOPR_LOCKSERVER_STATE_READY_LOCKED (k_acked k) (from m') l]> cs)
    (sentto e [a_msg e i k ALGOPR_MESSAGE_LOCKED (from m') q None] ++ R).
Proof.
  intros [Hp (t & Hl & Hex)] Hi Ha Hty Hlo. destruct (unlock_facts e cs m R t i k Hp Hl Hi Ha Hty) as (Hst & Hown & HlR & Hsrv).
  pose proof (co_locks _ _ _ (po_core _ _ _ Hp i k Hi)) as Hlocks. rewrite Hlo in Hlocks. apply Forall_cons in Hlocks as [(_ & _ & _ & Hmem) Hlocks].
  set (k' := set_server _ _ _ _ _). apply (good_grant e _ R i k'); try done.
  - apply (po_server e cs (m :: R)); try done; [apply running_acting, Ha|intros; by right].
  - apply li_ready_change; [done|done|unfold is_ready; by rewrite Hst|done].
  - apply lookup_insert_eq.
  - apply (running_acting e i k), Ha.
Qed.

(** ** A node is ready *)

Lemma ok_facts e cs m R t i k :
  proto_ok e cs (m :: R) → lock_inv e cs (m :: R) t → cs !! i = Some k → accepts e i k m → type m = ALGOPR_MESSAGE_LOCKSERVER_OK →
  k_state k = ALGOPR_LOCKSERVER_STATE_WAIT_ALL_OK ∧ from m ∉ k_acked k ∧ clear t (from m) ∧ i = srv_at e k ∧
  (is_done k = true → (2 <= stage_of cs (from m))%nat) ∧ lock_inv e cs R t.
Proof.
  intros Hp Hl Hi Ha Hty. pose proof (list_elem_of_here m R) as Hm. pose proof (po_msg _ _ _ Hp m Hm) as Ho.
  assert (Hok : is_ok m = true) by (unfold is_ok; by rewrite Hty). pose proof (ok_flags e cs m Ho Hok) as Hto.
  pose proof (accepts_serves e cs _ Hp m i k Hm Hi Ha Hto) as Hst. pose proof (accepts_server e cs _ Hp m i k Hm Hi Ha Hto) as Hsrv.
  pose proof (li_admits _ _ _ _ Hl i k m Hi Hm) as Had. unfold admits in Had. destruct Ha as [Ht Hr Hinc].
  assert (Es : k_state k = ALGOPR_LOCKSERVER_STATE_WAIT_ALL_OK) by (destruct (k_state k); [done|done|by destruct (Had Hok Ht)..]).
  rewrite Es in Had. destruct Had as [Hna _]. split; [done|]. split; [intros Hin; by apply (Hna Hok Ht Hin)|]. split; [|split; [done|split]].
  - apply (li_oks _ _ _ _ Hl m Hm Hok); [by eapply accepts_hears|by eapply accepts_arrives].
  - intros Hd. pose proof (running_from _ _ _ Hp m i k Hm Hi Ht Hr Hd) as Hfn. apply (mo_member _ _ _ Ho Hfn). rewrite Hinc, Ht.
    unfold inc_at. rewrite Hd. apply inc_sym, Hp.
  - eapply li_remove; [|done]. intros [Htk _]. apply tok_not_xchg in Htk as [_ Hn]. congruence.
Qed.

(** A "ready" that has not come yet is not from one of the nodes that are ready. *)
Lemma acked_admits e cs m R t i k m' :
  proto_ok e cs (m :: R) → lock_inv e cs (m :: R) t → cs !! i = Some k → accepts e i k m → type m = ALGOPR_MESSAGE_LOCKSERVER_OK →
  m' ∈ R → is_ok m' = true → to m' = i → from m' ∈ {[from m]} ∪ k_acked k → tinc m' ≠ inc_at e i k (from m').
Proof.
  intros Hp Hl Hi Ha Hty Hm' Hok' Ht' Hin Hc. destruct (ok_facts e cs m R t i k Hp Hl Hi Ha Hty) as (Hst & _).
  apply elem_of_union in Hin as [Hin%elem_of_singleton|Hin].
  - destruct Ha as [Ht _ Hinc]. apply (ok_unique e cs m m' R t Hl); [unfold is_ok; by rewrite Hty|done|done|done|congruence|]. rewrite Hinc, Hc, Hin. done.
  - pose proof (li_admits _ _ _ _ Hl i k m' Hi (list_elem_of_further _ _ _ Hm')) as Had. unfold admits in Had. rewrite Hst in Had.
    destruct Had as [Hna _]. by apply (Hna Hok' Ht' Hin).
Qed.

Lemma act_ok_more e cs m R i k o :
  good e cs (m :: R) → cs !! i = Some k → accepts e i k m → type m = ALGOPR_MESSAGE_LOCKSERVER_OK →
  good e (<[i := set_server k ALGOPR_LOCKSERVER_STATE_WAIT_ALL_OK ({[from m]} ∪ k_acked k) o (k_locks k)]> cs) R.
Proof.
  intros [Hp (t & Hl & Hex)] Hi Ha Hty. destruct (ok_facts e cs m R t i k Hp Hl Hi Ha Hty) as (Hst & Hna & Hcl & Hsrv & Hd2 & HlR).
  pose proof (list_elem_of_here m R) as Hm. pose proof (accepts_member e cs _ i k m Hp Hm Hi Ha) as Hmem.
  pose proof (po_core _ _ _ Hp i k Hi) as Hc. set (k' := set_server _ _ _ _ _). split.
  - apply (po_server e cs (m :: R)); try done; [apply running_acting, Ha|apply Hc| |intros; by right].
    intros _ j [->%elem_of_singleton|Hj]%elem_of_union; [done|by apply Hc].
  - exists t. split; [|intros kx Hx Hd Hs; apply lookup_insert_Some in Hx as [[_ <-]|[Hne Hx]]; [done|]].
    + apply (li_serve e cs i k k'); try done.
      * intros m' Hm'. pose proof (li_admits _ _ _ _ HlR i k m' Hi Hm') as Had. unfold admits in *. rewrite Hst in Had. cbn.
        destruct Had as (_ & Hu & Hg). split_and!; [|exact Hu|exact Hg]. intros Hok' Ht' Hin'.
        exact (acked_admits e cs m R t i k m' Hp Hl Hi Ha Hty Hm' Hok' Ht' Hin').
      * pose proof (li_holds _ _ _ _ Hl i k Hi) as Hh. unfold holds in *. rewrite Hst in Hh. cbn.
        intros j [->%elem_of_singleton|Hj]%elem_of_union; [done|auto].
      * intros _ Hd j. cbn. intros [->%elem_of_singleton|Hj]%elem_of_union; [auto|]. by apply (li_acked _ _ _ _ Hl i k).
      * intros j kj Hj Hw Hb Hs Hdd. pose proof (li_ready _ _ _ _ Hl i j k kj Hi Hj Hw Hb Hs Hdd) as E. by rewrite Hst in E.
      * intros Hn Hs. destruct (li_new _ _ _ _ Hl Hn) as (kx & Hx & _ & E). rewrite <- Hs in Hx. simplify_eq. by rewrite Hst in E.
    + specialize (Hex kx Hx Hd Hs). destruct t as [| |j|]; try done. destruct Hex as (kj & Hj & Hdj & Hbj).
      destruct (decide (i = j)) as [<- |Hn]; [exists k'|exists kj; by rewrite lookup_insert_ne].
      rewrite lookup_insert_eq. simplify_eq. done.
Qed.

(** *** All the nodes are ready *)

Section all_ready.
Context (e : env) (cs : gmap Z (core X P)) (F : list (algopr_message_t P)) (t : @token P) (i : Z) (k : core X P).
Context (Hp : proto_ok e cs F) (Hl : lock_inv e cs F t) (Hi : cs !! i = Some k).
Context (Hst : k_state k = ALGOPR_LOCKSERVER_STATE_WAIT_ALL_OK) (Hsrv : i = srv_at e k).
Hypothesis Hdone : is_done k = true → ∀ j kj, cs !! j = Some kj → is_done kj = true.
Hypothesis Hclear : ∀ j, j ∈ mem_of e k → clear t j.

Lemma all_ready_old : ¬ new_tok e cs t.
Proof using k i Hst Hsrv Hl Hi F.
  intros Hn. destruct (li_new _ _ _ _ Hl Hn) as (kx & Hx & Hd & Hs).
  pose proof (li_all _ _ _ _ Hl _ kx Hx Hd ltac:(unfold is_ready; by rewrite Hs) i k Hi) as Hk.
  unfold srv_at in Hsrv. rewrite Hk in Hsrv. rewrite <- Hsrv in Hx. simplify_eq. by rewrite Hst in Hs.
Qed.

Lemma all_ready_live m : m ∈ F → live_tok e cs m → False.
Proof using t k i Hst Hsrv Hp Hl Hi Hdone Hclear.
  intros Hm (Htk & Hh & Ha). pose proof (po_msg _ _ _ Hp m Hm) as Ho. pose proof (po_env _ _ _ Hp) as He.
  pose proof (mo_to _ _ _ Ho) as Hto. destruct (new_dom _ _ _ Hp _ Hto) as [ky Hy].
  assert (Ht : toks t = [m]) by (by eapply live_perm).
  assert (Hnew : from m ∈ e_new e → tinc m = e_inc e (from m) (to m) → False).
  { intros H1 H2. apply all_ready_old. destruct t; cbn in Ht; simplify_eq; done. }
  unfold arrives in Ha. rewrite Hy in Ha. destruct (is_done ky) eqn:Hdy.
  - destruct Hh as [Hfn|Hz]; [|apply (done_stage cs _ _ Hy) in Hdy; lia]. apply Hnew; [done|].
    destruct (mo_member _ _ _ Ho Hfn) as [Hle _]. unfold inc_at in Ha. rewrite Hdy, (inc_sym e _ _ He) in Ha. lia.
  - assert (Hle : tinc m <= e_oldinc e (from m) (to m)).
    { destruct (decide (from m ∈ e_new e)) as [Hfn|Hfn]; [|by apply (mo_gone _ _ _ Ho)].
      destruct (mo_member _ _ _ Ho Hfn) as [Hle _]. specialize (Hnew Hfn). rewrite inc_member in Hle, Hnew by done. lia. }
    unfold inc_at in Ha. rewrite Hdy, (oldinc_sym e _ _ He) in Ha. pose proof (mo_pos _ _ _ Ho).
    destruct (oldinc_pos e (from m) (to m) He) as [Hof Hot]; [lia|].
    assert (Hk : is_done k = false) by (destruct (is_done k) eqn:E; [|done]; by rewrite (Hdone eq_refl _ ky Hy) in Hdy).
    unfold mem_of in Hclear. rewrite Hk in Hclear. pose proof (li_kind _ _ _ _ Hl) as Hkind.
    destruct t as [|g|j|u] eqn:Et; cbn in Ht, Hkind; [done|injection Ht as ->|done|injection Ht as ->].
    + by apply (Hclear _ Hot).
    + unfold srv_at in Hsrv. rewrite Hk in Hsrv. pose proof (unlock_flags _ _ _ Ho Hkind) as Hfl.
      assert (Ey : to m = i) by (rewrite Hsrv; apply (mo_old_server _ _ _ Ho Hfl); lia).
      pose proof (li_admits _ _ _ _ Hl i k m Hi Hm) as Had. unfold admits in Had. rewrite Hst in Had. destruct Had as (_ & Hn & _).
      apply (Hn Hkind Ey). unfold inc_at. rewrite Hk, (oldinc_sym e i _ He), <- Ey. lia.
Qed.

Lemma all_ready_wait j : t = TWait j → is_Some (cs !! j) ∨ j ∈ e_old e ∧ is_done k = false → False.
Proof using i Hst Hsrv Hp Hl Hi Hdone Hclear F.
  intros Et Hj. pose proof Hclear as Hc. rewrite Et in Hc. unfold mem_of in Hc. destruct Hj as [[kj Hj]|[Ho Hk]].
  - destruct (is_done k) eqn:Hk; [by apply (Hc j (dom_new _ _ _ Hp _ _ Hj))|].
    destruct (decide (j ∈ e_old e)) as [Ho|Hn]; [by apply (Hc j Ho)|].
    destruct (li_wait _ _ _ _ Hl j kj Hj (li_waits _ _ _ _ Hl j kj Et Hj)) as [_ Hro]. apply all_ready_old. rewrite Et. exists kj.
    split; [done|]. by apply (ro_first _ _ _ Hro).
  - rewrite Hk in Hc. by apply (Hc j Ho).
Qed.

Lemma all_ready_free : lock_inv e cs F NoTok.
Proof using t k i Hst Hsrv Hp Hl Hi Hdone Hclear.
  apply (li_none e cs F t); [| | |done].
  - intros j kj Hj Hw. destruct (li_wait _ _ _ _ Hl j kj Hj Hw) as [Et _]. apply (all_ready_wait j Et). left. by eexists.
  - intros m Hm Hh Hx. destruct (li_xchg _ _ _ _ Hl m Hm Hh Hx) as [Et _]. apply (all_ready_wait _ Et).
    destruct (decide (x_owner m ∈ e_new e)) as [Hn|Hn]; [left; by apply (po_dom _ _ _ Hp)|right].
    pose proof (mo_to _ _ _ (po_msg _ _ _ Hp m Hm)) as Hto. split; [destruct (li_dead _ _ _ _ Hl _ Et); done|].
    unfold x_owner in Hn. case_bool_decide; [|done]. destruct Hh as [|Hz]; [done|]. destruct (new_dom _ _ _ Hp _ Hto) as [ky Hy].
    destruct (is_done k) eqn:Hk; [|done]. pose proof (Hdone eq_refl _ ky Hy) as Hd. apply (done_stage cs _ _ Hy) in Hd. lia.
  - apply filter_none, Forall_forall. intros m Hm Hlive. by apply (all_ready_live m).
Qed.
End all_ready.

Lemma act_ok_all e cs m R i k o q :
  good e cs (m :: R) → cs !! i = Some k → accepts e i k m → type m = ALGOPR_MESSAGE_LOCKSERVER_OK →
  mem_of e k = {[from m]} ∪ k_acked k → o ∈ mem_of e k →
  good e (<[i := set_server k ALGOPR_LOCKSERVER_STATE_READY_LOCKED ({[from m]} ∪ k_acked k) o (k_locks k)]> cs)
    (sentto e [a_msg e i k ALGOPR_MESSAGE_LOCK_UPDATE_OTHER_NODE o q None] ++ R).
Proof.
  intros [Hp (t & Hl & Hex)] Hi Ha Hty Hall Ho. destruct (ok_facts e cs m R t i k Hp Hl Hi Ha Hty) as (Hst & Hna & Hcl & Hsrv & Hd2 & HlR).
  assert (HpR : proto_ok e cs R) by (eapply po_sub; [|exact Hp]; intros; by right). set (k' := set_server _ _ _ _ _).
  assert (Hdone : is_done k = true → ∀ j kj, cs !! j = Some kj → is_done kj = true).
  { intros Hd j kj Hj. apply (done_stage cs j kj Hj). pose proof (dom_new _ _ _ Hp _ _ Hj) as Hjn. unfold mem_of in Hall. rewrite Hd in Hall.
    rewrite Hall in Hjn. apply elem_of_union in Hjn as [->%elem_of_singleton|Hjn]; [auto|]. by apply (li_acked _ _ _ _ Hl i k). }
  assert (Hfree : lock_inv e cs R NoTok).
  { apply (all_ready_free e cs R t i k); try done. rewrite Hall. pose proof (li_holds _ _ _ _ Hl i k Hi) as Hh. unfold holds in Hh. rewrite Hst in Hh.
    intros j [->%elem_of_singleton|Hj]%elem_of_union; [done|auto]. }
  assert (Hno : ∀ j kj, cs !! j = Some kj → k_wait kj = true → False) by (intros j kj Hj Hw; by destruct (li_wait _ _ _ _ Hfree j kj Hj Hw)).
  apply (good_grant e _ R i k'); try done.
  - apply (po_server e cs R); try done; [apply running_acting, Ha|apply (po_core _ _ _ Hp i k Hi)].
  - apply (li_serve e cs i k k'); try done.
    + intros m' Hm'. unfold admits. cbn. intros Hok' Ht' Hc.
      apply (acked_admits e cs m R t i k m' Hp Hl Hi Ha Hty Hm' Hok' Ht'); [|done]. rewrite <- Hall.
      unfold inc_at in Hc. change (is_done k') with (is_done k) in Hc. pose proof (mo_pos _ _ _ (po_msg _ _ _ HpR m' Hm')). unfold mem_of.
      destruct (is_done k); [apply (inc_pos e i (from m') (po_env _ _ _ Hp))|apply (oldinc_pos e i (from m') (po_env _ _ _ Hp))]; cbn in Hc; lia.
    + intros _ j kj Hj Hw. by destruct (Hno j kj).
    + intros Hd _. by apply Hdone.
  - apply lookup_insert_eq.
  - apply (running_acting e i k), Ha.
Qed.
End serve.
