(* ===== verification/PrLockRecover.v ===== *)
(** * Recoveries in the protocol of the reservation lock

    A node is suspended, told the membership and resumed; nodes leave and join.
    Each of these steps keeps the invariant [good] of the protocol. *)

From S2P Require Import Prelude Nodeset PrLock PrLockProto PrLockAct PrLockStep PrLockServe.
From stdpp Require Import options.

Section recover.
Context {X P : Type}.
Implicit Types (k kx kj : core X P) (cs : gmap Z (core X P)) (m : algopr_message_t P) (F R L : list (algopr_message_t P)).

Abbreviation to := to_node_id.
Abbreviation from := from_node_id.
Abbreviation tinc := to_membership_incarnation.

Local Ltac pick H := apply lookup_insert_Some in H as [[<- <-]|[? H]].

(** ** Messages that are dropped *)

Lemma good_filter e cs F L (Q : algopr_message_t P → Prop) `{!∀ m, Decision (Q m)} :
  (∀ m, m ∈ F → live_tok e cs m → from m ∈ e_new e → Q m) → good e cs (F ++ L) → good e cs (filter Q F ++ L).
Proof.
  revert L. induction F as [|m F IH]; intros L HQ Hg; [done|]. rewrite filter_cons.
  assert (HQ' : ∀ m', m' ∈ F → live_tok e cs m' → from m' ∈ e_new e → Q m') by (intros; apply HQ; [by right|done..]).
  case_decide as Hq.
  - cbn. apply (good_perm e cs (filter Q F ++ (m :: L))); [solve_Permutation|]. apply (IH (m :: L) HQ').
    apply (good_perm e cs (m :: F ++ L)); [solve_Permutation|done].
  - apply (IH L HQ'), (good_remove e cs m); [|done]. intros Hl Hf. apply Hq, HQ; [by left|done..].
Qed.

(** ** A node is suspended, a node is resumed *)

Definition set_stage k (n : nat) : core X P :=
  mk_core n (k_wait k) (k_read k) (k_ok k) (k_beg k) (k_pending k) (k_seq k) (k_state k) (k_acked k) (k_owner k) (k_locks k) (k_ctx k).

Section stage.
Context (e : env) (cs : gmap Z (core X P)) (i : Z) (k : core X P) (n : nat).
Context (Hi : cs !! i = Some k) (Hd : is_done (set_stage k n) = is_done k) (Hn : n ≠ 0%nat) (Hle : (k_stage k <= n)%nat).
Let k' := set_stage k n.
Let cs' := <[i := k']> cs.

Lemma stage_le j : (stage_of cs j <= stage_of cs' j)%nat.
Proof using Hle Hi.
  unfold stage_of, cs'. destruct (decide (i = j)) as [<- |Hne]; [by rewrite lookup_insert_eq, Hi|by rewrite lookup_insert_ne].
Qed.

Lemma stage_two j : (2 <= stage_of cs' j)%nat ↔ (2 <= stage_of cs j)%nat.
Proof using Hi Hd.
  unfold stage_of, cs'. destruct (decide (i = j)) as [<- |Hne]; [|by rewrite lookup_insert_ne]. rewrite lookup_insert_eq, Hi.
  change (k_stage k') with n. rewrite <- !Nat.leb_le. by rewrite (Hd : (2 <=? n)%nat = (2 <=? k_stage k)%nat).
Qed.

Lemma stage_hears m : hears e cs' m → hears e cs m.
Proof using Hn Hle Hi. intros [?|Hz]; [by left|right]. pose proof (stage_le (to m)). lia. Qed.

Lemma stage_hears_eq m : hears e cs' m ↔ hears e cs m ∧ (to m = i → from m ∈ e_new e).
Proof using Hn Hle Hi.
  split.
  - intros Hh. split; [by apply stage_hears|]. intros E. destruct Hh as [|Hz]; [done|]. unfold stage_of, cs' in Hz.
    by rewrite E, lookup_insert_eq in Hz.
  - intros [[?|Hz] Hf]; [by left|]. destruct (decide (to m = i)) as [E|Hne]; [left; auto|right]. unfold stage_of, cs'.
    by rewrite lookup_insert_ne.
Qed.

Lemma stage_arrives m : arrives e cs' m ↔ arrives e cs m.
Proof using Hi Hd.
  unfold arrives, cs'. destruct (decide (i = to m)) as [<- |Hne]; [|by rewrite lookup_insert_ne].
  rewrite lookup_insert_eq, Hi. unfold inc_at. unfold k'. by rewrite Hd.
Qed.

Lemma stage_new t : new_tok e cs' t ↔ new_tok e cs t.
Proof using Hi Hd.
  destruct t as [|m|j|m]; try done. cbn. split.
  - intros (kj & Hj & Hdj & Hb). pick Hj; [exists k|by exists kj]. split; [done|]. split; [|done]. etransitivity; [symmetry; exact Hd|exact Hdj].
  - intros (kj & Hj & Hdj & Hb). destruct (decide (i = j)) as [<- |Hne]; [exists k'|exists kj; unfold cs'; by rewrite lookup_insert_ne].
    simplify_eq. unfold cs'. rewrite lookup_insert_eq. split; [done|]. split; [|done]. etransitivity; [exact Hd|done].
Qed.

Lemma li_stage F t t' :
  t' = t ∨ t' = NoTok ∧ (∀ j, t ≠ TWait j) → filter (live_tok e cs') F ≡ₚ toks t' →
  lock_inv e cs F t → lock_inv e cs' F t'.
Proof using Hn Hle Hi Hd.
  intros Ht HF Hl.
  assert (Htw : ∀ j, t = TWait j → t' = TWait j) by (intros j Ej; destruct Ht as [-> |[_ Hno]]; [done|by destruct (Hno j)]).
  assert (Hcl : ∀ j, clear t j → clear t' j) by (intros j; destruct Ht as [-> |[-> _]]; done).
  assert (Hho : ∀ kx, holds t kx → holds t' kx) by (intros kx; destruct Ht as [-> |[-> _]]; [done|apply holds_no]).
  assert (Hnw : new_tok e cs' t' → new_tok e cs t) by (rewrite stage_new; destruct Ht as [-> |[-> _]]; done).
  assert (Hinc : ∀ j, inc_at e i k' j = inc_at e i k j) by (intros j; unfold inc_at, k'; by rewrite Hd).
  pose proof (Hd : is_done k' = is_done k) as Hd'. destruct Hl. split.
  - done.
  - destruct Ht as [-> |[-> _]]; done.
  - intros j kj Hj Hw. pick Hj.
    + destruct (li_wait i k Hi Hw) as [Et Hro]. split; [auto|]. destruct Hro. split; unfold mem_of, inc_at; rewrite ?Hd'; assumption.
    + destruct (li_wait j kj Hj Hw). auto.
  - intros j kj Et Hj. assert (t = TWait j) by (destruct Ht as [<- |[-> _]]; done). pick Hj; [by apply (li_waits i k)|eauto].
  - intros j Et. apply li_dead. destruct Ht as [<- |[-> _]]; done.
  - intros m Hm Hh Hx. destruct (li_xchg m Hm (stage_hears m Hh) Hx) as [Et Hk]. split; [auto|]. intros kj Hj.
    apply lookup_insert_Some in Hj as [[E <-]|[_ Hj]]; [|eauto]. rewrite <- E in Hk. exact (Hk k Hi).
  - intros a b. etransitivity; [|apply (li_once a b)]. apply filter_length_mono. intros m _ (Hh & Hm). split; [by apply stage_hears|done].
  - intros x kx m Hx Hm. pick Hx; [|eauto]. pose proof (li_admits i k m Hi Hm) as Had. unfold admits in *. cbn. rewrite !Hinc. done.
  - intros x kx Hx. apply Hho. pick Hx; [exact (li_holds i k Hi)|eauto].
  - intros x kx j Hx. rewrite stage_two. pick Hx; [|eauto]. rewrite Hd'. exact (li_acked i k j Hi).
  - intros m Hm Ho Hh. rewrite stage_arrives. intros Ha. apply Hcl, li_oks; auto using stage_hears.
  - done.
  - intros j kj m Hj. pick Hj; [|eauto]. rewrite !Hinc. exact (li_late i k m Hi).
  - intros x j kx kj Hx Hj. pick Hx; pick Hj; rewrite ?Hd', ?Hinc;
      [exact (li_beg i i k k Hi Hi)|exact (li_beg i j k kj Hi Hj)|exact (li_beg x i kx k Hx Hi)|exact (li_beg x j kx kj Hx Hj)].
  - intros x j kx kj Hx Hj. unfold srv_at. pick Hx; pick Hj; rewrite ?Hd', ?Hinc;
      [exact (li_ready i i k k Hi Hi)|exact (li_ready i j k kj Hi Hj)|exact (li_ready x i kx k Hx Hi)|exact (li_ready x j kx kj Hx Hj)].
  - intros Hn'. destruct (li_new (Hnw Hn')) as (kx & Hx & Hdx & Hsx).
    destruct (decide (i = e_srv e)) as [E|Hne]; [exists k'|exists kx; unfold cs'; by rewrite lookup_insert_ne].
    unfold cs'. rewrite <- E in Hx |- *. rewrite lookup_insert_eq, Hd'. simplify_eq. done.
  - intros x kx Hx Hdx Hrx j kj Hj. pick Hx; pick Hj; rewrite ?Hd' in *; [done|exact (li_all i k Hi Hdx Hrx j kj Hj)|exact (li_all x kx Hx Hdx Hrx i k Hi)|eauto].
Qed.

Lemma stage_filter F : filter (live_tok e cs') F = filter (λ m, to m = i → from m ∈ e_new e) (filter (live_tok e cs) F).
Proof using Hn Hle Hi Hd.
  rewrite list_filter_filter. apply list_filter_iff. intros m. unfold live_tok. rewrite stage_hears_eq, stage_arrives. tauto.
Qed.

Lemma li_stage_tok F t :
  lock_inv e cs F t → ∃ t', lock_inv e cs' F t' ∧ (t' = t ∨ t' = NoTok) ∧ (new_tok e cs t → t' = t).
Proof using Hn Hle Hi Hd.
  intros Hl. assert (HF : filter (live_tok e cs') F ≡ₚ filter (λ m, to m = i → from m ∈ e_new e) (toks t))
    by (rewrite stage_filter; by rewrite (li_tok _ _ _ _ Hl)).
  pose proof (li_kind _ _ _ _ Hl) as Hk.
  assert (Hsame : filter (λ m, to m = i → from m ∈ e_new e) (toks t) = toks t → lock_inv e cs' F t).
  { intros E. apply (li_stage F t t); [by left| |done]. by rewrite HF, E. }
  destruct t as [|m|j|m]; [exists NoTok; auto| |exists (TWait j); auto|];
    (destruct (decide (to m = i → from m ∈ e_new e)) as [Hq|Hq];
     [eexists; split; [apply Hsame; cbn [toks]; by rewrite filter_cons_True|auto]|]);
    exists NoTok; (split; [eapply li_stage; [| |exact Hl]; [right; split; [done|by intros j]|]; rewrite HF; cbn [toks]; by rewrite filter_cons_False|]);
    (split; [auto|]); intros [Hfn _]; destruct Hq; auto.
Qed.

Lemma po_stage F :
  (n <= 3)%nat → (n < 3)%nat ∨ (∀ m, m ∈ F → to m = i → from m ∈ e_new e) → proto_ok e cs F → proto_ok e cs' F.
Proof using Hi Hd.
  intros Hn3 Hgone Hp. pose proof (Hd : is_done k' = is_done k) as Hd'. destruct Hp. split; try done.
  - intros j. rewrite <- po_dom. unfold cs'. destruct (decide (i = j)) as [<- |Hne]; [|by rewrite lookup_insert_ne].
    rewrite lookup_insert_eq, Hi. split; by eexists.
  - intros j kj Hj. pick Hj; [|auto]. destruct (po_core i k Hi). split; unfold srv_at, mem_of in *; rewrite ?Hd'; try done.
    eapply Forall_impl; [done|]. unfold lock_demand_of, mem_of. by rewrite Hd'.
  - intros m Hm. pose proof (po_msg m Hm) as Ho. destruct Ho. split; try done.
    + intros Hf. destruct (mo_member Hf) as [? Hc]. split; [done|]. intros E. by apply stage_two, Hc.
    + intros Hf. destruct (mo_gone Hf) as [Hlt ?]. split; [|done]. unfold stage_of, cs' in *.
      destruct (decide (i = to m)) as [E|Hne]; [|by rewrite lookup_insert_ne]. rewrite <- E, lookup_insert_eq. cbn.
      destruct Hgone as [|Hgone]; [done|]. by destruct Hf; apply Hgone.
Qed.
End stage.

Lemma good_stage e cs F i k n :
  good e cs F → cs !! i = Some k → is_done (set_stage k n) = is_done k → n ≠ 0%nat → (k_stage k <= n <= 3)%nat →
  (n < 3)%nat ∨ (∀ m, m ∈ F → to m = i → from m ∈ e_new e) → good e (<[i := set_stage k n]> cs) F.
Proof.
  intros [Hp (t & Hl & Hex)] Hi Hd Hn [Hle Hn3] Hgone. split; [by apply po_stage|].
  destruct (li_stage_tok e cs i k n Hi Hd Hn Hle F t Hl) as (t' & Hl' & _ & Ht'). exists t'. split; [done|].
  intros kx Hx Hdx Hsx. assert (Hnew : new_tok e cs t).
  { apply lookup_insert_Some in Hx as [[E <-]|[_ Hx]]; [|by apply (Hex kx)]. apply (Hex k); [by rewrite <- E|by rewrite <- Hd|done]. }
  rewrite (Ht' Hnew). by apply stage_new.
Qed.

(** ** A node is told the membership *)

Definition renew e (i : Z) k (w : bool) (q : Z) : core X P :=
  mk_core 2 w (k_read k ∩ e_new e) (k_ok k ∩ e_new e) (k_beg k) (k_pending k) q
    (if e_srv e =? i then ALGOPR_LOCKSERVER_STATE_WAIT_ALL_OK else ALGOPR_LOCKSERVER_STATE_STANDBY) ∅ (k_owner k) [] (k_ctx k).

Section member.
Context (e : env) (cs : gmap Z (core X P)) (F : list (algopr_message_t P)) (i : Z) (k : core X P) (t : @token P).
Context (Hp : proto_ok e cs F) (Hl : lock_inv e cs F t) (Hi : cs !! i = Some k) (Hs : k_stage k = 1%nat).
Let k' := renew e i k (k_wait k) (k_seq k).
Let cs' := <[i := k']> cs.

Lemma member_done : is_done k = false.
Proof using Hs. unfold is_done. by rewrite Hs. Qed.

(** The server of the new membership is not ready: it waits for this node. *)
Lemma member_not_ready x kx : cs !! x = Some kx → is_done kx = true → is_ready kx = true → False.
Proof using t k i e Hs Hl Hi F. intros Hx Hd Hr. pose proof (li_all _ _ _ _ Hl x kx Hx Hd Hr i k Hi) as E. by rewrite member_done in E. Qed.

Lemma member_old : ¬ new_tok e cs t.
Proof using k' k i cs' Hs Hl Hi F.
  intros Hn. destruct (li_new _ _ _ _ Hl Hn) as (kx & Hx & Hd & Hst). apply (member_not_ready _ kx Hx Hd). unfold is_ready. by rewrite Hst.
Qed.

Lemma member_stage w q j : (stage_of cs j <= stage_of (<[i := renew e i k w q]> cs) j)%nat.
Proof using Hs Hi.
  unfold stage_of. destruct (decide (i = j)) as [<- |Hne]; [rewrite lookup_insert_eq, Hi, Hs; cbn; lia|by rewrite lookup_insert_ne].
Qed.

Lemma member_hears m : hears e cs' m ↔ hears e cs m.
Proof using Hs Hi.
  unfold hears, stage_of, cs'. destruct (decide (i = to m)) as [<- |Hne]; [|by rewrite lookup_insert_ne].
  rewrite lookup_insert_eq, Hi, Hs. cbn. split; (intros [?|?]; [by left|done]).
Qed.

(** No message of the new membership came from this node. *)
Lemma member_sent m : m ∈ F → from m = i → tinc m ≠ e_inc e i (to m).
Proof using k cs X Hs Hp Hi.
  intros Hm <- E. pose proof (po_msg _ _ _ Hp m Hm) as Ho. destruct (mo_member _ _ _ Ho (dom_new _ _ _ Hp _ _ Hi)) as [_ Hc].
  specialize (Hc E). unfold stage_of in Hc. rewrite Hi, Hs in Hc. lia.
Qed.

(** What arrives after has a sender in the membership, and arrived before. *)
Lemma member_arrives m : m ∈ F → hears e cs' m → arrives e cs' m → arrives e cs m ∧ (to m = i → tinc m = e_inc e (from m) i).
Proof using Hs Hp Hi.
  intros Hm Hh Ha. pose proof (po_env _ _ _ Hp) as He. unfold arrives, cs' in *. destruct (decide (i = to m)) as [E|Hne].
  - rewrite <- E, lookup_insert_eq in Ha. rewrite <- E, Hi. unfold inc_at in *. rewrite member_done. change (is_done k') with true in Ha. cbn in Ha.
    assert (Hfn : from m ∈ e_new e).
    { destruct Hh as [|Hz]; [done|]. unfold stage_of in Hz. by rewrite <- E, lookup_insert_eq in Hz. }
    destruct (mo_member _ _ _ (po_msg _ _ _ Hp m Hm) Hfn) as [Hle _]. rewrite <- E in Hle. rewrite (inc_sym e i _ He) in Ha.
    pose proof (inc_member e (from m) i He Hfn (dom_new _ _ _ Hp _ _ Hi)). rewrite (oldinc_sym e i _ He). split; [lia|]. intros _. lia.
  - rewrite lookup_insert_ne in Ha by done. split; [done|]. intros E. by rewrite E in Hne.
Qed.

Lemma member_live m : m ∈ F → live_tok e cs' m → live_tok e cs m ∧ to m ≠ i.
Proof using t Hs Hp Hl Hi.
  intros Hm (Ht & Hh & Ha). destruct (member_arrives m Hm Hh Ha) as [Ha0 Hc]. pose proof (proj1 (member_hears m) Hh) as Hh0.
  assert (Hlive : live_tok e cs m) by done. split; [done|]. intros E. apply member_old. specialize (Hc E).
  assert (Hfn : from m ∈ e_new e).
  { destruct Hh as [|Hz]; [done|]. unfold stage_of, cs' in Hz. by rewrite E, lookup_insert_eq in Hz. }
  destruct (live_kind _ _ _ _ m Hl Hm Hlive) as [[-> _]|[-> _]]; cbn; by rewrite Hc, E.
Qed.

Lemma member_filter : filter (live_tok e cs') F = filter (λ m, to m ≠ i) (filter (live_tok e cs) F).
Proof using t Hs Hp Hl Hi.
  rewrite list_filter_filter. apply filter_ext_in. intros m Hm. split.
  - intros Hlive. by apply and_comm, member_live.
  - intros [Hne (Ht & Hh & Ha)]. split; [done|]. split; [by apply member_hears|]. unfold arrives, cs' in *. by rewrite lookup_insert_ne.
Qed.

Lemma member_reading : k_wait k = true → k_read k ∩ e_new e ≠ k_ok k ∩ e_new e → reading_ok e i k'.
Proof using t cs Hs Hp Hl Hi F.
  intros Hw Hne. destruct (li_wait _ _ _ _ Hl i k Hi Hw) as [_ Hro]. pose proof (dom_new _ _ _ Hp _ _ Hi) as Hin. split.
  - cbn. apply elem_of_intersection. split; [apply Hro|done].
  - cbn. intros j [Hj ?]%elem_of_intersection. apply elem_of_intersection. split; [by apply Hro|done].
  - cbn. intros j [Hj ?]%elem_of_intersection. done.
  - done.
  - cbn. pose proof (ro_beg _ _ _ Hro) as Hb. unfold inc_at in Hb |- *. rewrite member_done in Hb. cbn.
    rewrite inc_member by (done || apply Hp). lia.
  - intros Hno. destruct (ro_first _ _ _ Hro Hno) as [Hd _]. by rewrite member_done in Hd.
Qed.

Lemma member_beg : k_wait k = true → k_beg k ≠ e_inc e i i.
Proof using t cs Hs Hp Hl Hi F.
  intros Hw. destruct (li_wait _ _ _ _ Hl i k Hi Hw) as [_ Hro]. pose proof (ro_beg _ _ _ Hro) as Hb. unfold inc_at in Hb.
  rewrite member_done in Hb. pose proof (dom_new _ _ _ Hp _ _ Hi) as Hin. rewrite inc_member by (done || apply Hp). lia.
Qed.

(** The server of the new membership, when it is this node. *)
Lemma member_admits m : m ∈ F → admits e i k' m.
Proof using t cs' cs Hs Hp Hl Hi.
  intros Hm. unfold admits. cbn. destruct (e_srv e =? i); [|done]. unfold inc_at. cbn. pose proof (po_env _ _ _ Hp) as He.
  pose proof (po_msg _ _ _ Hp m Hm) as Ho. split_and!.
  - intros _ _ Hin. by apply not_elem_of_empty in Hin.
  - intros Hu Ht E. pose proof (mo_pos _ _ _ Ho). destruct (inc_pos e i (from m) He) as [_ Hfn]; [lia|].
    assert (Hlive : live_tok e cs m).
    { split; [unfold is_tok; rewrite Hu; apply orb_true_r|]. split; [by left|]. unfold arrives. rewrite Ht, Hi. unfold inc_at. rewrite member_done.
      rewrite E, inc_member by (done || by eapply dom_new). lia. }
    apply member_old. destruct (live_kind _ _ _ _ m Hl Hm Hlive) as [[-> _]|[-> _]]; cbn; rewrite E, Ht; by rewrite (inc_sym e i).
  - intros _ Hf. by apply member_sent.
Qed.

Lemma li_member t' :
  t' = t ∨ t' = NoTok ∧ (∀ j, t ≠ TWait j) → filter (live_tok e cs') F ≡ₚ toks t' →
  (k_wait k = true → k_read k ∩ e_new e ≠ k_ok k ∩ e_new e) → lock_inv e cs' F t'.
Proof using Hs Hp Hl Hi.
  intros Ht HF Hmore.
  assert (Htw : ∀ j, t = TWait j → t' = TWait j) by (intros j Ej; destruct Ht as [-> |[_ Hno]]; [done|by destruct (Hno j)]).
  assert (Htw' : ∀ j, t' = TWait j → t = TWait j) by (intros j Ej; destruct Ht as [-> |[-> _]]; done).
  assert (Hcl : ∀ j, clear t j → clear t' j) by (intros j; destruct Ht as [-> |[-> _]]; done).
  assert (Hho : ∀ kx, holds t kx → holds t' kx) by (intros kx; destruct Ht as [-> |[-> _]]; [done|apply holds_no]).
  pose proof member_not_ready as Hnr. pose proof member_old as Hold. pose proof member_beg as Hbeg. pose proof (po_env _ _ _ Hp) as He.
  assert (Hnrk : is_ready k' = false) by (unfold is_ready; cbn; by destruct (e_srv e =? i)).
  assert (Hold2 : ∀ j kj, cs !! j = Some kj → k_wait kj = true → is_done kj = true → k_beg kj ≠ e_inc e j j).
  { intros j kj Hj Hw Hd Hb. apply Hold. destruct (li_wait _ _ _ _ Hl j kj Hj Hw) as [-> _]. by exists kj. }
  pose proof Hl as Hl0. destruct Hl0. split.
  - done.
  - destruct Ht as [-> |[-> _]]; done.
  - intros j kj Hj Hw. pick Hj; [|destruct (li_wait j kj Hj Hw); auto].
    destruct (li_wait i k Hi Hw). split; [auto|]. apply member_reading; auto.
  - intros j kj Et Hj. pick Hj; [by apply (li_waits i k); auto|by apply (li_waits j kj); auto].
  - auto.
  - intros m Hm Hh Hx. rewrite member_hears in Hh. destruct (li_xchg m Hm Hh Hx) as [Et Hk]. split; [auto|]. intros kj Hj.
    apply lookup_insert_Some in Hj as [[E <-]|[_ Hj]]; [|eauto]. rewrite <- E in Hk. destruct (Hk k Hi) as [[Hr1 Hr2]%elem_of_difference Hq].
    split; [|done]. cbn. assert (Hpn : x_peer m ∈ e_new e); [|set_solver +Hr1 Hr2 Hpn].
    unfold x_peer, x_owner in *. case_bool_decide; [apply (mo_to _ _ _ (po_msg _ _ _ Hp m Hm))|]. destruct Hh as [|Hz]; [done|].
    unfold stage_of in Hz. by rewrite <- E, Hi, Hs in Hz.
  - intros a b. etransitivity; [|apply (li_once a b)]. apply filter_length_mono. intros m _ (Hh & Hm). split; [by apply member_hears|done].
  - intros x kx m Hx Hm. pick Hx; [by apply member_admits|eauto].
  - intros x kx Hx. pick Hx; [|eauto]. unfold holds. cbn. destruct (e_srv e =? i); [|done]. intros j Hj. by apply not_elem_of_empty in Hj.
  - intros x kx j Hx Hst Hd Hj. pick Hx; [cbn in Hj; by apply not_elem_of_empty in Hj|]. etransitivity; [|apply member_stage]. eauto.
  - intros m Hm Ho Hh Ha. apply Hcl, li_oks; [done|done|by apply member_hears|by apply member_arrives].
  - done.
  - intros j kj m Hj. pick Hj; [|eauto]. intros _ _ Hm _ Hf. by apply member_sent.
  - intros x j kx kj Hx Hj Hr Hw Hd. pick Hx; [congruence|]. pick Hj; [by destruct (Hnr x kx)|eauto].
  - intros x j kx kj Hx Hj Hw Hb Hsx Hd. pick Hj; [by destruct (Hbeg Hw)|]. pick Hx; [|eauto].
    change (true = is_done kj) in Hd. unfold inc_at in Hb. rewrite <- Hd in Hb. by destruct (Hold2 j kj Hj Hw).
  - intros Hn. exfalso. destruct t' as [|m|j|m]; [done| | |].
    + apply Hold. by destruct Ht as [<- |[? _]].
    + destruct Hn as (kj & Hj & Hdj & Hb). pose proof (Htw' j eq_refl) as Et. pick Hj; [by apply (Hbeg (li_waits i k Et Hi))|].
      by apply (Hold2 j kj Hj (li_waits j kj Et Hj)).
    + apply Hold. by destruct Ht as [<- |[? _]].
  - intros x kx Hx Hd Hr. pick Hx; [congruence|]. by destruct (Hnr x kx).
Qed.

Lemma member_tok :
  ∃ t', (t' = t ∨ t' = NoTok ∧ (∀ j, t ≠ TWait j)) ∧ filter (live_tok e cs') F ≡ₚ toks t' ∧ (k_wait k = false → clear t' i).
Proof using Hs Hp Hl Hi.
  assert (HF : filter (live_tok e cs') F ≡ₚ filter (λ m, to m ≠ i) (toks t)) by (rewrite member_filter; by rewrite (li_tok _ _ _ _ Hl)).
  pose proof (li_waits _ _ _ _ Hl i k) as Hwk.
  destruct t as [|m|j|m]; [exists NoTok; split; [by left|]; split; [exact HF|done]| |exists (TWait j)|].
  - destruct (decide (to m ≠ i)) as [Hq|Hq]; [exists (TGrant m)|exists NoTok]; cbn [toks] in *.
    + rewrite filter_cons_True in HF by done. split; [by left|]. split; [exact HF|done].
    + rewrite filter_cons_False in HF by done. split; [right; split; [done|by intros j]|]. split; [exact HF|done].
  - split; [by left|]. split; [done|]. intros Hw ->. by rewrite Hwk in Hw.
  - destruct (decide (to m ≠ i)) as [Hq|Hq]; [exists (TRelease m)|exists NoTok]; cbn [toks] in *.
    + rewrite filter_cons_True in HF by done. split; [by left|]. split; [exact HF|done].
    + rewrite filter_cons_False in HF by done. split; [right; split; [done|by intros j]|]. split; [exact HF|done].
Qed.

Lemma po_member w q : proto_ok e (<[i := renew e i k w q]> cs) F.
Proof using Hs Hp Hi.
  pose proof Hp as Hp0. destruct Hp0. split; try done.
  - intros j. rewrite <- po_dom. destruct (decide (i = j)) as [<- |Hne]; [|by rewrite lookup_insert_ne].
    rewrite lookup_insert_eq, Hi. split; by eexists.
  - intros j kj Hj. pick Hj; [|auto]. split; cbn; try done; [lia| |].
    + unfold srv_at. cbn. by destruct (Z.eqb_spec (e_srv e) i).
    + unfold srv_at. cbn. intros _ ->. by rewrite Z.eqb_refl.
  - intros m Hm. pose proof (po_msg m Hm) as Ho. destruct Ho. split; try done.
    + intros Hf. destruct (mo_member Hf) as [? Hc]. split; [done|]. intros E. etransitivity; [exact (Hc E)|]. apply member_stage.
    + intros Hf. destruct (mo_gone Hf) as [Hlt ?]. split; [|done]. unfold stage_of in *.
      destruct (decide (i = to m)) as [E|Hne]; [|by rewrite lookup_insert_ne]. rewrite <- E, lookup_insert_eq. cbn. lia.
Qed.

Lemma member_exact t' : exact e cs' t'.
Proof using t Hs Hl Hi F.
  intros kx Hx Hd Hst. exfalso. apply lookup_insert_Some in Hx as [[_ <-]|[_ Hx]]; [|apply (member_not_ready _ kx Hx Hd); unfold is_ready; by rewrite Hst].
  cbn in Hst. by destruct (e_srv e =? i).
Qed.

Lemma good_member_wait : k_wait k = true → k_read k ∩ e_new e ≠ k_ok k ∩ e_new e → good e cs' F.
Proof using t Hs Hp Hl Hi.
  intros Hw Hmore. split; [apply po_member|]. destruct member_tok as (t' & Ht & HF & _). exists t'. split; [|apply member_exact].
  by apply li_member.
Qed.

Lemma good_member_ok q :
  k_wait k = false → good e cs' (sentto e [srv_msg e i k' ALGOPR_MESSAGE_LOCKSERVER_OK q] ++ F).
Proof using t Hs Hp Hl Hi.
  intros Hw. destruct member_tok as (t' & Ht & HF & Hc). apply (good_ok e cs' F t'); [apply po_member| |apply member_exact| |by left|done|auto| |].
  - apply li_member; [done|done|]. by rewrite Hw.
  - apply lookup_insert_eq.
  - intros kx Hx Hd. change (is_done k') with true in Hd. apply lookup_insert_Some in Hx as [[E <-]|[_ Hx]].
    + split; [unfold is_ready; cbn; by destruct (e_srv e =? i)|]. intros _ Hin. cbn in Hin. by apply not_elem_of_empty in Hin.
    + split; [destruct (is_ready kx) eqn:Er; [|done]; by destruct (member_not_ready _ kx Hx Hd)|]. intros Hst Hin.
      pose proof (li_acked _ _ _ _ Hl _ kx i Hx Hst Hd Hin) as Hge. unfold stage_of in Hge. rewrite Hi, Hs in Hge. lia.
  - intros m Hm _ Hf Hto. rewrite <- Hto. by apply member_sent.
Qed.
End member.

Lemma act_member_wait e cs F i k :
  good e cs F → cs !! i = Some k → k_stage k = 1%nat → k_wait k = true → k_read k ∩ e_new e ≠ k_ok k ∩ e_new e →
  good e (<[i := renew e i k true (k_seq k)]> cs) F.
Proof.
  intros [Hp (t & Hl & _)] Hi Hs Hw Hmore. pose proof (good_member_wait e cs F i k t Hp Hl Hi Hs Hw Hmore) as H. by rewrite Hw in H.
Qed.

Lemma act_member_ok e cs F i k q :
  good e cs F → cs !! i = Some k → k_stage k = 1%nat → k_wait k = false →
  good e (<[i := renew e i k false (k_seq k)]> cs)
    (sentto e [srv_msg e i (renew e i k false (k_seq k)) ALGOPR_MESSAGE_LOCKSERVER_OK q] ++ F).
Proof.
  intros [Hp (t & Hl & _)] Hi Hs Hw. pose proof (good_member_ok e cs F i k t Hp Hl Hi Hs q Hw) as H. by rewrite Hw in H.
Qed.

(** A command that waited for nodes that have left only. *)
Lemma act_member_finish e cs F i k q q' :
  good e cs F → cs !! i = Some k → k_stage k = 1%nat → k_wait k = true → k_read k ∩ e_new e = k_ok k ∩ e_new e →
  good e (<[i := renew e i k false q']> cs)
    (sentto e [srv_msg e i (renew e i k false q') ALGOPR_MESSAGE_LOCKSERVER_OK q] ++ F).
Proof.
  intros [Hp (t & Hl & Hex)] Hi Hs Hw Hall. set (k0 := set_client k false (k_read k) (k_ok k) (k_beg k) (k_pending k) q' (k_ctx k)).
  destruct (li_wait _ _ _ _ Hl i k Hi Hw) as [-> Hro].
  rewrite <- (insert_insert_eq cs i (renew e i k false q') k0). change (renew e i k false q') with (renew e i k0 false (k_seq k0)).
  apply act_member_ok; [|apply lookup_insert_eq|done|done]. split.
  - apply (po_change e cs F F i k k0); try done; [|by left]. by apply (co_client e i k k0); [by apply (po_core _ _ _ Hp)|..].
  - exists NoTok. split.
    + apply (li_end e cs i k k0); try done. intros m Hm Hh Hx. destruct (li_xchg _ _ _ _ Hl m Hm Hh Hx) as [E Hk]. injection E as E.
      rewrite <- E in Hk. destruct (Hk k Hi) as [[Hr1 Hr2]%elem_of_difference _].
      assert (Hpn : x_peer m ∈ e_new e).
      { unfold x_peer, x_owner in *. case_bool_decide; [apply (mo_to _ _ _ (po_msg _ _ _ Hp m Hm))|]. destruct Hh as [|Hz]; [done|].
        unfold stage_of in Hz. by rewrite <- E, Hi, Hs in Hz. }
      apply Hr2. assert (Hin : x_peer m ∈ k_ok k ∩ e_new e) by (rewrite <- Hall; by apply elem_of_intersection).
      by apply elem_of_intersection in Hin as [? _].
    + intros kx Hx Hd Hst. exfalso. apply lookup_insert_Some in Hx as [[_ <-]|[_ Hx]]; [unfold is_done in Hd; cbn in Hd; by rewrite Hs in Hd|].
      apply (member_not_ready e cs F i k (TWait i) Hl Hi Hs _ kx Hx Hd). unfold is_ready. by rewrite Hst.
Qed.

(** ** Nodes leave and join *)

Definition next_env e (M : gset Z) (srv : Z) : env :=
  mk_env M (e_new e) (λ a b, if bool_decide (a ∈ M ∧ b ∈ M) then e_inc e a b + 1 else 0) (e_inc e) srv (e_srv e).

Definition fresh k : Prop :=
  k_stage k = 0%nat ∧ k_wait k = false ∧ k_state k = ALGOPR_LOCKSERVER_STATE_STANDBY ∧ k_locks k = [].

Section next.
Context (e : env) (cs cs' : gmap Z (core X P)) (F : list (algopr_message_t P)) (M : gset Z) (srv : Z).
Context (Hp : proto_ok e cs F) (Hvalid : ∀ i, i ∈ M → valid_node i) (Hsrv : srv ∈ M).
Hypothesis Hrest : ∀ i k, cs !! i = Some k → k_stage k = 3%nat.
Hypothesis Hdom : ∀ i, is_Some (cs' !! i) ↔ i ∈ M.
Hypothesis Hcs : ∀ i k', cs' !! i = Some k' → (∃ k, cs !! i = Some k ∧ k' = set_stage k 0) ∨ (i ∉ e_new e ∧ fresh k').
Let e' := next_env e M srv.
Let F' := filter (λ m, to m ∈ M) F.

Lemma rest_done i k : cs !! i = Some k → is_done k = true.
Proof using Hrest. intros Hi. unfold is_done. by rewrite (Hrest i k Hi). Qed.

Lemma next_env_ok : env_ok e'.
Proof using cs X P Hsrv Hp F.
  pose proof (po_env _ _ _ Hp) as He. split; cbn.
  - done.
  - intros a b. rewrite (eo_inc e He). destruct (eo_old e He a b) as [H0 _]. split; [case_bool_decide; lia|].
    split; [rewrite <- !(eo_inc e He); by apply inc_sym|]. rewrite <- (eo_inc e He). split; [by apply inc_pos|].
    intros [Ha Hb]. destruct (done_inc e a b He Ha Hb). lia.
  - done.
  - apply He.
Qed.

Lemma rest_from m : m ∈ F → from m ∈ e_new e.
Proof using cs X Hrest Hp.
  intros Hm. pose proof (po_msg _ _ _ Hp m Hm) as Ho. destruct (decide (from m ∈ e_new e)) as [|Hn]; [done|].
  destruct (mo_gone _ _ _ Ho Hn) as [Hlt _]. destruct (new_dom _ _ _ Hp _ (mo_to _ _ _ Ho)) as [k Hk]. unfold stage_of in Hlt.
  rewrite Hk, (Hrest _ k Hk) in Hlt. lia.
Qed.

Lemma next_member m : m ∈ F' → m ∈ F ∧ to m ∈ M.
Proof. intros [? ?]%list_elem_of_filter. done. Qed.

Lemma next_inc_gt m : m ∈ F → tinc m ≠ e_inc e' (from m) (to m).
Proof using cs X Hrest Hp.
  intros Hm E. cbn in E. pose proof (po_msg _ _ _ Hp m Hm) as Ho. destruct (mo_member _ _ _ Ho (rest_from m Hm)) as [Hle _].
  pose proof (mo_pos _ _ _ Ho). case_bool_decide; lia.
Qed.

Lemma next_stage_zero i : stage_of cs' i = 0%nat.
Proof using e cs Hcs.
  unfold stage_of. destruct (cs' !! i) as [k'|] eqn:Hi; [|done]. destruct (Hcs i k' Hi) as [(k & _ & ->)|[_ Hf]]; [done|apply Hf].
Qed.

Lemma next_inc_at i k j : cs !! i = Some k → inc_at e' i (set_stage k 0) j = inc_at e i k j.
Proof using Hrest. intros Hi. unfold inc_at. by rewrite (rest_done i k Hi). Qed.

Lemma po_next : proto_ok e' cs' F'.
Proof using cs Hvalid Hsrv Hrest Hp Hdom Hcs.
  split.
  - apply next_env_ok.
  - intros i [?|?]; [by apply Hvalid|]. apply (po_valid _ _ _ Hp). by left.
  - exact Hdom.
  - intros i k' Hi. destruct (Hcs i k' Hi) as [(k & Hk & ->)|[Hn Hf]].
    + pose proof (po_core _ _ _ Hp i k Hk) as Hc. pose proof (dom_new _ _ _ Hp _ _ Hk) as Hin. pose proof (rest_done i k Hk) as Hd.
      destruct Hc. unfold srv_at, mem_of in *. rewrite Hd in *. split; cbn; try done; [lia|auto|].
      eapply Forall_impl; [done|]. intros m' Hm'. unfold lock_demand_of, mem_of in *. by rewrite Hd in Hm'.
    + destruct Hf as (Hs & Hw & Hst & Hlo). split; [lia|done|congruence| |by rewrite Hlo|congruence].
      unfold is_done. rewrite Hs. cbn. by intros [|].
  - intros m [Hm Hto]%next_member. pose proof (po_msg _ _ _ Hp m Hm) as Ho. pose proof (rest_from m Hm) as Hf.
    destruct (mo_member _ _ _ Ho Hf) as [Hle _]. pose proof (next_inc_gt m Hm) as Hgt. split; try (apply Ho || done).
    + intros Hfm. split; [|done]. cbn. rewrite bool_decide_true by done. lia.
    + intros Hn. rewrite next_stage_zero. split; [lia|]. done.
    + intros Ht E. cbn in E |- *. by apply (mo_server _ _ _ Ho).
    + intros Ht E. cbn in E |- *. by apply (mo_granted _ _ _ Ho).
Qed.

(** A command of a node that had left before is over. *)
Lemma rest_token t : lock_inv e cs F t → ∃ t', lock_inv e cs F t' ∧ ∀ i, t' = TWait i → i ∈ e_new e.
Proof using Hrest Hp.
  intros Hl. assert (Hdead : (∃ i, t = TWait i ∧ i ∉ e_new e) ∨ (∀ i, t = TWait i → i ∈ e_new e)).
  { destruct t as [| |i|]; [by right|by right| |by right]. destruct (decide (i ∈ e_new e)) as [Hi|Hi]; [right; by intros j [= <-]|left; by exists i]. }
  destruct Hdead as [(i & -> & Hn)|Hw]; [exists NoTok|by exists t]. split; [|done]. apply (li_none e cs F (TWait i)); [| | |done].
  - intros j k Hj Hw. destruct (li_wait _ _ _ _ Hl j k Hj Hw) as [[= <-] _]. by apply Hn, (dom_new _ _ _ Hp _ _ Hj).
  - intros m Hm Hh Hx. destruct (li_xchg _ _ _ _ Hl m Hm Hh Hx) as [[= E] _]. apply Hn. rewrite E. unfold x_owner.
    case_bool_decide; [by apply rest_from|apply (mo_to _ _ _ (po_msg _ _ _ Hp m Hm))].
  - apply Permutation_nil. symmetry. apply (li_tok _ _ _ _ Hl).
Qed.

Lemma next_arrives m : m ∈ F → to m ∈ M → arrives e' cs' m ↔ arrives e cs m.
Proof using Hrest Hp Hdom Hcs.
  intros Hm Hto. pose proof (mo_to _ _ _ (po_msg _ _ _ Hp m Hm)) as Hin. unfold arrives. apply Hdom in Hto as [k' Hk']. rewrite Hk'.
  destruct (Hcs _ k' Hk') as [(k & Hk & ->)|[Hn _]]; [|done]. by rewrite Hk, next_inc_at.
Qed.

Lemma next_live m : m ∈ F → to m ∈ M → live_tok e' cs' m ↔ live_tok e cs m.
Proof using Hrest Hp Hdom Hcs.
  intros Hm Hto. unfold live_tok. rewrite next_arrives by done. split; (intros (? & _ & ?); split; [done|]; split; [|done]).
  - left. by apply rest_from.
  - right. apply next_stage_zero.
Qed.

Lemma next_filter : filter (live_tok e' cs') F' = filter (λ m, to m ∈ M) (filter (live_tok e cs) F).
Proof using Hrest Hp Hdom Hcs.
  unfold F'. rewrite !list_filter_filter. apply filter_ext_in. intros m Hm. split.
  - intros [Hl Hto]. by rewrite <- next_live.
  - intros [Hto Hl]. by rewrite next_live.
Qed.

Lemma next_not_new t : (∀ m, m ∈ toks t → m ∈ F) → ¬ new_tok e' cs' t.
Proof using cs Hrest Hp Hcs.
  intros Ht. destruct t as [|m|i|m]; cbn.
  - by intros [].
  - intros [_ E]. by apply (next_inc_gt m); [apply Ht; left|].
  - intros (k' & Hk' & Hd & _). destruct (Hcs i k' Hk') as [(k & _ & ->)|[_ (Hs & _)]]; [done|]. unfold is_done in Hd. by rewrite Hs in Hd.
  - intros [_ E]. by apply (next_inc_gt m); [apply Ht; left|].
Qed.

(** The nodes that wait or serve were there before. *)
Lemma next_stays i k' : cs' !! i = Some k' → k_wait k' = true ∨ k_state k' ≠ ALGOPR_LOCKSERVER_STATE_STANDBY ∨ i ∈ e_new e →
  ∃ k, cs !! i = Some k ∧ k' = set_stage k 0.
Proof using Hcs. intros Hi Hw. destruct (Hcs i k' Hi) as [?|[Hn (_ & Hw' & Hst & _)]]; [done|]. destruct Hw as [?|[?|?]]; congruence. Qed.

Lemma next_done i k' : cs' !! i = Some k' → is_done k' = false.
Proof using e cs Hcs. intros Hi. pose proof (next_stage_zero i) as E. unfold stage_of in E. rewrite Hi in E. unfold is_done. by rewrite E. Qed.

Lemma li_next t t' :
  (∀ i, t = TWait i → i ∈ e_new e) → t' = t ∨ t' = NoTok ∧ (∀ j, t ≠ TWait j) → filter (live_tok e' cs') F' ≡ₚ toks t' →
  lock_inv e cs F t → lock_inv e' cs' F' t'.
Proof using Hrest Hp Hdom Hcs.
  intros Hin Ht HF Hl.
  assert (Htw : ∀ j, t = TWait j → t' = TWait j) by (intros j Ej; destruct Ht as [-> |[_ Hno]]; [done|by destruct (Hno j)]).
  assert (Htw' : ∀ j, t' = TWait j → t = TWait j) by (intros j Ej; destruct Ht as [-> |[-> _]]; done).
  assert (Hcl : ∀ j, clear t j → clear t' j) by (intros j; destruct Ht as [-> |[-> _]]; done).
  assert (Hho : ∀ kx, holds t kx → holds t' kx) by (intros kx; destruct Ht as [-> |[-> _]]; [done|apply holds_no]).
  assert (Hhr : ∀ m, m ∈ F → hears e cs m) by (intros m Hm; left; by apply rest_from).
  assert (Hnn : ¬ new_tok e' cs' t').
  { apply next_not_new. intros m Hm. rewrite <- HF in Hm. apply list_elem_of_filter in Hm as [_ Hm]. by apply next_member. }
  pose proof Hl as Hl0. destruct Hl0. split.
  - done.
  - destruct Ht as [-> |[-> _]]; done.
  - intros i k' Hi Hw. destruct (next_stays i k' Hi) as (k & Hk & ->); [by left|]. destruct (li_wait i k Hk Hw) as [Et Hro]. split; [auto|].
    pose proof (rest_done i k Hk) as Hd. pose proof (dom_new _ _ _ Hp _ _ Hk) as Hi0. destruct Hro.
    unfold mem_of, inc_at in *. rewrite Hd in *. split; cbn; try done.
  - intros i k' Et Hi. apply Htw' in Et. destruct (next_stays i k' Hi) as (k & Hk & ->); [right; right; auto|]. by apply (li_waits i k).
  - intros i Et. right. cbn. auto.
  - intros m [Hm Hto]%next_member _ Hx. destruct (li_xchg m Hm (Hhr m Hm) Hx) as [Et Hk]. split; [auto|]. intros k' Hk'.
    destruct (next_stays _ k' Hk') as (k & Hk0 & ->); [right; right; auto|]. by apply (Hk k).
  - intros a b. etransitivity; [|apply (li_once a b)]. unfold F'. rewrite list_filter_filter. apply filter_length_mono.
    intros m Hm [(_ & Hx) _]. split; [auto|done].
  - intros x kx m Hx [Hm Hto]%next_member. unfold admits. destruct (decide (k_state kx = ALGOPR_LOCKSERVER_STATE_STANDBY)) as [-> |Hns]; [done|].
    destruct (next_stays x kx Hx) as (k & Hk & ->); [auto|]. rewrite !next_inc_at by done. exact (li_admits x k m Hk Hm).
  - intros x kx Hx. apply Hho. unfold holds. destruct (decide (k_state kx = ALGOPR_LOCKSERVER_STATE_STANDBY)) as [-> |Hns]; [done|].
    destruct (next_stays x kx Hx) as (k & Hk & ->); [auto|]. exact (li_holds x k Hk).
  - intros x kx j Hx _ Hd. by rewrite (next_done x kx Hx) in Hd.
  - intros m [Hm Hto]%next_member Hok _ Ha. apply Hcl, li_oks; [done|done|auto|by apply next_arrives].
  - intros a b c. etransitivity; [|apply (li_ok_once a b c)]. unfold F'. rewrite list_filter_filter. apply filter_length_mono.
    intros m Hm [? _]. done.
  - intros i k' m Hi Hw Hb [Hm Hto]%next_member. destruct (next_stays i k' Hi) as (k & Hk & ->); [by left|].
    rewrite next_inc_at in Hb |- * by done. by apply (li_late i k m).
  - intros x i kx ki Hx Hi Hr Hw _. destruct (next_stays x kx Hx) as (k1 & Hk1 & ->); [right; left; by apply ready_not_standby|].
    destruct (next_stays i ki Hi) as (k2 & Hk2 & ->); [by left|]. rewrite next_inc_at by done.
    apply (li_beg x i k1 k2); try done. by rewrite (rest_done x k1), (rest_done i k2).
  - intros x i kx ki Hx Hi Hw Hb Es _. destruct (next_stays i ki Hi) as (k2 & Hk2 & ->); [by left|]. cbn in Es.
    assert (Hxn : x ∈ e_new e) by (rewrite Es; apply (eo_srv e (po_env _ _ _ Hp)); intros E; by apply (not_elem_of_empty (C := gset Z) i); rewrite <- E; eapply dom_new).
    destruct (next_stays x kx Hx) as (k1 & Hk1 & ->); [auto|]. rewrite next_inc_at in Hb by done.
    apply (li_ready x i k1 k2); try done; [unfold srv_at|]; by rewrite ?(rest_done i k2), ?(rest_done x k1).
  - done.
  - intros x kx Hx Hd. by rewrite (next_done x kx Hx) in Hd.
Qed.
End next.

Lemma act_recover e cs cs' F M srv :
  good e cs F → (∀ i, i ∈ M → valid_node i) → srv ∈ M → (∀ i k, cs !! i = Some k → k_stage k = 3%nat) →
  (∀ i, is_Some (cs' !! i) ↔ i ∈ M) →
  (∀ i k', cs' !! i = Some k' → (∃ k, cs !! i = Some k ∧ k' = set_stage k 0) ∨ (i ∉ e_new e ∧ fresh k')) →
  good (next_env e M srv) cs' (filter (λ m, to m ∈ M) F).
Proof.
  intros [Hp (t0 & Hl0 & _)] Hv Hs Hr Hd Hcs. split; [by eapply po_next|].
  destruct (rest_token e cs F Hp Hr t0 Hl0) as (t & Hl & Hin).
  pose proof (next_filter e cs cs' F M srv Hp Hr Hd Hcs) as Hf.
  assert (HF : filter (live_tok (next_env e M srv) cs') (filter (λ m, to m ∈ M) F) ≡ₚ filter (λ m, to m ∈ M) (toks t))
    by (rewrite Hf; by rewrite (li_tok _ _ _ _ Hl)).
  assert (Hex : ∀ t', exact (next_env e M srv) cs' t').
  { intros t' kx Hx Hdx. by rewrite (next_done e cs cs' Hcs _ kx Hx) in Hdx. }
  assert (Hgo : ∀ t', t' = t ∨ t' = NoTok ∧ (∀ j, t ≠ TWait j) → filter (λ m, to m ∈ M) (toks t) ≡ₚ toks t' →
    ∃ t', lock_inv (next_env e M srv) cs' (filter (λ m, to m ∈ M) F) t' ∧ exact (next_env e M srv) cs' t').
  { intros t' Ht Hft. exists t'. split; [|apply Hex]. apply (li_next e cs cs' F M srv Hp Hr Hd Hcs t); try done. by rewrite HF. }
  destruct t as [|m|j|m]; [by apply (Hgo NoTok); [left|]| |by apply (Hgo (TWait j)); [left|]|].
  - destruct (decide (to m ∈ M)) as [Hq|Hq]; [apply (Hgo (TGrant m))|apply (Hgo NoTok)]; cbn [toks];
      rewrite ?filter_cons_True, ?filter_cons_False by done; auto.
  - destruct (decide (to m ∈ M)) as [Hq|Hq]; [apply (Hgo (TRelease m))|apply (Hgo NoTok)]; cbn [toks];
      rewrite ?filter_cons_True, ?filter_cons_False by done; auto.
Qed.
End recover.
