(* ===== verification/PrLockMove.v ===== *)
(** * The moves of the protocol of the reservation lock

    What a thread does is one of the actions of [act]: the messages that it
    takes, the commands of its target that it takes, its new [core], and the
    messages that it sends.  A [move] is such an action, or a step of a recovery.
    Every move keeps the invariant of [PrLockProto], and every action lowers a
    weight: the lock and the commands that wait are given a weight that pays for
    the messages that they cause. *)

From S2P Require Import Prelude Nodeset PrLock PrLockProto PrLockAct PrLockStep PrLockServe PrLockRecover.
From stdpp Require Import options.

Section move.
Context {X P : Type} (rd : X → P → X).
Implicit Types (k : core X P) (cs : gmap Z (core X P)) (m : algopr_message_t P) (F R L pop : list (algopr_message_t P)).

Abbreviation to := to_node_id.
Abbreviation from := from_node_id.
Abbreviation tinc := to_membership_incarnation.

(** The demand of a client that has commands left. *)
Definition demand e (i : Z) k (q : Z) : list (algopr_message_t P) :=
  if (k_pending k =? 0)%nat then [] else [srv_msg e i k ALGOPR_MESSAGE_LOCK q].

(** [act e i k pop a k' L]: the node takes the messages [pop] and [a] commands of
    its target, becomes [k'] and sends [L]. *)
Inductive act e (i : Z) k : list (algopr_message_t P) → nat → core X P → list (algopr_message_t P) → Prop :=
  | A_drop m : to m = i → lock_msg m = true → tinc m < inc_at e i k (from m) → act e i k [m] 0 k []
  | A_idle : k_stage k ≠ 3%nat → act e i k [] 0 k []
  | A_command :
      acting e i k →
      act e i k [] 1 (set_client k (k_wait k) (k_read k) (k_ok k) (k_beg k) (S (k_pending k)) (k_seq k) (k_ctx k))
        (if negb (k_wait k) && (k_pending k =? 0)%nat then [srv_msg e i k ALGOPR_MESSAGE_LOCK (k_seq k)] else [])
  | A_begin m js d p x :
      accepts e i k m → is_grant m = true → mem_of e k ∖ {[i]} ≠ ∅ → NoDup js → (∀ j, j ∈ js ↔ j ∈ mem_of e k ∖ {[i]}) →
      (p <= k_pending k)%nat → (type m = ALGOPR_MESSAGE_LOCKED → k_pending k ≠ 0%nat → (p < k_pending k)%nat) →
      rd (k_ctx k) d = x → (type m = ALGOPR_MESSAGE_LOCK_UPDATE_OTHER_NODE ∨ k_pending k = 0%nat → ∀ y, rd y d = x) →
      act e i k [m] 0 (set_client k true (mem_of e k) {[i]} (inc_at e i k i) p (k_seq k) x) (cmds e i k (k_seq k) d js)
  | A_release m q r o b q' x :
      accepts e i k m → is_grant m = true →
      mem_of e k ∖ {[i]} = ∅ ∨ x = k_ctx k ∧ type m = ALGOPR_MESSAGE_LOCKED →
      act e i k [m] 0 (set_client k false r o b 0 q' x) [srv_msg e i k ALGOPR_MESSAGE_UNLOCK q]
  | A_cmd m d :
      to m = i → running e i k → tinc m <= inc_at e i k (from m) → type m = ALGOPR_MESSAGE_PR_CMD → data m = Some d →
      act e i k [m] 0 (set_client k false (k_read k) (k_ok k) (k_beg k) (k_pending k) (k_seq k) (rd (k_ctx k) d))
        [done_msg e i k m]
  | A_done_more m :
      to m = i → running e i k → type m = ALGOPR_MESSAGE_PR_CMD_DONE → k_wait k = true → k_read k ≠ {[from m]} ∪ k_ok k →
      act e i k [m] 0 (set_client k true (k_read k) ({[from m]} ∪ k_ok k) (k_beg k) (k_pending k) (k_seq k) (k_ctx k)) []
  | A_done_end m o q :
      to m = i → running e i k → type m = ALGOPR_MESSAGE_PR_CMD_DONE → k_wait k = true → k_read k = {[from m]} ∪ k_ok k →
      act e i k [m] 0 (set_client k false (k_read k) o (k_beg k) (k_pending k) q (k_ctx k))
        (srv_msg e i k (finish_of e i k) q :: demand e i k q)
  | A_queue m :
      accepts e i k m → type m = ALGOPR_MESSAGE_LOCK → k_state k ≠ ALGOPR_LOCKSERVER_STATE_READY_UNLOCKED →
      act e i k [m] 0 (set_server k (k_state k) (k_acked k) (k_owner k) (k_locks k ++ [m])) []
  | A_grant m q :
      accepts e i k m → type m = ALGOPR_MESSAGE_LOCK → k_state k = ALGOPR_LOCKSERVER_STATE_READY_UNLOCKED →
      act e i k [m] 0 (set_server k ALGOPR_LOCKSERVER_STATE_READY_LOCKED (k_acked k) (from m) (k_locks k))
        [a_msg e i k ALGOPR_MESSAGE_LOCKED (from m) q None]
  | A_unlock_last m :
      accepts e i k m → type m = ALGOPR_MESSAGE_UNLOCK → k_locks k = [] →
      act e i k [m] 0 (set_server k ALGOPR_LOCKSERVER_STATE_READY_UNLOCKED (k_acked k) (k_owner k) (k_locks k)) []
  | A_unlock_next m q m' l :
      accepts e i k m → type m = ALGOPR_MESSAGE_UNLOCK → k_locks k = m' :: l →
      act e i k [m] 0 (set_server k ALGOPR_LOCKSERVER_STATE_READY_LOCKED (k_acked k) (from m') l)
        [a_msg e i k ALGOPR_MESSAGE_LOCKED (from m') q None]
  | A_ok_more m o :
      accepts e i k m → type m = ALGOPR_MESSAGE_LOCKSERVER_OK → k_state k = ALGOPR_LOCKSERVER_STATE_WAIT_ALL_OK →
      mem_of e k ≠ {[from m]} ∪ k_acked k →
      act e i k [m] 0 (set_server k ALGOPR_LOCKSERVER_STATE_WAIT_ALL_OK ({[from m]} ∪ k_acked k) o (k_locks k)) []
  | A_ok_all m o q :
      accepts e i k m → type m = ALGOPR_MESSAGE_LOCKSERVER_OK → k_state k = ALGOPR_LOCKSERVER_STATE_WAIT_ALL_OK →
      mem_of e k = {[from m]} ∪ k_acked k → o ∈ mem_of e k →
      act e i k [m] 0 (set_server k ALGOPR_LOCKSERVER_STATE_READY_LOCKED ({[from m]} ∪ k_acked k) o (k_locks k))
        [a_msg e i k ALGOPR_MESSAGE_LOCK_UPDATE_OTHER_NODE o q None].

(** A node is told the membership. *)
Inductive told e (i : Z) k : core X P → list (algopr_message_t P) → Prop :=
  | T_wait :
      k_wait k = true → k_read k ∩ e_new e ≠ k_ok k ∩ e_new e → told e i k (renew e i k true (k_seq k)) []
  | T_ok r o b q :
      (k_wait k = true → k_read k ∩ e_new e = k_ok k ∩ e_new e) →
      let k' := set_client (renew e i k false q) false r o b (k_pending k) q (k_ctx k) in
      told e i k k' (srv_msg e i k' ALGOPR_MESSAGE_LOCKSERVER_OK q :: demand e i k' q).

Definition gone e m : Prop := from m ∉ e_new e.

Inductive move e cs F : env → gmap Z (core X P) → list (algopr_message_t P) → Prop :=
  | M_act i k pop a k' L R F' :
      cs !! i = Some k → act e i k pop a k' L → F ≡ₚ pop ++ R → F' ≡ₚ sentto e L ++ R →
      move e cs F e (<[i := k']> cs) F'
  | M_lost pop F' : Forall (gone e) pop → F ≡ₚ pop ++ F' → move e cs F e cs F'
  | M_suspend i k F' :
      cs !! i = Some k → k_stage k = 0%nat → F ≡ₚ F' → move e cs F e (<[i := set_stage k 1]> cs) F'
  | M_told i k k' L F' :
      cs !! i = Some k → k_stage k = 1%nat → told e i k k' L → F' ≡ₚ sentto e L ++ F → move e cs F e (<[i := k']> cs) F'
  | M_resume i k pop F' :
      cs !! i = Some k → k_stage k = 2%nat → Forall (gone e) pop → F ≡ₚ pop ++ F' →
      (∀ m, m ∈ F' → to m = i → from m ∈ e_new e) → move e cs F e (<[i := set_stage k 3]> cs) F'
  | M_recover cs' M srv F' :
      (∀ i, i ∈ M → valid_node i) → srv ∈ M → (∀ i k, cs !! i = Some k → k_stage k = 3%nat) →
      (∀ i, is_Some (cs' !! i) ↔ i ∈ M) →
      (∀ i k', cs' !! i = Some k' → (∃ k, cs !! i = Some k ∧ k' = set_stage k 0) ∨ (i ∉ e_new e ∧ fresh k')) →
      F' ≡ₚ filter (λ m, to m ∈ M) F → move e cs F (next_env e M srv) cs' F'.

(** ** The invariant is kept *)

Lemma good_lost e cs pop R : Forall (gone e) pop → good e cs (pop ++ R) → good e cs R.
Proof. induction 1 as [|m pop Hm _ IH]; [done|]. intros Hg. by apply IH, (good_remove e cs m). Qed.

Lemma good_demand e cs F i k q :
  cs !! i = Some k → acting e i k → good e cs F → good e cs (sentto e (demand e i k q) ++ F).
Proof.
  intros Hi Ha Hg. apply good_plain; [|done]. unfold demand. intros m. case_match; [by intros ?%not_elem_of_nil|].
  intros ->%list_elem_of_singleton. split; [done|]. intros Hto.
  exact (srv_msg_ok e cs F i k ALGOPR_MESSAGE_LOCK q (go_proto _ _ _ Hg) Hi Ha eq_refl Hto).
Qed.

(** Two messages of a node, the second one a demand. *)
Lemma good_then_demand e cs F i k k0 m q :
  cs !! i = Some k → acting e i k → demand e i k0 q = demand e i k q → good e cs (sentto e [m] ++ F) →
  good e cs (sentto e (m :: demand e i k0 q) ++ F).
Proof.
  intros Hi Ha E Hg. rewrite E. eapply good_perm; [|exact (good_demand e cs _ i k q Hi Ha Hg)].
  change (m :: demand e i k q) with ([m] ++ demand e i k q). rewrite sentto_app. solve_Permutation.
Qed.

Lemma act_good e cs R i k pop a k' L :
  cs !! i = Some k → act e i k pop a k' L → good e cs (pop ++ R) → good e (<[i := k']> cs) (sentto e L ++ R).
Proof.
  intros Hi Ha Hg. destruct Ha; cbn [app] in Hg.
  - rewrite insert_id by done. apply (good_remove e cs m); [|done]. intros (_ & _ & Har). unfold arrives in Har.
    subst i. rewrite Hi in Har. lia.
  - by rewrite insert_id.
  - destruct (negb (k_wait k) && _); [|by apply good_pending].
    set (k' := set_client k _ _ _ _ _ _ _).
    change [srv_msg e i k ALGOPR_MESSAGE_LOCK (k_seq k)] with (demand e i k' (k_seq k)).
    apply (good_demand e _ _ i k'); [apply lookup_insert_eq|done|by apply good_pending].
  - by apply (act_begin e cs m).
  - by apply (act_release e cs m).
  - by apply (act_cmd e cs m).
  - by apply (act_done_more e cs m).
  - set (k' := set_client k _ _ _ _ _ _ _). apply (good_then_demand e _ _ i k'); [apply lookup_insert_eq|by apply running_acting|done|].
    by apply (act_done_end e cs m).
  - by apply (act_lock_queue e cs m).
  - by apply (act_lock_grant e cs m).
  - by apply (act_unlock_last e cs m).
  - by apply (act_unlock_next e cs m).
  - by apply (act_ok_more e cs m).
  - by apply (act_ok_all e cs m).
Qed.

Lemma told_good e cs F i k k' L :
  cs !! i = Some k → k_stage k = 1%nat → told e i k k' L → good e cs F → good e (<[i := k']> cs) (sentto e L ++ F).
Proof.
  intros Hi Hs Ht Hg. destruct Ht as [Hw Hne|r o b q Heq k'].
  - by apply act_member_wait.
  - apply (good_then_demand e _ _ i k'); [apply lookup_insert_eq|by left|done|].
    assert (Hr : good e (<[i := renew e i k false q]> cs) (sentto e [srv_msg e i (renew e i k false q) ALGOPR_MESSAGE_LOCKSERVER_OK q] ++ F)).
    { destruct (k_wait k) eqn:Hw; [by apply act_member_finish; auto|].
      pose proof (act_member_ok e cs F i k q Hg Hi Hs Hw) as Hg'. set (k1 := renew e i k false q).
      change (srv_msg e i (renew e i k false (k_seq k)) ALGOPR_MESSAGE_LOCKSERVER_OK q) with (srv_msg e i k1 ALGOPR_MESSAGE_LOCKSERVER_OK q) in Hg'.
      rewrite <- (insert_insert_eq cs i k1 (renew e i k false (k_seq k))). eapply good_client; [apply lookup_insert_eq|done..|exact Hg']. }
    rewrite <- (insert_insert_eq cs i k' (renew e i k false q)). eapply good_client; [apply lookup_insert_eq|done..|exact Hr].
Qed.

Lemma move_good e cs F e' cs' F' : move e cs F e' cs' F' → good e cs F → good e' cs' F'.
Proof.
  intros Hm Hg. destruct Hm as [i k pop a k' L R F' Hi Ha HF HF'|pop F' Hp HF|i k F' Hi Hs HF|i k k' L F' Hi Hs Ht HF|i k pop F' Hi Hs Hp HF Hto
    |cs' M srv F' Hv Hsrv Hst Hdom Hcs HF].
  - eapply good_perm; [symmetry; exact HF'|]. eapply act_good; [done..|]. by eapply good_perm.
  - eapply good_lost; [exact Hp|]. by eapply good_perm.
  - eapply good_perm; [exact HF|]. apply good_stage; auto; [|lia]. unfold is_done. by rewrite Hs.
  - eapply good_perm; [symmetry; exact HF|]. by eapply told_good.
  - apply good_stage; auto; [|unfold is_done; by rewrite Hs|lia]. eapply good_lost; [exact Hp|]. by eapply good_perm.
  - eapply good_perm; [symmetry; exact HF|]. by eapply act_recover.
Qed.

(** ** The weight *)

Section weight.
Context (nb : nat).

Definition w_grant : nat := 4 * nb + 3.
Definition w_queue : nat := w_grant + 1.
Definition w_update : nat := w_grant + w_queue + 2.
Definition w_pending : nat := w_queue + 2.
Definition w_command : nat := w_pending + w_queue + 3.

Definition w_msg m : nat :=
  match type m with
  | ALGOPR_MESSAGE_LOCKSERVER_OK | ALGOPR_MESSAGE_PR_CMD_DONE | ALGOPR_MESSAGE_UNLOCK => 1
  | ALGOPR_MESSAGE_PR_CMD => 3
  | ALGOPR_MESSAGE_LOCK => w_queue + 1
  | ALGOPR_MESSAGE_LOCKED => w_grant
  | ALGOPR_MESSAGE_LOCK_UPDATE_OTHER_NODE => w_update
  end.

Definition w_core k : nat :=
  (if k_wait k then 2 + (if (k_pending k =? 0)%nat then 0 else w_queue + 2) else 0) + k_pending k * w_pending +
  length (k_locks k) * w_queue +
  match k_state k with ALGOPR_LOCKSERVER_STATE_WAIT_ALL_OK => w_update + 1 | _ => 0 end.

Definition w_msgs L : nat := sum_list_with w_msg L.
(** Messages that are sent have still to be received. *)
Definition w_sent L : nat := sum_list_with (λ m, S (w_msg m)) L.

Lemma w_sent_filter L (Q : algopr_message_t P → Prop) `{!∀ m, Decision (Q m)} : (w_sent (filter Q L) <= w_sent L)%nat.
Proof. unfold w_sent. induction L as [|m L IH]; [done|]. rewrite filter_cons. case_decide; simpl; lia. Qed.

Lemma w_sent_app L R : w_sent (L ++ R) = (w_sent L + w_sent R)%nat.
Proof. apply sum_list_with_app. Qed.

Lemma w_sent_msgs L : w_sent L = (w_msgs L + length L)%nat.
Proof. unfold w_sent, w_msgs. induction L as [|m L IH]; simpl; lia. Qed.

Lemma w_sent_cmds e i k q d js : w_sent (cmds e i k q d js) = (4 * length js)%nat.
Proof. unfold w_sent, cmds. induction js as [|j js IH]; [done|]. cbn [length]. rewrite fmap_cons. cbn in *. lia. Qed.

Lemma w_msgs_app L R : w_msgs (L ++ R) = (w_msgs L + w_msgs R)%nat.
Proof. apply sum_list_with_app. Qed.

#[export] Instance w_msgs_perm : Proper ((≡ₚ) ==> (=)) w_msgs.
Proof. intros L L' H. unfold w_msgs. induction H; simpl; lia. Qed.

Lemma w_msg_pos m : (1 <= w_msg m)%nat.
Proof. unfold w_msg, w_update, w_queue, w_grant. destruct (type m); lia. Qed.

Lemma grant_weight m : is_grant m = true → w_msg m = (if bool_decide (type m = ALGOPR_MESSAGE_LOCKED) then w_grant else w_update).
Proof. unfold is_grant, w_msg. by destruct (type m). Qed.

Lemma w_eqs :
  w_grant = (4 * nb + 3)%nat ∧ w_queue = (w_grant + 1)%nat ∧ w_update = (w_grant + w_queue + 2)%nat ∧
  w_pending = (w_queue + 2)%nat ∧ w_command = (w_pending + w_queue + 3)%nat.
Proof. done. Qed.

Local Opaque w_grant w_queue w_update w_pending w_command.
Local Ltac weigh :=
  pose proof w_eqs as (? & ? & ? & ? & ?); unfold w_core, w_msgs, w_sent, demand, finish_of in *; cbn in *.

(** The nodes that a command is sent to. *)
Lemma begin_size e i k : i ∈ mem_of e k → S (size (mem_of e k ∖ {[i]})) = size (mem_of e k).
Proof.
  intros Hi. assert (Hsub : {[i]} ⊆ mem_of e k) by set_solver +Hi. pose proof (subseteq_size _ _ Hsub) as Hle.
  rewrite size_difference by done. rewrite size_singleton in *. lia.
Qed.

Lemma begin_length e i k js :
  i ∈ mem_of e k → NoDup js → (∀ j, j ∈ js ↔ j ∈ mem_of e k ∖ {[i]}) → length js = size (mem_of e k ∖ {[i]}).
Proof.
  intros Hi Hnd Hjs. rewrite <- (size_list_to_set (C := gset Z) js) by done. f_equal. apply set_eq. intros j.
  by rewrite elem_of_list_to_set, Hjs.
Qed.

(** An action costs less than what it takes. *)
Lemma act_weight e i k pop a k' L :
  k_stage k = 3%nat → i ∈ mem_of e k → (size (mem_of e k) <= nb)%nat → act e i k pop a k' L →
  (w_sent L + w_core k' < w_msgs pop + a * w_command + w_core k)%nat.
Proof.
  intros Hs Hi Hn Ha. destruct Ha as [m| | |m js d p x Ha Hg Hm Hnd Hjs Hp Hpl _ _|m q r o b q' x Ha Hg _|m d _ _ _ Ht|m _ _ Ht Hw|m o q _ _ Ht Hw
    |m _ Ht|m q _ Ht|m _ Ht|m q m' l _ Ht El|m o _ Ht Hst|m o q _ Ht Hst].
  - pose proof (w_msg_pos m). weigh. lia.
  - done.
  - weigh. destruct (k_wait k), (Nat.eqb_spec (k_pending k) 0) as [E|E]; cbn; lia.
  - rewrite w_sent_cmds. pose proof (grant_weight m Hg) as Hw.
    assert (Hlen : (S (length js) <= nb)%nat) by (rewrite (begin_length e i k js Hi Hnd Hjs), (begin_size e i k Hi); done).
    assert (Hw' : (w_msg m = w_grant ∧ (k_pending k = 0 ∨ p < k_pending k) ∨ w_msg m = w_update)%nat).
    { rewrite Hw. case_bool_decide as E; [left|by right]. split; [done|]. destruct (decide (k_pending k = 0%nat)); [by left|right; auto]. }
    assert (Hb : (p * w_pending <= k_pending k * w_pending ∧ (p < k_pending k → p * w_pending + w_pending <= k_pending k * w_pending))%nat) by nia.
    weigh. destruct Hw' as [[Hwm [E|E]]|Hwm], (Nat.eqb_spec p 0), (k_wait k); lia.
  - pose proof (grant_weight m Hg) as Hw. weigh. rewrite Hw. case_bool_decide; destruct (k_wait k); lia.
  - weigh; unfold w_msg. rewrite Ht. cbn. destruct (k_wait k); lia.
  - weigh; unfold w_msg. rewrite Ht, Hw. lia.
  - weigh; unfold w_msg. rewrite Ht, Hw. destruct (_ =? k_beg k), (Nat.eqb_spec (k_pending k) 0); cbn; lia.
  - weigh; unfold w_msg. rewrite Ht, length_app. cbn. lia.
  - weigh; unfold w_msg. rewrite Ht. lia.
  - weigh; unfold w_msg. rewrite Ht. lia.
  - weigh; unfold w_msg. rewrite Ht, El. cbn. lia.
  - weigh; unfold w_msg. rewrite Ht, Hst. cbn. lia.
  - weigh; unfold w_msg. rewrite Ht, Hst. cbn. lia.
Qed.

(** ** The load

    A bound of the elements that the messages and the commands can take from the
    pools, which no action makes greater: the lock, wherever it is, stands for
    the exchange with all the nodes that it leads to. *)

Definition l_msg m : nat :=
  match type m with
  | ALGOPR_MESSAGE_LOCKED | ALGOPR_MESSAGE_UNLOCK => nb
  | ALGOPR_MESSAGE_LOCK_UPDATE_OTHER_NODE => S nb
  | _ => 1
  end.

Definition l_core k : nat :=
  (if k_wait k then nb - size (k_read k ∖ k_ok k) + (if (k_pending k =? 0)%nat then 0 else 1) else 0) + k_pending k +
  length (k_locks k) +
  match k_state k with
  | ALGOPR_LOCKSERVER_STATE_WAIT_ALL_OK => S nb
  | ALGOPR_LOCKSERVER_STATE_READY_UNLOCKED => nb
  | _ => 0
  end.

Definition l_msgs L : nat := sum_list_with l_msg L.

Lemma l_msgs_app L R : l_msgs (L ++ R) = (l_msgs L + l_msgs R)%nat.
Proof. apply sum_list_with_app. Qed.

Lemma l_msgs_filter L (Q : algopr_message_t P → Prop) `{!∀ m, Decision (Q m)} : (l_msgs (filter Q L) <= l_msgs L)%nat.
Proof. unfold l_msgs. induction L as [|m L IH]; [done|]. rewrite filter_cons. case_decide; simpl; lia. Qed.

#[export] Instance l_msgs_perm : Proper ((≡ₚ) ==> (=)) l_msgs.
Proof. intros L L' H. unfold l_msgs. induction H; simpl; lia. Qed.

Lemma l_msgs_length L : (1 <= nb)%nat → (length L <= l_msgs L)%nat.
Proof.
  intros Hn. unfold l_msgs. induction L as [|m L IH]; [done|]. simpl. assert (1 <= l_msg m)%nat by (unfold l_msg; destruct (type m); lia). lia.
Qed.

Lemma l_msgs_cmds e i k q d js : l_msgs (cmds e i k q d js) = length js.
Proof. unfold l_msgs, cmds. induction js as [|j js IH]; [done|]. cbn [length]. rewrite fmap_cons. cbn in *. lia. Qed.

Lemma waited_more (r o : gset Z) j : (size (r ∖ o) <= S (size (r ∖ ({[j]} ∪ o))))%nat.
Proof.
  assert (H : r ∖ o ⊆ {[j]} ∪ r ∖ ({[j]} ∪ o)).
  { intros x. rewrite elem_of_union, !elem_of_difference, elem_of_union, elem_of_singleton. destruct (decide (x = j)); tauto. }
  apply subseteq_size in H. pose proof (size_union_alt (C := gset Z) {[j]} (r ∖ ({[j]} ∪ o))) as Hu. rewrite size_singleton in Hu.
  pose proof (subseteq_size ((r ∖ ({[j]} ∪ o)) ∖ {[j]}) (r ∖ ({[j]} ∪ o)) ltac:(set_solver +)). lia.
Qed.

Lemma act_load e i k pop a k' L :
  k_stage k = 3%nat → i ∈ mem_of e k → (size (mem_of e k) <= nb)%nat → act e i k pop a k' L →
  (l_msgs L + l_core k' <= l_msgs pop + a * 2 + l_core k)%nat.
Proof.
  intros Hs Hi Hn Ha. pose proof (begin_size e i k Hi) as Hb. unfold l_msgs, l_core.
  destruct Ha as [m| | |m js d p x Ha Hg Hm Hnd Hjs Hp Hpl _ _|m q r o b q' x Ha Hg _|m d _ _ _ Ht|m _ _ Ht Hw|m o q _ _ Ht Hw Hr
    |m _ Ht|m q _ Ht Hst|m _ Ht|m q m' l _ Ht El|m o _ Ht Hst|m o q _ Ht Hst]; cbn -[size].
  - lia.
  - lia.
  - destruct (k_wait k), (Nat.eqb_spec (k_pending k) 0) as [E|E]; cbn -[size]; lia.
  - fold (l_msgs (cmds e i k (k_seq k) d js)). rewrite l_msgs_cmds, (begin_length e i k js Hi Hnd Hjs).
    assert (Hw : (l_msg m = nb ∧ (k_pending k = 0 ∨ p < k_pending k) ∨ l_msg m = S nb)%nat).
    { unfold l_msg. unfold is_grant in Hg. destruct (type m); try done; [left|by right]. split; [done|]. destruct (decide (k_pending k = 0%nat)); auto. }
    destruct (Nat.eqb_spec p 0), (k_wait k); lia.
  - assert (nb <= l_msg m)%nat by (unfold l_msg; unfold is_grant in Hg; destruct (type m); try done; lia). destruct (k_wait k); lia.
  - unfold l_msg. rewrite Ht. cbn. lia.
  - unfold l_msg. rewrite Ht, Hw. pose proof (waited_more (k_read k) (k_ok k) (from m)). destruct (k_pending k =? 0)%nat; lia.
  - pose proof (waited_more (k_read k) (k_ok k) (from m)) as Hmore. rewrite <- Hr, difference_diag_L, size_empty in Hmore.
    unfold l_msg, demand, finish_of. rewrite Ht, Hw. destruct (_ =? k_beg k), (Nat.eqb_spec (k_pending k) 0); cbn -[size]; lia.
  - unfold l_msg. rewrite Ht, length_app. cbn -[size]. lia.
  - unfold l_msg. rewrite Ht, Hst. cbn -[size]. lia.
  - unfold l_msg. rewrite Ht. destruct (k_state k); lia.
  - unfold l_msg. rewrite Ht, El. cbn -[size]. lia.
  - unfold l_msg. rewrite Ht, Hst. lia.
  - unfold l_msg. rewrite Ht, Hst. cbn -[size]. lia.
Qed.
End weight.
End move.
