(* ===== verification/PrLockCoh.v ===== *)
(** * The reservations of the nodes agree

    The lock keeps the reservations of the nodes the same: from the time the lock
    server of a membership has given the lock to the node that brings the others
    up to date, the nodes that have handled the command in progress have the
    reservations of the node that executes it, the command has the same effect
    on the others, and when no command is in progress all the nodes have the
    same reservations. *)

From S2P Require Import Prelude Nodeset PrLock PrLockProto PrLockAct PrLockStep PrLockServe PrLockRecover PrLockMove.
From stdpp Require Import options.

Section coherence.
Context {X P : Type} (rd : X → P → X).
Implicit Types (k ks kj : core X P) (cs : gmap Z (core X P)) (m : algopr_message_t P) (F R L pop : list (algopr_message_t P)).

Abbreviation to := to_node_id.
Abbreviation from := from_node_id.
Abbreviation tinc := to_membership_incarnation.

(** The node that [m] is for will have the reservations of the one that executes
    the command. *)
Definition brings m (x y : X) : Prop :=
  match type m with
  | ALGOPR_MESSAGE_PR_CMD => ∀ d, data m = Some d → rd x d = y
  | _ => x = y
  end.

Definition quiet e cs F : Prop :=
  (∀ i k, cs !! i = Some k → k_wait k = false) ∧
  (∀ m, m ∈ F → live_tok e cs m → type m ≠ ALGOPR_MESSAGE_LOCK_UPDATE_OTHER_NODE).

Record coherent e cs F : Prop := {
  ch_read i k : cs !! i = Some k → k_wait k = true → k_read k = e_new e;
  ch_ok i k j kj : cs !! i = Some k → k_wait k = true → cs !! j = Some kj → j ∈ k_ok k → k_ctx kj = k_ctx k;
  ch_xchg i k m kj : cs !! i = Some k → k_wait k = true → m ∈ F → is_xchg m = true → x_owner m = i → cs !! x_peer m = Some kj →
    brings m (k_ctx kj) (k_ctx k);
  ch_same : quiet e cs F → ∀ i j k kj, cs !! i = Some k → cs !! j = Some kj → k_ctx k = k_ctx kj
}.

(** The server of the last membership has given the lock once at least. *)
Definition ready_new e cs : Prop := ∃ ks, cs !! e_srv e = Some ks ∧ is_done ks = true ∧ is_ready ks = true.

Definition coh e cs F : Prop := ready_new e cs → coherent e cs F.

Lemma coherent_perm e cs F F' : F ≡ₚ F' → coherent e cs F → coherent e cs F'.
Proof.
  intros HF []. split; try done; intros *; rewrite <- ?HF; eauto. intros [Hq1 Hq2]. apply ch_same0. split; [done|]. intros m. rewrite HF. apply Hq2.
Qed.

Lemma coherent_free e cs F :
  (∀ j kj, cs !! j = Some kj → k_wait kj = true → False) →
  (quiet e cs F → ∀ i j k kj, cs !! i = Some k → cs !! j = Some kj → k_ctx k = k_ctx kj) → coherent e cs F.
Proof. intros Hw Hs. split; [| | |done]; intros; exfalso; eauto. Qed.

Lemma ready_done e cs F : good e cs F → ready_new e cs → ∀ i k, cs !! i = Some k → is_done k = true.
Proof. intros [_ (t & Hl & _)] (ks & Hs & Hd & Hr). exact (li_all _ _ _ _ Hl _ ks Hs Hd Hr). Qed.

Lemma change_ready e cs i k k' :
  cs !! i = Some k → is_done k' = is_done k → (is_ready k' = true → is_ready k = true) → ready_new e (<[i := k']> cs) → ready_new e cs.
Proof.
  intros Hi Hd Hr (ks & Hs & Hds & Hrs). apply lookup_insert_Some in Hs as [[Es <-]|[_ Hs]]; [|by exists ks].
  exists k. split; [by rewrite <- Es|]. split; [congruence|auto].
Qed.

(** A node whose reservations and exchanges are the same. *)
Lemma coh_same e cs F F' i k k' :
  cs !! i = Some k → is_done k' = is_done k → (is_ready k' = true → is_ready k = true) →
  k_wait k' = k_wait k → k_read k' = k_read k → k_ok k' = k_ok k → k_ctx k' = k_ctx k →
  (∀ m, m ∈ F' → m ∈ F ∨ is_xchg m = false) →
  (ready_new e (<[i := k']> cs) → ∀ m, m ∈ F → live_tok e cs m → type m = ALGOPR_MESSAGE_LOCK_UPDATE_OTHER_NODE →
    m ∈ F' ∧ live_tok e (<[i := k']> cs) m) →
  coh e cs F → coh e (<[i := k']> cs) F'.
Proof.
  intros Hi Hd Hr Ew Er Eo Ec HF Hup Hc Hrn. destruct (Hc (change_ready e cs i k k' Hi Hd Hr Hrn)) as [H1 H2 H3 H4].
  assert (Hb : ∀ j kj', <[i := k']> cs !! j = Some kj' → ∃ kj, cs !! j = Some kj ∧ k_wait kj' = k_wait kj ∧ k_read kj' = k_read kj ∧
    k_ok kj' = k_ok kj ∧ k_ctx kj' = k_ctx kj).
  { intros j kj' [[<- <-]|[_ Hj]]%lookup_insert_Some; [by exists k|by exists kj']. }
  split.
  - intros j kj' (kj & Hj & W & R & O & C)%Hb. rewrite W, R. by apply (H1 j).
  - intros j kj' x kx' (kj & Hj & W & R & O & C)%Hb Hw (kx & Hx & _ & _ & _ & Cx)%Hb. rewrite O, C, Cx in *. rewrite W in Hw. by apply (H2 j kj x kx).
  - intros j kj' m kx' (kj & Hj & W & R & O & C)%Hb Hw Hm Hx Ho (kx & Hkx & _ & _ & _ & Cx)%Hb. rewrite C, Cx. rewrite W in Hw.
    destruct (HF m Hm) as [Hm'|Hn]; [by apply (H3 j kj m kx)|congruence].
  - intros [Hq1 Hq2] j x kj' kx' (kj & Hj & _ & _ & _ & C)%Hb (kx & Hx & _ & _ & _ & Cx)%Hb. rewrite C, Cx. apply (H4) with (i := j) (j := x); [|done..]. split.
    + intros y ky Hy. destruct (decide (i = y)) as [<- |Hne].
      * rewrite Hi in Hy. injection Hy as <-. rewrite <- Ew. apply (Hq1 i). apply lookup_insert_eq.
      * apply (Hq1 y). by rewrite lookup_insert_ne.
    + intros m Hm Hl Ht. destruct (Hup Hrn m Hm Hl Ht) as [Hm' Hl']. by apply (Hq2 m).
Qed.

(** The same in the same membership. *)
Lemma coh_inert e cs R L pop i k k' :
  cs !! i = Some k → k_stage k' = k_stage k → (is_ready k' = true → is_ready k = true) →
  k_wait k' = k_wait k → k_read k' = k_read k → k_ok k' = k_ok k → k_ctx k' = k_ctx k →
  (∀ m, m ∈ L → is_xchg m = false) → (∀ m, m ∈ pop → live_tok e cs m → type m ≠ ALGOPR_MESSAGE_LOCK_UPDATE_OTHER_NODE) →
  coh e cs (pop ++ R) → coh e (<[i := k']> cs) (sentto e L ++ R).
Proof.
  intros Hi Hs Hr Ew Er Eo Ec HL Hpop. apply (coh_same e cs _ _ i k k'); try done.
  - unfold is_done. by rewrite Hs.
  - intros m [Hm|Hm]%elem_of_app; [right|left; apply elem_of_app; by right]. apply sentto_incl in Hm as [Hm _]. auto.
  - intros _ m [Hm|Hm]%elem_of_app Hl Ht; [by destruct (Hpop m Hm Hl)|]. split; [apply elem_of_app; by right|]. by apply (change_live e cs i k k').
Qed.

(** ** The actions that change the reservations or the exchanges *)

Lemma done_new e k : is_done k = true → mem_of e k = e_new e.
Proof. unfold mem_of. by intros ->. Qed.

Section acts.
Context (e : env) (cs : gmap Z (core X P)) (m : algopr_message_t P) (R : list (algopr_message_t P)) (i : Z) (k : core X P).
Context (Hg : good e cs (m :: R)) (Hi : cs !! i = Some k).

Lemma peer_hears m' j kj : m' ∈ m :: R → is_xchg m' = true → cs !! x_owner m' = Some j → cs !! x_peer m' = Some kj → hears e cs m'.
Proof using Hg.
  intros Hm Hx Ho Hp. left. pose proof (dom_new _ _ _ (go_proto _ _ _ Hg) _ _ Ho) as H1. pose proof (dom_new _ _ _ (go_proto _ _ _ Hg) _ _ Hp) as H2.
  unfold x_owner, x_peer in *. by destruct (bool_decide _).
Qed.

(** Before a grant is used, no command is in progress. *)
Lemma grant_quiet : accepts e i k m → is_grant m = true →
  (∀ j kj, cs !! j = Some kj → k_wait kj = false) ∧ (∀ m', m' ∈ R → hears e cs m' → is_xchg m' = false) ∧
  (∀ m', m' ∈ m :: R → live_tok e cs m' → m' = m).
Proof using Hi Hg.
  intros Ha Hgr. destruct Hg as [Hp (t & Hl & _)]. destruct (granted e cs m R t i k Hp Hl Hi Ha Hgr) as (-> & _ & HlR & _). split_and!.
  - intros j kj Hj. destruct (k_wait kj) eqn:Hw; [|done]. by destruct (li_wait _ _ _ _ Hl j kj Hj Hw).
  - intros m' Hm' Hh. destruct (is_xchg m') eqn:Hx; [|done]. by destruct (li_xchg _ _ _ _ HlR m' Hm' Hh Hx).
  - intros m' Hm' Hlv. pose proof (live_perm _ _ _ _ m' Hl Hm' Hlv) as E. by injection E.
Qed.

Lemma grant_same : accepts e i k m → is_grant m = true → type m = ALGOPR_MESSAGE_LOCKED → coherent e cs (m :: R) →
  ∀ j kj, cs !! j = Some kj → k_ctx kj = k_ctx k.
Proof using Hi Hg.
  intros Ha Hgr Hty Hc j kj Hj. destruct (grant_quiet Ha Hgr) as (Hq & _ & Hu). apply (ch_same _ _ _ Hc) with (i := j) (j := i); [|done..].
  split; [done|]. intros m' Hm' Hl. rewrite (Hu m' Hm' Hl), Hty. done.
Qed.

Lemma coh_begin js d p x :
  accepts e i k m → is_grant m = true → (∀ j, j ∈ js ↔ j ∈ mem_of e k ∖ {[i]}) → rd (k_ctx k) d = x →
  (type m = ALGOPR_MESSAGE_LOCK_UPDATE_OTHER_NODE ∨ k_pending k = 0%nat → ∀ y, rd y d = x) → coh e cs (m :: R) →
  coh e (<[i := set_client k true (mem_of e k) {[i]} (inc_at e i k i) p (k_seq k) x]> cs) (sentto e (cmds e i k (k_seq k) d js) ++ R).
Proof using Hi Hg.
  intros Ha Hgr Hjs Hrd Hall Hc Hrn. set (k' := set_client k _ _ _ _ _ _ _) in *.
  assert (Hrn0 : ready_new e cs) by (apply (change_ready e cs i k k'); auto). specialize (Hc Hrn0).
  pose proof (ready_done e cs _ Hg Hrn0) as Hdone. destruct (grant_quiet Ha Hgr) as (Hq & Hnx & _).
  assert (Hw : ∀ j kj, <[i := k']> cs !! j = Some kj → k_wait kj = true → j = i ∧ kj = k').
  { intros j kj [[<- <-]|[_ Hj]]%lookup_insert_Some Hw; [done|]. by rewrite (Hq j kj Hj) in Hw. }
  split.
  - intros j kj Hj [-> ->]%(Hw j kj Hj). apply (done_new e k). by apply (Hdone i).
  - intros j kj y ky Hj [-> ->]%(Hw j kj Hj) Hy Hin. cbn in Hin. apply elem_of_singleton in Hin as ->.
    rewrite lookup_insert_eq in Hy. by injection Hy as <-.
  - intros j kj m' ky Hj [-> ->]%(Hw j kj Hj) Hm' Hx Ho Hpe. apply elem_of_app in Hm' as [Hm'|Hm'].
    + apply sentto_incl in Hm' as [(y & -> & Hy)%list_elem_of_fmap _]. cbn in Hpe. change (x_peer _) with y in Hpe.
      apply Hjs, elem_of_difference in Hy as [_ Hyi]. rewrite lookup_insert_ne in Hpe by set_solver +Hyi. intros d' [= <-]. cbn [k_ctx set_client k'].
      destruct (decide (type m = ALGOPR_MESSAGE_LOCK_UPDATE_OTHER_NODE)) as [Et|Et]; [by apply Hall; left|].
      rewrite (grant_same Ha Hgr) with (j := y); [done| |done|done]. revert Hgr Et. unfold is_grant. by destruct (type m).
    + exfalso. rewrite (Hnx m' Hm') in Hx; [done|]. destruct (decide (x_peer m' = i)) as [Ep|Ep].
      * eapply (peer_hears m'); [by right|done|by rewrite Ho|by rewrite Ep].
      * rewrite lookup_insert_ne in Hpe by done. eapply (peer_hears m'); [by right|done|by rewrite Ho|done].
  - intros [Hq1 _]. by pose proof (Hq1 i k' (lookup_insert_eq _ _ _)).
Qed.

Lemma coh_release q r o b q' x :
  accepts e i k m → is_grant m = true → mem_of e k ∖ {[i]} = ∅ ∨ x = k_ctx k ∧ type m = ALGOPR_MESSAGE_LOCKED → coh e cs (m :: R) →
  coh e (<[i := set_client k false r o b 0 q' x]> cs) (sentto e [srv_msg e i k ALGOPR_MESSAGE_UNLOCK q] ++ R).
Proof using Hi Hg.
  intros Ha Hgr Hx Hc Hrn. set (k' := set_client k _ _ _ _ _ _ _) in *.
  assert (Hrn0 : ready_new e cs) by (apply (change_ready e cs i k k'); auto). specialize (Hc Hrn0).
  pose proof (ready_done e cs _ Hg Hrn0) as Hdone. destruct (grant_quiet Ha Hgr) as (Hq & _).
  assert (Hw : ∀ j kj, <[i := k']> cs !! j = Some kj → k_wait kj = true → False).
  { intros j kj [[<- <-]|[_ Hj]]%lookup_insert_Some Hw; [done|]. by rewrite (Hq j kj Hj) in Hw. }
  apply coherent_free; [exact Hw|]. intros _.
  assert (Hall : ∀ j kj, <[i := k']> cs !! j = Some kj → k_ctx kj = x).
  { intros j kj [[<- <-]|[Hne Hj]]%lookup_insert_Some; [done|]. destruct Hx as [Hx|[-> Hty]].
    - exfalso. rewrite (done_new e k (Hdone i k Hi)) in Hx. pose proof (dom_new _ _ _ (go_proto _ _ _ Hg) _ _ Hj) as Hjn. set_solver +Hx Hjn Hne.
    - by apply (grant_same Ha Hgr Hty Hc j). }
  intros a a' ka ka' H1 H2. by rewrite (Hall a ka H1), (Hall a' ka' H2).
Qed.

(** The node that waits is the only one. *)
Lemma one_wait j kj y ky : cs !! j = Some kj → k_wait kj = true → cs !! y = Some ky → k_wait ky = true → y = j.
Proof using m e R Hg.
  intros Hj Hwj Hy Hwy. destruct Hg as [_ (t & Hl & _)]. destruct (li_wait _ _ _ _ Hl j kj Hj Hwj) as [-> _].
  destruct (li_wait _ _ _ _ Hl y ky Hy Hwy) as [[= E] _]. done.
Qed.

Lemma coh_cmd d :
  to m = i → running e i k → type m = ALGOPR_MESSAGE_PR_CMD → data m = Some d → coh e cs (m :: R) →
  coh e (<[i := set_client k false (k_read k) (k_ok k) (k_beg k) (k_pending k) (k_seq k) (rd (k_ctx k) d)]> cs) (sentto e [done_msg e i k m] ++ R).
Proof using Hi Hg.
  intros Hto Hr Hty Hd Hc Hrn. set (k' := set_client k _ _ _ _ _ _ _) in *. pose proof (list_elem_of_here m R) as Hm.
  assert (Hrn0 : ready_new e cs) by (apply (change_ready e cs i k k'); auto). specialize (Hc Hrn0).
  destruct Hg as [Hp (t & Hl & _)]. pose proof (accepts_hears _ _ _ Hp m i k Hm Hi Hto Hr) as Hh.
  pose proof (running_from _ _ _ Hp m i k Hm Hi Hto Hr (ready_done e cs _ Hg Hrn0 i k Hi)) as Hfn. destruct (new_dom _ _ _ Hp _ Hfn) as [ko Hko].
  destruct (cmd_passive e cs _ t i k m Hp Hl Hi Hm Hto Hh Hty) as [Hne Hkw]. assert (Hx : is_xchg m = true) by (unfold is_xchg; by rewrite Hty).
  assert (Eo : x_owner m = from m) by (unfold x_owner; by rewrite Hty). assert (Ep : x_peer m = i) by (unfold x_peer; rewrite Hty; done).
  destruct (li_xchg _ _ _ _ Hl m Hm Hh Hx) as [Ht Hk]. rewrite Eo in Ht, Hk. rewrite Ep in Hk. destruct (Hk ko Hko) as [[_ Hnok]%elem_of_difference _].
  pose proof (li_waits _ _ _ _ Hl _ ko Ht Hko) as Hwo. pose proof (ch_xchg _ _ _ Hc (from m) ko m k Hko Hwo Hm Hx Eo ltac:(by rewrite Ep)) as Hb.
  unfold brings in Hb. rewrite Hty in Hb. specialize (Hb d Hd).
  assert (Hw : ∀ j kj, <[i := k']> cs !! j = Some kj → k_wait kj = true → j = from m ∧ kj = ko).
  { intros j kj [[<- <-]|[_ Hj]]%lookup_insert_Some Hw; [done|]. pose proof (one_wait _ _ _ _ Hko Hwo Hj Hw) as ->. split; [done|]. congruence. }
  split.
  - intros j kj Hj [-> ->]%(Hw j kj Hj). by apply (ch_read _ _ _ Hc (from m)).
  - intros j kj y ky Hj [-> ->]%(Hw j kj Hj) Hy Hin. apply lookup_insert_Some in Hy as [[<- <-]|[_ Hy]]; [done|]. by apply (ch_ok _ _ _ Hc (from m) ko y ky).
  - intros j kj m' ky Hj [-> ->]%(Hw j kj Hj) Hm' Hx' Ho Hpe. apply elem_of_app in Hm' as [Hm'|Hm'].
    + apply sentto_incl in Hm' as [->%list_elem_of_singleton _]. change (x_peer (done_msg e i k m)) with i in Hpe.
      rewrite lookup_insert_eq in Hpe. injection Hpe as <-. exact Hb.
    + assert (Hh' : hears e cs m').
      { destruct (decide (x_peer m' = i)) as [Ep'|Ep'].
        - eapply (peer_hears m'); [by right|done|by rewrite Ho|by rewrite Ep'].
        - rewrite lookup_insert_ne in Hpe by done. eapply (peer_hears m'); [by right|done|by rewrite Ho|done]. }
      pose proof (once_unique e cs m m' R t Hl Hh Hx Hm' Hh' Hx' ltac:(by rewrite Ho, Eo)) as Hpn. rewrite Ep in Hpn.
      rewrite lookup_insert_ne in Hpe by done. apply (ch_xchg _ _ _ Hc (from m) ko m' ky); auto. by right.
  - intros [Hq1 _]. pose proof (Hq1 (from m) ko) as E. rewrite lookup_insert_ne in E by done. by rewrite (E Hko) in Hwo.
Qed.

(** An answer is received. *)
Lemma coh_answer : to m = i → running e i k → type m = ALGOPR_MESSAGE_PR_CMD_DONE → coherent e cs (m :: R) → ready_new e cs →
  k_wait k = true ∧ ∀ j kj, cs !! j = Some kj → j ∈ {[from m]} ∪ k_ok k → k_ctx kj = k_ctx k.
Proof using Hi Hg.
  intros Hto Hr Hty Hc Hrn. pose proof (list_elem_of_here m R) as Hm. destruct Hg as [Hp (t & Hl & _)].
  destruct (done_facts e cs _ t i k m Hp Hl Hi Hm Hto Hr Hty) as (-> & Hkw & Hro & Hfr & _). split; [done|].
  intros j kj Hj [->%elem_of_singleton|Hin]%elem_of_union; [|by apply (ch_ok _ _ _ Hc i k j kj)].
  assert (Hx : is_xchg m = true) by (unfold is_xchg; by rewrite Hty). assert (Eo : x_owner m = i) by (unfold x_owner; by rewrite Hty).
  assert (Ep : x_peer m = from m) by (unfold x_peer; by rewrite Hty).
  pose proof (ch_xchg _ _ _ Hc i k m kj Hi Hkw Hm Hx Eo ltac:(by rewrite Ep)) as Hb. unfold brings in Hb. by rewrite Hty in Hb.
Qed.

Lemma coh_done_more :
  to m = i → running e i k → type m = ALGOPR_MESSAGE_PR_CMD_DONE → coh e cs (m :: R) →
  coh e (<[i := set_client k true (k_read k) ({[from m]} ∪ k_ok k) (k_beg k) (k_pending k) (k_seq k) (k_ctx k)]> cs) (sentto e [] ++ R).
Proof using Hi Hg.
  intros Hto Hr Hty Hc Hrn. set (k' := set_client k _ _ _ _ _ _ _) in *.
  assert (Hrn0 : ready_new e cs) by (apply (change_ready e cs i k k'); auto). specialize (Hc Hrn0).
  destruct (coh_answer Hto Hr Hty Hc Hrn0) as [Hkw Hans].
  assert (Hw : ∀ j kj, <[i := k']> cs !! j = Some kj → k_wait kj = true → j = i ∧ kj = k').
  { intros j kj [[<- <-]|[Hne Hj]]%lookup_insert_Some Hw; [done|]. pose proof (one_wait _ _ _ _ Hi Hkw Hj Hw). congruence. }
  assert (Hctx : ∀ j kj, <[i := k']> cs !! j = Some kj → ∃ kj0, cs !! j = Some kj0 ∧ k_ctx kj = k_ctx kj0).
  { intros j kj [[<- <-]|[_ Hj]]%lookup_insert_Some; [by exists k|by exists kj]. }
  split.
  - intros j kj Hj [-> ->]%(Hw j kj Hj). exact (ch_read _ _ _ Hc i k Hi Hkw).
  - intros j kj y ky Hj [-> ->]%(Hw j kj Hj) (ky0 & Hy & ->)%Hctx Hin. exact (Hans y ky0 Hy Hin).
  - intros j kj m' ky Hj [-> ->]%(Hw j kj Hj) Hm' Hx Ho (ky0 & Hy & ->)%Hctx. cbn in Hm'. exact (ch_xchg _ _ _ Hc i k m' ky0 Hi Hkw (list_elem_of_further _ _ _ Hm') Hx Ho Hy).
  - intros [Hq1 _]. by pose proof (Hq1 i k' (lookup_insert_eq _ _ _)).
Qed.

Lemma coh_done_end L o q :
  to m = i → running e i k → type m = ALGOPR_MESSAGE_PR_CMD_DONE → k_read k = {[from m]} ∪ k_ok k → coh e cs (m :: R) →
  coh e (<[i := set_client k false (k_read k) o (k_beg k) (k_pending k) q (k_ctx k)]> cs) (sentto e L ++ R).
Proof using Hi Hg.
  intros Hto Hr Hty Heq Hc Hrn. set (k' := set_client k _ _ _ _ _ _ _) in *.
  assert (Hrn0 : ready_new e cs) by (apply (change_ready e cs i k k'); auto). specialize (Hc Hrn0).
  destruct (coh_answer Hto Hr Hty Hc Hrn0) as [Hkw Hans].
  assert (Hw : ∀ j kj, <[i := k']> cs !! j = Some kj → k_wait kj = true → False).
  { intros j kj [[<- <-]|[Hne Hj]]%lookup_insert_Some Hw; [done|]. pose proof (one_wait _ _ _ _ Hi Hkw Hj Hw). congruence. }
  apply coherent_free; [exact Hw|]. intros _.
  assert (Hall : ∀ j kj, <[i := k']> cs !! j = Some kj → k_ctx kj = k_ctx k).
  { intros j kj [[<- <-]|[Hne Hj]]%lookup_insert_Some; [done|]. apply (Hans j kj Hj). rewrite <- Heq, (ch_read _ _ _ Hc i k Hi Hkw).
    by apply (dom_new _ _ _ (go_proto _ _ _ Hg) _ _ Hj). }
  intros a a' ka ka' H1 H2. by rewrite (Hall a ka H1), (Hall a' ka' H2).
Qed.

(** The lock is given to the node that brings the others up to date. *)
Lemma coh_ok_all o q :
  let k' := set_server k ALGOPR_LOCKSERVER_STATE_READY_LOCKED ({[from m]} ∪ k_acked k) o (k_locks k) in
  let F' := sentto e [a_msg e i k ALGOPR_MESSAGE_LOCK_UPDATE_OTHER_NODE o q None] ++ R in
  accepts e i k m → is_ok m = true → o ∈ mem_of e k → good e (<[i := k']> cs) F' → coh e cs (m :: R) → coh e (<[i := k']> cs) F'.
Proof using Hi Hg.
  intros k' F' Ha Hok Ho Hg' Hc. set (u := a_msg e i k ALGOPR_MESSAGE_LOCK_UPDATE_OTHER_NODE o q None) in *.
  destruct (decide (is_done k = true ∧ i = e_srv e)) as [[Hd Hsrv]|Hn].
  - intros Hrn. pose proof (ready_done _ _ _ Hg' Hrn) as Hdone. rewrite (done_new e k Hd) in Ho.
    assert (Hin : i ∈ e_new e) by exact (dom_new _ _ _ (go_proto _ _ _ Hg) _ _ Hi).
    assert (Hu : u ∈ F').
    { apply elem_of_app. left. apply list_elem_of_filter. split; [done|]. by left. }
    assert (Hlive : live_tok e (<[i := k']> cs) u).
    { split; [done|]. split; [by left|]. destruct (new_dom _ _ _ (go_proto _ _ _ Hg') _ Ho) as [ko Hko]. unfold arrives. cbn. rewrite Hko.
      unfold inc_at. rewrite (Hdone o ko Hko), Hd, (inc_sym e o i) by apply (go_proto _ _ _ Hg). lia. }
    destruct Hg' as [_ (t & Hl & _)]. pose proof (live_perm _ _ _ _ u Hl Hu Hlive) as Et.
    assert (Hw : ∀ j kj, <[i := k']> cs !! j = Some kj → k_wait kj = true → False).
    { intros j kj Hj Hw. destruct (li_wait _ _ _ _ Hl j kj Hj Hw) as [-> _]. done. }
    apply coherent_free; [exact Hw|]. intros [_ Hq]. by destruct (Hq u Hu Hlive).
  - intros Hrn. exfalso. apply Hn. destruct Hrn as (ks & Hs & Hds & Hrs). destruct Hg' as [Hp' (t & Hl & _)].
    assert (Hi' : <[i := k']> cs !! i = Some k') by apply lookup_insert_eq. pose proof (li_all _ _ _ _ Hl _ ks Hs Hds Hrs i k' Hi') as Hd.
    split; [done|]. exact (ready_unique _ _ _ Hp' t i (e_srv e) k' ks Hl Hi' Hs eq_refl Hrs).
Qed.
End acts.

Lemma act_coh e cs R i k pop a k' L :
  cs !! i = Some k → act rd e i k pop a k' L → good e cs (pop ++ R) → good e (<[i := k']> cs) (sentto e L ++ R) →
  coh e cs (pop ++ R) → coh e (<[i := k']> cs) (sentto e L ++ R).
Proof.
  intros Hi Ha Hg Hg' Hc.
  assert (Hty : ∀ m t, type m = t → t ≠ ALGOPR_MESSAGE_LOCK_UPDATE_OTHER_NODE →
    ∀ m', m' ∈ [m] → live_tok e cs m' → type m' ≠ ALGOPR_MESSAGE_LOCK_UPDATE_OTHER_NODE) by (intros m t <- Hn m' ->%list_elem_of_singleton; done).
  assert (Hn1 : ∀ m, m ∈ [] → is_xchg m = false) by (by intros m ?%not_elem_of_nil).
  assert (Hn2 : ∀ m, m ∈ [] → live_tok e cs m → type m ≠ ALGOPR_MESSAGE_LOCK_UPDATE_OTHER_NODE) by (by intros m ?%not_elem_of_nil).
  destruct Ha.
  - apply (coh_inert e cs R [] [m] i k); try done. intros m' ->%list_elem_of_singleton (_ & _ & Har). unfold arrives in Har. subst i. rewrite Hi in Har. lia.
  - by apply (coh_inert e cs R [] [] i k).
  - apply (coh_inert e cs R _ [] i k); try done. intros m. case_match; [|by intros ?%not_elem_of_nil]. by intros ->%list_elem_of_singleton.
  - by eapply coh_begin.
  - by eapply coh_release.
  - by eapply coh_cmd.
  - by eapply coh_done_more.
  - by eapply coh_done_end.
  - apply (coh_inert e cs R [] [m] i k); try done. by eapply Hty.
  - apply (coh_inert e cs R _ [m] i k); try done; [intros _; unfold is_ready; by rewrite H1|by intros m' ->%list_elem_of_singleton|by eapply Hty].
  - destruct Hg as [Hp (t & Hl & _)]. destruct (unlock_facts e cs m R t i k Hp Hl Hi H H0) as (Hst & _).
    apply (coh_inert e cs R [] [m] i k); try done; [intros _; unfold is_ready; by rewrite Hst|by eapply Hty].
  - destruct Hg as [Hp (t & Hl & _)]. destruct (unlock_facts e cs m R t i k Hp Hl Hi H H0) as (Hst & _).
    apply (coh_inert e cs R _ [m] i k); try done; [intros _; unfold is_ready; by rewrite Hst|by intros m0 ->%list_elem_of_singleton|by eapply Hty].
  - apply (coh_inert e cs R [] [m] i k); try done. by eapply Hty.
  - eapply coh_ok_all; try done. unfold is_ok. by rewrite H0.
Qed.

(** ** Recoveries *)

Lemma gone_not_live e cs F : good e cs F → ready_new e cs → ∀ m, m ∈ F → gone e m → ¬ live_tok e cs m.
Proof.
  intros Hg Hrn m Hm Hgo (_ & [Hh|Hh] & _); [done|]. pose proof (mo_to _ _ _ (po_msg _ _ _ (go_proto _ _ _ Hg) m Hm)) as Hto.
  destruct (new_dom _ _ _ (go_proto _ _ _ Hg) _ Hto) as [kt Ht]. pose proof (ready_done _ _ _ Hg Hrn _ _ Ht) as Hd.
  unfold stage_of in Hh. rewrite Ht in Hh. unfold is_done in Hd. by rewrite Hh in Hd.
Qed.

Lemma coh_lost e cs pop F : Forall (gone e) pop → good e cs (pop ++ F) → coh e cs (pop ++ F) → coh e cs F.
Proof.
  intros Hp Hg Hc Hrn. specialize (Hc Hrn). destruct Hc as [H1 H2 H3 H4]. split; [done|done| |].
  - intros i k m kj Hi Hw Hm. apply H3; [done|done|]. apply elem_of_app. by right.
  - intros [Hq1 Hq2]. apply H4. split; [done|]. intros m Hm Hl Ht. pose proof Hm as [Hm'|Hm']%elem_of_app; [|by apply (Hq2 m)].
    rewrite Forall_forall in Hp. by apply (gone_not_live e cs (pop ++ F) Hg Hrn m Hm (Hp m Hm')).
Qed.

Lemma not_ready_stage e cs F i k : good e cs F → cs !! i = Some k → is_done k = false → ready_new e cs → False.
Proof. intros Hg Hi Hd Hrn. by rewrite (ready_done e cs F Hg Hrn i k Hi) in Hd. Qed.

(** The invariant of the reservations is kept. *)
Lemma move_coh e cs F e' cs' F' : good e cs F → coh e cs F → move rd e cs F e' cs' F' → coh e' cs' F'.
Proof.
  intros Hg Hc Hm. pose proof (move_good _ _ _ _ _ _ _ Hm Hg) as Hg'.
  destruct Hm as [i k pop a k' L R F' Hi Ha HF HF'|pop F' Hp HF|i k F' Hi Hs HF|i k k' L F' Hi Hs Ht HF|i k pop F' Hi Hs Hp HF Hto
    |cs' M srv F' Hv Hsrv Hst Hdom Hcs HF].
  - intros Hrn. eapply coherent_perm; [symmetry; exact HF'|]. revert Hrn. change (coh e (<[i := k']> cs) (sentto e L ++ R)).
    eapply act_coh; [done|done|by eapply good_perm|by eapply good_perm|]. intros Hrn. eapply coherent_perm; [exact HF|auto].
  - eapply coh_lost; [exact Hp|by eapply good_perm|]. intros Hrn. eapply coherent_perm; [exact HF|auto].
  - intros Hrn. destruct (not_ready_stage _ _ _ i _ Hg' (lookup_insert_eq _ _ _) eq_refl Hrn).
  - intros Hrn. exfalso. apply (not_ready_stage e cs F i k Hg Hi); [unfold is_done; by rewrite Hs|].
    assert (Hst : is_ready k' = false) by (destruct Ht; cbn; unfold is_ready; cbn; by destruct (_ =? _)).
    destruct Hrn as (ks & Hks & Hds & Hrs). apply lookup_insert_Some in Hks as [[_ <-]|[_ Hks]]; [congruence|by exists ks].
  - assert (HgF : good e cs F') by (eapply good_lost; [exact Hp|by eapply good_perm]).
    assert (HcF : coh e cs F').
    { eapply coh_lost; [exact Hp|by eapply good_perm|]. intros Hrn. eapply coherent_perm; [exact HF|auto]. }
    eapply coh_same; [done|unfold is_done; by rewrite Hs|done..|by left| |exact HcF].
    intros Hrn m Hm (H1 & H2 & H3) _. split; [done|]. split; [done|]. split.
    + apply stage_hears_eq with (k := k); [done|done|cbn; lia|]. split; [done|]. by apply Hto.
    + apply stage_arrives with (k := k); [done|unfold is_done; by rewrite Hs|done].
  - intros (ks & Hks & Hds & _). destruct (Hcs _ _ Hks) as [(k & _ & ->)|[_ Hf]]; [done|]. unfold is_done in Hds. by rewrite (proj1 Hf) in Hds.
Qed.
End coherence.
