(* ===== verification/PrLockLive.v ===== *)
(** * The reservation lock makes progress

    What is waited for is on its way: a node that waits for an answer has a
    message in the exchange, a node that was told the membership has told the
    lock server that it is ready, and a node that has commands has asked for the
    lock.  A system without messages has therefore no command left. *)

From S2P Require Import Prelude Nodeset PrLock PrLockProto PrLockAct PrLockStep PrLockServe PrLockRecover PrLockMove PrLockCoh.
From stdpp Require Import options.

Section live.
Context {X P : Type} (rd : X → P → X).
Implicit Types (k ks kj : core X P) (cs : gmap Z (core X P)) (m : algopr_message_t P) (F R L pop : list (algopr_message_t P)).

Abbreviation to := to_node_id.
Abbreviation from := from_node_id.
Abbreviation tinc := to_membership_incarnation.

Definition has F (Q : algopr_message_t P → Prop) : Prop := ∃ m, m ∈ F ∧ Q m.

Definition exch (i j : Z) m : Prop := is_xchg m = true ∧ x_owner m = i ∧ x_peer m = j.
(** Messages of the last membership. *)
Definition to_srv e (i : Z) m : Prop := from m = i ∧ to m = e_srv e ∧ tinc m = e_inc e i (e_srv e).
Definition cur_ok e (i : Z) m : Prop := type m = ALGOPR_MESSAGE_LOCKSERVER_OK ∧ to_srv e i m.
Definition cur_lock e (i : Z) m : Prop := type m = ALGOPR_MESSAGE_LOCK ∧ to_srv e i m.
Definition cur_grant e (i : Z) m : Prop := is_grant m = true ∧ to m = i ∧ from m = e_srv e ∧ tinc m = e_inc e (e_srv e) i.

Definition server_is e cs (Q : core X P → Prop) : Prop := ∃ ks, cs !! e_srv e = Some ks ∧ is_done ks = true ∧ Q ks.

Definition told_ok e cs F (i : Z) k : Prop :=
  (k_wait k = true ∧ k_beg k ≠ e_inc e i i) ∨ has F (cur_ok e i) ∨ server_is e cs (λ ks, i ∈ k_acked ks ∨ is_ready ks = true).
Definition asked e cs F (i : Z) : Prop :=
  has F (cur_lock e i) ∨ server_is e cs (λ ks, has (k_locks ks) (λ m, from m = i)) ∨ has F (cur_grant e i).

Record live e cs F : Prop := {
  lv_xchg i k j : cs !! i = Some k → k_wait k = true → j ∈ k_read k ∖ k_ok k → j ∈ e_new e → has F (exch i j);
  lv_ok i k : cs !! i = Some k → is_done k = true → told_ok e cs F i k;
  lv_lock i k : cs !! i = Some k → is_done k = true → k_wait k = false → k_pending k ≠ 0%nat → asked e cs F i;
  lv_wait ks : cs !! e_srv e = Some ks → is_done ks = true → k_state ks = ALGOPR_LOCKSERVER_STATE_WAIT_ALL_OK → k_acked ks ≠ e_new e;
  lv_queue ks : cs !! e_srv e = Some ks → is_done ks = true → k_state ks = ALGOPR_LOCKSERVER_STATE_READY_UNLOCKED → k_locks ks = []
}.

(** ** The messages that are kept *)

Lemma has_mono F F' (Q Q' : algopr_message_t P → Prop) : (∀ m, m ∈ F → Q m → m ∈ F' ∧ Q' m) → has F Q → has F' Q'.
Proof. intros HF (m & Hm & HQ). exists m. auto. Qed.

Lemma has_incl F F' Q : (∀ m, m ∈ F → m ∈ F') → has F Q → has F' Q.
Proof. intros HF. apply has_mono. auto. Qed.

Lemma has_keep e pop R L Q : (∀ m, m ∈ pop → ¬ Q m) → has (pop ++ R) Q → has (sentto e L ++ R) Q.
Proof. intros Hp. apply has_mono. intros m [Hm|Hm]%elem_of_app HQ; [by destruct (Hp m)|]. split; [apply elem_of_app; by right|done]. Qed.

Lemma has_sent e L R m Q : m ∈ L → to m ∈ e_new e → Q m → has (sentto e L ++ R) Q.
Proof. intros Hm Hto HQ. exists m. split; [|done]. apply elem_of_app. left. by apply list_elem_of_filter. Qed.

Lemma live_incl e cs F F' : (∀ m, m ∈ F → m ∈ F') → live e cs F → live e cs F'.
Proof.
  intros HF []. split; try done.
  - intros i k j ????. by apply (has_incl F F'), (lv_xchg0 i k j).
  - intros i k Hi Hd. destruct (lv_ok0 i k Hi Hd) as [?|[?|?]]; [by left|right; left|by right; right]. by apply (has_incl F F').
  - intros i k Hi Hd Hw Hp. destruct (lv_lock0 i k Hi Hd Hw Hp) as [?|[?|?]]; [left|by right; left|right; right]; by apply (has_incl F F').
Qed.

Lemma live_perm_eq e cs F F' : F ≡ₚ F' → live e cs F → live e cs F'.
Proof. intros HF. apply live_incl. intros m. by rewrite HF. Qed.

(** The server after a change of a node. *)
Lemma server_change e cs i k k' (Q Q' : core X P → Prop) :
  cs !! i = Some k → is_done k' = is_done k → (∀ ks, Q ks → Q' ks) → (Q k → Q' k') → server_is e cs Q → server_is e (<[i := k']> cs) Q'.
Proof.
  intros Hi Hd HQ Hk (ks & Hs & Hds & HQs). destruct (decide (i = e_srv e)) as [E|E].
  - exists k'. rewrite <- E in Hs |- *. rewrite Hi in Hs. injection Hs as <-. split; [apply lookup_insert_eq|]. split; [congruence|auto].
  - exists ks. rewrite lookup_insert_ne by done. auto.
Qed.

(** ** An action of a client *)

Lemma live_client e cs R L pop i k k' :
  cs !! i = Some k → k_stage k' = k_stage k → k_state k' = k_state k → k_acked k' = k_acked k → k_locks k' = k_locks k →
  (∀ m, m ∈ pop → to m = i ∧ type m ≠ ALGOPR_MESSAGE_LOCKSERVER_OK ∧ type m ≠ ALGOPR_MESSAGE_LOCK) →
  (k_wait k' = true → ∀ j, j ∈ k_read k' ∖ k_ok k' → j ∈ e_new e → has (sentto e L ++ R) (exch i j)) →
  (∀ o ko j, cs !! o = Some ko → o ≠ i → k_wait ko = true → has (pop ++ R) (exch o j) → has (sentto e L ++ R) (exch o j)) →
  (is_done k = true → k_wait k = true → k_beg k ≠ e_inc e i i → told_ok e cs (sentto e L ++ R) i k') →
  (is_done k = true → k_wait k' = false → k_pending k' ≠ 0%nat → asked e cs (sentto e L ++ R) i) →
  live e cs (pop ++ R) → live e (<[i := k']> cs) (sentto e L ++ R).
Proof.
  intros Hi Hs Est Eac Elo Hpop Hx Hxo Hok Hlk Hl. destruct Hl. set (F' := sentto e L ++ R) in *.
  assert (Hd : is_done k' = is_done k) by (unfold is_done; by rewrite Hs).
  assert (Hsrv : ∀ Q : core X P → Prop, (Q k → Q k') → server_is e cs Q → server_is e (<[i := k']> cs) Q) by (intros Q HQ; by apply server_change with (k := k)).
  assert (Hto : ∀ j kj, told_ok e cs F' j kj → told_ok e (<[i := k']> cs) F' j kj).
  { intros j kj [?|[?|Hq]]; [by left|by right; left|right; right]. apply Hsrv; [|done]. cbn. unfold is_ready. by rewrite Est, Eac. }
  assert (Hasked : ∀ j, asked e cs F' j → asked e (<[i := k']> cs) F' j).
  { intros j [?|[Hq|?]]; [by left|right; left|by right; right]. apply Hsrv; [|done]. cbn. by rewrite Elo. }
  assert (Hkeep : ∀ j, has (pop ++ R) (cur_ok e j) → has F' (cur_ok e j)).
  { intros j. apply has_keep. intros m Hm [Ht _]. by destruct (Hpop m Hm) as (_ & ? & _). }
  split.
  - intros y ky j Hy. revert y ky Hy.
    apply (change_all cs i k' (λ y ky, k_wait ky = true → j ∈ k_read ky ∖ k_ok ky → j ∈ e_new e → has F' (exch y j))); [|auto].
    intros y ky Hne Hy Hw Hj Hjn. apply (Hxo y ky); [done..|]. by apply (lv_xchg0 y ky).
  - apply (change_all cs i k' (λ y ky, is_done ky = true → told_ok e (<[i := k']> cs) F' y ky)).
    + intros y ky Hne Hy Hdy. apply Hto. destruct (lv_ok0 y ky Hy Hdy) as [?|[?|?]]; [by left|right; left; auto|by right; right].
    + rewrite Hd. intros Hdk. apply Hto. destruct (lv_ok0 i k Hi Hdk) as [[Hw Hb]|[?|?]]; [by apply Hok|right; left; auto|by right; right].
  - apply (change_all cs i k' (λ y ky, is_done ky = true → k_wait ky = false → k_pending ky ≠ 0%nat → asked e (<[i := k']> cs) F' y)).
    + intros y ky Hne Hy Hdy Hw Hp. apply Hasked. destruct (lv_lock0 y ky Hy Hdy Hw Hp) as [?|[?|?]]; [left|by right; left|right; right].
      * eapply has_keep; [|done]. intros m Hm [Ht _]. by destruct (Hpop m Hm) as (_ & _ & ?).
      * eapply has_keep; [|done]. intros m Hm (_ & Ht & _). destruct (Hpop m Hm) as (? & _). congruence.
    + rewrite Hd. intros Hdk Hw Hp. by apply Hasked, Hlk.
  - intros ks [[E <-]|[_ Hks]]%lookup_insert_Some; [|by apply lv_wait0]. rewrite Hd, Est, Eac. apply lv_wait0. by rewrite <- E.
  - intros ks [[E <-]|[_ Hks]]%lookup_insert_Some; [|by apply lv_queue0]. rewrite Hd, Est, Elo. apply lv_queue0. by rewrite <- E.
Qed.

(** What a client keeps. *)
Lemma told_keep e cs R L pop i k :
  cs !! i = Some k → live e cs (pop ++ R) → is_done k = true → k_wait k = false → k_pending k ≠ 0%nat →
  (∀ m, m ∈ pop → type m ≠ ALGOPR_MESSAGE_LOCK ∧ is_grant m = false) → asked e cs (sentto e L ++ R) i.
Proof.
  intros Hi Hl Hd Hw Hp Hpop. destruct (lv_lock _ _ _ Hl i k Hi Hd Hw Hp) as [?|[?|?]]; [left|by right; left|right; right].
  - eapply has_keep; [|done]. intros m Hm [Ht _]. by destruct (Hpop m Hm) as [? _].
  - eapply has_keep; [|done]. intros m Hm (Ht & _). destruct (Hpop m Hm) as [_ ?]. congruence.
Qed.

(** A message that a node sends to the server of the last membership. *)
Lemma sent_srv e cs F i k t q :
  proto_ok e cs F → cs !! i = Some k → is_done k = true → to_srv e i (srv_msg e i k t q) ∧ to (srv_msg e i k t q) ∈ e_new e.
Proof.
  intros Hp Hi Hd. unfold to_srv, srv_msg, a_msg, srv_at, inc_at. rewrite Hd. split; [done|]. cbn. apply (po_env _ _ _ Hp).
  pose proof (dom_new _ _ _ Hp _ _ Hi) as Hin. set_solver +Hin.
Qed.

Lemma sent_lock e cs F R L i k k' q :
  proto_ok e cs F → cs !! i = Some k → is_done k' = true → is_done k = is_done k' → srv_msg e i k' ALGOPR_MESSAGE_LOCK q ∈ L →
  has (sentto e L ++ R) (cur_lock e i).
Proof.
  intros Hp Hi Hd Hdk Hm. rewrite Hd in Hdk.
  assert (E : ∀ t, srv_msg e i k' t q = srv_msg e i k t q) by (intros t; unfold srv_msg, a_msg, srv_at, inc_at; by rewrite Hd, Hdk).
  rewrite E in Hm. destruct (sent_srv e cs F i k ALGOPR_MESSAGE_LOCK q Hp Hi Hdk) as [Hs Hto]. by apply (has_sent e L R _ _ Hm Hto).
Qed.

Lemma demand_in e i k q : k_pending k ≠ 0%nat → srv_msg e i k ALGOPR_MESSAGE_LOCK q ∈ demand e i k q.
Proof. intros Hp. unfold demand. destruct (Nat.eqb_spec (k_pending k) 0); [done|by left]. Qed.

Lemma x_cmd m : type m = ALGOPR_MESSAGE_PR_CMD → x_owner m = from m ∧ x_peer m = to m.
Proof. unfold x_owner, x_peer. by intros ->. Qed.
Lemma x_done m : type m = ALGOPR_MESSAGE_PR_CMD_DONE → x_owner m = to m ∧ x_peer m = from m.
Proof. unfold x_owner, x_peer. by intros ->. Qed.

Section acts.
Context (e : env) (cs : gmap Z (core X P)) (m : algopr_message_t P) (R : list (algopr_message_t P)) (i : Z) (k : core X P).
Context (Hg : good e cs (m :: R)) (Hi : cs !! i = Some k) (Hl : live e cs (m :: R)).

Lemma live_begin js d p x :
  accepts e i k m → is_grant m = true → (∀ j, j ∈ js ↔ j ∈ mem_of e k ∖ {[i]}) →
  live e (<[i := set_client k true (mem_of e k) {[i]} (inc_at e i k i) p (k_seq k) x]> cs) (sentto e (cmds e i k (k_seq k) d js) ++ R).
Proof using Hl Hi Hg.
  intros Ha Hgr Hjs. destruct (grant_quiet e cs m R i k Hg Hi Ha Hgr) as (Hq & _ & _).
  apply (live_client e cs R _ [m] i k); try done.
  - intros m' ->%list_elem_of_singleton. split; [apply Ha|]. revert Hgr. unfold is_grant. by destruct (type m).
  - intros _ j Hj Hjn. cbn in Hj. apply Hjs in Hj.
    apply (has_sent e _ R (a_msg e i k ALGOPR_MESSAGE_PR_CMD j (k_seq k) (Some d))); [|done|done]. apply list_elem_of_fmap. by exists j.
  - intros o ko j Ho _ Hw. by rewrite (Hq o ko Ho) in Hw.
  - intros _ Hw. by rewrite (Hq i k Hi) in Hw.
Qed.

Lemma live_release q r o b q' x :
  accepts e i k m → is_grant m = true →
  live e (<[i := set_client k false r o b 0 q' x]> cs) (sentto e [srv_msg e i k ALGOPR_MESSAGE_UNLOCK q] ++ R).
Proof using Hl Hi Hg.
  intros Ha Hgr. destruct (grant_quiet e cs m R i k Hg Hi Ha Hgr) as (Hq & _ & _).
  apply (live_client e cs R _ [m] i k); try done.
  - intros m' ->%list_elem_of_singleton. split; [apply Ha|]. revert Hgr. unfold is_grant. by destruct (type m).
  - intros y ky j Hy _ Hw. by rewrite (Hq y ky Hy) in Hw.
  - intros _ Hw. by rewrite (Hq i k Hi) in Hw.
Qed.

Lemma live_cmd x :
  to m = i → running e i k → type m = ALGOPR_MESSAGE_PR_CMD →
  live e (<[i := set_client k false (k_read k) (k_ok k) (k_beg k) (k_pending k) (k_seq k) x]> cs) (sentto e [done_msg e i k m] ++ R).
Proof using Hl Hi Hg.
  intros Hto Hr Hty. destruct Hg as [Hp (t & Hlk & _)]. pose proof (list_elem_of_here m R) as Hm.
  pose proof (accepts_hears _ _ _ Hp m i k Hm Hi Hto Hr) as Hh. destruct (cmd_passive e cs _ t i k m Hp Hlk Hi Hm Hto Hh Hty) as [Hne Hw].
  apply (live_client e cs R _ [m] i k); try done.
  - intros m' ->%list_elem_of_singleton. by rewrite Hty.
  - intros y ky j Hy _ _ (m' & [-> |Hm']%elem_of_cons & Hx); [|exists m'; split; [apply elem_of_app; by right|done]].
    apply (has_sent e _ R (done_msg e i k m)); [by left| |].
    + cbn. destruct Hx as (_ & Ho & _). rewrite (proj1 (x_cmd m Hty)) in Ho. rewrite Ho. by apply (dom_new _ _ _ Hp y ky).
    + destruct Hx as (_ & Ho & Hj). destruct (x_cmd m Hty) as [E1 E2]. rewrite E1 in Ho. rewrite E2 in Hj. split; [done|]. split; [done|].
      by rewrite <- Hj, Hto.
  - intros _ Hw'. congruence.
  - intros Hd _ Hpd. apply (told_keep e cs R _ [m] i k); try done. intros m' ->%list_elem_of_singleton. unfold is_grant. by rewrite Hty.
Qed.

(** The node that receives an answer is the only one that waits. *)
Lemma answer_alone : to m = i → running e i k → type m = ALGOPR_MESSAGE_PR_CMD_DONE →
  (∀ m', m' ∈ [m] → to m' = i ∧ type m' ≠ ALGOPR_MESSAGE_LOCKSERVER_OK ∧ type m' ≠ ALGOPR_MESSAGE_LOCK) ∧
  (∀ o ko j L, cs !! o = Some ko → o ≠ i → k_wait ko = true → has ([m] ++ R) (exch o j) → has (sentto e L ++ R) (exch o j)).
Proof using Hi Hg.
  intros Hto Hr Hty. split; [intros m' ->%list_elem_of_singleton; by rewrite Hty|]. intros o ko j L Ho Hne Hw.
  destruct Hg as [Hp (t & Hlk & _)]. destruct (done_facts e cs _ t i k m Hp Hlk Hi (list_elem_of_here _ _) Hto Hr Hty) as (-> & _).
  destruct (li_wait _ _ _ _ Hlk o ko Ho Hw) as [[= E] _]. congruence.
Qed.

Lemma live_done_more :
  to m = i → running e i k → type m = ALGOPR_MESSAGE_PR_CMD_DONE → k_wait k = true →
  live e (<[i := set_client k true (k_read k) ({[from m]} ∪ k_ok k) (k_beg k) (k_pending k) (k_seq k) (k_ctx k)]> cs) (sentto e [] ++ R).
Proof using Hl Hi Hg.
  intros Hto Hr Hty Hw. destruct (answer_alone Hto Hr Hty) as [Hpop Hxo]. apply (live_client e cs R _ [m] i k); try done.
  - intros _ j Hj Hjn. cbn in Hj. destruct (lv_xchg _ _ _ Hl i k j Hi Hw) as (m' & [-> |Hm']%elem_of_cons & Hx); [set_solver +Hj|done| |by exists m'].
    destruct Hx as (_ & _ & Hpe). rewrite (proj2 (x_done m Hty)) in Hpe. subst j. exfalso. set_solver +Hj.
  - intros o ko j. apply Hxo.
  - intros Hd _ Hb. by left.
Qed.

Lemma live_done_end o q :
  to m = i → running e i k → type m = ALGOPR_MESSAGE_PR_CMD_DONE →
  live e (<[i := set_client k false (k_read k) o (k_beg k) (k_pending k) q (k_ctx k)]> cs)
    (sentto e (srv_msg e i k (finish_of e i k) q :: demand e i k q) ++ R).
Proof using Hl Hi Hg.
  intros Hto Hr Hty. destruct (answer_alone Hto Hr Hty) as [Hpop Hxo]. pose proof (go_proto _ _ _ Hg) as Hp.
  apply (live_client e cs R _ [m] i k); try done.
  - intros y ky j. apply Hxo.
  - intros Hd _ Hb. right; left. destruct (sent_srv e cs _ i k (finish_of e i k) q Hp Hi Hd) as [Hs Hin].
    apply (has_sent e _ R (srv_msg e i k (finish_of e i k) q)); [by left|done|]. split; [|done]. cbn. unfold finish_of, inc_at. rewrite Hd.
    by rewrite (proj2 (Z.eqb_neq _ _) (not_eq_sym Hb)).
  - intros Hd _ Hpd. left. apply (sent_lock e cs _ R _ i k k q Hp Hi Hd eq_refl). right. by apply demand_in.
Qed.
End acts.

Lemma live_command e cs R i k :
  good e cs R → cs !! i = Some k → live e cs R →
  live e (<[i := set_client k (k_wait k) (k_read k) (k_ok k) (k_beg k) (S (k_pending k)) (k_seq k) (k_ctx k)]> cs)
    (sentto e (if negb (k_wait k) && (k_pending k =? 0)%nat then [srv_msg e i k ALGOPR_MESSAGE_LOCK (k_seq k)] else []) ++ R).
Proof.
  intros Hg Hi Hl. apply (live_client e cs R _ [] i k); try done.
  - by intros m ?%not_elem_of_nil.
  - intros Hw j Hj Hjn. eapply (has_keep e []); [by intros m ?%not_elem_of_nil|]. by apply (lv_xchg _ _ _ Hl i k).
  - intros o ko j _ _ _. apply (has_keep e []). by intros m ?%not_elem_of_nil.
  - intros Hd Hw Hb. by left.
  - intros Hd Hw _. cbn in Hw. rewrite Hw. cbn [negb andb]. destruct (Nat.eqb_spec (k_pending k) 0) as [E|E].
    + left. apply (sent_lock e cs _ R _ i k k (k_seq k) (go_proto _ _ _ Hg) Hi Hd eq_refl). by left.
    + apply (told_keep e cs R _ [] i k); try done. by intros m ?%not_elem_of_nil.
Qed.

(** ** An action of the server *)

Section serve.
Context (e : env) (cs : gmap Z (core X P)) (m : algopr_message_t P) (R L : list (algopr_message_t P)) (i : Z) (k : core X P).
Context (st : lockserver_state_t) (ac : gset Z) (ow : Z) (lk : list (algopr_message_t P)).
Context (Hg : good e cs (m :: R)) (Hi : cs !! i = Some k) (Hl : live e cs (m :: R)) (Ha : accepts e i k m).
Let k' := set_server k st ac ow lk.
Let cs' := <[i := k']> cs.
Let F' := sentto e L ++ R.
Hypothesis Hfl : flags_of (type m) = (false, true).
Hypothesis Hac : ∀ j, j ∈ k_acked k ∨ is_ready k = true → j ∈ ac ∨ is_ready k' = true.
Hypothesis Hok : type m = ALGOPR_MESSAGE_LOCKSERVER_OK → from m ∈ ac ∨ is_ready k' = true.
Hypothesis Hask : is_done k = true → ∀ m', m' ∈ k_locks k ∨ m' = m ∧ type m = ALGOPR_MESSAGE_LOCK →
  has lk (λ m0, from m0 = from m') ∨ has F' (cur_grant e (from m')).
Hypothesis Hwait : is_done k = true → st = ALGOPR_LOCKSERVER_STATE_WAIT_ALL_OK → ac ≠ e_new e.
Hypothesis Hqueue : is_done k = true → st = ALGOPR_LOCKSERVER_STATE_READY_UNLOCKED → lk = [].

(** A message of the last membership is accepted by its server. *)
Lemma serve_new j : is_Some (cs !! j) → to_srv e j m → is_done k = true ∧ i = e_srv e.
Proof using st lk ac R L Hwait Hqueue Hi Hg Hask Ha F'.
  intros [kj Hj] (Hf & Ht & Hinc). pose proof (go_proto _ _ _ Hg) as Hp. pose proof (dom_new _ _ _ Hp _ _ Hj) as Hjn.
  pose proof (dom_new _ _ _ Hp _ _ Hi) as Hin. destruct Ha as [Hto _ Hac']. assert (E : i = e_srv e) by congruence. split; [|done].
  destruct (is_done k) eqn:Hd; [done|exfalso]. unfold inc_at in Hac'. rewrite Hd, Hinc, Hf, <- E in Hac'.
  rewrite (inc_member e j i (po_env _ _ _ Hp) Hjn Hin), (oldinc_sym e i j (po_env _ _ _ Hp)) in Hac'. lia.
Qed.

Lemma serve_kind : is_xchg m = false ∧ is_grant m = false.
Proof using st ow lk k' k e ac X R L Hok Hfl Hask F'. revert Hfl. unfold is_xchg, is_grant. by destruct (type m). Qed.

Lemma serve_client y ky : cs' !! y = Some ky → ∃ ky0, cs !! y = Some ky0 ∧ is_done ky = is_done ky0 ∧ k_wait ky = k_wait ky0 ∧
  k_read ky = k_read ky0 ∧ k_ok ky = k_ok ky0 ∧ k_beg ky = k_beg ky0 ∧ k_pending ky = k_pending ky0.
Proof using Hi. intros [[<- <-]|[_ Hy]]%lookup_insert_Some; [by exists k|by exists ky]. Qed.

Lemma live_serve : live e cs' F'.
Proof using m Hwait Hqueue Hok Hl Hi Hg Hfl Hask Hac Ha.
  destruct serve_kind as [Hnx Hng]. destruct Hl. split.
  - intros y ky j (ky0 & Hy & _ & -> & -> & -> & _)%serve_client Hw Hj Hjn. eapply (has_keep e [m]); [|by apply (lv_xchg0 y ky0)].
    intros m' ->%list_elem_of_singleton (Hx & _). congruence.
  - intros y ky (ky0 & Hy & -> & Ew & _ & _ & Eb & _)%serve_client Hd. unfold told_ok. rewrite Ew, Eb.
    destruct (lv_ok0 y ky0 Hy Hd) as [?|[Hh|Hh]]; [by left|right|right; right].
    + destruct Hh as (m' & [-> |Hm']%elem_of_cons & [Ht Hs]); [right|left; exists m'; split; [apply elem_of_app; by right|done]].
      destruct (serve_new y ltac:(by eexists) Hs) as [Hdk E]. exists k'. split; [rewrite <- E; apply lookup_insert_eq|]. split; [done|].
      destruct Hs as (<- & _). by apply Hok.
    + apply (server_change e cs i k k' (λ ks, y ∈ k_acked ks ∨ is_ready ks = true)); [done|done|done|exact (Hac y)|exact Hh].
  - intros y ky (ky0 & Hy & -> & -> & _ & _ & _ & ->)%serve_client Hd Hw Hpd. unfold asked.
    assert (Hgr : has (m :: R) (cur_grant e y) → has F' (cur_grant e y)).
    { apply (has_keep e [m]). intros m' ->%list_elem_of_singleton (Hgr & _). congruence. }
    assert (Hin : ∀ m', is_done k = true → i = e_srv e → from m' = y → has lk (λ m0, from m0 = from m') ∨ has F' (cur_grant e (from m')) →
      server_is e cs' (λ ks, has (k_locks ks) (λ m0, from m0 = y)) ∨ has F' (cur_grant e y)).
    { intros m' Hdk E <- [Hh|Hh]; [left|by right]. exists k'. split; [rewrite <- E; apply lookup_insert_eq|done]. }
    destruct (lv_lock0 y ky0 Hy Hd Hw Hpd) as [Hh|[Hh|Hh]]; [| |right; right; auto].
    + destruct Hh as (m' & [-> |Hm']%elem_of_cons & [Ht Hs]); [right|left; exists m'; split; [apply elem_of_app; by right|done]].
      destruct (serve_new y ltac:(by eexists) Hs) as [Hdk E]. apply (Hin m); [done|done|apply Hs|]. apply Hask; [done|by right].
    + destruct Hh as (ks & Hks & Hdk & m' & Hm' & Hf). right. destruct (decide (i = e_srv e)) as [E|E].
      * rewrite <- E, Hi in Hks. injection Hks as <-. apply (Hin m'); [done..|]. apply Hask; [done|by left].
      * left. exists ks. split; [by unfold cs'; rewrite lookup_insert_ne|]. split; [done|by exists m'].
  - intros ks [[E <-]|[_ Hks]]%lookup_insert_Some; [exact Hwait|by apply lv_wait0].
  - intros ks [[E <-]|[_ Hks]]%lookup_insert_Some; [exact Hqueue|by apply lv_queue0].
Qed.
End serve.

(** ** Messages that are not needed *)

Definition useless e cs m : Prop :=
  (∀ i j, is_Some (cs !! i) → j ∈ e_new e → ¬ exch i j m) ∧
  ∀ i, is_Some (cs !! i) → ¬ cur_ok e i m ∧ ¬ cur_lock e i m ∧ ¬ cur_grant e i m.

Lemma live_less e cs pop R : Forall (useless e cs) pop → live e cs (pop ++ R) → live e cs R.
Proof.
  rewrite Forall_forall. intros Hu []. assert (Hk : ∀ Q, (∀ m, useless e cs m → ¬ Q m) → has (pop ++ R) Q → has R Q).
  { intros Q HQ (m & [Hm|Hm]%elem_of_app & Hq); [by destruct (HQ m (Hu m Hm))|by exists m]. }
  split; try done.
  - intros i k j Hi Hw Hj Hjn. apply Hk; [|by apply (lv_xchg0 i k)]. intros m [Hm _]. apply Hm; [by eexists|done].
  - intros i k Hi Hd. destruct (lv_ok0 i k Hi Hd) as [?|[?|?]]; [by left|right; left|by right; right]. apply Hk; [|done].
    intros m [_ Hm]. apply Hm. by eexists.
  - intros i k Hi Hd Hw Hp. destruct (lv_lock0 i k Hi Hd Hw Hp) as [?|[?|?]]; [left|by right; left|right; right]; apply Hk; try done;
      intros m [_ Hm]; apply Hm; by eexists.
Qed.

Lemma srv_new e cs F i : proto_ok e cs F → is_Some (cs !! i) → e_srv e ∈ e_new e.
Proof. intros Hp [k Hi]. apply (po_env _ _ _ Hp). pose proof (dom_new _ _ _ Hp _ _ Hi) as Hin. set_solver +Hin. Qed.

Lemma gone_useless e cs F m : proto_ok e cs F → gone e m → useless e cs m.
Proof.
  intros Hp Hgo. split.
  - intros i j [k Hi] Hj (Hx & Ho & Hpe). apply Hgo. pose proof (dom_new _ _ _ Hp _ _ Hi) as Hin. unfold x_owner, x_peer in *.
    destruct (bool_decide _); by subst.
  - intros i Hi. pose proof (srv_new e cs F i Hp Hi) as Hs. destruct Hi as [k Hi]. pose proof (dom_new _ _ _ Hp _ _ Hi) as Hin.
    split_and!; [intros (_ & <- & _)|intros (_ & <- & _)|intros (_ & _ & E & _); rewrite <- E in Hs]; done.
Qed.

Lemma drop_useless e cs F i k m :
  proto_ok e cs F → m ∈ F → cs !! i = Some k → to m = i → lock_msg m = true → tinc m < inc_at e i k (from m) → useless e cs m.
Proof.
  intros Hp Hm Hi Hto Hlm Hlt. pose proof (po_env _ _ _ Hp) as He. pose proof (dom_new _ _ _ Hp _ _ Hi) as Hin.
  assert (Hold : from m ∈ e_new e → tinc m ≠ e_inc e (from m) i).
  { intros Hf E. pose proof (inc_member e i (from m) He Hin Hf). rewrite (inc_sym e _ i He) in E. unfold inc_at in Hlt. destruct (is_done k); lia. }
  split.
  - intros y j _ _ (Hx & _). pose proof (mo_flags _ _ _ (po_msg _ _ _ Hp m Hm)) as Hf. unfold flags_ok, lock_msg, is_xchg in *.
    destruct (type m); try done; injection Hf as E1 E2; by rewrite E1, E2 in Hlm.
  - intros y Hy. pose proof (srv_new e cs F y Hp Hy) as Hs. destruct Hy as [ky Hy]. pose proof (dom_new _ _ _ Hp _ _ Hy) as Hyn.
    split_and!; [intros (_ & E & E' & E'')|intros (_ & E & E' & E'')|intros (_ & E & E' & E'')]; apply Hold; congruence.
Qed.

(** The lock is given to a member. *)
Lemma grant_sent e i k t j q R :
  is_grant_type t = true → is_done k = true → i = srv_at e k → j ∈ mem_of e k → has (sentto e [a_msg e i k t j q None] ++ R) (cur_grant e j).
Proof.
  intros Ht Hd Hs Hj. unfold srv_at, mem_of in *. rewrite Hd in *. subst i.
  apply (has_sent e _ R (a_msg e (e_srv e) k t j q None)); [by left|done|]. split; [done|]. split; [done|]. split; [done|]. cbn. unfold inc_at. by rewrite Hd.
Qed.

Lemma act_live e cs R i k pop a k' L :
  cs !! i = Some k → act rd e i k pop a k' L → good e cs (pop ++ R) → live e cs (pop ++ R) → live e (<[i := k']> cs) (sentto e L ++ R).
Proof.
  intros Hi Ha Hg Hl. pose proof (go_proto _ _ _ Hg) as Hp.
  assert (Hsrv : ∀ m, m ∈ pop ++ R → accepts e i k m → flags_of (type m) = (false, true) → i = srv_at e k).
  { intros m Hm Hac Hf. apply (accepts_server e cs _ Hp m i k Hm Hi Hac). pose proof (mo_flags _ _ _ (po_msg _ _ _ Hp m Hm)) as E. unfold flags_ok in E.
    rewrite Hf in E. by injection E. }
  destruct Ha as [m Hto Hlm Hlt| | |m js d p x Ha Hgr _ _ Hjs|m q r o b q' x Ha Hgr|
    m d Hto Hr _ Hty|m Hto Hr Hty Hw|m o q Hto Hr Hty|m Ha Hty Hst|m q Ha Hty Hst|m Ha Hty Elk|m q m' l Ha Hty Elk|m o Ha Hty Hst Hmem|m o q Ha Hty Hst Hmem].
  - rewrite insert_id by done. apply (live_less e cs [m]); [|done]. apply Forall_singleton. eapply drop_useless; [exact Hp|by left|done..].
  - by rewrite insert_id.
  - by apply live_command.
  - by apply (live_begin e cs m).
  - by apply (live_release e cs m).
  - by apply (live_cmd e cs m).
  - by apply (live_done_more e cs m).
  - by apply (live_done_end e cs m).
  - pose proof (Hsrv m (list_elem_of_here _ _) Ha ltac:(by rewrite Hty)) as Hs.
    apply (live_serve e cs m R [] i k); try done; [by rewrite Hty|by rewrite Hty| |].
    + intros _ m' [Hm'|[-> _]]; left; [exists m'|exists m]; split; try done; apply elem_of_app; [by left|right; by left].
    + intros Hd. apply (lv_wait _ _ _ Hl); [|done]. unfold srv_at in Hs. rewrite Hd in Hs. by rewrite <- Hs.
  - pose proof (Hsrv m (list_elem_of_here _ _) Ha ltac:(by rewrite Hty)) as Hs.
    apply (live_serve e cs m R _ i k); try done; [by rewrite Hty|by right|by right|].
    intros Hd m' [Hm'|[-> _]]; [left; by exists m'|right]. apply grant_sent; try done.
    by apply (accepts_member e cs _ i k m Hp (list_elem_of_here _ _) Hi Ha).
  - apply (live_serve e cs m R [] i k); try done; [by rewrite Hty|by right|by right|].
    rewrite Elk, Hty. by intros _ m' [?%not_elem_of_nil|[_ ?]].
  - pose proof (Hsrv m (list_elem_of_here _ _) Ha ltac:(by rewrite Hty)) as Hs.
    apply (live_serve e cs m R _ i k); try done; [by rewrite Hty|by right|by right|].
    rewrite Elk, Hty. intros Hd m0 [[-> |Hm0]%elem_of_cons|[_ ?]]; [right|left; by exists m0|done]. apply grant_sent; try done.
    pose proof (co_locks _ _ _ (po_core _ _ _ Hp i k Hi)) as Hlocks. rewrite Elk in Hlocks. by apply Forall_cons in Hlocks as [(_ & _ & _ & ?) _].
  - apply (live_serve e cs m R [] i k); try done; [by rewrite Hty| | | |].
    + intros j [Hj|Hr]; [left; set_solver +Hj|]. unfold is_ready in Hr. by rewrite Hst in Hr.
    + left. set_solver +.
    + rewrite Hty. intros _ m' [Hm'|[_ ?]]; [left; by exists m'|done].
    + intros Hd _ E. apply Hmem. by rewrite (done_new e k Hd).
  - apply (live_serve e cs m R _ i k); try done; [by rewrite Hty|by right|by right|].
    rewrite Hty. intros _ m' [Hm'|[_ ?]]; [left; by exists m'|done].
Qed.

(** ** Recoveries *)

(** A change that is not one of the client or of the server. *)
Lemma live_stage e cs F i k n :
  cs !! i = Some k → is_done (set_stage k n) = is_done k → live e cs F → live e (<[i := set_stage k n]> cs) F.
Proof.
  intros Hi Hd []. set (k' := set_stage k n) in *.
  assert (Hsrv : ∀ Q : core X P → Prop, (Q k → Q k') → server_is e cs Q → server_is e (<[i := k']> cs) Q) by (intros Q HQ; by apply server_change with (k := k)).
  assert (Hb : ∀ j kj', <[i := k']> cs !! j = Some kj' → ∃ kj, cs !! j = Some kj ∧ is_done kj' = is_done kj ∧ ∃ n', kj' = set_stage kj n').
  { intros j kj' [[<- <-]|[_ Hj]]%lookup_insert_Some; [exists k; split; [done|]; split; [done|by exists n]|].
    exists kj'. split; [done|]. split; [done|]. exists (k_stage kj'). by destruct kj'. }
  split.
  - intros y ky j (kj & Hj & _ & n' & ->)%Hb. by apply (lv_xchg0 y kj).
  - intros y ky (kj & Hj & -> & n' & ->)%Hb Hdy. destruct (lv_ok0 y kj Hj Hdy) as [?|[?|?]]; [by left|by right; left|right; right; by apply Hsrv].
  - intros y ky (kj & Hj & -> & n' & ->)%Hb Hdy Hw Hp. destruct (lv_lock0 y kj Hj Hdy Hw Hp) as [?|[?|?]]; [by left|right; left; by apply Hsrv|by right; right].
  - intros ks (kj & Hj & -> & n' & ->)%Hb. exact (lv_wait0 kj Hj).
  - intros ks (kj & Hj & -> & n' & ->)%Hb. exact (lv_queue0 kj Hj).
Qed.

Lemma live_told e cs F i k k' L :
  good e cs F → cs !! i = Some k → k_stage k = 1%nat → told e i k k' L → live e cs F → live e (<[i := k']> cs) (sentto e L ++ F).
Proof.
  intros Hg Hi Hs Ht Hl. pose proof (go_proto _ _ _ Hg) as Hp. set (cs' := <[i := k']> cs). set (F' := sentto e L ++ F).
  assert (Hl' : live e cs F') by (apply (live_incl e cs F); [|done]; intros m Hm; apply elem_of_app; by right).
  assert (Hi' : cs' !! i = Some k') by apply lookup_insert_eq. assert (Hd : is_done k = false) by (unfold is_done; by rewrite Hs).
  assert (Hd' : is_done k' = true) by (by destruct Ht).
  assert (Hsrv : ∀ Q, server_is e cs Q → server_is e cs' Q).
  { intros Q (ks & Hks & Hds & HQ). exists ks. split; [|done]. unfold cs'. rewrite lookup_insert_ne; [done|]. intros E.
    rewrite <- E, Hi in Hks. injection Hks as <-. congruence. }
  assert (Hst : is_ready k' = false ∧ k_acked k' = ∅) by (destruct Ht; cbn; unfold is_ready; cbn; by destruct (_ =? _)).
  destruct Hl'. split.
  - intros y ky j Hy. revert y ky Hy. apply (change_all cs i k' (λ y ky, k_wait ky = true → j ∈ k_read ky ∖ k_ok ky → j ∈ e_new e → has F' (exch y j))).
    + intros y ky _ Hy. by apply (lv_xchg0 y ky).
    + destruct Ht as [Hw Hne|]; [|done]. intros _ Hj Hjn. cbn in Hj. apply (lv_xchg0 i k); [done..| |done]. set_solver +Hj Hjn.
  - apply (change_all cs i k' (λ y ky, is_done ky = true → told_ok e cs' F' y ky)).
    + intros y ky _ Hy Hdy. destruct (lv_ok0 y ky Hy Hdy) as [?|[?|?]]; [by left|by right; left|right; right; by apply Hsrv].
    + intros _. destruct Ht as [Hw Hne|r o b q Heq k'].
      * left. split; [done|]. destruct (go_lock _ _ _ Hg) as (t & Hlk & _). exact (member_beg e cs F i k t Hp Hlk Hi Hs Hw).
      * right; left. destruct (sent_srv e cs' _ i k' ALGOPR_MESSAGE_LOCKSERVER_OK q (go_proto _ _ _ (told_good e cs F i k k' _ Hi Hs (T_ok e i k r o b q Heq) Hg)) Hi' Hd') as [Hsr Hto].
        by apply (has_sent e _ F (srv_msg e i k' ALGOPR_MESSAGE_LOCKSERVER_OK q)); [left|..].
  - apply (change_all cs i k' (λ y ky, is_done ky = true → k_wait ky = false → k_pending ky ≠ 0%nat → asked e cs' F' y)).
    + intros y ky _ Hy Hdy Hw Hpd. destruct (lv_lock0 y ky Hy Hdy Hw Hpd) as [?|[?|?]]; [by left|right; left; by apply Hsrv|by right; right].
    + intros _ Hw Hpd. destruct Ht as [|r o b q Heq k']; [done|]. left.
      apply (sent_lock e cs' _ F _ i k' k' q (go_proto _ _ _ (told_good e cs F i k k' _ Hi Hs (T_ok e i k r o b q Heq) Hg)) Hi' Hd' eq_refl).
      right. by apply demand_in.
  - intros ks [[E <-]|[_ Hks]]%lookup_insert_Some; [|by apply lv_wait0]. intros _ _. rewrite (proj2 Hst).
    pose proof (dom_new _ _ _ Hp _ _ Hi) as Hin. set_solver +Hin.
  - intros ks [[E <-]|[_ Hks]]%lookup_insert_Some; [|by apply lv_queue0]. intros _ Hu. destruct Hst as [Hst _]. unfold is_ready in Hst. by rewrite Hu in Hst.
Qed.

Lemma live_recover e cs cs' F M srv :
  good e cs F → (∀ i k, cs !! i = Some k → k_stage k = 3%nat) → (∀ i, is_Some (cs' !! i) ↔ i ∈ M) →
  (∀ i k', cs' !! i = Some k' → (∃ k, cs !! i = Some k ∧ k' = set_stage k 0) ∨ (i ∉ e_new e ∧ fresh k')) →
  live e cs F → live (next_env e M srv) cs' (filter (λ m, to m ∈ M) F).
Proof.
  intros Hg Hrest Hdom Hcs Hl. assert (Hnd : ∀ i k', cs' !! i = Some k' → is_done k' = true → False).
  { intros i k' Hi Hd. destruct (Hcs i k' Hi) as [(k & _ & ->)|[_ Hf]]; [done|]. unfold is_done in Hd. by rewrite (proj1 Hf) in Hd. }
  split; [|intros *; intros Hi Hd; by destruct (Hnd _ _ Hi Hd)..].
  intros i k' j Hi Hw Hj HjM. cbn in HjM. assert (HiM : i ∈ M) by (apply Hdom; by eexists).
  destruct (Hcs i k' Hi) as [(k & Hk & ->)|[_ (_ & Hf & _)]]; [|congruence]. destruct (go_lock _ _ _ Hg) as (t & Hlk & _).
  destruct (li_wait _ _ _ _ Hlk i k Hk Hw) as [_ Hro].
  assert (Hjn : j ∈ e_new e).
  { pose proof (ro_read _ _ _ Hro) as Hr. rewrite done_new in Hr by (unfold is_done; by rewrite (Hrest i k Hk)). cbn in Hj. set_solver +Hr Hj. }
  destruct (lv_xchg _ _ _ Hl i k j Hk Hw Hj Hjn) as (m & Hm & Hx & Ho & Hpe). exists m. split; [|done]. apply list_elem_of_filter. split; [|done].
  unfold x_owner, x_peer in Ho, Hpe. destruct (bool_decide _); by subst.
Qed.

Lemma move_live e cs F e' cs' F' : good e cs F → live e cs F → move rd e cs F e' cs' F' → live e' cs' F'.
Proof.
  intros Hg Hl Hm. destruct Hm as [i k pop a k' L R F' Hi Ha HF HF'|pop F' Hp HF|i k F' Hi Hs HF|i k k' L F' Hi Hs Ht HF|i k pop F' Hi Hs Hp HF Hto
    |cs' M srv F' Hv Hsrv Hst Hdom Hcs HF].
  - eapply live_perm_eq; [symmetry; exact HF'|]. eapply act_live; [done|done|by eapply good_perm|by eapply live_perm_eq].
  - apply (live_less e cs pop); [|by eapply live_perm_eq]. eapply Forall_impl; [exact Hp|]. intros m. eapply gone_useless, Hg.
  - eapply live_perm_eq; [exact HF|]. apply live_stage; [done| |done]. unfold is_done. by rewrite Hs.
  - eapply live_perm_eq; [symmetry; exact HF|]. by eapply live_told.
  - apply live_stage; [done|unfold is_done; by rewrite Hs|]. apply (live_less e cs pop); [|by eapply live_perm_eq].
    eapply Forall_impl; [exact Hp|]. intros m. eapply gone_useless, Hg.
  - eapply live_perm_eq; [symmetry; exact HF|]. by eapply live_recover.
Qed.

(** ** A system without messages *)

Lemma no_message_done e cs :
  good e cs [] → live e cs [] → coh rd e cs [] → (∀ i k, cs !! i = Some k → k_stage k = 3%nat) →
  (∀ i k, cs !! i = Some k → k_wait k = false ∧ k_pending k = 0%nat) ∧
  (∀ k, cs !! e_srv e = Some k → k_state k = ALGOPR_LOCKSERVER_STATE_READY_UNLOCKED ∧ k_locks k = []) ∧
  (∀ i j k kj, cs !! i = Some k → cs !! j = Some kj → k_ctx k = k_ctx kj).
Proof.
  intros Hg Hl Hc Hrest. destruct Hg as [Hp (t & Hlk & Hex)] eqn:Eg. clear Eg.
  assert (Hdone : ∀ i k, cs !! i = Some k → is_done k = true) by (intros i k Hi; unfold is_done; by rewrite (Hrest i k Hi)).
  assert (Hno : ∀ Q, has [] Q → False) by (by intros Q (m & ?%not_elem_of_nil & _)).
  assert (Hw : ∀ i k, cs !! i = Some k → k_wait k = false).
  { intros i k Hi. destruct (k_wait k) eqn:Hw; [exfalso|done]. destruct (li_wait _ _ _ _ Hlk i k Hi Hw) as [_ Hro].
    pose proof (ro_ok _ _ _ Hro) as H1. pose proof (ro_more _ _ _ Hro) as H2. pose proof (ro_read _ _ _ Hro) as H3. rewrite (done_new e k (Hdone i k Hi)) in H3.
    destruct (set_choose_or_empty (k_read k ∖ k_ok k)) as [[j Hj]|He].
    2:{ apply H2, set_eq. intros j. split; [|auto]. intros Hj. destruct (decide (j ∈ k_ok k)) as [|Hn]; [done|].
        destruct (not_elem_of_empty (C := gset Z) j). apply He, elem_of_difference. done. }
    apply (Hno (exch i j)). apply (lv_xchg _ _ _ Hl i k); [done..|]. set_solver +H3 Hj. }
  assert (Hsrv : ∀ k, cs !! e_srv e = Some k → k_state k = ALGOPR_LOCKSERVER_STATE_READY_UNLOCKED).
  { intros k Hk. pose proof (Hdone _ k Hk) as Hd. destruct (k_state k) eqn:Hst; [exfalso..|done|exfalso].
    - apply (co_standby _ _ _ (po_core _ _ _ Hp _ k Hk)); [by left|unfold srv_at; by rewrite Hd|done].
    - apply (lv_wait _ _ _ Hl k Hk Hd Hst). pose proof (co_acked _ _ _ (po_core _ _ _ Hp _ k Hk) Hst) as Hsub. rewrite (done_new e k Hd) in Hsub.
      apply set_eq. intros j. split; [auto|]. intros Hj. destruct (new_dom _ _ _ Hp j Hj) as [kj Hkj].
      destruct (lv_ok _ _ _ Hl j kj Hkj (Hdone j kj Hkj)) as [[Hwj _]|[Hh|(ks & Hks & _ & Hh)]]; [by rewrite (Hw j kj Hkj) in Hwj|by destruct (Hno _ Hh)|].
      rewrite Hk in Hks. injection Hks as <-. unfold is_ready in Hh. rewrite Hst in Hh. by destruct Hh.
    - pose proof (Hex k Hk Hd Hst) as Hn. pose proof (li_tok _ _ _ _ Hlk) as Ht. rewrite filter_nil in Ht. apply Permutation_nil_l in Ht.
      destruct t as [|m|i|m]; [done|done| |done]. destruct Hn as (ki & Hki & _). pose proof (li_waits _ _ _ _ Hlk i ki eq_refl Hki) as E.
      by rewrite (Hw i ki Hki) in E. }
  assert (Hq : ∀ k, cs !! e_srv e = Some k → k_locks k = []) by (intros k Hk; apply (lv_queue _ _ _ Hl k Hk (Hdone _ k Hk) (Hsrv k Hk))).
  split; [|split; [auto|]].
  - intros i k Hi. split; [by apply (Hw i)|]. destruct (decide (k_pending k = 0%nat)) as [|Hpd]; [done|exfalso].
    destruct (lv_lock _ _ _ Hl i k Hi (Hdone i k Hi) (Hw i k Hi) Hpd) as [Hh|[(ks & Hks & _ & m & Hm & _)|Hh]]; [by destruct (Hno _ Hh)| |by destruct (Hno _ Hh)].
    rewrite (Hq ks Hks) in Hm. by apply not_elem_of_nil in Hm.
  - intros i j k kj Hi. destruct (new_dom _ _ _ Hp (e_srv e)) as [ks Hks]; [by eapply srv_new; [exact Hp|eexists]|].
    assert (Hrn : ready_new e cs) by (exists ks; split; [done|]; split; [by apply (Hdone (e_srv e))|]; unfold is_ready; by rewrite (Hsrv ks Hks)).
    revert Hi. apply (ch_same _ _ _ _ (Hc Hrn)). split; [done|]. by intros m ?%not_elem_of_nil.
Qed.
End live.
