(* ===== verification/PrLockSys.v ===== *)
(** * The nodes that share the reservation lock

    A system of nodes that run the thread of [PrLock], with the network between
    them.  A step is a turn of a thread, the arrival of a message, a command
    of a target, or a step of a recovery.

    - Messages arrive in any order, those for a node that is not a member are lost.
    - A recovery (admind/services/lum) suspends all the members, then gives them
      the new membership, then resumes them; each of the three phases is posted
      to all the nodes, in any order, before the next one begins, and the nodes
      handle them when they come to them.  A node that leaves the membership
      stops; one that joins starts anew.
    - A step that needs an element of a pool without a free one does not happen:
      the thread, or who posts the operation, waits.

    Some things that the code does are not among the steps.  A recovery starts
    when all the nodes have handled the previous one, while admind restarts, from
    the suspension on, a recovery that the failure of a node interrupts; a node
    that stops leaves at once, while it is first told a membership with itself
    only; and only the lock changes the reservations, while the target also
    changes those of its node when a session opens or closes and at a reset.

    The file ends with the first part of the invariant: the shape of the nodes
    and of the messages. *)

From S2P Require Import Prelude Nodeset PrLock PrLockNode PrLockProto PrLockAct PrLockStep PrLockServe PrLockRecover.
From stdpp Require Import options.

(** ** The system *)

Inductive rec_stage := SUSPENDING | CHANGING | RESUMING.

#[export] Instance rec_stage_eq_dec : EqDecision rec_stage.
Proof. solve_decision. Defined.

(** [s_inc] counts, for two nodes, the last memberships in a row that had both;
    [s_old] and [s_oldinc] are the membership and the counts before the last
    recovery; [s_rec] is the phase of the recovery, with the nodes that wait for
    it. *)
Record system {X D P : Type} := mk_system {
  s_nodes : gmap Z (node_t X D P);
  s_net : list (algopr_message_t P);
  s_mship : exa_nodeset_t;
  s_old : exa_nodeset_t;
  s_inc : Z → Z → Z;
  s_oldinc : Z → Z → Z;
  s_rec : option (rec_stage * gset Z)
}.
Arguments system : clear implicits.
Arguments mk_system {_ _ _}.

Section system.
Context {X D P : Type} `{!Target X D P} {pool : Pool}.
Implicit Types (s : system X D P) (n : node_t X D P) (m : algopr_message_t P) (l : list (algopr_message_t P)).

Definition update s (i : Z) n (net : list (algopr_message_t P)) : system X D P :=
  mk_system (<[i := n]> (s_nodes s)) net (s_mship s) (s_old s) (s_inc s) (s_oldinc s) (s_rec s).

Definition alive s (i : Z) : Prop := is_Some (s_nodes s !! i).
#[global] Instance alive_dec s i : Decision (alive s i) := _.

(** The messages that a node has sent are handed to the network. *)
Definition flushed s (i : Z) n : system X D P :=
  update s i (with_out n []) (s_net s ++ filter (λ m, alive s (to_node_id m)) (n_out n)).

Definition pair_inc (mb : exa_nodeset_t) (f : Z → Z → Z) (a b : Z) : Z :=
  if bool_decide (a ∈ nodes_of mb ∧ b ∈ nodes_of mb) then f a b + 1 else 0.

Definition next_nodes s (mb : exa_nodeset_t) (ctx : Z → X) : gmap Z (node_t X D P) :=
  list_to_map ((λ i, (i, default (algopr_thread_init i (ctx i)) (s_nodes s !! i))) <$> nodes_list mb).

Definition recovering s (mb : exa_nodeset_t) (ctx : Z → X) : system X D P :=
  mk_system (next_nodes s mb ctx) (filter (λ m, to_node_id m ∈ nodes_of mb) (s_net s)) mb (s_mship s)
    (pair_inc mb (s_inc s)) (s_inc s) (Some (SUSPENDING, nodes_of mb)).

Definition stage_op s (st : rec_stage) : algopr_op_t D P :=
  match st with
  | SUSPENDING => ALGOPR_SUSPEND
  | CHANGING => ALGOPR_NEW_MEMBERSHIP (s_mship s)
  | RESUMING => ALGOPR_RESUME
  end.

Definition next_stage (st : rec_stage) : option rec_stage :=
  match st with SUSPENDING => Some CHANGING | CHANGING => Some RESUMING | RESUMING => None end.

Definition rest_rec s (st : rec_stage) (todo : gset Z) : option (rec_stage * gset Z) :=
  if bool_decide (todo = ∅) then (λ st', (st', nodes_of (s_mship s))) <$> next_stage st else Some (st, todo).

(** When it is told the membership, a node closes its connections with the nodes
    that have left. *)
Definition rest_net s (st : rec_stage) (i : Z) : list (algopr_message_t P) :=
  if bool_decide (st = CHANGING)
  then filter (λ m, ¬ (to_node_id m = i ∧ from_node_id m ∉ nodes_of (s_mship s))) (s_net s) else s_net s.

Definition posting s (st : rec_stage) (todo : gset Z) (i : Z) n' : system X D P :=
  mk_system (<[i := n']> (s_nodes s)) (rest_net s st i) (s_mship s) (s_old s) (s_inc s) (s_oldinc s)
    (rest_rec s st (todo ∖ {[i]})).

(** No recovery is in progress. *)
Definition settled s : Prop :=
  s_rec s = None ∧ ∀ i n, s_nodes s !! i = Some n → suspended (n_shared n) = false ∧ ctl_of n = [].

(** The steps that the nodes and the network do by themselves. *)
Inductive internal : system X D P → system X D P → Prop :=
  | internal_turn s i n n' :
      s_nodes s !! i = Some n → n_msgs n ≠ [] → algopr_thread_turn n = Some n' → internal s (flushed s i n')
  | internal_deliver s l m l' n n' :
      s_net s = l ++ m :: l' → s_nodes s !! to_node_id m = Some n → algopr_new_msg n m = Some n' →
      internal s (update s (to_node_id m) n' (l ++ l')).

(** The counts fit in the 16 bits that they have in a message. *)
Inductive step : system X D P → system X D P → Prop :=
  | step_internal s s' : internal s s' → step s s'
  | step_new_pr s i n d n' :
      s_nodes s !! i = Some n → algopr_pr_new_pr n d = Some n' → step s (update s i n' (s_net s))
  | step_recover s mb ctx :
      settled s → nodeset_wf mb → nodes_of mb ≠ ∅ → (∀ i j, s_inc s i j < 2 ^ 16 - 1) → step s (recovering s mb ctx)
  | step_post s st todo i n n' :
      s_rec s = Some (st, todo) → i ∈ todo → s_nodes s !! i = Some n → post n (stage_op s st) = Some n' →
      step s (posting s st todo i n').

Definition start : system X D P :=
  mk_system ∅ [] EXA_NODESET_EMPTY EXA_NODESET_EMPTY (λ _ _, 0) (λ _ _, 0) None.

Definition reachable s : Prop := rtc step start s.

(** ** Messages in the system *)

Definition all_msgs (ns : gmap Z (node_t X D P)) : list (algopr_message_t P) := map_to_list ns ≫= (λ p, msgs_of p.2).

Definition inflight s : list (algopr_message_t P) := s_net s ++ all_msgs (s_nodes s).

Lemma all_msgs_insert ns i n : ns !! i = None → all_msgs (<[i := n]> ns) ≡ₚ msgs_of n ++ all_msgs ns.
Proof. intros H. unfold all_msgs. by rewrite (map_to_list_insert ns i n H). Qed.

Lemma all_msgs_delete ns i n : ns !! i = Some n → all_msgs ns ≡ₚ msgs_of n ++ all_msgs (delete i ns).
Proof. intros H. rewrite <- (insert_delete_id ns i n H) at 1. apply all_msgs_insert, lookup_delete_eq. Qed.

Lemma all_msgs_update ns i n n' : ns !! i = Some n → all_msgs (<[i := n']> ns) ≡ₚ msgs_of n' ++ all_msgs (delete i ns).
Proof. intros H. rewrite <- insert_delete_eq. apply all_msgs_insert, lookup_delete_eq. Qed.

Lemma elem_of_all_msgs ns m : m ∈ all_msgs ns ↔ ∃ i n, ns !! i = Some n ∧ m ∈ msgs_of n.
Proof.
  unfold all_msgs. rewrite list_elem_of_bind. split.
  - intros ([i n] & Hm & Hin). exists i, n. by rewrite <- elem_of_map_to_list.
  - intros (i & n & Hi & Hm). exists (i, n). by rewrite elem_of_map_to_list.
Qed.

Lemma elem_of_inflight s m : m ∈ inflight s ↔ m ∈ s_net s ∨ ∃ i n, s_nodes s !! i = Some n ∧ m ∈ msgs_of n.
Proof. unfold inflight. by rewrite elem_of_app, elem_of_all_msgs. Qed.

(** What is in the system after a node has sent the messages [l]. *)
Lemma inflight_sends s i n n0 l :
  s_nodes s !! i = Some n → this_node_id (n_shared n0) = i → n_out n0 = [] →
  inflight (flushed s i (sends n0 l)) ≡ₚ
  (s_net s ++ all_msgs (delete i (s_nodes s))) ++ msgs_of n0 ++ filter (λ m, alive s (to_node_id m)) l.
Proof.
  intros Hi Ht Ho. unfold inflight, flushed, update. cbn [s_net s_nodes]. rewrite (all_msgs_update _ _ n) by done.
  change (msgs_of (with_out (sends n0 l) [])) with (msgs_of (sends n0 l)).
  unfold sends, msgs_of. cbn [n_msgs n_future n_out]. rewrite Ho, Ht, omap_app, omap_messages. cbn [app].
  assert (Hl : filter (λ m, alive s (to_node_id m)) l ≡ₚ
    filter (λ m, to_node_id m = i) l ++ filter (λ m, alive s (to_node_id m)) (filter (λ m, to_node_id m ≠ i) l)).
  { clear Ht Ho n0. induction l as [|m l IH]; [done|]. rewrite !filter_cons.
    destruct (decide (to_node_id m = i)) as [E|E].
    - rewrite (decide_True (P := alive s (to_node_id m))) by (rewrite E; by eexists).
      rewrite (decide_False (P := to_node_id m ≠ i)) by tauto. rewrite IH. done.
    - rewrite (decide_True (P := to_node_id m ≠ i)) by done. rewrite filter_cons.
      destruct (decide (alive s (to_node_id m))); rewrite IH; solve_Permutation. }
  rewrite Hl. solve_Permutation.
Qed.

Lemma inflight_node s i n : s_nodes s !! i = Some n → inflight s ≡ₚ (s_net s ++ all_msgs (delete i (s_nodes s))) ++ msgs_of n.
Proof. intros Hi. unfold inflight. rewrite (all_msgs_delete _ _ _ Hi). solve_Permutation. Qed.

(** ** Stages of a recovery *)

Definition script s : list (algopr_op_t D P) := [ALGOPR_SUSPEND; ALGOPR_NEW_MEMBERSHIP (s_mship s); ALGOPR_RESUME].

(** The number of operations of the script that were posted to a node, and the
    number of those that it has handled. *)
Definition posted_count s (i : Z) : nat :=
  match s_rec s with
  | None => 3
  | Some (st, todo) =>
      (match st with SUSPENDING => 0 | CHANGING => 1 | RESUMING => 2 end) + (if bool_decide (i ∈ todo) then 0 else 1)
  end.

Definition handled s (i : Z) n : nat := posted_count s i - length (ctl_of n).

Definition mset s : gset Z := nodes_of (s_mship s).
Definition oldset s : gset Z := nodes_of (s_old s).

Definition first_of (mb : exa_nodeset_t) : Z := default 0 (exa_nodeset_first mb).

(** ** The protocol of the system *)

Definition env_of s : env :=
  mk_env (mset s) (oldset s) (s_inc s) (s_oldinc s) (first_of (s_mship s)) (first_of (s_old s)).

Definition core_of (h : nat) n : core X P :=
  let c := n_client n in let ls := n_server n in
  mk_core h (bool_decide (c_state c = ALGOPR_LOCKCLIENT_STATE_WAIT_PROCESS_REMOTE))
    (nodes_of (PR_read_membership c)) (nodes_of (PR_read_membership_ok c)) (PR_read_incarnation_at_beginning c)
    (length (msg_new_pr c)) (n_sequency n) (s_state ls) (nodes_of (s_membership ls)) (node_with_lock ls) (msg_lock ls) (n_ctx n).

Definition cores s : gmap Z (core X P) := map_imap (λ i n, Some (core_of (handled s i n) n)) (s_nodes s).

Lemma lookup_cores s i : cores s !! i = (λ n, core_of (handled s i n) n) <$> s_nodes s !! i.
Proof. unfold cores. rewrite map_lookup_imap. by destruct (s_nodes s !! i). Qed.

(** A node in the membership that it knows; [k] is its part of the protocol. *)
Record node_inv s (i : Z) n (k : core X P) : Prop := {
  ni_wf : node_wf n;
  ni_this : this_node_id (n_shared n) = i;
  ni_out : n_out n = [];
  ni_posted : (length (ctl_of n) <= posted_count s i)%nat;
  ni_ctl : ctl_of n = drop (handled s i n) (take (posted_count s i) (script s));
  ni_future : Forall (λ op, is_ctl op = false) (n_future n);
  ni_to : Forall (λ m, to_node_id m = i) (msgs_of n);
  ni_suspended : suspended (n_shared n) = false ↔ running (env_of s) i k;
  ni_inc : ∀ j, valid_node j → inc_of n j = inc_at (env_of s) i k j;
  ni_mship : acting (env_of s) i k → membership (n_shared n) = (if is_done k then s_mship s else s_old s);
  ni_srv : acting (env_of s) i k → PR_lockserver (n_shared n) = srv_at (env_of s) k;
  ni_best : s_state (n_server n) = ALGOPR_LOCKSERVER_STATE_WAIT_ALL_OK →
    best_incarnation_incarnation (n_server n) = -1 ∨ best_incarnation_node (n_server n) ∈ mem_of (env_of s) k;
  ni_last : handled s i n = 3%nat → n_future n = []
}.

Record sys_inv s : Prop := {
  si_mship : nodeset_wf (s_mship s);
  si_old : nodeset_wf (s_old s);
  si_bound : ∀ a b, s_inc s a b < 2 ^ 16;
  si_oldbound : ∀ a b, s_oldinc s a b < 2 ^ 16 - 1;
  si_rec : ∀ st todo, s_rec s = Some (st, todo) → todo ⊆ mset s ∧ todo ≠ ∅;
  si_node : ∀ i n, s_nodes s !! i = Some n → node_inv s i n (core_of (handled s i n) n);
  si_net : ∀ m, m ∈ s_net s → from_node_id m ∉ mset s → (posted_count s (to_node_id m) < 2)%nat;
  si_good : good (env_of s) (cores s) (inflight s)
}.
End system.
