(* ===== verification/PrLockTurn.v ===== *)
(** * The turns of a thread keep the invariant of the system

    Each handler of [PrLock], on a node of a system that satisfies the invariant,
    returns a node, and what it does is a step of the protocol. *)

From S2P Require Import Prelude Nodeset PrLock PrLockNode PrLockProto PrLockAct PrLockStep PrLockServe PrLockRecover PrLockMove PrLockSys.
From stdpp Require Import options.

(** What a thread does when the pool is not empty. *)
#[local] Existing Instance endless_pool.

Section turn.
Context {X D P : Type} `{!Target X D P} `{!TargetLaws X D P}.
Implicit Types (s : system X D P) (n : node_t X D P) (m : algopr_message_t P) (L R : list (algopr_message_t P)).

(** ** A node changes *)

Definition rest s (i : Z) : list (algopr_message_t P) := s_net s ++ all_msgs (delete i (s_nodes s)).

Lemma handled_ctl s i n n' : ctl_of n' = ctl_of n → handled s i n' = handled s i n.
Proof. unfold handled. by intros ->. Qed.

Lemma cores_update s i n net : cores (update s i n net) = <[i := core_of (handled s i n) n]> (cores s).
Proof.
  apply map_eq. intros j. rewrite lookup_cores. cbn. destruct (decide (i = j)) as [<- |Hne].
  - by rewrite !lookup_insert_eq.
  - rewrite !lookup_insert_ne by done. by rewrite lookup_cores.
Qed.

Lemma node_inv_update s i n net j nj k : node_inv s j nj k → node_inv (update s i n net) j nj k.
Proof. intros []. split; assumption. Qed.

(** What a handler leaves in its node. *)
Record local_ok s (i : Z) n n0 : Prop := {
  lo_shared : n_shared n0 = n_shared n;
  lo_out : n_out n0 = [];
  lo_ctl : ctl_of n0 = ctl_of n;
  lo_wf : node_wf n0;
  lo_future : Forall (λ op, is_ctl op = false) (n_future n0);
  lo_to : Forall (λ m, to_node_id m = i) (msgs_of n0);
  lo_best : s_state (n_server n0) = ALGOPR_LOCKSERVER_STATE_WAIT_ALL_OK →
    best_incarnation_incarnation (n_server n0) = -1 ∨
    best_incarnation_node (n_server n0) ∈ mem_of (env_of s) (core_of (handled s i n) n0);
  lo_last : handled s i n = 3%nat → n_future n0 = []
}.

Lemma sends_wf n l : node_wf n → node_wf (with_out (sends n l) []).
Proof. intros []. by split. Qed.

Lemma inc_of_shared n n' j : n_shared n' = n_shared n → inc_of n' j = inc_of n j.
Proof. unfold inc_of. by intros ->. Qed.

Lemma local_node s i n n0 L :
  node_inv s i n (core_of (handled s i n) n) → local_ok s i n n0 →
  node_inv s i (with_out (sends n0 L) []) (core_of (handled s i n) n0).
Proof.
  intros [] []. assert (Hc : ctl_of (with_out (sends n0 L) []) = ctl_of n) by (rewrite <- lo_ctl0; apply sends_ctl).
  assert (Hth : this_node_id (n_shared n0) = i) by (by rewrite lo_shared0). split.
  - by apply sends_wf.
  - exact Hth.
  - done.
  - by rewrite Hc.
  - by rewrite (handled_ctl s i n) by done; rewrite Hc.
  - done.
  - unfold msgs_of. cbn. rewrite omap_app, omap_messages, Hth. apply Forall_app. apply Forall_app in lo_to0 as [H1 H2]. split; [|done].
    apply Forall_app. split; [done|]. apply Forall_forall. by intros m [? _]%list_elem_of_filter.
  - cbn. rewrite lo_shared0. exact ni_suspended.
  - intros j Hj. change (inc_of n0 j = inc_at (env_of s) i (core_of (handled s i n) n0) j).
    rewrite (inc_of_shared n n0) by done. exact (ni_inc j Hj).
  - cbn. rewrite lo_shared0. exact ni_mship.
  - cbn. rewrite lo_shared0. exact ni_srv.
  - done.
  - by rewrite (handled_ctl s i n) by done.
Qed.

Lemma alive_new s i : sys_inv s → alive s i ↔ i ∈ mset s.
Proof. intros H. rewrite <- (po_dom _ _ _ (go_proto _ _ _ (si_good _ H))), lookup_cores. unfold alive. by rewrite fmap_is_Some. Qed.

Lemma alive_sentto s L : sys_inv s → filter (λ m, alive s (to_node_id m)) L = sentto (env_of s) L.
Proof. intros H. apply list_filter_iff. intros m. by apply alive_new. Qed.

(** ** The weight and the load of a system *)

Definition node_sum (f : node_t X D P → nat) (ns : gmap Z (node_t X D P)) : nat := sum_list_with (λ p, f p.2) (map_to_list ns).

Definition prs_of n : nat := length (omap op_pr (n_msgs n)) + length (omap op_pr (n_future n)).
Definition w_node (nb : nat) n : nat := w_core nb (core_of 0 n) + prs_of n * w_command nb.
Definition weight s : nat :=
  w_msgs (size (mset s)) (inflight s) + length (s_net s) + node_sum (w_node (size (mset s))) (s_nodes s).

(** A command that the thread has not taken yet has its element, and asks for
    the lock. *)
Definition l_node (nb : nat) n : nat := l_core nb (core_of 0 n) + prs_of n * 2.
Definition load s : nat := l_msgs (size (mset s)) (inflight s) + node_sum (l_node (size (mset s))) (s_nodes s).

Lemma node_sum_insert f ns i n : node_sum f (<[i := n]> ns) = (f n + node_sum f (delete i ns))%nat.
Proof.
  unfold node_sum. rewrite <- insert_delete_eq.
  assert (Hp : ∀ l l' : list (Z * node_t X D P), l ≡ₚ l' → sum_list_with (λ p, f p.2) l = sum_list_with (λ p, f p.2) l').
  { induction 1; simpl; lia. }
  by rewrite (Hp _ _ (map_to_list_insert _ _ n (lookup_delete_eq _ _))).
Qed.

Lemma node_sum_delete f ns i n : ns !! i = Some n → node_sum f ns = (f n + node_sum f (delete i ns))%nat.
Proof. intros Hi. rewrite <- (insert_id ns i n Hi) at 1. apply node_sum_insert. Qed.

(** What a node does: the invariant is kept, it is a move of the protocol, and
    out of the recoveries the weight gets lower, the load no greater, and no
    recovery begins. *)
Definition calm s (i : Z) n s' : Prop :=
  ∃ n', s_nodes s' = <[i := n']> (s_nodes s) ∧ s_rec s' = s_rec s ∧ n_shared n' = n_shared n ∧ ctl_of n' = ctl_of n.

Record progress s (i : Z) n s' : Prop := {
  pr_inv : sys_inv s';
  pr_move : move scsi_pr_read_metadata (env_of s) (cores s) (inflight s) (env_of s') (cores s') (inflight s');
  pr_calm : handled s i n = 3%nat → (weight s' < weight s ∧ load s' <= load s)%nat ∧ calm s i n s'
}.

(** A step of one node. *)
Lemma node_step s i n n' :
  sys_inv s → s_nodes s !! i = Some n → node_inv s i (with_out n' []) (core_of (handled s i n') n') →
  Forall (λ m, from_node_id m = i) (n_out n') →
  move scsi_pr_read_metadata (env_of s) (cores s) (inflight s)
    (env_of s) (<[i := core_of (handled s i n') n']> (cores s)) (inflight (flushed s i n')) →
  (handled s i n = 3%nat → (weight (flushed s i n') < weight s ∧ load (flushed s i n') <= load s)%nat ∧ calm s i n (flushed s i n')) → progress s i n (flushed s i n').
Proof.
  intros Hs Hi Hn HL Hg Hw. assert (Hin : i ∈ mset s) by (apply alive_new; [done|by eexists]).
  assert (Hc : cores (flushed s i n') = <[i := core_of (handled s i n') n']> (cores s)) by (unfold flushed; by rewrite cores_update).
  split; [|by rewrite Hc|done]. split; [apply Hs..| | |].
  - intros j nj Hj. apply node_inv_update. cbn in Hj. apply lookup_insert_Some in Hj as [[<- <-]|[_ Hj]]; [exact Hn|by apply (si_node _ Hs)].
  - intros m Hm Hf. cbn in Hm. apply elem_of_app in Hm as [Hm|Hm]; [by apply (si_net _ Hs)|]. exfalso.
    apply list_elem_of_filter in Hm as [_ Hm]. rewrite Forall_forall in HL. by rewrite (HL m Hm) in Hf.
  - rewrite Hc. exact (move_good _ _ _ _ _ _ _ Hg (si_good _ Hs)).
Qed.

Lemma prs_of_sends n l : prs_of (with_out (sends n l) []) = prs_of n.
Proof.
  unfold prs_of. cbn. rewrite omap_app. replace (omap op_pr (ALGOPR_MESSAGE <$> _)) with (@nil D); [by rewrite app_nil_r|].
  generalize (filter (λ m, to_node_id m = this_node_id (n_shared n)) l). by induction l0.
Qed.

Lemma local_weight s i n n0 L pop a :
  sys_inv s → s_nodes s !! i = Some n → this_node_id (n_shared n0) = i → n_out n0 = [] →
  act scsi_pr_read_metadata (env_of s) i (core_of (handled s i n) n) pop a (core_of (handled s i n) n0) L →
  inflight s ≡ₚ pop ++ rest s i ++ msgs_of n0 → prs_of n = (a + prs_of n0)%nat → handled s i n = 3%nat →
  (weight (flushed s i (sends n0 L)) < weight s)%nat.
Proof.
  intros Hs Hi Hth Ho Ha HF Hpr Hh. assert (Hin : i ∈ mset s) by (apply alive_new; [done|by eexists]). rewrite Hh in Ha.
  pose proof (act_weight _ (size (mset s)) (env_of s) i (core_of 3 n) pop a (core_of 3 n0) L eq_refl Hin (le_n _) Ha) as Hw. unfold weight. set (nb := size (mset s)) in *.
  change (mset (flushed s i (sends n0 L))) with (mset s). fold nb. rewrite (inflight_sends s i n n0 L Hi Hth Ho), HF, alive_sentto by done.
  unfold rest in *. rewrite !w_msgs_app. cbn [s_net s_nodes flushed update]. rewrite node_sum_insert, (node_sum_delete _ _ _ _ Hi), length_app.
  cbn [n_out sends]. rewrite Ho. cbn [app]. rewrite alive_sentto by done.
  assert (Hlen : (length (sentto (env_of s) (filter (λ m, to_node_id m ≠ this_node_id (n_shared n0)) L)) <= length (sentto (env_of s) L))%nat).
  { unfold sentto. rewrite list_filter_filter. apply filter_length_mono. by intros m _ [? _]. }
  pose proof (w_sent_filter nb L (λ m, to_node_id m ∈ e_new (env_of s))) as Hf. fold (sentto (env_of s) L) in Hf. rewrite w_sent_msgs in Hf.
  assert (E1 : w_node nb (with_out (sends n0 L) []) = (w_core nb (core_of 3 n0) + prs_of n0 * w_command nb)%nat).
  { unfold w_node. by rewrite prs_of_sends. }
  assert (E2 : w_node nb n = (w_core nb (core_of 3 n) + (a + prs_of n0) * w_command nb)%nat) by (unfold w_node; by rewrite Hpr).
  rewrite E1, E2. lia.
Qed.

Lemma local_load s i n n0 L pop a :
  sys_inv s → s_nodes s !! i = Some n → this_node_id (n_shared n0) = i → n_out n0 = [] →
  act scsi_pr_read_metadata (env_of s) i (core_of (handled s i n) n) pop a (core_of (handled s i n) n0) L →
  inflight s ≡ₚ pop ++ rest s i ++ msgs_of n0 → prs_of n = (a + prs_of n0)%nat → handled s i n = 3%nat →
  (load (flushed s i (sends n0 L)) <= load s)%nat.
Proof.
  intros Hs Hi Hth Ho Ha HF Hpr Hh. assert (Hin : i ∈ mset s) by (apply alive_new; [done|by eexists]). rewrite Hh in Ha.
  pose proof (act_load _ (size (mset s)) (env_of s) i (core_of 3 n) pop a (core_of 3 n0) L eq_refl Hin (le_n _) Ha) as Hw. unfold load. set (nb := size (mset s)) in *.
  change (mset (flushed s i (sends n0 L))) with (mset s). fold nb. rewrite (inflight_sends s i n n0 L Hi Hth Ho), HF, alive_sentto by done.
  unfold rest in *. rewrite !l_msgs_app. cbn [s_net s_nodes flushed update]. rewrite node_sum_insert, (node_sum_delete _ _ _ _ Hi).
  pose proof (l_msgs_filter nb L (λ m, to_node_id m ∈ e_new (env_of s))) as Hf. fold (sentto (env_of s) L) in Hf.
  unfold l_node at 1 3. rewrite prs_of_sends, Hpr. change (l_core nb (core_of 0 (with_out (sends n0 L) []))) with (l_core nb (core_of 3 n0)).
  change (l_core nb (core_of 0 n)) with (l_core nb (core_of 3 n)). lia.
Qed.

Lemma local_step s i n n0 L pop a :
  sys_inv s → s_nodes s !! i = Some n → local_ok s i n n0 → Forall (λ m, from_node_id m = i) L →
  act scsi_pr_read_metadata (env_of s) i (core_of (handled s i n) n) pop a (core_of (handled s i n) n0) L →
  inflight s ≡ₚ pop ++ rest s i ++ msgs_of n0 → prs_of n = (a + prs_of n0)%nat →
  progress s i n (flushed s i (sends n0 L)).
Proof.
  intros Hs Hi Hlo HL Hg HF Hpr. pose proof (local_node s i n n0 L (si_node _ Hs i n Hi) Hlo) as Hn.
  assert (Hh : handled s i (sends n0 L) = handled s i n).
  { apply handled_ctl. etransitivity; [apply sends_ctl|apply Hlo]. }
  assert (Hth : this_node_id (n_shared n0) = i) by (rewrite (lo_shared _ _ _ _ Hlo); apply (si_node _ Hs i n Hi)).
  apply (node_step s i n); [done|done|by rewrite Hh| | |].
  - cbn. rewrite (lo_out _ _ _ _ Hlo). apply Forall_forall. intros m [_ Hm]%list_elem_of_filter. rewrite Forall_forall in HL. auto.
  - rewrite Hh. eapply M_act; [by rewrite lookup_cores, Hi|exact Hg|exact HF|].
    rewrite (inflight_sends s i n n0 L Hi Hth (lo_out _ _ _ _ Hlo)), alive_sentto by done. unfold rest. solve_Permutation.
  - intros Hh3. split; [split; [eapply local_weight; [done..|apply Hlo|exact Hg|exact HF|done|done]|eapply local_load; [done..|apply Hlo|exact Hg|exact HF|done|done]]|].
    exists (with_out (sends n0 L) []). split; [done|]. split; [done|]. split; [apply Hlo|]. etransitivity; [exact (sends_ctl n0 L)|apply Hlo].
Qed.

(** ** Messages that a node sends *)

Section node.
Context (s : system X D P) (i : Z) (n : node_t X D P).
Context (Hs : sys_inv s) (Hi : s_nodes s !! i = Some n).
Let e := env_of s.
Let k := core_of (handled s i n) n.

Lemma the_core : cores s !! i = Some k.
Proof using Hi. by rewrite lookup_cores, Hi. Qed.

Lemma the_proto : proto_ok e (cores s) (inflight s).
Proof using Hs. apply (si_good _ Hs). Qed.

Lemma the_node : node_inv s i n k.
Proof using Hs Hi. by apply (si_node _ Hs). Qed.

Lemma the_valid j : j ∈ e_new e ∨ j ∈ e_old e → valid_node j.
Proof using Hs. apply (po_valid _ _ _ the_proto). Qed.

Lemma the_self : valid_node i.
Proof using s n k e X P Hs Hi D. rewrite <- (ni_this _ _ _ _ the_node). apply (nw_this n (ni_wf _ _ _ _ the_node)). Qed.

Lemma mem_valid j : j ∈ mem_of e k → valid_node j.
Proof using Hs. intros Hj. apply the_valid. unfold mem_of in Hj. destruct (is_done k); auto. Qed.

Lemma mem_members : acting e i k → members n = mem_of e k.
Proof using Hs Hi. intros Ha. unfold members, mem_of. rewrite (ni_mship _ _ _ _ the_node Ha). by destruct (is_done k). Qed.

Lemma srv_valid : acting e i k → valid_node (srv_at e k).
Proof using Hs Hi.
  intros Ha. apply mem_valid, (srv_member e i); [apply the_proto|]. exact (self_member e (cores s) _ i k the_proto the_core Ha).
Qed.

(** [n0] is the node with other fields, in the same membership. *)
Context (n0 : node_t X D P) (Hsh : n_shared n0 = n_shared n).

Lemma server_msg_eq q t :
  acting e i k → flags_of t = (false, true) → server_msg n0 q t = srv_msg e i k t q.
Proof using Hsh Hs Hi.
  intros Ha Ht. unfold server_msg, srv_msg, a_msg. rewrite !(inc_of_shared n n0), Hsh, (ni_this _ _ _ _ the_node), Ht by done. cbn.
  rewrite (ni_srv _ _ _ _ the_node Ha), !(ni_inc _ _ _ _ the_node) by (apply the_self || by apply srv_valid). done.
Qed.

Lemma the_msg_eq b1 b2 t j d :
  valid_node j → flags_of t = (b1, b2) → the_msg n0 b1 j b2 t d = a_msg e i k t j (n_sequency n0) d.
Proof using Hsh Hs Hi.
  intros Hj Ht. unfold the_msg, a_msg. rewrite !(inc_of_shared n n0), Hsh, (ni_this _ _ _ _ the_node), Ht by done. cbn.
  rewrite !(ni_inc _ _ _ _ the_node) by (apply the_self || done). done.
Qed.

Lemma back_msg_eq m t :
  valid_node (from_node_id m) → (to_lockserver m, from_lockserver m) = flags_of t →
  mk_message t (to_lockserver m) (this_node_id (n_shared n0)) (from_lockserver m) (from_node_id m) (emitter_sequency m)
    (inc_of n0 (from_node_id m)) (inc_of n0 (this_node_id (n_shared n0))) None =
  a_msg e i k t (from_node_id m) (emitter_sequency m) None.
Proof using Hsh Hs Hi.
  intros Hj Ht. unfold a_msg. rewrite !(inc_of_shared n n0), Hsh, (ni_this _ _ _ _ the_node), <- Ht by done. cbn.
  rewrite !(ni_inc _ _ _ _ the_node) by (apply the_self || done). done.
Qed.
End node.

(** ** A turn *)

Lemma node_wf_lists n msgs future : node_wf n → node_wf (with_lists n msgs future).
Proof. intros []. by split. Qed.

(** The operation that the thread takes is not one of a recovery. *)
Lemma popped_ok s i n op msgs :
  node_inv s i n (core_of (handled s i n) n) → n_msgs n = op :: msgs → is_ctl op = false →
  local_ok s i n (with_lists n msgs (n_future n)).
Proof.
  intros [] Hm Hc. split; cbn; try done.
  - unfold ctl_of. cbn [n_msgs with_lists]. rewrite Hm, filter_cons_False; [done|]. rewrite Hc. by intros [].
  - by apply node_wf_lists.
  - unfold msgs_of in *. cbn. rewrite Hm in ni_to. destruct op; cbn in ni_to; try done. by apply Forall_cons in ni_to as [_ ?].
Qed.

Lemma local_change s i n n0 n1 :
  local_ok s i n n0 → n_shared n1 = n_shared n0 → n_out n1 = n_out n0 → n_msgs n1 = n_msgs n0 → n_future n1 = n_future n0 →
  node_wf n1 →
  (s_state (n_server n1) = ALGOPR_LOCKSERVER_STATE_WAIT_ALL_OK →
    best_incarnation_incarnation (n_server n1) = -1 ∨
    best_incarnation_node (n_server n1) ∈ mem_of (env_of s) (core_of (handled s i n) n1)) →
  local_ok s i n n1.
Proof.
  intros [] Hsh Ho Hm Hf Hw Hb. split; try done; unfold ctl_of, msgs_of in *; by rewrite ?Hsh, ?Ho, ?Hm, ?Hf.
Qed.

Lemma popped_inflight s i n m msgs :
  s_nodes s !! i = Some n → n_msgs n = ALGOPR_MESSAGE m :: msgs →
  inflight s ≡ₚ m :: rest s i ++ msgs_of (with_lists n msgs (n_future n)).
Proof.
  intros Hi Hm. rewrite (inflight_node s i n Hi). unfold rest, msgs_of. rewrite Hm. cbn. solve_Permutation.
Qed.

Lemma release_sends n l : release_element (sends n l) = sends (release_element n) l.
Proof.
  unfold release_element, with_used, sends. cbn [n_shared n_client n_server n_sequency n_ctx n_msgs n_future n_out n_used n_finished].
  f_equal. lia.
Qed.

(** ** A message *)

Section message.
Context (s : system X D P) (i : Z) (n : node_t X D P) (m : algopr_message_t P) (msgs : list (algopr_op_t D P)).
Context (Hs : sys_inv s) (Hi : s_nodes s !! i = Some n) (Hm : n_msgs n = ALGOPR_MESSAGE m :: msgs).
Let e := env_of s.
Let h := handled s i n.
Let k := core_of h n.
Let n0 := with_lists n msgs (n_future n).
Let R := rest s i ++ msgs_of n0.
Hypothesis Hrun : running e i k.

Lemma m_good : good e (cores s) (m :: R).
Proof using Hs Hm Hi. eapply good_perm; [by apply popped_inflight|apply Hs]. Qed.

Lemma m_node : node_inv s i n k.
Proof using Hs Hi. by apply the_node. Qed.

Lemma m_msg : msg_ok e (cores s) m.
Proof using n0 n msgs k i h R Hs Hm Hi. apply (po_msg _ _ _ (go_proto _ _ _ m_good)). by left. Qed.

Lemma m_core : cores s !! i = Some k.
Proof using Hi. by apply the_core. Qed.

Lemma m_acting : acting e i k.
Proof using Hrun. by apply running_acting. Qed.

Lemma m_to : to_node_id m = i.
Proof using s n msgs k h e X Hs Hm Hi D. pose proof (ni_to _ _ _ _ m_node) as Ht. unfold msgs_of in Ht. rewrite Hm in Ht. cbn in Ht. by apply Forall_cons in Ht as [? _]. Qed.

Lemma m_popped : local_ok s i n n0.
Proof using m Hs Hm Hi. by apply (popped_ok s i n (ALGOPR_MESSAGE m) msgs); [apply m_node|..]. Qed.

Lemma m_step n1 L :
  n_shared n1 = n_shared n → n_out n1 = n_out n → n_msgs n1 = msgs → n_future n1 = n_future n → node_wf n1 →
  (s_state (n_server n1) = ALGOPR_LOCKSERVER_STATE_WAIT_ALL_OK →
    best_incarnation_incarnation (n_server n1) = -1 ∨ best_incarnation_node (n_server n1) ∈ mem_of e k) →
  Forall (λ m, from_node_id m = i) L →
  act scsi_pr_read_metadata e i k [m] 0 (core_of h n1) L → progress s i n (flushed s i (sends n1 L)).
Proof using m Hs Hm Hi.
  intros Hsh Ho Hms Hf Hw Hb HL Hg. apply (local_step s i n n1 L [m] 0); [done|done| |done|done| |].
  - by apply (local_change s i n n0); [apply m_popped|..].
  - rewrite (popped_inflight s i n m msgs Hi Hm). unfold msgs_of. by rewrite Hms, Hf.
  - unfold prs_of. by rewrite Hms, Hf, Hm.
Qed.

Lemma m_wf : node_wf n0.
Proof using s k i h e Hs Hi. apply node_wf_lists, m_node. Qed.

Lemma m_handle :
  handle_message n0 (ALGOPR_MESSAGE m) =
  (if (to_membership_incarnation m <? inc_at e i k (from_node_id m)) && lock_msg m then Some (release_element n0)
   else if inc_at e i k (from_node_id m) <? to_membership_incarnation m then Some (postpone n0 (ALGOPR_MESSAGE m))
   else if to_lockserver m then algopr_lockserver n0 m
   else n' ← algopr_lockclient n0 m; Some (release_element n')).
Proof using Hs Hm Hi.
  unfold handle_message. rewrite m_to. change (this_node_id (n_shared n0)) with (this_node_id (n_shared n)).
  rewrite (ni_this _ _ _ _ m_node), Z.eqb_refl. cbn [exa_assert]. pose proof (mo_from _ _ _ m_msg) as Hv.
  rewrite (incarnation_ok n0) by (apply m_wf || done). returned.
  change (inc_of n0 (from_node_id m)) with (inc_of n (from_node_id m)). by rewrite (ni_inc _ _ _ _ m_node).
Qed.

Lemma m_best : s_state (n_server n) = ALGOPR_LOCKSERVER_STATE_WAIT_ALL_OK →
  best_incarnation_incarnation (n_server n) = -1 ∨ best_incarnation_node (n_server n) ∈ mem_of e k.
Proof using Hs Hi. apply m_node. Qed.

Lemma flushed_nil n1 : flushed s i n1 = flushed s i (sends n1 []).
Proof. by rewrite sends_nil. Qed.

(** *** A message that is not handled *)

Lemma turn_drop :
  lock_msg m = true → to_membership_incarnation m < inc_at e i k (from_node_id m) → progress s i n (flushed s i (release_element n0)).
Proof using Hs Hm Hi.
  intros Hlm Hlt. rewrite flushed_nil. apply m_step; try done; [destruct m_wf; by split|apply m_best|].
  apply A_drop; [apply m_to|done|done].
Qed.

Lemma turn_postpone :
  inc_at e i k (from_node_id m) < to_membership_incarnation m → progress s i n (flushed s i (postpone n0 (ALGOPR_MESSAGE m))).
Proof using Hs Hrun Hm Hi.
  intros Hlt. rewrite flushed_nil. pose proof m_popped as Hlo. pose proof m_to as Hto.
  assert (Hp : msgs_of (postpone n0 (ALGOPR_MESSAGE m)) ≡ₚ m :: msgs_of n0).
  { unfold msgs_of, postpone. cbn. rewrite omap_app. cbn. solve_Permutation. }
  assert (Hns : h ≠ 3%nat).
  { intros Hh. assert (Hd : is_done k = true) by (unfold is_done; cbn; fold h; by rewrite Hh).
    pose proof (running_from e (cores s) _ (go_proto _ _ _ m_good) m i k (list_elem_of_here _ _) m_core Hto Hrun Hd) as Hf.
    destruct (mo_member _ _ _ m_msg Hf) as [Hle _]. unfold inc_at in Hlt. rewrite Hd, (inc_sym e i) in Hlt by apply m_good. rewrite Hto in Hle. lia. }
  apply (local_step s i n _ [] [] 0); [done|done| |done|by apply A_idle| |].
  - destruct Hlo. split; try done.
    + by apply node_wf_lists, node_wf_lists, m_node.
    + cbn in *. apply Forall_app. split; [done|]. by apply Forall_singleton.
    + rewrite Hp. by apply Forall_cons.
  - rewrite (popped_inflight s i n m msgs Hi Hm). rewrite Hp. solve_Permutation.
  - unfold prs_of. cbn. rewrite Hm, omap_app. cbn. by rewrite app_nil_r.
Qed.

(** *** The lock *)

Lemma m_accepts : to_membership_incarnation m = inc_at e i k (from_node_id m) → accepts e i k m.
Proof using n0 msgs R Hs Hrun Hm Hi. intros Hinc. split; [apply m_to|done|done]. Qed.

Lemma m_passive : k_wait k = false → c_state (n_client n) = ALGOPR_LOCKCLIENT_STATE_PASSIVE.
Proof. cbn. destruct (c_state (n_client n)); [done|]. by rewrite bool_decide_true. Qed.

Lemma m_waits : k_wait k = true → c_state (n_client n) = ALGOPR_LOCKCLIENT_STATE_WAIT_PROCESS_REMOTE.
Proof. cbn. intros Hw. by apply bool_decide_eq_true in Hw. Qed.

Lemma m_srv_valid : valid_node (PR_lockserver (n_shared n)).
Proof using s k i h e Hs Hrun Hi. rewrite (ni_srv _ _ _ _ m_node m_acting). apply (srv_valid s i n Hs Hi m_acting). Qed.

Lemma m_read read :
  nodeset_wf read → nodes_of read = members n ∖ {[this_node_id (n_shared n)]} →
  nodeset_wf (default EXA_NODESET_EMPTY (exa_nodeset_add read i)) ∧
  nodes_of (default EXA_NODESET_EMPTY (exa_nodeset_add read i)) = mem_of e k.
Proof using n0 msgs m R Hs Hrun Hm Hi.
  intros Hwf Hr. destruct (add_spec read i Hwf (the_self s i n Hs Hi)) as (read' & -> & Hw' & Hn').
  change (default EXA_NODESET_EMPTY (Some read')) with read'. split; [done|]. rewrite Hn', Hr, (ni_this _ _ _ _ m_node), (mem_members s i n Hs Hi m_acting). rewrite union_comm_L, difference_union_L.
  assert (Hself : i ∈ mem_of e k) by exact (self_member e (cores s) _ i k (go_proto _ _ _ m_good) m_core m_acting).
  fold e h k. set_solver +Hself.
Qed.

Lemma m_single : nodeset_wf (default EXA_NODESET_EMPTY (exa_nodeset_add EXA_NODESET_EMPTY i)) ∧
  nodes_of (default EXA_NODESET_EMPTY (exa_nodeset_add EXA_NODESET_EMPTY i)) = {[i]}.
Proof using s n X P Hs Hi D.
  destruct (add_spec EXA_NODESET_EMPTY i empty_wf (the_self s i n Hs Hi)) as (ok & -> & Hw & Hn').
  change (default EXA_NODESET_EMPTY (Some ok)) with ok. split; [done|]. rewrite Hn'.
  rewrite nodes_of_empty. set_solver +.
Qed.

Lemma turn_local update :
  is_grant m = true → update = bool_decide (type m = ALGOPR_MESSAGE_LOCK_UPDATE_OTHER_NODE) → to_membership_incarnation m = inc_at e i k (from_node_id m) →
  c_state (n_client n) = ALGOPR_LOCKCLIENT_STATE_PASSIVE →
  ∃ n', algopr_lockclient_process_local n0 update = Some n' ∧ progress s i n (flushed s i (release_element n')).
Proof using TargetLaws0 Hs Hrun Hm Hi.
  intros Hg Hup Hinc Hst. destruct (process_local_ok n0 update m_wf m_srv_valid) as (read & l & pr & x & f & u & todo & E & Hwf & Hr & Ho & Hu).
  exists (local_done n0 read l pr x f u todo). split; [exact E|]. pose proof m_node as Hn. pose proof (ni_wf _ _ _ _ Hn) as Hw.
  change (this_node_id (n_shared n0)) with (this_node_id (n_shared n)) in Hr, Ho. change (members n0) with (members n) in Hr, Ho.
  destruct todo as [p|]; unfold local_done, acted; rewrite release_sends.
  - destruct (m_read read Hwf Hr) as [Hwr Hnr]. destruct m_single as [Hwo Hno].
    assert (Hmsgs : cmd_msg n0 p <$> nodes_list read = cmds e i k (k_seq k) p (nodes_list read)).
    { apply list_fmap_ext. intros idx j Hj. apply (the_msg_eq s i n Hs Hi n0 eq_refl); [|done].
      apply list_elem_of_lookup_2, elem_of_nodes_list, elem_of_nodes in Hj. apply Hj. }
    change (this_node_id (n_shared n0)) with (this_node_id (n_shared n)). rewrite (ni_this _ _ _ _ Hn), Hmsgs.
    change (inc_of n0 i) with (inc_of n i). rewrite (ni_inc _ _ _ _ Hn) by exact (the_self s i n Hs Hi).
    apply m_step; try done; [destruct Hw; by split|apply m_best| |].
    + apply Forall_forall. intros m' (j & -> & _)%list_elem_of_fmap. done.
    + rewrite (ni_this _ _ _ _ Hn) in Hr. rewrite (mem_members s i n Hs Hi m_acting) in Hr. fold e h k in Hr.
      unfold core_of, release_element, with_used. cbn [n_client n_server n_sequency n_ctx PR_read_membership PR_read_membership_ok
        PR_read_incarnation_at_beginning msg_new_pr c_state]. rewrite Hnr, Hno, bool_decide_true by done.
      destruct Ho as (Hle & Hlt & Halone & p' & [= <-] & Hrd & Hall). rewrite (ni_this _ _ _ _ Hn), (mem_members s i n Hs Hi m_acting) in Halone.
      apply bool_decide_eq_false in Halone. apply (A_begin _ e i k m (nodes_list read) p); try done; [by apply m_accepts|apply NoDup_nodes_list| | |].
      * intros j. by rewrite elem_of_nodes_list, Hr.
      * intros Ety Hpd. apply Hlt; [by rewrite Hup, Ety|]. intros El. apply Hpd. cbn. change (msg_new_pr (n_client n) = []) in El. by rewrite El.
      * intros Hc. apply Hall. rewrite Hup. destruct Hc as [-> |Hc]; [by left|right]. by apply nil_length_inv.
  - rewrite (server_msg_eq s i n Hs Hi n0 eq_refl _ ALGOPR_MESSAGE_UNLOCK m_acting eq_refl).
    apply m_step; try done; [destruct Hw; by split|apply m_best|by apply Forall_singleton|].
    destruct Ho as (_ & _ & -> & Hx).
    match goal with |- act _ _ _ _ _ _ ?c _ => assert (Ec : c = set_client k false (nodes_of read) (nodes_of (PR_read_membership_ok (n_client n)))
      (PR_read_incarnation_at_beginning (n_client n)) 0 (n_sequency n) x) end.
    { unfold core_of, release_element, with_used. cbn [n_client n_server n_sequency n_ctx PR_read_membership PR_read_membership_ok
        PR_read_incarnation_at_beginning msg_new_pr c_state with_lists n0]. by rewrite Hst. }
    rewrite Ec. apply A_release; [by apply m_accepts|done|]. rewrite (ni_this _ _ _ _ Hn), (mem_members s i n Hs Hi m_acting) in Hx.
    destruct Hx as [Hx|[-> Hx]]; [left; by apply bool_decide_eq_true in Hx|right]. split; [done|]. rewrite Hx in Hup.
    revert Hg Hup. unfold is_grant. by destruct (type m).
Qed.

Lemma turn_grant :
  is_grant m = true → to_membership_incarnation m = inc_at e i k (from_node_id m) →
  ∃ n', algopr_lockclient n0 m = Some n' ∧ progress s i n (flushed s i (release_element n')).
Proof using TargetLaws0 Hs Hrun Hm Hi.
  intros Hg Hinc. destruct m_good as [Hp (t & Hl & _)].
  destruct (granted e (cores s) m R t i k Hp Hl m_core (m_accepts Hinc) Hg) as (_ & Hw & _). apply m_passive in Hw.
  unfold algopr_lockclient. change (n_client n0) with (n_client n). rewrite Hw.
  assert (Ht : type m = ALGOPR_MESSAGE_LOCKED ∨ type m = ALGOPR_MESSAGE_LOCK_UPDATE_OTHER_NODE).
  { revert Hg. unfold is_grant. destruct (type m); auto; done. }
  destruct Ht as [Ht|Ht]; rewrite Ht; (apply turn_local; [done|by rewrite Ht|done|done]).
Qed.

(** *** A command of another node, an answer *)

Lemma turn_cmd :
  type m = ALGOPR_MESSAGE_PR_CMD → to_membership_incarnation m <= inc_at e i k (from_node_id m) →
  ∃ n', algopr_lockclient n0 m = Some n' ∧ progress s i n (flushed s i (release_element n')).
Proof using Hs Hrun Hm Hi.
  intros Hty Hinc. destruct m_good as [Hp (t & Hl & Hex)]. pose proof (ni_wf _ _ _ _ m_node) as Hw.
  pose proof (accepts_hears e (cores s) _ Hp m i k (list_elem_of_here _ _) m_core m_to Hrun) as Hh.
  destruct (cmd_passive e (cores s) _ t i k m Hp Hl m_core (list_elem_of_here _ _) m_to Hh Hty) as [_ Hpw].
  pose proof (m_passive Hpw) as Hst. destruct (mo_cmd _ _ _ m_msg Hty) as [d Hd]. pose proof (mo_flags _ _ _ m_msg) as Hfl.
  unfold flags_ok in Hfl. rewrite Hty in Hfl. injection Hfl as Hf1 Hf2. pose proof (mo_from _ _ _ m_msg) as Hv.
  unfold algopr_lockclient. change (n_client n0) with (n_client n). rewrite Hst, Hty, Hd. returned.
  set (n1 := with_ctx n0 (scsi_pr_read_metadata (n_ctx n0) d)). assert (Hw1 : node_wf n1) by (destruct Hw; by split).
  assert (Hto : to_node_id m = this_node_id (n_shared n1)) by (rewrite m_to; symmetry; apply m_node).
  rewrite (send_back_ok n1 m _ Hw1 Hv Hto). eexists. split; [reflexivity|]. rewrite release_sends.
  rewrite (back_msg_eq s i n Hs Hi n1 eq_refl m ALGOPR_MESSAGE_PR_CMD_DONE Hv) by (by rewrite Hf1, Hf2).
  apply m_step; try done; [destruct Hw; by split|apply m_best|by apply Forall_singleton|].
  match goal with |- act _ _ _ _ _ _ ?c _ => assert (Ec : c = set_client k false (k_read k) (k_ok k) (k_beg k) (k_pending k) (k_seq k)
    (scsi_pr_read_metadata (k_ctx k) d)) end.
  { unfold core_of, release_element, with_used. cbn [n_client n_server n_sequency n_ctx with_ctx with_lists n0 n1]. by rewrite Hst. }
  rewrite Ec. exact (A_cmd _ e i k m d m_to Hrun Hinc Hty Hd).
Qed.

Lemma lock_demand_plain q m' : m' ∈ lock_demand n0 q → m' = srv_msg e i k ALGOPR_MESSAGE_LOCK q.
Proof using Hs Hrun Hi.
  unfold lock_demand. destruct (0 <? _); [|by intros ?%not_elem_of_nil]. intros ->%list_elem_of_singleton.
  exact (server_msg_eq s i n Hs Hi n0 eq_refl q ALGOPR_MESSAGE_LOCK m_acting eq_refl).
Qed.

Lemma lock_demand_eq q : lock_demand n0 q = demand e i k q.
Proof using Hs Hrun Hi.
  unfold lock_demand, demand. change (PR_pending (n_client n0)) with (PR_pending (n_client n)). rewrite (nw_pending n (ni_wf _ _ _ _ m_node)).
  rewrite (server_msg_eq s i n Hs Hi n0 eq_refl q ALGOPR_MESSAGE_LOCK m_acting eq_refl). cbn. by destruct (length (msg_new_pr (n_client n))).
Qed.

Lemma turn_done :
  type m = ALGOPR_MESSAGE_PR_CMD_DONE →
  ∃ n', algopr_lockclient n0 m = Some n' ∧ progress s i n (flushed s i (release_element n')).
Proof using Hs Hrun Hm Hi.
  intros Hty. destruct m_good as [Hp (t & Hl & Hex)]. pose proof (ni_wf _ _ _ _ m_node) as Hw.
  destruct (done_facts e (cores s) _ t i k m Hp Hl m_core (list_elem_of_here _ _) m_to Hrun Hty) as (-> & Hkw & Hro & Hfr & Hsq).
  pose proof (m_waits Hkw) as Hst. pose proof (mo_from _ _ _ m_msg) as Hv.
  unfold algopr_lockclient. change (n_client n0) with (n_client n). rewrite Hst, Hty. change (n_sequency n0) with (k_seq k).
  rewrite Hsq, Z.eqb_refl. cbn [exa_assert]. destruct (add_spec _ _ (nw_ok n Hw) Hv) as (ok & -> & Hwo & Hno). returned.
  set (n1 := with_client n0 (with_reading (n_client n) (PR_read_membership (n_client n)) ok)).
  assert (Hw1 : node_wf n1) by (destruct Hw; by split).
  rewrite (check_finished_ok n1 Hw1 m_srv_valid Hst). cbn [n_client n1 with_reading PR_read_membership PR_read_membership_ok with_client].
  change (membership (n_shared n1)) with (membership (n_shared n)). set (mb := membership (n_shared n)).
  destruct (intersect_spec _ mb (nw_read n Hw) (nw_mship n Hw)) as [Hwr Hnr]. destruct (intersect_spec _ mb Hwo (nw_mship n Hw)) as [Hwo' Hno'].
  assert (Hmb : nodes_of mb = mem_of e k) by exact (mem_members s i n Hs Hi m_acting).
  set (read := exa_nodeset_intersect (PR_read_membership (n_client n)) mb) in *. set (ok' := exa_nodeset_intersect ok mb) in *.
  apply elem_of_difference in Hfr as [Hfr Hfo]. pose proof (ro_read _ _ _ Hro) as Hrr. pose proof (ro_ok _ _ _ Hro) as Hoo.
  assert (Er : nodes_of read = k_read k) by (rewrite Hnr, Hmb; set_solver +Hrr).
  assert (Eo : nodes_of ok' = {[from_node_id m]} ∪ k_ok k) by (rewrite Hno', Hno, Hmb; cbn in *; set_solver +Hrr Hoo Hfr).
  eexists. split; [reflexivity|]. unfold checked. rewrite Er, Eo. case_bool_decide as Eq; unfold acted; rewrite release_sends.
  - set (q := u16 (n_sequency n1 + 1)). set (n2 := mk_node _ _ _ _ _ _ _ _ _ _).
    assert (Hfin : server_msg n1 q (finish_type n1) :: lock_demand n1 q = [srv_msg e i k (finish_of e i k) q] ++ lock_demand n0 q).
    { assert (Hft : finish_type n1 = finish_of e i k).
      { unfold finish_type, finish_of. change (inc_of n1 (this_node_id (n_shared n1))) with (inc_of n (this_node_id (n_shared n))).
        rewrite (ni_this _ _ _ _ m_node), (ni_inc _ _ _ _ m_node) by exact (the_self s i n Hs Hi). done. }
      rewrite Hft, (server_msg_eq s i n Hs Hi n1 eq_refl q (finish_of e i k) m_acting) by (unfold finish_of; by destruct (_ =? _)). done. }
    rewrite Hfin. apply m_step; try done; [destruct Hw; by split|apply m_best| |].
    + apply Forall_app. split; [by apply Forall_singleton|]. apply Forall_forall. by intros m' ->%lock_demand_plain.
    + assert (Ec : core_of h (release_element n2) = set_client k false (k_read k) (nodes_of ok') (k_beg k) (k_pending k) q (k_ctx k)).
      { unfold core_of, release_element, with_used, n2. cbn [n_client n_server n_sequency n_ctx with_c_state with_reading PR_read_membership
          PR_read_membership_ok PR_read_incarnation_at_beginning msg_new_pr c_state n1 with_client n0 with_lists]. by rewrite Er. }
      rewrite Ec, lock_demand_eq. exact (A_done_end _ e i k m (nodes_of ok') q m_to Hrun Hty Hkw Eq).
  - apply m_step; try done; [destruct Hw; by split|apply m_best|].
    match goal with |- act _ _ _ _ _ _ ?c _ => assert (Ec : c = set_client k true (k_read k) ({[from_node_id m]} ∪ k_ok k) (k_beg k) (k_pending k)
      (k_seq k) (k_ctx k)) end.
    { unfold core_of, release_element, with_used. cbn [n_client n_server n_sequency n_ctx with_c_state with_reading PR_read_membership
        PR_read_membership_ok PR_read_incarnation_at_beginning msg_new_pr c_state n1 with_client n0 with_lists]. by rewrite Er, Eo, Hst. }
    rewrite Ec. exact (A_done_more _ e i k m m_to Hrun Hty Hkw Eq).
Qed.

(** *** The server *)

Lemma turn_lock :
  type m = ALGOPR_MESSAGE_LOCK → to_membership_incarnation m = inc_at e i k (from_node_id m) →
  ∃ n', algopr_lockserver n0 m = Some n' ∧ progress s i n (flushed s i n').
Proof using Hs Hrun Hm Hi.
  intros Hty Hinc. pose proof (m_accepts Hinc) as Ha. pose proof (ni_wf _ _ _ _ m_node) as Hw. pose proof (mo_from _ _ _ m_msg) as Hv.
  destruct (lock_flags _ _ _ m_msg Hty) as [Hf1 Hf2].
  pose proof (accepts_serves e (cores s) _ (go_proto _ _ _ m_good) m i k (list_elem_of_here _ _) m_core Ha Hf2) as Hst.
  change (k_state k) with (s_state (n_server n)) in Hst.
  assert (Hadd : s_state (n_server n) ≠ ALGOPR_LOCKSERVER_STATE_READY_UNLOCKED → progress s i n (flushed s i (algopr_lockserver_add_msg_lock n0 m))).
  { intros Hnu. rewrite flushed_nil. apply m_step; try done; [|apply m_best|by apply A_queue].
    destruct Hw. split; try done. cbn. rewrite nw_locks, length_app. cbn. lia. }
  unfold algopr_lockserver, state_wait_all_ok_handle_msg, state_ready_locked_handle_msg. change (n_server n0) with (n_server n).
  destruct (s_state (n_server n)) eqn:Es; [done| | |]; rewrite ?Hty.
  - eexists. split; [reflexivity|by apply Hadd].
  - rewrite (ready_unlocked_ok n0 m m_wf Hv) by (done || (rewrite m_to; symmetry; apply m_node)). eexists. split; [reflexivity|].
    unfold served. assert (Hmsg : locked_msg n0 m = a_msg e i k ALGOPR_MESSAGE_LOCKED (from_node_id m) (emitter_sequency m) None).
    { apply (back_msg_eq s i n Hs Hi n0 eq_refl m ALGOPR_MESSAGE_LOCKED Hv). by rewrite Hf1, Hf2. }
    rewrite Hmsg. apply m_step; try done; [destruct Hw; by split|by apply Forall_singleton|].
    exact (A_grant _ e i k m (emitter_sequency m) Ha Hty Es).
  - eexists. split; [reflexivity|by apply Hadd].
Qed.

Lemma turn_unlock :
  type m = ALGOPR_MESSAGE_UNLOCK → to_membership_incarnation m = inc_at e i k (from_node_id m) →
  ∃ n', algopr_lockserver n0 m = Some n' ∧ progress s i n (flushed s i n').
Proof using Hs Hrun Hm Hi.
  intros Hty Hinc. pose proof (m_accepts Hinc) as Ha. pose proof (ni_wf _ _ _ _ m_node) as Hw. destruct m_good as [Hp (t & Hl & _)].
  destruct (unlock_facts e (cores s) m R t i k Hp Hl m_core Ha Hty) as (Hst & Hown & _ & _).
  pose proof (co_locks _ _ _ (po_core _ _ _ Hp i k m_core)) as Hlocks. change (k_locks k) with (msg_lock (n_server n)) in Hlocks.
  assert (Hval : Forall (λ m', valid_node (from_node_id m') ∧ to_node_id m' = this_node_id (n_shared n0)) (msg_lock (n_server n0))).
  { eapply Forall_impl; [exact Hlocks|]. intros m' (_ & _ & Ht & Hmem). split; [by apply (mem_valid s i n Hs)|].
    rewrite Ht. symmetry. apply m_node. }
  unfold algopr_lockserver. change (s_state (n_server n0)) with (k_state k). rewrite Hst.
  rewrite (ready_locked_ok n0 m m_wf Hty Hown Hval). change (msg_lock (n_server n0)) with (msg_lock (n_server n)) in *.
  eexists. split; [reflexivity|]. destruct (msg_lock (n_server n)) as [|m' l] eqn:El.
  - unfold served. apply m_step; try done; [destruct Hw; by split|].
    assert (Ek : k_locks k = []) by exact El.
    pose proof (A_unlock_last scsi_pr_read_metadata e i k m Ha Hty Ek) as Hact. rewrite Ek in Hact.
    unfold core_of. cbn [n_server n_client n_sequency n_ctx with_s_state s_state s_membership node_with_lock msg_lock with_lists n0]. rewrite El. exact Hact.
  - apply Forall_cons in Hlocks as [(Ht' & Hf' & _ & Hmem) _]. pose proof (mem_valid s i n Hs _ Hmem) as Hv'.
    assert (Hmsg : locked_msg n0 m' = a_msg e i k ALGOPR_MESSAGE_LOCKED (from_node_id m') (emitter_sequency m') None).
    { apply (back_msg_eq s i n Hs Hi n0 eq_refl m' ALGOPR_MESSAGE_LOCKED Hv'). unfold flags_ok in Hf'. rewrite Ht' in Hf'. by injection Hf' as -> ->. }
    unfold served. rewrite Hmsg. apply m_step; try done; [|by apply Forall_singleton|].
    + destruct Hw. split; try done. cbn. rewrite nw_locks, El. cbn. lia.
    + exact (A_unlock_next _ e i k m (emitter_sequency m') m' l Ha Hty El).
Qed.

(** The best node is a member as soon as one node is ready. *)
Lemma better_member :
  0 <= from_membership_incarnation m → from_node_id m ∈ mem_of e k → s_state (n_server n) = ALGOPR_LOCKSERVER_STATE_WAIT_ALL_OK →
  best_incarnation_node (better (n_server n) m) ∈ mem_of e k.
Proof using Hs Hi.
  intros Hpos Hmem Hst. unfold better. destruct (Z.ltb_spec (best_incarnation_incarnation (n_server n)) (from_membership_incarnation m)); [done|].
  destruct (m_best Hst) as [E|?]; [lia|done].
Qed.

Lemma better_same ls : s_state (better ls m) = s_state ls ∧ node_with_lock (better ls m) = node_with_lock ls ∧ msg_lock (better ls m) = msg_lock ls ∧
  msg_lock_nb (better ls m) = msg_lock_nb ls.
Proof. unfold better. by destruct (_ <? _). Qed.

Lemma turn_ok :
  type m = ALGOPR_MESSAGE_LOCKSERVER_OK → to_membership_incarnation m = inc_at e i k (from_node_id m) →
  ∃ n', algopr_lockserver n0 m = Some n' ∧ progress s i n (flushed s i n').
Proof using Hs Hrun Hm Hi.
  intros Hty Hinc. pose proof (m_accepts Hinc) as Ha. pose proof (ni_wf _ _ _ _ m_node) as Hw. pose proof (mo_from _ _ _ m_msg) as Hv.
  destruct m_good as [Hp (t & Hl & _)]. destruct (ok_facts e (cores s) m R t i k Hp Hl m_core Ha Hty) as (Hst & Hna & _).
  pose proof (accepts_member e (cores s) _ i k m Hp (list_elem_of_here _ _) m_core Ha) as Hmem.
  pose proof (better_member (mo_ok _ _ _ m_msg Hty) Hmem Hst) as Hbest. pose proof (mem_valid s i n Hs _ Hbest) as Hbv.
  destruct (wait_all_ok_ok n0 m m_wf Hv Hty Hna Hbv) as (acked & Eh & Hwa & Hac). unfold algopr_lockserver.
  change (s_state (n_server n0)) with (k_state k). rewrite Hst, Eh. eexists. split; [reflexivity|]. unfold acknowledged.
  change (members n0) with (members n). rewrite (mem_members s i n Hs Hi m_acting). change (n_server n0) with (n_server n) in *. fold e h k.
  destruct (better_same (n_server n)) as (Eb1 & Eb2 & Eb3 & Eb4). set (b := better (n_server n) m) in *.
  assert (Hwf : ∀ st o u, node_wf (mk_node (n_shared n0) (n_client n0)
    (mk_server st acked o (msg_lock b) (msg_lock_nb b) (best_incarnation_node b) (best_incarnation_incarnation b)) (n_sequency n0) (n_ctx n0)
    (n_msgs n0) (n_future n0) (n_out n0) u (n_finished n0))).
  { intros st o u. destruct Hw. split; try done. cbn. by rewrite Eb3, Eb4. }
  case_bool_decide as Eall; unfold served.
  - rewrite (the_msg_eq s i n Hs Hi n0 eq_refl) by done. apply m_step; try done; [apply Hwf|by apply Forall_singleton|].
    unfold core_of. cbn [n_server n_client n_sequency n_ctx with_s_state with_owner with_acked s_state s_membership node_with_lock msg_lock with_lists n0
      best_incarnation_node]. rewrite Hac, Eb3. rewrite Hac in Eall.
    exact (A_ok_all _ e i k m (best_incarnation_node b) (n_sequency n) Ha Hty Hst Eall Hbest).
  - apply m_step; try done; [apply Hwf|by right|].
    unfold core_of. cbn [n_server n_client n_sequency n_ctx with_s_state with_owner with_acked s_state s_membership node_with_lock msg_lock with_lists n0
      best_incarnation_node]. rewrite Hac, Eb3, Eb2, Eb1. change (s_state (n_server n)) with (k_state k). rewrite Hst.
    rewrite Hac in Eall. exact (A_ok_more _ e i k m (k_owner k) Ha Hty Hst Eall).
Qed.

Lemma turn_message : ∃ n', handle_message n0 (ALGOPR_MESSAGE m) = Some n' ∧ progress s i n (flushed s i n').
Proof using TargetLaws0 Hs Hrun Hm Hi.
  rewrite m_handle. pose proof (mo_flags _ _ _ m_msg) as Hfl. unfold flags_ok in Hfl.
  destruct (Z.ltb_spec (to_membership_incarnation m) (inc_at e i k (from_node_id m))) as [Hlt|Hge].
  - destruct (lock_msg m) eqn:Hlm; cbn [andb]; [eexists; split; [reflexivity|by apply turn_drop]|].
    rewrite (proj2 (Z.ltb_ge _ _)) by lia. unfold lock_msg in Hlm. apply orb_false_iff in Hlm as [Hf1 Hf2]. rewrite Hf2.
    destruct (type m) eqn:Hty; cbn in Hfl; rewrite Hf1, Hf2 in Hfl; try done.
    + destruct (turn_cmd Hty) as (n' & -> & Hn'); [lia|]. returned. by eexists.
    + destruct (turn_done Hty) as (n' & -> & Hn'). returned. by eexists.
  - cbn [andb]. destruct (Z.ltb_spec (inc_at e i k (from_node_id m)) (to_membership_incarnation m)) as [Hlt|Hle];
      [eexists; split; [reflexivity|by apply turn_postpone]|].
    assert (Hinc : to_membership_incarnation m = inc_at e i k (from_node_id m)) by lia.
    assert (Hg : is_grant m = is_grant_type (type m)) by done.
    destruct (type m) eqn:Hty; cbn in Hfl; injection Hfl as Hf1 Hf2; rewrite Hf2.
    + by apply turn_ok.
    + destruct (turn_cmd Hty) as (n' & -> & Hn'); [lia|]. returned. by eexists.
    + destruct (turn_done Hty) as (n' & -> & Hn'). returned. by eexists.
    + by apply turn_lock.
    + destruct (turn_grant Hg Hinc) as (n' & -> & Hn'). returned. by eexists.
    + by apply turn_unlock.
    + destruct (turn_grant Hg Hinc) as (n' & -> & Hn'). returned. by eexists.
Qed.
End message.
End turn.
