(* ===== verification/PrLockRun.v ===== *)
(** * The system keeps its invariant

    Every step of the system of nodes keeps the invariant, so that no assertion
    of the thread fails and one node at most has the lock. *)

From S2P Require Import Prelude Nodeset PrLock PrLockNode PrLockProto PrLockAct PrLockStep PrLockServe PrLockRecover PrLockMove PrLockSys PrLockTurn.
From stdpp Require Import options.

#[local] Existing Instance endless_pool.

Section run.
Context {X D P : Type} `{!Target X D P} `{!TargetLaws X D P}.
Implicit Types (s : system X D P) (n : node_t X D P) (m : algopr_message_t P) (L R : list (algopr_message_t P)).

Lemma rest_inflight s i n n0 : s_nodes s !! i = Some n → msgs_of n0 ≡ₚ msgs_of n → rest s i ++ msgs_of n0 ≡ₚ inflight s.
Proof. intros Hi Hm. rewrite (inflight_node s i n Hi), Hm. done. Qed.

(** ** A command of the target *)

Lemma turn_new_pr s i n d msgs :
  sys_inv s → s_nodes s !! i = Some n → n_msgs n = ALGOPR_LOCAL_TARGET_NEW_PR d :: msgs →
  running (env_of s) i (core_of (handled s i n) n) →
  ∃ n', handle_message (with_lists n msgs (n_future n)) (ALGOPR_LOCAL_TARGET_NEW_PR d) = Some n' ∧ progress s i n (flushed s i n').
Proof.
  intros Hs Hi Hm Hr. set (n0 := with_lists n msgs (n_future n)). set (k := core_of (handled s i n) n) in *.
  pose proof (si_node _ Hs i n Hi) as Hn. pose proof (ni_wf _ _ _ _ Hn) as Hw. pose proof (running_acting _ _ _ Hr) as Ha.
  pose proof (popped_ok s i n _ msgs Hn Hm eq_refl) as Hlo. fold n0 in Hlo. cbn [handle_message]. unfold handle_local_target_new_pr.
  set (c := with_pending _ _ _). set (n1 := with_client n0 c).
  assert (Hw1 : node_wf n1) by (destruct Hw; split; try done; cbn; rewrite nw_pending, length_app; cbn; lia).
  assert (Hlo1 : local_ok s i n n1) by (by apply (local_change s i n n0); [..|apply (ni_best _ _ _ _ Hn)]).
  assert (Ec : core_of (handled s i n) n1 = set_client k (k_wait k) (k_read k) (k_ok k) (k_beg k) (S (k_pending k)) (k_seq k) (k_ctx k)).
  { unfold core_of, set_client. cbn. rewrite length_app. cbn. by rewrite Nat.add_1_r. }
  assert (Hstep : ∀ L, Forall (λ m, from_node_id m = i) L →
    L = (if negb (k_wait k) && (k_pending k =? 0)%nat then [srv_msg (env_of s) i k ALGOPR_MESSAGE_LOCK (k_seq k)] else []) →
    progress s i n (flushed s i (sends n1 L))).
  { intros L HL EL. apply (local_step s i n n1 L [] 1); [done|done|done|done| | |].
    - rewrite Ec, EL. by apply A_command.
    - symmetry. apply (rest_inflight s i n n1 Hi). unfold msgs_of. by rewrite Hm.
    - unfold prs_of. by rewrite Hm. }
  change (c_state c) with (c_state (n_client n)). assert (Hpd : (PR_pending c =? 1) = (k_pending k =? 0)%nat).
  { cbn. rewrite (nw_pending n Hw). destruct (length (msg_new_pr (n_client n))); [done|]. apply Z.eqb_neq. lia. }
  rewrite Hpd. destruct (c_state (n_client n)) eqn:Hst; [destruct (k_pending k =? 0)%nat eqn:Hz|].
  - assert (Hv : valid_node (PR_lockserver (n_shared n1))).
    { change (n_shared n1) with (n_shared n). rewrite (ni_srv _ _ _ _ Hn Ha). by apply (srv_valid s i n). }
    rewrite (send_to_lockserver_ok n1 _ Hw1 Hv). eexists. split; [reflexivity|].
    change (to_server n1 ALGOPR_MESSAGE_LOCK) with (server_msg n1 (n_sequency n) ALGOPR_MESSAGE_LOCK).
    rewrite (server_msg_eq s i n Hs Hi n1 eq_refl _ ALGOPR_MESSAGE_LOCK Ha eq_refl). apply Hstep; [by apply Forall_singleton|].
    cbn. by rewrite Hst.
  - eexists. split; [reflexivity|]. rewrite <- (sends_nil n1). apply Hstep; [done|]. by rewrite andb_false_r.
  - eexists. split; [reflexivity|]. rewrite <- (sends_nil n1). apply Hstep; [done|]. cbn. by rewrite Hst.
Qed.

(** ** What waits for the end of a recovery *)

Lemma turn_suspended s i n op msgs :
  sys_inv s → s_nodes s !! i = Some n → n_msgs n = op :: msgs → is_ctl op = false →
  ¬ running (env_of s) i (core_of (handled s i n) n) → progress s i n (flushed s i (postpone (with_lists n msgs (n_future n)) op)).
Proof.
  intros Hs Hi Hm Hc Hr. set (n0 := with_lists n msgs (n_future n)). set (k := core_of (handled s i n) n) in *.
  pose proof (si_node _ Hs i n Hi) as Hn. pose proof (popped_ok s i n _ msgs Hn Hm Hc) as Hlo.
  assert (Hp : msgs_of (postpone n0 op) ≡ₚ msgs_of n).
  { unfold msgs_of, postpone. cbn. rewrite Hm, omap_app. destruct op; cbn; rewrite ?app_nil_r; solve_Permutation. }
  assert (Hns : k_stage k ≠ 3%nat) by (intros E; apply Hr; by left).
  rewrite <- (sends_nil (postpone n0 op)). apply (local_step s i n _ [] [] 0); [done|done| |done|by apply A_idle| |].
  - destruct Hlo. split; try done.
    + by apply node_wf_lists, node_wf_lists, Hn.
    + cbn in *. apply Forall_app. split; [done|]. by apply Forall_singleton.
    + rewrite Hp. apply Hn.
  - symmetry. by apply (rest_inflight s i n).
  - unfold prs_of. cbn. rewrite Hm, omap_app, !length_app. destruct op; cbn; lia.
Qed.

(** ** The operations of a recovery *)

Lemma ctl_head s i n op msgs k :
  node_inv s i n k → n_msgs n = op :: msgs → is_ctl op = true →
  script s !! handled s i n = Some op ∧ (handled s i n < posted_count s i)%nat ∧
  filter is_ctl msgs = drop (S (handled s i n)) (take (posted_count s i) (script s)) ∧
  (posted_count s i - length (filter is_ctl msgs))%nat = S (handled s i n).
Proof.
  intros Hn Hm Hc. pose proof (ni_ctl _ _ _ _ Hn) as Hctl. pose proof (ni_posted _ _ _ _ Hn) as Hp. unfold handled in *.
  unfold ctl_of in *. rewrite Hm, filter_cons_True in * by (by rewrite Hc). set (h := (posted_count s i - length (op :: filter is_ctl msgs))%nat) in *.
  assert (Hop : take (posted_count s i) (script s) !! h = Some op) by (rewrite <- (Nat.add_0_r h), <- lookup_drop, <- Hctl; done).
  apply lookup_take_Some in Hop as [Hop Hlt]. split; [done|]. split; [done|]. split.
  - change (S h) with (1 + h)%nat. rewrite Nat.add_comm, <- drop_drop, <- Hctl. done.
  - subst h. cbn in *. lia.
Qed.

Lemma script_suspend s h : script s !! h = Some ALGOPR_SUSPEND → h = 0%nat.
Proof. by destruct h as [|[|[|]]]. Qed.
Lemma script_resume s h : script s !! h = Some ALGOPR_RESUME → h = 2%nat.
Proof. by destruct h as [|[|[|]]]. Qed.
Lemma script_membership s h mb : script s !! h = Some (ALGOPR_NEW_MEMBERSHIP mb) → h = 1%nat ∧ mb = s_mship s.
Proof. destruct h as [|[|[|]]]; try done. cbn. by intros [= <-]. Qed.

Lemma first_of_ok mb : nodes_of mb ≠ ∅ → exa_nodeset_first mb = Some (first_of mb) ∧ first_of mb ∈ nodes_of mb.
Proof. intros Hne. unfold first_of. destruct (first_spec mb) as (j & -> & [[? _]|[Hj _]]); done. Qed.

(** The part of the invariant of a node that is about the recovery. *)
Lemma ctl_next s i n n1 op msgs k :
  node_inv s i n k → n_msgs n = op :: msgs → is_ctl op = true → ctl_of n1 = filter is_ctl msgs →
  handled s i n1 = S (handled s i n) ∧ (length (ctl_of n1) <= posted_count s i)%nat ∧
  ctl_of n1 = drop (handled s i n1) (take (posted_count s i) (script s)).
Proof.
  intros Hn Hm Hc E. destruct (ctl_head s i n op msgs k Hn Hm Hc) as (_ & Hlt & Hd & Hh).
  assert (E1 : handled s i n1 = S (handled s i n)) by (unfold handled at 1; by rewrite E). split; [done|]. split; [rewrite E; lia|].
  by rewrite E1, E.
Qed.

(** *** The node is suspended *)

Lemma turn_suspend s i n msgs :
  sys_inv s → s_nodes s !! i = Some n → n_msgs n = ALGOPR_SUSPEND :: msgs →
  let n0 := with_lists n msgs (n_future n) in progress s i n (flushed s i (with_shared n0 (with_suspended (n_shared n0) true))).
Proof.
  intros Hs Hi Hm n0. pose proof (si_node _ Hs i n Hi) as Hn. set (n1 := with_shared _ _).
  destruct (ctl_head s i n _ msgs _ Hn Hm eq_refl) as (Hsc & _). apply script_suspend in Hsc.
  destruct (ctl_next s i n n1 _ msgs _ Hn Hm eq_refl eq_refl) as (Hh & Hlen & Hctl). rewrite Hsc in Hh.
  assert (Hmsgs : msgs_of n1 = msgs_of n) by (unfold msgs_of; by rewrite Hm).
  pose proof (the_core s i n Hi) as Hk. rewrite Hsc in Hk, Hn. apply (node_step s i n); [done|done| |by cbn; rewrite (ni_out _ _ _ _ Hn)| |by rewrite Hsc].
  - rewrite Hh. destruct Hn. split; try done.
    + destruct ni_wf. by split.
    + change (Forall (λ m, to_node_id m = i) (msgs_of n1)). by rewrite Hmsgs.
    + cbn. split; [done|]. by intros [|[? _]].
    + intros Hh3. change (handled s i (with_out n1 [])) with (handled s i n1) in Hh3. by rewrite Hh in Hh3.
  - rewrite Hh. apply (M_suspend _ _ _ _ i (core_of 0 n)); [done|done|].
    rewrite <- (sends_nil n1), (inflight_sends s i n n1 [] Hi) by (apply Hn). rewrite Hmsgs, filter_nil, app_nil_r. by apply inflight_node.
Qed.

(** *** The node is resumed *)

Lemma keeps_ctl mb (ops : list (algopr_op_t D P)) : filter is_ctl (filter (keeps mb) ops) = filter is_ctl ops.
Proof.
  induction ops as [|op ops IH]; [done|]. rewrite (filter_cons (keeps mb)). destruct (decide (keeps mb op)) as [Hk|Hk].
  - rewrite !filter_cons, IH. done.
  - rewrite IH, (filter_cons_False is_ctl); [done|]. destruct op; cbn in *; by (intros [] || destruct Hk).
Qed.

Lemma keeps_msgs mb (ops : list (algopr_op_t D P)) :
  omap op_msg (filter (keeps mb) ops) = filter (λ m, from_node_id m ∈ nodes_of mb) (omap op_msg ops).
Proof.
  induction ops as [|op ops IH]; [done|]. destruct op as [mb'| | |d|m]; try (rewrite filter_cons_True by exact I; exact IH).
  change (omap op_msg (ALGOPR_MESSAGE m :: ops)) with (m :: omap op_msg ops).
  destruct (decide (from_node_id m ∈ nodes_of mb)) as [Hf|Hf].
  - rewrite !filter_cons_True by (done || by apply bool_decide_pack). cbn. by rewrite <- IH.
  - rewrite !filter_cons_False by (done || by intros ?%bool_decide_unpack). exact IH.
Qed.

Lemma turn_resume s i n msgs :
  sys_inv s → s_nodes s !! i = Some n → n_msgs n = ALGOPR_RESUME :: msgs →
  let n0 := with_lists n msgs (n_future n) in
  let n1 := with_shared n0 (with_suspended (n_shared n0) false) in
  ∃ n', algopr_update_messages n1 (membership (n_shared n1)) = Some n' ∧ progress s i n (flushed s i n').
Proof.
  intros Hs Hi Hm n0 n1. pose proof (si_node _ Hs i n Hi) as Hn.
  destruct (ctl_head s i n _ msgs _ Hn Hm eq_refl) as (Hsc & Hpc & _). apply script_resume in Hsc.
  assert (Hmsgs1 : msgs_of n1 = msgs_of n) by (unfold msgs_of; by rewrite Hm).
  assert (Hmsgs0 : ∀ m, m ∈ msgs_of n → msg_ok (env_of s) (cores s) m).
  { intros m Hmm. apply (po_msg _ _ _ (the_proto s Hs)), elem_of_inflight. right. by exists i, n. }
  rewrite (update_messages_ok n1).
  2:{ apply Forall_forall. intros op Hop m Eop. apply (mo_from (env_of s) (cores s)), Hmsgs0. rewrite <- Hmsgs1. unfold msgs_of.
      apply elem_of_app in Hop as [Hop|Hop]; apply elem_of_app; [right|left]; apply list_elem_of_omap; by exists op. }
  eexists. split; [reflexivity|]. set (mb := membership _). set (n2 := sorted_out n1 mb).
  assert (Hc2 : ctl_of n2 = filter is_ctl msgs).
  { unfold ctl_of. cbn. rewrite keeps_ctl, filter_app. rewrite (filter_none is_ctl (n_future n)); [done|].
    eapply Forall_impl; [apply (ni_future _ _ _ _ Hn)|]. cbn. intros op ->. by intros []. }
  destruct (ctl_next s i n n2 _ msgs _ Hn Hm eq_refl Hc2) as (Hh & Hlen & Hctl). rewrite Hsc in Hh.
  assert (Hmb : mb = s_mship s).
  { unfold mb. cbn. rewrite (ni_mship _ _ _ _ Hn) by (left; by rewrite Hsc). by rewrite Hsc. }
  assert (Hmsgs2 : msgs_of n2 ≡ₚ filter (λ m, from_node_id m ∈ mset s) (msgs_of n)).
  { unfold msgs_of, n2, sorted_out. cbn [n_msgs n_future]. change (omap op_msg []) with (@nil (algopr_message_t P)).
    rewrite keeps_msgs, app_nil_r, omap_app, Hm, Hmb. cbn. rewrite !filter_app. apply Permutation_app_comm. }
  pose proof (the_core s i n Hi) as Hk. rewrite Hsc in Hk, Hn. apply (node_step s i n); [done|done| |by cbn; rewrite (ni_out _ _ _ _ Hn)| |by rewrite Hsc].
  - rewrite Hh. destruct Hn. split; try done.
    + destruct ni_wf. by split.
    + change (Forall (λ m, to_node_id m = i) (msgs_of n2)). rewrite Hmsgs2. apply Forall_forall. intros m [_ Hmm]%list_elem_of_filter.
      rewrite Forall_forall in ni_to. auto.
    + cbn. split; [by left|done].
  - rewrite Hh. assert (HF2 : inflight (flushed s i n2) ≡ₚ filter (λ m, from_node_id m ∈ mset s) (msgs_of n) ++ rest s i).
    { rewrite <- (sends_nil n2), (inflight_sends s i n n2 [] Hi) by (apply Hn). rewrite Hmsgs2, filter_nil, app_nil_r. unfold rest. solve_Permutation. }
    apply (M_resume _ _ _ _ i (core_of 2 n) (filter (λ m, from_node_id m ∉ mset s) (msgs_of n))); [done|done| | |].
    + apply Forall_forall. by intros m [? _]%list_elem_of_filter.
    + rewrite HF2, (inflight_node s i n Hi). fold (rest s i).
      rewrite <- (filter_app_complement (λ m, from_node_id m ∈ mset s) (msgs_of n)) at 1. solve_Permutation.
    + intros m Hmm Hto. rewrite HF2 in Hmm. apply elem_of_app in Hmm as [[? _]%list_elem_of_filter|Hmm]; [done|].
      destruct (decide (from_node_id m ∈ mset s)) as [|Hf]; [done|]. exfalso. unfold rest in Hmm. apply elem_of_app in Hmm as [Hmm|Hmm].
      * pose proof (si_net _ Hs m Hmm Hf) as Hlt. rewrite Hto in Hlt. lia.
      * apply elem_of_all_msgs in Hmm as (j & nj & [Hne Hj]%lookup_delete_Some & Hmm).
        pose proof (ni_to _ _ _ _ (si_node _ Hs j nj Hj)) as Ht. rewrite Forall_forall in Ht. by rewrite (Ht m Hmm) in Hto.
Qed.

(** *** The node is told the membership *)

Section membership.
Context (s : system X D P) (i : Z) (n : node_t X D P) (msgs : list (algopr_op_t D P)) (mb : exa_nodeset_t).
Context (Hs : sys_inv s) (Hi : s_nodes s !! i = Some n) (Hm : n_msgs n = ALGOPR_NEW_MEMBERSHIP mb :: msgs).
Let e := env_of s.
Let k := core_of (handled s i n) n.
Let n0 := with_lists n msgs (n_future n).
Let r := renewed n0 mb (first_of mb).

Lemma b_node : node_inv s i n k.
Proof using Hs Hi. by apply the_node. Qed.

Lemma b_stage : handled s i n = 1%nat ∧ mb = s_mship s.
Proof using msgs Hs Hm Hi. destruct (ctl_head s i n _ msgs k b_node Hm eq_refl) as (Hsc & _). by apply script_membership in Hsc. Qed.

Lemma b_old : is_done k = false.
Proof using r n0 msgs mb Hs Hm Hi. unfold is_done. cbn. by rewrite (proj1 b_stage). Qed.

Lemma b_in : i ∈ mset s.
Proof using n Hs Hi. apply alive_new; [done|by eexists]. Qed.

Lemma b_mb : nodeset_wf mb ∧ nodes_of mb = mset s ∧ exa_nodeset_first mb = Some (first_of mb) ∧ first_of mb ∈ mset s ∧ valid_node (first_of mb).
Proof using r n0 n msgs k i Hs Hm Hi.
  destruct b_stage as [_ ->]. pose proof b_in as Hin. destruct (first_of_ok (s_mship s)) as [Hf Hfi].
  { intros E. unfold mset in Hin. by rewrite E in Hin. }
  split; [apply Hs|]. split; [done|]. split; [done|]. split; [done|]. apply (the_valid s Hs). by left.
Qed.

Lemma b_wf : node_wf r.
Proof using s k i e Hs Hm Hi.
  apply renewed_wf; [apply node_wf_lists, b_node|apply b_mb|]. intros j Hj. change (inc_of n0 j) with (inc_of n j).
  rewrite (ni_inc _ _ _ _ b_node j Hj). unfold inc_at. rewrite b_old. apply (si_oldbound _ Hs).
Qed.

Lemma b_inc j : valid_node j → inc_of r j = e_inc e i j.
Proof using Hs Hm Hi.
  intros Hj. change (inc_of r j) with (next_inc (membership_incarnation (n_shared n)) mb !!! Z.to_nat j). rewrite next_inc_lookup by done.
  change (membership_incarnation (n_shared n) !!! Z.to_nat j) with (inc_of n j).
  rewrite (ni_inc _ _ _ _ b_node j Hj). unfold inc_at. rewrite b_old.
  rewrite (eo_inc e (po_env _ _ _ (the_proto s Hs)) i j). change (e_new e) with (mset s).
  destruct b_mb as (_ & -> & _). pose proof b_in as Hin. repeat case_bool_decide; tauto.
Qed.

Lemma b_msg n2 q t (k2 : core X P) : n_shared n2 = n_shared r → flags_of t = (false, true) → is_done k2 = true → server_msg n2 q t = srv_msg e i k2 t q.
Proof using Hs Hm Hi.
  intros Hsh Ht Hd. unfold server_msg, srv_msg, a_msg, inc_at, srv_at. rewrite !(inc_of_shared r n2), Hsh, Ht, Hd by done.
  change (this_node_id (n_shared r)) with (this_node_id (n_shared n)). rewrite (ni_this _ _ _ _ b_node).
  change (PR_lockserver (n_shared r)) with (first_of mb). rewrite !b_inc by (apply b_mb || by apply (the_self s i n)).
  destruct b_stage as [_ ->]. done.
Qed.

Lemma b_step n2 L :
  n_shared n2 = n_shared r → n_out n2 = n_out n → n_msgs n2 = msgs → n_future n2 = n_future n → n_server n2 = n_server r → node_wf n2 →
  Forall (λ m, from_node_id m = i) L →
  told e i k (core_of 2 n2) L → progress s i n (flushed s i (sends n2 L)).
Proof using Hs Hm Hi.
  intros Hsh Ho Hms Hf Hsv Hw HL Hg. pose proof b_node as Hn. destruct b_stage as [Hst Emb].
  assert (Hc : ctl_of (sends n2 L) = filter is_ctl msgs) by (rewrite sends_ctl; unfold ctl_of; by rewrite Hms).
  destruct (ctl_next s i n (sends n2 L) _ msgs k Hn Hm eq_refl Hc) as (Hh & Hlen & Hctl). rewrite Hst in Hh.
  assert (Hth : this_node_id (n_shared n2) = i) by (rewrite Hsh; apply Hn).
  assert (Hmsgs : msgs_of n2 = msgs_of n) by (unfold msgs_of; by rewrite Hms, Hf, Hm).
  assert (Ho2 : n_out n2 = []) by (rewrite Ho; apply Hn).
  apply (node_step s i n); [done|done| | | |by rewrite Hst].
  - rewrite Hh. pose proof (b_inc) as Hinc. destruct Hn. split; try done.
    + by apply sends_wf.
    + cbn. by rewrite Hf.
    + unfold msgs_of. cbn. rewrite omap_app, omap_messages, Hth. rewrite <- Hmsgs in ni_to. unfold msgs_of in ni_to.
      apply Forall_app in ni_to as [H1 H2]. apply Forall_app. split; [|done]. apply Forall_app. split; [done|].
      apply Forall_forall. by intros m [? _]%list_elem_of_filter.
    + cbn. rewrite Hsh. cbn. rewrite ni_suspended. unfold running. cbn. rewrite Hst. split; by intros [|[? _]].
    + intros j Hj. change (inc_of n2 j = e_inc e i j). rewrite (inc_of_shared r n2) by done. by apply Hinc.
    + intros _. cbn. by rewrite Hsh.
    + intros _. cbn. rewrite Hsh. cbn. by rewrite Emb.
    + intros _. left. cbn. by rewrite Hsv.
    + change (handled s i (with_out (sends n2 L) [])) with (handled s i (sends n2 L)). by rewrite Hh.
  - cbn. rewrite Ho2. apply Forall_forall. intros m [_ Hmm]%list_elem_of_filter. rewrite Forall_forall in HL. auto.
  - rewrite Hh. apply (M_told _ _ _ _ i k _ L); [by apply the_core|exact Hst|exact Hg|].
    rewrite (inflight_sends s i n n2 L Hi Hth Ho2), alive_sentto, Hmsgs, (inflight_node s i n Hi) by done. solve_Permutation.
Qed.

Lemma b_demand q (k2 : core X P) :
  is_done k2 = true → k_pending k2 = length (msg_new_pr (n_client n)) → lock_demand r q = demand e i k2 q.
Proof using Hs Hm Hi.
  intros Hd Hp. unfold lock_demand, demand. rewrite Hp. change (PR_pending (n_client r)) with (PR_pending (n_client n)).
  rewrite (nw_pending n (ni_wf _ _ _ _ b_node)), (b_msg r q _ k2) by done. by destruct (length (msg_new_pr (n_client n))).
Qed.

Lemma b_server : s_state (n_server r) = (if e_srv e =? i then ALGOPR_LOCKSERVER_STATE_WAIT_ALL_OK else ALGOPR_LOCKSERVER_STATE_STANDBY).
Proof using k Hs Hm Hi.
  cbn. destruct b_stage as [_ ->]. rewrite (ni_this _ _ _ _ b_node). done.
Qed.

Lemma b_core (c : algopr_lockclient_t D) q (x : X) (ms fu : list (algopr_op_t D P)) ou u f :
  core_of 2 (mk_node (n_shared r) c (n_server r) q x ms fu ou u f) =
  set_client (renew e i k false q) (bool_decide (c_state c = ALGOPR_LOCKCLIENT_STATE_WAIT_PROCESS_REMOTE)) (nodes_of (PR_read_membership c))
    (nodes_of (PR_read_membership_ok c)) (PR_read_incarnation_at_beginning c) (length (msg_new_pr c)) q x.
Proof using Hs Hm Hi. unfold core_of, set_client. cbn [n_client n_server n_sequency n_ctx]. by rewrite b_server. Qed.

(** The node is ready: it tells the server, and asks for the lock. *)
Lemma b_ready (c : algopr_lockclient_t D) q f u :
  c_state c = ALGOPR_LOCKCLIENT_STATE_PASSIVE → msg_new_pr c = msg_new_pr (n_client n) →
  (k_wait k = true → k_read k ∩ e_new e = k_ok k ∩ e_new e) →
  let n2 := mk_node (n_shared r) c (n_server r) q (n_ctx n) (n_msgs r) (n_future r) (n_out r) u f in
  node_wf n2 →
  progress s i n (flushed s i (sends n2 (server_msg r q ALGOPR_MESSAGE_LOCKSERVER_OK :: lock_demand r q))).
Proof using Hs Hm Hi.
  intros Hst Hpr Heq n2 Hw2. set (k2 := core_of 2 n2).
  assert (Hk2 : k2 = set_client (renew e i k false q) false (nodes_of (PR_read_membership c)) (nodes_of (PR_read_membership_ok c))
    (PR_read_incarnation_at_beginning c) (k_pending k) q (k_ctx k)).
  { unfold k2, n2. rewrite b_core, Hst, Hpr. done. }
  rewrite (b_msg r q _ k2), (b_demand q k2) by (done || (cbn; by rewrite Hpr)). apply b_step; try done.
  - apply Forall_cons. split; [done|]. unfold demand. case_match; [done|]. by apply Forall_singleton.
  - fold k2. rewrite Hk2. by apply T_ok.
Qed.

Lemma b_passive :
  c_state (n_client n) = ALGOPR_LOCKCLIENT_STATE_PASSIVE →
  progress s i n (flushed s i (sends (release_element r) (server_msg r (n_sequency n) ALGOPR_MESSAGE_LOCKSERVER_OK :: lock_demand r (n_sequency n)))).
Proof using Hs Hm Hi.
  intros Hst. apply b_ready; [done|done| |destruct b_wf; by split]. cbn. by rewrite Hst.
Qed.

Lemma b_waiting :
  c_state (n_client n) = ALGOPR_LOCKCLIENT_STATE_WAIT_PROCESS_REMOTE →
  progress s i n (flushed s i (release_element (checked r (exa_nodeset_intersect (PR_read_membership (n_client n)) mb)
    (exa_nodeset_intersect (PR_read_membership_ok (n_client n)) mb)))).
Proof using Hs Hm Hi.
  intros Hst. destruct b_stage as [Hh _]. pose proof (ni_wf _ _ _ _ b_node) as Hw. destruct b_mb as (Hwm & Emb & _).
  destruct (intersect_spec _ mb (nw_read n Hw) Hwm) as [Hwr Hnr]. destruct (intersect_spec _ mb (nw_ok n Hw) Hwm) as [Hwo Hno].
  set (read := exa_nodeset_intersect (PR_read_membership _) mb) in *. set (ok := exa_nodeset_intersect (PR_read_membership_ok _) mb) in *.
  rewrite Emb in Hnr, Hno. assert (Hkw : k_wait k = true) by (cbn; by rewrite Hst). pose proof (the_core s i n Hi) as Hk. fold k in Hk.
  destruct (go_lock _ _ _ (si_good _ Hs)) as (t & Hl & _).
  unfold checked. case_bool_decide as Eq; unfold acted; rewrite release_sends.
  - assert (Eft : finish_type r = ALGOPR_MESSAGE_LOCKSERVER_OK).
    { unfold finish_type. change (this_node_id (n_shared r)) with (this_node_id (n_shared n)). rewrite (ni_this _ _ _ _ b_node), b_inc by (by apply (the_self s i n)).
      pose proof (member_beg e (cores s) _ i k t (the_proto s Hs) Hl Hk Hh Hkw) as Hb. destruct (Z.eqb_spec (e_inc e i i) (k_beg k)) as [E|E]; [by rewrite E in Hb|].
      change (PR_read_incarnation_at_beginning (n_client r)) with (k_beg k). by rewrite (proj2 (Z.eqb_neq _ _) E). }
    rewrite Eft. apply b_ready; [done|done| |destruct b_wf; by split].
    intros _. exact (eq_trans (eq_sym Hnr) (eq_trans Eq Hno)).
  - apply b_step; try done; [destruct b_wf; by split|].
    assert (Eq' : k_read k ∩ e_new e ≠ k_ok k ∩ e_new e) by (intros E; apply Eq; by rewrite Hnr, Hno).
    assert (Ec : core_of 2 (release_element (mk_node (n_shared r) (with_reading (n_client r) read ok) (n_server r) (n_sequency r) (n_ctx r)
      (n_msgs r) (n_future r) (n_out r) (n_used r) (n_finished r))) = renew e i k true (k_seq k)).
    { unfold release_element, with_used. cbn [n_shared n_client n_server n_sequency n_ctx n_msgs n_future n_out n_used n_finished]. rewrite b_core.
      unfold set_client, renew. cbn [with_reading c_state PR_read_membership PR_read_membership_ok PR_read_incarnation_at_beginning msg_new_pr].
      rewrite Hnr, Hno. change (c_state (n_client r)) with (c_state (n_client n)). by rewrite Hst. }
    rewrite Ec. by apply T_wait.
Qed.

Lemma turn_membership : ∃ n', handle_new_membership n0 mb = Some n' ∧ progress s i n (flushed s i (release_element n')).
Proof using Hs Hm Hi.
  destruct b_mb as (Hwm & Emb & Hf & _ & Hv). rewrite (new_membership_ok n0 mb (first_of mb)); [|apply node_wf_lists, b_node|done| |done|done|].
  - eexists. split; [reflexivity|]. change (n_client n0) with (n_client n). destruct (c_state (n_client n)) eqn:Hst.
    + rewrite release_sends. by apply b_passive.
    + by apply b_waiting.
  - rewrite Emb. intros E. pose proof b_in as Hin. rewrite E in Hin. by apply not_elem_of_empty in Hin.
  - intros j Hj. change (inc_of n0 j) with (inc_of n j). rewrite (ni_inc _ _ _ _ b_node j Hj). unfold inc_at. rewrite b_old. apply (si_oldbound _ Hs).
Qed.
End membership.
End run.
