(* ===== verification/PrLockSafe.v ===== *)
(** * Safety of the reservation lock

    The invariant holds in every state that the system reaches: no assertion of
    the threads fails, and one node at most has the lock. *)

From S2P Require Import Prelude Nodeset PrLock PrLockNode PrLockProto PrLockAct PrLockStep PrLockServe PrLockRecover PrLockMove PrLockSys PrLockTurn PrLockRun.
From stdpp Require Import options.

#[local] Existing Instance endless_pool.

Section safe.
Context {X D P : Type} `{!Target X D P} `{!TargetLaws X D P}.
Implicit Types (s : system X D P) (n : node_t X D P) (m : algopr_message_t P) (L R : list (algopr_message_t P)).

(** A step that keeps the invariant and is a move of the protocol. *)
Definition advances s s' : Prop :=
  sys_inv s' ∧ move scsi_pr_read_metadata (env_of s) (cores s) (inflight s) (env_of s') (cores s') (inflight s').

(** ** A turn of a thread *)

Lemma turn_returns s i n :
  sys_inv s → s_nodes s !! i = Some n → n_msgs n ≠ [] → ∃ n', algopr_thread_turn n = Some n' ∧ progress s i n (flushed s i n').
Proof using TargetLaws0.
  intros Hs Hi Hne. pose proof (si_node _ Hs i n Hi) as Hn. pose proof (ni_suspended _ _ _ _ Hn) as Hsu.
  unfold algopr_thread_turn. destruct (n_msgs n) as [|op msgs] eqn:Hm; [done|]. set (n0 := with_lists n msgs (n_future n)).
  change (suspended (n_shared n0)) with (suspended (n_shared n)).
  assert (Hctl : is_ctl op = true → script s !! handled s i n = Some op) by (intros Hc; apply (ctl_head s i n op msgs _ Hn Hm Hc)).
  destruct (suspended (n_shared n)) eqn:Esu.
  - assert (Hr : ¬ running (env_of s) i (core_of (handled s i n) n)) by (intros Hr; by apply Hsu in Hr).
    destruct op as [mb| | |d|m]; cbn [handle_message_when_suspended].
    + destruct (turn_membership s i n msgs mb Hs Hi Hm) as (n' & E & Hn'). fold n0 in E. rewrite E. returned. by eexists.
    + eexists. split; [reflexivity|]. pose proof (turn_suspend s i n msgs Hs Hi Hm) as Ht. cbn zeta in Ht. fold n0 in Ht.
      assert (E : with_shared n0 (with_suspended (n_shared n0) true) = n0); [|by rewrite E in Ht].
      unfold with_shared, with_suspended. cbn. rewrite <- Esu. unfold n0, with_lists. f_equal. by destruct (n_shared n).
    + exact (turn_resume s i n msgs Hs Hi Hm).
    + eexists. split; [reflexivity|]. by apply turn_suspended.
    + eexists. split; [reflexivity|]. by apply turn_suspended.
  - pose proof (proj1 Hsu eq_refl) as Hr. destruct op as [mb| | |d|m]; cbn [handle_message].
    + destruct (script_membership s _ _ (Hctl eq_refl)) as [Hh _]. destruct Hr as [Hr|[Hr _]]; cbn in Hr; congruence.
    + eexists. split; [reflexivity|]. exact (turn_suspend s i n msgs Hs Hi Hm).
    + pose proof (script_resume s _ (Hctl eq_refl)) as Hh. destruct Hr as [Hr|[Hr _]]; cbn in Hr; congruence.
    + exact (turn_new_pr s i n d msgs Hs Hi Hm Hr).
    + exact (turn_message s i n m msgs Hs Hi Hm Hr).
Qed.

(** ** An element is posted *)

Lemma post_local s i n op :
  node_inv s i n (core_of (handled s i n) n) → is_ctl op = false → (∀ m, op_msg op = Some m → to_node_id m = i) →
  node_inv s i (posted n op) (core_of (handled s i n) n).
Proof.
  intros [] Hc Hto. assert (Hctl : ctl_of (posted n op) = ctl_of n).
  { unfold ctl_of. cbn. rewrite filter_app, (filter_cons_False is_ctl), app_nil_r; [done|]. rewrite Hc. by intros []. }
  assert (Hh : handled s i (posted n op) = handled s i n) by (by apply handled_ctl). split; rewrite ?Hctl, ?Hh; try done.
  - destruct ni_wf. by split.
  - unfold msgs_of in *. cbn. rewrite omap_app. apply Forall_app in ni_to as [H1 H2]. apply Forall_app. split; [|done].
    apply Forall_app. split; [done|]. cbn. destruct (op_msg op) as [m|]; [|constructor]. apply Forall_singleton. auto.
Qed.

Lemma post_update s i n op net :
  sys_inv s → s_nodes s !! i = Some n → is_ctl op = false → (∀ m, op_msg op = Some m → to_node_id m = i) →
  (∀ m, m ∈ net → m ∈ s_net s) → inflight (update s i (posted n op) net) ≡ₚ inflight s → advances s (update s i (posted n op) net).
Proof.
  intros Hs Hi Hc Hto Hnet HF. pose proof (post_local s i n op (si_node _ Hs i n Hi) Hc Hto) as Hn.
  assert (Hh : handled s i (posted n op) = handled s i n).
  { apply handled_ctl. unfold ctl_of. cbn. rewrite filter_app, (filter_cons_False is_ctl), app_nil_r; [done|]. rewrite Hc. by intros []. }
  assert (Hcs : cores (update s i (posted n op) net) = cores s).
  { rewrite cores_update, Hh. exact (insert_id _ _ _ (the_core s i n Hi)). }
  split; [split; [apply Hs..| | |]|].
  - intros j nj Hj. apply node_inv_update. cbn in Hj. apply lookup_insert_Some in Hj as [[<- <-]|[_ Hj]]; [|by apply (si_node _ Hs)].
    change (handled (update s i (posted n op) net) i) with (handled s i). by rewrite Hh.
  - intros m Hm. by apply (si_net _ Hs), Hnet.
  - rewrite Hcs. eapply good_perm; [symmetry; exact HF|apply Hs].
  - rewrite Hcs. apply (M_lost _ _ _ _ []); [done|]. by rewrite HF.
Qed.

Lemma deliver_returns s l m l' :
  sys_inv s → s_net s = l ++ m :: l' →
  ∃ n n', s_nodes s !! to_node_id m = Some n ∧ algopr_new_msg n m = Some n' ∧ advances s (update s (to_node_id m) n' (l ++ l')) ∧
    (weight (update s (to_node_id m) n' (l ++ l')) < weight s ∧ load (update s (to_node_id m) n' (l ++ l')) = load s)%nat.
Proof.
  intros Hs Hnet. assert (Hin : m ∈ inflight s) by (apply elem_of_inflight; left; rewrite Hnet; set_solver +).
  pose proof (po_msg _ _ _ (the_proto s Hs) m Hin) as Ho. pose proof (mo_to _ _ _ Ho) as Hto.
  destruct (proj2 (alive_new s (to_node_id m) Hs) Hto) as [n Hn]. exists n, (posted n (ALGOPR_MESSAGE m)). split; [done|]. split.
  - unfold algopr_new_msg. rewrite !valid_nodeid; [done|apply (the_valid s Hs); by left|apply Ho].
  - assert (HF : inflight (update s (to_node_id m) (posted n (ALGOPR_MESSAGE m)) (l ++ l')) ≡ₚ inflight s).
    { unfold inflight. cbn. rewrite (all_msgs_update _ _ n _ Hn), (all_msgs_delete _ _ _ Hn), Hnet. unfold msgs_of. cbn. rewrite omap_app. cbn. solve_Permutation. }
    split; [apply post_update; [done|done|done|by intros m' [= <-]|rewrite Hnet; set_solver +|exact HF]|].
    assert (Hpr : prs_of (posted n (ALGOPR_MESSAGE m)) = prs_of n) by (unfold prs_of; cbn; rewrite omap_app; cbn; by rewrite app_nil_r).
    unfold weight, load. change (mset (update s _ _ _)) with (mset s). rewrite HF. cbn [s_net s_nodes update].
    rewrite !node_sum_insert, !(node_sum_delete _ _ _ _ Hn), Hnet, !length_app.
    assert (E : w_node (size (mset s)) (posted n (ALGOPR_MESSAGE m)) = w_node (size (mset s)) n) by (unfold w_node; by rewrite Hpr).
    assert (E' : l_node (size (mset s)) (posted n (ALGOPR_MESSAGE m)) = l_node (size (mset s)) n) by (unfold l_node; by rewrite Hpr).
    rewrite E, E'. split; [simpl; lia|done].
Qed.

Lemma new_pr_inv s i n d : sys_inv s → s_nodes s !! i = Some n → advances s (update s i (posted n (ALGOPR_LOCAL_TARGET_NEW_PR d)) (s_net s)).
Proof.
  intros Hs Hi. apply post_update; try done. unfold inflight. cbn. rewrite (all_msgs_update _ _ n _ Hi), (all_msgs_delete _ _ _ Hi).
  unfold msgs_of. cbn. rewrite omap_app. cbn. by rewrite app_nil_r.
Qed.

Lemma internal_inv s s' : sys_inv s → internal s s' → advances s s'.
Proof using TargetLaws0.
  intros Hs Hst. destruct Hst as [s i n n' Hi Hne Ht|s l m l' n n' Hnet Hi Hn'].
  - destruct (turn_returns s i n Hs Hi Hne) as (n2 & E & H2). simplify_eq. split; apply H2.
  - destruct (deliver_returns s l m l' Hs Hnet) as (n1 & n2 & H1 & H2 & H3 & _). by simplify_eq.
Qed.

(** ** The operations of a recovery are posted *)

Section posting.
Context (s : system X D P) (st : rec_stage) (todo : gset Z) (i : Z) (n : node_t X D P).
Context (Hs : sys_inv s) (Hrec : s_rec s = Some (st, todo)) (Htodo : i ∈ todo) (Hi : s_nodes s !! i = Some n).
Let n' := posted n (stage_op s st).
Let s' := posting s st todo i n'.

Definition index : nat := match st with SUSPENDING => 0 | CHANGING => 1 | RESUMING => 2 end.

Lemma posted_before j : posted_count s j = (index + if bool_decide (j ∈ todo) then 0 else 1)%nat.
Proof using Hrec. unfold posted_count. by rewrite Hrec. Qed.

Lemma posted_after j : j ∈ mset s → posted_count s' j = (posted_count s j + if decide (j = i) then 1 else 0)%nat.
Proof using Htodo Hrec.
  intros Hj. rewrite posted_before. unfold posted_count, s', posting, rest_rec. cbn [s_rec].
  case_bool_decide as Eall.
  - assert (Hjt : bool_decide (j ∈ todo) = bool_decide (j = i)).
    { apply bool_decide_ext. split; [|by intros ->]. intros Hjt. destruct (decide (j = i)) as [|Hne]; [done|]. exfalso.
      apply (not_elem_of_empty (C := gset Z) j). rewrite <- Eall. apply elem_of_difference. split; [done|]. by intros ?%elem_of_singleton. }
    rewrite Hjt, bool_decide_decide. unfold index, mset in *.
    destruct st; cbn; rewrite ?bool_decide_true by done; destruct (decide (j = i)); lia.
  - unfold index. destruct (decide (j = i)) as [-> |Hne].
    + rewrite (bool_decide_false (i ∈ todo ∖ {[i]})), (bool_decide_true (i ∈ todo)) by set_solver +Htodo. destruct st; lia.
    + rewrite (bool_decide_ext (j ∈ todo ∖ {[i]}) (j ∈ todo)) by set_solver +Hne. destruct st; lia.
Qed.

Lemma post_ctl : ctl_of n' = ctl_of n ++ [stage_op s st].
Proof using todo i Hrec. unfold ctl_of, n'. cbn. rewrite filter_app. f_equal. by destruct st. Qed.

Lemma posting_handled j nj : j ∈ mset s → <[i := n']> (s_nodes s) !! j = Some nj →
  ∃ nj0, s_nodes s !! j = Some nj0 ∧ handled s' j nj = handled s j nj0 ∧ core_of (handled s' j nj) nj = core_of (handled s j nj0) nj0.
Proof using Htodo Hrec Hi.
  intros Hjm Hj. pose proof (posted_after j Hjm) as Hp. apply lookup_insert_Some in Hj as [[<- <-]|[Hne Hj]].
  - exists n. split; [done|]. rewrite decide_True in Hp by done.
    assert (E : handled s' i n' = handled s i n) by (unfold handled; rewrite Hp, post_ctl, length_app; cbn; lia). by rewrite E.
  - exists nj. split; [done|]. rewrite decide_False in Hp by congruence. assert (E : handled s' j nj = handled s j nj) by (unfold handled; rewrite Hp; lia).
    by rewrite E.
Qed.

Lemma posting_in : i ∈ mset s.
Proof using n Hs Hi. apply alive_new; [done|by eexists]. Qed.

Lemma posting_cores : cores s' = cores s.
Proof using Htodo Hs Hrec Hi.
  apply map_eq. intros j. rewrite !lookup_cores. destruct (<[i := n']> (s_nodes s) !! j) as [nj|] eqn:Hj.
  - assert (Hjm : j ∈ mset s).
    { apply (alive_new s j Hs). apply lookup_insert_Some in Hj as [[<- _]|[_ Hj]]; by eexists. }
    destruct (posting_handled j nj Hjm Hj) as (nj0 & E0 & _ & Ec). change (s_nodes s') with (<[i := n']> (s_nodes s)). rewrite E0, Hj.
    exact (f_equal Some Ec).
  - change (s_nodes s') with (<[i := n']> (s_nodes s)). rewrite Hj. apply lookup_insert_None in Hj as [-> _]. done.
Qed.

Lemma posting_node j nj : <[i := n']> (s_nodes s) !! j = Some nj → node_inv s' j nj (core_of (handled s' j nj) nj).
Proof using Htodo Hs Hrec Hi.
  intros Hj. assert (Hjm : j ∈ mset s).
  { apply (alive_new s j Hs). apply lookup_insert_Some in Hj as [[<- _]|[_ Hj]]; by eexists. }
  destruct (posting_handled j nj Hjm Hj) as (nj0 & Hj0 & Hh & Ec). rewrite Ec. pose proof (si_node _ Hs j nj0 Hj0) as Hn.
  pose proof (posted_after j Hjm) as Hp. apply lookup_insert_Some in Hj as [[<- <-]|[Hne Hj]].
  - rewrite decide_True in Hp by done. simplify_eq. pose proof (posted_before i) as Hpi. rewrite bool_decide_true in Hpi by done.
    destruct Hn. split; try done.
    + destruct ni_wf. by split.
    + rewrite Hp, post_ctl, length_app. cbn. lia.
    + rewrite post_ctl, Hh, Hp, ni_ctl. change (script s') with (script s). rewrite Nat.add_1_r, (take_S_r _ _ (stage_op s st)).
      * rewrite drop_app_le; [done|]. rewrite length_take. unfold handled. cbn. unfold index in Hpi. destruct st; lia.
      * rewrite Hpi. unfold index. by destruct st.
    + unfold msgs_of in *. cbn. rewrite omap_app. destruct st; cbn; by rewrite app_nil_r.
    + rewrite Hh. exact ni_last.
  - rewrite decide_False in Hp by congruence. simplify_eq. rewrite Nat.add_0_r in Hp. destruct Hn.
    split; rewrite ?Hh, ?Hp; try done.
Qed.

Lemma posting_inv : advances s s'.
Proof using Htodo Hs Hrec Hi.
  pose proof posting_in as Hin.
  assert (Ha : all_msgs (<[i := posted n (stage_op s st)]> (s_nodes s)) ≡ₚ all_msgs (s_nodes s)).
  { rewrite (all_msgs_update _ _ n _ Hi), (all_msgs_delete _ _ _ Hi). unfold msgs_of. cbn. rewrite omap_app. destruct st; cbn; by rewrite app_nil_r. }
  assert (Hmv : move scsi_pr_read_metadata (env_of s) (cores s) (inflight s) (env_of s') (cores s') (inflight s')).
  { rewrite posting_cores. change (env_of s') with (env_of s). unfold inflight, s', posting, n'. cbn [s_net s_nodes]. unfold rest_net.
    case_bool_decide; [|apply (M_lost _ _ _ _ []); [done|by rewrite Ha]].
    apply (M_lost _ _ _ _ (filter (λ m, ¬ ¬ (to_node_id m = i ∧ from_node_id m ∉ mset s)) (s_net s))).
    - apply Forall_forall. intros m [Hm _]%list_elem_of_filter. by apply dec_stable in Hm as [_ ?].
    - rewrite Ha. rewrite <- (filter_app_complement (λ m, ¬ (to_node_id m = i ∧ from_node_id m ∉ mset s)) (s_net s)) at 1. solve_Permutation. }
  split; [|done]. split; [apply Hs..| | | |].
  - intros st' todo'. unfold s', posting, rest_rec. cbn [s_rec]. change (mset s') with (mset s). destruct (si_rec _ Hs _ _ Hrec) as [Hsub _].
    case_bool_decide as Eall; [|by intros [= <- <-]; split; [set_solver +Hsub|]].
    assert (Hne : mset s ≠ ∅) by set_solver +Hin. destruct st; cbn; intros [= <- <-]; done.
  - exact posting_node.
  - intros m Hm Hf. change (mset s') with (mset s) in Hf. assert (Hms : m ∈ s_net s).
    { unfold s', posting, rest_net in Hm. cbn [s_net] in Hm. case_bool_decide; [by apply list_elem_of_filter in Hm as [_ ?]|done]. }
    assert (Hto : to_node_id m ∈ mset s).
    { apply (mo_to (env_of s) (cores s)), (po_msg _ _ _ (the_proto s Hs)), elem_of_inflight. by left. }
    rewrite (posted_after _ Hto). pose proof (si_net _ Hs m Hms Hf) as Hlt. destruct (decide (to_node_id m = i)) as [E|]; [|lia].
    rewrite posted_before, E, bool_decide_true in Hlt |- * by done. unfold index in *.
    unfold s', posting, rest_net in Hm. cbn [s_net] in Hm. destruct st; [lia| |lia].
    rewrite bool_decide_true in Hm by done. apply list_elem_of_filter in Hm as [Hn _]. by destruct Hn.
  - exact (move_good _ _ _ _ _ _ _ Hmv (si_good _ Hs)).
Qed.
End posting.

(** ** A recovery starts *)

Definition msgs_at (ns : gmap Z (node_t X D P)) (i : Z) : list (algopr_message_t P) :=
  match ns !! i with Some n => msgs_of n | None => [] end.

Lemma all_msgs_none ns : (∀ i, msgs_at ns i = []) → all_msgs ns = [].
Proof.
  intros Hn. apply elem_of_nil_inv. intros m (i & n & Hi & Hm)%elem_of_all_msgs. specialize (Hn i). unfold msgs_at in Hn. rewrite Hi in Hn.
  rewrite Hn in Hm. by apply not_elem_of_nil in Hm.
Qed.

Lemma all_msgs_ext ns1 ns2 : (∀ i, msgs_at ns1 i = msgs_at ns2 i) → all_msgs ns1 ≡ₚ all_msgs ns2.
Proof.
  revert ns2. induction ns1 as [|i n ns1 Hi IH] using map_ind; intros ns2 Hext.
  - rewrite (all_msgs_none ns2); [done|]. intros j. by rewrite <- Hext.
  - assert (Hd : ∀ j, msgs_at ns1 j = msgs_at (delete i ns2) j).
    { intros j. specialize (Hext j). unfold msgs_at in *. destruct (decide (i = j)) as [<- |Hne]; [by rewrite Hi, lookup_delete_eq|].
      rewrite lookup_insert_ne in Hext by done. by rewrite lookup_delete_ne. }
    rewrite all_msgs_insert by done. rewrite (IH _ Hd). specialize (Hext i). unfold msgs_at in Hext. rewrite lookup_insert_eq in Hext.
    destruct (ns2 !! i) as [n2|] eqn:E2; [by rewrite (all_msgs_delete ns2 i n2 E2), Hext|]. rewrite Hext, delete_id by done. done.
Qed.

Lemma filter_keeps_all {A} (Q : A → Prop) `{!∀ x, Decision (Q x)} (l : list A) : (∀ x, x ∈ l → Q x) → filter Q l = l.
Proof.
  intros HQ. induction l as [|x l IH]; [done|]. rewrite filter_cons_True by (apply HQ; by left). f_equal. apply IH. intros y Hy. apply HQ. by right.
Qed.

Lemma all_msgs_filter ns (M : gset Z) :
  (∀ i n, ns !! i = Some n → Forall (λ m, to_node_id m = i) (msgs_of n)) →
  all_msgs (filter (λ p, p.1 ∈ M) ns) ≡ₚ filter (λ m, to_node_id m ∈ M) (all_msgs ns).
Proof.
  induction ns as [|i n ns Hi IH] using map_ind; intros Hto; [by rewrite map_filter_empty|].
  assert (Hin : Forall (λ m, to_node_id m = i) (msgs_of n)) by (apply (Hto i n), lookup_insert_eq).
  assert (IH' : all_msgs (filter (λ p, p.1 ∈ M) ns) ≡ₚ filter (λ m, to_node_id m ∈ M) (all_msgs ns)).
  { apply IH. intros j nj Hj. apply Hto. rewrite lookup_insert_ne; [done|]. intros ->. by rewrite Hi in Hj. }
  rewrite Forall_forall in Hin. rewrite all_msgs_insert, filter_app by done. destruct (decide (i ∈ M)) as [HM|HM].
  - rewrite map_filter_insert_True by done. rewrite all_msgs_insert by (apply map_lookup_filter_None; by left). rewrite IH'.
    assert (E : filter (λ m, to_node_id m ∈ M) (msgs_of n) = msgs_of n); [|by rewrite E].
    apply filter_keeps_all. intros m Hm. by rewrite (Hin m Hm).
  - rewrite map_filter_insert_not' by (done || (intros y Hy; congruence)). rewrite IH', (filter_none _ (msgs_of n)); [done|].
    apply Forall_forall. intros m Hm. by rewrite (Hin m Hm).
Qed.

Section recovering.
Context (s : system X D P) (mb : exa_nodeset_t) (ctx : Z → X).
Context (Hs : sys_inv s) (Hset : settled s) (Hwf : nodeset_wf mb) (Hne : nodes_of mb ≠ ∅) (Hb : ∀ a b, s_inc s a b < 2 ^ 16 - 1).
Let s' := recovering s mb ctx.

Lemma lookup_next i :
  next_nodes s mb ctx !! i =
  (if decide (i ∈ nodes_of mb) then Some (default (algopr_thread_init i (ctx i)) (s_nodes s !! i)) else None).
Proof.
  unfold next_nodes. case_decide as Hi.
  - apply elem_of_list_to_map.
    + rewrite <- list_fmap_compose. cbn. rewrite list_fmap_id. apply NoDup_nodes_list.
    + apply list_elem_of_fmap. exists i. split; [done|]. by apply elem_of_nodes_list.
  - apply not_elem_of_list_to_map. rewrite <- list_fmap_compose. cbn. rewrite list_fmap_id. by rewrite elem_of_nodes_list.
Qed.

Lemma rest_handled i n : s_nodes s !! i = Some n → handled s i n = 3%nat.
Proof using Hset. intros Hi. destruct Hset as [Hr Hn]. destruct (Hn i n Hi) as [_ Hc]. unfold handled, posted_count. by rewrite Hr, Hc. Qed.

Lemma next_posted i : i ∈ nodes_of mb → posted_count s' i = 0%nat.
Proof. intros Hi. unfold posted_count, s', recovering. cbn. by rewrite bool_decide_true. Qed.

Lemma next_handled i n : i ∈ nodes_of mb → handled s' i n = 0%nat.
Proof. intros Hi. unfold handled. by rewrite next_posted. Qed.

Lemma next_env_of : env_of s' = next_env (env_of s) (nodes_of mb) (first_of mb).
Proof. done. Qed.

Lemma next_cores i k' :
  cores s' !! i = Some k' → (∃ k, cores s !! i = Some k ∧ k' = set_stage k 0) ∨ (i ∉ e_new (env_of s) ∧ fresh k').
Proof using Hs.
  rewrite !lookup_cores. change (s_nodes s') with (next_nodes s mb ctx). rewrite lookup_next. case_decide as Hi; [|done].
  intros (n' & [= <-] & ->)%fmap_Some. rewrite next_handled by done. destruct (s_nodes s !! i) as [n|] eqn:En; [left; by eexists|right]. split; [|done].
  change (i ∉ mset s). rewrite <- (alive_new s i Hs). unfold alive. rewrite En. by intros [? ?].
Qed.

Lemma init_wf i x : valid_node i → node_wf (algopr_thread_init i x : node_t X D P).
Proof.
  intros Hi. split; cbn; try done; try apply empty_wf.
  intros j Hj. unfold inc_of. cbn. rewrite lookup_total_replicate_2 by (unfold valid_node, EXA_MAX_NODES_NUMBER in *; lia). unfold fits. lia.
Qed.

Lemma next_node i n : next_nodes s mb ctx !! i = Some n → node_inv s' i n (core_of (handled s' i n) n).
Proof using Hset Hs.
  rewrite lookup_next. case_decide as Hi; [|done]. intros [= <-]. pose proof (next_posted i Hi) as Hp.
  rewrite next_handled by done. destruct (s_nodes s !! i) as [n|] eqn:En; cbn [from_option id].
  - pose proof (si_node _ Hs i n En) as Hn. rewrite (rest_handled i n En) in Hn. pose proof (rest_handled i n En) as Hh. destruct Hset as [_ Hn0].
    destruct (Hn0 i n En) as [Hsu Hc]. assert (Him : i ∈ mset s) by (apply alive_new; [done|by eexists]).
    assert (Hc' : ctl_of n = []) by apply Hc. clear Hc. destruct Hn. split.
    + exact ni_wf.
    + exact ni_this.
    + exact ni_out.
    + rewrite Hc'. cbn. lia.
    + rewrite Hc', Hp, next_handled by done. reflexivity.
    + exact ni_future.
    + exact ni_to.
    + split; [|intros _; exact Hsu]. intros _. right. split; [reflexivity|exact Him].
    + exact ni_inc.
    + intros _. apply ni_mship. by left.
    + intros _. apply ni_srv. by left.
    + exact ni_best.
    + rewrite next_handled by done. discriminate.
  - assert (Him : i ∉ mset s) by (rewrite <- (alive_new s i Hs); unfold alive; rewrite En; by intros [? ?]).
    split.
    + apply init_wf. apply elem_of_nodes in Hi. apply Hi.
    + reflexivity.
    + reflexivity.
    + cbn. lia.
    + rewrite Hp, next_handled by done. reflexivity.
    + apply Forall_nil_2.
    + apply Forall_nil_2.
    + split; [discriminate|]. by intros [|[_ ?]].
    + intros j Hj. unfold inc_of. cbn [algopr_thread_init n_shared membership_incarnation].
      rewrite lookup_total_replicate_2 by (unfold valid_node, EXA_MAX_NODES_NUMBER in *; lia). symmetry.
      change (e_inc (env_of s) i j = 0). rewrite (eo_inc _ (po_env _ _ _ (the_proto s Hs))). rewrite bool_decide_false; [done|]. by intros [? _].
    + by intros [|].
    + by intros [|].
    + discriminate.
    + reflexivity.
Qed.

Lemma next_inflight : inflight s' ≡ₚ filter (λ m, to_node_id m ∈ nodes_of mb) (inflight s).
Proof using Hs.
  unfold inflight. rewrite filter_app. change (s_net s') with (filter (λ m, to_node_id m ∈ nodes_of mb) (s_net s)). f_equiv.
  rewrite <- all_msgs_filter by (intros i n Hi; apply (ni_to _ _ _ _ (si_node _ Hs i n Hi))). apply all_msgs_ext. intros i. unfold msgs_at.
  change (s_nodes s') with (next_nodes s mb ctx). rewrite lookup_next. case_decide as Hi.
  - destruct (s_nodes s !! i) as [n|] eqn:En; cbn [from_option id].
    + by rewrite (map_lookup_filter_Some_2 _ _ _ _ En).
    + rewrite (proj2 (map_lookup_filter_None _ _ _)); [done|by left].
  - rewrite (proj2 (map_lookup_filter_None _ _ _)); [done|]. right. by intros n _.
Qed.

Lemma recovering_inv : advances s s'.
Proof using Hwf Hset Hs Hne Hb.
  destruct (first_of_ok mb Hne) as [_ Hf].
  assert (Hmv : move scsi_pr_read_metadata (env_of s) (cores s) (inflight s) (env_of s') (cores s') (inflight s')).
  { rewrite next_env_of. apply M_recover.
    - intros i Hi. apply elem_of_nodes in Hi. apply Hi.
    - done.
    - intros i k. rewrite lookup_cores. destruct (s_nodes s !! i) as [n|] eqn:En; [|done]. cbn. intros [= <-]. by apply rest_handled.
    - intros i. rewrite lookup_cores, fmap_is_Some. change (s_nodes s') with (next_nodes s mb ctx). rewrite lookup_next. case_decide; [by split; [|eexists]|].
      split; [by intros [? ?]|done].
    - exact next_cores.
    - exact next_inflight. }
  split; [|done]. split.
  - exact Hwf.
  - apply (si_mship _ Hs).
  - intros a b. cbn. unfold pair_inc. case_bool_decide; [|lia]. specialize (Hb a b). lia.
  - exact Hb.
  - intros st todo [= <- <-]. done.
  - exact next_node.
  - intros m [Hto _]%list_elem_of_filter _. rewrite next_posted by done. lia.
  - exact (move_good _ _ _ _ _ _ _ Hmv (si_good _ Hs)).
Qed.
End recovering.

(** ** The invariant *)

Lemma good_none (e : env) :
  e_new e = ∅ → e_old e = ∅ → (∀ a b, e_inc e a b = 0) → (∀ a b, e_oldinc e a b = 0) → good e (∅ : gmap Z (core X P)) [].
Proof.
  intros Hn Ho Hi Hio. split.
  - split.
    + split; rewrite ?Hn, ?Ho; try done.
      intros a b. rewrite !Hio. split; [lia|]. split; [done|]. split; [lia|by intros [? _]].
    + intros i. rewrite Hn, Ho. by intros [?|?].
    + intros i. rewrite Hn, lookup_empty. split; [by intros [? ?]|done].
    + intros i k. by rewrite lookup_empty.
    + intros m Hm. by apply not_elem_of_nil in Hm.
  - exists NoTok. split; [|intros k; by rewrite lookup_empty].
    split; try done; try (intros *; by rewrite lookup_empty); try (intros m Hm; by apply not_elem_of_nil in Hm); intros *; cbn; lia.
Qed.

Lemma start_cores : cores (start : system X D P) = ∅.
Proof. apply map_eq. intros i. by rewrite lookup_cores, !lookup_empty. Qed.

Lemma start_inv : sys_inv (start : system X D P).
Proof.
  assert (He : nodes_of EXA_NODESET_EMPTY = ∅) by apply nodes_of_empty. split.
  - apply empty_wf.
  - apply empty_wf.
  - intros a b. cbn. lia.
  - intros a b. cbn. lia.
  - intros st todo [=].
  - intros i n. change (s_nodes start) with (∅ : gmap Z (node_t X D P)). by rewrite lookup_empty.
  - intros m Hm. by apply not_elem_of_nil in Hm.
  - rewrite start_cores. by apply good_none.
Qed.

Lemma step_inv s1 s2 : sys_inv s1 → step s1 s2 → advances s1 s2.
Proof using TargetLaws0.
  intros Hs Hst. destruct Hst as [s s' Hst|s i n d n' Hi [= <-]|s mb ctx Hset Hwf Hne Hb|s st todo i n n' Hrec Htodo Hi [= <-]].
  - by eapply internal_inv.
  - by apply new_pr_inv.
  - by apply recovering_inv.
  - by apply posting_inv.
Qed.

(** A property of the protocol that every move keeps is one of the system. *)
Lemma reachable_ind (I : env → gmap Z (core X P) → list (algopr_message_t P) → Prop) s :
  (∀ e : env, e_new e = ∅ → I e ∅ []) →
  (∀ e cs F e' cs' F', good e cs F → I e cs F → move scsi_pr_read_metadata e cs F e' cs' F' → I e' cs' F') →
  reachable s → sys_inv s ∧ I (env_of s) (cores s) (inflight s).
Proof using TargetLaws0.
  intros H0 Hstep Hr. apply (rtc_ind_r (R := step) (λ s, sys_inv s ∧ I (env_of s) (cores s) (inflight s)) (start : system X D P)); [| |exact Hr].
  - split; [apply start_inv|]. rewrite start_cores. apply H0, nodes_of_empty.
  - intros s1 s2 _ Hst [Hs HI]. destruct (step_inv s1 s2 Hs Hst) as [Hs2 Hmv]. split; [done|]. eapply Hstep; [apply Hs|done|done].
Qed.
End safe.
