(* ===== verification/PrLockPool.v ===== *)
(** * The pool of elements of the reservation lock

    The proofs on the threads suppose that the pool of elements is not empty.
    This file has what the pool of [MAX_MESSAGE] elements changes: a turn takes
    two elements at most, and either does what it does with an endless pool or
    waits because less than two are free; and out of the operations that suspend
    and resume a node, all the elements that a node has taken are in its lists.
    Hence the runs with the pool are runs with an endless one, and those that
    have elements enough are the same. *)

From S2P Require Import Prelude Nodeset PrLock PrLockNode PrLockProto PrLockAct PrLockMove PrLockSys PrLockTurn PrLockSafe.
From stdpp Require Import options.

Section pool.
Context {X D P : Type} `{!Target X D P}.
Implicit Types (n : node_t X D P) (m : algopr_message_t P) (op : algopr_op_t D P).

(** The elements in the lists of a node, and those that are in none of them. *)
Definition kept n : Z :=
  Z.of_nat (length (n_msgs n) + length (n_future n) + length (msg_new_pr (n_client n)) + length (msg_lock (n_server n))).
Definition lost n : Z := n_used n - kept n.

(** [takes k d n o oe]: on [n], a handler gives [o] with the pool and [oe] with an
    endless one.  It takes [k] elements at most, and [d] of them are lost; the
    results are the same unless it waits for one of these elements. *)
Definition takes (k d : Z) n (o oe : option (node_t X D P)) : Prop :=
  o = oe ∧ (∀ n', oe = Some n' → n_used n' <= n_used n + k ∧ lost n' = lost n + d) ∨
  o = None ∧ MAX_MESSAGE < n_used n + k.

Lemma takes_some k d n n' : n_used n' <= n_used n + k → lost n' = lost n + d → takes k d n (Some n') (Some n').
Proof. intros Hu Hl. left. split; [done|]. by intros ? [= <-]. Qed.

Lemma takes_none k d n : takes k d n None None.
Proof. by left. Qed.

Lemma takes_le k k' d n o oe : k <= k' → takes k d n o oe → takes k' d n o oe.
Proof. intros Hk [[E H]|[E H]]; [left|right]; (split; [done|]); [|lia]. intros n' Hn. destruct (H n' Hn). split; [lia|done]. Qed.

(** The handler goes on with a node that has changed. *)
Lemma takes_from k d d1 n n1 o oe :
  n_used n1 <= n_used n → lost n1 = lost n + d1 → takes k (d - d1) n1 o oe → takes k d n o oe.
Proof.
  intros Hu Hl [[E H]|[E H]]; [left|right]; (split; [done|]); [|lia]. intros n' Hn. destruct (H n' Hn). split; lia.
Qed.

Lemma takes_bind k1 d1 k d n o oe (f g : node_t X D P → option (node_t X D P)) :
  k1 <= k → takes k1 d1 n o oe → (∀ n1, oe = Some n1 → takes (k - k1) (d - d1) n1 (f n1) (g n1)) → takes k d n (o ≫= f) (oe ≫= g).
Proof.
  intros Hk [[-> H]|[-> H]] Hf; [|right; split; [done|lia]]. destruct oe as [n1|]; [|by left]. cbn.
  destruct (H n1 eq_refl) as [Hu Hl]. destruct (Hf n1 eq_refl) as [[E H']|[E H']]; [left|right]; (split; [done|]); [|lia].
  intros n' Hn. destruct (H' n' Hn). split; lia.
Qed.

Lemma takes_opt {A} k d n (o : option A) f g :
  (∀ a, o = Some a → takes k d n (f a) (g a)) → takes k d n (o ≫= f) (o ≫= g).
Proof. destruct o; cbn; [by auto|]. intros _. apply takes_none. Qed.

Lemma takes_assert k d n b o oe : takes k d n o oe → takes k d n (assert! b; o) (assert! b; oe).
Proof. destruct b; cbn; [done|]. intros _. apply takes_none. Qed.

(** ** Sending *)

Local Ltac account := unfold lost, kept; cbn; rewrite ?length_app; cbn; lia.

Lemma post_takes n op : takes 1 0 n (post (pool := message_pool) n op) (post (pool := endless_pool) n op).
Proof.
  unfold post, new_element. cbn. destruct (Z.ltb_spec (n_used n) MAX_MESSAGE); cbn; [|right; split; [done|lia]].
  apply takes_some; account.
Qed.

Lemma new_msg_takes n m : takes 1 0 n (algopr_new_msg (pool := message_pool) n m) (algopr_new_msg (pool := endless_pool) n m).
Proof. unfold algopr_new_msg. apply takes_assert, takes_assert, post_takes. Qed.

(** To another node nothing is taken. *)
Lemma send_data_takes n j m :
  takes (if j =? this_node_id (n_shared n) then 1 else 0) 0 n
    (algopr_send_data (pool := message_pool) n j m) (algopr_send_data (pool := endless_pool) n j m).
Proof.
  unfold algopr_send_data. apply takes_assert. destruct (j =? this_node_id (n_shared n)); [apply new_msg_takes|].
  apply takes_some; account.
Qed.

Lemma send_data_takes_one n j m :
  takes 1 0 n (algopr_send_data (pool := message_pool) n j m) (algopr_send_data (pool := endless_pool) n j m).
Proof. eapply takes_le, send_data_takes. case_match; lia. Qed.

Lemma send_back_takes n m t :
  takes 1 0 n (algopr_send_back (pool := message_pool) n m t) (algopr_send_back (pool := endless_pool) n m t).
Proof. unfold algopr_send_back. apply takes_opt. intros a _. apply takes_opt. intros b _. apply send_data_takes_one. Qed.

Lemma send_msg_takes n b j b' t d :
  takes 1 0 n (algopr_send_msg (pool := message_pool) n b j b' t d) (algopr_send_msg (pool := endless_pool) n b j b' t d).
Proof. unfold algopr_send_msg. apply takes_opt. intros a _. apply takes_opt. intros c _. apply send_data_takes_one. Qed.

Lemma send_server_takes n t :
  takes 1 0 n (send_to_lockserver (pool := message_pool) n t) (send_to_lockserver (pool := endless_pool) n t).
Proof. apply send_msg_takes. Qed.

Lemma bcast_loop_takes nodes n t d :
  this_node_id (n_shared n) ∉ nodes →
  takes 0 0 n (bcast_loop (pool := message_pool) n nodes t d) (bcast_loop (pool := endless_pool) n nodes t d).
Proof.
  revert n. induction nodes as [|j nodes IH]; intros n Hn; cbn [bcast_loop]; [apply takes_some; account|].
  apply not_elem_of_cons in Hn as [Hj%not_eq_sym%Z.eqb_neq Hn]. apply (takes_bind 0 0); [done| |].
  - unfold algopr_send_msg. apply takes_opt. intros a _. apply takes_opt. intros b _. pose proof (send_data_takes n j) as Hs.
    rewrite Hj in Hs. apply Hs.
  - intros n1 H1. apply (IH n1). unfold algopr_send_msg in H1. apply bind_Some in H1 as (a & _ & (b & _ & H1)%bind_Some).
    unfold algopr_send_data in H1. rewrite Hj in H1. destruct (EXA_NODEID_VALID j); cbn in H1; [|done]. by injection H1 as <-.
Qed.

(** ** Client *)

(** The commands that are executed give their elements back. *)
Lemma local_loop_account fuel n u a n' todo :
  process_local_loop fuel n u a = Some (n', todo) →
  n_used n' <= n_used n ∧ lost n' = lost n ∧ n_shared n' = n_shared n.
Proof.
  revert n u. induction fuel as [|fuel IH]; intros n u; cbn [process_local_loop]; [done|].
  intros ([n1 pr] & H1 & H)%bind_Some.
  assert (Hn1 : n_used n1 <= n_used n ∧ lost n1 = lost n ∧ n_shared n1 = n_shared n).
  { destruct (negb u && (0 <? PR_pending (n_client n))); [|by injection H1 as <- _].
    destruct (msg_new_pr (n_client n)) as [|d l] eqn:El; [done|]. injection H1 as <- _.
    split; [cbn; lia|]. split; [unfold lost, kept; cbn; rewrite El; cbn; lia|done]. }
  clear H1. destruct (scsi_pr_write_metadata _ pr) as [x size]. set (n2 := with_ctx _ x) in H.
  assert (Hn2 : n_used n2 <= n_used n ∧ lost n2 = lost n ∧ n_shared n2 = n_shared n) by exact Hn1. clearbody n2. clear Hn1.
  assert (Hn3 : ∀ p, n_used (scsi_pr_finished n2 p) <= n_used n ∧ lost (scsi_pr_finished n2 p) = lost n ∧
    n_shared (scsi_pr_finished n2 p) = n_shared n) by (intros p; exact Hn2).
  assert (Hgo : ∀ n3 b, n_used n3 <= n_used n ∧ lost n3 = lost n ∧ n_shared n3 = n_shared n →
    (assert! b; if 0 <? PR_pending (n_client n3) then process_local_loop fuel n3 false a else Some (n3, None)) = Some (n', todo) →
    n_used n' <= n_used n ∧ lost n' = lost n ∧ n_shared n' = n_shared n).
  { intros n3 b (Hu & Hl & Hs). destruct b; cbn; [|done]. destruct (0 <? PR_pending (n_client n3)); [|by intros [= <- _]].
    intros (Hu' & Hl' & Hs')%IH. split; [lia|]. split; congruence. }
  destruct size as [buffer|]; [destruct a|]; [by eapply (Hgo _ _ (Hn3 pr))|by injection H as <- _|by eapply Hgo].
Qed.

Lemma process_local_takes n u :
  node_wf n →
  takes 1 0 n (algopr_lockclient_process_local (pool := message_pool) n u) (algopr_lockclient_process_local (pool := endless_pool) n u).
Proof.
  intros Hw. unfold algopr_lockclient_process_local. apply takes_opt. intros read Hread. set (n0 := with_client n _). apply takes_opt.
  intros [n1 todo] (Hu & Hl & Hs)%local_loop_account. apply (takes_from _ _ 0 _ n1); [exact Hu|rewrite Hl; account|].
  destruct todo as [buffer|]; [|apply send_server_takes]. apply takes_opt. intros inc _. set (n2 := with_client n1 _).
  apply (takes_from _ _ 0 _ n2); [done|account|]. apply (takes_bind 0 0); [done| |].
  - unfold algopr_bcast_msg. apply takes_opt. intros nodes Hnodes. apply bcast_loop_takes.
    rewrite foreach_spec in Hnodes. injection Hnodes as <-. change (n_shared n2) with (n_shared n1). rewrite Hs, elem_of_nodes_list.
    destruct (del_spec (membership (n_shared n)) (this_node_id (n_shared n))) as (r & E & _ & Hr); [apply Hw..|].
    rewrite Hread in E. injection E as <-. rewrite Hr. set_solver +.
  - intros n3 _. apply takes_opt. intros read' _. apply takes_opt. intros ok _. apply takes_some; account.
Qed.

Lemma demand_takes n (b : bool) :
  takes 1 0 n (if b then send_to_lockserver (pool := message_pool) n ALGOPR_MESSAGE_LOCK else Some n)
    (if b then send_to_lockserver (pool := endless_pool) n ALGOPR_MESSAGE_LOCK else Some n).
Proof. destruct b; [apply send_server_takes|apply takes_some; lia]. Qed.

Lemma check_finished_takes n :
  takes 2 0 n (algopr_lockclient_process_check_finished (pool := message_pool) n)
    (algopr_lockclient_process_check_finished (pool := endless_pool) n).
Proof.
  unfold algopr_lockclient_process_check_finished. apply takes_assert. set (n0 := with_client n _). destruct (negb _).
  { apply takes_some; account. }
  set (n1 := scsi_pr_finished _ _). apply (takes_from _ _ 0 _ n1); [done|account|]. apply takes_opt. intros inc _.
  apply (takes_bind 1 0); [done| |].
  - destruct (inc =? _); apply send_server_takes.
  - intros n2 _. set (n3 := with_client n2 _). apply (takes_from _ _ 0 _ n3); [done|account|]. apply demand_takes.
Qed.

Lemma lockclient_takes n m :
  node_wf n → takes 2 0 n (algopr_lockclient (pool := message_pool) n m) (algopr_lockclient (pool := endless_pool) n m).
Proof.
  intros Hw. unfold algopr_lockclient. destruct (c_state (n_client n)), (type m); try apply takes_none.
  - apply takes_opt. intros d _. set (n0 := with_ctx n _). apply (takes_from _ _ 0 _ n0); [done|account|].
    apply (takes_le 1), send_back_takes. lia.
  - apply (takes_le 1), process_local_takes; [lia|done].
  - apply (takes_le 1), process_local_takes; [lia|done].
  - apply takes_assert, takes_opt. intros ok _. set (n0 := with_client n _). apply (takes_from _ _ 0 _ n0); [done|account|].
    apply check_finished_takes.
Qed.

(** ** Server *)

(** The message goes to the waiting ones, or its element is given back. *)
Lemma lockserver_takes n m :
  takes 1 (-1) n (algopr_lockserver (pool := message_pool) n m) (algopr_lockserver (pool := endless_pool) n m).
Proof.
  unfold algopr_lockserver. destruct (s_state (n_server n)); [apply takes_none|..].
  - unfold state_wait_all_ok_handle_msg. destruct (type m); try apply takes_none; [|apply takes_some; account]. set (ls := if _ <? _ then _ else _).
    assert (El : msg_lock ls = msg_lock (n_server n)) by (unfold ls; by case_match). clearbody ls.
    apply takes_opt. intros b _. apply takes_assert, takes_opt. intros acked _.
    destruct (negb _); [apply takes_some; unfold lost, kept; cbn; rewrite ?El; lia|]. apply takes_assert. set (n1 := with_server n _).
    apply (takes_from _ _ 0 _ n1); [done|unfold lost, kept; cbn; rewrite El; lia|]. apply (takes_bind 1 0); [done|apply send_msg_takes|].
    intros n2 _. apply takes_some; account.
  - unfold state_ready_unlocked_handle_msg. destruct (type m); try apply takes_none. set (n1 := with_server n _).
    apply (takes_from _ _ 0 _ n1); [done|account|]. apply (takes_bind 1 0); [done|apply send_back_takes|]. intros n2 _. apply takes_some; account.
  - unfold state_ready_locked_handle_msg. destruct (type m); try apply takes_none; [apply takes_some; account|]. apply takes_assert, takes_opt.
    unfold algopr_lockserver_get_msg_lock. intros [n1 next] Hget. destruct (msg_lock_nb (n_server n) =? 0).
    + injection Hget as <- <-. apply takes_some; account.
    + destruct (msg_lock (n_server n)) as [|m' l] eqn:El; [done|]. injection Hget as <- <-. set (n1 := with_server _ _).
      apply (takes_from _ _ 1 _ n1); [done|unfold lost, kept; cbn; rewrite El; cbn; lia|]. apply (takes_bind 1 0); [done|apply send_back_takes|].
      intros n2 _. apply takes_some; account.
Qed.

(** ** The thread *)

Lemma flush_account nb n n' :
  flush_loop nb n = Some n' → n_used n' <= n_used n ∧ lost n' = lost n ∧ n_shared n' = n_shared n ∧ n_client n' = n_client n.
Proof.
  revert n. induction nb as [|nb IH]; intros n; cbn [flush_loop]; [by intros [= <-]|].
  destruct (msg_lock (n_server n)) as [|m l] eqn:El; [done|]. intros (Hu & Hl & Hs)%IH. split; [cbn in Hu; lia|]. split; [|done].
  rewrite Hl. unfold lost, kept. cbn. rewrite El. cbn. lia.
Qed.

Lemma new_membership_takes n mb :
  takes 2 0 n (handle_new_membership (pool := message_pool) n mb) (handle_new_membership (pool := endless_pool) n mb).
Proof.
  unfold handle_new_membership. apply takes_opt. intros shared _. apply takes_opt. intros n1 (Hu & Hl & _)%flush_account.
  apply (takes_from _ _ 0 _ n1); [exact Hu|rewrite Hl; account|]. set (n2 := with_server (with_server n1 _) _).
  apply (takes_from _ _ 0 _ n2); [done|account|]. destruct (c_state (n_client n2)); [|apply check_finished_takes].
  apply (takes_bind 1 0); [done|apply send_server_takes|]. intros n3 _. apply demand_takes.
Qed.

Lemma new_pr_takes n d :
  takes 1 (-1) n (handle_local_target_new_pr (pool := message_pool) n d) (handle_local_target_new_pr (pool := endless_pool) n d).
Proof.
  unfold handle_local_target_new_pr. set (n1 := with_client n _). apply (takes_from _ _ (-1) _ n1); [done|account|].
  destruct (c_state _); [apply demand_takes|apply takes_some; lia].
Qed.

Lemma update_messages_account mb ops n n' :
  update_messages_loop n mb ops = Some n' →
  n_used n' <= n_used n ∧ lost n' = n_used n - Z.of_nat (length (n_msgs n) + length ops + length (msg_new_pr (n_client n)) + length (msg_lock (n_server n))).
Proof.
  revert n. induction ops as [|op ops IH]; intros n; cbn [update_messages_loop]; [intros [= <-]; split; [cbn; lia|account]|].
  intros ([] & _ & H)%bind_Some; apply IH in H as [Hu Hl]; cbn in Hu, Hl; rewrite ?length_app in Hl; cbn in *; lia.
Qed.

(** The operations that suspend and resume a node are lost. *)
Definition loses op : Z := match op with ALGOPR_SUSPEND | ALGOPR_RESUME => 1 | _ => 0 end.

Lemma message_takes n op :
  node_wf n → takes 2 (loses op - 1) n (handle_message (pool := message_pool) n op) (handle_message (pool := endless_pool) n op).
Proof.
  intros Hw. destruct op as [mb| | |d|m]; cbn [handle_message]; try apply takes_none.
  - apply takes_some; account.
  - apply (takes_le 1), new_pr_takes. lia.
  - apply takes_assert, takes_opt. intros inc _. destruct (_ && _); [apply takes_some; account|]. destruct (_ <? _); [apply takes_some; account|].
    destruct (to_lockserver m); [apply (takes_le 1), lockserver_takes; lia|]. apply (takes_bind 2 0); [done|by apply lockclient_takes|].
    intros n1 _. apply takes_some; account.
Qed.

Lemma suspended_takes n op :
  takes 2 (loses op - 1) n (handle_message_when_suspended (pool := message_pool) n op)
    (handle_message_when_suspended (pool := endless_pool) n op).
Proof.
  destruct op as [mb| | |d|m]; cbn [handle_message_when_suspended]; try (apply takes_some; account).
  - apply (takes_bind 2 0); [done|apply new_membership_takes|]. intros n1 _. apply takes_some; account.
  - set (n1 := with_shared n _). destruct (algopr_update_messages n1 _) as [n2|] eqn:E; [|apply takes_none].
    unfold algopr_update_messages in E. apply update_messages_account in E as [Hu Hl]. cbn in Hu, Hl. rewrite length_app in Hl. apply takes_some; [lia|].
    rewrite Hl. account.
Qed.

(** A turn takes two elements at most. *)
Lemma turn_takes n :
  node_wf n →
  takes 2 (match n_msgs n with op :: _ => loses op | [] => 0 end) n
    (algopr_thread_turn (pool := message_pool) n) (algopr_thread_turn (pool := endless_pool) n).
Proof.
  intros Hw. unfold algopr_thread_turn. destruct (n_msgs n) as [|op msgs] eqn:Em; [apply takes_some; lia|]. set (n1 := with_lists n _ _).
  apply (takes_from _ _ 1 _ n1); [done|unfold lost, kept; cbn; rewrite Em; cbn; lia|].
  destruct (suspended (n_shared n1)); [apply suspended_takes|apply message_takes; by destruct Hw].
Qed.
End pool.

Section system.
Context {X D P : Type} `{!Target X D P} `{!TargetLaws X D P}.
Implicit Types (s : system X D P) (n : node_t X D P).

(** ** Steps with the pool *)

Lemma takes_same k d n o oe n' : takes k d n o oe → o = Some n' → oe = Some n'.
Proof. intros [[-> _]|[-> _]]; done. Qed.

Lemma internal_endless s s' : sys_inv s → internal (pool := message_pool) s s' → internal (pool := endless_pool) s s'.
Proof.
  intros Hs Hst. destruct Hst as [s i n n' Hi Hne Ht|s l m l' n n' Hnet Hi Hn'].
  - pose proof (ni_wf _ _ _ _ (si_node _ Hs i n Hi)) as Hw. eapply internal_turn; [done..|]. by eapply takes_same; [apply turn_takes|].
  - eapply internal_deliver; [done..|]. by eapply takes_same; [apply new_msg_takes|].
Qed.

Lemma step_endless s s' : sys_inv s → step (pool := message_pool) s s' → step (pool := endless_pool) s s'.
Proof.
  intros Hs Hst. destruct Hst as [s s' Hst|s i n d n' Hi Hn|s mb ctx Hset Hwf Hne Hb|s st todo i n n' Hrec Htodo Hi Hn].
  - by apply step_internal, internal_endless.
  - eapply step_new_pr; [done|]. by eapply takes_same; [apply post_takes|].
  - by apply step_recover.
  - eapply step_post; [done..|]. by eapply takes_same; [apply post_takes|].
Qed.

Lemma reachable_endless s : reachable (pool := message_pool) s → reachable (pool := endless_pool) s.
Proof using TargetLaws0.
  intros Hr. apply (rtc_ind_r (R := step (pool := message_pool)) (reachable (pool := endless_pool)) start); [apply rtc_refl| |exact Hr].
  intros s1 s2 _ Hst Hr1. eapply rtc_r; [exact Hr1|]. apply step_endless; [|done].
  by apply (reachable_ind (λ _ _ _, True) s1).
Qed.
End system.
