(* ===== verification/PrLockIdle.v ===== *)
(** * The reservation lock out of the recoveries

    The invariants of the states that the system reaches, and what the threads
    and the network do by themselves when no recovery is in progress: the weight
    gets lower with each step, so that the steps end, and the load bounds the
    elements that they take from the pools. *)

From S2P Require Import Prelude Nodeset PrLock PrLockNode PrLockProto PrLockAct PrLockStep PrLockServe PrLockRecover PrLockMove PrLockCoh PrLockLive.
From S2P Require Import PrLockSys PrLockTurn PrLockRun PrLockSafe PrLockPool.
From stdpp Require Import options.

(** ** Statements *)

Section statements.
Context {X D P : Type} `{!Target X D P}.
Implicit Types (s : system X D P) (n : node_t X D P).

(** A node that executes a command and waits for the other ones, or whose thread
    is about to use the lock. *)
Definition executes n : Prop :=
  c_state (n_client n) = ALGOPR_LOCKCLIENT_STATE_WAIT_PROCESS_REMOTE ∨
  ∃ m msgs, n_msgs n = ALGOPR_MESSAGE m :: msgs ∧ suspended (n_shared n) = false ∧ is_grant m = true ∧
    incarnation n (from_node_id m) = Some (to_membership_incarnation m).

(** Nothing is left to do: no message, no command, the lock is free, and all the
    nodes have the same reservations. *)
Definition idle s : Prop :=
  s_net s = [] ∧
  (∀ i n, s_nodes s !! i = Some n → n_msgs n = [] ∧ n_future n = [] ∧ msg_new_pr (n_client n) = [] ∧
    c_state (n_client n) = ALGOPR_LOCKCLIENT_STATE_PASSIVE) ∧
  (∀ n, s_nodes s !! first_of (s_mship s) = Some n →
    s_state (n_server n) = ALGOPR_LOCKSERVER_STATE_READY_UNLOCKED ∧ msg_lock (n_server n) = []) ∧
  ∀ i j n n', s_nodes s !! i = Some n → s_nodes s !! j = Some n' → n_ctx n = n_ctx n'.
End statements.

#[local] Existing Instance endless_pool.

Section theorems.
Context {X D P : Type} `{!Target X D P} `{!TargetLaws X D P}.
Implicit Types (s : system X D P) (n : node_t X D P) (m : algopr_message_t P).

(** ** The invariants of a reachable system *)

Definition full_inv s : Prop :=
  sys_inv s ∧ coh scsi_pr_read_metadata (env_of s) (cores s) (inflight s) ∧ live (env_of s) (cores s) (inflight s).

Lemma reachable_full s : reachable s → full_inv s.
Proof using TargetLaws0.
  apply (reachable_ind (λ e cs F, coh scsi_pr_read_metadata e cs F ∧ live e cs F)).
  - intros e He. split; [|split; intros *; by rewrite lookup_empty]. intros (ks & Hks & _). by rewrite lookup_empty in Hks.
  - intros e cs F e' cs' F' Hg [Hc Hl] Hm. split; [by eapply move_coh|by eapply move_live].
Qed.

Lemma settled_handled s i n : settled s → s_nodes s !! i = Some n → handled s i n = 3%nat.
Proof. intros [Hr Hn] Hi. destruct (Hn i n Hi) as [_ Hc]. unfold handled, posted_count. by rewrite Hr, Hc. Qed.

Lemma settled_core s i k : settled s → cores s !! i = Some k → ∃ n, s_nodes s !! i = Some n ∧ k = core_of 3 n.
Proof.
  intros Hset. rewrite lookup_cores. destruct (s_nodes s !! i) as [n|] eqn:Hi; [|done]. cbn. intros [= <-]. exists n. split; [done|].
  by rewrite (settled_handled s i n).
Qed.

Lemma core_settled s i n : settled s → s_nodes s !! i = Some n → cores s !! i = Some (core_of 3 n).
Proof. intros Hset Hi. rewrite lookup_cores, Hi. cbn. by rewrite (settled_handled s i n). Qed.

(** ** Where the lock is *)

Lemma executes_token s t i n :
  sys_inv s → lock_inv (env_of s) (cores s) (inflight s) t → s_nodes s !! i = Some n → executes n →
  t = TWait i ∨ ∃ m, t = TGrant m ∧ to_node_id m = i.
Proof.
  intros Hs Hl Hi Hx. pose proof (the_core s i n Hi) as Hk. set (k := core_of (handled s i n) n) in *. pose proof (si_node _ Hs i n Hi) as Hn. fold k in Hn.
  destruct Hx as [Hw|(m & msgs & Hm & Hsu & Hgr & Hinc)].
  - left. apply (li_wait _ _ _ _ Hl i k Hk). cbn. by rewrite Hw.
  - right. exists m. assert (Hin : m ∈ inflight s) by (apply elem_of_inflight; right; exists i, n; split; [done|]; unfold msgs_of; rewrite Hm; by left).
    assert (Hto : to_node_id m = i) by (pose proof (ni_to _ _ _ _ Hn) as Ht; unfold msgs_of in Ht; rewrite Hm in Ht; by apply Forall_cons in Ht as [? _]).
    pose proof (the_proto s Hs) as Hp. pose proof (mo_from _ _ _ (po_msg _ _ _ Hp m Hin)) as Hv.
    rewrite (incarnation_ok n _ (ni_wf _ _ _ _ Hn) Hv) in Hinc. injection Hinc as Hinc. rewrite (ni_inc _ _ _ _ Hn _ Hv) in Hinc.
    assert (Ha : accepts (env_of s) i k m) by (split; [done|by apply (ni_suspended _ _ _ _ Hn)|done]).
    assert (Hlive : live_tok (env_of s) (cores s) m) by (apply (accepts_live _ _ _ Hp m i k); try done; unfold is_tok; by rewrite Hgr).
    destruct (live_kind _ _ _ _ m Hl Hin Hlive) as [[-> _]|[_ Hu]]; [done|]. revert Hgr Hu. unfold is_grant, is_unlock. by destruct (type m).
Qed.

(** ** Steps *)

Lemma internal_settled s s' : full_inv s → settled s → internal s s' → settled s' ∧ (weight s' < weight s ∧ load s' <= load s)%nat.
Proof using TargetLaws0.
  intros [Hs _] Hset Hst. destruct Hst as [s i n n' Hi Hne Ht|s l m l' n n' Hnet Hi Hn'].
  - destruct (turn_returns s i n Hs Hi Hne) as (n2 & E & Hpr). rewrite Ht in E. injection E as <-.
    destruct (pr_calm _ _ _ _ Hpr (settled_handled s i n Hset Hi)) as [[Hw Hld] (n1 & En & Er & Es & Ec)]. split; [|done]. destruct Hset as [Hrec Hn].
    split; [congruence|]. rewrite En. intros j nj [[<- <-]|[_ Hj]]%lookup_insert_Some; [rewrite Es, Ec; by apply (Hn i)|by apply (Hn j)].
  - destruct (deliver_returns s l m l' Hs Hnet) as (n1 & n2 & H1 & H2 & _ & Hw & Hld). rewrite Hi in H1. injection H1 as <-. rewrite Hn' in H2. injection H2 as <-.
    split; [|split; [done|lia]]. destruct Hset as [Hrec Hn]. split; [done|]. intros j nj. cbn. intros [[<- <-]|[_ Hj]]%lookup_insert_Some; [|by apply (Hn j)].
    unfold algopr_new_msg in Hn'. destruct (EXA_NODEID_VALID (from_node_id m)); [|done]. destruct (EXA_NODEID_VALID (to_node_id m)); [|done].
    cbn in Hn'. injection Hn' as <-. destruct (Hn _ n Hi) as [Hsu Hct]. split; [done|]. unfold ctl_of in *. cbn. by rewrite filter_app, Hct.
Qed.

Lemma internal_full s s' : full_inv s → internal s s' → full_inv s'.
Proof using TargetLaws0.
  intros (Hs & Hc & Hl) Hst. destruct (internal_inv s s' Hs Hst) as [Hs' Hm]. split; [done|].
  split; [by eapply move_coh; [apply Hs|..]|by eapply move_live; [apply Hs|..]].
Qed.

(** A system without an internal step has no message left. *)
Lemma stuck_idle s : full_inv s → settled s → (∀ s', ¬ internal s s') → idle s.
Proof using TargetLaws0.
  intros (Hs & Hc & Hl) Hset Hst.
  assert (Hnet : s_net s = []).
  { destruct (s_net s) as [|m l] eqn:E; [done|]. destruct (deliver_returns s [] m l Hs E) as (n & n' & Hn & Hn' & _).
    by destruct (Hst _ (internal_deliver s [] m l n n' E Hn Hn')). }
  assert (Hms : ∀ i n, s_nodes s !! i = Some n → n_msgs n = [] ∧ n_future n = []).
  { intros i n Hi. split; [|by apply (ni_last _ _ _ _ (si_node _ Hs i n Hi)), settled_handled]. destruct (decide (n_msgs n = [])) as [|Hne]; [done|].
    destruct (turn_returns s i n Hs Hi Hne) as (n' & Ht & _). by destruct (Hst _ (internal_turn s i n n' Hi Hne Ht)). }
  assert (HF : inflight s = []).
  { unfold inflight. rewrite Hnet. apply all_msgs_none. intros i. unfold msgs_at. destruct (s_nodes s !! i) as [n|] eqn:Hi; [|done].
    destruct (Hms i n Hi) as [E1 E2]. unfold msgs_of. by rewrite E1, E2. }
  pose proof (si_good _ Hs) as Hg. rewrite HF in Hg, Hc, Hl.
  destruct (no_message_done scsi_pr_read_metadata _ _ Hg Hl Hc) as (H1 & H2 & H3).
  { intros i k (n & _ & ->)%(settled_core s i k Hset). done. }
  split; [done|]. split; [|split].
  - intros i n Hi. destruct (Hms i n Hi) as [E1 E2]. destruct (H1 i _ (core_settled s i n Hset Hi)) as [Hw Hp]. split; [done|]. split; [done|].
    split; [by apply nil_length_inv|]. cbn in Hw. destruct (c_state (n_client n)); [done|]. by rewrite bool_decide_true in Hw.
  - intros n Hn. exact (H2 _ (core_settled s _ n Hset Hn)).
  - intros i j n n' Hi Hj. exact (H3 i j _ _ (core_settled s i n Hset Hi) (core_settled s j n' Hset Hj)).
Qed.

Lemma stuck_or_steps s : full_inv s → (∀ s', ¬ internal s s') ∨ ∃ s', internal s s'.
Proof using TargetLaws0.
  intros [Hs _]. destruct (decide (s_net s = [])) as [En|En].
  - destruct (decide (map_Forall (λ _ n, n_msgs n = []) (s_nodes s))) as [Ha|Ha].
    + left. intros s' Hst. destruct Hst as [s i n n' Hi Hne Ht|s l m l' n n' Hnet Hi Hn']; [by apply Hne, (Ha i)|]. rewrite Hnet in En. by destruct l.
    + right. apply map_not_Forall in Ha as (i & n & Hi & Hne); [|apply _]. destruct (turn_returns s i n Hs Hi Hne) as (n' & Ht & _).
      eexists. by eapply internal_turn.
  - right. destruct (s_net s) as [|m l] eqn:E; [done|]. destruct (deliver_returns s [] m l Hs E) as (n & n' & Hn & Hn' & _).
    eexists. by eapply (internal_deliver s []).
Qed.

(** ** Steps with the pool *)

(** The elements that are not lost are enough for the messages and the commands
    there are, and for the turn of the thread. *)
Definition room s : Prop :=
  ∀ i n, s_nodes s !! i = Some n → lost n + Z.of_nat (load s) + 2 <= MAX_MESSAGE.

Lemma msgs_length (ops : list (algopr_op_t D P)) :
  filter is_ctl ops = [] → length ops = (length (omap op_msg ops) + length (omap op_pr ops))%nat.
Proof.
  induction ops as [|op ops IH]; [done|]. rewrite filter_cons. case_decide as Hc; [done|]. intros Hf.
  specialize (IH Hf). destruct op; cbn [is_ctl] in Hc; try (by destruct Hc); cbn in *; lia.
Qed.

Lemma kept_load s i n : sys_inv s → settled s → s_nodes s !! i = Some n → kept n <= Z.of_nat (load s).
Proof.
  intros Hs Hset Hi. assert (Hin : i ∈ mset s) by (apply alive_new; [done|by eexists]).
  assert (Hnb : (1 <= size (mset s))%nat).
  { assert (Hsub : {[i]} ⊆ mset s) by set_solver +Hin. apply subseteq_size in Hsub. by rewrite (size_singleton (C := gset Z)) in Hsub. }
  pose proof (ni_last _ _ _ _ (si_node _ Hs i n Hi) (settled_handled s i n Hset Hi)) as Hfut. pose proof (proj2 (proj2 Hset i n Hi)) as Hctl.
  unfold load. rewrite (node_sum_delete _ _ _ _ Hi), (inflight_node s i n Hi), l_msgs_app.
  pose proof (l_msgs_length (size (mset s)) (msgs_of n) Hnb) as Hl. unfold msgs_of in Hl at 1. rewrite Hfut in Hl. cbn in Hl. rewrite app_nil_r in Hl.
  unfold kept, l_node, l_core, prs_of. rewrite Hfut, (msgs_length _ Hctl). cbn -[size]. lia.
Qed.

Lemma room_used s i n : sys_inv s → settled s → room s → s_nodes s !! i = Some n → n_used n + 2 <= MAX_MESSAGE.
Proof. intros Hs Hset Hr Hi. pose proof (kept_load s i n Hs Hset Hi). pose proof (Hr i n Hi). unfold lost in *. lia. Qed.

Lemma internal_pool s s' : full_inv s → settled s → room s → internal s s' → internal (pool := message_pool) s s'.
Proof.
  intros [Hs _] Hset Hr Hst. destruct Hst as [s i n n' Hi Hne Ht|s l m l' n n' Hnet Hi Hn'].
  - pose proof (room_used s i n Hs Hset Hr Hi) as Hu. eapply internal_turn; [done..|].
    destruct (turn_takes n (ni_wf _ _ _ _ (si_node _ Hs i n Hi))) as [[-> _]|[_ ?]]; [done|lia].
  - pose proof (room_used s _ n Hs Hset Hr Hi) as Hu. eapply internal_deliver; [done..|].
    destruct (new_msg_takes n m) as [[-> _]|[_ ?]]; [done|lia].
Qed.

Lemma internal_lost s s' i n' :
  sys_inv s → settled s → internal (pool := message_pool) s s' → s_nodes s' !! i = Some n' → ∃ n, s_nodes s !! i = Some n ∧ lost n' = lost n.
Proof.
  intros Hs Hset Hst. destruct Hst as [s j n n1 Hj Hne Ht|s l m l' n n1 Hnet Hj Hn1]; cbn; intros [[<- <-]|[_ Hi]]%lookup_insert_Some;
    try (by exists n'); exists n; (split; [done|]).
  - change (lost (with_out n1 [])) with (lost n1). destruct (turn_takes n (ni_wf _ _ _ _ (si_node _ Hs j n Hj))) as [[E H]|[E _]]; [|congruence].
    rewrite Ht in E. destruct (H n1 (eq_sym E)) as [_ ->]. pose proof (proj2 (proj2 Hset j n Hj)) as Hctl. unfold ctl_of in Hctl.
    destruct (n_msgs n) as [|op msgs]; [done|]. rewrite filter_cons in Hctl. destruct op; cbn in Hctl |- *; try lia; done.
  - destruct (new_msg_takes n m) as [[E H]|[E _]]; [|congruence]. rewrite Hn1 in E. destruct (H n1 (eq_sym E)) as [_ ->]. lia.
Qed.

(** What the steps with the pool keep, out of the recoveries. *)
Definition calm_inv s : Prop := full_inv s ∧ settled s ∧ room s.

Lemma calm_internal s s' : calm_inv s → internal (pool := message_pool) s s' → calm_inv s' ∧ (weight s' < weight s)%nat.
Proof using TargetLaws0.
  intros (Hf & Hset & Hr) Hst. pose proof (internal_endless s s' (proj1 Hf) Hst) as Hst'. destruct (internal_settled s s' Hf Hset Hst') as (Hset' & Hw & Hl).
  split; [|done]. split; [by eapply internal_full|]. split; [done|]. intros i n' Hi. destruct (internal_lost s s' i n' (proj1 Hf) Hset Hst Hi) as (n & Hn & ->).
  pose proof (Hr i n Hn). lia.
Qed.

Lemma calm_bounded s s' k : calm_inv s → nsteps (internal (pool := message_pool)) k s s' → calm_inv s' ∧ (k + weight s' <= weight s)%nat.
Proof using TargetLaws0.
  intros Hc Hn. induction Hn as [s|k s1 s2 s3 Hst _ IH]; [done|]. destruct (calm_internal s1 s2 Hc Hst) as [Hc2 Hw].
  destruct (IH Hc2). split; [done|]. lia.
Qed.

Lemma calm_stuck s : calm_inv s → (∀ s', ¬ internal (pool := message_pool) s s') → idle s.
Proof using TargetLaws0. intros (Hf & Hset & Hr) Hno. apply stuck_idle; [done|done|]. intros s' Hst. by apply (Hno s'), internal_pool. Qed.

Lemma calm_ends s : calm_inv s → ∃ s', rtc (internal (pool := message_pool)) s s' ∧ idle s'.
Proof using TargetLaws0.
  remember (weight s) as w eqn:Ew. revert s Ew. induction (lt_wf w) as [w _ IH]. intros s -> Hc. pose proof Hc as (Hf & Hset & Hr).
  destruct (stuck_or_steps s Hf) as [Hno|[s' Hs']]; [exists s; split; [done|by apply stuck_idle]|].
  apply internal_pool in Hs'; [|done..]. destruct (calm_internal s s' Hc Hs') as [Hc' Hw]. destruct (IH _ Hw s' eq_refl Hc') as (s2 & Hr2 & Hi2).
  exists s2. split; [by eapply rtc_l|done].
Qed.
End theorems.
