(* ===== verification/PrLockSched.v ===== *)
(** * Runs of the reservation lock

    An executable scheduler of the system of [PrLockSys], whose runs are steps of
    the system, and the states that two nodes reach with the target of
    [PrLockTarget]. *)

From S2P Require Import Prelude Nodeset PrReserve PrLock PrLockNode PrLockTarget PrLockSys PrLockTurn PrLockPool PrLockIdle.
From stdpp Require Import options.

(** ** The scheduler *)

Inductive event {D : Type} := E_turn (i : Z) | E_deliver | E_command (i : Z) (d : D) | E_post (i : Z).
Arguments event : clear implicits.

Section scheduler.
Context {X D P : Type} `{!Target X D P} {pool : Pool}.
Implicit Types (s : system X D P) (n : node_t X D P).

Definition do_event s (ev : event D) : option (system X D P) :=
  match ev with
  | E_turn i =>
      n ← s_nodes s !! i;
      match n_msgs n with [] => None | _ => n' ← algopr_thread_turn n; Some (flushed s i n') end
  | E_deliver =>
      match s_net s with
      | [] => None
      | m :: l => n ← s_nodes s !! to_node_id m; n' ← algopr_new_msg n m; Some (update s (to_node_id m) n' l)
      end
  | E_command i d => n ← s_nodes s !! i; n' ← algopr_pr_new_pr n d; Some (update s i n' (s_net s))
  | E_post i =>
      '(st, todo) ← s_rec s; n ← s_nodes s !! i;
      if bool_decide (i ∈ todo) then n' ← post n (stage_op s st); Some (posting s st todo i n') else None
  end.

Fixpoint do_events s (evs : list (event D)) : option (system X D P) :=
  match evs with [] => Some s | ev :: evs' => s ← do_event s ev; do_events s evs' end.

Lemma do_event_step s ev s' : do_event s ev = Some s' → step s s'.
Proof.
  destruct ev as [i| |i d|i]; cbn [do_event].
  - intros (n & Hi & H)%bind_Some. destruct (n_msgs n) as [|op msgs] eqn:Em; [done|]. apply bind_Some in H as (n' & Ht & [= <-]).
    apply step_internal. eapply internal_turn; [done|by rewrite Em|done].
  - destruct (s_net s) as [|m l] eqn:En; [done|]. intros (n & Hi & (n' & Hn & [= <-])%bind_Some)%bind_Some.
    apply step_internal. by eapply (internal_deliver s []).
  - intros (n & Hi & (n' & Hn & [= <-])%bind_Some)%bind_Some. by eapply step_new_pr.
  - intros ([st todo] & Hr & (n & Hi & H)%bind_Some)%bind_Some. case_bool_decide; [|done].
    apply bind_Some in H as (n' & Hn & [= <-]). by eapply step_post.
Qed.

Lemma do_events_steps s evs s' : do_events s evs = Some s' → rtc step s s'.
Proof.
  revert s. induction evs as [|ev evs IH]; intros s; cbn [do_events]; [by intros [= <-]|].
  intros (s1 & H1 & H2)%bind_Some. eapply rtc_l; [by eapply do_event_step|by apply IH].
Qed.

Definition settled_check s : bool :=
  match s_rec s with
  | None => forallb (λ p, negb (suspended (n_shared p.2)) && match ctl_of p.2 with [] => true | _ => false end) (map_to_list (s_nodes s))
  | Some _ => false
  end.

Lemma settled_check_ok s : settled_check s = true → settled s.
Proof.
  unfold settled_check. destruct (s_rec s) eqn:Hr; [done|]. intros H. split; [done|]. intros i n Hi.
  assert (Hin : (i, n) ∈ map_to_list (s_nodes s)) by (by apply elem_of_map_to_list). rewrite forallb_forall in H.
  apply list_elem_of_In in Hin. apply H in Hin. cbn in Hin. destruct (suspended (n_shared n)); [done|]. by destruct (ctl_of n).
Qed.

Definition room_check s : bool :=
  forallb (λ p, lost p.2 + Z.of_nat (load s) + 2 <=? MAX_MESSAGE) (map_to_list (s_nodes s)).

Lemma room_check_ok s : room_check s = true → room s.
Proof.
  unfold room_check. rewrite forallb_forall. intros H i n Hi. assert (Hin : (i, n) ∈ map_to_list (s_nodes s)) by (by apply elem_of_map_to_list).
  apply list_elem_of_In in Hin. apply H in Hin. by apply Z.leb_le.
Qed.
End scheduler.

#[local] Existing Instance message_pool.

(** ** Two nodes *)

Definition two_nodes : exa_nodeset_t := default EXA_NODESET_EMPTY (exa_nodeset_add (default EXA_NODESET_EMPTY (exa_nodeset_add EXA_NODESET_EMPTY 0)) 1).

Lemma two_nodes_wf : nodeset_wf two_nodes ∧ nodes_of two_nodes ≠ ∅.
Proof.
  assert (H0 : valid_node 0) by (unfold valid_node, EXA_MAX_NODES_NUMBER; lia). assert (H1 : valid_node 1) by (unfold valid_node, EXA_MAX_NODES_NUMBER; lia).
  destruct (add_spec EXA_NODESET_EMPTY 0 empty_wf H0) as (m0 & E0 & W0 & N0). destruct (add_spec m0 1 W0 H1) as (m1 & E1 & W1 & N1).
  unfold two_nodes. rewrite E0. cbn [default from_option id]. change (default EXA_NODESET_EMPTY (Some m0)) with m0. rewrite E1.
  change (default EXA_NODESET_EMPTY (Some m1)) with m1. split; [done|]. rewrite N1. intros E.
  apply (not_elem_of_empty (C := gset Z) 1). rewrite <- E. apply elem_of_union. left. by apply elem_of_singleton.
Qed.

(** Two nodes that begin with the reservations [ctx]. *)
Section two.
Context {X D P : Type} `{!Target X D P} (ctx : Z → X) (d0 d1 : D).

Definition begun : system X D P := recovering start two_nodes ctx.

Lemma begun_reachable : reachable begun.
Proof.
  apply rtc_once, step_recover.
  - split; [done|]. intros i n. change (s_nodes start) with (∅ : gmap Z (node_t X D P)). by rewrite lookup_empty.
  - apply two_nodes_wf.
  - apply two_nodes_wf.
  - intros i j. cbn. lia.
Qed.

Definition run_from_begun (evs : list (event D)) : system X D P := default begun (do_events begun evs).

Lemma run_reachable evs : reachable (run_from_begun evs).
Proof.
  unfold run_from_begun. destruct (do_events begun evs) as [s|] eqn:E; [|exact begun_reachable].
  unfold reachable. transitivity begun; [exact begun_reachable|by apply (do_events_steps begun evs)].
Qed.

Definition node_of (s : system X D P) (i : Z) : node_t X D P := default (algopr_thread_init i (ctx i)) (s_nodes s !! i).

(** Both nodes are told the membership, and get a command each. *)
Definition settled_run : list (event D) :=
  [E_post 0; E_post 1; E_post 0; E_post 1; E_post 0; E_post 1; E_turn 0; E_turn 0; E_turn 0; E_turn 1; E_turn 1; E_turn 1;
   E_command 1 d1; E_command 0 d0].
(** The first node brings the other one up to date. *)
Definition update_run : list (event D) :=
  settled_run ++ [E_deliver; E_turn 1; E_deliver; E_turn 0; E_turn 0; E_turn 0; E_turn 0; E_turn 0; E_turn 0; E_deliver].
(** The commands are executed. *)
Definition idle_run : list (event D) :=
  update_run ++ [E_turn 1; E_deliver; E_turn 0; E_turn 0; E_deliver; E_turn 1; E_deliver; E_turn 0; E_turn 0; E_deliver;
   E_turn 1; E_deliver; E_turn 0; E_turn 0; E_deliver; E_turn 1; E_deliver; E_turn 0; E_turn 0; E_turn 0; E_deliver; E_turn 1;
   E_deliver; E_turn 0; E_turn 0].
End two.

(** *** The reservations of the target

    A session is opened on the second node, and a session of the first node
    registers a key for the unit 0. *)
Definition no_reservation (_ : Z) : option pr_context_t := Some pr_context_alloc.
Definition open_session : target_cmd_t :=
  SAM_COMMAND (default [] (default None (scsi_pack (MAX_LUNS + 1) (scsi_global_session_id 1 0) [] SCSI_PACK_NEW_SESSION 0 PACK_BUFFER_TEMP))).
Definition register_key : target_cmd_t :=
  TARGET_CMD false 0 0 0 ([PERSISTENT_RESERVE_OUT; PR_OUT_REGISTER] ++ replicate 29 0 ++ [11] ++ replicate 32 0).

Definition target_run (evs : target_cmd_t → target_cmd_t → list (event target_cmd_t)) :
    system (option pr_context_t) target_cmd_t packed_t :=
  run_from_begun no_reservation (evs register_key open_session).
