(* ===== verification/PrLockThm.v ===== *)
(** * What the reservation lock guarantees

    The theorems on the system of [PrLockSys]: no thread aborts, one node at most
    executes a command, the nodes have the same reservations when the lock is
    free, and out of the recoveries every command that was given to a node ends
    after a bounded number of steps. *)

From S2P Require Import Prelude Nodeset PrLock PrLockNode PrLockProto PrLockAct PrLockStep PrLockServe PrLockRecover PrLockMove PrLockCoh PrLockLive.
From S2P Require Import PrLockSys PrLockTurn PrLockRun PrLockSafe PrReserve PrLockTarget PrLockPool PrLockIdle PrLockSched.
From stdpp Require Import options.

#[local] Existing Instance message_pool.

Section theorems.
Context {X D P : Type} `{!Target X D P} `{!TargetLaws X D P}.
Implicit Types (s : system X D P) (n : node_t X D P) (m : algopr_message_t P).

(** ** No assertion fails *)

(** C9: in every state that the nodes reach, whatever the order of the turns of the
    threads, of the deliveries and of the commands of the targets, in a recovery
    or out of it, no assertion of the lock client, of the lock server or of the
    thread fails: the next turn of each thread returns as soon as the pool has the
    elements that it takes, two at most, and each message of the network is
    accepted by the node it is for as soon as the pool has an element; the only
    other outcome is to wait for these elements. (A recovery begins when all the
    nodes have handled the previous one, and two nodes share fewer than 65536
    memberships in a row.) *)
Theorem lock_never_aborts s :
  reachable s →
  (∀ i n, s_nodes s !! i = Some n → ∃ n', algopr_thread_turn (pool := endless_pool) n = Some n' ∧
    (algopr_thread_turn n = Some n' ∨ algopr_thread_turn n = None ∧ MAX_MESSAGE < n_used n + 2)) ∧
  (∀ m, m ∈ s_net s → ∃ n n', s_nodes s !! to_node_id m = Some n ∧ algopr_new_msg (pool := endless_pool) n m = Some n' ∧
    (algopr_new_msg n m = Some n' ∨ algopr_new_msg n m = None ∧ MAX_MESSAGE < n_used n + 1)).
Proof using TargetLaws0.
  intros Hr%reachable_endless. destruct (reachable_full s Hr) as [Hs _]. split.
  - intros i n Hi. assert (∃ n', algopr_thread_turn (pool := endless_pool) n = Some n') as [n' E].
    { destruct (decide (n_msgs n = [])) as [E|E]; [unfold algopr_thread_turn; rewrite E; by eexists|].
      destruct (turn_returns s i n Hs Hi E) as (n' & -> & _). by eexists. }
    exists n'. split; [done|]. destruct (turn_takes n (ni_wf _ _ _ _ (si_node _ Hs i n Hi))) as [[-> _]|H]; [by left|by right].
  - intros m (l & l' & Hnet)%list_elem_of_split. destruct (deliver_returns s l m l' Hs Hnet) as (n & n' & Hn & Hn' & _). exists n, n'.
    split; [done|]. split; [done|]. destruct (new_msg_takes n m) as [[-> _]|H]; [by left|by right].
Qed.

(** ** One node at most has the lock *)

(** C10: in every state that the nodes reach, one node at most executes a command and
    waits for the others or is about to use the lock it was given, also in the
    middle of a recovery that changes the lock server. *)
Theorem one_node_executes s i j n n' :
  reachable s → s_nodes s !! i = Some n → s_nodes s !! j = Some n' → executes n → executes n' → i = j.
Proof using TargetLaws0.
  intros Hr%reachable_endless Hi Hj Hx Hx'. destruct (reachable_full s Hr) as [Hs _]. destruct (go_lock _ _ _ (si_good _ Hs)) as (t & Hl & _).
  destruct (executes_token s t i n Hs Hl Hi Hx) as [E|(m & E & Hm)], (executes_token s t j n' Hs Hl Hj Hx') as [E'|(m' & E' & Hm')]; congruence.
Qed.

(** ** The reservations agree *)

(** C4: out of the recoveries, when the lock server is in the state in which the lock
    is free, all the nodes have the same reservations; when it is in the state in
    which the lock is given, and a node executes a command, the nodes that have
    acknowledged the command have the reservations of that node. (The
    reservations change by the lock only.) *)
Theorem reservations_agree s n0 :
  reachable s → settled s → s_nodes s !! first_of (s_mship s) = Some n0 →
  (s_state (n_server n0) = ALGOPR_LOCKSERVER_STATE_READY_UNLOCKED →
    ∀ i j n n', s_nodes s !! i = Some n → s_nodes s !! j = Some n' → n_ctx n = n_ctx n') ∧
  (s_state (n_server n0) = ALGOPR_LOCKSERVER_STATE_READY_LOCKED →
    ∀ i n, s_nodes s !! i = Some n → c_state (n_client n) = ALGOPR_LOCKCLIENT_STATE_WAIT_PROCESS_REMOTE →
    ∀ j n', s_nodes s !! j = Some n' → j ∈ nodes_of (PR_read_membership_ok (n_client n)) → n_ctx n' = n_ctx n).
Proof using TargetLaws0.
  intros Hr%reachable_endless Hset H0. destruct (reachable_full s Hr) as (Hs & Hc & _). pose proof (core_settled s _ n0 Hset H0) as Hk0.
  assert (Hrn : is_ready (core_of 3 n0) = true → ready_new (env_of s) (cores s)) by (intros Hrd; by exists (core_of 3 n0)). split.
  - intros Hst i j n n' Hi Hj. destruct (go_lock _ _ _ (si_good _ Hs)) as (t & Hl & _).
    assert (Ht : t = NoTok) by (pose proof (li_holds _ _ _ _ Hl _ _ Hk0) as Hh; unfold holds in Hh; cbn in Hh; by rewrite Hst in Hh). subst t.
    apply (ch_same _ _ _ _ (Hc (Hrn ltac:(unfold is_ready; cbn; by rewrite Hst)))) with (i := i) (j := j) (k := core_of 3 n) (kj := core_of 3 n');
      [|by apply core_settled..]. split.
    + intros y ky Hy. destruct (k_wait ky) eqn:Hw; [|done]. by destruct (li_wait _ _ _ _ Hl y ky Hy Hw).
    + intros m Hm Hlive. by pose proof (live_perm _ _ _ _ m Hl Hm Hlive).
  - intros Hst i n Hi Hw j n' Hj Hin.
    refine (ch_ok _ _ _ _ (Hc (Hrn _)) i (core_of 3 n) j (core_of 3 n') _ _ _ Hin); [unfold is_ready; cbn; by rewrite Hst|by apply core_settled| |by apply core_settled].
    cbn. by rewrite Hw.
Qed.

(** ** Every command ends *)

(** C3: out of the recoveries, and when the elements that the pools have not lost are
    enough for the messages and the commands there are, the threads and the
    network can do a bounded number of steps by themselves: however they are
    ordered, no thread waits for an element, these steps end, and they end in a
    state where no message and no command is left, the lock is free and all the
    nodes have the same reservations. *)
Theorem commands_end s :
  reachable s → settled s → room s →
  (∀ k s', nsteps internal k s s' → (k <= weight s)%nat ∧ ∀ i n, s_nodes s' !! i = Some n → n_used n + 2 <= MAX_MESSAGE) ∧
  (∀ s', rtc internal s s' → (∀ s'', ¬ internal s' s'') → idle s') ∧
  (∃ s', rtc internal s s' ∧ idle s').
Proof using TargetLaws0.
  intros Hr%reachable_endless Hset Hroom. assert (Hc : calm_inv s) by (by split; [apply reachable_full|]). split; [|split; [|by apply calm_ends]].
  - intros k s' Hn. destruct (calm_bounded s s' k Hc Hn) as [(Hf & Hset' & Hr') ?]. split; [lia|]. intros i n. by apply room_used; [apply Hf|..].
  - intros s' [k Hn]%rtc_nsteps. by apply calm_stuck, (calm_bounded s s' k Hc Hn).
Qed.
End theorems.

(** ** Two nodes with the reservations of the target *)

Abbreviation second s := (node_of no_reservation s 1).
Abbreviation first s := (node_of no_reservation s 0).

Lemma lock_never_aborts_witness :
  is_Some (algopr_thread_turn (second (target_run update_run))) ∧ n_msgs (second (target_run update_run)) ≠ [].
Proof.
  split; [|by vm_compute].
  destruct (proj1 (lock_never_aborts (target_run update_run) (run_reachable no_reservation _)) 1 (second (target_run update_run)))
    as (n' & _ & [E|[_ E]]); [vm_compute; reflexivity|by exists n'|]. exfalso. revert E. vm_compute. discriminate.
Defined.

Lemma one_node_executes_witness : ∃ n, s_nodes (target_run update_run) !! 0 = Some n ∧ executes n ∧ 0 = 0.
Proof.
  exists (first (target_run update_run)). assert (Hn : s_nodes (target_run update_run) !! 0 = Some (first (target_run update_run)))
    by (vm_compute; reflexivity).
  assert (Hx : executes (first (target_run update_run))) by (left; vm_compute; reflexivity).
  split; [exact Hn|]. split; [exact Hx|]. exact (one_node_executes (target_run update_run) 0 0 _ _ (run_reachable no_reservation _) Hn Hn Hx Hx).
Defined.

Lemma reservations_agree_witness :
  n_ctx (first (target_run idle_run)) = n_ctx (second (target_run idle_run)) ∧
  (ctx ← n_ctx (first (target_run idle_run)); p ← pr_info ctx !! 0%nat; pr_info_get_registration_key p 0) = Some 11.
Proof.
  split; [|vm_compute; reflexivity].
  apply (proj1 (reservations_agree (target_run idle_run) (first (target_run idle_run)) (run_reachable no_reservation _)
    (settled_check_ok (target_run idle_run) ltac:(vm_compute; reflexivity)) ltac:(vm_compute; reflexivity)) ltac:(vm_compute; reflexivity) 0 1); vm_compute; reflexivity.
Defined.

Lemma commands_end_witness :
  length (s_net (target_run settled_run)) = 1%nat ∧ ∃ s', rtc internal (target_run settled_run) s' ∧ idle s'.
Proof.
  split; [vm_compute; reflexivity|].
  exact (proj2 (proj2 (commands_end (target_run settled_run) (run_reachable no_reservation _)
    (settled_check_ok (target_run settled_run) ltac:(vm_compute; reflexivity))
    (room_check_ok (target_run settled_run) ltac:(vm_compute; reflexivity))))).
Defined.
