(* ===== verification/PrLockBounds.v ===== *)
(** * Limits of the reservation lock

    Two limits that the recoveries reach: the elements of [ALGOPR_SUSPEND] and
    [ALGOPR_RESUME] never go back to the pool of [MAX_MESSAGE] elements, and the
    counts of memberships have 16 bits in a message only. *)

From S2P Require Import Prelude Nodeset PrReserve PrLock PrLockNode PrLockTarget PrLockSys PrLockSafe PrLockPool PrLockSched.
From stdpp Require Import options.

#[local] Existing Instance message_pool.

Section bounds.
Context {X D P : Type} `{!Target X D P}.
Implicit Types (n r : node_t X D P).

Abbreviation this n := (this_node_id (n_shared n)).

(** ** The pool *)

(** The three operations that a recovery posts, each handled in its turn. *)
Definition recover_node n (mb : exa_nodeset_t) : option (node_t X D P) :=
  n ← algopr_suspend n; n ← algopr_thread_turn n;
  n ← algopr_new_membership n mb; n ← algopr_thread_turn n;
  n ← algopr_resume n; algopr_thread_turn n.

Fixpoint recoveries (nb : nat) n (mb : exa_nodeset_t) : option (node_t X D P) :=
  match nb with O => Some n | S nb' => n ← recover_node n mb; recoveries nb' n mb end.

(** A node with nothing to do. *)
Record resting n (c : Z) : Prop := {
  re_wf : node_wf n;
  re_msgs : n_msgs n = [];
  re_future : n_future n = [];
  re_state : c_state (n_client n) = ALGOPR_LOCKCLIENT_STATE_PASSIVE;
  re_pending : msg_new_pr (n_client n) = [];
  re_locks : msg_lock (n_server n) = [];
  re_inc : ∀ j, valid_node j → inc_of n j <= c
}.

Lemma post_free n op : n_used n < MAX_MESSAGE → post n op = Some (posted n op).
Proof. intros H. destruct (post_takes n op) as [[-> _]|[_ ?]]; [done|lia]. Qed.

(** A node that is not the lock server tells it without taking an element. *)
Lemma send_server_far n t :
  PR_lockserver (n_shared n) ≠ this n →
  send_to_lockserver n t = send_to_lockserver (pool := endless_pool) n t ∧
  ∀ n', send_to_lockserver n t = Some n' → n_shared n' = n_shared n.
Proof.
  intros Hne%Z.eqb_neq. unfold send_to_lockserver, algopr_send_msg, algopr_send_data. rewrite Hne. split; [done|].
  intros n' (a & _ & (b & _ & H)%bind_Some)%bind_Some. destruct (EXA_NODEID_VALID _); cbn in H; [|done]. by injection H as <-.
Qed.

Lemma new_membership_far n mb ls :
  exa_nodeset_first mb = Some ls → ls ≠ this n → c_state (n_client n) = ALGOPR_LOCKCLIENT_STATE_PASSIVE →
  handle_new_membership n mb = handle_new_membership (pool := endless_pool) n mb.
Proof.
  intros Hls Hne Hst. unfold handle_new_membership. destruct (algopr_shared_update (n_shared n) mb) as [sh|] eqn:Esh;
    cbn [mbind option_bind]; [|reflexivity].
  assert (Hfar : PR_lockserver sh ≠ this_node_id sh).
  { unfold algopr_shared_update in Esh. destruct (negb _); cbn [exa_assert] in Esh; [|discriminate]. rewrite Hls in Esh.
    apply bind_Some in Esh as (inc & _ & [= <-]). exact Hne. }
  destruct (algopr_lockserver_flush_msg_lock _) as [n1|] eqn:Ef; cbn [mbind option_bind]; [|reflexivity].
  apply flush_account in Ef as (_ & _ & Hs & Hc). set (n2 := with_server (with_server n1 _) _).
  assert (Hs2 : n_shared n2 = sh) by exact Hs. assert (Hc2 : c_state (n_client n2) = ALGOPR_LOCKCLIENT_STATE_PASSIVE).
  { change (n_client n2) with (n_client n1). rewrite Hc. exact Hst. }
  clearbody n2. rewrite Hc2. destruct (send_server_far n2 ALGOPR_MESSAGE_LOCKSERVER_OK) as [E Hn3]; [by rewrite Hs2|]. rewrite <- E.
  destruct (send_to_lockserver n2 _) as [n3|]; cbn [mbind option_bind]; [|reflexivity]. destruct (0 <? _); [|reflexivity].
  apply send_server_far. rewrite (Hn3 n3 eq_refl), Hs2. exact Hfar.
Qed.

Lemma suspend_turn n c :
  resting n c →
  ∃ n1, algopr_thread_turn (posted n ALGOPR_SUSPEND) = Some n1 ∧ resting n1 c ∧ suspended (n_shared n1) = true ∧ n_used n1 = n_used n + 1 ∧ this n1 = this n.
Proof.
  intros []. unfold algopr_thread_turn, posted. cbn [n_msgs with_used with_lists]. rewrite re_msgs0. cbn [app].
  cbn [n_shared with_used with_lists]. destruct (suspended (n_shared n)) eqn:Hs; (eexists; split; [reflexivity|]); (split; [|done]);
    split; try done; destruct re_wf0; by split.
Qed.

Lemma membership_turn n c mb ls :
  resting n c → suspended (n_shared n) = true → c < 2 ^ 16 - 1 → nodeset_wf mb → nodes_of mb ≠ ∅ → exa_nodeset_first mb = Some ls → valid_node ls →
  ls ≠ this n → 0 <= c →
  ∃ n1, algopr_thread_turn (posted n (ALGOPR_NEW_MEMBERSHIP mb)) = Some n1 ∧ resting n1 (c + 1) ∧ suspended (n_shared n1) = true ∧ n_used n1 = n_used n ∧
    this n1 = this n.
Proof.
  intros Hr Hs Hc Hwf Hne Hls Hv Hnt Hc0. destruct Hr. unfold algopr_thread_turn, posted. cbn [n_msgs with_used with_lists].
  rewrite re_msgs0. cbn [app]. cbn [n_shared with_used with_lists]. rewrite Hs. cbn [handle_message_when_suspended].
  set (n0 := with_lists _ [] _). assert (Hw0 : node_wf n0) by (destruct re_wf0; by split).
  assert (Hinc : ∀ j, valid_node j → inc_of n0 j < 2 ^ 16 - 1) by (intros j Hj; specialize (re_inc0 j Hj); change (inc_of n0 j) with (inc_of n j); lia).
  rewrite (new_membership_far n0 mb ls), (new_membership_ok n0 mb ls) by done. change (n_client n0) with (n_client n). rewrite re_state0. returned.
  pose proof (renewed_wf n0 mb ls Hw0 Hwf Hinc) as Hw1. set (r := renewed n0 mb ls) in *.
  assert (Hd : lock_demand r (n_sequency n0) = []).
  { unfold lock_demand. change (PR_pending (n_client r)) with (PR_pending (n_client n)). by rewrite (nw_pending n re_wf0), re_pending0. }
  rewrite Hd. set (m := server_msg r _ _).
  assert (Es : filter (λ m0, to_node_id m0 = this r) [m] = []) by (rewrite filter_cons_False; [done|]; intros E; by apply Hnt).
  eexists. split; [reflexivity|]. unfold sends. rewrite Es. cbn [fmap list_fmap length app].
  assert (Hnb : msg_lock_nb (n_server n) = 0) by (by rewrite (nw_locks n re_wf0), re_locks0).
  split; [split; try done|].
  - destruct Hw1. by split.
  - intros j Hj. change (next_inc (membership_incarnation (n_shared n)) mb !!! Z.to_nat j <= c + 1). rewrite next_inc_lookup by done.
    specialize (re_inc0 j Hj). unfold inc_of in re_inc0. case_bool_decide; lia.
  - split; [exact Hs|]. split; [|done]. cbn. rewrite Hnb. lia.
Qed.

Lemma resume_turn n c :
  resting n c → suspended (n_shared n) = true →
  ∃ n1, algopr_thread_turn (posted n ALGOPR_RESUME) = Some n1 ∧ resting n1 c ∧ n_used n1 = n_used n + 1 ∧ this n1 = this n.
Proof.
  intros [] Hs. unfold algopr_thread_turn, posted. cbn [n_msgs with_used with_lists]. rewrite re_msgs0. cbn [app].
  cbn [n_shared with_used with_lists]. rewrite Hs. cbn [handle_message_when_suspended]. set (n0 := with_shared _ _).
  rewrite (update_messages_ok n0); [|cbn; rewrite re_future0; constructor]. eexists. split; [reflexivity|].
  assert (E : n_future n0 ++ n_msgs n0 = []) by (cbn; by rewrite re_future0). unfold sorted_out. rewrite E. cbn [filter list_filter length].
  split; [split; try done; destruct re_wf0; by split|]. split; [|done]. cbn. lia.
Qed.

Lemma recover_node_used n c mb ls :
  resting n c → n_used n + 2 <= MAX_MESSAGE → 0 <= c < 2 ^ 16 - 1 → nodeset_wf mb → nodes_of mb ≠ ∅ → exa_nodeset_first mb = Some ls → valid_node ls → ls ≠ this n →
  ∃ n1, recover_node n mb = Some n1 ∧ resting n1 (c + 1) ∧ n_used n1 = n_used n + 2 ∧ this n1 = this n.
Proof.
  intros Hr Hp Hc Hwf Hne Hls Hv Hnt. unfold recover_node, algopr_suspend, algopr_new_membership, algopr_resume.
  rewrite post_free by lia. returned. destruct (suspend_turn n c Hr) as (n1 & -> & Hr1 & Hs1 & Hu1 & Ht1). returned.
  rewrite post_free by lia. returned. destruct (membership_turn n1 c mb ls) as (n2 & -> & Hr2 & Hs2 & Hu2 & Ht2); [done|done|lia|done|done|done|done|congruence|lia|]. returned.
  rewrite post_free by lia. returned. destruct (resume_turn n2 (c + 1) Hr2 Hs2) as (n3 & -> & Hr3 & Hu3 & Ht3). exists n3. split; [done|]. split; [done|]. split; [lia|congruence].
Qed.

Lemma recoveries_used nb n c mb ls :
  resting n c → n_used n + 2 * Z.of_nat nb <= MAX_MESSAGE → 0 <= c → c + Z.of_nat nb <= 2 ^ 16 - 1 → nodeset_wf mb → nodes_of mb ≠ ∅ → exa_nodeset_first mb = Some ls → valid_node ls →
  ls ≠ this n → ∃ n1, recoveries nb n mb = Some n1 ∧ resting n1 (c + Z.of_nat nb) ∧ n_used n1 = n_used n + 2 * Z.of_nat nb.
Proof.
  revert n c. induction nb as [|nb IH]; intros n c Hr Hp Hc Hb Hwf Hne Hls Hv Hnt.
  - exists n. split; [done|]. rewrite !Z.add_0_r. done.
  - cbn [recoveries]. destruct (recover_node_used n c mb ls) as (n1 & -> & Hr1 & Hu1 & Ht1); [done|lia|lia|done..|]. returned.
    destruct (IH n1 (c + 1)) as (n2 & -> & Hr2 & Hu2); [done|lia|lia|lia|done|done|done|done|congruence|].
    exists n2. split; [done|]. rewrite Hu2, Hu1. replace (c + Z.of_nat (S nb)) with (c + 1 + Z.of_nat nb) by lia. split; [done|lia].
Qed.

(** C36: the elements of the operations that suspend and resume a node are not given
    back: after 2500 recoveries a node that has nothing to do, and is not the lock
    server, has taken the 5000 elements of its pool, with none of them in its
    lists, and whatever is posted to it next waits for ever. *)
Theorem recoveries_exhaust_pool n mb ls :
  resting n 0 → n_used n = 0 → nodeset_wf mb → nodes_of mb ≠ ∅ → exa_nodeset_first mb = Some ls → valid_node ls → ls ≠ this n →
  ∃ n', recoveries 2500 n mb = Some n' ∧ n_used n' = MAX_MESSAGE ∧ n_msgs n' = [] ∧ n_future n' = [] ∧ msg_new_pr (n_client n') = [] ∧
    msg_lock (n_server n') = [] ∧ ∀ op, post n' op = None.
Proof.
  intros Hr Hu Hwf Hne Hls Hv Hnt. destruct (recoveries_used 2500 n 0 mb ls) as (n' & E & [] & Hu'); [done|unfold MAX_MESSAGE; lia|lia|lia|done..|].
  assert (n_used n' = MAX_MESSAGE) as Hmax by (rewrite Hu', Hu; done). exists n'. split_and!; try done.
  intros op. unfold post, new_element. rewrite Hmax. done.
Qed.

(** ** The counts of memberships *)

(** The count of memberships is a long in a node and has 16 bits in a message: at
    the 65536th membership that two nodes share, the demand of the lock carries 0
    and the lock server drops it as a message of the past. *)
Theorem incarnations_wrap n :
  valid_node (PR_lockserver (n_shared n)) → PR_lockserver (n_shared n) ≠ this n → is_Some (incarnation n (this n)) →
  incarnation n (PR_lockserver (n_shared n)) = Some (2 ^ 16) →
  ∃ m, send_to_lockserver n ALGOPR_MESSAGE_LOCK = Some (with_out n (n_out n ++ [m])) ∧
    ∀ r, this r = PR_lockserver (n_shared n) → incarnation r (this n) = Some (2 ^ 16) →
      handle_message r (ALGOPR_MESSAGE m) = Some (release_element r).
Proof.
  intros Hv Hne [c Hc] Hinc. unfold send_to_lockserver, algopr_send_msg. rewrite Hinc, Hc. returned. returned. unfold algopr_send_data.
  rewrite (valid_nodeid _ Hv). cbn [exa_assert]. rewrite (proj2 (Z.eqb_neq _ _) Hne). eexists. split; [reflexivity|].
  intros r Ht Hr. cbn. rewrite Ht, Z.eqb_refl. cbn. rewrite Hr. returned. done.
Qed.
End bounds.

(** ** Two nodes *)

Lemma recoveries_exhaust_pool_witness :
  ∃ n' : node_t (option pr_context_t) target_cmd_t packed_t, recoveries 2500 (algopr_thread_init 1 (no_reservation 1)) two_nodes = Some n' ∧ n_used n' = MAX_MESSAGE.
Proof.
  assert (Hr : resting (algopr_thread_init 1 (no_reservation 1) : node_t (option pr_context_t) target_cmd_t packed_t) 0).
  { split; try done; [apply init_wf; done|]. intros j Hj. unfold inc_of. cbn [algopr_thread_init n_shared membership_incarnation].
    rewrite lookup_total_replicate_2 by (unfold valid_node, EXA_MAX_NODES_NUMBER in *; lia). done. }
  assert (Hf : exa_nodeset_first two_nodes = Some 0) by (vm_compute; reflexivity).
  destruct (recoveries_exhaust_pool (algopr_thread_init 1 (no_reservation 1) : node_t (option pr_context_t) target_cmd_t packed_t) two_nodes 0 Hr eq_refl (proj1 two_nodes_wf) (proj2 two_nodes_wf) Hf)
    as (n' & E & Hu & _); [done|done|]. exists n'. split; [exact E|exact Hu].
Defined.

(** A node that has seen 65536 memberships with the lock server. *)
Definition old_node : node_t (option pr_context_t) target_cmd_t packed_t :=
  with_shared (algopr_thread_init 1 (no_reservation 1)) (mk_shared 1 (replicate 128 (2 ^ 16)) two_nodes 0 false).

Lemma incarnations_wrap_witness :
  ∃ m, send_to_lockserver old_node ALGOPR_MESSAGE_LOCK = Some (with_out old_node [m]) ∧ to_membership_incarnation m = 0.
Proof.
  destruct (incarnations_wrap old_node) as (m & E & _); [done|done|by eexists|done|]. exists m. split; [exact E|].
  revert E. vm_compute. by intros [= <-].
Defined.
